(* ===== verification/_CoqProject ===== *)
-Q . S2P
Prelude.v
PyString.v
Sha256.v
Regex.v
Errors.v
Timestamp.v
PyValue.v
Schemas.v
Decimal.v
Unicode.v
Structure.v
StructureFacts.v
Conformance.v
Wire.v
WireSound.v
WireProtocol.v
WireStrings.v
Identifiers.v
TaskScope.v
WireExamples.v
Effects.v
Lifecycle.v
AsyncLifecycle.v
PyFloat.v
Interfaces.v
CanonicalJson.v
JsonScan.v
JsonScanFacts.v
WireText.v
WireTextFacts.v
JsonRoundTrip.v
CanonicalFacts.v
Snapshot.v
Approvals.v
Models.v
CanonicalPath.v
PyUrl.v
CanonicalUrl.v
UrlFacts.v
UrlShape.v
Shell.v
Redaction.v
RedactionFacts.v
RedactionExamples.v
Resources.v
Scope.v
Calm.v
Envelope.v
Executions.v
Retry.v
Credentials.v
HttpMessages.v
Transport.v
TransportFacts.v
Client.v
ClientFacts.v
ClientExamples.v
AsyncClient.v
TransportExamples.v
Validation.v
ValidationFacts.v
Resume.v
Reconciliation.v
Delivery.v
DeliveryExamples.v
Did.v
Jwt.v
JwtFacts.v
Verifiable.v
VerifiableFacts.v
IdentityExamples.v
KeyStore.v
KeyStoreFacts.v
KeyStoreSession.v
KeyStoreMediator.v
Custody.v
Oidc.v
OidcVerifier.v
OidcFacts.v
OidcExamples.v
