(* ===== verification/Prelude.v ===== *)
(** * PaloNexus SDK: a verification library

    The repository holds a protocol for the governance of agent actions and its
    Python SDK.  An agent asks to act; the request is canonicalized, hashed and
    sent as a wire document; a decision may require an approval; an approved
    action is resumed; evidence of what was done is kept locally and delivered
    later.  This library models the code that this correctness rests on, and
    proves what it promises.

    ** The parts and the files that model them

    - The Python language and its Standard Library.  [Prelude] (exceptions as the
      monad [result], tactics, shared lemmas), [PyString] ([str] and [bytes] as
      lists of numbers), [PyValue] (JSON-like values; a [dict] is an association
      list in insertion order), [Decimal], [Regex] (the subset of [re] in use),
      [Sha256], [PyUrl] ([urllib.parse]), [PyFloat] (binary64), [JsonScan] (the
      scanner of [json], with the hooks its callers pass, and its facts in
      [JsonScanFacts]), the calendar of [Timestamp], and [Errors] (the type [exn]
      of exceptions, and [palonexus/errors.py]).
    - The canonicalizer, [palonexus/_canonicalize.py].  [Unicode] ([_nfc] and
      UTF-8), [Decimal] ([_decimal_text]), [CanonicalJson] (snapshots over a heap
      with sharing and cycles, and the encoder), [JsonRoundTrip] ([parse_json] and
      its facts), [CanonicalPath], [CanonicalUrl], [Shell], [Resources] (prepared
      resources) and [Scope] (targets and scope hashes).  [CanonicalFacts],
      [Snapshot], [UrlFacts] and [UrlShape] hold the proofs.
    - The reference validation, [protocol/reference/validate.py].  [Timestamp],
      [Validation] (documents and the approval state machine) and [Resume], with
      [ValidationFacts].
    - The reconciliation of recorded evidence, [protocol/reference/reconciliation.py].
      [Reconciliation] has one definition per function; [Delivery] has the
      abstract machine that the accepted transitions refine and the contract of
      ordered batches; [DeliveryExamples] runs approvals and a delivery.
    - The generated wire types, [palonexus/_generated/protocol.py].  [Schemas] has
      the JSON schemas as data, [Structure] the interpreter of schemas and the
      limits, [Wire] the classes as tables of fields with the conversions that
      interpret them; [WireText] has the JSON texts: the preflight scan, strict
      loading and [to_json_bytes].  [StructureFacts], [Conformance], [WireSound],
      [WireProtocol], [WireStrings] and [WireTextFacts] hold the proofs and
      [WireExamples] the examples.
    - Identifiers and task scopes, [palonexus/context.py].  [Identifiers] has the
      generator of ULIDs with its state, [TaskScope] the task contexts and the
      scopes over the bindings of execution contexts.
    - Public models and approval records, [palonexus/models.py] and
      [palonexus/approvals.py].  [Models] and [Approvals].
    - Sealed executions and the request builder, [palonexus/protocol.py].
      [Envelope] has the objects as identities in a [world] that holds their
      execution states, and one definition per method of the builder;
      [Executions] has the step relation of a program that uses them.
    - The client, [palonexus/client.py].  [Client] has decisions, approvals,
      polling and resuming, over a call of the transport that answers and may change
      the objects ([decide_through]) or only answers ([decide]), with the proofs in
      [ClientFacts]; [Lifecycle] has the
      operations and [close] as steps of interleaved threads.  [ClientExamples]
      runs an action from its target to its resumption.
    - The asynchronous client, [palonexus/async_client.py].  [AsyncClient] has its
      operations, over a world with the client, the task and the objects;
      [AsyncLifecycle] has the operations, [aclose] and the close task as steps of
      tasks that may be cancelled.
    - Redaction, [palonexus/redaction.py].  [Redaction] has the substitutions of
      [re] in the order of its engine, the redactor of texts, headers, queries, URLs
      and commands, and the loop that copies nested values into a store of mutable
      containers.  [RedactionFacts] holds the proofs and [RedactionExamples] the
      examples.
    - The transports, [palonexus/retry.py], [palonexus/credentials.py] and
      [palonexus/transports/http.py].  [Retry] has the policy and its decisions,
      [Credentials] the life of a credential and its acquisition from providers,
      [HttpMessages] the attempts, timeouts, responses and bodies, [Transport] the
      waiting loops and [decide] of both transports, over a list of rounds that
      record what the network, the clocks and the callback give.  [Calm] has the
      exceptions that may leave the functions they call, [TransportFacts] the
      proofs and [TransportExamples] the examples.
    - Identities, [palonexus/identity/did.py] and [palonexus/identity/vc.py].
      [Did] has base58, key identifiers and signatures, [Jwt] the signed tokens
      over canonical JSON, [Verifiable] the credentials, presentations with their
      replay store, and delegation chains.  [JwtFacts] has what a token reads back,
      [VerifiableFacts] the proofs and [IdentityExamples] the examples.
    - The key store, [palonexus/keystore.py].  [KeyStore] has buffers and leases as
      addresses of a heap, the store in memory and the mediator of a backend, in the
      state monad of [Effects]; [KeyStoreFacts], [KeyStoreSession] (a session as a
      step relation) and [KeyStoreMediator] hold the proofs, and [Custody] lets the
      signatures of [Did] take their keys from a store.
    - OIDC, [palonexus/identity/oidc.py].  [Oidc] has the configuration, documents,
      tokens, keys and claims, [OidcVerifier] the verifier with its cache, lanes and
      backoff, as other threads interleave with it; [OidcFacts] holds the proofs and
      [OidcExamples] the examples.

    The components meet in [Interfaces]: the validators use the canonicalizer
    through the class [Canonicalizer], whose laws [CanonicalFacts] discharges, and
    the package [jsonschema] through [SchemaValidator].  The Unicode database
    ([UnicodeData]) and IDNA with the tables of [urllib] ([UrlData]) are
    third-party code or data as well, and so are the power function of C
    ([FloatPow]), the parser of e-mail dates ([EmailDates]), Ed25519 ([Ed25519] with
    [Ed25519Laws]), what the OIDC verifier uses of address registries, of IDNA and of
    cryptography ([IpData], [IdnaCodec], [OidcCrypto]), and the character tables and
    the logarithm of the redactor ([TextData], [FloatLog2]); their classes state the
    documented facts in use, and each has an instance by which the examples run.  Of
    pydantic, the models use that a [ValueError] of a validator becomes a validation error.

    ** How code is translated

    A function that may raise is a function into [result exn A], and every early
    return, guard and exception of the code is a branch.  State (the generator of
    identifiers, the budget and the memo of a snapshot, the bindings of task
    scopes, the execution states of sealed objects) is passed explicitly.  What a call
    observes of its environment (clock, entropy, process id, the answers of
    transports) is an argument.  Names are those of the source, without leading
    underscores; a loop or a long function may have a definition per part, and the
    coroutines of the asynchronous client have an [a] before their name.

    ** What the theorems show

    - Canonical bytes: equal bytes exactly for values that denote the same document
      ([same_json], stated without the encoder); the bytes parse back to the
      canonical form; snapshots of shared objects are those of the values
      they denote; numbers and timestamps are exact.
    - Binding: prepared resources, targets and scope hashes determine what is
      executed, or SHA-256 collides on two values that the theorem exhibits.
    - Redaction: diagnostic URLs and commands do not depend on secrets, and the
      redactor's output does not depend on values under sensitive names; the copy of
      nested values ends, equals a recursive one and is bounded; what is written has no
      control characters, but for sensitive names in commands.
    - Approvals: accepted transitions follow the state machine, and a resumed
      action is the one that was approved.
    - Delivery: accepted transitions refine the abstract machine; attempts are
      counted and bounded along every sequence, or SHA-256 collides on two
      consecutive records; terminal records stay.
    - Wire documents: a parser ends on every document and decides conformance to
      the schema; parsing and writing are inverse; the limits are exact; on texts,
      decoding ends and raises nothing but [ProtocolStructureError].
    - Identifiers and scopes: identifiers are valid and strictly increasing per
      process; scopes are lexical.
    - Executions: the value of a prepared target is handed out at most once, in
      every sequence of operations; a resume commits entirely or leaves all
      actions as they were.
    - The client: an allow is bound to the sealed request; a wait ends with a
      decided record or at the deadline; transports are closed once and when no
      operation is active, and [close] completes with the same outcome for all
      callers.  The asynchronous client does what the synchronous one does if the
      objects change in the same way during its awaits, and its close is safe and completes although
      its callers are cancelled.
    - The key store: every session refines a map from names to secrets; secrets in
      memory have an owner and are erased; a backend is mediated; a key in custody
      signs after any session that leaves its entry alone.
    - OIDC: an identity that is returned was stated by a current token, signed with
      a key that the issuer published; refreshes and their requests are bounded, and
      keys in the cache suffice.
    - The transports: retries and requests are bounded and end; what is sent is the
      sealed request and what is returned answers it; errors carry nothing but
      safe identifiers; credentials are erased before a call is left, or by the
      callback of the provider's task that a cancelled call leaves behind; the
      asynchronous transport does what the synchronous one does.
    - Identities: an identifier stands for one key and a key has one identifier; a
      credential, presentation or delegation that is returned was signed by its
      issuer for this audience and is current and not revoked; what is created
      verifies and reads back; a presentation is accepted once; delegation only
      narrows authority; failures say nothing of their cause.
    - Eight theorems show behaviour the code does not mean to have: the range of
      decimals is checked after rounding, the nesting limit depends on sharing,
      normalization can break a percent escape, a NaN leaves the schema
      interpreter as an exception of another type, a steep backoff overflows
      before it is capped, leap seconds pass the transport, an issuer with a
      trailing slash cannot be configured, and an assignment that stands in the value
      of another one is not redacted.

    ** Bounds and fuel

    The interpreter of schemas recurses on the value and on references; its fuel
    is the depth of nested calls, and running out is [RecursionError], as in
    Python.  170 nested calls are enough for every value within the limits (32
    levels, five nodes of the schema per level at most); Python allows 1000 frames
    at three per call.  The work lists of the limits and of the extension numbers
    take a measure of their stack as fuel and are shown to end.  The scanner of
    JSON and the preflight scan take the length of the text, and are shown to end
    within it; the removal of dot segments takes the length of the path.  Base58
    digits of a number take twice the number of its bytes, one digit for each round.
    The walk over shared objects takes the nesting limit, which the
    code checks itself.  The redactor's copy visits one node and [max_items] for each
    of [max_nodes]; a substitution takes the length of its text, of which each match
    takes a part; a key that is not in use is found after as many extensions as there
    are keys.

    ** Not modelled

    The test-vector generator in [_canonicalize.py];
    [protocol/reference/canonicalize.py], which is the same text as the modelled
    file; the checks of the origin and path of the transport's configuration, which
    rest on a third-party URL class, the thread of its network runtime and the
    sleepers of its tests; the fetching of OIDC documents over pinned addresses,
    which is network I/O (what a fetch gives is an argument of the verifier);
    of the modelled classes, the refused constructors and mutators, copying and
    [repr]; and the developer tools, framework integrations, command line, test
    doubles and scripts, which are I/O, behaviour of third-party frameworks or
    repository tooling. *)

From stdpp Require Import base list list_numbers numbers strings gmap.
From Stdlib Require Export ZArith Lia.

Open Scope Z_scope.

(** ** Results of fallible code

    Python code that may raise is a function into [result E A]: [Ok a] is a
    normal return and [Raise e] an exception that leaves the function. *)

Inductive result (E A : Type) : Type :=
| Ok (a : A)
| Raise (e : E).
Arguments Ok {E A} a.
Arguments Raise {E A} e.

#[global] Instance result_eq_dec `{EqDecision E, EqDecision A} : EqDecision (result E A).
Proof. solve_decision. Defined.

#[global] Instance result_ret {E} : MRet (result E) := λ A a, Ok a.
#[global] Instance result_bind {E} : MBind (result E) := λ A B f m,
  match m with Ok a => f a | Raise e => Raise e end.
#[global] Instance result_fmap {E} : FMap (result E) := λ A B f m,
  match m with Ok a => Ok (f a) | Raise e => Raise e end.

(** [raise_if c e] is [if c: raise e]. *)
Definition raise_if {E} (c : bool) (e : E) : result E () := if c then Raise e else Ok ().

(** [a or b] and [a and b] where the operands may raise: the right operand is
    evaluated only when the left one does not decide. *)
Definition orM {E} (a : result E bool) (b : result E bool) : result E bool :=
  x ← a; if (x : bool) then Ok true else b.
Definition andM {E} (a : result E bool) (b : result E bool) : result E bool :=
  x ← a; if (x : bool) then b else Ok false.

(** [try: m except e if p e: raise h e]. *)
Definition map_raise {E A} (h : E → E) (m : result E A) : result E A :=
  match m with Ok a => Ok a | Raise e => Raise (h e) end.

Definition is_Ok {E A} (m : result E A) : bool := match m with Ok _ => true | Raise _ => false end.

Declare Scope py_scope.
Delimit Scope py_scope with py.
Infix "<||>" := orM (at level 50, left associativity) : py_scope.
Infix "<&&>" := andM (at level 40, left associativity) : py_scope.
Open Scope py_scope.

Section result_lemmas.
Context {E A B : Type}.
Implicit Types (m : result E A) (f : A → result E B).

Lemma bind_Ok_iff m f (b : B) :
  (m ≫= f) = Ok b ↔ ∃ a, m = Ok a ∧ f a = Ok b.
Proof. destruct m; cbn; naive_solver. Qed.

Lemma bind_Raise_iff m f (e : E) :
  (m ≫= f) = Raise e ↔ m = Raise e ∨ ∃ a, m = Ok a ∧ f a = Raise e.
Proof. destruct m; cbn; naive_solver. Qed.

Lemma raise_if_Ok_iff (c : bool) (e : E) u : raise_if c e = Ok u ↔ c = false.
Proof. destruct c, u; cbn; naive_solver. Qed.

Lemma map_raise_Ok_iff (h : E → E) m a : map_raise h m = Ok a ↔ m = Ok a.
Proof. destruct m; cbn; naive_solver. Qed.
End result_lemmas.

Lemma orM_false_iff {E} (a b : result E bool) :
  (a <||> b) = Ok false ↔ a = Ok false ∧ b = Ok false.
Proof. unfold orM; destruct a as [[]|]; cbn; naive_solver. Qed.

Lemma andM_true_iff {E} (a b : result E bool) :
  (a <&&> b) = Ok true ↔ a = Ok true ∧ b = Ok true.
Proof. unfold andM; destruct a as [[]|]; cbn; naive_solver. Qed.

Lemma andM_false_iff {E} (a b : result E bool) :
  (a <&&> b) = Ok false ↔ a = Ok false ∨ (a = Ok true ∧ b = Ok false).
Proof. unfold andM; destruct a as [[]|]; cbn; naive_solver. Qed.

Lemma orM_true_iff {E} (a b : result E bool) :
  (a <||> b) = Ok true ↔ a = Ok true ∨ (a = Ok false ∧ b = Ok true).
Proof. unfold orM; destruct a as [[]|]; cbn; naive_solver. Qed.


Lemma fmap_Ok_iff {E A B} (f : A → B) (m : result E A) (b : B) :
  (f <$> m) = Ok b ↔ ∃ a, m = Ok a ∧ f a = b.
Proof. destruct m; cbn; naive_solver. Qed.

(** ** Automation

    [inv_ok] opens every hypothesis [(x ← m; k) = Ok r] (and the connectives
    above) into the facts about the steps of [m]; [inv_if] splits a [bool]
    conditional whose two branches are known to differ. *)

Ltac inv_ok_step :=
  match goal with
  | H : Ok (_, _) = Ok (_, _) |- _ =>
      let H' := fresh H in injection H as H H'; subst
  | H : Ok _ = Ok _ |- _ => injection H as H; subst
  | H : Raise _ = Raise _ |- _ => injection H as H; subst
  | H : Ok _ = Raise _ |- _ => discriminate H
  | H : Raise _ = Ok _ |- _ => discriminate H
  | H : mret _ = Ok _ |- _ => unfold mret, result_ret in H
  | H : Ok ?a ≫= _ = _ |- _ => change (Ok a ≫= ?f) with (f a) in H
  | H : (_ ≫= _) = Ok _ |- _ =>
      let x := fresh "x" in let Hx := fresh "Hx" in
      apply bind_Ok_iff in H; destruct H as (x & Hx & H)
  | H : raise_if _ _ = Ok ?t |- _ => apply raise_if_Ok_iff in H; try clear t
  | H : map_raise _ _ = Ok _ |- _ => apply map_raise_Ok_iff in H
  | H : (_ <||> _) = Ok false |- _ =>
      let H' := fresh H in apply orM_false_iff in H; destruct H as [H H']
  | H : (_ <&&> _) = Ok true |- _ =>
      let H' := fresh H in apply andM_true_iff in H; destruct H as [H H']
  | H : (_ <$> _) = Ok _ |- _ =>
      let x := fresh "x" in let Hx := fresh "Hx" in
      apply fmap_Ok_iff in H; destruct H as (x & Hx & H); subst
  | H : _ || _ = false |- _ =>
      let H' := fresh H in apply orb_false_iff in H; destruct H as [H H']
  | H : _ && _ = true |- _ =>
      let H' := fresh H in apply andb_true_iff in H; destruct H as [H H']
  | H : negb _ = false |- _ => apply negb_false_iff in H
  | H : negb _ = true |- _ => apply negb_true_iff in H
  | H : ?x = false |- _ => is_var x; subst x
  | H : ?x = true |- _ => is_var x; subst x
  | x : () |- _ => destruct x
  end.
Ltac inv_ok := repeat inv_ok_step.

(** [bool_decide] and [Z] comparisons as propositions, everywhere. *)
Ltac refl_bool :=
  repeat match goal with
  | H : bool_decide _ = true |- _ => apply bool_decide_eq_true in H
  | H : bool_decide _ = false |- _ => apply bool_decide_eq_false in H
  | H : (_ <? _) = true |- _ => apply Z.ltb_lt in H
  | H : (_ <? _) = false |- _ => apply Z.ltb_ge in H
  | H : (_ <=? _) = true |- _ => apply Z.leb_le in H
  | H : (_ <=? _) = false |- _ => apply Z.leb_gt in H
  | H : (_ =? _) = true |- _ => apply Z.eqb_eq in H
  | H : (_ =? _) = false |- _ => apply Z.eqb_neq in H
  | |- bool_decide _ = true => apply bool_decide_eq_true
  | |- bool_decide _ = false => apply bool_decide_eq_false
  | |- (_ <? _) = true => apply Z.ltb_lt
  | |- (_ <? _) = false => apply Z.ltb_ge
  | |- (_ <=? _) = true => apply Z.leb_le
  | |- (_ <=? _) = false => apply Z.leb_gt
  | |- (_ =? _) = true => apply Z.eqb_eq
  | |- (_ =? _) = false => apply Z.eqb_neq
  end.

(** Two results of the same call are the same. *)
Ltac same_call :=
  repeat match goal with
  | H : ?a = Ok ?x, H' : ?a = Ok ?y |- _ =>
      let E := fresh in assert (x = y) as E by congruence; clear H'; try subst x; try subst y;
      try clear E
  | H : ?a = Some ?x, H' : ?a = Some ?y |- _ =>
      let E := fresh in assert (x = y) as E by congruence; clear H'; try subst x; try subst y;
      try clear E
  end.

(** The cases of a conjunction that failed. *)
Ltac split_andb :=
  repeat match goal with
  | H : _ && _ = false |- _ => apply andb_false_iff in H as [H|H]
  end.

(** ** Lists *)
Lemma Forall2_impl_Forall_l {A B} (P : A → Prop) (R S : A → B → Prop) l k :
  Forall P l → Forall2 R l k → (∀ x y, P x → R x y → x ∈ l → y ∈ k → S x y) → Forall2 S l k.
Proof.
  intros HP HR. induction HR as [|x y l k Hxy HR IH]; intros HS; constructor;
    apply Forall_cons in HP as [Hx HP].
  - apply HS; [done|done|by left|by left].
  - apply IH; [done|]. intros. apply HS; [done|done|by right|by right].
Qed.

Lemma Forall2_fmap_eq {A B C} (R : A → B → Prop) (f : A → C) (g : B → C) l k :
  Forall2 R l k → Forall (λ x, ∀ y, R x y → g y = f x) l → g <$> k = f <$> l.
Proof.
  induction 1 as [|x y l k Hxy _ IH]; [done|]. intros [Hx Hl]%Forall_cons. cbn. f_equal; auto.
Qed.

Lemma Forall2_Forall_impl_l {A B} (R : A → B → Prop) (Q : A → Prop) l k :
  Forall2 R l k → Forall (λ x, ∀ y, R x y → Q x) l → Forall Q l.
Proof. induction 1 as [|x y l k Hxy _ IH]; [done|]. intros [Hx Hl]%Forall_cons. constructor; eauto. Qed.

Lemma forallb_Forall {A} (f : A → bool) l : forallb f l = true ↔ Forall (λ x, f x = true) l.
Proof. rewrite forallb_forall, Forall_forall. by setoid_rewrite list_elem_of_In. Qed.

Lemma forallb_elem {A} (f : A → bool) l x : forallb f l = true → x ∈ l → f x = true.
Proof. rewrite forallb_Forall, Forall_forall. auto. Qed.

Lemma forallb_fmap {A B} (f : B → bool) (g : A → B) l : forallb f (g <$> l) = forallb (λ x, f (g x)) l.
Proof. induction l as [|x l IH]; cbn; [done|]. by rewrite IH. Qed.

Lemma Forall2_middle {A B C} (R : A → B → Prop) (S : B → C → Prop) l k :
  Forall2 (λ x z, ∃ y, R x y ∧ S y z) l k → ∃ m, Forall2 R l m ∧ Forall2 S m k.
Proof.
  induction 1 as [|x z l k (y & ? & ?) _ (m & ? & ?)]; [by exists []|].
  exists (y :: m). split; by constructor.
Qed.
