(* ===== verification/PyString.v ===== *)
(** * Python strings

    A Python [str] is a sequence of Unicode code points; it is a [list Z] here,
    and a [bytes] value is a [list Z] of octets.  The file holds the string
    operations of the Python standard library that the modelled code uses. *)

From stdpp Require Import base list list_numbers numbers strings.
From S2P Require Import Prelude.

Abbreviation pystr := (list Z).
Abbreviation pybytes := (list Z).

(** [u "text"] is the Python literal ["text"] (ASCII text only). *)
Definition u (s : string) : pystr :=
  (λ c, Z.of_N (Stdlib.Strings.Ascii.N_of_ascii c)) <$> String.list_ascii_of_string s.
Arguments u _ : simpl never.

#[global] Instance u_inj : Inj (=) (=) u.
Proof.
  intros s t E. unfold u in E.
  rewrite <-(String.string_of_list_ascii_of_string s), <-(String.string_of_list_ascii_of_string t).
  f_equal. revert E. generalize (String.list_ascii_of_string s), (String.list_ascii_of_string t).
  induction l as [|a l IH]; intros [|b m]; cbn; try done. intros [= E%N2Z.inj ?].
  f_equal; [|auto].
  by rewrite <-(Ascii.ascii_N_embedding a), <-(Ascii.ascii_N_embedding b), E.
Qed.

(** ** Characters *)
Definition is_digit (c : Z) : bool := (48 <=? c) && (c <=? 57).
Definition is_lower (c : Z) : bool := (97 <=? c) && (c <=? 122).
Definition is_upper (c : Z) : bool := (65 <=? c) && (c <=? 90).
Definition digit_val (c : Z) : Z := c - 48.
Definition digit_char (d : Z) : Z := d + 48.

Definition str_eqb (s t : pystr) : bool := bool_decide (s = t).

(** [s in {a, b, ...}] for a literal set of strings. *)
Definition str_in (s : pystr) (l : list pystr) : bool := bool_decide (s ∈ l).

(** ** Decimal numbers: [int(s, 10)] on a string of ASCII digits, and the
    zero-padded rendering that [strftime] produces. *)
Definition int_of_digits_acc (acc : Z) (s : pystr) : Z :=
  foldl (λ a c, a * 10 + digit_val c) acc s.
Definition int_of_digits (s : pystr) : Z := int_of_digits_acc 0 s.

Fixpoint pad_digits (width : nat) (n : Z) : pystr :=
  match width with
  | O => []
  | S w => pad_digits w (n / 10) ++ [digit_char (n mod 10)]
  end.

(** ** Slicing and searching *)
Definition startswith (p s : pystr) : bool := str_eqb (take (length p) s) p.
Definition endswith (p s : pystr) : bool :=
  (length p <=? length s)%nat && str_eqb (drop (length s - length p) s) p.

(** [s.split(c)] for a one-character separator: never empty. *)
Fixpoint split_on (c : Z) (s : pystr) : list pystr :=
  match s with
  | [] => [[]]
  | x :: s' =>
      if x =? c then [] :: split_on c s'
      else match split_on c s' with
           | w :: ws => (x :: w) :: ws
           | [] => [[x]]
           end
  end.

(** [sep.join(parts)]. *)
Fixpoint join (sep : pystr) (parts : list pystr) : pystr :=
  match parts with
  | [] => []
  | [p] => p
  | p :: ps => p ++ sep ++ join sep ps
  end.

(** The longest prefix whose characters satisfy [f], and the rest. *)
Fixpoint span (f : Z → bool) (s : pystr) : pystr * pystr :=
  match s with
  | [] => ([], [])
  | x :: s' => if f x then let '(a, b) := span f s' in (x :: a, b) else ([], s)
  end.

(** [s.partition(c)]: [None] when the separator does not occur. *)
Definition partition (c : Z) (s : pystr) : option (pystr * pystr) :=
  let '(a, b) := span (λ x, negb (x =? c)) s in
  match b with [] => None | _ :: b' => Some (a, b') end.

(** Code-point order of strings, as [sorted] and [<] use it. *)
Fixpoint str_compare (s t : pystr) : comparison :=
  match s, t with
  | [], [] => Eq
  | [], _ :: _ => Lt
  | _ :: _, [] => Gt
  | a :: s', b :: t' =>
      match Z.compare a b with Eq => str_compare s' t' | c => c end
  end.
Definition str_ltb (s t : pystr) : bool :=
  match str_compare s t with Lt => true | _ => false end.
Definition str_leb (s t : pystr) : bool :=
  match str_compare s t with Gt => false | _ => true end.

(** ** Lemmas *)
Lemma str_eqb_eq s t : str_eqb s t = true ↔ s = t.
Proof. apply bool_decide_eq_true. Qed.
Lemma str_eqb_neq s t : str_eqb s t = false ↔ s ≠ t.
Proof. apply bool_decide_eq_false. Qed.
Lemma str_eqb_refl s : str_eqb s s = true.
Proof. by apply str_eqb_eq. Qed.

Lemma is_digit_iff c : is_digit c = true ↔ 48 ≤ c ≤ 57.
Proof. unfold is_digit. rewrite andb_true_iff, !Z.leb_le. done. Qed.

Lemma is_digit_digit_char d : 0 ≤ d ≤ 9 → is_digit (digit_char d) = true.
Proof. intros. apply is_digit_iff. unfold digit_char. lia. Qed.

Lemma length_pad_digits w n : length (pad_digits w n) = w.
Proof.
  revert n; induction w as [|w IH]; intros n; cbn; [done|].
  rewrite length_app, IH. cbn. lia.
Qed.

Lemma pad_digits_are_digits w n : Forall (λ c, is_digit c = true) (pad_digits w n).
Proof.
  revert n; induction w as [|w IH]; intros n; cbn; [constructor|].
  apply Forall_app; split; [done|].
  constructor; [|constructor]. apply is_digit_digit_char.
  pose proof (Z.mod_pos_bound n 10). lia.
Qed.

Lemma int_of_digits_acc_app acc s t :
  int_of_digits_acc acc (s ++ t) = int_of_digits_acc (int_of_digits_acc acc s) t.
Proof. apply foldl_app. Qed.

Lemma int_of_pad_digits w n :
  0 ≤ n < 10 ^ Z.of_nat w → int_of_digits (pad_digits w n) = n.
Proof.
  unfold int_of_digits. revert n; induction w as [|w IH]; intros n Hn.
  - cbn in *. lia.
  - cbn [pad_digits]. rewrite int_of_digits_acc_app. rewrite IH.
    + cbn. unfold digit_val, digit_char. pose proof (Z.div_mod n 10). lia.
    + rewrite Nat2Z.inj_succ, Z.pow_succ_r in Hn by lia.
      split; [apply Z.div_pos; lia|]. apply Z.div_lt_upper_bound; lia.
Qed.

Lemma int_of_digits_acc_cons a c s :
  int_of_digits_acc a (c :: s) = int_of_digits_acc (a * 10 + digit_val c) s.
Proof. reflexivity. Qed.

Lemma int_of_digits_acc_shift a s :
  int_of_digits_acc a s = a * 10 ^ Z.of_nat (length s) + int_of_digits s.
Proof.
  unfold int_of_digits. revert a. induction s as [|c s IH]; intros a; [cbn; lia|].
  rewrite !int_of_digits_acc_cons, (IH (a * 10 + _)), (IH (0 * 10 + _)).
  rewrite length_cons, Nat2Z.inj_succ, Z.pow_succ_r by lia. ring.
Qed.

Lemma str_compare_eq s t : str_compare s t = Eq ↔ s = t.
Proof.
  revert t; induction s as [|a s IH]; intros [|b t]; cbn; try done.
  destruct (Z.compare_spec a b); subst; [rewrite IH|..]; split; intros; simplify_eq; try done; lia.
Qed.

Lemma str_compare_antisym s t : str_compare t s = CompOpp (str_compare s t).
Proof.
  revert t; induction s as [|a s IH]; intros [|b t]; cbn; try done.
  rewrite (Z.compare_antisym a b). destruct (a ?= b); cbn; auto.
Qed.

Lemma str_compare_lt_trans r s t :
  str_compare r s = Lt → str_compare s t = Lt → str_compare r t = Lt.
Proof.
  revert s t; induction r as [|a r IH]; intros [|b s] [|c t]; cbn; try done.
  destruct (Z.compare_spec a b), (Z.compare_spec b c); subst; intros; try done.
  - rewrite Z.compare_refl. eauto.
  - destruct (Z.compare_spec b c); [lia|done|lia].
  - destruct (Z.compare_spec a c); [lia|done|lia].
  - destruct (Z.compare_spec a c); [lia|done|lia].
Qed.

Lemma span_app_stop f a x b :
  Forall (λ c, f c = true) a → f x = false → span f (a ++ x :: b) = (a, x :: b).
Proof. intros Ha Hx. induction Ha as [|c a Hc _ IH]; cbn; [by rewrite Hx|]. by rewrite Hc, IH. Qed.

Lemma span_all f a : Forall (λ c, f c = true) a → span f a = (a, []).
Proof. intros Ha. induction Ha as [|c a Hc _ IH]; cbn; [done|]. by rewrite Hc, IH. Qed.

Lemma span_prefix f s a b : span f s = (a, b) → s = a ++ b ∧ Forall (λ c, f c = true) a.
Proof.
  revert a b; induction s as [|x s IH]; intros a b; cbn.
  - intros; simplify_eq. done.
  - destruct (f x) eqn:Hx.
    + destruct (span f s) as [a' b'] eqn:E. intros; simplify_eq.
      destruct (IH _ _ eq_refl) as [-> ?]. split; [done|]. by constructor.
    + intros; simplify_eq. done.
Qed.

Lemma startswith_cons x p c s : startswith (x :: p) (c :: s) = (c =? x) && startswith p s.
Proof.
  unfold startswith, str_eqb. cbn [length take]. destruct (c =? x) eqn:E.
  - apply Z.eqb_eq in E as ->. cbn [andb]. apply bool_decide_ext. split; congruence.
  - apply Z.eqb_neq in E. apply bool_decide_eq_false. congruence.
Qed.

Lemma startswith_app p s : startswith p (p ++ s) = true.
Proof. unfold startswith. rewrite take_app_length. apply str_eqb_refl. Qed.

Lemma str_leb_total s t : str_leb s t = false → str_leb t s = true.
Proof. unfold str_leb. rewrite (str_compare_antisym s t). by destruct (str_compare s t). Qed.

Lemma str_leb_antisym s t : str_leb s t = true → str_leb t s = true → s = t.
Proof.
  unfold str_leb. rewrite (str_compare_antisym s t), <-str_compare_eq. by destruct (str_compare s t).
Qed.

Lemma str_leb_trans r s t : str_leb r s = true → str_leb s t = true → str_leb r t = true.
Proof.
  unfold str_leb. destruct (str_compare r s) eqn:Ers; [apply str_compare_eq in Ers as ->; done| |done].
  destruct (str_compare s t) eqn:Est; [apply str_compare_eq in Est as <-; by rewrite Ers| |done].
  by rewrite (str_compare_lt_trans r s t).
Qed.
