(* ===== verification/Sha256.v ===== *)
(** * SHA-256

    [hashlib.sha256(data).hexdigest()] as FIPS 180-4 defines it, on bytes, with
    the arithmetic of 32-bit words written out. *)

From stdpp Require Import base list list_numbers numbers strings.
From S2P Require Import Prelude PyString.
Open Scope Z_scope.

Definition wrap (x : Z) : Z := Z.land x 4294967295.
Definition rotr (n x : Z) : Z := Z.lor (Z.shiftr x n) (wrap (Z.shiftl x (32 - n))).
Definition not32 (x : Z) : Z := Z.lxor x 4294967295.

Definition Ch (x y z : Z) : Z := Z.lxor (Z.land x y) (Z.land (not32 x) z).
Definition Maj (x y z : Z) : Z := Z.lxor (Z.lxor (Z.land x y) (Z.land x z)) (Z.land y z).
Definition Sigma0 (x : Z) : Z := Z.lxor (Z.lxor (rotr 2 x) (rotr 13 x)) (rotr 22 x).
Definition Sigma1 (x : Z) : Z := Z.lxor (Z.lxor (rotr 6 x) (rotr 11 x)) (rotr 25 x).
Definition sigma0 (x : Z) : Z := Z.lxor (Z.lxor (rotr 7 x) (rotr 18 x)) (Z.shiftr x 3).
Definition sigma1 (x : Z) : Z := Z.lxor (Z.lxor (rotr 17 x) (rotr 19 x)) (Z.shiftr x 10).

Definition round_constants : list Z :=
  [1116352408; 1899447441; 3049323471; 3921009573; 961987163; 1508970993; 2453635748; 2870763221;
   3624381080; 310598401; 607225278; 1426881987; 1925078388; 2162078206; 2614888103; 3248222580;
   3835390401; 4022224774; 264347078; 604807628; 770255983; 1249150122; 1555081692; 1996064986;
   2554220882; 2821834349; 2952996808; 3210313671; 3336571891; 3584528711; 113926993; 338241895;
   666307205; 773529912; 1294757372; 1396182291; 1695183700; 1986661051; 2177026350; 2456956037;
   2730485921; 2820302411; 3259730800; 3345764771; 3516065817; 3600352804; 4094571909; 275423344;
   430227734; 506948616; 659060556; 883997877; 958139571; 1322822218; 1537002063; 1747873779;
   1955562222; 2024104815; 2227730452; 2361852424; 2428436474; 2756734187; 3204031479; 3329325298].
Definition initial_hash : list Z :=
  [1779033703; 3144134277; 1013904242; 2773480762; 1359893119; 2600822924; 528734635; 1541459225].

(** The message schedule, last word first. *)
Fixpoint extend_schedule (n : nat) (w : list Z) : list Z :=
  match n with
  | O => w
  | S n =>
      let at_ i := nth i w 0 in
      extend_schedule n (wrap (sigma1 (at_ 1%nat) + at_ 6%nat + sigma0 (at_ 14%nat) + at_ 15%nat) :: w)
  end.
Definition schedule (block : list Z) : list Z := rev (extend_schedule 48 (rev block)).

Definition sha_round (h : list Z) (kw : Z * Z) : list Z :=
  match h with
  | [a; b; c; d; e; f; g; hh] =>
      let t1 := hh + Sigma1 e + Ch e f g + kw.1 + kw.2 in
      let t2 := Sigma0 a + Maj a b c in
      [wrap (t1 + t2); a; b; c; wrap (d + t1); e; f; g]
  | _ => h
  end.
Definition compress (h block : list Z) : list Z :=
  zip_with (λ x y, wrap (x + y)) h
    (foldl sha_round h (zip round_constants (schedule block))).

(** Bytes to big-endian words, and blocks of sixteen words. *)
Fixpoint words_of (bytes : pybytes) : list Z :=
  match bytes with
  | a :: b :: c :: d :: rest => (a * 16777216 + b * 65536 + c * 256 + d) :: words_of rest
  | _ => []
  end.
Definition be_bytes (n : nat) (x : Z) : pybytes :=
  rev (map (λ i, Z.shiftr x (8 * Z.of_nat i) mod 256) (seq 0 n)).
Definition padded_message (m : pybytes) : pybytes :=
  let len := length m in
  m ++ [128] ++ replicate ((119 - len mod 64) mod 64) 0 ++ be_bytes 8 (8 * Z.of_nat len).

Fixpoint process (fuel : nat) (h words : list Z) : list Z :=
  match fuel with
  | O => h
  | S fuel =>
      match words with
      | [] => h
      | _ => process fuel (compress h (take 16 words)) (drop 16 words)
      end
  end.
Definition sha256 (m : pybytes) : pybytes :=
  let words := words_of (padded_message m) in
  concat (map (be_bytes 4) (process (length words) initial_hash words)).

Definition hex_char (d : Z) : Z := if d <? 10 then 48 + d else 87 + d.
Definition hexdigest (bytes : pybytes) : pystr :=
  concat (map (λ b, [hex_char (b / 16); hex_char (b mod 16)]) bytes).
Definition sha256_hexdigest (m : pybytes) : pystr := hexdigest (sha256 m).

(** The example of the standard, one block. *)
Example sha256_abc :
  sha256_hexdigest (u "abc")
  = u "ba7816bf8f01cfea414140de5dae2223b00361a396177a9cb410ff61f20015ad".
Proof. vm_compute. reflexivity. Qed.

(** And the one with two blocks. *)
Example sha256_two_blocks :
  sha256_hexdigest (u "abcdbcdecdefdefgefghfghighijhijkijkljklmklmnlmnomnopnopq")
  = u "248d6a61d20638b8e5c026930c3e6039a33ce45964ff2167f6ecedd419db06c1".
Proof. vm_compute. reflexivity. Qed.

(** ** The digest is 64 lower-case hexadecimal digits *)
Lemma sha_round_length h kw : length h = 8%nat → length (sha_round h kw) = 8%nat.
Proof. by do 9 (destruct h as [|? h]; try done). Qed.

Lemma compress_length h block : length h = 8%nat → length (compress h block) = 8%nat.
Proof.
  intros Hh. unfold compress. rewrite length_zip_with, Hh.
  assert (∀ l h, length h = 8%nat → length (foldl sha_round h l) = 8%nat) as ->; [|done|done].
  induction l as [|kw l IH]; intros h' Hh'; [done|]. cbn. apply IH. by apply sha_round_length.
Qed.

Lemma process_length fuel : ∀ h words, length h = 8%nat → length (process fuel h words) = 8%nat.
Proof.
  induction fuel as [|fuel IH]; intros h [|w words] Hh; try done. cbn [process].
  apply IH. by apply compress_length.
Qed.

Lemma be_bytes_spec n x : length (be_bytes n x) = n ∧ Forall (λ b, 0 ≤ b < 256) (be_bytes n x).
Proof.
  unfold be_bytes. rewrite length_rev, length_map, length_seq. split; [done|].
  apply Forall_rev, Forall_map, Forall_true. intros i. apply Z.mod_pos_bound. lia.
Qed.

Lemma sha256_spec m : length (sha256 m) = 32%nat ∧ Forall (λ b, 0 ≤ b < 256) (sha256 m).
Proof.
  unfold sha256. set (h := process _ _ _). assert (length h = 8%nat) as Hh by (by apply process_length).
  clearbody h. split.
  - by do 9 (destruct h as [|? h]; try done).
  - clear Hh. induction h as [|w h IH]; [constructor|]. cbn [map concat]. apply Forall_app.
    split; [apply be_bytes_spec|done].
Qed.

Definition is_hex_digit (c : Z) : Prop := 48 ≤ c ≤ 57 ∨ 97 ≤ c ≤ 102.

Lemma hex_char_spec d : 0 ≤ d < 16 → is_hex_digit (hex_char d).
Proof. intros Hd. unfold hex_char, is_hex_digit. destruct (d <? 10) eqn:E; refl_bool; lia. Qed.

Lemma hexdigest_spec b : Forall (λ x, 0 ≤ x < 256) b →
  length (hexdigest b) = (2 * length b)%nat ∧ Forall is_hex_digit (hexdigest b).
Proof.
  unfold hexdigest. induction 1 as [|x b Hx _ [IHl IHc]]; [done|]. cbn [map concat].
  rewrite length_app, IHl. cbn [length]. split; [lia|]. apply Forall_app. split; [|done].
  do 2 (apply Forall_cons_2; [apply hex_char_spec; Z.to_euclidean_division_equations; lia|]).
  apply Forall_nil_2.
Qed.

Lemma sha256_hexdigest_spec m :
  length (sha256_hexdigest m) = 64%nat ∧ Forall is_hex_digit (sha256_hexdigest m).
Proof.
  destruct (sha256_spec m) as [Hl Hb]. unfold sha256_hexdigest.
  destruct (hexdigest_spec _ Hb) as [-> ?]. by rewrite Hl.
Qed.
