(* ===== verification/Regex.v ===== *)
(** * Regular expressions

    Models what the sources use of the module [re] of the Standard Library:
    [re.search(pattern, text) is not None] for patterns made of characters,
    character classes, groups, alternatives, repetitions and the anchors [^]
    and [$].  Only the existence of a match is observed, so the order in which
    the engine of Python tries the alternatives does not matter.

    [compile] translates the text of a pattern, [search] decides the existence
    of a match, and [search_spec] shows that it decides the relation
    [matches]. *)

From stdpp Require Import base list list_numbers numbers strings.
From S2P Require Import Prelude PyString.
Open Scope Z_scope.

Inductive regex :=
| REps
| RClass (ranges : list (Z * Z))
| RSeq (a b : regex)
| RAlt (a b : regex)
| RStar (a : regex)
| RBegin
| REnd.

#[global] Instance regex_eq_dec : EqDecision regex.
Proof. solve_decision. Defined.

Definition in_ranges (ranges : list (Z * Z)) (c : Z) : bool :=
  existsb (λ '(lo, hi), (lo <=? c) && (c <=? hi)) ranges.

Definition RChar (c : Z) : regex := RClass [(c, c)].
Fixpoint rpower (a : regex) (n : nat) : regex :=
  match n with O => REps | S n => RSeq a (rpower a n) end.
Fixpoint rupto (a : regex) (n : nat) : regex :=
  match n with O => REps | S n => RAlt REps (RSeq a (rupto a n)) end.
(** [a{m,n}]. *)
Definition rrepeat (a : regex) (m n : nat) : regex := RSeq (rpower a m) (rupto a (n - m)).

(** ** Matching

    A position is the rest of the text, and whether it is the start of the
    text.  [$] also matches before a newline that ends the text. *)
Definition at_end (s : pystr) : bool :=
  match s with [] => true | [c] => c =? 10 | _ => false end.

(** [run r k start s]: [r] matches from this position up to a position that [k]
    accepts.  A repetition tries only iterations that consume something. *)
Fixpoint run (r : regex) (k : bool → pystr → bool) (start : bool) (s : pystr) {struct r} : bool :=
  match r with
  | REps => k start s
  | RClass ranges =>
      match s with
      | c :: s' => if in_ranges ranges c then k false s' else false
      | [] => false
      end
  | RSeq a b => run a (run b k) start s
  | RAlt a b => if run a k start s then true else run b k start s
  | RStar a =>
      (fix star (fuel : nat) (start : bool) (s : pystr) {struct fuel} : bool :=
         if k start s then true
         else match fuel with
              | O => false
              | S fuel =>
                  run a (λ start' s', if (length s' <? length s)%nat then star fuel start' s' else false)
                    start s
              end) (length s) start s
  | RBegin => if start then k start s else false
  | REnd => if at_end s then k start s else false
  end.

Fixpoint search_from (r : regex) (start : bool) (s : pystr) : bool :=
  if run r (λ _ _, true) start s then true
  else match s with [] => false | _ :: s' => search_from r false s' end.
Definition search (r : regex) (text : pystr) : bool := search_from r true text.

(** ** Patterns

    A recursive-descent translation of the text of a pattern; [None] for
    anything that is not in the subset above. *)
Definition digits_value (s : pystr) : nat := Z.to_nat (int_of_digits s).

Definition hex_of (c : Z) : option Z :=
  if is_digit c then Some (c - 48)
  else if (65 <=? c) && (c <=? 70) then Some (c - 55)
  else if (97 <=? c) && (c <=? 102) then Some (c - 87)
  else None.

(** After a backslash: [\xHH], or a punctuation character that stands for
    itself. *)
Definition escape (s : pystr) : option (Z * pystr) :=
  match s with
  | c :: s' =>
      if c =? 120 then
        match s' with
        | a :: b :: s'' => x ← hex_of a; y ← hex_of b; Some (x * 16 + y, s'')
        | _ => None
        end
      else if is_digit c || is_lower c || is_upper c then None
      else Some (c, s')
  | [] => None
  end.

(** A character of a class. *)
Definition class_char (s : pystr) : option (Z * pystr) :=
  match s with
  | c :: s' => if c =? 92 then escape s' else if c =? 93 then None else Some (c, s')
  | [] => None
  end.

(** The members of a class up to the closing bracket: a [-] is a range unless it
    is the last member. *)
Fixpoint class_items (fuel : nat) (s : pystr) : option (list (Z * Z) * pystr) :=
  match fuel with
  | O => None
  | S fuel =>
      match s with
      | 93 :: s' => Some ([], s')
      | _ =>
          '(lo, s1) ← class_char s;
          match s1 with
          | 45 :: c :: s2 =>
              if c =? 93 then '(items, rest) ← class_items fuel s1; Some ((lo, lo) :: items, rest)
              else '(hi, s3) ← class_char (c :: s2);
                   if lo <=? hi then
                     '(items, rest) ← class_items fuel s3; Some ((lo, hi) :: items, rest)
                   else None
          | _ => '(items, rest) ← class_items fuel s1; Some ((lo, lo) :: items, rest)
          end
      end
  end.

(** The quantifier after an item. *)
Definition quantifier (a : regex) (s : pystr) : option (regex * pystr) :=
  match s with
  | c :: s1 =>
      if c =? 42 then Some (RStar a, s1)
      else if c =? 43 then Some (RSeq a (RStar a), s1)
      else if c =? 63 then Some (RAlt REps a, s1)
      else if c =? 123 then
        let '(ds, s2) := span is_digit s1 in
        if bool_decide (ds = []) then None
        else match s2 with
             | 125 :: s3 => Some (rpower a (digits_value ds), s3)
             | 44 :: s3 =>
                 let '(es, s4) := span is_digit s3 in
                 match s4 with
                 | 125 :: s5 =>
                     if bool_decide (es = []) then None
                     else if (digits_value ds <=? digits_value es)%nat
                          then Some (rrepeat a (digits_value ds) (digits_value es), s5) else None
                 | _ => None
                 end
             | _ => None
             end
      else Some (a, s)
  | [] => Some (a, s)
  end.

Fixpoint parse_alt (fuel : nat) (s : pystr) : option (regex * pystr) :=
  match fuel with
  | O => None
  | S fuel =>
      '(a, s1) ← parse_seq fuel s;
      match s1 with
      | 124 :: s2 => '(b, rest) ← parse_alt fuel s2; Some (RAlt a b, rest)
      | _ => Some (a, s1)
      end
  end
with parse_seq (fuel : nat) (s : pystr) : option (regex * pystr) :=
  match fuel with
  | O => None
  | S fuel =>
      match s with
      | [] => Some (REps, [])
      | c :: s1 =>
          if (c =? 124) || (c =? 41) then Some (REps, s)
          else
            '(a, s2) ← parse_item fuel c s1;
            '(b, rest) ← parse_seq fuel s2;
            Some (RSeq a b, rest)
      end
  end
with parse_item (fuel : nat) (c : Z) (s : pystr) : option (regex * pystr) :=
  match fuel with
  | O => None
  | S fuel =>
      if c =? 94 then Some (RBegin, s)
      else if c =? 36 then Some (REnd, s)
      else if c =? 40 then
        '(a, s1) ← parse_alt fuel (if startswith (u "?:") s then drop 2 s else s);
        match s1 with 41 :: s2 => quantifier a s2 | _ => None end
      else if c =? 91 then '(items, s1) ← class_items (length s) s; quantifier (RClass items) s1
      else if c =? 92 then '(x, s1) ← escape s; quantifier (RChar x) s1
      else if bool_decide (c ∈ u "*+?{}]).") then None
      else quantifier (RChar c) s
  end.

(** [re.compile(pattern)]. *)
Definition compile (pattern : pystr) : option regex :=
  '(r, rest) ← parse_alt (3 * S (length pattern)) pattern;
  if bool_decide (rest = []) then Some r else None.

(** ** Correctness of the matcher *)
Inductive matches : regex → bool * pystr → bool * pystr → Prop :=
| matches_eps p : matches REps p p
| matches_class ranges st c s :
    in_ranges ranges c = true → matches (RClass ranges) (st, c :: s) (false, s)
| matches_seq a b p q r : matches a p q → matches b q r → matches (RSeq a b) p r
| matches_alt_l a b p q : matches a p q → matches (RAlt a b) p q
| matches_alt_r a b p q : matches b p q → matches (RAlt a b) p q
| matches_star_nil a p : matches (RStar a) p p
| matches_star_cons a p q r : matches a p q → matches (RStar a) q r → matches (RStar a) p r
| matches_begin s : matches RBegin (true, s) (true, s)
| matches_end st s : at_end s = true → matches REnd (st, s) (st, s).

(** A match moves forward, and stays in place only without changing the position. *)
Lemma matches_forward r p q :
  matches r p q → q = p ∨ (length q.2 < length p.2)%nat.
Proof.
  induction 1; cbn; auto.
  - destruct IHmatches1 as [->|], IHmatches2 as [->|]; auto; right; lia.
  - destruct IHmatches1 as [->|], IHmatches2 as [->|]; auto; right; lia.
Qed.

Lemma matches_star_inv a p q :
  matches (RStar a) p q →
  q = p ∨ ∃ m, matches a p m ∧ (length m.2 < length p.2)%nat ∧ matches (RStar a) m q.
Proof.
  intros Hm. remember (RStar a) as r eqn:Hr. revert Hr.
  induction Hm as [| | | | | |a' p m q Ha _ Hs IH| |]; intros [= ->]; auto.
  destruct (matches_forward _ _ _ Ha) as [->|Hlt]; [auto|].
  right. exists m. repeat split; try done.
Qed.

Lemma run_spec r k st s :
  run r k st s = true ↔ ∃ st' s', matches r (st, s) (st', s') ∧ k st' s' = true.
Proof.
  revert k st s. induction r as [|ranges|a IHa b IHb|a IHa b IHb|a IHa| |]; intros k st s; cbn [run].
  - split; [eauto using matches|]. intros (? & ? & Hm & ?). by inversion Hm; subst.
  - split.
    + destruct s as [|c s]; [done|]. destruct (in_ranges ranges c) eqn:E; [|done]. eauto using matches.
    + intros (? & ? & Hm & ?). inversion Hm as [|? ? ? ? E| | | | | | |]; subst. by rewrite E.
  - rewrite IHa. setoid_rewrite IHb. split.
    + intros (? & ? & ? & ? & ? & ? & ?). eauto using matches.
    + intros (? & ? & Hm & ?). inversion Hm as [| |? ? ? [] ?| | | | | |]; subst. eauto 10.
  - transitivity (run a k st s = true ∨ run b k st s = true).
    { destruct (run a k st s); naive_solver. }
    rewrite IHa, IHb. split.
    + intros [(? & ? & ? & ?)|(? & ? & ? & ?)]; eauto using matches.
    + intros (? & ? & Hm & ?). inversion Hm; subst; eauto.
  - match goal with |- context [?f (length s) st s] => set (star := f) end.
    assert (∀ fuel st s, (length s ≤ fuel)%nat → star fuel st s = true ↔
      ∃ st' s', matches (RStar a) (st, s) (st', s') ∧ k st' s' = true) as Hstar; [|by apply Hstar].
    clear st s. induction fuel as [|fuel IH]; intros st s Hs.
    all: cbn [star]; fold star; destruct (k st s) eqn:Hk; [split; eauto using matches|].
    + split; [done|]. intros (? & ? & [E|(m & _ & ? & _)]%matches_star_inv & ?); [|cbn in *; lia].
      simplify_eq. congruence.
    + rewrite IHa. split.
      * intros (st' & s' & Ha & Hr). destruct (Nat.ltb_spec (length s') (length s)); [|done].
        apply IH in Hr as (? & ? & ? & ?); [eauto using matches|lia].
      * intros (? & ? & [E|([st' s'] & Ha & Hlt & Hm)]%matches_star_inv & ?); [simplify_eq; congruence|].
        exists st', s'. split; [done|]. cbn in Hlt. rewrite (proj2 (Nat.ltb_lt _ _) Hlt).
        apply IH; [lia|]. eauto.
  - split.
    + destruct st; [|done]. eauto using matches.
    + intros (? & ? & Hm & ?). by inversion Hm; subst.
  - split.
    + destruct (at_end s) eqn:E; [|done]. eauto using matches.
    + intros (? & ? & Hm & ?). inversion Hm as [| | | | | | | |? ? E]; subst. by rewrite E.
Qed.

Lemma search_from_spec r st s :
  search_from r st s = true ↔
  (∃ q, matches r (st, s) q) ∨ ∃ a c b q, s = a ++ c :: b ∧ matches r (false, b) q.
Proof.
  assert (∀ st s, run r (λ _ _, true) st s = true ↔ ∃ q, matches r (st, s) q) as Hrun.
  { intros. rewrite run_spec. split; [naive_solver|]. intros [[]]. eauto. }
  revert st. induction s as [|c s IH]; intros st; cbn.
  - transitivity (run r (λ _ _, true) st [] = true); [by destruct (run _ _ _ _)|].
    rewrite Hrun. split; [auto|]. intros [?|([] & ? & ? & ? & ? & _)]; done.
  - transitivity (run r (λ _ _, true) st (c :: s) = true ∨ search_from r false s = true).
    { destruct (run _ _ _ _); naive_solver. }
    rewrite Hrun, IH. split.
    + intros [?|[[q Hq]|(a & d & b & q & -> & Hq)]]; [auto|right; by exists [], c, s, q|].
      right. by exists (c :: a), d, b, q.
    + intros [?|([|x a] & d & b & q & [= -> ->] & Hq)]; [auto|eauto|].
      right. right. eauto 10.
Qed.

(** [search] decides the existence of a match at some position. *)
Lemma search_spec r text :
  search r text = true ↔
  (∃ q, matches r (true, text) q) ∨ ∃ a c b q, text = a ++ c :: b ∧ matches r (false, b) q.
Proof. apply search_from_spec. Qed.
