(* ===== verification/Errors.v ===== *)
(** * Exceptions and the public error classes

    [exn] is the type of Python exceptions that leave a modelled function.
    Exceptions with a stable code carry it; the built-in exceptions of Python
    carry nothing.  The second half models [python/src/palonexus/errors.py]:
    the safe, typed SDK exceptions. *)

From stdpp Require Import base list list_numbers numbers strings.
From S2P Require Import Prelude PyString.

(** ** Identifiers of the generated wire types

    Every identifier of the protocol is a prefix followed by a ULID: one
    character of [0-7] and 25 Crockford base-32 characters. *)
Definition is_crockford (c : Z) : bool :=
  is_digit c ||
  (is_upper c && negb (c =? 73) && negb (c =? 76) && negb (c =? 79) && negb (c =? 85)).

Definition is_ulid (s : pystr) : bool :=
  match s with
  | c :: rest => (48 <=? c) && (c <=? 55) && (length rest =? 25)%nat && forallb is_crockford rest
  | [] => false
  end.

Definition prefixed_ulid (prefix : string) (s : pystr) : bool :=
  startswith (u prefix) s && is_ulid (drop (length (u prefix)) s).

Definition ActionID (s : pystr) : bool := prefixed_ulid "act_" s.
Definition RequestID (s : pystr) : bool := prefixed_ulid "req_" s.
Definition CorrelationID (s : pystr) : bool := prefixed_ulid "corr_" s.
Definition CausationID (s : pystr) : bool :=
  prefixed_ulid "act_" s || prefixed_ulid "cause_" s
  || prefixed_ulid "dec_" s || prefixed_ulid "event_" s.
Definition AuthorizationIdempotencyKey (s : pystr) : bool := prefixed_ulid "authz_" s.
Definition TaskID (s : pystr) : bool := prefixed_ulid "task_" s.
Definition SessionID (s : pystr) : bool := prefixed_ulid "session_" s.
Definition DecisionID (s : pystr) : bool := prefixed_ulid "dec_" s.
Definition ApprovalID (s : pystr) : bool := prefixed_ulid "apr_" s.
Definition AuditRef (s : pystr) : bool := prefixed_ulid "audit_" s.
Definition ReconciliationID (s : pystr) : bool := prefixed_ulid "recon_" s.
Definition BatchID (s : pystr) : bool := prefixed_ulid "batch_" s.
Definition ReceiptID (s : pystr) : bool := prefixed_ulid "receipt_" s.

Definition is_lower_hex (c : Z) : bool := is_digit c || ((97 <=? c) && (c <=? 102)).
Definition SHA256Digest (s : pystr) : bool :=
  startswith (u "sha256:") s && (length s =? 71)%nat && forallb is_lower_hex (drop 7 s).

(** ** SDK error classes *)
Inductive sdk_class :=
| CInvalidRequest | CModelValidationError | CMissingIdentity | CUnsupportedProtocol
| CAuthenticationFailed | CAuthorizationUnavailable | CInvalidDecision
| CIdempotencyConflict | CApprovalExpired | CApprovalScopeMismatch
| CCredentialRevoked | CPolicyDenied | CApprovalRequired.

#[global] Instance sdk_class_eq_dec : EqDecision sdk_class.
Proof. solve_decision. Defined.

Definition error_code (c : sdk_class) : string :=
  match c with
  | CInvalidRequest | CModelValidationError => "invalid_request"
  | CMissingIdentity => "missing_identity"
  | CUnsupportedProtocol => "unsupported_protocol"
  | CAuthenticationFailed => "authentication_failed"
  | CAuthorizationUnavailable => "authorization_unavailable"
  | CInvalidDecision => "invalid_decision"
  | CIdempotencyConflict => "idempotency_conflict"
  | CApprovalExpired => "approval_expired"
  | CApprovalScopeMismatch => "approval_scope_mismatch"
  | CCredentialRevoked => "credential_revoked"
  | CPolicyDenied => "policy_denied"
  | CApprovalRequired => "approval_required"
  end.

Definition canonical_message (c : sdk_class) : string :=
  match c with
  | CInvalidRequest | CModelValidationError => "The request is invalid."
  | CMissingIdentity => "Identity is required."
  | CUnsupportedProtocol => "The protocol version is unsupported."
  | CAuthenticationFailed => "Authentication failed."
  | CAuthorizationUnavailable => "Authorization is temporarily unavailable."
  | CInvalidDecision => "The authorization decision is invalid."
  | CIdempotencyConflict => "The idempotency key conflicts with an earlier request."
  | CApprovalExpired => "The approval has expired."
  | CApprovalScopeMismatch => "The action no longer matches the approved scope."
  | CCredentialRevoked => "The credential has been revoked."
  | CPolicyDenied => "Current policy denies this action."
  | CApprovalRequired => "Approval is required before this action can proceed."
  end.

Definition default_retryable (c : sdk_class) : bool :=
  match c with CAuthorizationUnavailable => true | _ => false end.

(** An SDK error object: its class and the identifiers it was built with.  Its
    [code], [message] and [retryable] attributes are those of the class. *)
Record sdk_error := SdkError {
  err_class : sdk_class;
  err_request_id : option pystr;
  err_decision_id : option pystr;
  err_correlation_id : option pystr;
}.

#[global] Instance sdk_error_eq_dec : EqDecision sdk_error.
Proof. solve_decision. Defined.

(** The classes of [palonexus/keystore.py]. *)
Inductive key_store_error :=
| InvalidKeyIdentifier
| InvalidKeyMaterial
| KeyNotFound
| KeyStoreUnavailable
| KeyStoreCorrupt
| KeyStoreClosed.

#[global] Instance key_store_error_eq_dec : EqDecision key_store_error.
Proof. solve_decision. Defined.

(** The exceptions of the modelled code. *)
Inductive exn :=
| CanonicalizationError (code : string)
| ProtocolValidationError (code : string)
| ProtocolStructureError (message : pystr)
| ReconciliationError (code : string)
| RetryPolicyError
| IdentityVerificationFailed
| OIDCVerificationFailed
| InvalidSignature
| KeyStoreError (e : key_store_error)
| PaloNexusError (e : sdk_error)
| KeyError
| TypeError
| ValueError
| AttributeError
| OverflowError
| TimeoutError
| RecursionError
| RuntimeError
| ReError
| DecimalException
| CancelledError
| AsyncCancelledError
| GeneratorExit
| KeyboardInterrupt
| SystemExit.

#[global] Instance exn_eq_dec : EqDecision exn.
Proof. solve_decision. Defined.

(** [except ValueError]: the coded validation errors and [RetryPolicyError]
    derive from [ValueError]; the SDK errors derive from [Exception] only. *)
Definition is_value_error (e : exn) : bool :=
  match e with
  | CanonicalizationError _ | ProtocolValidationError _ | ProtocolStructureError _
  | ReconciliationError _ | RetryPolicyError | ValueError => true
  | _ => false
  end.

Abbreviation py := (result exn).

(** [except Exception]: all but the exceptions that leave every such handler.
    [CancelledError] is that of [concurrent.futures], an [Exception]; the one of
    [asyncio] is not. *)
Definition is_exception (e : exn) : bool :=
  match e with AsyncCancelledError | GeneratorExit | KeyboardInterrupt | SystemExit => false | _ => true end.

(** [try: m except (the exceptions of p): raise e']. *)
Definition except_raise {A} (p : exn → bool) (e' : exn) (m : py A) : py A :=
  match m with
  | Ok a => Ok a
  | Raise e => Raise (if p e then e' else e)
  end.

(** [_safe_identifier(value, validator)]; [None] also stands for an argument
    that is not a [str]. *)
Definition safe_identifier (value : option pystr) (validator : pystr → bool) : option pystr :=
  match value with
  | Some v => if validator v then Some v else None
  | None => None
  end.

(** [PaloNexusError.__init__]. *)
Definition sdk_error_init (c : sdk_class) (request_id decision_id correlation_id : option pystr)
    : sdk_error :=
  SdkError c (safe_identifier request_id RequestID)
             (safe_identifier decision_id DecisionID)
             (safe_identifier correlation_id CorrelationID).

Definition raise_sdk {A} (c : sdk_class) (request_id decision_id correlation_id : option pystr)
    : py A :=
  Raise (PaloNexusError (sdk_error_init c request_id decision_id correlation_id)).

(** The error without identifiers, as in [InvalidDecision()]. *)
Definition bare_error (c : sdk_class) : exn := PaloNexusError (sdk_error_init c None None None).

(** [__reduce__] and [_restore_error]: what [pickle] stores and rebuilds. *)
Definition reduce (e : sdk_error)
    : sdk_class * option pystr * option pystr * option pystr :=
  (err_class e, err_request_id e, err_decision_id e, err_correlation_id e).
Definition restore_error (r : sdk_class * option pystr * option pystr * option pystr)
    : sdk_error :=
  let '(c, rid, did, cid) := r in sdk_error_init c rid did cid.

(** [__str__]. *)
Definition present_identifiers (e : sdk_error) : list pystr :=
  omap (λ p : string * option pystr, (λ v, u (p.1 +:+ "=") ++ v) <$> p.2)
    [("request_id", err_request_id e); ("decision_id", err_decision_id e);
     ("correlation_id", err_correlation_id e)].
Definition error_str (e : sdk_error) : pystr :=
  let present := join (u ", ") (present_identifiers e) in
  u (error_code (err_class e)) ++ u ": " ++ u (canonical_message (err_class e)) ++
  (if decide (present = []) then [] else u " (" ++ present ++ u ")").

(** [_ERROR_TYPES]: the class of a protocol error code. *)
Definition error_types (code : string) : option sdk_class :=
  if bool_decide (code = "invalid_request") then Some CInvalidRequest
  else if bool_decide (code = "missing_identity") then Some CMissingIdentity
  else if bool_decide (code = "unsupported_protocol") then Some CUnsupportedProtocol
  else if bool_decide (code = "authentication_failed") then Some CAuthenticationFailed
  else if bool_decide (code = "authorization_unavailable") then Some CAuthorizationUnavailable
  else if bool_decide (code = "invalid_decision") then Some CInvalidDecision
  else if bool_decide (code = "idempotency_conflict") then Some CIdempotencyConflict
  else if bool_decide (code = "approval_expired") then Some CApprovalExpired
  else if bool_decide (code = "approval_scope_mismatch") then Some CApprovalScopeMismatch
  else if bool_decide (code = "credential_revoked") then Some CCredentialRevoked
  else if bool_decide (code = "policy_denied") then Some CPolicyDenied
  else None.

(** ** Well-formed error objects *)
Definition id_ok (validator : pystr → bool) (o : option pystr) : Prop :=
  match o with Some v => validator v = true | None => True end.
Definition sdk_error_wf (e : sdk_error) : Prop :=
  id_ok RequestID (err_request_id e) ∧ id_ok DecisionID (err_decision_id e)
  ∧ id_ok CorrelationID (err_correlation_id e).

Lemma except_raise_Ok {A} p e' (m : py A) a : except_raise p e' m = Ok a ↔ m = Ok a.
Proof. by destruct m. Qed.

Lemma safe_identifier_ok v f : id_ok f (safe_identifier v f).
Proof. destruct v as [v|]; cbn; [|done]. by destruct (f v) eqn:E. Qed.

Lemma safe_identifier_id v f : id_ok f v → safe_identifier v f = v.
Proof. destruct v; cbn; [|done]. by intros ->. Qed.

Lemma sdk_error_init_wf c r d k : sdk_error_wf (sdk_error_init c r d k).
Proof. repeat split; apply safe_identifier_ok. Qed.

Lemma restore_reduce e : sdk_error_wf e → restore_error (reduce e) = e.
Proof.
  destruct e as [c r d k]. intros (?&?&?). cbn in *.
  unfold sdk_error_init. by rewrite !safe_identifier_id.
Qed.
