(* ===== verification/Timestamp.v ===== *)
(** * RFC 3339 timestamps

    [protocol/reference/validate.py] parses a timestamp into a pair of the
    exact number of seconds since the Unix epoch and the string of fraction
    digits, and compares such pairs digit by digit; the reconciliation code
    renders the instant some seconds later.  [datetime] of the Python standard
    library (the proleptic Gregorian calendar, years 1 to 9999) is modelled by
    the definitions of the first section. *)

From stdpp Require Import base list list_numbers numbers strings.
From S2P Require Import Prelude PyString Errors.

(** ** The calendar of [datetime] *)
Record datetime := Datetime {
  dt_year : Z; dt_month : Z; dt_day : Z; dt_hour : Z; dt_minute : Z; dt_second : Z
}.

Definition is_leap (y : Z) : bool :=
  (y mod 4 =? 0) && (negb (y mod 100 =? 0) || (y mod 400 =? 0)).

(** Days of the year before month [m] begins. *)
Definition days_before_month (leap : bool) (m : Z) : Z :=
  (match m with
   | 1 => 0 | 2 => 31 | 3 => 59 | 4 => 90 | 5 => 120 | 6 => 151 | 7 => 181
   | 8 => 212 | 9 => 243 | 10 => 273 | 11 => 304 | 12 => 334 | _ => 365
   end) + (if leap && (2 <? m) then 1 else 0).

Definition days_in_month (leap : bool) (m : Z) : Z :=
  days_before_month leap (m + 1) - days_before_month leap m.

Definition days_before_year (y : Z) : Z :=
  (y - 1) * 365 + (y - 1) / 4 - (y - 1) / 100 + (y - 1) / 400.

Definition ymd2ord (y m d : Z) : Z := days_before_year y + days_before_month (is_leap y) m + d.

(** Month and day of the 0-based day [n] of a year: the estimate [(n + 50) >> 5]
    is exact or one too large. *)
Definition month_day (leap : bool) (n : Z) : Z * Z :=
  let month := Z.shiftr (n + 50) 5 in
  let preceding := days_before_month leap month in
  if n <? preceding
  then (month - 1, n - days_before_month leap (month - 1) + 1)
  else (month, n - preceding + 1).

Definition ord2ymd (ordinal : Z) : Z * Z * Z :=
  let n := ordinal - 1 in
  let n400 := n / 146097 in let n := n mod 146097 in
  let n100 := n / 36524 in let n := n mod 36524 in
  let n4 := n / 1461 in let n := n mod 1461 in
  let n1 := n / 365 in let n := n mod 365 in
  let year := n400 * 400 + 1 + n100 * 100 + n4 * 4 + n1 in
  if (n1 =? 4) || (n100 =? 4) then (year - 1, 12, 31)
  else let '(m, d) := month_day (is_leap year) n in (year, m, d).

Definition valid_datetime (t : datetime) : bool :=
  (1 <=? dt_year t) && (dt_year t <=? 9999)
  && (1 <=? dt_month t) && (dt_month t <=? 12)
  && (1 <=? dt_day t) && (dt_day t <=? days_in_month (is_leap (dt_year t)) (dt_month t))
  && (0 <=? dt_hour t) && (dt_hour t <=? 23) && (0 <=? dt_minute t) && (dt_minute t <=? 59)
  && (0 <=? dt_second t) && (dt_second t <=? 59).

Definition toordinal (t : datetime) : Z := ymd2ord (dt_year t) (dt_month t) (dt_day t).

Definition UNIX_EPOCH_ORDINAL : Z := Eval cbv in ymd2ord 1970 1 1.

(** [datetime.fromtimestamp(s, tz=UTC)]; out of the years 1 to 9999 it raises. *)
Definition MIN_TIMESTAMP : Z := Eval cbv in (ymd2ord 1 1 1 - ymd2ord 1970 1 1) * 86400.
Definition MAX_TIMESTAMP : Z :=
  Eval cbv in (ymd2ord 9999 12 31 - ymd2ord 1970 1 1) * 86400 + 86399.

Definition fromtimestamp (s : Z) : option datetime :=
  if (MIN_TIMESTAMP <=? s) && (s <=? MAX_TIMESTAMP) then
    let sod := s mod 86400 in
    let '(y, m, d) := ord2ymd (UNIX_EPOCH_ORDINAL + s / 86400) in
    Some (Datetime y m d (sod / 3600) (sod mod 3600 / 60) (sod mod 60))
  else None.

(** [strftime("%Y-%m-%dT%H:%M:%S")].  The year has four digits: before the year 1000
    that is what implementations of [%Y] do that pad it, and some C libraries do not. *)
Definition strftime (t : datetime) : pystr :=
  pad_digits 4 (dt_year t) ++ u "-" ++ pad_digits 2 (dt_month t) ++ u "-" ++
  pad_digits 2 (dt_day t) ++ u "T" ++ pad_digits 2 (dt_hour t) ++ u ":" ++
  pad_digits 2 (dt_minute t) ++ u ":" ++ pad_digits 2 (dt_second t).

(** ** The parser

    [_RFC3339.fullmatch(value).groups()]: the date and time, the fraction
    digits ([""] when there is no fraction) and the zone. *)
Definition is_base (s : pystr) : bool :=
  match s with
  | [y1; y2; y3; y4; c1; m1; m2; c2; d1; d2; ct; h1; h2; c3; n1; n2; c4; s1; s2] =>
      forallb is_digit [y1; y2; y3; y4; m1; m2; d1; d2; h1; h2; n1; n2; s1; s2]
      && str_eqb [c1; c2; ct; c3; c4] (u "--T::")
  | _ => false
  end.

Definition is_zone (s : pystr) : bool :=
  match s with
  | [z] => z =? 90
  | [sg; h1; h2; c; m1; m2] =>
      ((sg =? 43) || (sg =? 45)) && (c =? 58) && forallb is_digit [h1; h2; m1; m2]
  | _ => false
  end.

Definition rfc3339_match (s : pystr) : option (pystr * pystr * pystr) :=
  let base := take 19 s in
  let rest := drop 19 s in
  if is_base base then
    match rest with
    | 46 :: rest' =>
        let '(fraction, zone) := span is_digit rest' in
        if negb (bool_decide (fraction = [])) && is_zone zone
        then Some (base, fraction, zone) else None
    | _ => if is_zone rest then Some (base, [], rest) else None
    end
  else None.

(** [datetime.fromisoformat] on a string of the shape [YYYY-MM-DDTHH:MM:SS]. *)
Definition slice (a b : nat) (s : pystr) : pystr := take (b - a) (drop a s).
Definition fromisoformat (base : pystr) : option datetime :=
  let t := Datetime (int_of_digits (slice 0 4 base)) (int_of_digits (slice 5 7 base))
             (int_of_digits (slice 8 10 base)) (int_of_digits (slice 11 13 base))
             (int_of_digits (slice 14 16 base)) (int_of_digits (slice 17 19 base)) in
  if valid_datetime t then Some t else None.

(** The offset of the zone in seconds, [None] when it is out of range. *)
Definition zone_offset (zone : pystr) : option Z :=
  if str_eqb zone (u "Z") then Some 0
  else
    let hour := int_of_digits (slice 1 3 zone) in
    let minute := int_of_digits (slice 4 6 zone) in
    if (23 <? hour) || (59 <? minute) then None
    else
      let offset := (hour * 60 + minute) * 60 in
      Some (if bool_decide (head zone = Some 45) then - offset else offset).

Definition timestamp := (Z * pystr)%type.

(** The body shared by [validate._parse_rfc3339] and [approvals._parse_timestamp]:
    [None] where they raise. *)
Definition rfc3339_value (s : pystr) : option timestamp :=
  '(base, fraction, zone) ← rfc3339_match s;
  parsed ← fromisoformat base;
  offset ← zone_offset zone;
  let local_seconds :=
    (toordinal parsed - UNIX_EPOCH_ORDINAL) * 86400
    + dt_hour parsed * 3600 + dt_minute parsed * 60 + dt_second parsed in
  Some (local_seconds - offset, fraction).

(** [_timestamp_order]: seconds first, then the fractions digit by digit, the
    shorter one extended by ["0"]. *)
Fixpoint zip_longest (fill : Z) (l r : pystr) : list (Z * Z) :=
  match l, r with
  | [], _ => (λ b, (fill, b)) <$> r
  | a :: l', [] => (a, fill) :: zip_longest fill l' []
  | a :: l', b :: r' => (a, b) :: zip_longest fill l' r'
  end.

Fixpoint first_difference (ps : list (Z * Z)) : Z :=
  match ps with
  | [] => 0
  | (a, b) :: ps' => if negb (a =? b) then (if a <? b then -1 else 1) else first_difference ps'
  end.

Definition timestamp_order (l r : timestamp) : Z :=
  if negb (l.1 =? r.1) then (if l.1 <? r.1 then -1 else 1)
  else first_difference (zip_longest 48 l.2 r.2).

(** The rendered instant: [strftime], the fraction when there is one, ["Z"]. *)
Definition render_utc (t : datetime) (fraction : pystr) : pystr :=
  (if bool_decide (fraction = []) then strftime t else strftime t ++ u "." ++ fraction) ++ u "Z".

(** [reconciliation._add_seconds]: the instant [seconds] later, rendered in UTC
    with the fraction of the argument. *)
Definition add_seconds (value : pystr) (seconds : Z) : py pystr :=
  match rfc3339_value value with
  | None => Raise (ReconciliationError "timestamp_invalid")
  | Some (epoch_seconds, fraction) =>
      match fromtimestamp (epoch_seconds + seconds) with
      | None => Raise (ReconciliationError "timestamp_range_invalid")
      | Some t =>
          Ok (render_utc t fraction)
      end
  end.

(** ** The calendar is a bijection *)
Definition month_day_check (leap : bool) (n : Z) : bool :=
  let '(m, d) := month_day leap n in
  (1 <=? m) && (m <=? 12) && (1 <=? d) && (d <=? days_in_month leap m)
  && (days_before_month leap m + d =? n + 1).

Lemma month_day_spec leap n :
  0 ≤ n < 365 + (if leap : bool then 1 else 0) → month_day_check leap n = true.
Proof.
  intros Hn.
  assert (forallb (λ k, month_day_check leap (Z.of_nat k))
            (seq 0 (if leap then 366 else 365)) = true) as Hall
    by (destruct leap; vm_compute; reflexivity).
  rewrite forallb_forall in Hall.
  specialize (Hall (Z.to_nat n)). rewrite Z2Nat.id in Hall by lia.
  apply Hall, in_seq. destruct leap; lia.
Qed.

(** A year as its position in the 400-, 100- and 4-year cycles. *)
Lemma days_before_year_cycles a b c e :
  0 ≤ b ≤ 3 → 0 ≤ c ≤ 24 → 0 ≤ e ≤ 3 →
  days_before_year (a * 400 + 1 + b * 100 + c * 4 + e)
  = 146097 * a + 36524 * b + 1461 * c + 365 * e.
Proof.
  intros. unfold days_before_year.
  replace ((a * 400 + 1 + b * 100 + c * 4 + e - 1) / 4) with (100 * a + 25 * b + c)
    by (apply (Z.div_unique _ _ _ e); lia).
  replace ((a * 400 + 1 + b * 100 + c * 4 + e - 1) / 100) with (4 * a + b)
    by (apply (Z.div_unique _ _ _ (c * 4 + e)); lia).
  replace ((a * 400 + 1 + b * 100 + c * 4 + e - 1) / 400) with a
    by (apply (Z.div_unique _ _ _ (b * 100 + c * 4 + e)); lia).
  lia.
Qed.

Lemma is_leap_cycles a b c e :
  0 ≤ b ≤ 3 → 0 ≤ c ≤ 24 → 0 ≤ e ≤ 3 →
  is_leap (a * 400 + 1 + b * 100 + c * 4 + e) = (e =? 3) && (negb (c =? 24) || (b =? 3)).
Proof.
  intros. unfold is_leap. set (y := a * 400 + 1 + b * 100 + c * 4 + e).
  assert ((y mod 4 =? 0) = (e =? 3)) as ->.
  { apply eq_iff_eq_true. rewrite !Z.eqb_eq. subst y. split; intros; Z.to_euclidean_division_equations; lia. }
  destruct (e =? 3) eqn:He; [|done]. refl_bool. cbn [andb].
  assert ((y mod 100 =? 0) = (c =? 24)) as ->.
  { apply eq_iff_eq_true. rewrite !Z.eqb_eq. subst y. split; intros; Z.to_euclidean_division_equations; lia. }
  destruct (c =? 24) eqn:Hc; [|done]. refl_bool. cbn [negb orb].
  apply eq_iff_eq_true. rewrite !Z.eqb_eq. subst y. split; intros; Z.to_euclidean_division_equations; lia.
Qed.

Lemma ymd2ord_last_day a b c :
  0 ≤ b ≤ 3 → 0 ≤ c ≤ 24 → (c ≠ 24 ∨ b = 3) →
  let y := a * 400 + 1 + b * 100 + c * 4 + 3 in
  31 ≤ days_in_month (is_leap y) 12 ∧
  ymd2ord y 12 31 = 146097 * a + 36524 * b + 1461 * c + 1461.
Proof.
  intros ? ? Hl y. subst y. unfold ymd2ord.
  rewrite is_leap_cycles, days_before_year_cycles by lia.
  assert (negb (c =? 24) || (b =? 3) = true) as ->
    by (destruct Hl as [?| ->]; [apply orb_true_iff; left; apply negb_true_iff; refl_bool; done
                               |by rewrite orb_true_r]).
  change ((3 =? 3) && true) with true.
  change (days_in_month true 12) with 31. change (days_before_month true 12) with 335. lia.
Qed.

Lemma ord2ymd_spec o y m d :
  1 ≤ o → ord2ymd o = (y, m, d) →
  1 ≤ m ≤ 12 ∧ 1 ≤ d ≤ days_in_month (is_leap y) m ∧ ymd2ord y m d = o.
Proof.
  unfold ord2ymd. intros Ho.
  set (n := o - 1). set (a := n / 146097). set (r1 := n mod 146097).
  set (b := r1 / 36524). set (r2 := r1 mod 36524).
  set (c := r2 / 1461). set (r3 := r2 mod 1461).
  set (e := r3 / 365). set (f := r3 mod 365).
  pose proof (Z.div_mod n 146097 ltac:(done)) as E1.
  pose proof (Z.mod_pos_bound n 146097 ltac:(done)) as B1.
  pose proof (Z.div_mod r1 36524 ltac:(done)) as E2.
  pose proof (Z.mod_pos_bound r1 36524 ltac:(done)) as B2.
  pose proof (Z.div_mod r2 1461 ltac:(done)) as E3.
  pose proof (Z.mod_pos_bound r2 1461 ltac:(done)) as B3.
  pose proof (Z.div_mod r3 365 ltac:(done)) as E4.
  pose proof (Z.mod_pos_bound r3 365 ltac:(done)) as B4.
  fold a r1 in E1, B1. fold b r2 in E2, B2. fold c r3 in E3, B3. fold e f in E4, B4.
  assert (0 ≤ b ≤ 4 ∧ 0 ≤ c ≤ 24 ∧ 0 ≤ e ≤ 4) as (Hb & Hc & He) by lia.
  assert (o = 1 + 146097 * a + r1) as Eo by lia. clearbody a b c e f r1 r2 r3.
  destruct (b =? 4) eqn:Eb; refl_bool.
  { rewrite orb_true_r. intros [= <- <- <-].
    destruct (ymd2ord_last_day a 3 24) as [? Hy]; [lia..|].
    replace (a * 400 + 1 + b * 100 + c * 4 + e - 1)
      with (a * 400 + 1 + 3 * 100 + 24 * 4 + 3) by lia.
    cbv zeta in Hy. rewrite Hy. lia. }
  rewrite orb_false_r. destruct (e =? 4) eqn:Ee; refl_bool.
  { intros [= <- <- <-].
    destruct (ymd2ord_last_day a b c) as [? Hy]; [lia..|].
    replace (a * 400 + 1 + b * 100 + c * 4 + e - 1)
      with (a * 400 + 1 + b * 100 + c * 4 + 3) by lia.
    cbv zeta in Hy. rewrite Hy. lia. }
  set (yy := a * 400 + 1 + b * 100 + c * 4 + e).
  assert (month_day_check (is_leap yy) f = true) as Hmd.
  { apply month_day_spec. destruct (is_leap yy); lia. }
  unfold month_day_check in Hmd.
  destruct (month_day (is_leap yy) f) as [mm dd] eqn:E. intros [= <- <- <-].
  inv_ok; refl_bool. split_and!; try lia.
  unfold ymd2ord, yy. rewrite days_before_year_cycles by lia. fold yy. lia.
Qed.

Lemma month_bounds leap m :
  1 ≤ m ≤ 12 → 0 ≤ days_before_month leap m ≤ 335 ∧ days_in_month leap m ≤ 31.
Proof.
  intros Hm.
  assert (m = 1 ∨ m = 2 ∨ m = 3 ∨ m = 4 ∨ m = 5 ∨ m = 6 ∨ m = 7 ∨ m = 8 ∨ m = 9 ∨ m = 10
          ∨ m = 11 ∨ m = 12) as Hcases by lia.
  destruct leap; destruct_or! Hcases; subst m; vm_compute; split_and!; congruence.
Qed.

Lemma ord2ymd_year_range o y m d :
  1 ≤ o ≤ 3652059 → ord2ymd o = (y, m, d) → 1 ≤ y ≤ 9999.
Proof.
  intros Ho Hd. destruct (ord2ymd_spec o y m d ltac:(lia) Hd) as (Hm & Hdd & Ho').
  unfold ymd2ord, days_before_year in Ho'.
  pose proof (month_bounds (is_leap y) m Hm).
  Z.to_euclidean_division_equations; lia.
Qed.

Lemma fromtimestamp_spec s t :
  fromtimestamp s = Some t →
  valid_datetime t = true ∧
  (toordinal t - UNIX_EPOCH_ORDINAL) * 86400
    + dt_hour t * 3600 + dt_minute t * 60 + dt_second t = s.
Proof.
  unfold fromtimestamp.
  destruct ((MIN_TIMESTAMP <=? s) && (s <=? MAX_TIMESTAMP)) eqn:Hr; [|done].
  inv_ok; refl_bool. unfold MIN_TIMESTAMP, MAX_TIMESTAMP in *.
  destruct (ord2ymd (UNIX_EPOCH_ORDINAL + s / 86400)) as [[y m] d] eqn:E. intros [= <-].
  assert (1 ≤ UNIX_EPOCH_ORDINAL + s / 86400 ≤ 3652059) as Ho.
  { unfold UNIX_EPOCH_ORDINAL. Z.to_euclidean_division_equations; lia. }
  destruct (ord2ymd_spec _ _ _ _ (proj1 Ho) E) as (Hm & Hd & Hord).
  pose proof (ord2ymd_year_range _ _ _ _ Ho E) as Hy.
  unfold valid_datetime, toordinal. cbn. rewrite Hord. split.
  - rewrite !andb_true_iff, !Z.leb_le. clear E Hord. split_and!; Z.to_euclidean_division_equations; lia.
  - clear - s. Z.to_euclidean_division_equations; lia.
Qed.

(** ** Rendering and parsing *)
Lemma is_base_strftime t : is_base (strftime t) = true.
Proof.
  unfold strftime.
  assert (Hd : ∀ w n, Forall (λ c, is_digit c = true) (pad_digits w n)) by apply pad_digits_are_digits.
  pose proof (Hd 4%nat (dt_year t)) as H1. pose proof (Hd 2%nat (dt_month t)) as H2.
  pose proof (Hd 2%nat (dt_day t)) as H3. pose proof (Hd 2%nat (dt_hour t)) as H4.
  pose proof (Hd 2%nat (dt_minute t)) as H5. pose proof (Hd 2%nat (dt_second t)) as H6.
  cbn [pad_digits app] in *.
  repeat match goal with H : Forall _ (_ :: _) |- _ => apply Forall_cons in H as [? H] end.
  unfold is_base. cbn [app u].
  change (u "-") with [45]; change (u "T") with [84]; change (u ":") with [58].
  cbn [app forallb].
  repeat match goal with H : is_digit _ = true |- _ => rewrite H; clear H end.
  reflexivity.
Qed.

Lemma length_strftime t : length (strftime t) = 19%nat.
Proof. unfold strftime. rewrite !length_app, !length_pad_digits. reflexivity. Qed.

Lemma fromisoformat_strftime t :
  valid_datetime t = true → fromisoformat (strftime t) = Some t.
Proof.
  intros Hv. unfold fromisoformat.
  assert (Datetime (int_of_digits (slice 0 4 (strftime t))) (int_of_digits (slice 5 7 (strftime t)))
    (int_of_digits (slice 8 10 (strftime t))) (int_of_digits (slice 11 13 (strftime t)))
    (int_of_digits (slice 14 16 (strftime t))) (int_of_digits (slice 17 19 (strftime t))) = t) as ->.
  { unfold valid_datetime in Hv. inv_ok; refl_bool.
    pose proof (month_bounds (is_leap (dt_year t)) (dt_month t) ltac:(lia)).
    unfold strftime, slice.
    change (u "-") with [45]; change (u "T") with [84]; change (u ":") with [58].
    destruct t as [y mo d h mi s]; cbn in * |-. cbn [dt_year dt_month dt_day dt_hour dt_minute dt_second].
    f_equal.
    - change (take (4 - 0) (drop 0 _)) with (pad_digits 4 y). apply int_of_pad_digits; cbn; lia.
    - change (take (7 - 5) (drop 5 _)) with (pad_digits 2 mo). apply int_of_pad_digits; cbn; lia.
    - change (take (10 - 8) (drop 8 _)) with (pad_digits 2 d). apply int_of_pad_digits; cbn; lia.
    - change (take (13 - 11) (drop 11 _)) with (pad_digits 2 h). apply int_of_pad_digits; cbn; lia.
    - change (take (16 - 14) (drop 14 _)) with (pad_digits 2 mi). apply int_of_pad_digits; cbn; lia.
    - change (take (19 - 17) (drop 17 _)) with (pad_digits 2 s). apply int_of_pad_digits; cbn; lia. }
  by rewrite Hv.
Qed.

Definition is_digits (s : pystr) : Prop := Forall (λ c, is_digit c = true) s.

Lemma rfc3339_value_fraction s e f : rfc3339_value s = Some (e, f) → is_digits f.
Proof.
  unfold rfc3339_value, rfc3339_match. intros H.
  apply bind_Some in H as ([[base fraction] zone] & Hm & H).
  assert (is_digits fraction) as Hf.
  { destruct (is_base (take 19 s)); [|done].
    destruct (drop 19 s) as [|[|p|p] rest] eqn:Hd.
    all: try (destruct (is_zone _); simplify_eq; constructor).
    repeat (destruct p; try (destruct (is_zone _); simplify_eq; constructor)).
    destruct (span is_digit rest) as [fr z] eqn:Hs.
    destruct (negb (bool_decide (fr = [])) && is_zone z); simplify_eq.
    by apply span_prefix in Hs as [_ ?]. }
  apply bind_Some in H as (t & _ & H). apply bind_Some in H as (o & _ & H).
  by simplify_eq.
Qed.

(** A rendered instant, with the fraction [f], parses to itself. *)
Lemma rfc3339_value_rendered t f :
  valid_datetime t = true → is_digits f →
  rfc3339_value (render_utc t f)
  = Some ((toordinal t - UNIX_EPOCH_ORDINAL) * 86400
          + dt_hour t * 3600 + dt_minute t * 60 + dt_second t, f).
Proof.
  intros Hv Hf. set (s := render_utc t f).
  assert (s = strftime t ++ (if bool_decide (f = []) then [] else u "." ++ f) ++ u "Z") as Hs.
  { subst s. unfold render_utc. case_bool_decide; [done|]. by rewrite !app_assoc. }
  assert (take 19 s = strftime t) as Htake
    by (rewrite Hs; apply take_app_length'; symmetry; apply length_strftime).
  assert (drop 19 s = (if bool_decide (f = []) then [] else u "." ++ f) ++ u "Z") as Hdrop
    by (rewrite Hs; apply drop_app_length'; symmetry; apply length_strftime).
  unfold rfc3339_value, rfc3339_match. rewrite Htake, Hdrop, is_base_strftime. cbv zeta.
  assert (∀ (base fr : pystr), base = strftime t →
    (parsed ← fromisoformat base; offset ← zone_offset (u "Z");
     Some ((toordinal parsed - UNIX_EPOCH_ORDINAL) * 86400 + dt_hour parsed * 3600
           + dt_minute parsed * 60 + dt_second parsed - offset, fr))
    = Some ((toordinal t - UNIX_EPOCH_ORDINAL) * 86400
          + dt_hour t * 3600 + dt_minute t * 60 + dt_second t, fr)) as Hend.
  { intros base fr ->. rewrite fromisoformat_strftime by done.
    change (zone_offset (u "Z")) with (Some 0). cbn [mbind option_bind].
    by rewrite Z.sub_0_r. }
  case_bool_decide as Hnil.
  - subst f. by apply Hend.
  - change (u "." ++ f) with (46 :: f). change (u "Z") with [90]. cbn [app].
    rewrite span_app_stop by done.
    rewrite bool_decide_eq_false_2 by done. cbn [negb andb is_zone Z.eqb].
    by apply Hend.
Qed.

Lemma add_seconds_Ok v s r :
  add_seconds v s = Ok r ↔
  ∃ e f t, rfc3339_value v = Some (e, f) ∧ fromtimestamp (e + s) = Some t ∧
    r = render_utc t f.
Proof.
  unfold add_seconds. destruct (rfc3339_value v) as [[e f]|]; [|naive_solver].
  destruct (fromtimestamp (e + s)) eqn:E; naive_solver.
Qed.

Lemma add_seconds_value v s r e f :
  rfc3339_value v = Some (e, f) → add_seconds v s = Ok r → rfc3339_value r = Some (e + s, f).
Proof.
  intros Hv (e' & f' & t & Hv' & Ht & ->)%add_seconds_Ok. simplify_eq.
  apply fromtimestamp_spec in Ht as [Hvt <-].
  apply rfc3339_value_rendered; [done|]. by eapply rfc3339_value_fraction.
Qed.

(** ** The order of timestamps *)

(** The value of a fraction, in units of [10^-k]. *)
Definition fraction_value (k : nat) (f : pystr) : Z :=
  int_of_digits f * 10 ^ (Z.of_nat k - Z.of_nat (length f)).
(** The instant of a timestamp, in units of [10^-k] seconds. *)
Definition instant (k : nat) (t : timestamp) : Z :=
  t.1 * 10 ^ Z.of_nat k + fraction_value k t.2.

Lemma fraction_value_nil k : fraction_value k [] = 0.
Proof. reflexivity. Qed.

Lemma fraction_value_cons k c s :
  (length s ≤ k)%nat →
  fraction_value (S k) (c :: s) = digit_val c * 10 ^ Z.of_nat k + fraction_value k s.
Proof.
  intros Hk. unfold fraction_value, int_of_digits.
  rewrite int_of_digits_acc_cons, int_of_digits_acc_shift. fold (int_of_digits s).
  rewrite length_cons, !Nat2Z.inj_succ.
  replace (Z.succ (Z.of_nat k) - Z.succ (Z.of_nat (length s)))
    with (Z.of_nat k - Z.of_nat (length s)) by lia.
  replace (10 ^ Z.of_nat k)
    with (10 ^ Z.of_nat (length s) * 10 ^ (Z.of_nat k - Z.of_nat (length s)))
    by (rewrite <-Z.pow_add_r by lia; f_equal; lia).
  ring.
Qed.

Lemma fraction_value_bounds k s :
  is_digits s → (length s ≤ k)%nat → 0 ≤ fraction_value k s < 10 ^ Z.of_nat k.
Proof.
  intros Hs. revert k. induction Hs as [|c s Hc _ IH]; intros k Hk.
  - rewrite fraction_value_nil. split; [lia|]. apply Z.pow_pos_nonneg; lia.
  - destruct k as [|k]; [cbn in Hk; lia|]. cbn in Hk.
    rewrite fraction_value_cons by lia. apply is_digit_iff in Hc.
    specialize (IH k ltac:(lia)). rewrite Nat2Z.inj_succ, Z.pow_succ_r by lia.
    unfold digit_val. nia.
Qed.

(** The sign of a difference of two digit strings, by their first digits. *)
Lemma sgn_first_digit a b x y p :
  a ≠ b → 0 ≤ x < p → 0 ≤ y < p →
  Z.sgn (a * p + x - (b * p + y)) = if a <? b then -1 else 1.
Proof.
  intros Hab Hx Hy. destruct (Z.ltb_spec a b).
  - apply Z.sgn_neg. nia.
  - apply Z.sgn_pos. nia.
Qed.

Lemma zip_longest_nil_r fill l : zip_longest fill l [] = (λ a, (a, fill)) <$> l.
Proof. induction l; cbn; congruence. Qed.

Lemma first_difference_cons a b ps :
  first_difference ((a, b) :: ps)
  = if a =? b then first_difference ps else if a <? b then -1 else 1.
Proof. cbn. by destruct (a =? b). Qed.

Lemma first_difference_zip l r k :
  is_digits l → is_digits r → (length l ≤ k)%nat → (length r ≤ k)%nat →
  first_difference (zip_longest 48 l r) = Z.sgn (fraction_value k l - fraction_value k r).
Proof.
  intros Hl. revert r k. induction Hl as [|a l Ha Hl IH]; intros r k Hr.
  - revert k. induction Hr as [|b r Hb Hr IHr]; intros k Hk1 Hk2; [done|].
    destruct k as [|k]; [cbn in Hk2; lia|]. cbn in Hk2.
    pose proof (fraction_value_bounds k r Hr ltac:(lia)) as Bs.
    rewrite fraction_value_cons, fraction_value_nil by lia.
    change (zip_longest 48 [] (b :: r)) with ((48, b) :: zip_longest 48 [] r).
    rewrite first_difference_cons.
    destruct (48 =? b) eqn:E; refl_bool.
    + subst b. rewrite (IHr k ltac:(cbn; lia) ltac:(lia)).
      rewrite fraction_value_nil. unfold digit_val. f_equal; lia.
    + symmetry.
      replace (0 - (digit_val b * 10 ^ Z.of_nat k + fraction_value k r))
        with (digit_val 48 * 10 ^ Z.of_nat k + 0
              - (digit_val b * 10 ^ Z.of_nat k + fraction_value k r)) by (unfold digit_val; lia).
      rewrite sgn_first_digit; [|unfold digit_val; lia|lia|lia].
      unfold digit_val. destruct (Z.ltb_spec 48 b), (Z.ltb_spec (48 - 48) (b - 48)); lia.
  - intros Hk1 Hk2. destruct k as [|k]; [cbn in Hk1; lia|]. cbn in Hk1.
    pose proof (fraction_value_bounds k l Hl ltac:(lia)) as Bl.
    rewrite fraction_value_cons by lia.
    destruct Hr as [|b r Hb Hr].
    + rewrite fraction_value_nil. cbn [zip_longest]. rewrite first_difference_cons.
      destruct (a =? 48) eqn:E; refl_bool.
      * subst a. rewrite (IH [] k); [|constructor|lia|cbn; lia].
        rewrite fraction_value_nil. unfold digit_val. f_equal; lia.
      * symmetry.
        replace (digit_val a * 10 ^ Z.of_nat k + fraction_value k l - 0)
          with (digit_val a * 10 ^ Z.of_nat k + fraction_value k l
                - (digit_val 48 * 10 ^ Z.of_nat k + 0)) by (unfold digit_val; lia).
        rewrite sgn_first_digit; [|unfold digit_val; lia|lia|lia].
        unfold digit_val. destruct (Z.ltb_spec a 48), (Z.ltb_spec (a - 48) (48 - 48)); lia.
    + cbn in Hk2. pose proof (fraction_value_bounds k r Hr ltac:(lia)) as Br.
      rewrite fraction_value_cons by lia. cbn [zip_longest]. rewrite first_difference_cons.
      destruct (a =? b) eqn:E; refl_bool.
      * subst b. rewrite (IH r k Hr ltac:(lia) ltac:(lia)). f_equal; lia.
      * rewrite sgn_first_digit; [|unfold digit_val; lia|lia|lia].
        unfold digit_val. destruct (Z.ltb_spec a b), (Z.ltb_spec (a - 48) (b - 48)); lia.
Qed.

Lemma timestamp_order_sgn l r k :
  is_digits l.2 → is_digits r.2 → (length l.2 ≤ k)%nat → (length r.2 ≤ k)%nat →
  timestamp_order l r = Z.sgn (instant k l - instant k r).
Proof.
  intros Hl Hr Hkl Hkr. unfold timestamp_order, instant.
  pose proof (fraction_value_bounds k _ Hl Hkl). pose proof (fraction_value_bounds k _ Hr Hkr).
  destruct (l.1 =? r.1) eqn:E; refl_bool; cbn [negb].
  - rewrite E, (first_difference_zip _ _ k) by done. f_equal; lia.
  - by rewrite sgn_first_digit.
Qed.

(** Timestamps that come out of the parser. *)
Definition ts_wf (t : timestamp) : Prop := is_digits t.2.

Lemma rfc3339_value_wf s t : rfc3339_value s = Some t → ts_wf t.
Proof. destruct t. apply rfc3339_value_fraction. Qed.
#[export] Hint Resolve rfc3339_value_wf : core.

Section order.
Implicit Types l r t : timestamp.

Local Lemma order_k l r :
  ts_wf l → ts_wf r → ∃ k, (length l.2 ≤ k)%nat ∧ (length r.2 ≤ k)%nat ∧
    ∀ k', (k ≤ k')%nat → timestamp_order l r = Z.sgn (instant k' l - instant k' r).
Proof.
  intros ??. exists (length l.2 `max` length r.2)%nat. split_and!; [lia..|].
  intros k' ?. apply timestamp_order_sgn; [done..|lia|lia].
Qed.

Lemma timestamp_order_refl t : timestamp_order t t = 0.
Proof.
  unfold timestamp_order. rewrite Z.eqb_refl. cbn.
  generalize t.2. intros f. induction f as [|c f IH]; cbn; [done|]. by rewrite Z.eqb_refl.
Qed.

Lemma timestamp_order_opp l r :
  ts_wf l → ts_wf r → timestamp_order r l = - timestamp_order l r.
Proof.
  intros Hl Hr. destruct (order_k l r Hl Hr) as (k & _ & _ & H1).
  destruct (order_k r l Hr Hl) as (k' & _ & _ & H2).
  rewrite (H1 (k `max` k')%nat), (H2 (k `max` k')%nat) by lia.
  rewrite <-Z.sgn_opp. f_equal; lia.
Qed.

Lemma timestamp_order_le_trans r s t :
  ts_wf r → ts_wf s → ts_wf t →
  timestamp_order r s ≤ 0 → timestamp_order s t ≤ 0 → timestamp_order r t ≤ 0.
Proof.
  intros Hr Hs Ht.
  destruct (order_k r s Hr Hs) as (k1 & _ & _ & H1).
  destruct (order_k s t Hs Ht) as (k2 & _ & _ & H2).
  destruct (order_k r t Hr Ht) as (k3 & _ & _ & H3).
  set (k := ((k1 `max` k2) `max` k3)%nat).
  rewrite (H1 k), (H2 k), (H3 k) by (subst k; lia). lia.
Qed.

Lemma timestamp_order_lt_le_trans r s t :
  ts_wf r → ts_wf s → ts_wf t →
  timestamp_order r s < 0 → timestamp_order s t ≤ 0 → timestamp_order r t < 0.
Proof.
  intros Hr Hs Ht.
  destruct (order_k r s Hr Hs) as (k1 & _ & _ & H1).
  destruct (order_k s t Hs Ht) as (k2 & _ & _ & H2).
  destruct (order_k r t Hr Ht) as (k3 & _ & _ & H3).
  set (k := ((k1 `max` k2) `max` k3)%nat).
  rewrite (H1 k), (H2 k), (H3 k) by (subst k; lia). lia.
Qed.

Lemma timestamp_order_range l r :
  timestamp_order l r = -1 ∨ timestamp_order l r = 0 ∨ timestamp_order l r = 1.
Proof.
  unfold timestamp_order. destruct (negb _); [destruct (_ <? _); auto|].
  generalize (zip_longest 48 l.2 r.2). intros ps.
  induction ps as [|[a b] ps IH]; cbn; [auto|].
  destruct (negb _); [destruct (_ <? _); auto|done].
Qed.
End order.

(** [_add_seconds] computes the instant exactly [seconds] later: whenever it
    returns, the returned text parses, to the seconds of the argument plus
    [seconds] and to the same fraction digits; it returns exactly when the new
    instant lies in the years 1 to 9999 of [datetime]. *)
Theorem add_seconds_correct v s e f :
  rfc3339_value v = Some (e, f) →
  (∀ r, add_seconds v s = Ok r → rfc3339_value r = Some (e + s, f)) ∧
  (MIN_TIMESTAMP ≤ e + s ≤ MAX_TIMESTAMP ↔ is_Ok (add_seconds v s) = true).
Proof.
  intros Hv. split; [intros r; by apply add_seconds_value|].
  unfold add_seconds, fromtimestamp. rewrite Hv.
  destruct (_ && _) eqn:E; inv_ok; refl_bool.
  - by destruct (ord2ymd _) as [[? ?] ?].
  - split; [|done]. intros [??]. apply andb_false_iff in E as [?|?]; refl_bool; lia.
Qed.

Lemma add_seconds_correct_witness :
  add_seconds (u "2024-02-28T23:59:59.50-01:00") 82801 = Ok (u "2024-03-01T00:00:00.50Z") ∧
  rfc3339_value (u "2024-03-01T00:00:00.50Z") = Some (1709168399 + 82801, u "50").
Proof.
  assert (add_seconds (u "2024-02-28T23:59:59.50-01:00") 82801
          = Ok (u "2024-03-01T00:00:00.50Z")) as E by (vm_compute; reflexivity).
  split; [exact E|].
  apply (proj1 (add_seconds_correct (u "2024-02-28T23:59:59.50-01:00") 82801 1709168399 (u "50")
    ltac:(vm_compute; reflexivity)) _ E).
Defined.

(** [_timestamp_order] compares instants exactly: for timestamps the parser
    returned, it is the sign of the difference of the two instants, each an
    integer number of units of [10^-k] seconds, for every precision [k] that
    holds both fractions; no rounding takes place. *)
Theorem timestamp_order_exact s1 s2 t1 t2 k :
  rfc3339_value s1 = Some t1 → rfc3339_value s2 = Some t2 →
  (length t1.2 ≤ k)%nat → (length t2.2 ≤ k)%nat →
  timestamp_order t1 t2 = Z.sgn (instant k t1 - instant k t2).
Proof. intros H1 H2. apply timestamp_order_sgn; eapply rfc3339_value_wf; eauto. Qed.

Lemma timestamp_order_exact_witness :
  timestamp_order (1785004200, u "12") (1785004200, u "1200001") = -1 ∧
  Z.sgn (instant 7 (1785004200, u "12") - instant 7 (1785004200, u "1200001")) = -1.
Proof.
  pose proof (timestamp_order_exact (u "2026-07-25T20:00:00.12+01:30")
    (u "2026-07-25T18:30:00.1200001Z") (1785004200, u "12") (1785004200, u "1200001") 7
    ltac:(vm_compute; reflexivity) ltac:(vm_compute; reflexivity)
    ltac:(vm_compute; lia) ltac:(vm_compute; lia)) as H.
  split; [vm_compute; reflexivity|]. rewrite <-H. vm_compute; reflexivity.
Defined.
