(* ===== verification/PyValue.v ===== *)
(** * Python values of protocol documents

    Documents reach the modelled code as JSON-like Python values.  A [dict]
    keeps insertion order and has unique keys, so it is an association list;
    [PAbsent] is the marker [ABSENT] of [_canonicalize]; [float] is binary64
    ([spec_float] of the Standard Library) and [Decimal] a sign, a coefficient
    and an exponent. *)

From stdpp Require Import base list list_numbers numbers strings.
From Stdlib Require Import QArith_base SpecFloat.
From S2P Require Import Prelude PyString Errors.
Open Scope Z_scope.

(** A finite [Decimal] is [(-1)^sign * coef * 10^exp]. *)
Inductive pydec :=
| DFinite (negative : bool) (coef : N) (exp : Z)
| DInfinity (negative : bool)
| DNaN.

Unset Elimination Schemes.
Inductive pyval :=
| PAbsent
| PNone
| PBool (b : bool)
| PInt (z : Z)
| PFloat (f : spec_float)
| PDec (d : pydec)
| PStr (s : pystr)
| PList (l : list pyval)
| PDict (d : list (pystr * pyval)).
Set Elimination Schemes.

(** Induction that reaches the values inside lists and dicts. *)
Lemma pyval_ind' (P : pyval → Prop) :
  P PAbsent → P PNone → (∀ b, P (PBool b)) → (∀ z, P (PInt z)) → (∀ f, P (PFloat f)) → (∀ d, P (PDec d)) →
  (∀ s, P (PStr s)) → (∀ l, Forall P l → P (PList l)) →
  (∀ d, Forall (λ p, P p.2) d → P (PDict d)) → ∀ v, P v.
Proof.
  intros Ha Hn Hb Hz Hf Hc Hs Hl Hd. fix IH 1.
  intros [| |b|z|f|c|s|l|d]; [exact Ha|exact Hn|apply Hb|apply Hz|apply Hf|apply Hc|apply Hs|..].
  - apply Hl. induction l as [|v l IHl]; constructor; [apply IH|exact IHl].
  - apply Hd. induction d as [|[k v] d IHd]; constructor; [apply IH|exact IHd].
Qed.

#[global] Instance spec_float_eq_dec : EqDecision spec_float.
Proof. solve_decision. Defined.
#[global] Instance pydec_eq_dec : EqDecision pydec.
Proof. solve_decision. Defined.
#[global] Instance pyval_eq_dec : EqDecision pyval.
Proof.
  refine (fix go (v w : pyval) : Decision (v = w) :=
    match v, w with
    | PAbsent, PAbsent | PNone, PNone => left eq_refl
    | PBool a, PBool b => cast_if (decide (a = b))
    | PInt a, PInt b => cast_if (decide (a = b))
    | PFloat a, PFloat b => cast_if (decide (a = b))
    | PDec a, PDec b => cast_if (decide (a = b))
    | PStr a, PStr b => cast_if (decide (a = b))
    | PList a, PList b => cast_if (@list_eq_dec _ go a b)
    | PDict a, PDict b => cast_if (@list_eq_dec _ (@prod_eq_dec _ _ _ go) a b)
    | _, _ => right _
    end); congruence.
Defined.

(** ** Dictionaries *)
Fixpoint assoc {A} (k : pystr) (d : list (pystr * A)) : option A :=
  match d with
  | [] => None
  | (k', v) :: d' => if decide (k = k') then Some v else assoc k d'
  end.

Fixpoint assoc_set {A} (k : pystr) (v : A) (d : list (pystr * A)) : list (pystr * A) :=
  match d with
  | [] => [(k, v)]
  | (k', v') :: d' => if decide (k = k') then (k', v) :: d' else (k', v') :: assoc_set k v d'
  end.

(** [v[k]], [v.get(k)], [k in v] and [v[k] = w]. *)
Definition getitem (v : pyval) (k : string) : py pyval :=
  match v with
  | PDict d => match assoc (u k) d with Some w => Ok w | None => Raise KeyError end
  | _ => Raise TypeError
  end.
Definition get (v : pyval) (k : string) : option pyval :=
  match v with PDict d => assoc (u k) d | _ => None end.
Definition has_key (v : pyval) (k : string) : bool :=
  match get v k with Some _ => true | None => false end.
Definition setitem (v : pyval) (k : string) (w : pyval) : pyval :=
  match v with PDict d => PDict (assoc_set (u k) w d) | _ => v end.

Definition is_dict (v : pyval) : bool := match v with PDict _ => true | _ => false end.
Definition is_str (v : pyval) : bool := match v with PStr _ => true | _ => false end.

(** An [int] operand of a comparison or of arithmetic ([bool] is an [int]). *)
Definition as_int (v : pyval) : py Z :=
  match v with
  | PInt z => Ok z
  | PBool b => Ok (if b then 1 else 0)
  | _ => Raise TypeError
  end.
Definition get_int (v : pyval) (k : string) : py Z := x ← getitem v k; as_int x.

(** [isinstance(v, int) and not isinstance(v, bool)]. *)
Definition strict_int (v : pyval) : option Z := match v with PInt z => Some z | _ => None end.

(** ** Numbers and equality

    [==] compares numbers of every type by their exact value; lists compare
    element by element, and dicts as maps. *)
Inductive xnum := XFin (q : Q) | XInf (negative : bool) | XNaN.

Definition Q_scale (base : positive) (m e : Z) : Q :=
  if 0 <=? e then inject_Z (m * Zpos base ^ e) else m # (Pos.pow base (Z.to_pos (- e))).
Definition signed (negative : bool) (z : Z) : Z := if negative then - z else z.

Definition num_of (v : pyval) : option xnum :=
  match v with
  | PInt z => Some (XFin (inject_Z z))
  | PBool b => Some (XFin (inject_Z (if b then 1 else 0)))
  | PFloat (S754_zero _) => Some (XFin (inject_Z 0))
  | PFloat (S754_infinity s) => Some (XInf s)
  | PFloat S754_nan => Some XNaN
  | PFloat (S754_finite s m e) => Some (XFin (Q_scale 2 (signed s (Zpos m)) e))
  | PDec (DFinite s c e) => Some (XFin (Q_scale 10 (signed s (Z.of_N c)) e))
  | PDec (DInfinity s) => Some (XInf s)
  | PDec DNaN => Some XNaN
  | _ => None
  end.

Definition num_eqb (a b : xnum) : bool :=
  match a, b with
  | XFin p, XFin q => Qeq_bool p q
  | XInf s, XInf t => Bool.eqb s t
  | _, _ => false
  end.

Fixpoint py_eqb (a b : pyval) {struct a} : bool :=
  match a, b with
  | PAbsent, PAbsent | PNone, PNone => true
  | PStr s, PStr t => str_eqb s t
  | PList l, PList m =>
      (fix go (l m : list pyval) {struct l} : bool :=
         match l, m with
         | [], [] => true
         | x :: l', y :: m' => py_eqb x y && go l' m'
         | _, _ => false
         end) l m
  | PDict d, PDict e =>
      (length d =? length e)%nat &&
      (fix go (d : list (pystr * pyval)) {struct d} : bool :=
         match d with
         | [] => true
         | (k, x) :: d' => match assoc k e with Some y => py_eqb x y | None => false end && go d'
         end) d
  | _, _ => match num_of a, num_of b with Some x, Some y => num_eqb x y | _, _ => false end
  end.

(** [v == "literal"]. *)
Definition eq_lit (v : pyval) (s : string) : bool := py_eqb v (PStr (u s)).

(** [a.get(k) == b.get(k)], an absent key being [None]. *)
Definition opt_val (o : option pyval) : pyval := default PNone o.

(** ** Lemmas *)
Lemma assoc_set_same {A} k (v : A) d : assoc k (assoc_set k v d) = Some v.
Proof.
  induction d as [|[k' v'] d IH]; cbn; [by rewrite decide_True|].
  case_decide; cbn; [subst; by rewrite decide_True|by rewrite decide_False].
Qed.

Lemma assoc_set_other {A} k k' (v : A) d : k ≠ k' → assoc k (assoc_set k' v d) = assoc k d.
Proof.
  intros Hk. induction d as [|[j w] d IH]; cbn; [by rewrite decide_False|].
  destruct (decide (k' = j)) as [->|]; cbn.
  - by rewrite !decide_False.
  - by rewrite IH.
Qed.

Lemma assoc_elem {A} k (d : list (pystr * A)) x : assoc k d = Some x → (k, x) ∈ d.
Proof.
  induction d as [|[k' y] d IH]; [done|]. cbn. case_decide; [intros [= ->]; subst; by left|].
  intros ?. right. auto.
Qed.

Lemma elem_assoc {A} k (d : list (pystr * A)) x : NoDup d.*1 → (k, x) ∈ d → assoc k d = Some x.
Proof.
  induction d as [|[k' y] d IH]; [by intros _ ?%elem_of_nil|].
  cbn. intros [Hk Hnd]%NoDup_cons [[= -> ->]|Hin]%elem_of_cons; [by rewrite decide_True|].
  rewrite decide_False; [auto|]. intros ->. apply Hk. by apply (list_elem_of_fmap_2 fst d (k', x)).
Qed.

Lemma getitem_Ok v k w : getitem v k = Ok w ↔ get v k = Some w.
Proof. unfold getitem, get. destruct v; try naive_solver. destruct (assoc _ _); naive_solver. Qed.

Lemma get_setitem_same v k w : is_dict v = true → get (setitem v k w) k = Some w.
Proof. destruct v; try done. intros _. apply assoc_set_same. Qed.

Lemma get_setitem_other v k k' w : u k ≠ u k' → get (setitem v k' w) k = get v k.
Proof. destruct v; try done. intros. by apply assoc_set_other. Qed.

Lemma is_dict_setitem v k w : is_dict (setitem v k w) = is_dict v.
Proof. by destruct v. Qed.

Lemma eq_lit_iff v s : eq_lit v s = true ↔ v = PStr (u s).
Proof.
  unfold eq_lit. split.
  - destruct v as [| | | |[]|[]| | |]; cbn; try done. by intros ->%str_eqb_eq.
  - intros ->. cbn. apply str_eqb_refl.
Qed.

Lemma get_int_Ok v k z :
  get_int v k = Ok z ↔ ∃ w, get v k = Some w ∧ as_int w = Ok z.
Proof. unfold get_int. rewrite bind_Ok_iff. by setoid_rewrite getitem_Ok. Qed.

Lemma py_eqb_str a s : py_eqb a (PStr s) = true ↔ a = PStr s.
Proof.
  split; [|intros ->; cbn; apply str_eqb_refl].
  destruct a as [| | | |[]|[]| | |]; cbn; try done. by intros ->%str_eqb_eq.
Qed.

Lemma py_eqb_str_l s b : py_eqb (PStr s) b = true ↔ b = PStr s.
Proof.
  split; [|intros ->; cbn; apply str_eqb_refl].
  destruct b as [| | | |[]|[]| | |]; cbn; try done. by intros ->%str_eqb_eq.
Qed.

Lemma py_eqb_lit a b s : py_eqb a b = true → eq_lit a s = eq_lit b s.
Proof.
  intros Hab. apply eq_true_iff_eq. rewrite !eq_lit_iff. split; intros ->.
  - by apply py_eqb_str_l in Hab.
  - by apply py_eqb_str in Hab.
Qed.

Lemma py_eqb_int a b z z' : py_eqb a b = true → as_int a = Ok z → as_int b = Ok z' → z = z'.
Proof.
  intros Hab Ha Hb. apply inject_Z_injective, Qeq_bool_iff.
  destruct a, b; cbn in Ha, Hb; try done; inv_ok; exact Hab.
Qed.

(** Equal dicts have equal values under every key. *)
Lemma py_eqb_get a b k x :
  py_eqb a b = true → get a k = Some x → ∃ y, get b k = Some y ∧ py_eqb x y = true.
Proof.
  destruct a as [| | | | | | | |d], b as [| | | | | | | |e]; cbn; try done.
  intros (_ & Hall)%andb_true_iff. induction d as [|[k' x'] d IH]; [done|]. cbn.
  apply andb_true_iff in Hall as [Hx Hall]. case_decide; [|auto].
  intros [= ->]. subst. destruct (assoc (u k) e); naive_solver.
Qed.

(** The fields of a dict comprehension over literal keys. *)
Lemma assoc_omap_fields (f : string → option pyval) fields k :
  k ∈ fields → NoDup fields →
  assoc (u k) (omap (λ field, (λ x, (u field, x)) <$> f field) fields) = f k.
Proof.
  assert (∀ l, k ∉ l →
    assoc (u k) (omap (λ field, (λ x, (u field, x)) <$> f field) l) = None) as Hnot.
  { induction l as [|a l IH]; [done|]. cbn. intros Hk. apply not_elem_of_cons in Hk as [? Hk].
    destruct (f a); cbn; [rewrite decide_False by (by intros ?%(inj u))|]; auto. }
  induction fields as [|a fields IH]; [by intros ?%elem_of_nil|]. cbn.
  intros Hk [Ha Hnd]%NoDup_cons. destruct (decide (k = a)) as [->|E].
  - apply Hnot in Ha. destruct (f a); cbn; [by rewrite decide_True|done].
  - apply elem_of_cons in Hk as [->|Hk]; [done|].
    destruct (f a); cbn; [rewrite decide_False by (by intros ?%(inj u))|]; auto.
Qed.
