(* ===== verification/Schemas.v ===== *)
(** * The schemas of protocol version 1

    The JSON schemas of [protocol/schemas/], as the generated module embeds them
    (base64 of their canonical text): [json.loads(document, parse_float=Decimal)]
    of each, with the members of every object in the order of the embedded text. *)

From stdpp Require Import base list list_numbers numbers strings.
From S2P Require Import Prelude PyString Errors PyValue.
Open Scope Z_scope.

Definition common_schema : pyval :=
  PDict [
    (u "$defs", PDict [
      (u "actionId", PDict [
        (u "maxLength", PInt 30);
        (u "minLength", PInt 30);
        (u "pattern", PStr (u "^act_[0-7][0-9A-HJKMNP-TV-Z]{25}$"));
        (u "type", PStr (u "string"))]);
      (u "adapter", PDict [
        (u "additionalProperties", PBool false);
        (u "description", PStr (u "Caller-supplied diagnostic and non-authoritative host/package labels. In particular, adapter.id is never a trusted client identity and cannot grant privilege."));
        (u "properties", PDict [
          (u "extensions", PDict [(u "$ref", PStr (u "#/$defs/extensions"))]);
          (u "hostVersion", PDict [(u "$ref", PStr (u "#/$defs/semver"))]);
          (u "id", PDict [
            (u "allOf", PList [PDict [(u "$ref", PStr (u "#/$defs/safeText"))]]);
            (u "maxLength", PInt 63);
            (u "pattern", PStr (u "^[a-z0-9]([a-z0-9-]{0,61}[a-z0-9])?$"));
            (u "type", PStr (u "string"))]);
          (u "version", PDict [(u "$ref", PStr (u "#/$defs/semver"))])]);
        (u "required", PList [PStr (u "id"); PStr (u "version"); PStr (u "hostVersion")]);
        (u "type", PStr (u "object"))]);
      (u "approvalId", PDict [
        (u "maxLength", PInt 30);
        (u "minLength", PInt 30);
        (u "pattern", PStr (u "^apr_[0-7][0-9A-HJKMNP-TV-Z]{25}$"));
        (u "type", PStr (u "string"))]);
      (u "approvalSummary", PDict [
        (u "additionalProperties", PBool false);
        (u "properties", PDict [
          (u "approvalId", PDict [(u "$ref", PStr (u "#/$defs/approvalId"))]);
          (u "expiresAt", PDict [(u "$ref", PStr (u "#/$defs/timestamp"))]);
          (u "extensions", PDict [(u "$ref", PStr (u "#/$defs/extensions"))]);
          (u "status", PDict [(u "const", PStr (u "pending")); (u "type", PStr (u "string"))])]);
        (u "required", PList [PStr (u "approvalId"); PStr (u "status"); PStr (u "expiresAt")]);
        (u "type", PStr (u "object"))]);
      (u "auditRef", PDict [
        (u "maxLength", PInt 32);
        (u "minLength", PInt 32);
        (u "pattern", PStr (u "^audit_[0-7][0-9A-HJKMNP-TV-Z]{25}$"));
        (u "type", PStr (u "string"))]);
      (u "cacheDirective", PDict [
        (u "additionalProperties", PBool false);
        (u "description", PStr (u "Protocol version 1 reserves cache metadata but never permits an offline authorization allow."));
        (u "properties", PDict [
          (u "cacheable", PDict [(u "const", PBool false); (u "type", PStr (u "boolean"))])]);
        (u "required", PList [PStr (u "cacheable")]);
        (u "type", PStr (u "object"))]);
      (u "causationId", PDict [
        (u "allOf", PList [PDict [(u "$ref", PStr (u "#/$defs/safeText"))]]);
        (u "maxLength", PInt 32);
        (u "minLength", PInt 30);
        (u "pattern", PStr (u "^(act|cause|dec|event)_[0-7][0-9A-HJKMNP-TV-Z]{25}$"));
        (u "type", PStr (u "string"))]);
      (u "context", PDict [
        (u "additionalProperties", PBool false);
        (u "description", PStr (u "Allowlisted, safe, non-authoritative diagnostics. Raw commands, URLs, prompts, file contents, tokens, and secrets are excluded."));
        (u "properties", PDict [
          (u "cwd", PDict [
            (u "$ref", PStr (u "#/$defs/safeText"));
            (u "maxLength", PInt 1024);
            (u "minLength", PInt 1)]);
          (u "extensions", PDict [(u "$ref", PStr (u "#/$defs/extensions"))]);
          (u "repository", PDict [
            (u "$ref", PStr (u "#/$defs/safeText"));
            (u "maxLength", PInt 256);
            (u "minLength", PInt 1)]);
          (u "safeDisplay", PDict [
            (u "$ref", PStr (u "#/$defs/safeText"));
            (u "maxLength", PInt 512);
            (u "minLength", PInt 1)]);
          (u "toolName", PDict [
            (u "$ref", PStr (u "#/$defs/safeText"));
            (u "maxLength", PInt 128);
            (u "minLength", PInt 1)])]);
        (u "type", PStr (u "object"))]);
      (u "correlationId", PDict [
        (u "maxLength", PInt 31);
        (u "minLength", PInt 31);
        (u "pattern", PStr (u "^corr_[0-7][0-9A-HJKMNP-TV-Z]{25}$"));
        (u "type", PStr (u "string"))]);
      (u "decisionId", PDict [
        (u "maxLength", PInt 30);
        (u "minLength", PInt 30);
        (u "pattern", PStr (u "^dec_[0-7][0-9A-HJKMNP-TV-Z]{25}$"));
        (u "type", PStr (u "string"))]);
      (u "extensionPropertyName", PDict [
        (u "allOf", PList [PDict [(u "$ref", PStr (u "#/$defs/safeText"))]]);
        (u "maxLength", PInt 128);
        (u "pattern", PStr (u "^[A-Za-z][A-Za-z0-9._-]{0,127}$"));
        (u "type", PStr (u "string"))]);
      (u "extensionValue", PDict [
        (u "oneOf", PList [
          PDict [
            (u "additionalProperties", PDict [(u "$ref", PStr (u "#/$defs/extensionValue"))]);
            (u "maxProperties", PInt 64);
            (u "propertyNames", PDict [(u "$ref", PStr (u "#/$defs/extensionPropertyName"))]);
            (u "type", PStr (u "object"))];
          PDict [
            (u "items", PDict [(u "$ref", PStr (u "#/$defs/extensionValue"))]);
            (u "maxItems", PInt 64);
            (u "type", PStr (u "array"))];
          PDict [(u "$ref", PStr (u "#/$defs/safeText")); (u "maxLength", PInt 2048)];
          PDict [
            (u "maximum", PDec (DFinite false 1 308));
            (u "minimum", PDec (DFinite true 1 308));
            (u "type", PStr (u "number"))];
          PDict [(u "type", PStr (u "boolean"))]])]);
      (u "extensions", PDict [
        (u "additionalProperties", PDict [(u "$ref", PStr (u "#/$defs/extensionValue"))]);
        (u "description", PStr (u "Explicitly versioned, non-authoritative extension values. Implementations must not derive identity, privilege, policy, or cache authority from these values."));
        (u "maxProperties", PInt 32);
        (u "propertyNames", PDict [
          (u "allOf", PList [PDict [(u "$ref", PStr (u "#/$defs/safeText"))]]);
          (u "maxLength", PInt 128);
          (u "pattern", PStr (u "^[a-z][a-z0-9]*([.-][a-z0-9]+)*\.v[1-9][0-9]*$"))]);
        (u "type", PStr (u "object"))]);
      (u "idempotencyKey", PDict [
        (u "description", PStr (u "Opaque idempotency identifier."));
        (u "maxLength", PInt 32);
        (u "minLength", PInt 32);
        (u "pattern", PStr (u "^authz_[0-7][0-9A-HJKMNP-TV-Z]{25}$"));
        (u "type", PStr (u "string"))]);
      (u "requestId", PDict [
        (u "maxLength", PInt 30);
        (u "minLength", PInt 30);
        (u "pattern", PStr (u "^req_[0-7][0-9A-HJKMNP-TV-Z]{25}$"));
        (u "type", PStr (u "string"))]);
      (u "safeText", PDict [
        (u "not", PDict [
          (u "pattern", PStr (u "[\x00-\x1F\x7F-\x9F" ++ [1564; 8206; 8207; 8232] ++ u "-" ++ [8238; 8294] ++ u "-" ++ [8297] ++ u "]"))]);
        (u "type", PStr (u "string"))]);
      (u "schemaVersion", PDict [
        (u "const", PStr (u "1"));
        (u "description", PStr (u "The supported protocol major version."));
        (u "type", PStr (u "string"))]);
      (u "semver", PDict [
        (u "allOf", PList [PDict [(u "$ref", PStr (u "#/$defs/safeText"))]]);
        (u "maxLength", PInt 128);
        (u "pattern", PStr (u "^(0|[1-9][0-9]*)\.(0|[1-9][0-9]*)\.(0|[1-9][0-9]*)(-(0|[1-9][0-9]*|[0-9]*[A-Za-z-][0-9A-Za-z-]*)(\.(0|[1-9][0-9]*|[0-9]*[A-Za-z-][0-9A-Za-z-]*))*)?(\+[0-9A-Za-z-]+(\.[0-9A-Za-z-]+)*)?$"));
        (u "type", PStr (u "string"))]);
      (u "sessionId", PDict [
        (u "maxLength", PInt 34);
        (u "minLength", PInt 34);
        (u "pattern", PStr (u "^session_[0-7][0-9A-HJKMNP-TV-Z]{25}$"));
        (u "type", PStr (u "string"))]);
      (u "sha256", PDict [
        (u "description", PStr (u "A lowercase hexadecimal SHA-256 digest with its algorithm prefix."));
        (u "maxLength", PInt 71);
        (u "minLength", PInt 71);
        (u "pattern", PStr (u "^sha256:[0-9a-f]{64}$"));
        (u "type", PStr (u "string"))]);
      (u "target", PDict [
        (u "additionalProperties", PBool false);
        (u "properties", PDict [
          (u "extensions", PDict [(u "$ref", PStr (u "#/$defs/extensions"))]);
          (u "kind", PDict [
            (u "enum", PList [PStr (u "local-action"); PStr (u "mcp-tool"); PStr (u "tool")]);
            (u "type", PStr (u "string"))]);
          (u "resource", PDict [
            (u "$ref", PStr (u "#/$defs/safeText"));
            (u "allOf", PList [PDict [(u "not", PDict [(u "pattern", PStr (u "(^|/)\.{1,2}(/|$)"))])]]);
            (u "maxLength", PInt 2048);
            (u "minLength", PInt 1)]);
          (u "resourceHash", PDict [(u "$ref", PStr (u "#/$defs/sha256"))]);
          (u "service", PDict [
            (u "allOf", PList [PDict [(u "$ref", PStr (u "#/$defs/safeText"))]]);
            (u "maxLength", PInt 253);
            (u "pattern", PStr (u "^[a-z0-9]([a-z0-9-]{0,61}[a-z0-9])?(\.[a-z0-9]([a-z0-9-]{0,61}[a-z0-9])?)*$"));
            (u "type", PStr (u "string"))])]);
        (u "required", PList [
          PStr (u "kind");
          PStr (u "service");
          PStr (u "resource");
          PStr (u "resourceHash")]);
        (u "type", PStr (u "object"))]);
      (u "task", PDict [
        (u "additionalProperties", PBool false);
        (u "description", PStr (u "Caller-visible task and host session binding. Effective authenticated identity is supplied by the trusted transport, not this object."));
        (u "properties", PDict [
          (u "extensions", PDict [(u "$ref", PStr (u "#/$defs/extensions"))]);
          (u "sessionId", PDict [(u "$ref", PStr (u "#/$defs/sessionId"))]);
          (u "taskId", PDict [(u "$ref", PStr (u "#/$defs/taskId"))])]);
        (u "required", PList [PStr (u "taskId"); PStr (u "sessionId")]);
        (u "type", PStr (u "object"))]);
      (u "taskId", PDict [
        (u "maxLength", PInt 31);
        (u "minLength", PInt 31);
        (u "pattern", PStr (u "^task_[0-7][0-9A-HJKMNP-TV-Z]{25}$"));
        (u "type", PStr (u "string"))]);
      (u "timestamp", PDict [
        (u "allOf", PList [PDict [(u "$ref", PStr (u "#/$defs/safeText"))]]);
        (u "description", PStr (u "An RFC 3339 timestamp."));
        (u "format", PStr (u "date-time"));
        (u "pattern", PStr (u "^[0-9]{4}-[0-9]{2}-[0-9]{2}T[0-9]{2}:[0-9]{2}:[0-9]{2}(\.[0-9]+)?(Z|[+-][0-9]{2}:[0-9]{2})$"));
        (u "type", PStr (u "string"))])]);
    (u "$id", PStr (u "https://schemas.palonexus.dev/protocol/v1/common-v1.schema.json"));
    (u "$schema", PStr (u "https://json-schema.org/draft/2020-12/schema"));
    (u "additionalProperties", PBool false);
    (u "description", PStr (u "Shared, security-sensitive definitions for protocol version 1. These definitions are draft artifacts until the host feasibility gate passes."));
    (u "title", PStr (u "PaloNexus protocol version 1 common definitions"));
    (u "type", PStr (u "object"))].

Definition action_schema : pyval :=
  PDict [
    (u "$id", PStr (u "https://schemas.palonexus.dev/protocol/v1/action-v1.schema.json"));
    (u "$schema", PStr (u "https://json-schema.org/draft/2020-12/schema"));
    (u "additionalProperties", PBool false);
    (u "allOf", PList [
      PDict [
        (u "if", PDict [
          (u "properties", PDict [
            (u "action", PDict [
              (u "enum", PList [
                PStr (u "shell:exec");
                PStr (u "file:read");
                PStr (u "file:write");
                PStr (u "file:delete");
                PStr (u "web:fetch")])])]);
          (u "required", PList [PStr (u "action")])]);
        (u "then", PDict [
          (u "properties", PDict [
            (u "target", PDict [
              (u "properties", PDict [(u "kind", PDict [(u "const", PStr (u "local-action"))])])])])])];
      PDict [
        (u "if", PDict [
          (u "properties", PDict [
            (u "action", PDict [
              (u "enum", PList [PStr (u "file:read"); PStr (u "file:write"); PStr (u "file:delete")])])]);
          (u "required", PList [PStr (u "action")])]);
        (u "then", PDict [
          (u "properties", PDict [
            (u "target", PDict [
              (u "properties", PDict [
                (u "resource", PDict [
                  (u "allOf", PList [
                    PDict [(u "pattern", PStr (u "^path:/"))];
                    PDict [(u "not", PDict [(u "pattern", PStr (u "[\\]"))])];
                    PDict [(u "not", PDict [(u "pattern", PStr (u "(^|/)\.{1,2}(/|$)"))])];
                    PDict [(u "not", PDict [(u "pattern", PStr (u "//"))])]])])])])])])];
      PDict [
        (u "if", PDict [
          (u "properties", PDict [(u "action", PDict [(u "const", PStr (u "mcp:call"))])]);
          (u "required", PList [PStr (u "action")])]);
        (u "then", PDict [
          (u "properties", PDict [
            (u "target", PDict [
              (u "properties", PDict [(u "kind", PDict [(u "const", PStr (u "mcp-tool"))])])])])])];
      PDict [
        (u "if", PDict [
          (u "properties", PDict [(u "action", PDict [(u "const", PStr (u "tool:invoke"))])]);
          (u "required", PList [PStr (u "action")])]);
        (u "then", PDict [
          (u "properties", PDict [
            (u "target", PDict [(u "properties", PDict [(u "kind", PDict [(u "const", PStr (u "tool"))])])])])])]]);
    (u "description", PStr (u "An immutable proposed effect. This is a draft artifact until the host feasibility gate passes."));
    (u "properties", PDict [
      (u "action", PDict [
        (u "enum", PList [
          PStr (u "shell:exec");
          PStr (u "file:read");
          PStr (u "file:write");
          PStr (u "file:delete");
          PStr (u "web:fetch");
          PStr (u "mcp:call");
          PStr (u "tool:invoke")]);
        (u "type", PStr (u "string"))]);
      (u "actionId", PDict [
        (u "$ref", PStr (u "https://schemas.palonexus.dev/protocol/v1/common-v1.schema.json#/$defs/actionId"));
        (u "description", PStr (u "Identifier for the proposed action."))]);
      (u "adapter", PDict [
        (u "$ref", PStr (u "https://schemas.palonexus.dev/protocol/v1/common-v1.schema.json#/$defs/adapter"));
        (u "description", PStr (u "Caller-supplied diagnostic and non-authoritative host/package labels. adapter.id never identifies the authenticated guard client."))]);
      (u "causationId", PDict [
        (u "$ref", PStr (u "https://schemas.palonexus.dev/protocol/v1/common-v1.schema.json#/$defs/causationId"))]);
      (u "context", PDict [
        (u "$ref", PStr (u "https://schemas.palonexus.dev/protocol/v1/common-v1.schema.json#/$defs/context"))]);
      (u "correlationId", PDict [
        (u "$ref", PStr (u "https://schemas.palonexus.dev/protocol/v1/common-v1.schema.json#/$defs/correlationId"))]);
      (u "extensions", PDict [
        (u "$ref", PStr (u "https://schemas.palonexus.dev/protocol/v1/common-v1.schema.json#/$defs/extensions"))]);
      (u "idempotencyKey", PDict [
        (u "$ref", PStr (u "https://schemas.palonexus.dev/protocol/v1/common-v1.schema.json#/$defs/idempotencyKey"))]);
      (u "occurredAt", PDict [
        (u "$ref", PStr (u "https://schemas.palonexus.dev/protocol/v1/common-v1.schema.json#/$defs/timestamp"))]);
      (u "requestId", PDict [
        (u "$ref", PStr (u "https://schemas.palonexus.dev/protocol/v1/common-v1.schema.json#/$defs/requestId"));
        (u "description", PStr (u "Identifier for this authorization request."))]);
      (u "resumeFromApprovalId", PDict [
        (u "$ref", PStr (u "https://schemas.palonexus.dev/protocol/v1/common-v1.schema.json#/$defs/approvalId"));
        (u "description", PStr (u "The approved record resumed by this fresh authorization attempt."))]);
      (u "schemaVersion", PDict [
        (u "$ref", PStr (u "https://schemas.palonexus.dev/protocol/v1/common-v1.schema.json#/$defs/schemaVersion"))]);
      (u "sideEffect", PDict [
        (u "enum", PList [
          PStr (u "read_only");
          PStr (u "write");
          PStr (u "destructive");
          PStr (u "external")]);
        (u "type", PStr (u "string"))]);
      (u "target", PDict [
        (u "$ref", PStr (u "https://schemas.palonexus.dev/protocol/v1/common-v1.schema.json#/$defs/target"))]);
      (u "task", PDict [
        (u "$ref", PStr (u "https://schemas.palonexus.dev/protocol/v1/common-v1.schema.json#/$defs/task"))])]);
    (u "required", PList [
      PStr (u "schemaVersion");
      PStr (u "actionId");
      PStr (u "requestId");
      PStr (u "correlationId");
      PStr (u "idempotencyKey");
      PStr (u "adapter");
      PStr (u "task");
      PStr (u "action");
      PStr (u "target");
      PStr (u "sideEffect");
      PStr (u "occurredAt");
      PStr (u "context")]);
    (u "title", PStr (u "PaloNexus action request version 1"));
    (u "type", PStr (u "object"))].

Definition decision_schema : pyval :=
  PDict [
    (u "$id", PStr (u "https://schemas.palonexus.dev/protocol/v1/decision-v1.schema.json"));
    (u "$schema", PStr (u "https://json-schema.org/draft/2020-12/schema"));
    (u "additionalProperties", PBool false);
    (u "allOf", PList [
      PDict [
        (u "else", PDict [(u "not", PDict [(u "required", PList [PStr (u "approval")])])]);
        (u "if", PDict [
          (u "properties", PDict [(u "outcome", PDict [(u "const", PStr (u "approval_required"))])]);
          (u "required", PList [PStr (u "outcome")])]);
        (u "then", PDict [(u "required", PList [PStr (u "approval")])])]]);
    (u "description", PStr (u "A fail-closed point-in-time authorization decision. This is a draft artifact until the host feasibility gate passes."));
    (u "properties", PDict [
      (u "approval", PDict [
        (u "$ref", PStr (u "https://schemas.palonexus.dev/protocol/v1/common-v1.schema.json#/$defs/approvalSummary"))]);
      (u "auditRef", PDict [
        (u "$ref", PStr (u "https://schemas.palonexus.dev/protocol/v1/common-v1.schema.json#/$defs/auditRef"))]);
      (u "authoritativeScopeHash", PDict [
        (u "$ref", PStr (u "https://schemas.palonexus.dev/protocol/v1/common-v1.schema.json#/$defs/sha256"));
        (u "description", PStr (u "Authoritative scope digest."))]);
      (u "cache", PDict [
        (u "$ref", PStr (u "https://schemas.palonexus.dev/protocol/v1/common-v1.schema.json#/$defs/cacheDirective"))]);
      (u "clientScopeHash", PDict [
        (u "$ref", PStr (u "https://schemas.palonexus.dev/protocol/v1/common-v1.schema.json#/$defs/sha256"));
        (u "description", PStr (u "Caller-visible scope digest."))]);
      (u "correlationId", PDict [
        (u "$ref", PStr (u "https://schemas.palonexus.dev/protocol/v1/common-v1.schema.json#/$defs/correlationId"))]);
      (u "decisionId", PDict [
        (u "$ref", PStr (u "https://schemas.palonexus.dev/protocol/v1/common-v1.schema.json#/$defs/decisionId"))]);
      (u "displayReason", PDict [
        (u "$ref", PStr (u "https://schemas.palonexus.dev/protocol/v1/common-v1.schema.json#/$defs/safeText"));
        (u "maxLength", PInt 512);
        (u "minLength", PInt 1)]);
      (u "expiresAt", PDict [
        (u "$ref", PStr (u "https://schemas.palonexus.dev/protocol/v1/common-v1.schema.json#/$defs/timestamp"));
        (u "description", PStr (u "Must be later than serverTime; consumers enforce this cross-field invariant."))]);
      (u "extensions", PDict [
        (u "$ref", PStr (u "https://schemas.palonexus.dev/protocol/v1/common-v1.schema.json#/$defs/extensions"))]);
      (u "outcome", PDict [
        (u "enum", PList [PStr (u "allow"); PStr (u "deny"); PStr (u "approval_required")]);
        (u "type", PStr (u "string"))]);
      (u "policyRevision", PDict [
        (u "allOf", PList [
          PDict [
            (u "$ref", PStr (u "https://schemas.palonexus.dev/protocol/v1/common-v1.schema.json#/$defs/safeText"))]]);
        (u "maxLength", PInt 135);
        (u "pattern", PStr (u "^policy_[0-9A-Za-z][0-9A-Za-z._~-]{0,127}$"));
        (u "type", PStr (u "string"))]);
      (u "reasonCode", PDict [
        (u "allOf", PList [
          PDict [
            (u "$ref", PStr (u "https://schemas.palonexus.dev/protocol/v1/common-v1.schema.json#/$defs/safeText"))]]);
        (u "maxLength", PInt 128);
        (u "pattern", PStr (u "^[a-z][a-z0-9]*(_[a-z0-9]+)*$"));
        (u "type", PStr (u "string"))]);
      (u "requestId", PDict [
        (u "$ref", PStr (u "https://schemas.palonexus.dev/protocol/v1/common-v1.schema.json#/$defs/requestId"))]);
      (u "schemaVersion", PDict [
        (u "$ref", PStr (u "https://schemas.palonexus.dev/protocol/v1/common-v1.schema.json#/$defs/schemaVersion"))]);
      (u "serverTime", PDict [
        (u "$ref", PStr (u "https://schemas.palonexus.dev/protocol/v1/common-v1.schema.json#/$defs/timestamp"))])]);
    (u "required", PList [
      PStr (u "schemaVersion");
      PStr (u "requestId");
      PStr (u "decisionId");
      PStr (u "correlationId");
      PStr (u "outcome");
      PStr (u "reasonCode");
      PStr (u "displayReason");
      PStr (u "clientScopeHash");
      PStr (u "authoritativeScopeHash");
      PStr (u "policyRevision");
      PStr (u "serverTime");
      PStr (u "expiresAt");
      PStr (u "auditRef");
      PStr (u "cache")]);
    (u "title", PStr (u "PaloNexus authorization decision version 1"));
    (u "type", PStr (u "object"))].

Definition approval_schema : pyval :=
  PDict [
    (u "$defs", PDict [
      (u "principalRef", PDict [
        (u "allOf", PList [
          PDict [
            (u "$ref", PStr (u "https://schemas.palonexus.dev/protocol/v1/common-v1.schema.json#/$defs/safeText"))]]);
        (u "maxLength", PInt 136);
        (u "minLength", PInt 9);
        (u "pattern", PStr (u "^(subject|service):[A-Za-z0-9][A-Za-z0-9._~-]{0,127}$"));
        (u "type", PStr (u "string"))]);
      (u "resolutionIdempotencyKey", PDict [
        (u "maxLength", PInt 35);
        (u "minLength", PInt 35);
        (u "pattern", PStr (u "^approval_[0-7][0-9A-HJKMNP-TV-Z]{25}$"));
        (u "type", PStr (u "string"))])]);
    (u "$id", PStr (u "https://schemas.palonexus.dev/protocol/v1/approval-v1.schema.json"));
    (u "$schema", PStr (u "https://json-schema.org/draft/2020-12/schema"));
    (u "additionalProperties", PBool false);
    (u "allOf", PList [
      PDict [
        (u "else", PDict [
          (u "required", PList [
            PStr (u "decidedAt");
            PStr (u "resolutionAuditRef");
            PStr (u "resolutionDecisionId");
            PStr (u "resolutionReasonCode");
            PStr (u "resolutionIdempotencyKey")])]);
        (u "if", PDict [
          (u "properties", PDict [(u "status", PDict [(u "const", PStr (u "pending"))])]);
          (u "required", PList [PStr (u "status")])]);
        (u "then", PDict [
          (u "not", PDict [
            (u "anyOf", PList [
              PDict [(u "required", PList [PStr (u "reviewerRef")])];
              PDict [(u "required", PList [PStr (u "decidedAt")])];
              PDict [(u "required", PList [PStr (u "resolutionAuditRef")])];
              PDict [(u "required", PList [PStr (u "resolutionDecisionId")])];
              PDict [(u "required", PList [PStr (u "resolutionReasonCode")])];
              PDict [(u "required", PList [PStr (u "resolutionIdempotencyKey")])]])])])];
      PDict [
        (u "else", PDict [(u "not", PDict [(u "required", PList [PStr (u "reviewerRef")])])]);
        (u "if", PDict [
          (u "properties", PDict [
            (u "status", PDict [(u "enum", PList [PStr (u "approved"); PStr (u "denied")])])]);
          (u "required", PList [PStr (u "status")])]);
        (u "then", PDict [(u "required", PList [PStr (u "reviewerRef")])])]]);
    (u "description", PStr (u "An approval lifecycle record bound to one immutable authorization scope. This is a draft artifact until the host feasibility gate passes."));
    (u "properties", PDict [
      (u "actionId", PDict [
        (u "$ref", PStr (u "https://schemas.palonexus.dev/protocol/v1/common-v1.schema.json#/$defs/actionId"))]);
      (u "approvalId", PDict [
        (u "$ref", PStr (u "https://schemas.palonexus.dev/protocol/v1/common-v1.schema.json#/$defs/approvalId"));
        (u "description", PStr (u "Approval identifier distinct from every authorization requestId."))]);
      (u "authoritativeScopeHash", PDict [
        (u "$ref", PStr (u "https://schemas.palonexus.dev/protocol/v1/common-v1.schema.json#/$defs/sha256"))]);
      (u "authorizationDecisionId", PDict [
        (u "$ref", PStr (u "https://schemas.palonexus.dev/protocol/v1/common-v1.schema.json#/$defs/decisionId"));
        (u "description", PStr (u "The approval_required decision that created this approval."))]);
      (u "correlationId", PDict [
        (u "$ref", PStr (u "https://schemas.palonexus.dev/protocol/v1/common-v1.schema.json#/$defs/correlationId"))]);
      (u "creationAuditRef", PDict [
        (u "$ref", PStr (u "https://schemas.palonexus.dev/protocol/v1/common-v1.schema.json#/$defs/auditRef"))]);
      (u "decidedAt", PDict [
        (u "$ref", PStr (u "https://schemas.palonexus.dev/protocol/v1/common-v1.schema.json#/$defs/timestamp"))]);
      (u "expiresAt", PDict [
        (u "$ref", PStr (u "https://schemas.palonexus.dev/protocol/v1/common-v1.schema.json#/$defs/timestamp"))]);
      (u "extensions", PDict [
        (u "$ref", PStr (u "https://schemas.palonexus.dev/protocol/v1/common-v1.schema.json#/$defs/extensions"))]);
      (u "requestedAt", PDict [
        (u "$ref", PStr (u "https://schemas.palonexus.dev/protocol/v1/common-v1.schema.json#/$defs/timestamp"))]);
      (u "requesterRef", PDict [
        (u "$ref", PStr (u "#/$defs/principalRef"));
        (u "description", PStr (u "Opaque, display-safe requester reference; never an email address or credential."))]);
      (u "resolutionAuditRef", PDict [
        (u "$ref", PStr (u "https://schemas.palonexus.dev/protocol/v1/common-v1.schema.json#/$defs/auditRef"))]);
      (u "resolutionDecisionId", PDict [
        (u "$ref", PStr (u "https://schemas.palonexus.dev/protocol/v1/common-v1.schema.json#/$defs/decisionId"));
        (u "description", PStr (u "Stable identifier for the terminal approval decision."))]);
      (u "resolutionIdempotencyKey", PDict [
        (u "$ref", PStr (u "#/$defs/resolutionIdempotencyKey"));
        (u "description", PStr (u "Idempotency identity of the terminal approval operation."))]);
      (u "resolutionReasonCode", PDict [
        (u "allOf", PList [
          PDict [
            (u "$ref", PStr (u "https://schemas.palonexus.dev/protocol/v1/common-v1.schema.json#/$defs/safeText"))]]);
        (u "maxLength", PInt 128);
        (u "pattern", PStr (u "^[a-z][a-z0-9]*(_[a-z0-9]+)*$"));
        (u "type", PStr (u "string"))]);
      (u "reviewerRef", PDict [
        (u "$ref", PStr (u "#/$defs/principalRef"));
        (u "description", PStr (u "Opaque, display-safe reviewer reference; never an email address or credential."))]);
      (u "schemaVersion", PDict [
        (u "$ref", PStr (u "https://schemas.palonexus.dev/protocol/v1/common-v1.schema.json#/$defs/schemaVersion"))]);
      (u "status", PDict [
        (u "enum", PList [
          PStr (u "pending");
          PStr (u "approved");
          PStr (u "denied");
          PStr (u "expired");
          PStr (u "cancelled")]);
        (u "type", PStr (u "string"))])]);
    (u "required", PList [
      PStr (u "schemaVersion");
      PStr (u "approvalId");
      PStr (u "actionId");
      PStr (u "correlationId");
      PStr (u "authoritativeScopeHash");
      PStr (u "status");
      PStr (u "requestedAt");
      PStr (u "expiresAt");
      PStr (u "requesterRef");
      PStr (u "authorizationDecisionId");
      PStr (u "creationAuditRef")]);
    (u "title", PStr (u "PaloNexus approval record version 1"));
    (u "type", PStr (u "object"))].

Definition error_schema : pyval :=
  PDict [
    (u "$id", PStr (u "https://schemas.palonexus.dev/protocol/v1/error-v1.schema.json"));
    (u "$schema", PStr (u "https://json-schema.org/draft/2020-12/schema"));
    (u "additionalProperties", PBool false);
    (u "allOf", PList [
      PDict [
        (u "else", PDict [(u "properties", PDict [(u "retryable", PDict [(u "const", PBool false)])])]);
        (u "if", PDict [
          (u "properties", PDict [(u "code", PDict [(u "const", PStr (u "authorization_unavailable"))])]);
          (u "required", PList [PStr (u "code")])]);
        (u "then", PDict [(u "properties", PDict [(u "retryable", PDict [(u "const", PBool true)])])])]]);
    (u "description", PStr (u "A stable, safe protocol failure without raw credentials, prompts, commands, or upstream responses. This is a draft artifact until the host feasibility gate passes."));
    (u "oneOf", PList [
      PDict [
        (u "properties", PDict [
          (u "code", PDict [(u "const", PStr (u "invalid_request"))]);
          (u "safeMessage", PDict [(u "const", PStr (u "The request is invalid."))])])];
      PDict [
        (u "properties", PDict [
          (u "code", PDict [(u "const", PStr (u "missing_identity"))]);
          (u "safeMessage", PDict [(u "const", PStr (u "Identity is required."))])])];
      PDict [
        (u "properties", PDict [
          (u "code", PDict [(u "const", PStr (u "unsupported_protocol"))]);
          (u "safeMessage", PDict [(u "const", PStr (u "The protocol version is unsupported."))])])];
      PDict [
        (u "properties", PDict [
          (u "code", PDict [(u "const", PStr (u "authentication_failed"))]);
          (u "safeMessage", PDict [(u "const", PStr (u "Authentication failed."))])])];
      PDict [
        (u "properties", PDict [
          (u "code", PDict [(u "const", PStr (u "authorization_unavailable"))]);
          (u "safeMessage", PDict [(u "const", PStr (u "Authorization is temporarily unavailable."))])])];
      PDict [
        (u "properties", PDict [
          (u "code", PDict [(u "const", PStr (u "invalid_decision"))]);
          (u "safeMessage", PDict [(u "const", PStr (u "The authorization decision is invalid."))])])];
      PDict [
        (u "properties", PDict [
          (u "code", PDict [(u "const", PStr (u "idempotency_conflict"))]);
          (u "safeMessage", PDict [
            (u "const", PStr (u "The idempotency key conflicts with an earlier request."))])])];
      PDict [
        (u "properties", PDict [
          (u "code", PDict [(u "const", PStr (u "approval_expired"))]);
          (u "safeMessage", PDict [(u "const", PStr (u "The approval has expired."))])])];
      PDict [
        (u "properties", PDict [
          (u "code", PDict [(u "const", PStr (u "approval_scope_mismatch"))]);
          (u "safeMessage", PDict [(u "const", PStr (u "The action no longer matches the approved scope."))])])];
      PDict [
        (u "properties", PDict [
          (u "code", PDict [(u "const", PStr (u "credential_revoked"))]);
          (u "safeMessage", PDict [(u "const", PStr (u "The credential has been revoked."))])])];
      PDict [
        (u "properties", PDict [
          (u "code", PDict [(u "const", PStr (u "policy_denied"))]);
          (u "safeMessage", PDict [(u "const", PStr (u "Current policy denies this action."))])])]]);
    (u "properties", PDict [
      (u "actionId", PDict [
        (u "$ref", PStr (u "https://schemas.palonexus.dev/protocol/v1/common-v1.schema.json#/$defs/actionId"))]);
      (u "approvalId", PDict [
        (u "$ref", PStr (u "https://schemas.palonexus.dev/protocol/v1/common-v1.schema.json#/$defs/approvalId"))]);
      (u "auditRef", PDict [
        (u "$ref", PStr (u "https://schemas.palonexus.dev/protocol/v1/common-v1.schema.json#/$defs/auditRef"))]);
      (u "code", PDict [
        (u "enum", PList [
          PStr (u "invalid_request");
          PStr (u "missing_identity");
          PStr (u "unsupported_protocol");
          PStr (u "authentication_failed");
          PStr (u "authorization_unavailable");
          PStr (u "invalid_decision");
          PStr (u "idempotency_conflict");
          PStr (u "approval_expired");
          PStr (u "approval_scope_mismatch");
          PStr (u "credential_revoked");
          PStr (u "policy_denied")]);
        (u "type", PStr (u "string"))]);
      (u "correlationId", PDict [
        (u "$ref", PStr (u "https://schemas.palonexus.dev/protocol/v1/common-v1.schema.json#/$defs/correlationId"))]);
      (u "decisionId", PDict [
        (u "$ref", PStr (u "https://schemas.palonexus.dev/protocol/v1/common-v1.schema.json#/$defs/decisionId"))]);
      (u "extensions", PDict [
        (u "additionalProperties", PBool false);
        (u "description", PStr (u "No error extension keys are registered in protocol version 1. A future key requires schema and protocol-version review."));
        (u "maxProperties", PInt 0);
        (u "type", PStr (u "object"))]);
      (u "requestId", PDict [
        (u "$ref", PStr (u "https://schemas.palonexus.dev/protocol/v1/common-v1.schema.json#/$defs/requestId"))]);
      (u "retryable", PDict [
        (u "description", PStr (u "Whether the same semantic operation may be retried after a transient condition."));
        (u "type", PStr (u "boolean"))]);
      (u "safeMessage", PDict [
        (u "$ref", PStr (u "https://schemas.palonexus.dev/protocol/v1/common-v1.schema.json#/$defs/safeText"));
        (u "description", PStr (u "Display-safe summary without raw request or credential material."));
        (u "maxLength", PInt 512);
        (u "minLength", PInt 1)]);
      (u "schemaVersion", PDict [
        (u "$ref", PStr (u "https://schemas.palonexus.dev/protocol/v1/common-v1.schema.json#/$defs/schemaVersion"))])]);
    (u "required", PList [
      PStr (u "schemaVersion");
      PStr (u "code");
      PStr (u "safeMessage");
      PStr (u "retryable")]);
    (u "title", PStr (u "PaloNexus protocol error version 1"));
    (u "type", PStr (u "object"))].

Definition reconciliation_schema : pyval :=
  PDict [
    (u "$id", PStr (u "https://schemas.palonexus.dev/protocol/v1/reconciliation-v1.schema.json"));
    (u "$schema", PStr (u "https://json-schema.org/draft/2020-12/schema"));
    (u "additionalProperties", PBool false);
    (u "allOf", PList [
      PDict [
        (u "else", PDict [(u "not", PDict [(u "required", PList [PStr (u "manualReasonCode")])])]);
        (u "if", PDict [
          (u "properties", PDict [
            (u "deliveryDisposition", PDict [(u "const", PStr (u "manual_intervention"))])]);
          (u "required", PList [PStr (u "deliveryDisposition")])]);
        (u "then", PDict [(u "required", PList [PStr (u "manualReasonCode")])])];
      PDict [
        (u "else", PDict [
          (u "required", PList [
            PStr (u "decisionId");
            PStr (u "clientScopeHash");
            PStr (u "authoritativeScopeHash")])]);
        (u "if", PDict [
          (u "properties", PDict [(u "outcome", PDict [(u "const", PStr (u "error"))])]);
          (u "required", PList [PStr (u "outcome")])]);
        (u "then", PDict [
          (u "not", PDict [(u "required", PList [PStr (u "decisionId")])]);
          (u "properties", PDict [
            (u "reasonCode", PDict [
              (u "enum", PList [
                PStr (u "invalid_request");
                PStr (u "missing_identity");
                PStr (u "unsupported_protocol");
                PStr (u "authentication_failed");
                PStr (u "authorization_unavailable");
                PStr (u "invalid_decision");
                PStr (u "idempotency_conflict");
                PStr (u "approval_expired");
                PStr (u "approval_scope_mismatch");
                PStr (u "credential_revoked");
                PStr (u "policy_denied")])])])])];
      PDict [
        (u "if", PDict [
          (u "properties", PDict [(u "state", PDict [(u "const", PStr (u "pending"))])]);
          (u "required", PList [PStr (u "state")])]);
        (u "then", PDict [
          (u "not", PDict [
            (u "anyOf", PList [
              PDict [(u "required", PList [PStr (u "nextAttemptAt")])];
              PDict [(u "required", PList [PStr (u "acknowledgedAt")])];
              PDict [(u "required", PList [PStr (u "acknowledgement")])];
              PDict [(u "required", PList [PStr (u "discardedAt")])];
              PDict [(u "required", PList [PStr (u "discard")])]])])])];
      PDict [
        (u "if", PDict [
          (u "properties", PDict [(u "state", PDict [(u "const", PStr (u "sending"))])]);
          (u "required", PList [PStr (u "state")])]);
        (u "then", PDict [
          (u "not", PDict [
            (u "anyOf", PList [
              PDict [(u "required", PList [PStr (u "nextAttemptAt")])];
              PDict [(u "required", PList [PStr (u "acknowledgedAt")])];
              PDict [(u "required", PList [PStr (u "acknowledgement")])];
              PDict [(u "required", PList [PStr (u "discardedAt")])];
              PDict [(u "required", PList [PStr (u "discard")])]])]);
          (u "properties", PDict [(u "attemptCount", PDict [(u "minimum", PInt 1)])]);
          (u "required", PList [PStr (u "lastAttemptAt")])])];
      PDict [
        (u "if", PDict [
          (u "properties", PDict [(u "state", PDict [(u "const", PStr (u "retry_wait"))])]);
          (u "required", PList [PStr (u "state")])]);
        (u "then", PDict [
          (u "not", PDict [
            (u "anyOf", PList [
              PDict [(u "required", PList [PStr (u "acknowledgedAt")])];
              PDict [(u "required", PList [PStr (u "acknowledgement")])];
              PDict [(u "required", PList [PStr (u "discardedAt")])];
              PDict [(u "required", PList [PStr (u "discard")])]])]);
          (u "properties", PDict [
            (u "attemptCount", PDict [(u "minimum", PInt 1)]);
            (u "deliveryDisposition", PDict [(u "const", PStr (u "automatic"))])]);
          (u "required", PList [PStr (u "lastAttemptAt"); PStr (u "nextAttemptAt")])])];
      PDict [
        (u "if", PDict [
          (u "properties", PDict [(u "state", PDict [(u "const", PStr (u "acknowledged"))])]);
          (u "required", PList [PStr (u "state")])]);
        (u "then", PDict [
          (u "not", PDict [
            (u "anyOf", PList [
              PDict [(u "required", PList [PStr (u "nextAttemptAt")])];
              PDict [(u "required", PList [PStr (u "discardedAt")])];
              PDict [(u "required", PList [PStr (u "discard")])]])]);
          (u "properties", PDict [(u "attemptCount", PDict [(u "minimum", PInt 1)])]);
          (u "required", PList [
            PStr (u "lastAttemptAt");
            PStr (u "acknowledgedAt");
            PStr (u "acknowledgement")])])];
      PDict [
        (u "if", PDict [
          (u "properties", PDict [(u "state", PDict [(u "const", PStr (u "discarded"))])]);
          (u "required", PList [PStr (u "state")])]);
        (u "then", PDict [
          (u "not", PDict [
            (u "anyOf", PList [
              PDict [(u "required", PList [PStr (u "nextAttemptAt")])];
              PDict [(u "required", PList [PStr (u "acknowledgedAt")])];
              PDict [(u "required", PList [PStr (u "acknowledgement")])]])]);
          (u "required", PList [PStr (u "discardedAt"); PStr (u "discard")])])];
      PDict [
        (u "if", PDict [
          (u "properties", PDict [
            (u "action", PDict [
              (u "enum", PList [
                PStr (u "shell:exec");
                PStr (u "file:read");
                PStr (u "file:write");
                PStr (u "file:delete");
                PStr (u "web:fetch")])])]);
          (u "required", PList [PStr (u "action")])]);
        (u "then", PDict [
          (u "properties", PDict [(u "targetKind", PDict [(u "const", PStr (u "local-action"))])])])];
      PDict [
        (u "if", PDict [
          (u "properties", PDict [(u "action", PDict [(u "const", PStr (u "mcp:call"))])]);
          (u "required", PList [PStr (u "action")])]);
        (u "then", PDict [
          (u "properties", PDict [(u "targetKind", PDict [(u "const", PStr (u "mcp-tool"))])])])];
      PDict [
        (u "if", PDict [
          (u "properties", PDict [(u "action", PDict [(u "const", PStr (u "tool:invoke"))])]);
          (u "required", PList [PStr (u "action")])]);
        (u "then", PDict [
          (u "properties", PDict [(u "targetKind", PDict [(u "const", PStr (u "tool"))])])])]]);
    (u "description", PStr (u "Durable at-least-once delivery state for safe local guard evidence. This contract does not provide distributed exactly-once application effects. This is a draft artifact until the host feasibility gate passes."));
    (u "properties", PDict [
      (u "acknowledgedAt", PDict [
        (u "$ref", PStr (u "https://schemas.palonexus.dev/protocol/v1/common-v1.schema.json#/$defs/timestamp"));
        (u "maxLength", PInt 128)]);
      (u "acknowledgement", PDict [
        (u "additionalProperties", PBool false);
        (u "properties", PDict [
          (u "acknowledgedAt", PDict [
            (u "$ref", PStr (u "https://schemas.palonexus.dev/protocol/v1/common-v1.schema.json#/$defs/timestamp"));
            (u "maxLength", PInt 128)]);
          (u "evidenceHash", PDict [
            (u "$ref", PStr (u "https://schemas.palonexus.dev/protocol/v1/common-v1.schema.json#/$defs/sha256"))]);
          (u "receiptId", PDict [
            (u "maxLength", PInt 34);
            (u "minLength", PInt 34);
            (u "pattern", PStr (u "^receipt_[0-7][0-9A-HJKMNP-TV-Z]{25}$"));
            (u "type", PStr (u "string"))]);
          (u "reconciliationId", PDict [
            (u "maxLength", PInt 32);
            (u "minLength", PInt 32);
            (u "pattern", PStr (u "^recon_[0-7][0-9A-HJKMNP-TV-Z]{25}$"));
            (u "type", PStr (u "string"))])]);
        (u "required", PList [
          PStr (u "receiptId");
          PStr (u "reconciliationId");
          PStr (u "evidenceHash");
          PStr (u "acknowledgedAt")]);
        (u "type", PStr (u "object"))]);
      (u "action", PDict [
        (u "enum", PList [
          PStr (u "shell:exec");
          PStr (u "file:read");
          PStr (u "file:write");
          PStr (u "file:delete");
          PStr (u "web:fetch");
          PStr (u "mcp:call");
          PStr (u "tool:invoke")]);
        (u "type", PStr (u "string"))]);
      (u "actionId", PDict [
        (u "$ref", PStr (u "https://schemas.palonexus.dev/protocol/v1/common-v1.schema.json#/$defs/actionId"))]);
      (u "attemptCount", PDict [(u "maximum", PInt 100); (u "minimum", PInt 0); (u "type", PStr (u "integer"))]);
      (u "authoritativeScopeHash", PDict [
        (u "$ref", PStr (u "https://schemas.palonexus.dev/protocol/v1/common-v1.schema.json#/$defs/sha256"))]);
      (u "authorizationIdempotencyKey", PDict [
        (u "$ref", PStr (u "https://schemas.palonexus.dev/protocol/v1/common-v1.schema.json#/$defs/idempotencyKey"));
        (u "description", PStr (u "The stable idempotency key of the authorization attempt that produced this evidence, not an application-effect key."))]);
      (u "batchId", PDict [
        (u "maxLength", PInt 32);
        (u "minLength", PInt 32);
        (u "pattern", PStr (u "^batch_[0-7][0-9A-HJKMNP-TV-Z]{25}$"));
        (u "type", PStr (u "string"))]);
      (u "batchSequence", PDict [
        (u "maximum", PInt 2147483647);
        (u "minimum", PInt 0);
        (u "type", PStr (u "integer"))]);
      (u "clientId", PDict [
        (u "allOf", PList [
          PDict [
            (u "$ref", PStr (u "https://schemas.palonexus.dev/protocol/v1/common-v1.schema.json#/$defs/safeText"))]]);
        (u "description", PStr (u "Authenticated guard-assigned registered client identity."));
        (u "maxLength", PInt 128);
        (u "minLength", PInt 1);
        (u "pattern", PStr (u "^[a-z0-9][a-z0-9._-]{0,127}$"));
        (u "type", PStr (u "string"))]);
      (u "clientScopeHash", PDict [
        (u "$ref", PStr (u "https://schemas.palonexus.dev/protocol/v1/common-v1.schema.json#/$defs/sha256"))]);
      (u "correlationId", PDict [
        (u "$ref", PStr (u "https://schemas.palonexus.dev/protocol/v1/common-v1.schema.json#/$defs/correlationId"))]);
      (u "decisionId", PDict [
        (u "$ref", PStr (u "https://schemas.palonexus.dev/protocol/v1/common-v1.schema.json#/$defs/decisionId"))]);
      (u "deliveryDisposition", PDict [
        (u "description", PStr (u "Whether the scheduler may consider the record. manual_intervention requires an explicit authenticated retry or discard."));
        (u "enum", PList [PStr (u "automatic"); PStr (u "manual_intervention")]);
        (u "type", PStr (u "string"))]);
      (u "deliveryPolicy", PDict [
        (u "additionalProperties", PBool false);
        (u "properties", PDict [
          (u "baseDelaySeconds", PDict [
            (u "maximum", PInt 3600);
            (u "minimum", PInt 1);
            (u "type", PStr (u "integer"))]);
          (u "maxAttempts", PDict [
            (u "maximum", PInt 100);
            (u "minimum", PInt 1);
            (u "type", PStr (u "integer"))]);
          (u "maxDelaySeconds", PDict [
            (u "maximum", PInt 86400);
            (u "minimum", PInt 1);
            (u "type", PStr (u "integer"))]);
          (u "maxTotalAttempts", PDict [
            (u "description", PStr (u "Hard bound including explicit authenticated manual retries; must not be less than maxAttempts."));
            (u "maximum", PInt 100);
            (u "minimum", PInt 1);
            (u "type", PStr (u "integer"))])]);
        (u "required", PList [
          PStr (u "maxAttempts");
          PStr (u "maxTotalAttempts");
          PStr (u "baseDelaySeconds");
          PStr (u "maxDelaySeconds")]);
        (u "type", PStr (u "object"))]);
      (u "discard", PDict [
        (u "additionalProperties", PBool false);
        (u "properties", PDict [
          (u "authorityType", PDict [
            (u "enum", PList [PStr (u "authenticated_user"); PStr (u "organization_retention_policy")]);
            (u "type", PStr (u "string"))]);
          (u "reasonCode", PDict [
            (u "allOf", PList [
              PDict [
                (u "$ref", PStr (u "https://schemas.palonexus.dev/protocol/v1/common-v1.schema.json#/$defs/safeText"))]]);
            (u "maxLength", PInt 128);
            (u "pattern", PStr (u "^[a-z][a-z0-9]*(_[a-z0-9]+)*$"));
            (u "type", PStr (u "string"))])]);
        (u "required", PList [PStr (u "authorityType"); PStr (u "reasonCode")]);
        (u "type", PStr (u "object"))]);
      (u "discardedAt", PDict [
        (u "$ref", PStr (u "https://schemas.palonexus.dev/protocol/v1/common-v1.schema.json#/$defs/timestamp"));
        (u "maxLength", PInt 128)]);
      (u "extensions", PDict [
        (u "additionalProperties", PBool false);
        (u "description", PStr (u "No reconciliation extension keys are registered in protocol version 1."));
        (u "maxProperties", PInt 0);
        (u "type", PStr (u "object"))]);
      (u "lastAttemptAt", PDict [
        (u "$ref", PStr (u "https://schemas.palonexus.dev/protocol/v1/common-v1.schema.json#/$defs/timestamp"));
        (u "maxLength", PInt 128)]);
      (u "manualReasonCode", PDict [
        (u "const", PStr (u "attempt_limit_reached"));
        (u "description", PStr (u "Safe closed reason for pausing automatic delivery."));
        (u "type", PStr (u "string"))]);
      (u "nextAttemptAt", PDict [
        (u "$ref", PStr (u "https://schemas.palonexus.dev/protocol/v1/common-v1.schema.json#/$defs/timestamp"));
        (u "description", PStr (u "Durably persisted deadline for retry_wait."));
        (u "maxLength", PInt 128)]);
      (u "observedAt", PDict [
        (u "$ref", PStr (u "https://schemas.palonexus.dev/protocol/v1/common-v1.schema.json#/$defs/timestamp"));
        (u "maxLength", PInt 128)]);
      (u "outcome", PDict [
        (u "enum", PList [
          PStr (u "allow");
          PStr (u "deny");
          PStr (u "approval_required");
          PStr (u "error")]);
        (u "type", PStr (u "string"))]);
      (u "reasonCode", PDict [
        (u "allOf", PList [
          PDict [
            (u "$ref", PStr (u "https://schemas.palonexus.dev/protocol/v1/common-v1.schema.json#/$defs/safeText"))]]);
        (u "maxLength", PInt 128);
        (u "pattern", PStr (u "^[a-z][a-z0-9]*(_[a-z0-9]+)*$"));
        (u "type", PStr (u "string"))]);
      (u "reconciliationId", PDict [
        (u "description", PStr (u "Stable identifier reused by every delivery attempt."));
        (u "maxLength", PInt 32);
        (u "minLength", PInt 32);
        (u "pattern", PStr (u "^recon_[0-7][0-9A-HJKMNP-TV-Z]{25}$"));
        (u "type", PStr (u "string"))]);
      (u "requestId", PDict [
        (u "$ref", PStr (u "https://schemas.palonexus.dev/protocol/v1/common-v1.schema.json#/$defs/requestId"))]);
      (u "schemaVersion", PDict [
        (u "$ref", PStr (u "https://schemas.palonexus.dev/protocol/v1/common-v1.schema.json#/$defs/schemaVersion"))]);
      (u "state", PDict [
        (u "enum", PList [
          PStr (u "pending");
          PStr (u "sending");
          PStr (u "retry_wait");
          PStr (u "acknowledged");
          PStr (u "discarded")]);
        (u "type", PStr (u "string"))]);
      (u "targetKind", PDict [
        (u "enum", PList [PStr (u "local-action"); PStr (u "mcp-tool"); PStr (u "tool")]);
        (u "type", PStr (u "string"))])]);
    (u "required", PList [
      PStr (u "schemaVersion");
      PStr (u "reconciliationId");
      PStr (u "actionId");
      PStr (u "requestId");
      PStr (u "correlationId");
      PStr (u "authorizationIdempotencyKey");
      PStr (u "clientId");
      PStr (u "action");
      PStr (u "targetKind");
      PStr (u "outcome");
      PStr (u "reasonCode");
      PStr (u "observedAt");
      PStr (u "batchId");
      PStr (u "batchSequence");
      PStr (u "deliveryPolicy");
      PStr (u "attemptCount");
      PStr (u "deliveryDisposition");
      PStr (u "state")]);
    (u "title", PStr (u "PaloNexus reconciliation record version 1"));
    (u "type", PStr (u "object"))].

(** [_SCHEMAS] and [_SCHEMAS_BY_ID]. *)
Definition SCHEMAS : list (pystr * pyval) := [
  (u "action", action_schema); (u "approval", approval_schema); (u "common", common_schema);
  (u "decision", decision_schema); (u "error", error_schema);
  (u "reconciliation", reconciliation_schema)].

Definition SCHEMAS_BY_ID : list (pystr * pyval) :=
  omap (λ '(_, schema),
          match get schema "$id" with Some (PStr id) => Some (id, schema) | _ => None end) SCHEMAS.
