(* ===== verification/Decimal.v ===== *)
(** * Portable decimal numbers

    Models [_decimal_text] of [_canonicalize.py], the canonical text of a number,
    with the operations of [decimal.Decimal] it uses: [as_tuple], [abs] (which
    rounds to the 28 digits of the default context), comparison and the ["f"]
    format. *)

From stdpp Require Import base list list_numbers numbers strings.
From Stdlib Require Import QArith Qpower.
From S2P Require Import Prelude PyString Errors PyValue.
Open Scope Z_scope.

Definition cerr {A} (code : string) : py A := Raise (CanonicalizationError code).

(** The only exception a computation may leave with. *)
Definition craises {A} (m : py A) : Prop := ∀ e, m = Raise e → ∃ c, e = CanonicalizationError c.

Section craises.
Context {A B : Type}.
Implicit Types (m : py A) (f : A → py B).

Lemma craises_Ok (a : A) : craises (Ok a). Proof. by intros e. Qed.
Lemma craises_cerr code : craises (cerr (A := A) code). Proof. intros e [= <-]. eauto. Qed.
Lemma craises_raise_if c code : craises (raise_if c (CanonicalizationError code)).
Proof. intros e. destruct c; [intros [= <-]; eauto|done]. Qed.
Lemma craises_bind m f : craises m → (∀ a, craises (f a)) → craises (m ≫= f).
Proof. intros Hm Hf e [He|(a & _ & He)]%bind_Raise_iff; [by apply Hm|by eapply Hf]. Qed.
Lemma craises_fmap (g : A → B) m : craises m → craises (g <$> m).
Proof. intros Hm e. destruct m; [done|]. intros [= ->]. by apply Hm. Qed.
End craises.

Create HintDb craises.
#[export] Hint Resolve craises_Ok craises_cerr craises_raise_if : craises.

(** Opens binds and conditionals until only known computations are left. *)
Ltac solve_craises :=
  repeat first
    [ solve [auto with craises] | progress cbn beta iota
    | apply craises_bind; [|intros ?] | apply craises_fmap
    | match goal with |- craises (match ?x with _ => _ end) => destruct x end ].

(** ** Decimal digits *)
Fixpoint ndigits_fuel (fuel : nat) (n : Z) : nat :=
  match fuel with
  | O => O
  | S fuel => if n =? 0 then O else S (ndigits_fuel fuel (n / 10))
  end.
Definition ndigits (n : Z) : nat := ndigits_fuel (S (Z.to_nat (Z.log2 n))) n.

(** The digits of a positive integer, most significant first. *)
Definition digits (n : Z) : pystr := pad_digits (ndigits n) n.

(** [s.rstrip(c)]. *)
Fixpoint lstrip (c : Z) (s : pystr) : pystr :=
  match s with x :: s' => if x =? c then lstrip c s' else s | [] => [] end.
Definition rstrip (c : Z) (s : pystr) : pystr := rev (lstrip c (rev s)).

(** ** [Decimal] operations *)

(** [abs(value)] in the default context: 28 significant digits, half even. *)
Definition context_precision : nat := 28.
Definition round_half_even (coef : Z) (drop : nat) : Z :=
  let p := 10 ^ Z.of_nat drop in
  let q := coef / p in
  let r := coef mod p in
  if (p <? 2 * r) || ((2 * r =? p) && Z.odd q) then q + 1 else q.
Definition dec_abs (coef exp : Z) : Z * Z :=
  let n := ndigits coef in
  if (context_precision <? n)%nat
  then (round_half_even coef (n - context_precision), exp + Z.of_nat (n - context_precision))
  else (coef, exp).

(** [a < b] for non-negative decimals, exactly. *)
Definition dec_ltb (a b : Z * Z) : bool :=
  let m := Z.min a.2 b.2 in
  a.1 * 10 ^ (a.2 - m) <? b.1 * 10 ^ (b.2 - m).

(** [format(value, "f")] of a non-zero finite decimal. *)
Definition format_f (negative : bool) (coef exp : Z) : pystr :=
  let ds := digits coef in
  let sign := if negative then u "-" else [] in
  if 0 <=? exp then sign ++ ds ++ replicate (Z.to_nat exp) 48
  else
    let k := Z.to_nat (- exp) in
    let padded := replicate (S k - length ds) 48 ++ ds in
    let ip := (length padded - k)%nat in
    sign ++ take ip padded ++ u "." ++ drop ip padded.

(** ** [_decimal_text] *)
Definition MAX_SIGNIFICANT_DIGITS : nat := 128.
Definition MIN_NORMALIZED_EXPONENT : Z := -435.
Definition MAX_NORMALIZED_EXPONENT : Z := 308.
Definition MAX_DECIMAL : Z * Z := (1, 308).
Definition MIN_NONZERO_DECIMAL : Z * Z := (1, -308).

(** The loop that pops trailing zeros; the digits come last first. *)
Fixpoint pop_zeros (rdigits : pystr) (exponent : Z) : pystr * Z :=
  match rdigits with
  | d :: ((_ :: _) as rest) =>
      if d =? 48 then pop_zeros rest (exponent + 1) else (rdigits, exponent)
  | _ => (rdigits, exponent)
  end.

Definition decimal_text (value : pydec) : py pystr :=
  match value with
  | DInfinity _ | DNaN => cerr "non_finite_number"
  | DFinite negative coef raw_exponent =>
      let coef := Z.of_N coef in
      if coef =? 0 then Ok (u "0")
      else
        let '(rdigits, exponent) := pop_zeros (rev (digits coef)) raw_exponent in
        raise_if (MAX_SIGNIFICANT_DIGITS <? length rdigits)%nat
          (CanonicalizationError "number_too_precise");;
        raise_if ((exponent <? MIN_NORMALIZED_EXPONENT) || (MAX_NORMALIZED_EXPONENT <? exponent))
          (CanonicalizationError "number_out_of_range");;
        let magnitude := dec_abs coef raw_exponent in
        raise_if (dec_ltb MAX_DECIMAL magnitude || dec_ltb magnitude MIN_NONZERO_DECIMAL)
          (CanonicalizationError "number_out_of_range");;
        let rendered := format_f negative coef raw_exponent in
        Ok (if bool_decide (46 ∈ rendered) then rstrip 46 (rstrip 48 rendered) else rendered)
  end.

Definition dec_of_int (z : Z) : pydec := DFinite (z <? 0) (Z.abs_N z) 0.

(** ** Lemmas on digits *)
#[local] Ltac Zify.zify_post_hook ::= Z.div_mod_to_equations.

Lemma ndigits_fuel_spec fuel n :
  0 < n < 2 ^ Z.of_nat fuel →
  ∃ w, ndigits_fuel fuel n = S w ∧ 10 ^ Z.of_nat w ≤ n < 10 ^ Z.of_nat (S w).
Proof.
  revert n. induction fuel as [|fuel IH]; intros n Hn; [cbn in Hn; lia|].
  cbn [ndigits_fuel]. rewrite (proj2 (Z.eqb_neq n 0)) by lia.
  destruct (decide (n / 10 = 0)) as [E|E].
  - exists 0%nat. split; [|cbn; lia]. rewrite E. by destruct fuel.
  - destruct (IH (n / 10)) as (w & -> & Hw).
    { rewrite Nat2Z.inj_succ, Z.pow_succ_r in Hn by lia. lia. }
    exists (S w). split; [done|]. rewrite (Nat2Z.inj_succ (S w)), Z.pow_succ_r by lia.
    rewrite Nat2Z.inj_succ, Z.pow_succ_r in * by lia. lia.
Qed.

Lemma ndigits_spec n :
  0 < n → ∃ w, ndigits n = S w ∧ 10 ^ Z.of_nat w ≤ n < 10 ^ Z.of_nat (S w).
Proof.
  intros Hn. apply ndigits_fuel_spec. split; [lia|].
  rewrite Nat2Z.inj_succ, Z2Nat.id by apply Z.log2_nonneg. by apply Z.log2_spec.
Qed.

Lemma int_of_digits_digits n : 0 < n → int_of_digits (digits n) = n.
Proof.
  intros Hn. destruct (ndigits_spec n Hn) as (w & Hw & ?). unfold digits. rewrite Hw.
  apply int_of_pad_digits. lia.
Qed.

Lemma digits_are_digits n : Forall (λ c, is_digit c = true) (digits n).
Proof. apply pad_digits_are_digits. Qed.

Lemma pad_digits_head w n :
  10 ^ Z.of_nat w ≤ n < 10 ^ Z.of_nat (S w) →
  ∃ d rest, pad_digits (S w) n = d :: rest ∧ d ≠ 48.
Proof.
  revert n. induction w as [|w IH]; intros n Hn.
  - cbn in *. eexists _, []. split; [done|]. unfold digit_char. lia.
  - destruct (IH (n / 10)) as (d & rest & E & ?).
    { rewrite !Nat2Z.inj_succ, !Z.pow_succ_r in * by lia. lia. }
    cbn [pad_digits] in E |- *. rewrite E. by eexists d, _.
Qed.

Lemma digits_head n : 0 < n → ∃ d rest, digits n = d :: rest ∧ d ≠ 48.
Proof.
  intros Hn. destruct (ndigits_spec n Hn) as (w & Hw & ?). unfold digits. rewrite Hw.
  by apply pad_digits_head.
Qed.

Lemma int_of_digits_app s t :
  int_of_digits (s ++ t) = int_of_digits s * 10 ^ Z.of_nat (length t) + int_of_digits t.
Proof. unfold int_of_digits at 1. rewrite int_of_digits_acc_app. apply int_of_digits_acc_shift. Qed.

Lemma int_of_zeros n : int_of_digits (replicate n 48) = 0.
Proof. induction n as [|n IH]; [done|]. exact IH. Qed.

Lemma int_of_digits_leading n s : int_of_digits (replicate n 48 ++ s) = int_of_digits s.
Proof. rewrite int_of_digits_app, int_of_zeros. lia. Qed.

Lemma int_of_digits_trailing s n :
  int_of_digits (s ++ replicate n 48) = int_of_digits s * 10 ^ Z.of_nat n.
Proof. rewrite int_of_digits_app, int_of_zeros, length_replicate. lia. Qed.

(** ** Lemmas on [rstrip] *)
Lemma lstrip_spec c s : ∃ j, s = replicate j c ++ lstrip c s ∧ head (lstrip c s) ≠ Some c.
Proof.
  induction s as [|x s (j & E & IH)]; [by exists 0%nat|]. cbn.
  destruct (x =? c) eqn:Hx; refl_bool.
  - subst. exists (S j). cbn. by rewrite <-E.
  - exists 0%nat. split; [done|]. cbn. congruence.
Qed.

Lemma lstrip_fixed c s j : head s ≠ Some c → lstrip c (replicate j c ++ s) = s.
Proof.
  intros Hs. induction j as [|j IH]; cbn; [|by rewrite Z.eqb_refl].
  destruct s as [|x s]; cbn in *; [done|]. destruct (x =? c) eqn:Hx; refl_bool; congruence.
Qed.

Lemma rev_replicate {A} n (x : A) : rev (replicate n x) = replicate n x.
Proof.
  induction n as [|n IH]; [done|]. cbn. rewrite IH. by rewrite <-replicate_cons_app.
Qed.

Lemma last_rev {A} (l : list A) : last (rev l) = head l.
Proof. destruct l as [|x l]; [done|]. apply last_snoc. Qed.
Lemma head_rev {A} (l : list A) : head (rev l) = last l.
Proof. by rewrite <-last_rev, rev_involutive. Qed.

Lemma rstrip_spec c s : ∃ j, s = rstrip c s ++ replicate j c ∧ last (rstrip c s) ≠ Some c.
Proof.
  destruct (lstrip_spec c (rev s)) as (j & E & Hh). exists j. unfold rstrip. split.
  - rewrite <-(rev_involutive s), E at 1. by rewrite rev_app_distr, rev_replicate.
  - by rewrite last_rev.
Qed.

Lemma rstrip_fixed c s j : last s ≠ Some c → rstrip c (s ++ replicate j c) = s.
Proof.
  intros Hl. unfold rstrip. rewrite rev_app_distr, rev_replicate, lstrip_fixed.
  - apply rev_involutive.
  - by rewrite head_rev.
Qed.

(** ** The shape of a canonical number *)

(** A sign, an integer part without leading zeros and a fraction. *)
Definition fraction_text (fp : pystr) : pystr := match fp with [] => [] | _ => 46 :: fp end.
Record number_text (t : pystr) (negative : bool) (ip fp : pystr) : Prop := {
  number_eq : t = (if negative then u "-" else []) ++ ip ++ fraction_text fp;
  number_ip : Forall (λ c, is_digit c = true) ip;
  number_fp : Forall (λ c, is_digit c = true) fp;
  number_head : ip = [48] ∨ ∃ d rest, ip = d :: rest ∧ d ≠ 48;
}.

(** The decimal that [Decimal(t)] reads from such a text. *)
Definition number_value (negative : bool) (ip fp : pystr) : pydec :=
  DFinite negative (Z.to_N (int_of_digits (ip ++ fp))) (- Z.of_nat (length fp)).

(** Equal as numbers. *)
Definition dec_eq (d e : pydec) : Prop :=
  match num_of (PDec d), num_of (PDec e) with
  | Some (XFin p), Some (XFin q) => (p == q)%Q
  | _, _ => False
  end.

Lemma Q_scale_power base m e : (Q_scale base m e == inject_Z m * (inject_Z (Zpos base)) ^ e)%Q.
Proof.
  unfold Q_scale. destruct (0 <=? e) eqn:He; refl_bool.
  - rewrite inject_Z_mult. by rewrite <-Zpower_Qpower.
  - rewrite <-(Z.opp_involutive e) at 2. rewrite Qpower_opp, <-Zpower_Qpower by lia.
    rewrite Qmake_Qdiv, Pos2Z.inj_pow, Z2Pos.id by lia. reflexivity.
Qed.

Lemma Q_scale_shift base m e k :
  0 ≤ k → (Q_scale base (m * Zpos base ^ k) e == Q_scale base m (e + k))%Q.
Proof.
  intros Hk. rewrite !Q_scale_power, inject_Z_mult, Zpower_Qpower by done.
  rewrite Qpower_plus by (by intros ?). ring.
Qed.

(** The digits a rendering prints, with their value. *)
Abbreviation all_digits := (Forall (λ c, is_digit c = true)).

Lemma zeros_are_digits n : all_digits (replicate n 48).
Proof. by apply Forall_replicate. Qed.

Lemma format_f_fraction negative coef exp :
  0 < coef → exp < 0 →
  ∃ ip fp, format_f negative coef exp = (if negative then u "-" else []) ++ ip ++ 46 :: fp ∧
    all_digits ip ∧ all_digits fp ∧ (ip = [48] ∨ ∃ d rest, ip = d :: rest ∧ d ≠ 48) ∧
    int_of_digits (ip ++ fp) = coef ∧ Z.of_nat (length fp) = - exp.
Proof.
  intros Hc He. unfold format_f. rewrite (proj2 (Z.leb_gt 0 exp)) by done.
  set (k := Z.to_nat (- exp)). set (padded := replicate _ _ ++ _).
  assert (all_digits padded) as Hall
    by (apply Forall_app; split; [apply zeros_are_digits|apply digits_are_digits]).
  assert (S k ≤ length padded)%nat by (unfold padded; rewrite length_app, length_replicate; lia).
  exists (take (length padded - k) padded), (drop (length padded - k) padded).
  split_and!; [done|by apply Forall_take|by apply Forall_drop| | |].
  - destruct (digits_head coef Hc) as (d & rest & E & Hd).
    destruct (decide (length (digits coef) ≤ k)%nat) as [Hle|Hgt].
    + left. replace (length padded - k)%nat with 1%nat
        by (unfold padded; rewrite length_app, length_replicate; lia).
      unfold padded. replace (S k - length (digits coef))%nat
        with (S (k - length (digits coef)))%nat by lia. done.
    + right. unfold padded in *. replace (S k - length (digits coef))%nat with 0%nat in * by lia.
      cbn [replicate app] in *. rewrite E in *. cbn [length] in *.
      replace (S (length rest) - k)%nat with (S (length rest - k))%nat by lia. cbn. eauto.
  - rewrite take_drop. unfold padded. by rewrite int_of_digits_leading, int_of_digits_digits.
  - rewrite length_drop. unfold k. lia.
Qed.

Lemma last_digit s : all_digits s → last s ≠ Some 46 ∧ last s ≠ Some 45.
Proof.
  intros Hs. destruct (last s) as [c|] eqn:E; [|done].
  apply last_Some_elem_of in E. rewrite Forall_forall in Hs.
  pose proof (proj1 (is_digit_iff c) (Hs c E)). split; intros [= ->]; lia.
Qed.

(** Stripping zeros and then the point of a rendering. *)
Lemma strip_rendering sign ip fp :
  all_digits ip → ip ≠ [] → all_digits fp →
  ∃ fp' j, fp = fp' ++ replicate j 48 ∧
    rstrip 46 (rstrip 48 (sign ++ ip ++ 46 :: fp)) = sign ++ ip ++ fraction_text fp'.
Proof.
  intros Hip Hne Hfp. destruct (rstrip_spec 48 fp) as (j & E & Hl).
  exists (rstrip 48 fp), j. split; [done|]. rewrite E in Hfp. apply Forall_app in Hfp as [Hfp _].
  replace (sign ++ ip ++ 46 :: fp) with ((sign ++ ip ++ 46 :: rstrip 48 fp) ++ replicate j 48)
    by (rewrite <-!app_assoc; cbn; by rewrite <-E).
  rewrite rstrip_fixed.
  - destruct (rstrip 48 fp) as [|d fp'] eqn:Ef; cbn [fraction_text].
    + rewrite app_assoc, (rstrip_fixed 46 _ 1), app_nil_r; [done|].
      rewrite last_app. destruct (last ip) eqn:El; [|by apply last_None in El].
      rewrite <-El. by apply last_digit.
    + rewrite <-(app_nil_r (sign ++ _)) at 1. apply (rstrip_fixed 46 _ 0).
      rewrite !last_app, last_cons.
      destruct (last (d :: fp')) eqn:El; [rewrite <-El; by apply last_digit|by apply last_None in El].
  - rewrite !last_app, last_cons. by destruct (last (rstrip 48 fp)).
Qed.

Lemma int_of_digits_nonneg s : all_digits s → 0 ≤ int_of_digits s.
Proof.
  intros Hs. induction Hs as [|c s Hc Hs IH]; [done|].
  change (c :: s) with ([c] ++ s). rewrite int_of_digits_app.
  assert (0 ≤ int_of_digits [c]).
  { apply is_digit_iff in Hc. unfold int_of_digits. cbn. unfold digit_val. lia. }
  nia.
Qed.

Lemma dec_eq_scaled negative m e m' e' k :
  0 ≤ m' → 0 ≤ k → m = m' * 10 ^ k → e' = e + k →
  dec_eq (DFinite negative (Z.to_N m') e') (DFinite negative (Z.to_N m) e).
Proof.
  intros Hm Hk -> ->. unfold dec_eq. cbn [num_of]. rewrite !Z2N.id by nia.
  replace (signed negative (m' * 10 ^ k)) with (signed negative m' * 10 ^ k)
    by (destruct negative; cbn; ring).
  symmetry. by apply (Q_scale_shift 10).
Qed.

Lemma Q_scale_zero base e : (Q_scale base 0 e == 0)%Q.
Proof. rewrite Q_scale_power. ring. Qed.

Lemma render_integral negative c exp :
  0 < c → 0 ≤ exp →
  (46 ∉ format_f negative c exp) ∧
  ∃ ip, number_text (format_f negative c exp) negative ip [] ∧
    dec_eq (number_value negative ip []) (DFinite negative (Z.to_N c) exp).
Proof.
  intros Hc He. unfold format_f. rewrite (proj2 (Z.leb_le 0 exp)) by done.
  assert (all_digits (digits c ++ replicate (Z.to_nat exp) 48)) as Hds
    by (apply Forall_app; split; [apply digits_are_digits|apply zeros_are_digits]).
  split.
  - intros Hin. apply elem_of_app in Hin as [Hin|Hin].
    + destruct negative; [by apply list_elem_of_singleton in Hin|by apply elem_of_nil in Hin].
    + rewrite Forall_forall in Hds. by apply Hds in Hin.
  - exists (digits c ++ replicate (Z.to_nat exp) 48). split.
    + destruct (digits_head c Hc) as (d & rest & E & Hd).
      constructor; [by rewrite app_nil_r|done|done|]. rewrite E. right. cbn. eauto.
    + unfold number_value. rewrite app_nil_r, int_of_digits_trailing, int_of_digits_digits by done.
      unfold dec_eq. cbn [num_of length]. rewrite !Z2N.id by nia.
      rewrite Z2Nat.id by done.
      replace (signed negative (c * 10 ^ exp)) with (signed negative c * 10 ^ exp)
        by (destruct negative; cbn; ring).
      by apply (Q_scale_shift 10).
Qed.

Lemma render_fraction negative c exp :
  0 < c → exp < 0 →
  (46 ∈ format_f negative c exp) ∧
  ∃ ip fp, number_text (rstrip 46 (rstrip 48 (format_f negative c exp))) negative ip fp ∧
    dec_eq (number_value negative ip fp) (DFinite negative (Z.to_N c) exp).
Proof.
  intros Hc He.
  destruct (format_f_fraction negative c exp Hc He) as (ip & fp & -> & Hip & Hfp & Hh & Hv & Hl).
  assert (ip ≠ []) as Hne by (destruct Hh as [->|(?&?&->&?)]; done).
  destruct (strip_rendering (if negative then u "-" else []) ip fp) as (fp' & j & -> & ->); [done..|].
  split; [apply elem_of_app; right; apply elem_of_app; right; apply elem_of_cons; by left|].
  apply Forall_app in Hfp as [Hfp' _]. exists ip, fp'. split; [by constructor|].
  apply (dec_eq_scaled _ _ _ _ _ (Z.of_nat j)).
  - apply int_of_digits_nonneg, Forall_app; done.
  - lia.
  - by rewrite <-Hv, app_assoc, int_of_digits_trailing.
  - rewrite length_app, length_replicate in Hl. lia.
Qed.

(** The canonical text of a number is a JSON number that denotes it exactly. *)
Lemma decimal_text_number d t :
  decimal_text d = Ok t →
  ∃ negative ip fp, number_text t negative ip fp ∧ dec_eq (number_value negative ip fp) d.
Proof.
  destruct d as [negative coef exp| |]; [|done..]. unfold decimal_text.
  destruct (Z.of_N coef =? 0) eqn:Ez; refl_bool.
  { intros [= <-]. exists false, [48], []. split; [constructor; auto; by constructor|].
    assert (coef = 0)%N as -> by lia. unfold dec_eq. cbn [num_of number_value].
    destruct negative; cbn [signed Z.of_N Z.opp]; by rewrite !Q_scale_zero. }
  destruct (pop_zeros _ _) as [rd ex]. intros Ht. inv_ok.
  replace (DFinite negative coef exp) with (DFinite negative (Z.to_N (Z.of_N coef)) exp)
    by (by rewrite N2Z.id).
  destruct (Z.le_gt_cases 0 exp) as [He|He].
  - destruct (render_integral negative (Z.of_N coef) exp) as (Hn & ip & ? & ?); [lia..|].
    rewrite bool_decide_false by done. eauto.
  - destruct (render_fraction negative (Z.of_N coef) exp) as (Hn & ip & fp & ? & ?); [lia..|].
    rewrite bool_decide_true by done. eauto.
Qed.

(** ** The text depends on the value only *)
Lemma digits_times_10 c : 0 < c → digits (c * 10) = digits c ++ [48].
Proof.
  intros Hc. unfold digits.
  destruct (ndigits_spec c Hc) as (w & -> & Hw).
  destruct (ndigits_spec (c * 10)) as (w' & -> & Hw'); [lia|].
  assert (w' = S w) as ->.
  { rewrite !Nat2Z.inj_succ, !Z.pow_succ_r in * by lia.
    destruct (lt_eq_lt_dec w' (S w)) as [[Hlt|]|Hlt]; [|done|].
    - assert (10 ^ Z.of_nat w' ≤ 10 ^ Z.of_nat w) by (apply Z.pow_le_mono_r; lia). lia.
    - assert (10 ^ Z.of_nat (S (S w)) ≤ 10 ^ Z.of_nat w') by (apply Z.pow_le_mono_r; lia).
      rewrite !Nat2Z.inj_succ, !Z.pow_succ_r in * by lia. lia. }
  change (pad_digits (S (S w)) (c * 10))
    with (pad_digits (S w) (c * 10 / 10) ++ [digit_char (c * 10 mod 10)]).
  by rewrite Z.div_mul, Z.mod_mul by done.
Qed.

Lemma length_digits c : length (digits c) = ndigits c.
Proof. apply length_pad_digits. Qed.

Lemma ndigits_times_10 c : 0 < c → ndigits (c * 10) = S (ndigits c).
Proof.
  intros Hc. rewrite <-!length_digits, digits_times_10, length_app by done. cbn. lia.
Qed.

Lemma pop_zeros_times_10 c e :
  0 < c → pop_zeros (rev (digits (c * 10))) (e - 1) = pop_zeros (rev (digits c)) e.
Proof.
  intros Hc. rewrite digits_times_10, rev_app_distr by done. cbn [rev app].
  destruct (digits_head c Hc) as (d & rest & E & _).
  destruct (rev (digits c)) as [|x r] eqn:Er.
  { rewrite E in Er. cbn in Er. by destruct (rev rest). }
  cbn [pop_zeros]. cbn [Z.eqb Pos.eqb]. by replace (e - 1 + 1) with e by lia.
Qed.

Lemma round_half_even_times_10 c n :
  round_half_even (c * 10) (S n) = round_half_even c n.
Proof.
  unfold round_half_even. rewrite Nat2Z.inj_succ, Z.pow_succ_r by lia.
  set (p := 10 ^ Z.of_nat n). assert (0 < p) by (apply Z.pow_pos_nonneg; lia).
  rewrite (Z.mul_comm 10 p), Z.div_mul_cancel_r, Zmult_mod_distr_r by lia.
  replace (p * 10 <? 2 * (c mod p * 10)) with (p <? 2 * (c mod p)).
  - replace (2 * (c mod p * 10) =? p * 10) with (2 * (c mod p) =? p); [done|].
    apply eq_true_iff_eq. rewrite !Z.eqb_eq. lia.
  - apply eq_true_iff_eq. rewrite !Z.ltb_lt. lia.
Qed.

Lemma dec_ltb_scale a b m :
  m ≤ a.2 → m ≤ b.2 → dec_ltb a b = (a.1 * 10 ^ (a.2 - m) <? b.1 * 10 ^ (b.2 - m)).
Proof.
  intros Ha Hb. unfold dec_ltb. set (k := Z.min a.2 b.2).
  replace (a.2 - m) with (a.2 - k + (k - m)) by lia.
  replace (b.2 - m) with (b.2 - k + (k - m)) by lia.
  rewrite !Z.pow_add_r, !Z.mul_assoc by (unfold k; lia).
  assert (0 < 10 ^ (k - m)) by (apply Z.pow_pos_nonneg; unfold k; lia).
  apply eq_true_iff_eq. rewrite !Z.ltb_lt. nia.
Qed.

Lemma dec_ltb_times_10 a b c e :
  dec_ltb a (c * 10, e - 1) = dec_ltb a (c, e) ∧ dec_ltb (c * 10, e - 1) b = dec_ltb (c, e) b.
Proof.
  assert (∀ m, m ≤ e - 1 → c * 10 * 10 ^ (e - 1 - m) = c * 10 ^ (e - m)) as Hs.
  { intros m Hm. replace (e - m) with (Z.succ (e - 1 - m)) by lia. rewrite Z.pow_succ_r by lia. ring. }
  split.
  - rewrite !(dec_ltb_scale a _ (Z.min a.2 (e - 1))) by (cbn; lia). cbn [fst snd].
    by rewrite Hs by lia.
  - rewrite !(dec_ltb_scale _ b (Z.min b.2 (e - 1))) by (cbn; lia). cbn [fst snd].
    by rewrite Hs by lia.
Qed.

(** Both bounds see the same magnitude. *)
Lemma dec_abs_times_10 a b c e :
  0 < c → dec_ltb a (dec_abs (c * 10) (e - 1)) = dec_ltb a (dec_abs c e) ∧
          dec_ltb (dec_abs (c * 10) (e - 1)) b = dec_ltb (dec_abs c e) b.
Proof.
  intros Hc. unfold dec_abs. rewrite ndigits_times_10 by done.
  destruct (Nat.lt_trichotomy (ndigits c) context_precision) as [Hn|[Hn|Hn]].
  - rewrite !(proj2 (Nat.ltb_ge _ _)) by lia. apply dec_ltb_times_10.
  - rewrite Hn, (proj2 (Nat.ltb_lt _ _)), (proj2 (Nat.ltb_ge _ _)) by lia.
    replace (S context_precision - context_precision)%nat with 1%nat by lia.
    rewrite round_half_even_times_10. 
    assert (round_half_even c 0 = c) as ->.
    { unfold round_half_even. change (10 ^ Z.of_nat 0) with 1. rewrite Z.div_1_r, Z.mod_1_r. done. }
    by replace (e - 1 + Z.of_nat 1) with e by lia.
  - rewrite !(proj2 (Nat.ltb_lt _ _)) by lia.
    replace (S (ndigits c) - context_precision)%nat
      with (S (ndigits c - context_precision)) by lia.
    rewrite round_half_even_times_10, Nat2Z.inj_succ.
    by replace (e - 1 + Z.succ (Z.of_nat (ndigits c - context_precision)))
      with (e + Z.of_nat (ndigits c - context_precision)) by lia.
Qed.

(** The printed text, after stripping. *)
Definition rendered_text (negative : bool) (coef exp : Z) : pystr :=
  let rendered := format_f negative coef exp in
  if bool_decide (46 ∈ rendered) then rstrip 46 (rstrip 48 rendered) else rendered.

Lemma rstrip_snoc c s : rstrip c (s ++ [c]) = rstrip c s.
Proof. unfold rstrip. rewrite rev_app_distr. cbn. by rewrite Z.eqb_refl. Qed.

Lemma rendered_times_10 negative c e :
  0 < c → rendered_text negative (c * 10) (e - 1) = rendered_text negative c e.
Proof.
  intros Hc. unfold rendered_text. destruct (Z.lt_trichotomy e 0) as [He|[->|He]].
  - assert (format_f negative (c * 10) (e - 1) = format_f negative c e ++ [48]) as E.
    { unfold format_f. cbn zeta. rewrite !(proj2 (Z.leb_gt 0 _)) by lia.
      replace (Z.to_nat (- (e - 1))) with (S (Z.to_nat (- e))) by lia.
      set (k := Z.to_nat (- e)). set (padded := replicate (S k - length (digits c)) 48 ++ digits c).
      assert (replicate (S (S k) - length (digits (c * 10))) 48 ++ digits (c * 10)
              = padded ++ [48]) as ->.
      { unfold padded. rewrite !length_digits, ndigits_times_10, digits_times_10 by done.
        by rewrite <-app_assoc. }
      rewrite length_app. cbn [length].
      replace (length padded + 1 - S k)%nat with (length padded - k)%nat by lia.
      rewrite (take_app_le padded), (drop_app_le padded) by lia. by rewrite <-!app_assoc. }
    destruct (render_fraction negative c e Hc He) as [Hin _].
    rewrite E, !bool_decide_true by (done || by apply elem_of_app; left).
    by rewrite rstrip_snoc.
  - destruct (render_integral negative c 0 Hc) as [Hno _]; [lia|].
    rewrite (bool_decide_false (46 ∈ format_f negative c 0)) by done.
    destruct (render_fraction negative (c * 10) (0 - 1)) as [Hin _]; [lia..|].
    rewrite bool_decide_true by done.
    assert (format_f negative (c * 10) (0 - 1) = (format_f negative c 0 ++ [46]) ++ [48]) as ->.
    { destruct (digits_head c Hc) as (d & rest & E & _).
      unfold format_f. cbn zeta. rewrite digits_times_10 by done. change (0 <=? 0) with true.
      change (0 <=? 0 - 1) with false. change (Z.to_nat (- (0 - 1))) with 1%nat.
      change (Z.to_nat 0) with 0%nat. rewrite E. cbn [app length replicate].
      replace (2 - S (length (rest ++ [48%Z])))%nat with 0%nat by (rewrite length_app; cbn; lia).
      cbn [replicate app length]. replace (S (length (rest ++ [48%Z])) - 1)%nat
        with (S (length rest)) by (rewrite length_app; cbn; lia).
      cbn [take drop]. rewrite take_app_length, drop_app_length, app_nil_r.
      by rewrite <-!app_assoc. }
    assert (last (format_f negative c 0) ≠ Some 46) as Hl.
    { intros Hl. apply Hno. by apply last_Some_elem_of. }
    rewrite rstrip_snoc, <-(app_nil_r (format_f negative c 0 ++ [46])) at 1.
    rewrite (rstrip_fixed 48 _ 0) by (by rewrite last_snoc). by apply (rstrip_fixed 46 _ 1).
  - destruct (render_integral negative c e Hc) as [Hno _]; [lia|].
    destruct (render_integral negative (c * 10) (e - 1)) as [Hno' _]; [lia..|].
    rewrite !bool_decide_false by done. unfold format_f. cbn zeta.
    rewrite !(proj2 (Z.leb_le 0 _)), digits_times_10 by lia.
    replace (Z.to_nat e) with (S (Z.to_nat (e - 1))) by lia. cbn [replicate].
    by rewrite <-app_assoc.
Qed.

Lemma decimal_text_times_10 negative (c : N) e :
  (0 < c)%N → decimal_text (DFinite negative (c * 10) (e - 1)) = decimal_text (DFinite negative c e).
Proof.
  intros Hc. unfold decimal_text. rewrite N2Z.inj_mul. change (Z.of_N 10) with 10.
  set (z := Z.of_N c). assert (0 < z) as Hz by lia.
  rewrite !(proj2 (Z.eqb_neq _ 0)), pop_zeros_times_10 by lia.
  destruct (pop_zeros (rev (digits z)) e) as [rd ex].
  destruct (dec_abs_times_10 MAX_DECIMAL MIN_NONZERO_DECIMAL z e Hz) as [-> ->].
  fold (rendered_text negative (z * 10) (e - 1)). fold (rendered_text negative z e).
  by rewrite rendered_times_10.
Qed.

Lemma decimal_text_scale negative (c : N) e (k : nat) :
  (0 < c)%N →
  decimal_text (DFinite negative (c * 10 ^ N.of_nat k) (e - Z.of_nat k))
  = decimal_text (DFinite negative c e).
Proof.
  intros Hc. induction k as [|k IH].
  - by rewrite N.pow_0_r, N.mul_1_r, Z.sub_0_r.
  - rewrite Nat2N.inj_succ, N.pow_succ_r', (N.mul_comm 10), N.mul_assoc.
    replace (e - Z.of_nat (S k)) with (e - Z.of_nat k - 1) by lia.
    rewrite decimal_text_times_10; [done|]. assert (0 < 10 ^ N.of_nat k)%N by lia. lia.
Qed.

Lemma Q_scale_inj base a b e : (Q_scale base a e == Q_scale base b e)%Q → a = b.
Proof.
  rewrite !Q_scale_power. intros E. apply inject_Z_injective.
  apply (Qmult_inj_r _ _ (inject_Z (Zpos base) ^ e)); [|done].
  apply Qpower_not_0. by intros ?.
Qed.

(** Equality of decimals, over the integers. *)
Lemma dec_eq_iff negative c e negative' c' e' m :
  m ≤ e → m ≤ e' →
  dec_eq (DFinite negative c e) (DFinite negative' c' e') →
  signed negative (Z.of_N c) * 10 ^ (e - m) = signed negative' (Z.of_N c') * 10 ^ (e' - m).
Proof.
  intros He He' E. unfold dec_eq in E. cbn [num_of] in E. apply (Q_scale_inj 10 _ _ m).
  change (10 ^ (e - m)) with (Zpos 10 ^ (e - m)). change (10 ^ (e' - m)) with (Zpos 10 ^ (e' - m)).
  rewrite !(Q_scale_shift 10) by lia. by replace (m + (e - m)) with e by lia;
    replace (m + (e' - m)) with e' by lia.
Qed.

Lemma decimal_text_ext_le negative c e negative' c' e' :
  e ≤ e' → dec_eq (DFinite negative c e) (DFinite negative' c' e') →
  decimal_text (DFinite negative c e) = decimal_text (DFinite negative' c' e').
Proof.
  intros Hle E%(dec_eq_iff _ _ _ _ _ _ e); [|lia..].
  rewrite Z.sub_diag, Z.pow_0_r, Z.mul_1_r in E.
  assert (0 < 10 ^ (e' - e)) as Hp by (apply Z.pow_pos_nonneg; lia).
  destruct (decide (c' = 0)%N) as [->|Hc'].
  { assert (c = 0)%N as -> by (destruct negative, negative'; cbn in E; lia). done. }
  assert (0 < Z.of_N c' * 10 ^ (e' - e)) by nia.
  assert (negative = negative' ∧ Z.of_N c = Z.of_N c' * 10 ^ (e' - e)) as [-> Ec].
  { destruct negative, negative'; cbn [signed] in E; lia. }
  rewrite <-(decimal_text_scale negative' c' e' (Z.to_nat (e' - e))) by lia.
  rewrite Z2Nat.id by lia. replace (e' - (e' - e)) with e by lia.
  do 2 f_equal. apply N2Z.inj. by rewrite Ec, N2Z.inj_mul, N2Z.inj_pow, nat_N_Z, Z2Nat.id by lia.
Qed.

Lemma dec_eq_sym d e : dec_eq d e → dec_eq e d.
Proof. unfold dec_eq. repeat case_match; done || by symmetry. Qed.

Lemma dec_eq_trans d e f : dec_eq d e → dec_eq e f → dec_eq d f.
Proof. unfold dec_eq. repeat case_match; try done. apply Qeq_trans. Qed.

Lemma dec_eq_finite d e : dec_eq d e → ∃ n c x, d = DFinite n c x.
Proof. destruct d; cbn; [eauto|done|done]. Qed.

Lemma decimal_text_ext d e : dec_eq d e → decimal_text d = decimal_text e.
Proof.
  intros E. destruct (dec_eq_finite _ _ E) as (n & c & x & ->).
  destruct (dec_eq_finite _ _ (dec_eq_sym _ _ E)) as (n' & c' & x' & ->).
  destruct (Z.le_ge_cases x x'); [by apply decimal_text_ext_le|].
  symmetry. apply decimal_text_ext_le; [done|]. by apply dec_eq_sym.
Qed.

Lemma decimal_text_craises d : craises (decimal_text d).
Proof. unfold decimal_text. solve_craises. Qed.
#[export] Hint Resolve decimal_text_craises : craises.

Lemma span_number ip fp : all_digits ip → span is_digit (ip ++ fraction_text fp) = (ip, fraction_text fp).
Proof.
  intros Hip. destruct fp as [|d fp]; cbn [fraction_text].
  - rewrite app_nil_r. by apply span_all.
  - by apply span_app_stop.
Qed.

Lemma number_text_unique t n ip fp n' ip' fp' :
  number_text t n ip fp → number_text t n' ip' fp' → n = n' ∧ ip = ip' ∧ fp = fp'.
Proof.
  intros [-> Hip Hfp Hh] [E Hip' Hfp' Hh'].
  assert (∀ i f, all_digits i → (i = [48] ∨ ∃ d r, i = d :: r ∧ d ≠ 48) →
          ∃ c r, i ++ fraction_text f = c :: r ∧ c ≠ 45) as Hhead.
  { intros i f Hi [->|(d & r & -> & _)]; [by eexists _, _|]. apply Forall_cons in Hi as [Hd _].
    eexists d, _. split; [done|]. by intros ->. }
  destruct (Hhead ip fp Hip Hh) as (c & r & Ec & ?), (Hhead ip' fp' Hip' Hh') as (c' & r' & Ec' & ?).
  assert (n = n' ∧ ip ++ fraction_text fp = ip' ++ fraction_text fp') as [-> Eq].
  { destruct n, n'; cbn [app] in E; change (u "-") with [45] in *; cbn [app] in E;
      rewrite ?Ec, ?Ec' in *; simplify_eq; done || (split; congruence). }
  pose proof (span_number ip fp Hip) as S1. pose proof (span_number ip' fp' Hip') as S2.
  rewrite Eq in S1. rewrite S1 in S2. injection S2 as -> Ef. split_and!; [done|done|].
  destruct fp, fp'; cbn [fraction_text] in Ef; congruence.
Qed.

(** The text of a number is canonical: two accepted decimals have the same
    text exactly when they are the same number, whatever their coefficients and
    exponents. *)
Theorem decimal_text_canonical d e t :
  decimal_text d = Ok t → (decimal_text e = Ok t ↔ dec_eq d e).
Proof.
  intros Ht. split; [|intros E; by rewrite <-(decimal_text_ext d e E)].
  intros Ht'. destruct (decimal_text_number d t Ht) as (n & ip & fp & Hn & Hv).
  destruct (decimal_text_number e t Ht') as (n' & ip' & fp' & Hn' & Hv').
  destruct (number_text_unique _ _ _ _ _ _ _ Hn Hn') as (-> & -> & ->).
  eapply dec_eq_trans; [by apply dec_eq_sym|done].
Qed.

Lemma decimal_text_canonical_witness :
  decimal_text (DFinite true 1500 (-3)) = Ok (u "-1.5") ↔
  dec_eq (DFinite true 15 (-1)) (DFinite true 1500 (-3)).
Proof. apply (decimal_text_canonical (DFinite true 15 (-1))). vm_compute. reflexivity. Defined.

(** The magnitude check compares a rounded magnitude: [abs] rounds to 28
    digits, so a number above [1e308] and a number below [1e-308] pass it. *)
Theorem decimal_range_is_rounded :
  (is_Ok (decimal_text (DFinite false (10 ^ 50 + 1) 258)) = true ∧
   dec_ltb MAX_DECIMAL (10 ^ 50 + 1, 258) = true) ∧
  (is_Ok (decimal_text (DFinite false (10 ^ 50 - 1) (-358))) = true ∧
   dec_ltb (10 ^ 50 - 1, -358) MIN_NONZERO_DECIMAL = true).
Proof. vm_compute. split; split; reflexivity. Qed.
