(* ===== verification/Unicode.v ===== *)
(** * Text: UTF-8 and normalization

    Models [str.encode("utf-8")], [bytes.decode("utf-8")] and [_nfc] of
    [_canonicalize.py].  The Unicode database is the third-party package
    [unicodedata2]; the class [UnicodeData] holds the two functions the code
    calls and the facts of the Unicode Standard it relies on. *)

From stdpp Require Import base list list_numbers numbers strings.
From S2P Require Import Prelude PyString Errors PyValue Decimal.
Open Scope Z_scope.

(** [normalize("NFC", s)] and [category(c)].  NFC is idempotent and leaves
    ASCII text alone; every ASCII character is assigned. *)
Class UnicodeData := {
  nfc_form : pystr → pystr;
  category : Z → string;
  nfc_form_idem s : nfc_form (nfc_form s) = nfc_form s;
  nfc_form_ascii s : Forall (λ c, 0 ≤ c < 128) s → nfc_form s = s;
  category_ascii c : 0 ≤ c < 128 → category c ≠ "Cn";
}.

(** ** UTF-8 *)

(** [None] is [UnicodeEncodeError]: a surrogate (or no code point at all). *)
Definition utf8_char (c : Z) : option pybytes :=
  if c <? 0 then None
  else if c <? 128 then Some [c]
  else if c <? 2048 then Some [192 + c / 64; 128 + c mod 64]
  else if (55296 <=? c) && (c <=? 57343) then None
  else if c <? 65536 then Some [224 + c / 4096; 128 + c / 64 mod 64; 128 + c mod 64]
  else if c <? 1114112 then
    Some [240 + c / 262144; 128 + c / 4096 mod 64; 128 + c / 64 mod 64; 128 + c mod 64]
  else None.

Fixpoint utf8_encode (s : pystr) : option pybytes :=
  match s with
  | [] => Some []
  | c :: s' => b ← utf8_char c; bs ← utf8_encode s'; Some (b ++ bs)
  end.

Definition is_cont (b : Z) : bool := (128 <=? b) && (b <=? 191).

(** Strict decoding of one character: shortest form, no surrogates. *)
Definition utf8_step (bs : pybytes) : option (Z * pybytes) :=
  match bs with
  | [] => None
  | a :: r =>
      if (0 <=? a) && (a <? 128) then Some (a, r)
      else if (194 <=? a) && (a <=? 223) then
        match r with
        | b :: r => if is_cont b then Some ((a - 192) * 64 + (b - 128), r) else None
        | _ => None
        end
      else if (224 <=? a) && (a <=? 239) then
        match r with
        | b :: c :: r =>
            let x := (a - 224) * 4096 + (b - 128) * 64 + (c - 128) in
            if is_cont b && is_cont c && (2048 <=? x) && negb ((55296 <=? x) && (x <=? 57343))
            then Some (x, r) else None
        | _ => None
        end
      else if (240 <=? a) && (a <=? 244) then
        match r with
        | b :: c :: d :: r =>
            let x := (a - 240) * 262144 + (b - 128) * 4096 + (c - 128) * 64 + (d - 128) in
            if is_cont b && is_cont c && is_cont d && (65536 <=? x) && (x <? 1114112)
            then Some (x, r) else None
        | _ => None
        end
      else None
  end.

Fixpoint utf8_decode_fuel (fuel : nat) (bs : pybytes) : option pystr :=
  match bs, fuel with
  | [], _ => Some []
  | _, O => None
  | _, S fuel => '(c, r) ← utf8_step bs; s ← utf8_decode_fuel fuel r; Some (c :: s)
  end.
Definition utf8_decode (bs : pybytes) : option pystr := utf8_decode_fuel (length bs) bs.

(** [len(s.encode("utf-8"))] of a string that is known to encode. *)
Definition utf8_length (s : pystr) : Z := from_option (λ b, Z.of_nat (length b)) 0 (utf8_encode s).

(** ** UTF-8 round trip *)
#[local] Ltac Zify.zify_post_hook ::= Z.div_mod_to_equations.

Ltac decide_Z :=
  repeat match goal with
  | |- context [?x <? ?y] =>
      first [rewrite (proj2 (Z.ltb_lt x y)) by lia | rewrite (proj2 (Z.ltb_ge x y)) by lia]
  | |- context [?x <=? ?y] =>
      first [rewrite (proj2 (Z.leb_le x y)) by lia | rewrite (proj2 (Z.leb_gt x y)) by lia]
  end.

Lemma utf8_char_step c b r : utf8_char c = Some b → utf8_step (b ++ r) = Some (c, r).
Proof.
  unfold utf8_char. intros Hc.
  repeat match type of Hc with (if ?t then _ else _) = _ => destruct t eqn:? end; simplify_eq;
    split_andb; inv_ok; refl_bool; cbn [app utf8_step]; unfold is_cont; decide_Z; cbn [andb negb];
    f_equal; f_equal; lia.
Qed.

Lemma utf8_char_nonempty c b : utf8_char c = Some b → b ≠ [].
Proof. unfold utf8_char. intros Hc. by repeat case_match; simplify_eq. Qed.

Lemma utf8_encode_cons c s b :
  utf8_encode (c :: s) = Some b ↔ ∃ x y, utf8_char c = Some x ∧ utf8_encode s = Some y ∧ b = x ++ y.
Proof. cbn. destruct (utf8_char c), (utf8_encode s); naive_solver. Qed.

Lemma utf8_decode_encode s b : utf8_encode s = Some b → utf8_decode b = Some s.
Proof.
  unfold utf8_decode. assert (∀ fuel, length b ≤ fuel → utf8_encode s = Some b →
    utf8_decode_fuel fuel b = Some s)%nat as Hall; [|eauto].
  revert b. induction s as [|c s IH]; intros b fuel Hf Hb; [simplify_eq/=; by destruct fuel|].
  apply utf8_encode_cons in Hb as (x & y & Hx & Hy & ->).
  pose proof (utf8_char_nonempty _ _ Hx). rewrite length_app in Hf.
  destruct x as [|x0 x]; [done|]. cbn [app length] in *. destruct fuel as [|fuel]; [lia|].
  cbn [utf8_decode_fuel]. change (x0 :: x ++ y) with ((x0 :: x) ++ y).
  rewrite (utf8_char_step c) by done. cbn. rewrite (IH y); [done|lia|done].
Qed.

Lemma utf8_encode_inj s t b : utf8_encode s = Some b → utf8_encode t = Some b → s = t.
Proof. intros Hs%utf8_decode_encode Ht%utf8_decode_encode. congruence. Qed.

Lemma utf8_encode_app s t b c :
  utf8_encode s = Some b → utf8_encode t = Some c → utf8_encode (s ++ t) = Some (b ++ c).
Proof.
  revert b. induction s as [|x s IH]; intros b; [by intros [= <-]|].
  intros (y & z & Hy & Hz & ->)%utf8_encode_cons Ht. cbn [app]. apply utf8_encode_cons.
  exists y, (z ++ c). rewrite <-app_assoc. auto.
Qed.

Lemma utf8_encode_nonneg s b : utf8_encode s = Some b → Forall (λ c, 0 ≤ c) s.
Proof.
  revert b. induction s as [|c s IH]; intros b Hb; [constructor|].
  apply utf8_encode_cons in Hb as (x & y & Hx & Hy & _). constructor; [|eauto].
  unfold utf8_char in Hx. destruct (c <? 0) eqn:E; [done|]. by refl_bool.
Qed.

Lemma utf8_encode_ascii s : Forall (λ c, 0 ≤ c < 128) s → utf8_encode s = Some s.
Proof.
  induction 1 as [|c s Hc _ IH]; [done|]. apply utf8_encode_cons. exists [c], s.
  split_and!; [|done|done]. unfold utf8_char. by decide_Z.
Qed.

(** ** [_nfc] *)
Definition MAX_STRING_BYTES : Z := 8192.

Section unicode.
Context `{UnicodeData}.

(** The checks [_nfc] makes on the text before and after normalization. *)
Definition check_text (code : string) (value : pystr) : py () :=
  match utf8_encode value with
  | None => cerr code
  | Some encoded =>
      raise_if (MAX_STRING_BYTES <? Z.of_nat (length encoded))
        (CanonicalizationError "string_too_large");;
      raise_if (existsb (λ c, String.eqb (category c) "Cn") value)
        (CanonicalizationError "unassigned_unicode")
  end.

Definition nfc (code : string) (value : pystr) : py pystr :=
  check_text code value;;
  let normalized := nfc_form value in
  check_text code normalized;;
  Ok normalized.

Lemma check_text_code code code' s : check_text code s = Ok () → check_text code' s = Ok ().
Proof. unfold check_text. by destruct (utf8_encode s). Qed.

Lemma nfc_Ok code s t :
  nfc code s = Ok t ↔ t = nfc_form s ∧ check_text code s = Ok () ∧ check_text code t = Ok ().
Proof.
  unfold nfc. split.
  - intros Ht. inv_ok. done.
  - intros (-> & -> & Ht). cbn. by rewrite Ht.
Qed.

(** A normalized string is accepted again, unchanged. *)
Lemma nfc_idem code code' s t : nfc code s = Ok t → nfc code' t = Ok t.
Proof.
  intros (-> & _ & Ht)%nfc_Ok. apply nfc_Ok. rewrite nfc_form_idem.
  eauto using check_text_code.
Qed.

Lemma nfc_craises code s : craises (nfc code s).
Proof. unfold nfc, check_text. solve_craises. Qed.

Lemma nfc_encodes code s t : nfc code s = Ok t → ∃ b, utf8_encode t = Some b.
Proof.
  intros (_ & _ & Ht)%nfc_Ok. unfold check_text in Ht. destruct (utf8_encode t); [eauto|done].
Qed.

Lemma check_text_ascii code s :
  Forall (λ c, 0 ≤ c < 128) s → Z.of_nat (length s) ≤ MAX_STRING_BYTES → check_text code s = Ok ().
Proof.
  intros Hs Hl. unfold check_text. rewrite utf8_encode_ascii by done. unfold raise_if.
  rewrite (proj2 (Z.ltb_ge _ _)) by done. cbn.
  destruct (existsb _ s) eqn:E; [|done]. apply existsb_exists in E as (c & Hc & E).
  apply String.eqb_eq in E. rewrite Forall_forall in Hs.
  by destruct (category_ascii c (Hs c (proj2 (list_elem_of_In _ _) Hc))).
Qed.

Lemma nfc_ascii code s :
  Forall (λ c, 0 ≤ c < 128) s → Z.of_nat (length s) ≤ MAX_STRING_BYTES → nfc code s = Ok s.
Proof. intros. apply nfc_Ok. rewrite nfc_form_ascii by done. auto using check_text_ascii. Qed.
End unicode.
#[export] Hint Resolve nfc_craises : craises.

(** A database in which every string is normalized and every character is
    assigned; it shows that the facts above can hold together. *)
Program Definition plain_unicode : UnicodeData := {| nfc_form := λ s, s; category := λ _, "Lo" |}.
Solve All Obligations with done.
