(* ===== verification/Structure.v ===== *)
(** * Structural validation of wire documents

    Models the validator of the generated module
    [python/src/palonexus/_generated/protocol.py]: the limits on values in
    memory, references between schemas, and [_validate], which interprets the
    schemas of [Schemas.v] on a JSON value.  The interpreter takes the schema as
    data, as the code does. *)

From stdpp Require Import base list list_numbers numbers strings.
From Stdlib Require Import QArith_base.
From S2P Require Import Prelude PyString Regex Errors Timestamp PyValue Schemas Decimal Unicode.
Open Scope Z_scope.

(** ** Errors *)
Definition wire_error (code : string) : exn := ProtocolStructureError (u code).
Definition schema_error (path keyword : pystr) : exn :=
  ProtocolStructureError (u "schema_invalid: " ++ path ++ u " (" ++ keyword ++ u ")").

(** ** Limits on values in memory *)
Definition MAX_WIRE_BYTES : Z := 65536.
Definition MAX_NESTING : Z := 32.
Definition MAX_NODES : Z := 4096.
Definition MAX_COLLECTION_ITEMS : Z := 1024.
Definition MAX_STRING_BYTES : Z := 8192.
Definition MAX_NUMERIC_TOKEN_BYTES : Z := 512.

(** [_utf8_length]. *)
Definition strict_utf8_length (value : pystr) : py Z :=
  match utf8_encode value with
  | Some bytes => Ok (Z.of_nat (length bytes))
  | None => Raise (wire_error "invalid_utf8")
  end.

Definition check_string (value : pystr) : py () :=
  n ← strict_utf8_length value;
  raise_if (MAX_STRING_BYTES <? n) (wire_error "string_too_large").

(** The loop over the members of a dict; the stack [pending] has its top first. *)
Fixpoint push_members (members : list (pystr * pyval)) (depth : Z) (pending : list (pyval * Z))
    : py (list (pyval * Z)) :=
  match members with
  | [] => Ok pending
  | (key, nested) :: members' =>
      check_string key;;
      push_members members' depth ((nested, depth + 1) :: pending)
  end.

(** The loop of [_validate_memory_limits], one value per iteration. *)
Fixpoint memory_loop (fuel : nat) (pending : list (pyval * Z)) (nodes : Z) : py () :=
  match pending, fuel with
  | [], _ => Ok ()
  | _, O => Raise RecursionError
  | (child, depth) :: pending, S fuel =>
      let nodes := nodes + 1 in
      raise_if (MAX_NODES <? nodes) (wire_error "node_limit_exceeded");;
      raise_if (MAX_NESTING <? depth) (wire_error "nesting_too_deep");;
      match child with
      | PDict d =>
          raise_if (MAX_COLLECTION_ITEMS <? Z.of_nat (length d)) (wire_error "collection_limit_exceeded");;
          pending' ← push_members d depth pending;
          memory_loop fuel pending' nodes
      | PList l =>
          raise_if (MAX_COLLECTION_ITEMS <? Z.of_nat (length l)) (wire_error "collection_limit_exceeded");;
          memory_loop fuel (rev ((λ nested, (nested, depth + 1)) <$> l) ++ pending) nodes
      | PStr s => check_string s;; memory_loop fuel pending nodes
      | _ => memory_loop fuel pending nodes
      end
  end.

(** The loop stops after [MAX_NODES + 1] values at the latest. *)
Definition validate_memory_limits (value : pyval) : py () :=
  memory_loop (S (Z.to_nat MAX_NODES)) [(value, 0)] 0.

(** ** References *)

(** [s.replace("~" + c, r)]. *)
Fixpoint replace_tilde (c r : Z) (s : pystr) : pystr :=
  match s with
  | 126 :: (d :: s') as s0 => if d =? c then r :: replace_tilde c r s' else 126 :: replace_tilde c r s0
  | x :: s' => x :: replace_tilde c r s'
  | [] => []
  end.

Definition invalid_reference : exn := wire_error "generated_schema_reference_invalid".

Fixpoint follow_pointer (value : pyval) (tokens : list pystr) : py pyval :=
  match tokens with
  | [] => Ok value
  | raw :: tokens' =>
      if bool_decide (raw = []) then follow_pointer value tokens'
      else
        let token := replace_tilde 48 126 (replace_tilde 49 47 raw) in
        match value with
        | PDict d => match assoc token d with
                     | Some v => follow_pointer v tokens'
                     | None => Raise invalid_reference
                     end
        | _ => Raise invalid_reference
        end
  end.

(** [_schema_pointer]. *)
Definition schema_pointer (document : pyval) (pointer : pystr) : py pyval :=
  value ← follow_pointer document (split_on 47 pointer);
  raise_if (negb (is_dict value)) invalid_reference;;
  Ok value.

(** [_resolve_ref]. *)
Definition resolve_ref (root : pyval) (ref : pystr) : py (pyval * pyval) :=
  '(target_root, fragment) ←
    (if startswith (u "#") ref then Ok (root, drop 1 ref)
     else match partition 35 ref with
          | None => Raise invalid_reference
          | Some (schema_id, fragment) =>
              match assoc schema_id SCHEMAS_BY_ID with
              | None => Raise invalid_reference
              | Some target_root => Ok (target_root, fragment)
              end
          end);
  target ← schema_pointer target_root fragment;
  Ok (target_root, target).

(** ** Formats *)

(** [_is_rfc3339]: the second [60] is accepted. *)
Definition is_rfc3339 (value : pystr) : bool :=
  match rfc3339_match value with
  | None => false
  | Some _ =>
      let seconds := int_of_digits (slice 17 19 value) in
      if 60 <? seconds then false
      else
        let base := take 17 value ++ (if seconds =? 60 then u "59" else slice 17 19 value) in
        match fromisoformat base with
        | None => false
        | Some _ =>
            let zone := if bool_decide (last value = Some 90) then u "+00:00"
                        else drop (length value - 6) value in
            if bool_decide (zone = u "+00:00") then true
            else
              let hour := int_of_digits (slice 1 3 zone) in
              let minute := int_of_digits (slice 4 6 zone) in
              negb ((23 <? hour) || (59 <? minute))
        end
  end.

(** [re.search(pattern, value) is not None]. *)
Definition re_search (pattern value : pystr) : py bool :=
  match compile pattern with
  | Some r => Ok (search r value)
  | None => Raise ReError
  end.

(** [a < b] on [int] and [Decimal]: a NaN raises [decimal.InvalidOperation]. *)
Definition num_lt (a b : xnum) : py bool :=
  match a, b with
  | XNaN, _ | _, XNaN => Raise DecimalException
  | XFin p, XFin q => Ok (negb (Qle_bool q p))
  | XInf negative, XFin _ => Ok negative
  | XFin _, XInf negative => Ok (negb negative)
  | XInf s, XInf t => Ok (s && negb t)
  end.

(** ** The interpreter

    One call of [_validate], split in the parts of its body; [rec] is the
    recursive call, on root, schema, value and path. *)
Definition dec_integral (d : pydec) : bool :=
  match d with
  | DFinite _ coef exp => (0 <=? exp) || (Z.of_N coef mod 10 ^ (- exp) =? 0)
  | _ => false
  end.
Definition dec_finite (d : pydec) : bool := match d with DFinite _ _ _ => true | _ => false end.

Definition type_valid (expected : option pyval) (value : pyval) : bool :=
  match expected with
  | None | Some PNone => true
  | Some e =>
      (eq_lit e "object" && is_dict value)
      || (eq_lit e "array" && match value with PList _ => true | _ => false end)
      || (eq_lit e "string" && is_str value)
      || (eq_lit e "boolean" && match value with PBool _ => true | _ => false end)
      || (eq_lit e "integer" && match value with PInt _ => true | PDec d => dec_integral d | _ => false end)
      || (eq_lit e "number" && match value with PInt _ => true | PDec d => dec_finite d | _ => false end)
  end.

Fixpoint for_each {A} (f : A → py ()) (xs : list A) : py () :=
  match xs with [] => Ok () | x :: xs' => f x;; for_each f xs' end.

Section step.
Variable rec : pyval → pyval → pyval → pystr → py ().
Variables root schema value : pyval.
Variable path : pystr.

(** [_matches]. *)
Definition matches_branch (branch : pyval) : py bool :=
  match rec root branch value path with
  | Ok _ => Ok true
  | Raise (ProtocolStructureError _) => Ok false
  | Raise e => Raise e
  end.
(** [isinstance(branch, dict) and _matches(...)]. *)
Definition branch_matches (branch : pyval) : py bool :=
  if is_dict branch then matches_branch branch else Ok false.
Fixpoint any_branch (branches : list pyval) : py bool :=
  match branches with [] => Ok false | b :: bs => branch_matches b <||> any_branch bs end.
Fixpoint count_branches (branches : list pyval) : py Z :=
  match branches with
  | [] => Ok 0
  | b :: bs => m ← branch_matches b; n ← count_branches bs; Ok ((if (m : bool) then 1 else 0) + n)
  end.

Definition validate_ref : py () :=
  match get schema "$ref" with
  | Some (PStr ref) => '(target_root, target) ← resolve_ref root ref; rec target_root target value path
  | _ => Ok ()
  end.

Definition validate_type : py () :=
  raise_if (negb (type_valid (get schema "type") value)) (schema_error path (u "type")).

Definition validate_literals : py () :=
  match get schema "const" with
  | Some c => raise_if (negb (py_eqb value c)) (schema_error path (u "const"))
  | None => Ok ()
  end;;
  match get schema "enum" with
  | Some (PList enum) => raise_if (negb (existsb (py_eqb value) enum)) (schema_error path (u "enum"))
  | _ => Ok ()
  end.

Definition validate_branches : py () :=
  match get schema "allOf" with
  | Some (PList all_of) =>
      for_each (λ branch, if is_dict branch then rec root branch value path else Ok ()) all_of
  | _ => Ok ()
  end;;
  match get schema "anyOf" with
  | Some (PList any_of) =>
      m ← any_branch any_of; raise_if (negb m) (schema_error path (u "anyOf"))
  | _ => Ok ()
  end;;
  match get schema "oneOf" with
  | Some (PList one_of) =>
      n ← count_branches one_of; raise_if (negb (n =? 1)) (schema_error path (u "oneOf"))
  | _ => Ok ()
  end;;
  match get schema "not" with
  | Some (PDict d) => m ← matches_branch (PDict d); raise_if m (schema_error path (u "not"))
  | _ => Ok ()
  end;;
  match get schema "if" with
  | Some (PDict d) =>
      m ← matches_branch (PDict d);
      match get schema (if (m : bool) then "then" else "else") with
      | Some (PDict branch) => rec root (PDict branch) value path
      | _ => Ok ()
      end
  | _ => Ok ()
  end.

Definition property_path (name : pystr) : pystr := path ++ u "." ++ name.

Definition validate_members (members : list (pystr * pyval)) : py () :=
  let properties := match get schema "properties" with Some (PDict d) => d | _ => [] end in
  for_each (λ '(name, child),
    match assoc name properties with
    | Some (PDict child_schema) => rec root (PDict child_schema) child (property_path name)
    | _ => match get schema "additionalProperties" with
           | Some (PBool false) =>
               Raise (schema_error (property_path name) (u "additionalProperties"))
           | Some (PDict additional) => rec root (PDict additional) child (property_path name)
           | _ => Ok ()
           end
    end) members.

Definition validate_object (members : list (pystr * pyval)) : py () :=
  match get schema "required" with
  | Some (PList required) =>
      for_each (λ name, match name with
                        | PStr s => raise_if (negb (bool_decide (s ∈ members.*1)))
                                      (schema_error path (u "required." ++ s))
                        | _ => Ok ()
                        end) required
  | _ => Ok ()
  end;;
  validate_members members;;
  match get schema "propertyNames" with
  | Some (PDict names) =>
      for_each (λ '(name, _), rec root (PDict names) (PStr name) (path ++ u ".<property>")) members
  | _ => Ok ()
  end;;
  match as_int (opt_val (get schema "maxProperties")) with
  | Ok maximum =>
      raise_if (maximum <? Z.of_nat (length members)) (schema_error path (u "maxProperties"))
  | _ => Ok ()
  end.

(** [str(index)] of a list index. *)
Definition index_text (n : nat) : pystr := if (n =? 0)%nat then u "0" else digits (Z.of_nat n).
Fixpoint validate_items (items : pyval) (index : nat) (elements : list pyval) : py () :=
  match elements with
  | [] => Ok ()
  | child :: elements' =>
      rec root items child (path ++ u "[" ++ index_text index ++ u "]");;
      validate_items items (S index) elements'
  end.

Definition validate_array (elements : list pyval) : py () :=
  match get schema "items" with
  | Some (PDict items) => validate_items (PDict items) 0 elements
  | _ => Ok ()
  end;;
  match as_int (opt_val (get schema "maxItems")) with
  | Ok maximum => raise_if (maximum <? Z.of_nat (length elements)) (schema_error path (u "maxItems"))
  | _ => Ok ()
  end.

Definition validate_string (text : pystr) : py () :=
  match as_int (opt_val (get schema "minLength")) with
  | Ok minimum => raise_if (Z.of_nat (length text) <? minimum) (schema_error path (u "minLength"))
  | _ => Ok ()
  end;;
  match as_int (opt_val (get schema "maxLength")) with
  | Ok maximum => raise_if (maximum <? Z.of_nat (length text)) (schema_error path (u "maxLength"))
  | _ => Ok ()
  end;;
  match get schema "pattern" with
  | Some (PStr pattern) =>
      m ← re_search pattern text; raise_if (negb m) (schema_error path (u "pattern"))
  | _ => Ok ()
  end;;
  raise_if (eq_lit (opt_val (get schema "format")) "date-time" && negb (is_rfc3339 text))
    (schema_error path (u "format")).

(** The bound of a schema, if it is an [int] or a [Decimal]. *)
Definition bound_of (key : string) : option xnum :=
  match get schema key with
  | Some (PFloat _) | None => None
  | Some v => num_of v
  end.

Definition validate_number (n : xnum) : py () :=
  match bound_of "minimum" with
  | Some minimum => c ← num_lt n minimum; raise_if c (schema_error path (u "minimum"))
  | None => Ok ()
  end;;
  match bound_of "maximum" with
  | Some maximum => c ← num_lt maximum n; raise_if c (schema_error path (u "maximum"))
  | None => Ok ()
  end.

Definition validate_step : py () :=
  validate_ref;;
  validate_type;;
  validate_literals;;
  validate_branches;;
  match value with
  | PDict members => validate_object members
  | PList elements => validate_array elements
  | PStr text => validate_string text
  | PInt _ | PDec _ => match num_of value with Some n => validate_number n | None => Ok () end
  | _ => Ok ()
  end.
End step.

(** [_validate]; running out of [fuel] is [RecursionError]. *)
Fixpoint validate (fuel : nat) (root schema value : pyval) (path : pystr) : py () :=
  match fuel with
  | O => Raise RecursionError
  | S fuel => validate_step (validate fuel) root schema value path
  end.

(** The default of [sys.getrecursionlimit()]. *)
Definition RECURSION_LIMIT : nat := 1000.

(** [_validate_document] and [_validate_fragment]. *)
Definition validate_document (kind : string) (value : pyval) : py pyval :=
  match assoc (u kind) SCHEMAS with
  | None => Raise (wire_error "unsupported_generated_document_kind")
  | Some schema =>
      raise_if (negb (is_dict value)) (schema_error (u "$") (u "type"));;
      validate_memory_limits value;;
      validate RECURSION_LIMIT schema schema value (u "$");;
      Ok value
  end.

Definition validate_fragment (kind pointer : string) (value : pyval) : py () :=
  validate_memory_limits value;;
  match assoc (u kind) SCHEMAS with
  | None => Raise KeyError
  | Some root =>
      schema ← schema_pointer root (u pointer);
      validate RECURSION_LIMIT root schema value (u "$")
  end.
