(* ===== verification/StructureFacts.v ===== *)
(** * Structural validation decides conformance

    [conforms] is the meaning of the schemas as a boolean function, without
    errors, paths and their order.  [validate_outcome] shows that [_validate]
    computes it: on every schema of the protocol, and for every value within the
    limits, the interpreter returns exactly when the value conforms and raises
    [ProtocolStructureError] otherwise; it never runs into the recursion limit.
    The limits on values in memory and the equality of JSON values follow. *)

From stdpp Require Import base list list_numbers numbers strings.
From Stdlib Require Import QArith_base.
From Stdlib Require Import QArith.
From S2P Require Import Prelude PyString Regex Errors Timestamp PyValue Schemas Decimal Unicode Structure.
Open Scope Z_scope.

(** ** The meaning of a schema *)
Definition opt_list (o : option pyval) : list pyval :=
  match o with Some (PList l) => l | _ => [] end.
Definition opt_dict (o : option pyval) : option pyval :=
  match o with Some (PDict d) => Some (PDict d) | _ => None end.
Definition opt_int (o : option pyval) : option Z :=
  match as_int (opt_val o) with Ok z => Some z | Raise _ => None end.
Definition Qltb (p q : Q) : bool := negb (Qle_bool q p).
Definition num_ltb (a b : xnum) : bool :=
  match a, b with
  | XFin p, XFin q => Qltb p q
  | XInf negative, XFin _ => negative
  | XFin _, XInf negative => negb negative
  | XInf s, XInf t => s && negb t
  | _, _ => false
  end.

Section conforms_step.
Variable rec : pyval → pyval → pyval → bool.
Variables root schema value : pyval.

Definition ref_conforms : bool :=
  match get schema "$ref" with
  | Some (PStr ref) =>
      match resolve_ref root ref with Ok (r, s) => rec r s value | Raise _ => false end
  | _ => true
  end.

Definition literals_conform : bool :=
  from_option (py_eqb value) true (get schema "const")
  && match get schema "enum" with Some (PList enum) => existsb (py_eqb value) enum | _ => true end.

Definition branch_conforms (branch : pyval) : bool := is_dict branch && rec root branch value.
Definition branches_conform : bool :=
  forallb (λ b, negb (is_dict b) || rec root b value) (opt_list (get schema "allOf"))
  && match get schema "anyOf" with Some (PList any_of) => existsb branch_conforms any_of | _ => true end
  && match get schema "oneOf" with
     | Some (PList one_of) => (length (filter (λ b, branch_conforms b = true) one_of) =? 1)%nat
     | _ => true
     end
  && from_option (λ s, negb (rec root s value)) true (opt_dict (get schema "not"))
  && match opt_dict (get schema "if") with
     | Some condition =>
         from_option (λ s, rec root s value) true
           (opt_dict (get schema (if rec root condition value then "then" else "else")))
     | None => true
     end.

Definition member_conforms (p : pystr * pyval) : bool :=
  match match get schema "properties" with Some (PDict d) => assoc p.1 d | _ => None end with
  | Some (PDict s) => rec root (PDict s) p.2
  | _ => match get schema "additionalProperties" with
         | Some (PBool b) => b
         | Some (PDict s) => rec root (PDict s) p.2
         | _ => true
         end
  end.

Definition object_conforms (members : list (pystr * pyval)) : bool :=
  forallb (λ n, match n with PStr s => bool_decide (s ∈ members.*1) | _ => true end)
    (opt_list (get schema "required"))
  && forallb member_conforms members
  && from_option (λ s, forallb (λ k, rec root s (PStr k)) members.*1) true
       (opt_dict (get schema "propertyNames"))
  && from_option (λ n, Z.of_nat (length members) <=? n) true (opt_int (get schema "maxProperties")).

Definition array_conforms (elements : list pyval) : bool :=
  from_option (λ s, forallb (rec root s) elements) true (opt_dict (get schema "items"))
  && from_option (λ n, Z.of_nat (length elements) <=? n) true (opt_int (get schema "maxItems")).

Definition string_conforms (text : pystr) : bool :=
  from_option (λ n, n <=? Z.of_nat (length text)) true (opt_int (get schema "minLength"))
  && from_option (λ n, Z.of_nat (length text) <=? n) true (opt_int (get schema "maxLength"))
  && match get schema "pattern" with
     | Some (PStr p) => from_option (λ r, search r text) false (compile p)
     | _ => true
     end
  && (negb (eq_lit (opt_val (get schema "format")) "date-time") || is_rfc3339 text).

Definition number_conforms (n : xnum) : bool :=
  from_option (λ b, negb (num_ltb n b)) true (bound_of schema "minimum")
  && from_option (λ b, negb (num_ltb b n)) true (bound_of schema "maximum").

Definition conforms_step : bool :=
  ref_conforms && type_valid (get schema "type") value && literals_conform && branches_conform
  && match value with
     | PDict members => object_conforms members
     | PList elements => array_conforms elements
     | PStr text => string_conforms text
     | PInt _ | PDec _ => from_option number_conforms true (num_of value)
     | _ => true
     end.
End conforms_step.

Fixpoint conforms (fuel : nat) (root schema value : pyval) : bool :=
  match fuel with O => false | S fuel => conforms_step (conforms fuel) root schema value end.

(** ** Outcomes

    The two ways a validation can end, and what the combinators do to them. *)
Definition outcome (m : py ()) (b : bool) : Prop :=
  if b then m = Ok () else ∃ message, m = Raise (ProtocolStructureError message).

Lemma outcome_raise_if c b message :
  c = negb b → outcome (raise_if c (ProtocolStructureError message)) b.
Proof. intros ->. destruct b; cbn; eauto. Qed.

Lemma outcome_seq m k b c : outcome m b → outcome k c → outcome (m;; k) (b && c).
Proof. destruct b; cbn; [by intros ->|]. intros [message ->] _. cbn. eauto. Qed.

Lemma outcome_Ok : outcome (Ok ()) true.
Proof. done. Qed.

Lemma outcome_for_each {A} (f : A → py ()) (g : A → bool) l :
  Forall (λ x, outcome (f x) (g x)) l → outcome (for_each f l) (forallb g l).
Proof. induction 1; cbn; [done|]. by apply outcome_seq. Qed.

Lemma outcome_is_Ok m b : outcome m b → is_Ok m = b.
Proof. destruct b; [by intros ->|]. by intros [message ->]. Qed.

Lemma outcome_det m b c : outcome m b → outcome m c → b = c.
Proof. intros <-%outcome_is_Ok <-%outcome_is_Ok. done. Qed.

(** ** Schemas on which the interpreter is total

    The subschemas that are applied to the same value, and those applied to the
    members of an object, to their names and to the elements of an array. *)
Definition dict_branches (o : option pyval) : list pyval := filter (λ b, is_dict b = true) (opt_list o).
Definition opt_branch (o : option pyval) : list pyval := option_list (opt_dict o).

Definition same_value (root schema : pyval) : list (pyval * pyval) :=
  match get schema "$ref" with
  | Some (PStr ref) => match resolve_ref root ref with Ok p => [p] | Raise _ => [] end
  | _ => []
  end ++
  ((λ s, (root, s)) <$>
    dict_branches (get schema "allOf") ++ dict_branches (get schema "anyOf") ++
    dict_branches (get schema "oneOf") ++ opt_branch (get schema "not") ++
    opt_branch (get schema "if") ++ opt_branch (get schema "then") ++ opt_branch (get schema "else")).

Definition child_schemas (root schema : pyval) : list (pyval * pyval) :=
  (λ s, (root, s)) <$>
    match get schema "properties" with Some (PDict d) => filter (λ s, is_dict s = true) d.*2 | _ => [] end
    ++ opt_branch (get schema "additionalProperties") ++ opt_branch (get schema "propertyNames")
    ++ opt_branch (get schema "items").

(** References resolve, patterns compile, and bounds are finite numbers. *)
Definition ref_ok (root schema : pyval) : bool :=
  match get schema "$ref" with
  | Some (PStr ref) => is_Ok (resolve_ref root ref)
  | _ => true
  end.
Definition pattern_ok (schema : pyval) : bool :=
  match get schema "pattern" with Some (PStr p) => bool_decide (is_Some (compile p)) | _ => true end.
Definition bound_ok (schema : pyval) (key : string) : bool :=
  match bound_of schema key with
  | None => true
  | Some (XFin _) => true
  | Some _ => false
  end.
Definition schema_ok (root schema : pyval) : bool :=
  ref_ok root schema && pattern_ok schema && bound_ok schema "minimum" && bound_ok schema "maximum".

(** The number of levels of lists and dicts. *)
Fixpoint height (v : pyval) : nat :=
  match v with
  | PList l => S (max_list (height <$> l))
  | PDict d => S ((fix go (d : list (pystr * pyval)) : nat :=
                     match d with [] => O | (_, x) :: d' => (height x `max` go d')%nat end) d)
  | _ => O
  end.

Lemma height_dict d : height (PDict d) = S (max_list (height <$> d.*2)).
Proof. cbn. f_equal. induction d as [|[k x] d IH]; cbn; [done|]. by rewrite IH. Qed.

Lemma max_list_elem x l : x ∈ l → (x ≤ max_list l)%nat.
Proof. induction 1; cbn; lia. Qed.

Lemma height_member d k x : (k, x) ∈ d → (height x < height (PDict d))%nat.
Proof.
  intros Hx. rewrite height_dict. apply Nat.lt_succ_r, max_list_elem, list_elem_of_fmap_2.
  change x with (k, x).2. by apply list_elem_of_fmap_2.
Qed.

Lemma height_element l x : x ∈ l → (height x < height (PList l))%nat.
Proof. intros Hx. apply Nat.lt_succ_r, max_list_elem. by apply list_elem_of_fmap_2. Qed.

(** No [Decimal("NaN")] anywhere: JSON text never denotes one. *)
Fixpoint no_nan (v : pyval) : bool :=
  match v with
  | PDec DNaN => false
  | PList l => forallb no_nan l
  | PDict d => (fix go (d : list (pystr * pyval)) : bool :=
                  match d with [] => true | (_, x) :: d' => no_nan x && go d' end) d
  | _ => true
  end.

Lemma no_nan_member d k x : no_nan (PDict d) = true → (k, x) ∈ d → no_nan x = true.
Proof.
  cbn. induction d as [|[k' y] d IH]; [by intros _ ?%elem_of_nil|].
  intros (Hy & Hd)%andb_true_iff [[= -> ->]|Hin]%elem_of_cons; auto.
Qed.

Lemma no_nan_element l x : no_nan (PList l) = true → x ∈ l → no_nan x = true.
Proof. cbn. rewrite forallb_Forall, Forall_forall. auto. Qed.

(** ** One call of the interpreter *)
Section step_outcome.
Variable rec : pyval → pyval → pyval → pystr → py ().
Variable sat : pyval → pyval → pyval → bool.
Variables root schema value : pyval.
Hypothesis Hsame : ∀ p path, p ∈ same_value root schema →
  outcome (rec p.1 p.2 value path) (sat p.1 p.2 value).
Hypothesis Hchild : ∀ p w path, p ∈ child_schemas root schema → (height w < height value)%nat →
  no_nan w = true → outcome (rec p.1 p.2 w path) (sat p.1 p.2 w).
Hypothesis Hnan : no_nan value = true.
Hypothesis Hok : schema_ok root schema = true.
Variable path : pystr.

Lemma branch_outcome b path' :
  b ∈ dict_branches (get schema "allOf") ++ dict_branches (get schema "anyOf") ++
      dict_branches (get schema "oneOf") ++ opt_branch (get schema "not") ++
      opt_branch (get schema "if") ++ opt_branch (get schema "then") ++ opt_branch (get schema "else") →
  outcome (rec root b value path') (sat root b value).
Proof.
  intros Hb. apply (Hsame (root, b)). apply elem_of_app. right.
  apply list_elem_of_fmap_2'  with b; done.
Qed.

Lemma ref_outcome : outcome (validate_ref rec root schema value path) (ref_conforms sat root schema value).
Proof.
  unfold schema_ok, ref_ok in Hok. unfold validate_ref, ref_conforms.
  destruct (get schema "$ref") as [[| | | | | |ref| |]|] eqn:E; try done.
  destruct (resolve_ref root ref) as [p|] eqn:Hr; [|done]. cbn.
  destruct p as [r s]. apply (Hsame (r, s)). unfold same_value. rewrite E, Hr. by left.
Qed.

Lemma literals_outcome :
  outcome (validate_literals schema value path) (literals_conform schema value).
Proof.
  apply outcome_seq.
  - destruct (get schema "const"); cbn; [|done]. by apply outcome_raise_if.
  - destruct (get schema "enum") as [[]|]; cbn; try done. by apply outcome_raise_if.
Qed.

Lemma matches_branch_Ok b c :
  outcome (rec root b value path) c → matches_branch rec root value path b = Ok c.
Proof. unfold matches_branch. destruct c; [by intros ->|]. by intros [message ->]. Qed.

Lemma any_branch_Ok l :
  (∀ b, b ∈ l → is_dict b = true → outcome (rec root b value path) (sat root b value)) →
  any_branch rec root value path l = Ok (existsb (branch_conforms sat root value) l).
Proof.
  unfold branch_conforms. induction l as [|b l IH]; intros Hl; cbn; [done|].
  rewrite IH by (intros; apply Hl; [by right|done]). unfold branch_matches.
  destruct (is_dict b) eqn:E; cbn; [|done].
  rewrite (matches_branch_Ok b _ (Hl b (list_elem_of_here _ _) E)). cbn. by destruct (sat _ _ _).
Qed.

Lemma count_branches_Ok l :
  (∀ b, b ∈ l → is_dict b = true → outcome (rec root b value path) (sat root b value)) →
  count_branches rec root value path l
  = Ok (Z.of_nat (length (filter (λ b, branch_conforms sat root value b = true) l))).
Proof.
  unfold branch_conforms. induction l as [|b l IH]; intros Hl; [done|]. cbn [count_branches].
  rewrite IH by (intros; apply Hl; [by right|done]). unfold branch_matches. rewrite filter_cons.
  destruct (is_dict b) eqn:E; cbn; [|done].
  rewrite (matches_branch_Ok b _ (Hl b (list_elem_of_here _ _) E)). cbn.
  destruct (sat root b value); [|done]. rewrite decide_True by done. cbn [length]. f_equal. lia.
Qed.

Lemma dict_branch_elem b o : b ∈ opt_list o → is_dict b = true → b ∈ dict_branches o.
Proof. intros. by apply list_elem_of_filter. Qed.

Lemma branches_outcome :
  outcome (validate_branches rec root schema value path) (branches_conform sat root schema value).
Proof.
  unfold validate_branches, branches_conform. rewrite <-!andb_assoc.
  pose proof branch_outcome as Hb. setoid_rewrite elem_of_app in Hb. setoid_rewrite elem_of_app in Hb.
  setoid_rewrite elem_of_app in Hb. setoid_rewrite elem_of_app in Hb.
  setoid_rewrite elem_of_app in Hb. setoid_rewrite elem_of_app in Hb.
  apply outcome_seq; [|apply outcome_seq; [|apply outcome_seq; [|apply outcome_seq]]].
  - destruct (get schema "allOf") as [[| | | | | | |l|]|]; try done. apply outcome_for_each, Forall_forall.
    intros b Hl. destruct (is_dict b) eqn:E; cbn; [|done]. apply Hb. left. by apply dict_branch_elem.
  - destruct (get schema "anyOf") as [[| | | | | | |l|]|]; try done. rewrite any_branch_Ok.
    { by apply outcome_raise_if. }
    intros b Hl E. apply Hb. right. left. by apply dict_branch_elem.
  - destruct (get schema "oneOf") as [[| | | | | | |l|]|]; try done. rewrite count_branches_Ok.
    { apply outcome_raise_if. f_equal. apply eq_true_iff_eq. rewrite Z.eqb_eq, Nat.eqb_eq. lia. }
    intros b Hl E. apply Hb. do 2 right. left. by apply dict_branch_elem.
  - destruct (get schema "not") as [[| | | | | | | |d]|]; try done. cbn.
    rewrite (matches_branch_Ok _ (sat root (PDict d) value)); [cbn; apply outcome_raise_if; by destruct (sat _ _ _)|].
    apply Hb. do 3 right. left. by left.
  - destruct (get schema "if") as [[| | | | | | | |d]|]; try done. cbn.
    rewrite (matches_branch_Ok _ (sat root (PDict d) value)); [|apply Hb; do 4 right; left; by left].
    cbn. destruct (sat root (PDict d) value).
    + destruct (get schema "then") as [[]|]; try done. apply Hb. do 5 right. left. by left.
    + destruct (get schema "else") as [[]|]; try done. apply Hb. do 6 right. by left.
Qed.
Lemma child_outcome s w path' :
  s ∈ (match get schema "properties" with Some (PDict d) => filter (λ s, is_dict s = true) d.*2 | _ => [] end
       ++ opt_branch (get schema "additionalProperties") ++ opt_branch (get schema "propertyNames")
       ++ opt_branch (get schema "items")) →
  (height w < height value)%nat → no_nan w = true → outcome (rec root s w path') (sat root s w).
Proof. intros Hs. apply (Hchild (root, s)). by apply list_elem_of_fmap_2' with s. Qed.

Lemma opt_int_outcome o (c f : Z → bool) message :
  (∀ n, c n = negb (f n)) →
  outcome (match as_int (opt_val o) with
           | Ok n => raise_if (c n) (ProtocolStructureError message)
           | Raise _ => Ok ()
           end) (from_option f true (opt_int o)).
Proof. intros. unfold opt_int. destruct (as_int _); cbn; [|done]. by apply outcome_raise_if. Qed.

Lemma members_outcome d :
  value = PDict d → outcome (validate_members rec root schema path d) (forallb (member_conforms sat root schema) d).
Proof.
  intros E. apply outcome_for_each, Forall_forall. intros [k x] Hk.
  pose proof (height_member _ _ _ Hk) as Hx. rewrite <-E in Hx.
  assert (no_nan x = true) as Hn by (rewrite E in Hnan; by eapply no_nan_member). unfold member_conforms. cbn [fst snd].
  assert (∀ s p, assoc k (match get schema "properties" with Some (PDict d) => d | _ => [] end)
                 = Some (PDict s) → outcome (rec root (PDict s) x p) (sat root (PDict s) x)) as Hprop.
  { intros s p Ha. apply child_outcome; [|done..]. apply elem_of_app. left.
    destruct (get schema "properties") as [[]|]; try done.
    apply list_elem_of_filter. split; [done|]. apply assoc_elem in Ha. by apply list_elem_of_fmap_2' with (k, PDict s). }
  assert (outcome (match get schema "additionalProperties" with
           | Some (PBool false) => Raise (schema_error (property_path path k) (u "additionalProperties"))
           | Some (PDict additional) => rec root (PDict additional) x (property_path path k)
           | _ => Ok () end)
          (match get schema "additionalProperties" with
           | Some (PBool b) => b | Some (PDict s) => sat root (PDict s) x | _ => true end)) as Hadd.
  { destruct (get schema "additionalProperties") as [[| |[]| | | | | |s]|] eqn:Es; cbn; eauto.
    apply child_outcome; [|done..]. rewrite !elem_of_app, Es. right. left. by left. }
  destruct (get schema "properties") as [[| | | | | | | |ps]|]; try exact Hadd.
  destruct (assoc k ps) as [[| | | | | | | |s]|]; try exact Hadd. by apply Hprop.
Qed.

Lemma object_outcome d :
  value = PDict d → outcome (validate_object rec root schema path d) (object_conforms sat root schema d).
Proof.
  intros E. unfold validate_object, object_conforms. rewrite <-!andb_assoc.
  apply outcome_seq; [|apply outcome_seq; [by apply members_outcome|apply outcome_seq]].
  - destruct (get schema "required") as [[| | | | | | |l|]|]; try done. apply outcome_for_each, Forall_forall.
    intros [] _; try done. by apply outcome_raise_if.
  - destruct (get schema "propertyNames") as [[| | | | | | | |names]|] eqn:En; try done. cbn.
    rewrite forallb_fmap. apply outcome_for_each, Forall_forall. intros [k x] Hk. cbn.
    apply child_outcome; [|rewrite E, height_dict; cbn; lia|done].
    rewrite !elem_of_app, En. do 2 right. left. by left.
  - apply (opt_int_outcome _ (λ n, n <? Z.of_nat (length d))). intros. apply Z.ltb_antisym.
Qed.

Lemma items_outcome s n l :
  (∀ x p, x ∈ l → outcome (rec root s x p) (sat root s x)) →
  outcome (validate_items rec root path s n l) (forallb (sat root s) l).
Proof.
  revert n. induction l as [|x l IH]; intros n Hl; cbn; [done|].
  apply outcome_seq; [apply Hl; by left|]. apply IH. intros. apply Hl. by right.
Qed.

Lemma array_outcome l :
  value = PList l → outcome (validate_array rec root schema path l) (array_conforms sat root schema l).
Proof.
  intros E. apply outcome_seq.
  - destruct (get schema "items") as [[| | | | | | | |s]|] eqn:Es; try done. apply items_outcome.
    intros x p Hx. rewrite E in Hnan.
    apply child_outcome; [|rewrite E; by apply height_element|by eapply no_nan_element].
    rewrite !elem_of_app, Es. do 3 right. by left.
  - apply (opt_int_outcome _ (λ n, n <? Z.of_nat (length l))). intros. apply Z.ltb_antisym.
Qed.

Lemma string_outcome text : outcome (validate_string schema path text) (string_conforms schema text).
Proof.
  unfold validate_string, string_conforms. rewrite <-!andb_assoc.
  apply outcome_seq; [|apply outcome_seq; [|apply outcome_seq]].
  - apply (opt_int_outcome _ (λ n, Z.of_nat (length text) <? n)). intros. apply Z.ltb_antisym.
  - apply (opt_int_outcome _ (λ n, n <? Z.of_nat (length text))). intros. apply Z.ltb_antisym.
  - unfold schema_ok, pattern_ok in Hok. inv_ok.
    destruct (get schema "pattern") as [[| | | | | |p| |]|]; try done. refl_bool.
    unfold re_search. destruct (compile p) as [r|]; [|by destruct Hok2]. cbn. by apply outcome_raise_if.
  - apply outcome_raise_if. by rewrite negb_orb, negb_involutive.
Qed.

Lemma num_lt_Ok a b : a ≠ XNaN → b ≠ XNaN → num_lt a b = Ok (num_ltb a b).
Proof. destruct a, b; try done. Qed.

Lemma bound_outcome key message a (f : xnum → xnum * xnum) :
  bound_ok schema key = true → a ≠ XNaN → (∀ b, f b = (a, b) ∨ f b = (b, a)) →
  outcome (match bound_of schema key with
           | Some b => c ← num_lt (f b).1 (f b).2; raise_if c (ProtocolStructureError message)
           | None => Ok ()
           end) (from_option (λ b, negb (num_ltb (f b).1 (f b).2)) true (bound_of schema key)).
Proof.
  unfold bound_ok. intros Hb Ha Hf. destruct (bound_of schema key) as [b|]; [|done].
  destruct b as [q| |]; try done. cbn [from_option].
  rewrite num_lt_Ok by (destruct (Hf (XFin q)) as [-> | ->]; done).
  apply outcome_raise_if. by rewrite negb_involutive.
Qed.

Lemma number_outcome n :
  n ≠ XNaN → outcome (validate_number schema path n) (number_conforms schema n).
Proof.
  intros Hn. unfold schema_ok in Hok. inv_ok. apply outcome_seq.
  - apply (bound_outcome _ _ n (λ b, (n, b))); auto.
  - apply (bound_outcome _ _ n (λ b, (b, n))); auto.
Qed.

Lemma step_outcome :
  outcome (validate_step rec root schema value path) (conforms_step sat root schema value).
Proof.
  unfold validate_step, conforms_step. rewrite <-!andb_assoc.
  apply outcome_seq; [apply ref_outcome|]. apply outcome_seq; [by apply outcome_raise_if|].
  apply outcome_seq; [apply literals_outcome|].
  apply outcome_seq; [apply branches_outcome|].
  pose proof array_outcome as Ha. pose proof object_outcome as Ho.
  destruct value as [| | | | |d| | |]; try done.
  - by apply number_outcome.
  - destruct d; by apply number_outcome.
  - apply string_outcome.
  - by apply Ha.
  - by apply Ho.
Qed.
End step_outcome.

(** ** The interpreter is total

    [rank n root schema]: the branches and references of the schema nest at most
    [n] levels before a member of the value is reached; the schemas of the
    members have rank [K]. *)
Record ranking (K : nat) (rank : nat → pyval → pyval → Prop) : Prop := Ranking {
  rank_step n root schema :
    rank n root schema → ∃ m, n = S m ∧ schema_ok root schema = true ∧
      (∀ p, p ∈ child_schemas root schema → rank K p.1 p.2) ∧
      ∀ p, p ∈ same_value root schema → rank m p.1 p.2
}.

Lemma validate_outcome_of K rank fuel n root schema value path :
  ranking K rank → rank n root schema → no_nan value = true → (height value * K + n ≤ fuel)%nat →
  outcome (validate fuel root schema value path) (conforms fuel root schema value).
Proof.
  intros [Hstep]. revert n root schema value path.
  induction fuel as [|fuel IH]; intros n root schema value path Hr Hn Hf;
    apply Hstep in Hr as (m & -> & Hok & Hc & Hs); [lia|].
  apply step_outcome; [..|done|done].
  - intros p path' Hp. apply (IH m); [auto..|lia].
  - intros p w path' Hp Hw Hwn. apply (IH K); [auto..|]. nia.
Qed.

(** ** The limits on values in memory

    [_validate_memory_limits] walks a value with an explicit stack.
    [memory_limits_outcome] shows what it decides: the value is within the depth,
    size and text limits everywhere and has at most [MAX_NODES] values; the loop
    ends on every value. *)

Definition text_ok (s : pystr) : bool :=
  match utf8_encode s with
  | Some bytes => Z.of_nat (length bytes) <=? MAX_STRING_BYTES
  | None => false
  end.

(** The limits that hold at every value, of which the outermost is at [depth]. *)
Fixpoint sized (v : pyval) (depth : Z) {struct v} : bool :=
  (depth <=? MAX_NESTING) &&
  match v with
  | PDict d =>
      (Z.of_nat (length d) <=? MAX_COLLECTION_ITEMS) && forallb text_ok d.*1
      && (fix go (d : list (pystr * pyval)) : bool :=
            match d with [] => true | (_, x) :: d' => sized x (depth + 1) && go d' end) d
  | PList l =>
      (Z.of_nat (length l) <=? MAX_COLLECTION_ITEMS) && forallb (λ x, sized x (depth + 1)) l
  | PStr s => text_ok s
  | _ => true
  end.

(** The number of values. *)
Fixpoint node_count (v : pyval) : Z :=
  match v with
  | PList l => 1 + foldr Z.add 0 (node_count <$> l)
  | PDict d => 1 + (fix go (d : list (pystr * pyval)) : Z :=
                      match d with [] => 0 | (_, x) :: d' => node_count x + go d' end) d
  | _ => 1
  end.

Definition within_limits (v : pyval) : bool := sized v 0 && (node_count v <=? MAX_NODES).

(** ** Unfolding *)
Lemma sized_dict d depth :
  sized (PDict d) depth =
  (depth <=? MAX_NESTING) && ((Z.of_nat (length d) <=? MAX_COLLECTION_ITEMS) && forallb text_ok d.*1
  && forallb (λ x, sized x (depth + 1)) d.*2).
Proof.
  cbn [sized]. f_equal. f_equal. induction d as [|[k x] d IH]; [done|]. cbn. by rewrite IH.
Qed.
Lemma node_count_dict d : node_count (PDict d) = 1 + foldr Z.add 0 (node_count <$> d.*2).
Proof. cbn [node_count]. f_equal. induction d as [|[k x] d IH]; [done|]. cbn. by rewrite IH. Qed.

Lemma node_count_pos v : 1 ≤ node_count v.
Proof.
  assert (∀ l, Forall (λ v, 1 ≤ node_count v) l → 0 ≤ foldr Z.add 0 (node_count <$> l)) as Hsum.
  { induction 1; cbn; lia. }
  induction v as [| | | | | | |l IH|d IH] using pyval_ind'; try (cbn; lia).
  - cbn. specialize (Hsum l IH). lia.
  - rewrite node_count_dict. specialize (Hsum d.*2). rewrite Forall_fmap in Hsum. specialize (Hsum IH). lia.
Qed.

(** ** The loop *)
Definition total_nodes (pending : list (pyval * Z)) : Z := foldr Z.add 0 ((λ p, node_count p.1) <$> pending).
Definition all_sized (pending : list (pyval * Z)) : bool := forallb (λ p, sized p.1 p.2) pending.

Lemma total_nodes_nonneg pending : 0 ≤ total_nodes pending.
Proof.
  unfold total_nodes. induction pending as [|p pending IH]; cbn; [lia|].
  pose proof (node_count_pos p.1). lia.
Qed.

Lemma push_members_spec d depth pending :
  push_members d depth pending =
    Ok (rev ((λ x, (x, depth + 1)) <$> d.*2) ++ pending) ∧ forallb text_ok d.*1 = true ∨
  (∃ message, push_members d depth pending = Raise (ProtocolStructureError message))
    ∧ forallb text_ok d.*1 = false.
Proof.
  revert pending. induction d as [|[k x] d IH]; intros pending; [by left|].
  cbn [push_members fmap list_fmap fst snd forallb]. unfold check_string, strict_utf8_length, text_ok at 1 3.
  destruct (utf8_encode k) as [bytes|]; cbn; [|right; eauto].
  rewrite Z.ltb_antisym. destruct (Z.of_nat (length bytes) <=? MAX_STRING_BYTES); cbn; [|right; eauto].
  destruct (IH ((x, depth + 1) :: pending)) as [[-> ?]|?]; [|by right].
  left. by rewrite <-app_assoc.
Qed.

Lemma pushed_sums l depth pending :
  total_nodes (rev ((λ x, (x, depth)) <$> l) ++ pending)
  = foldr Z.add 0 (node_count <$> l) + total_nodes pending ∧
  all_sized (rev ((λ x, (x, depth)) <$> l) ++ pending)
  = forallb (λ x, sized x depth) l && all_sized pending.
Proof.
  unfold total_nodes, all_sized. revert pending. induction l as [|x l IH]; intros pending; [done|].
  cbn. rewrite <-!app_assoc. destruct (IH ([(x, depth)] ++ pending)) as [-> ->]. cbn.
  split; [lia|]. by rewrite andb_assoc, (andb_comm (forallb _ l)).
Qed.

Lemma memory_loop_outcome fuel pending nodes :
  Z.of_nat fuel = MAX_NODES + 1 - nodes → nodes ≤ MAX_NODES →
  outcome (memory_loop fuel pending nodes)
    (all_sized pending && (nodes + total_nodes pending <=? MAX_NODES)).
Proof.
  revert pending nodes. induction fuel as [|fuel IH]; intros [|[child depth] pending] nodes Hf Hn.
  1, 3: change (total_nodes []) with 0; by rewrite (proj2 (Z.leb_le _ _)) by lia.
  { lia. }
  cbn [memory_loop]. pose proof (node_count_pos child). pose proof (total_nodes_nonneg pending).
  change (all_sized ((child, depth) :: pending)) with (sized child depth && all_sized pending).
  change (total_nodes ((child, depth) :: pending)) with (node_count child + total_nodes pending).
  destruct (decide (MAX_NODES < nodes + 1)) as [Hlt|Hge].
  { rewrite (proj2 (Z.ltb_lt _ _) Hlt), (proj2 (Z.leb_gt _ _)), andb_false_r by lia. cbn. eauto. }
  rewrite (proj2 (Z.ltb_ge MAX_NODES (nodes + 1))) by lia. cbn [raise_if mbind result_bind].
  assert (∀ pending' b, outcome (memory_loop fuel pending' (nodes + 1))
    (all_sized pending' && (nodes + 1 + total_nodes pending' <=? MAX_NODES)) →
    all_sized pending' = b && all_sized pending →
    node_count child + total_nodes pending = 1 + total_nodes pending' →
    outcome (memory_loop fuel pending' (nodes + 1))
      (b && all_sized pending && (nodes + (node_count child + total_nodes pending) <=? MAX_NODES))) as Hgo.
  { intros pending' b Ho <- ->. by rewrite Z.add_assoc. }
  assert (∀ pending', outcome (memory_loop fuel pending' (nodes + 1))
    (all_sized pending' && (nodes + 1 + total_nodes pending' <=? MAX_NODES))) as Hrec.
  { intros. apply IH; lia. }
  assert (∀ b c d e, b && c && d && e = b && (c && d && e)) as Hassoc by (by intros [] [] [] []).
  destruct child as [| | | | | |s|l|d].
  all: try (cbn [sized]; rewrite Hassoc; apply outcome_seq; [apply outcome_raise_if, Z.ltb_antisym|];
            by apply Hgo).
  - cbn [sized]. rewrite Hassoc. apply outcome_seq; [apply outcome_raise_if, Z.ltb_antisym|].
    unfold text_ok, check_string, strict_utf8_length.
    destruct (utf8_encode s) as [bytes|]; cbn [mbind result_bind]; [|cbn; eauto].
    rewrite <-andb_assoc. apply outcome_seq; [apply outcome_raise_if, Z.ltb_antisym|].
    specialize (Hgo pending true (Hrec _)). by apply Hgo.
  - cbn [sized]. rewrite Hassoc. apply outcome_seq; [apply outcome_raise_if, Z.ltb_antisym|].
    rewrite Hassoc. apply outcome_seq; [apply outcome_raise_if, Z.ltb_antisym|].
    destruct (pushed_sums l (depth + 1) pending) as [Hs Ha]. apply Hgo; [done|done|]. rewrite Hs. cbn. lia.
  - rewrite sized_dict, Hassoc. apply outcome_seq; [apply outcome_raise_if, Z.ltb_antisym|].
    rewrite <-andb_assoc, Hassoc. apply outcome_seq; [apply outcome_raise_if, Z.ltb_antisym|].
    destruct (push_members_spec d depth pending) as [[-> ->]|[[message ->] ->]]; [|cbn; eauto].
    destruct (pushed_sums d.*2 (depth + 1) pending) as [Hs Ha]. cbn [andb mbind result_bind].
    rewrite andb_assoc. apply Hgo; [done|done|]. rewrite Hs, node_count_dict. lia.
Qed.

Lemma memory_limits_outcome v : outcome (validate_memory_limits v) (within_limits v).
Proof.
  unfold validate_memory_limits, within_limits.
  pose proof (memory_loop_outcome (S (Z.to_nat MAX_NODES)) [(v, 0)] 0) as Ho.
  cbn [all_sized forallb fst snd] in Ho. unfold total_nodes in Ho. cbn [fmap list_fmap fst foldr] in Ho.
  rewrite andb_true_r, Z.add_0_r in Ho. apply Ho; unfold MAX_NODES; lia.
Qed.

(** ** Consequences *)
Lemma sized_height v depth :
  sized v depth = true → depth + Z.of_nat (height v) ≤ MAX_NESTING + 1.
Proof.
  assert (∀ depth l, depth ≤ MAX_NESTING → Forall (λ x, ∀ depth, sized x depth = true →
    depth + Z.of_nat (height x) ≤ MAX_NESTING + 1) l →
    forallb (λ x, sized x (depth + 1)) l = true →
    depth + Z.of_nat (S (max_list (height <$> l))) ≤ MAX_NESTING + 1) as Hl.
  { intros dp l Hd HF. induction HF as [|x l Hx _ IH]; cbn; [lia|].
    intros (Hx' & Hl)%andb_true_iff. specialize (Hx _ Hx'). specialize (IH Hl). cbn in IH. lia. }
  revert depth. induction v as [| | | | | | |l IH|d IH] using pyval_ind'; intros depth.
  all: try (cbn [sized height]; intros (Hd & _)%andb_true_iff; apply Z.leb_le in Hd; lia).
  - cbn [sized]. intros (Hd & (_ & Hx)%andb_true_iff)%andb_true_iff. apply Z.leb_le in Hd.
    by apply Hl.
  - rewrite sized_dict, height_dict. intros (Hd & (_ & Hx)%andb_true_iff)%andb_true_iff.
    apply Z.leb_le in Hd. apply Hl; [done|by rewrite Forall_fmap|done].
Qed.

Lemma within_limits_height v : within_limits v = true → (height v ≤ 33)%nat.
Proof.
  intros (Hs & _)%andb_true_iff. apply sized_height in Hs. unfold MAX_NESTING in Hs. lia.
Qed.

(** ** Equal documents

    Two JSON values are the same document when they differ only in the order of
    the members of objects and in the Python type of numbers ([3] and
    [Decimal("3.0")]).  Everything the structural validation looks at respects
    this relation. *)

Definition is_number (v : pyval) : bool := match v with PInt _ | PDec _ => true | _ => false end.

Unset Elimination Schemes.
Inductive json_equiv : pyval → pyval → Prop :=
| equiv_same v : json_equiv v v
| equiv_number v w x y :
    is_number v = true → is_number w = true →
    num_of v = Some (XFin x) → num_of w = Some (XFin y) → (x == y)%Q → json_equiv v w
| equiv_list l k : Forall2 json_equiv l k → json_equiv (PList l) (PList k)
| equiv_dict d e f :
    Forall2 (λ p q, p.1 = q.1 ∧ json_equiv p.2 q.2) d e → e ≡ₚ f → NoDup f.*1 →
    json_equiv (PDict d) (PDict f).
Set Elimination Schemes.

Lemma json_equiv_ind (P : pyval → pyval → Prop) :
  (∀ v, P v v) →
  (∀ v w x y, is_number v = true → is_number w = true →
     num_of v = Some (XFin x) → num_of w = Some (XFin y) → (x == y)%Q → P v w) →
  (∀ l k, Forall2 (λ v w, json_equiv v w ∧ P v w) l k → P (PList l) (PList k)) →
  (∀ d e f, Forall2 (λ p q, p.1 = q.1 ∧ json_equiv p.2 q.2 ∧ P p.2 q.2) d e → e ≡ₚ f → NoDup f.*1 →
     P (PDict d) (PDict f)) →
  ∀ v w, json_equiv v w → P v w.
Proof.
  intros H1 H2 H3 H4. fix IH 3. intros v w [v'|v' w' x y ? ? ? ? ?|l k Hl|d e f Hd Hp Hn].
  - apply H1.
  - by eapply H2.
  - apply H3. induction Hl; constructor; auto.
  - eapply H4; [|done..]. clear Hp Hn. induction Hd as [|p q d e [? ?]]; constructor; auto.
Qed.

#[global] Instance json_equiv_refl : Reflexive json_equiv := equiv_same.

(** The members of equal objects, key by key. *)
Lemma equiv_keys d e :
  Forall2 (λ p q : pystr * pyval, p.1 = q.1 ∧ json_equiv p.2 q.2) d e → d.*1 = e.*1.
Proof. induction 1 as [|p q d e [? _] _ IH]; cbn; congruence. Qed.

Lemma assoc_Forall2 (R : pyval → pyval → Prop) k (d e : list (pystr * pyval)) :
  Forall2 (λ p q, p.1 = q.1 ∧ R p.2 q.2) d e → option_Forall2 R (assoc k d) (assoc k e).
Proof.
  induction 1 as [|[k1 x] [k2 y] d e [Hk Hr] _ IH]; [constructor|]. cbn in *. subst k2.
  case_decide; [by constructor|done].
Qed.

Lemma assoc_perm {A} k (d e : list (pystr * A)) : d ≡ₚ e → NoDup e.*1 → assoc k d = assoc k e.
Proof.
  intros Hp Hn. assert (NoDup d.*1) by (by rewrite Hp).
  destruct (assoc k e) as [x|] eqn:E.
  - apply elem_assoc; [done|]. rewrite Hp. by apply assoc_elem.
  - destruct (assoc k d) as [x|] eqn:E'; [|done]. apply assoc_elem in E'. rewrite Hp in E'.
    apply elem_assoc in E'; [congruence|done].
Qed.

(** ** Equality with a constant of a schema *)
Lemma num_eqb_compat x y c : (x == y)%Q → num_eqb (XFin x) c = num_eqb (XFin y) c.
Proof. intros E. destruct c; cbn; [|done..]. apply eq_true_iff_eq. by rewrite !Qeq_bool_iff, E. Qed.

Lemma py_eqb_number v c :
  is_number v = true →
  py_eqb v c = match num_of v, num_of c with Some x, Some y => num_eqb x y | _, _ => false end.
Proof. by destruct v, c. Qed.

Definition eq_members (d e : list (pystr * pyval)) : bool :=
  forallb (λ p, from_option (py_eqb p.2) false (assoc p.1 e)) d.
Lemma py_eqb_dict d e : py_eqb (PDict d) (PDict e) = (length d =? length e)%nat && eq_members d e.
Proof.
  cbn. f_equal. unfold eq_members. induction d as [|[k x] d IH]; cbn; [done|]. rewrite IH.
  by destruct (assoc k e).
Qed.

Lemma forallb_perm {A} (f : A → bool) l k : l ≡ₚ k → forallb f l = forallb f k.
Proof. intros Hp. apply eq_true_iff_eq. by rewrite !forallb_Forall, Hp. Qed.

Lemma py_eqb_compat v w c : json_equiv v w → py_eqb v c = py_eqb w c.
Proof.
  intros H. revert c. induction H as [| v w x y Hv Hw Ex Ey E|l k HF|d e f HF Hp Hn] using json_equiv_ind;
    intros c; [done|..].
  - rewrite !py_eqb_number, Ex, Ey by done. destruct (num_of c); [by apply num_eqb_compat|done].
  - destruct c as [| | | | | | |m|]; try done. revert m.
    induction HF as [|v w l k [_ Hv] _ IH]; intros [|x m]; try done. cbn in *. by rewrite Hv, IH.
  - destruct c as [| | | | | | | |m]; try done. rewrite !py_eqb_dict. f_equal.
    { by rewrite (Forall2_length _ _ _ HF), Hp. }
    transitivity (eq_members e m); [|by apply forallb_perm]. clear Hp Hn. unfold eq_members.
    induction HF as [|p q d e (Hk & _ & Hx) _ IH]; [done|]. cbn. rewrite IH, Hk.
    destruct (assoc q.1 m); cbn; [by rewrite Hx|done].
Qed.

(** ** Types *)
Lemma dec_integral_iff negative coef exp :
  dec_integral (DFinite negative coef exp) = true ↔
  ∃ z, (Q_scale 10 (signed negative (Z.of_N coef)) exp == inject_Z z)%Q.
Proof.
  unfold dec_integral, Q_scale. destruct (Z.leb_spec 0 exp) as [He|He]; cbn [orb].
  { split; [|done]. eauto using Qeq_refl. }
  assert (10 ^ (- exp) = Zpos (Pos.pow 10 (Z.to_pos (- exp)))) as ->.
  { rewrite Pos2Z.inj_pow, Z2Pos.id by lia. done. }
  set (p := Pos.pow 10 (Z.to_pos (- exp))). rewrite Z.eqb_eq, Z.mod_divide by done.
  unfold Qeq. cbn. setoid_rewrite Z.mul_1_r. unfold signed.
  split; intros [z Hz]; exists (if negative then - z else z); destruct negative; lia.
Qed.

Lemma type_valid_compat e v w : json_equiv v w → type_valid e v = type_valid e w.
Proof.
  destruct 1 as [|v w x y Hv Hw Ex Ey E| |]; [done|..].
  - assert (∀ v x, is_number v = true → num_of v = Some (XFin x) →
      match v with PInt _ => true | PDec d => dec_integral d | _ => false end = true ↔
      ∃ z, (x == inject_Z z)%Q) as Hint.
    { intros v' x' Hv' Ex'. destruct v' as [| | | | |d| | |]; try done; cbn in Ex'; simplify_eq.
      - split; [|done]. eauto using Qeq_refl.
      - destruct d; simplify_eq. apply dec_integral_iff. }
    assert (match v with PInt _ => true | PDec d => dec_integral d | _ => false end =
            match w with PInt _ => true | PDec d => dec_integral d | _ => false end) as Hi.
    { apply eq_true_iff_eq. rewrite (Hint _ _ Hv Ex), (Hint _ _ Hw Ey). by setoid_rewrite E. }
    assert (∀ v x, is_number v = true → num_of v = Some (XFin x) →
      match v with PInt _ => true | PDec d => dec_finite d | _ => false end = true) as Hfin.
    { intros v' x' Hv' Ex'. destruct v' as [| | | | |d| | |]; try done. by destruct d. }
    unfold type_valid. rewrite Hi, (Hfin _ _ Hv Ex), (Hfin _ _ Hw Ey). by destruct v, w.
  - done.
  - done.
Qed.

Lemma is_dict_equiv v w : json_equiv v w → is_dict v = is_dict w.
Proof. destruct 1 as [|v w ? ? Hv Hw| |]; [done| |done|done]. by destruct v, w. Qed.

(** ** Sizes *)
Lemma max_list_perm l k : l ≡ₚ k → max_list l = max_list k.
Proof. induction 1; cbn; lia. Qed.

Lemma height_equiv v w : json_equiv v w → height v = height w.
Proof.
  intros H. induction H as [|v w x y Hv Hw| |d e f HF Hp Hn] using json_equiv_ind; [done|..].
  - by destruct v, w.
  - cbn. f_equal. f_equal. induction H as [|v w l k [_ Hv] _ IH]; cbn; congruence.
  - rewrite !height_dict. f_equal. transitivity (max_list (height <$> e.*2)).
    + f_equal. clear Hp Hn. induction HF as [|p q d e (_ & _ & Hx) _ IH]; cbn; congruence.
    + apply max_list_perm. by rewrite Hp.
Qed.

Lemma no_nan_dict d : no_nan (PDict d) = forallb no_nan d.*2.
Proof. cbn. induction d as [|[k x] d IH]; cbn; [done|]. by rewrite IH. Qed.

Lemma Forall2_forallb {A} (f g : A → bool) l k :
  Forall2 (λ x y, f x = g y) l k → forallb f l = forallb g k.
Proof. induction 1 as [|x y l k Hx _ IH]; cbn; congruence. Qed.

Lemma no_nan_equiv v w : json_equiv v w → no_nan v = no_nan w.
Proof.
  intros H. induction H as [|v w x y Hv Hw Ex Ey| |d e f HF Hp Hn] using json_equiv_ind; [done|..].
  - assert (∀ v x, is_number v = true → num_of v = Some (XFin x) → no_nan v = true) as Hfin.
    { intros v' x' Hv' Ex'. destruct v' as [| | | | |[]| | |]; done. }
    by rewrite (Hfin _ _ Hv Ex), (Hfin _ _ Hw Ey).
  - cbn. apply Forall2_forallb. eapply Forall2_impl; [done|]. by intros ? ? [_ ?].
  - rewrite !no_nan_dict. transitivity (forallb no_nan e.*2); [|apply forallb_perm; by rewrite Hp].
    apply Forall2_forallb, Forall2_fmap. eapply Forall2_impl; [done|]. by intros ? ? (_ & _ & ?).
Qed.

Lemma sized_equiv v w depth : json_equiv v w → sized v depth = sized w depth.
Proof.
  intros H. revert depth.
  induction H as [|v w x y Hv Hw Ex Ey|l k HF|d e f HF Hp Hn] using json_equiv_ind; intros depth; [done|..].
  - by destruct v, w.
  - cbn [sized]. rewrite (Forall2_length _ _ _ HF). f_equal. f_equal. apply Forall2_forallb.
    eapply Forall2_impl; [done|]. by intros ? ? [_ ?].
  - rewrite !sized_dict. rewrite (Forall2_length _ _ _ HF), Hp. f_equal. f_equal; [f_equal|].
    + replace d.*1 with e.*1; [apply forallb_perm; by rewrite Hp|]. symmetry. apply equiv_keys.
      eapply Forall2_impl; [done|]. by intros ? ? (? & ? & _).
    + transitivity (forallb (λ x, sized x (depth + 1)) e.*2); [|apply forallb_perm; by rewrite Hp].
      apply Forall2_forallb, Forall2_fmap. eapply Forall2_impl; [done|]. by intros ? ? (_ & _ & ?).
Qed.

Lemma sum_perm l k : l ≡ₚ k → foldr Z.add 0 l = foldr Z.add 0 k.
Proof. induction 1; cbn; lia. Qed.

Lemma node_count_equiv v w : json_equiv v w → node_count v = node_count w.
Proof.
  intros H. induction H as [|v w x y Hv Hw|l k HF|d e f HF Hp Hn] using json_equiv_ind; [done|..].
  - by destruct v, w.
  - cbn. f_equal. f_equal. induction HF as [|v w l k [_ Hv] _ IH]; cbn; congruence.
  - rewrite !node_count_dict. f_equal. transitivity (foldr Z.add 0 (node_count <$> e.*2)).
    + f_equal. clear Hp Hn. induction HF as [|p q d e (_ & _ & Hx) _ IH]; cbn; congruence.
    + apply sum_perm. by rewrite Hp.
Qed.

Lemma within_limits_equiv v w : json_equiv v w → within_limits v = within_limits w.
Proof. intros H. unfold within_limits. by rewrite (sized_equiv _ _ _ H), (node_count_equiv _ _ H). Qed.
