(* ===== verification/Conformance.v ===== *)
(** * Conformance to the schemas of the protocol

    Instantiates the facts about the interpreter at the schemas of the protocol:
    every validation ends within [VALIDATION_DEPTH] nested calls, it decides
    [satisfies], and [satisfies] depends on a value only up to [json_equiv]. *)

From stdpp Require Import base list list_numbers numbers strings.
From Stdlib Require Import QArith_base.
From S2P Require Import Prelude PyString Regex Errors Timestamp PyValue Schemas Decimal Unicode.
From S2P Require Import Structure StructureFacts.
Open Scope Z_scope.

(** ** Conformance respects equality of documents *)
Section congruence.
Variables sat sat' : pyval → pyval → pyval → bool.
Variables root schema v w : pyval.
Hypothesis Hvw : json_equiv v w.
Hypothesis Hsame : ∀ p, p ∈ same_value root schema → sat p.1 p.2 v = sat' p.1 p.2 w.
Hypothesis Hchild : ∀ p x y, p ∈ child_schemas root schema → json_equiv x y →
  (height x < height v)%nat → sat p.1 p.2 x = sat' p.1 p.2 y.

Lemma branch_cong b :
  b ∈ dict_branches (get schema "allOf") ++ dict_branches (get schema "anyOf") ++
      dict_branches (get schema "oneOf") ++ opt_branch (get schema "not") ++
      opt_branch (get schema "if") ++ opt_branch (get schema "then") ++ opt_branch (get schema "else") →
  sat root b v = sat' root b w.
Proof. intros Hb. apply (Hsame (root, b)), elem_of_app. right. by apply list_elem_of_fmap_2' with b. Qed.

Lemma child_cong s x y :
  s ∈ (match get schema "properties" with Some (PDict d) => filter (λ s, is_dict s = true) d.*2 | _ => [] end
       ++ opt_branch (get schema "additionalProperties") ++ opt_branch (get schema "propertyNames")
       ++ opt_branch (get schema "items")) →
  json_equiv x y → (height x < height v)%nat → sat root s x = sat' root s y.
Proof. intros Hs. apply (Hchild (root, s)). by apply list_elem_of_fmap_2' with s. Qed.

Lemma ref_cong : ref_conforms sat root schema v = ref_conforms sat' root schema w.
Proof.
  unfold ref_conforms. destruct (get schema "$ref") as [[| | | | | |ref| |]|] eqn:E; try done.
  destruct (resolve_ref root ref) as [[r s]|] eqn:Hr; [|done].
  apply (Hsame (r, s)). unfold same_value. rewrite E, Hr. by left.
Qed.

Lemma literals_cong : literals_conform schema v = literals_conform schema w.
Proof.
  unfold literals_conform. f_equal.
  - destruct (get schema "const"); cbn; [by apply py_eqb_compat|done].
  - destruct (get schema "enum") as [[| | | | | | |l|]|]; try done.
    induction l as [|c l IH]; cbn; [done|]. by rewrite IH, (py_eqb_compat _ _ c Hvw).
Qed.

Lemma branches_of_cong l :
  (∀ b, b ∈ l → is_dict b = true → sat root b v = sat' root b w) →
  forallb (λ b, negb (is_dict b) || sat root b v) l = forallb (λ b, negb (is_dict b) || sat' root b w) l ∧
  existsb (branch_conforms sat root v) l = existsb (branch_conforms sat' root w) l ∧
  length (filter (λ b, branch_conforms sat root v b = true) l)
  = length (filter (λ b, branch_conforms sat' root w b = true) l).
Proof.
  unfold branch_conforms. induction l as [|b l IH]; intros Hl; [done|].
  cbn [forallb existsb]. rewrite !filter_cons.
  destruct IH as (-> & -> & IH); [intros; apply Hl; [by right|done]|].
  destruct (is_dict b) eqn:E; cbn [negb orb andb].
  - rewrite (Hl b (list_elem_of_here _ _) E). split; [done|]. split; [done|].
    destruct (sat' root b w); [|done]. rewrite !decide_True by done. cbn. congruence.
  - by rewrite !decide_False.
Qed.

Lemma branches_cong : branches_conform sat root schema v = branches_conform sat' root schema w.
Proof.
  pose proof branch_cong as Hb. setoid_rewrite elem_of_app in Hb. setoid_rewrite elem_of_app in Hb.
  setoid_rewrite elem_of_app in Hb. setoid_rewrite elem_of_app in Hb.
  setoid_rewrite elem_of_app in Hb. setoid_rewrite elem_of_app in Hb.
  unfold branches_conform. repeat apply (f_equal2 andb).
  - apply branches_of_cong. intros b Hin E. apply Hb. left. by apply dict_branch_elem.
  - destruct (get schema "anyOf") as [[| | | | | | |l|]|]; try done. apply branches_of_cong.
    intros b Hin E. apply Hb. right. left. by apply dict_branch_elem.
  - destruct (get schema "oneOf") as [[| | | | | | |l|]|]; try done. f_equal. apply branches_of_cong.
    intros b Hin E. apply Hb. do 2 right. left. by apply dict_branch_elem.
  - destruct (get schema "not") as [[| | | | | | | |d]|]; try done. cbn. f_equal.
    apply Hb. do 3 right. left. by left.
  - destruct (get schema "if") as [[| | | | | | | |d]|]; try done. cbn.
    rewrite (Hb (PDict d)) by (do 4 right; left; by left).
    destruct (sat' root (PDict d) w).
    + destruct (get schema "then") as [[]|]; try done. apply Hb. do 5 right. left. by left.
    + destruct (get schema "else") as [[]|]; try done. apply Hb. do 6 right. by left.
Qed.

Lemma member_cong k x y :
  json_equiv x y → (height x < height v)%nat →
  member_conforms sat root schema (k, x) = member_conforms sat' root schema (k, y).
Proof.
  intros Hxy Hx. pose proof (λ s Hs, child_cong s x y Hs Hxy Hx) as Hc.
  setoid_rewrite elem_of_app in Hc. setoid_rewrite elem_of_app in Hc.
  unfold member_conforms. cbn [fst snd].
  assert (match get schema "additionalProperties" with
          | Some (PBool b) => b | Some (PDict s) => sat root (PDict s) x | _ => true end
        = match get schema "additionalProperties" with
          | Some (PBool b) => b | Some (PDict s) => sat' root (PDict s) y | _ => true end) as Hadd.
  { destruct (get schema "additionalProperties") as [[]|]; try done. apply Hc. right. left. by left. }
  destruct (get schema "properties") as [[| | | | | | | |ps]|]; try exact Hadd.
  destruct (assoc k ps) as [[| | | | | | | |s]|] eqn:E; try exact Hadd.
  apply Hc. left. apply list_elem_of_filter. split; [done|]. apply assoc_elem in E.
  by apply list_elem_of_fmap_2' with (k, PDict s).
Qed.

Lemma names_cong (l : list pystr) s :
  s ∈ opt_branch (get schema "propertyNames") → (0 < height v)%nat →
  forallb (λ k, sat root s (PStr k)) l = forallb (λ k, sat' root s (PStr k)) l.
Proof.
  intros Hs Hv. induction l as [|k l IH]; cbn; [done|]. rewrite IH. f_equal.
  apply child_cong; [|done|done]. rewrite !elem_of_app. auto.
Qed.

(** The members of two equal objects; [e] is [f] in the order of [d]. *)
Lemma object_cong d e f :
  v = PDict d → Forall2 (λ p q, p.1 = q.1 ∧ json_equiv p.2 q.2) d e → e ≡ₚ f →
  object_conforms sat root schema d = object_conforms sat' root schema f.
Proof.
  intros E HF Hp. pose proof (equiv_keys _ _ HF) as Hk.
  assert (d.*1 ≡ₚ f.*1) as Hkp by (by rewrite Hk, Hp).
  unfold object_conforms. repeat apply (f_equal2 andb).
  - induction (opt_list _) as [|n l IH]; cbn; [done|]. rewrite IH. f_equal. destruct n; try done.
    apply bool_decide_ext. by rewrite Hkp.
  - transitivity (forallb (member_conforms sat' root schema) e); [|by apply forallb_perm].
    apply Forall2_forallb. eapply Forall2_impl_Forall_l; [|exact HF|].
    { apply Forall_true. intros. exact I. }
    intros [k x] [k' y] _ [Ek Exy] Hin _. cbn in Ek. subst k'. apply member_cong; [done|].
    rewrite E. by eapply height_member.
  - destruct (get schema "propertyNames") as [[| | | | | | | |s]|] eqn:En; try done. cbn.
    rewrite (names_cong _ (PDict s)); [by apply forallb_perm|rewrite En; by left|].
    rewrite E, height_dict. lia.
  - assert (length d = length f) as ->; [|done]. by rewrite (Forall2_length _ _ _ HF), Hp.
Qed.

Lemma array_cong l k :
  v = PList l → Forall2 json_equiv l k →
  array_conforms sat root schema l = array_conforms sat' root schema k.
Proof.
  intros E HF. unfold array_conforms. rewrite (Forall2_length _ _ _ HF). apply (f_equal2 andb); [|done].
  destruct (get schema "items") as [[| | | | | | | |s]|] eqn:Es; try done. cbn. apply Forall2_forallb.
  eapply Forall2_impl_Forall_l; [|exact HF|].
  { apply Forall_true. intros. exact I. }
  intros x y _ Hxy Hin _. apply child_cong; [|done|rewrite E; by apply height_element].
  rewrite !elem_of_app, Es. do 3 right. by left.
Qed.

Lemma num_ltb_compat x y b : (x == y)%Q →
  num_ltb (XFin x) b = num_ltb (XFin y) b ∧ num_ltb b (XFin x) = num_ltb b (XFin y).
Proof.
  intros E. destruct b; cbn; [|done..]. unfold Qltb.
  split; f_equal; apply eq_true_iff_eq; by rewrite !Qle_bool_iff, E.
Qed.

Lemma conforms_step_cong : conforms_step sat root schema v = conforms_step sat' root schema w.
Proof.
  unfold conforms_step. rewrite ref_cong, (type_valid_compat _ _ _ Hvw), literals_cong, branches_cong.
  f_equal. pose proof object_cong as Ho. pose proof array_cong as Ha. pose proof member_cong as Hm.
  pose proof names_cong as Hnames. pose proof child_cong as Hc.
  destruct Hvw as [v0|v0 w0 x y Hv Hw Ex Ey E|l k HF|d e f HF Hp Hn].
  - destruct v0 as [| | | | | | |l|d]; try done.
    + apply Ha; [done|]. by apply Forall_Forall2_diag, Forall_true.
    + apply (Ho d d); [done| |done]. by apply Forall_Forall2_diag, Forall_true.
  - assert (number_conforms schema (XFin x) = number_conforms schema (XFin y)) as Hnum.
    { unfold number_conforms. f_equal.
      - destruct (bound_of schema "minimum") as [b|]; [|done]. cbn [from_option]. by rewrite (proj1 (num_ltb_compat _ _ b E)).
      - destruct (bound_of schema "maximum") as [b|]; [|done]. cbn [from_option]. by rewrite (proj2 (num_ltb_compat _ _ b E)). }
    destruct v0; try done; destruct w0; try done; rewrite Ex, Ey; exact Hnum.
  - by apply Ha.
  - by eapply Ho.
Qed.
End congruence.

(** ** Fuel and equality of documents do not matter *)
Lemma conforms_equiv K rank fuel fuel' n root schema v w :
  ranking K rank → rank n root schema → json_equiv v w →
  (height v * K + n ≤ fuel)%nat → (height v * K + n ≤ fuel')%nat →
  conforms fuel root schema v = conforms fuel' root schema w.
Proof.
  intros [Hstep]. revert fuel' n root schema v w.
  induction fuel as [|fuel IH]; intros fuel' n root schema v w Hr Hvw Hf Hf';
    apply Hstep in Hr as (m & -> & _ & Hc & Hs); [lia|]. destruct fuel' as [|fuel']; [lia|].
  cbn [conforms]. apply conforms_step_cong; [done|..].
  - intros p Hp. apply (IH _ m); [auto..|lia|lia].
  - intros p x y Hp Hxy Hlt. apply (IH _ K); [auto..| |]; nia.
Qed.

(** ** The schemas of the protocol

    A root schema is named by its position in [SCHEMAS]. *)
Definition ROOTS : list pyval := SCHEMAS.*2.
Definition root_of (i : nat) : pyval := nth i ROOTS PNone.

Fixpoint position (id : pystr) (ids : list pystr) : option nat :=
  match ids with
  | [] => None
  | id' :: ids' => if decide (id = id') then Some 0%nat else S <$> position id ids'
  end.

Lemma assoc_position id (d : list (pystr * pyval)) :
  assoc id d = (λ i, nth i d.*2 PNone) <$> position id d.*1.
Proof.
  induction d as [|[k x] d IH]; cbn; [done|]. case_decide; [done|]. rewrite IH.
  by destruct (position id d.*1).
Qed.

Lemma schemas_by_id : SCHEMAS_BY_ID.*2 = ROOTS.
Proof. reflexivity. Qed.

(** [_resolve_ref] on positions. *)
Definition resolve_position (i : nat) (ref : pystr) : option (nat * pyval) :=
  '(j, fragment) ←
    (if startswith (u "#") ref then Some (i, drop 1 ref)
     else '(schema_id, fragment) ← partition 35 ref;
          j ← position schema_id SCHEMAS_BY_ID.*1; Some (j, fragment));
  match schema_pointer (root_of j) fragment with Ok schema => Some (j, schema) | Raise _ => None end.

Lemma resolve_position_spec i ref j schema :
  resolve_position i ref = Some (j, schema) → resolve_ref (root_of i) ref = Ok (root_of j, schema).
Proof.
  unfold resolve_position, resolve_ref.
  assert (∀ k fragment,
    match schema_pointer (root_of k) fragment with Ok s => Some (k, s) | Raise _ => None end = Some (j, schema) →
    (target ← schema_pointer (root_of k) fragment; Ok (root_of k, target)) = Ok (root_of j, schema)) as Hend.
  { intros k fragment. destruct (schema_pointer (root_of k) fragment); [|done].
    intros E. injection E as -> ->. reflexivity. }
  destruct (startswith (u "#") ref); [apply Hend|].
  destruct (partition 35 ref) as [[id fragment]|]; [|done]. cbn [mbind option_bind].
  rewrite assoc_position, schemas_by_id. destruct (position id _) as [k|]; [apply Hend|done].
Qed.

Definition branches (schema : pyval) : list pyval :=
  dict_branches (get schema "allOf") ++ dict_branches (get schema "anyOf") ++
  dict_branches (get schema "oneOf") ++ opt_branch (get schema "not") ++
  opt_branch (get schema "if") ++ opt_branch (get schema "then") ++ opt_branch (get schema "else").
Definition children (schema : pyval) : list pyval :=
  match get schema "properties" with Some (PDict d) => filter (λ s, is_dict s = true) d.*2 | _ => [] end
  ++ opt_branch (get schema "additionalProperties") ++ opt_branch (get schema "propertyNames")
  ++ opt_branch (get schema "items").
Definition ref_target (i : nat) (schema : pyval) : list (nat * pyval) :=
  match get schema "$ref" with
  | Some (PStr ref) => option_list (resolve_position i ref)
  | _ => []
  end.
Definition same_position (i : nat) (schema : pyval) : list (nat * pyval) :=
  ref_target i schema ++ ((λ s, (i, s)) <$> branches schema).

(** The check of one schema: its branches nest at most [n] levels, and the
    schemas of the members are [member]s. *)
Section ranked.
Variable member : nat * pyval → bool.
Fixpoint ranked (n : nat) (i : nat) (schema : pyval) : bool :=
  match n with
  | O => false
  | S n =>
      schema_ok (root_of i) schema && forallb (λ s, member (i, s)) (children schema)
      && match get schema "$ref" with
         | Some (PStr ref) => bool_decide (is_Some (resolve_position i ref))
         | _ => true
         end
      && forallb (λ p, ranked n p.1 p.2) (same_position i schema)
  end.
End ranked.

Lemma same_position_spec i schema p :
  match get schema "$ref" with
  | Some (PStr ref) => bool_decide (is_Some (resolve_position i ref))
  | _ => true
  end = true →
  p ∈ same_value (root_of i) schema →
  ∃ q, q ∈ same_position i schema ∧ p = (root_of q.1, q.2).
Proof.
  unfold same_value, same_position, ref_target. intros Hr [Hp|Hp]%elem_of_app.
  - destruct (get schema "$ref") as [[| | | | | |ref| |]|]; try by apply elem_of_nil in Hp.
    apply bool_decide_eq_true in Hr as [[j s] Hj]. pose proof (resolve_position_spec _ _ _ _ Hj) as E.
    rewrite E in Hp. apply list_elem_of_singleton in Hp as ->. exists (j, s).
    split; [|done]. rewrite Hj. by left.
  - apply list_elem_of_fmap in Hp as (s & -> & Hs). exists (i, s). split; [|done].
    apply elem_of_app. right. by apply list_elem_of_fmap_2.
Qed.

(** The fragments the wire types name, by kind and pointer. *)
Definition WIRE_FRAGMENTS : list (string * string) := [
  ("common", "/$defs/schemaVersion"); ("common", "/$defs/actionId"); ("common", "/$defs/requestId");
  ("common", "/$defs/correlationId"); ("common", "/$defs/causationId");
  ("common", "/$defs/idempotencyKey"); ("common", "/$defs/taskId"); ("common", "/$defs/sessionId");
  ("common", "/$defs/decisionId"); ("common", "/$defs/approvalId"); ("common", "/$defs/auditRef");
  ("common", "/$defs/sha256"); ("common", "/$defs/timestamp"); ("common", "/$defs/semver");
  ("common", "/$defs/safeText"); ("approval", "/$defs/principalRef");
  ("approval", "/$defs/resolutionIdempotencyKey"); ("reconciliation", "/properties/reconciliationId");
  ("reconciliation", "/properties/batchId");
  ("reconciliation", "/properties/acknowledgement/properties/receiptId");
  ("common", "/$defs/adapter"); ("common", "/$defs/task"); ("common", "/$defs/target");
  ("common", "/$defs/context"); ("common", "/$defs/approvalSummary");
  ("common", "/$defs/cacheDirective"); ("reconciliation", "/properties/deliveryPolicy");
  ("reconciliation", "/properties/acknowledgement"); ("reconciliation", "/properties/discard")].

Definition fragment_node (f : string * string) : option (pyval * pyval) :=
  root ← assoc (u f.1) SCHEMAS;
  match schema_pointer root (u f.2) with Ok schema => Some (root, schema) | Raise _ => None end.

(** The branches of a schema nest at most this deep. *)
Definition RANK : nat := 5.
(** The bound on nested calls for a value of 33 levels. *)
Definition VALIDATION_DEPTH : nat := 170.

(** All subschemas that a validation can reach: a work list over [children],
    looking through [RANK] levels of branches. *)
Definition node_eqb (p q : nat * pyval) : bool :=
  if (p.1 =? q.1)%nat then bool_decide (p.2 = q.2) else false.
Definition node_in (nodes : list (nat * pyval)) (p : nat * pyval) : bool := existsb (node_eqb p) nodes.

Fixpoint deep_children (n : nat) (i : nat) (schema : pyval) : list (nat * pyval) :=
  match n with
  | O => []
  | S n => ((λ s, (i, s)) <$> children schema)
           ++ concat ((λ p, deep_children n p.1 p.2) <$> same_position i schema)
  end.

Fixpoint closure (fuel : nat) (pending seen : list (nat * pyval)) : list (nat * pyval) :=
  match fuel, pending with
  | S fuel, p :: pending =>
      if node_in seen p then closure fuel pending seen
      else closure fuel (deep_children RANK p.1 p.2 ++ pending) (p :: seen)
  | _, _ => seen
  end.

Definition root_nodes : list (nat * pyval) := (λ i, (i, root_of i)) <$> seq 0 (length ROOTS).
Definition fragment_position (f : string * string) : option (nat * pyval) :=
  i ← position (u f.1) SCHEMAS.*1;
  match schema_pointer (root_of i) (u f.2) with Ok schema => Some (i, schema) | Raise _ => None end.
Definition protocol_nodes : list (nat * pyval) :=
  closure 3000 (root_nodes ++ omap fragment_position WIRE_FRAGMENTS) [].

Lemma protocol_nodes_closed :
  (let nodes := protocol_nodes in
   forallb (λ p, ranked (node_in nodes) RANK p.1 p.2) nodes
   && forallb (node_in nodes) root_nodes
   && forallb (λ f, from_option (node_in nodes) false (fragment_position f)) WIRE_FRAGMENTS) = true.
Proof. vm_compute. reflexivity. Qed.

Lemma node_in_elem nodes p : node_in nodes p = true → p ∈ nodes.
Proof.
  unfold node_in. rewrite existsb_exists. intros (q & Hq & E). unfold node_eqb in E.
  destruct (p.1 =? q.1)%nat eqn:E1; [|done]. apply Nat.eqb_eq in E1. refl_bool.
  apply list_elem_of_In in Hq. destruct p, q; cbn in *; congruence.
Qed.

#[global] Opaque protocol_nodes.

Definition protocol_rank (n : nat) (root schema : pyval) : Prop :=
  ∃ i, root = root_of i ∧ ranked (node_in protocol_nodes) n i schema = true.
(** The schemas that a validation of the protocol reaches. *)
Abbreviation protocol_node := (protocol_rank RANK).

Lemma node_rank i schema : node_in protocol_nodes (i, schema) = true → protocol_node (root_of i) schema.
Proof.
  intros Hp. pose proof (node_in_elem protocol_nodes _ Hp) as Hin. pose proof protocol_nodes_closed as Hc.
  cbv zeta in Hc. apply andb_true_iff in Hc as [Hc _]. apply andb_true_iff in Hc as [Hc _].
  exists i. split; [done|]. exact (forallb_elem _ _ _ Hc Hin).
Qed.

Lemma protocol_ranking : ranking RANK protocol_rank.
Proof.
  constructor. intros n root schema (i & -> & Hr). destruct n as [|m]; [done|]. cbn [ranked] in Hr.
  apply andb_true_iff in Hr as [Hr Hs]. apply andb_true_iff in Hr as [Hr Href].
  apply andb_true_iff in Hr as [Hok Hc].
  exists m. split; [done|]. split; [done|]. split.
  - intros p Hp. apply list_elem_of_fmap in Hp as (s & -> & Hin). apply node_rank. exact (forallb_elem _ _ _ Hc Hin).
  - intros p Hp. apply (same_position_spec i schema p Href) in Hp as (q & Hq & ->).
    exists q.1. split; [done|]. exact (forallb_elem _ _ _ Hs Hq).
Qed.

Lemma schema_node kind schema : assoc (u kind) SCHEMAS = Some schema → protocol_node schema schema.
Proof.
  intros H. apply assoc_elem in H. apply (list_elem_of_fmap_2 snd) in H. cbn [snd] in H.
  apply list_elem_of_lookup in H as [i Hi]. pose proof protocol_nodes_closed as Hc. cbv zeta in Hc.
  apply andb_true_iff in Hc as [Hc _]. apply andb_true_iff in Hc as [_ Hc].
  assert (schema = root_of i) as E by (unfold root_of; by rewrite (nth_lookup_Some _ _ _ _ Hi)).
  rewrite E at 1. apply node_rank. rewrite E. apply (forallb_elem _ _ _ Hc), (list_elem_of_fmap_2 (λ i, (i, root_of i))), elem_of_seq.
  apply lookup_lt_Some in Hi. unfold ROOTS. lia.
Qed.

(** The value satisfies the schema. *)
Definition satisfies (root schema v : pyval) : bool := conforms (S (height v) * RANK) root schema v.

Lemma satisfies_equiv root schema v w :
  protocol_node root schema → json_equiv v w → satisfies root schema v = satisfies root schema w.
Proof.
  intros Hn Hvw. unfold satisfies. rewrite <-(height_equiv _ _ Hvw).
  apply (conforms_equiv RANK protocol_rank _ _ RANK root schema v w protocol_ranking Hn Hvw); lia.
Qed.

Lemma validate_satisfies fuel root schema v path :
  protocol_node root schema → no_nan v = true → (S (height v) * RANK ≤ fuel)%nat →
  outcome (validate fuel root schema v path) (satisfies root schema v).
Proof.
  intros Hn Hnan Hf. unfold satisfies.
  rewrite (conforms_equiv RANK protocol_rank _ fuel RANK root schema v v protocol_ranking Hn
             (equiv_same v)) by lia.
  apply (validate_outcome_of RANK protocol_rank fuel RANK root schema v path protocol_ranking Hn Hnan).
  lia.
Qed.

(** ** Documents and fragments *)
Definition accepted (root schema v : pyval) : bool := within_limits v && satisfies root schema v.

Lemma accepted_equiv root schema v w :
  protocol_node root schema → json_equiv v w → accepted root schema v = accepted root schema w.
Proof.
  intros Hn Hvw. unfold accepted. by rewrite (within_limits_equiv _ _ Hvw), (satisfies_equiv _ _ _ _ Hn Hvw).
Qed.

Lemma validate_limited fuel root schema v path :
  protocol_node root schema → no_nan v = true → (VALIDATION_DEPTH ≤ fuel)%nat →
  outcome (validate_memory_limits v;; validate fuel root schema v path) (accepted root schema v).
Proof.
  intros Hn Hnan Hf. unfold accepted. pose proof (memory_limits_outcome v) as Hm.
  destruct (within_limits v) eqn:Hw; cbn [andb outcome] in *.
  - rewrite Hm. cbn [mbind result_bind]. apply within_limits_height in Hw.
    apply validate_satisfies; [done..|]. unfold VALIDATION_DEPTH, RANK in *. lia.
  - destruct Hm as [message ->]. cbn. eauto.
Qed.

(** The root and the schema of a fragment. *)
Definition fragment_schema (kind pointer : string) : option (pyval * pyval) :=
  root ← assoc (u kind) SCHEMAS;
  match schema_pointer root (u pointer) with Ok schema => Some (root, schema) | Raise _ => None end.

Lemma fragment_schema_node kind pointer :
  (kind, pointer) ∈ WIRE_FRAGMENTS →
  ∃ root schema, fragment_schema kind pointer = Some (root, schema) ∧ protocol_node root schema.
Proof.
  intros H. pose proof protocol_nodes_closed as Hs. cbv zeta in Hs.
  apply andb_true_iff in Hs as [_ Hs]. pose proof (forallb_elem _ _ _ Hs H) as Hf. clear Hs.
  unfold fragment_position in Hf. unfold fragment_schema. cbn [fst snd] in Hf.
  rewrite assoc_position. fold ROOTS. destruct (position (u kind) SCHEMAS.*1) as [i|]; [|done].
  cbn [mbind option_bind fmap option_fmap option_map] in *. fold (root_of i).
  destruct (schema_pointer (root_of i) (u pointer)) as [s|]; [|done]. cbn [from_option] in Hf.
  exists (root_of i), s. split; [done|]. by apply node_rank.
Qed.

Lemma validate_fragment_outcome kind pointer root schema v :
  (kind, pointer) ∈ WIRE_FRAGMENTS → fragment_schema kind pointer = Some (root, schema) →
  no_nan v = true → outcome (validate_fragment kind pointer v) (accepted root schema v).
Proof.
  intros Hf Hn Hnan. apply fragment_schema_node in Hf as (r & s & Hp & Hnode).
  assert (r = root ∧ s = schema) as [-> ->] by (rewrite Hn in Hp; by simplify_eq).
  assert (outcome (validate_memory_limits v;; validate RECURSION_LIMIT root schema v (u "$"))
            (accepted root schema v)) as Ho.
  { apply validate_limited; [done|done|]. unfold RECURSION_LIMIT, VALIDATION_DEPTH. lia. }
  unfold fragment_schema in Hn. unfold validate_fragment.
  destruct (assoc (u kind) SCHEMAS) as [r|]; [|discriminate Hn]. cbn [mbind option_bind] in Hn.
  destruct (schema_pointer r (u pointer)) as [s|]; [|discriminate Hn]. by simplify_eq.
Qed.

Lemma validate_document_outcome kind schema v :
  assoc (u kind) SCHEMAS = Some schema → no_nan v = true →
  if is_dict v && accepted schema schema v then validate_document kind v = Ok v
  else ∃ message, validate_document kind v = Raise (ProtocolStructureError message).
Proof.
  intros Hk Hnan. unfold validate_document. rewrite Hk.
  assert (outcome (validate_memory_limits v;; validate RECURSION_LIMIT schema schema v (u "$"))
            (accepted schema schema v)) as Ho.
  { apply validate_limited; [by eapply schema_node|done|]. unfold RECURSION_LIMIT, VALIDATION_DEPTH. lia. }
  destruct (is_dict v); cbn [negb raise_if mbind result_bind andb]; [|unfold schema_error; eauto].
  destruct (accepted schema schema v); cbn [outcome] in Ho.
  - destruct (validate_memory_limits v); [|done]. cbn [mbind result_bind] in *. by rewrite Ho.
  - destruct Ho as [message Ho]. exists message.
    destruct (validate_memory_limits v); cbn [mbind result_bind] in *; [by rewrite Ho|congruence].
Qed.
