(* ===== verification/Wire.v ===== *)
(** * The wire types

    Models the classes of [_generated/protocol.py]: the validated strings, the
    enumerations and the structural DTOs with [_from_dict] and [to_dict], and the
    parsers of the five kinds of documents.  A class of DTOs is its table of
    fields: the attribute, the name on the wire, whether it may be absent, and the
    conversion that [_from_dict] applies.  A DTO is the list of its attributes. *)

From stdpp Require Import base list list_numbers numbers strings.
From S2P Require Import Prelude PyString Regex Errors Timestamp PyValue Schemas Decimal Unicode.
From S2P Require Import Structure.
Open Scope Z_scope.

(** ** Values of attributes

    [AStr] is an instance of a subclass of [str] or of [StrEnum], [ARaw] a JSON
    value; [ADto] is a nested DTO with its class (name, schema kind and pointer)
    and its attributes, each with its wire name and [None] where the attribute is
    [None]. *)
Record class_id := ClassId { class_name : string; schema_kind : string; schema_pointer_of : string }.

Unset Elimination Schemes.
Inductive attr :=
| AStr (s : pystr)
| AInt (z : Z)
| ARaw (v : pyval)
| ADto (cls : class_id) (attributes : list (string * string * option attr)).
Set Elimination Schemes.

(** [getattr(dto, name)]; [None] for an attribute that is [None]. *)
Definition attribute (name : string) (d : attr) : option attr :=
  match d with
  | ADto _ attributes =>
      match list_find (λ f, f.1.1 = name) attributes with Some (_, f) => f.2 | None => None end
  | _ => None
  end.

(** ** [_to_json] and [to_dict] *)

(** [_to_json] of a JSON value. *)
Fixpoint to_json_value (v : pyval) : py pyval :=
  match v with
  | PDict d =>
      validate_memory_limits v;;
      d' ← (fix go (d : list (pystr * pyval)) : py (list (pystr * pyval)) :=
              match d with
              | [] => Ok []
              | (key, child) :: d' => x ← to_json_value child; r ← go d'; Ok ((key, x) :: r)
              end) d;
      Ok (PDict d')
  | PList l =>
      validate_memory_limits v;;
      l' ← (fix go (l : list pyval) : py (list pyval) :=
              match l with
              | [] => Ok []
              | child :: l' => x ← to_json_value child; r ← go l'; Ok (x :: r)
              end) l;
      Ok (PList l')
  | PStr _ | PInt _ | PDec _ | PBool _ | PNone => Ok v
  | PFloat _ | PAbsent => Raise TypeError
  end.

(** The validation at the end of [to_dict]. *)
Definition validate_result (c : class_id) (result : pyval) : py () :=
  if bool_decide (schema_pointer_of c = ""%string)
  then validate_document (schema_kind c) result;; Ok ()
  else validate_fragment (schema_kind c) (schema_pointer_of c) result.

(** [_to_json] of the value of an attribute; the loop is the one of [to_dict]. *)
Fixpoint to_json (a : attr) : py pyval :=
  match a with
  | AStr s => Ok (PStr s)
  | AInt z => Ok (PInt z)
  | ARaw v => to_json_value v
  | ADto c attributes =>
      result ← (fix go (attributes : list (string * string * option attr)) : py (list (pystr * pyval)) :=
                  match attributes with
                  | [] => Ok []
                  | (_, _, None) :: rest => go rest
                  | (_, _, Some (ARaw PNone)) :: rest => go rest
                  | (_, wire_name, Some value) :: rest =>
                      x ← to_json value; r ← go rest; Ok ((u wire_name, x) :: r)
                  end) attributes;
      validate_result c (PDict result);;
      Ok (PDict result)
  end.
Definition to_dict (d : attr) : py pyval := to_json d.

(** ** [_from_dict] *)

(** [_copy_json]. *)
Fixpoint copy_json (v : pyval) : pyval :=
  match v with
  | PDict d => PDict ((fix go (d : list (pystr * pyval)) : list (pystr * pyval) :=
                         match d with [] => [] | (k, x) :: d' => (k, copy_json x) :: go d' end) d)
  | PList l => PList (copy_json <$> l)
  | v => v
  end.

(** The conversions that [_from_dict] applies to [value["name"]]: [Raw] keeps it
    as it is, [Copied] is [_copy_json], [WireString] a subclass of [str] that
    validates a fragment, [WireEnum] a [StrEnum] with these values, [Integer] is
    [int], and [Nested] the [_from_dict] of another class, given by its fields
    (attribute, name on the wire, whether it may be absent, conversion). *)
Unset Elimination Schemes.
Inductive converter :=
| Raw
| Copied
| WireString (kind pointer : string)
| WireEnum (values : list string)
| Integer
| Nested (cls : class_id) (fields : list (string * string * bool * converter)).
Set Elimination Schemes.

Definition field : Type := string * string * bool * converter.
Definition attribute_name (f : field) : string := f.1.1.1.
Definition wire_name (f : field) : string := f.1.1.2.
Definition is_optional (f : field) : bool := f.1.2.
Definition conversion (f : field) : converter := f.2.
Definition req (attribute wire : string) (c : converter) : field := (attribute, wire, false, c).
Definition opt (attribute wire : string) (c : converter) : field := (attribute, wire, true, c).

(** [__new__] of a subclass of [str]: the fragments admit strings only. *)
Definition wire_string (kind pointer : string) (v : pyval) : py attr :=
  validate_fragment kind pointer v;;
  match v with PStr s => Ok (AStr s) | _ => Raise TypeError end.

(** The call of a [StrEnum]. *)
Definition wire_enum (values : list string) (v : pyval) : py attr :=
  match v with
  | PStr s => if bool_decide (s ∈ u <$> values) then Ok (AStr s) else Raise ValueError
  | _ => Raise ValueError
  end.

(** [int(value)], towards zero; the schemas admit numbers only. *)
Definition int_of (v : pyval) : py Z :=
  match v with
  | PInt z => Ok z
  | PBool b => Ok (if b then 1 else 0)
  | PDec (DFinite negative coef exp) =>
      Ok (signed negative (if 0 <=? exp then Z.of_N coef * 10 ^ exp else Z.of_N coef / 10 ^ (- exp)))
  | PDec (DInfinity _) => Raise OverflowError
  | PDec DNaN => Raise ValueError
  | _ => Raise TypeError
  end.

(** One keyword argument of the constructor call: [None] where an optional member
    is absent. *)
Definition read_member (v : pyval) (name : string) (optional : bool) (convert : pyval → py attr)
    : py (option attr) :=
  if optional && negb (has_key v name) then Ok None
  else x ← getitem v name; a ← convert x; Ok (Some a).

Fixpoint convert (c : converter) (v : pyval) {struct c} : py attr :=
  match c with
  | Raw => Ok (ARaw v)
  | Copied => Ok (ARaw (copy_json v))
  | WireString kind pointer => wire_string kind pointer v
  | WireEnum values => wire_enum values v
  | Integer => AInt <$> int_of v
  | Nested cls fields =>
      attributes ←
        (fix go (fields : list (string * string * bool * converter))
             : py (list (string * string * option attr)) :=
           match fields with
           | [] => Ok []
           | (attribute, name, optional, c) :: fields' =>
               a ← read_member v name optional (convert c);
               r ← go fields';
               Ok ((attribute, name, a) :: r)
           end) fields;
      Ok (ADto cls attributes)
  end.

(** A class of DTOs, and its [_from_dict]. *)
Record dto_class := DtoClass { class : class_id; fields : list field }.
Definition nested (c : dto_class) : converter := Nested (class c) (fields c).
Definition from_dict (c : dto_class) (v : pyval) : py attr := convert (nested c) v.

(** ** Validated strings *)
Definition SchemaVersion := WireString "common" "/$defs/schemaVersion".
Definition ActionID := WireString "common" "/$defs/actionId".
Definition RequestID := WireString "common" "/$defs/requestId".
Definition CorrelationID := WireString "common" "/$defs/correlationId".
Definition CausationID := WireString "common" "/$defs/causationId".
Definition AuthorizationIdempotencyKey := WireString "common" "/$defs/idempotencyKey".
Definition TaskID := WireString "common" "/$defs/taskId".
Definition SessionID := WireString "common" "/$defs/sessionId".
Definition DecisionID := WireString "common" "/$defs/decisionId".
Definition ApprovalID := WireString "common" "/$defs/approvalId".
Definition AuditRef := WireString "common" "/$defs/auditRef".
Definition SHA256Digest := WireString "common" "/$defs/sha256".
Definition RFC3339Timestamp := WireString "common" "/$defs/timestamp".
Definition SemanticVersion := WireString "common" "/$defs/semver".
Definition SafeText := WireString "common" "/$defs/safeText".
Definition PrincipalRef := WireString "approval" "/$defs/principalRef".
Definition ApprovalResolutionIdempotencyKey := WireString "approval" "/$defs/resolutionIdempotencyKey".
Definition ReconciliationID := WireString "reconciliation" "/properties/reconciliationId".
Definition BatchID := WireString "reconciliation" "/properties/batchId".
Definition ReceiptID := WireString "reconciliation" "/properties/acknowledgement/properties/receiptId".

(** ** Enumerations *)
Definition ActionName := WireEnum
  ["shell:exec"; "file:read"; "file:write"; "file:delete"; "web:fetch"; "mcp:call"; "tool:invoke"].
Definition SideEffect := WireEnum ["read_only"; "write"; "destructive"; "external"].
Definition TargetKind := WireEnum ["local-action"; "mcp-tool"; "tool"].
Definition DecisionOutcome := WireEnum ["allow"; "deny"; "approval_required"].
Definition ApprovalStatus := WireEnum ["pending"; "approved"; "denied"; "expired"; "cancelled"].
Definition ProtocolErrorCode := WireEnum
  ["invalid_request"; "missing_identity"; "unsupported_protocol"; "authentication_failed";
   "authorization_unavailable"; "invalid_decision"; "idempotency_conflict"; "approval_expired";
   "approval_scope_mismatch"; "credential_revoked"; "policy_denied"].
Definition ReconciliationOutcome := WireEnum ["allow"; "deny"; "approval_required"; "error"].
Definition DeliveryDisposition := WireEnum ["automatic"; "manual_intervention"].
Definition ReconciliationState := WireEnum
  ["pending"; "sending"; "retry_wait"; "acknowledged"; "discarded"].
Definition DiscardAuthorityType := WireEnum ["authenticated_user"; "organization_retention_policy"].

(** ** Structural DTOs *)
Definition Adapter : dto_class := DtoClass (ClassId "Adapter" "common" "/$defs/adapter") [
  req "id" "id" Raw;
  req "version" "version" SemanticVersion;
  req "host_version" "hostVersion" SemanticVersion;
  opt "extensions" "extensions" Copied].

Definition TaskBinding : dto_class := DtoClass (ClassId "TaskBinding" "common" "/$defs/task") [
  req "task_id" "taskId" TaskID;
  req "session_id" "sessionId" SessionID;
  opt "extensions" "extensions" Copied].

Definition ActionTarget : dto_class := DtoClass (ClassId "ActionTarget" "common" "/$defs/target") [
  req "kind" "kind" TargetKind;
  req "service" "service" Raw;
  req "resource" "resource" SafeText;
  req "resource_hash" "resourceHash" SHA256Digest;
  opt "extensions" "extensions" Copied].

Definition ActionContext : dto_class := DtoClass (ClassId "ActionContext" "common" "/$defs/context") [
  opt "cwd" "cwd" SafeText;
  opt "repository" "repository" SafeText;
  opt "tool_name" "toolName" SafeText;
  opt "safe_display" "safeDisplay" SafeText;
  opt "extensions" "extensions" Copied].

Definition ApprovalSummary : dto_class :=
  DtoClass (ClassId "ApprovalSummary" "common" "/$defs/approvalSummary") [
  req "approval_id" "approvalId" ApprovalID;
  req "status" "status" ApprovalStatus;
  req "expires_at" "expiresAt" RFC3339Timestamp;
  opt "extensions" "extensions" Copied].

Definition CacheDirective : dto_class :=
  DtoClass (ClassId "CacheDirective" "common" "/$defs/cacheDirective") [
  req "cacheable" "cacheable" Raw].

Definition DeliveryPolicy : dto_class :=
  DtoClass (ClassId "DeliveryPolicy" "reconciliation" "/properties/deliveryPolicy") [
  req "max_attempts" "maxAttempts" Integer;
  req "max_total_attempts" "maxTotalAttempts" Integer;
  req "base_delay_seconds" "baseDelaySeconds" Integer;
  req "max_delay_seconds" "maxDelaySeconds" Integer].

Definition ReconciliationAcknowledgement : dto_class :=
  DtoClass (ClassId "ReconciliationAcknowledgement" "reconciliation" "/properties/acknowledgement") [
  req "receipt_id" "receiptId" ReceiptID;
  req "reconciliation_id" "reconciliationId" ReconciliationID;
  req "evidence_hash" "evidenceHash" SHA256Digest;
  req "acknowledged_at" "acknowledgedAt" RFC3339Timestamp].

Definition ReconciliationDiscard : dto_class :=
  DtoClass (ClassId "ReconciliationDiscard" "reconciliation" "/properties/discard") [
  req "authority_type" "authorityType" DiscardAuthorityType;
  req "reason_code" "reasonCode" Raw].

Definition ActionRequest : dto_class := DtoClass (ClassId "ActionRequest" "action" "") [
  req "schema_version" "schemaVersion" SchemaVersion;
  req "action_id" "actionId" ActionID;
  req "request_id" "requestId" RequestID;
  req "correlation_id" "correlationId" CorrelationID;
  req "idempotency_key" "idempotencyKey" AuthorizationIdempotencyKey;
  req "adapter" "adapter" (nested Adapter);
  req "task" "task" (nested TaskBinding);
  req "action" "action" ActionName;
  req "target" "target" (nested ActionTarget);
  req "side_effect" "sideEffect" SideEffect;
  req "occurred_at" "occurredAt" RFC3339Timestamp;
  req "context" "context" (nested ActionContext);
  opt "causation_id" "causationId" CausationID;
  opt "resume_from_approval_id" "resumeFromApprovalId" ApprovalID;
  opt "extensions" "extensions" Copied].

Definition AuthorizationDecision : dto_class :=
  DtoClass (ClassId "AuthorizationDecision" "decision" "") [
  req "schema_version" "schemaVersion" SchemaVersion;
  req "request_id" "requestId" RequestID;
  req "decision_id" "decisionId" DecisionID;
  req "correlation_id" "correlationId" CorrelationID;
  req "outcome" "outcome" DecisionOutcome;
  req "reason_code" "reasonCode" Raw;
  req "display_reason" "displayReason" SafeText;
  req "client_scope_hash" "clientScopeHash" SHA256Digest;
  req "authoritative_scope_hash" "authoritativeScopeHash" SHA256Digest;
  req "policy_revision" "policyRevision" Raw;
  req "server_time" "serverTime" RFC3339Timestamp;
  req "expires_at" "expiresAt" RFC3339Timestamp;
  req "audit_ref" "auditRef" AuditRef;
  req "cache" "cache" (nested CacheDirective);
  opt "approval" "approval" (nested ApprovalSummary);
  opt "extensions" "extensions" Copied].

Definition ApprovalRecord : dto_class := DtoClass (ClassId "ApprovalRecord" "approval" "") [
  req "schema_version" "schemaVersion" SchemaVersion;
  req "approval_id" "approvalId" ApprovalID;
  req "action_id" "actionId" ActionID;
  req "correlation_id" "correlationId" CorrelationID;
  req "authoritative_scope_hash" "authoritativeScopeHash" SHA256Digest;
  req "status" "status" ApprovalStatus;
  req "requested_at" "requestedAt" RFC3339Timestamp;
  req "expires_at" "expiresAt" RFC3339Timestamp;
  req "requester_ref" "requesterRef" PrincipalRef;
  req "authorization_decision_id" "authorizationDecisionId" DecisionID;
  req "creation_audit_ref" "creationAuditRef" AuditRef;
  opt "reviewer_ref" "reviewerRef" PrincipalRef;
  opt "decided_at" "decidedAt" RFC3339Timestamp;
  opt "resolution_audit_ref" "resolutionAuditRef" AuditRef;
  opt "resolution_decision_id" "resolutionDecisionId" DecisionID;
  opt "resolution_reason_code" "resolutionReasonCode" Raw;
  opt "resolution_idempotency_key" "resolutionIdempotencyKey" ApprovalResolutionIdempotencyKey;
  opt "extensions" "extensions" Copied].

Definition ProtocolError : dto_class := DtoClass (ClassId "ProtocolError" "error" "") [
  req "schema_version" "schemaVersion" SchemaVersion;
  req "code" "code" ProtocolErrorCode;
  req "safe_message" "safeMessage" SafeText;
  req "retryable" "retryable" Raw;
  opt "action_id" "actionId" ActionID;
  opt "request_id" "requestId" RequestID;
  opt "correlation_id" "correlationId" CorrelationID;
  opt "decision_id" "decisionId" DecisionID;
  opt "approval_id" "approvalId" ApprovalID;
  opt "audit_ref" "auditRef" AuditRef;
  opt "extensions" "extensions" Copied].

Definition ReconciliationRecord : dto_class :=
  DtoClass (ClassId "ReconciliationRecord" "reconciliation" "") [
  req "schema_version" "schemaVersion" SchemaVersion;
  req "reconciliation_id" "reconciliationId" ReconciliationID;
  req "action_id" "actionId" ActionID;
  req "request_id" "requestId" RequestID;
  req "correlation_id" "correlationId" CorrelationID;
  req "authorization_idempotency_key" "authorizationIdempotencyKey" AuthorizationIdempotencyKey;
  req "client_id" "clientId" Raw;
  req "action" "action" ActionName;
  req "target_kind" "targetKind" TargetKind;
  req "outcome" "outcome" ReconciliationOutcome;
  req "reason_code" "reasonCode" Raw;
  req "observed_at" "observedAt" RFC3339Timestamp;
  req "batch_id" "batchId" BatchID;
  req "batch_sequence" "batchSequence" Integer;
  req "delivery_policy" "deliveryPolicy" (nested DeliveryPolicy);
  req "attempt_count" "attemptCount" Integer;
  req "delivery_disposition" "deliveryDisposition" DeliveryDisposition;
  req "state" "state" ReconciliationState;
  opt "decision_id" "decisionId" DecisionID;
  opt "client_scope_hash" "clientScopeHash" SHA256Digest;
  opt "authoritative_scope_hash" "authoritativeScopeHash" SHA256Digest;
  opt "last_attempt_at" "lastAttemptAt" RFC3339Timestamp;
  opt "next_attempt_at" "nextAttemptAt" RFC3339Timestamp;
  opt "manual_reason_code" "manualReasonCode" Raw;
  opt "acknowledged_at" "acknowledgedAt" RFC3339Timestamp;
  opt "acknowledgement" "acknowledgement" (nested ReconciliationAcknowledgement);
  opt "discarded_at" "discardedAt" RFC3339Timestamp;
  opt "discard" "discard" (nested ReconciliationDiscard);
  opt "extensions" "extensions" Copied].

(** ** Parsers *)
Definition parse_with (c : dto_class) (value : pyval) : py attr :=
  document ← validate_document (schema_kind (class c)) value; from_dict c document.

Definition parse_action := parse_with ActionRequest.
Definition parse_decision := parse_with AuthorizationDecision.
Definition parse_approval := parse_with ApprovalRecord.
Definition parse_error := parse_with ProtocolError.
Definition parse_reconciliation := parse_with ReconciliationRecord.
