(* ===== verification/WireSound.v ===== *)
(** * Wire types and documents agree

    A class of DTOs is [class_sound] for a schema when every document that
    satisfies the schema is read by [_from_dict], written back by [to_dict] to an
    equal document, and read again to the same DTO.  Soundness is proved once for
    all tables of fields, from a check of the table against the schema. *)

From stdpp Require Import base list list_numbers numbers strings.
From Stdlib Require Import QArith.
From S2P Require Import Prelude PyString Regex Errors Timestamp PyValue Schemas Decimal Unicode Structure StructureFacts Conformance Wire.
Open Scope Z_scope.

(** ** JSON documents

    What [JSONValue] stands for: no [float], no absent marker, finite decimals
    and unique keys. *)
Fixpoint json_document (v : pyval) : bool :=
  match v with
  | PNone | PBool _ | PInt _ | PStr _ => true
  | PDec d => dec_finite d
  | PList l => forallb json_document l
  | PDict d =>
      bool_decide (NoDup d.*1)
      && (fix go (d : list (pystr * pyval)) : bool :=
            match d with [] => true | (_, x) :: d' => json_document x && go d' end) d
  | PFloat _ | PAbsent => false
  end.

Lemma json_document_dict d :
  json_document (PDict d) = bool_decide (NoDup d.*1) && forallb json_document d.*2.
Proof. cbn. f_equal. induction d as [|[k x] d IH]; cbn; [done|]. by rewrite IH. Qed.

Lemma json_document_member d k x : json_document (PDict d) = true → (k, x) ∈ d → json_document x = true.
Proof.
  rewrite json_document_dict. intros (_ & Hd)%andb_true_iff Hx. eapply forallb_elem; [done|].
  by apply (list_elem_of_fmap_2 snd) in Hx.
Qed.

Lemma json_document_keys d : json_document (PDict d) = true → NoDup d.*1.
Proof. rewrite json_document_dict. intros (Hd & _)%andb_true_iff. by apply bool_decide_eq_true in Hd. Qed.

Lemma json_document_no_nan v : json_document v = true → no_nan v = true.
Proof.
  induction v as [| | | | |d| |l IH|d IH] using pyval_ind'; try done.
  - by destruct d.
  - cbn. rewrite !forallb_Forall. rewrite Forall_forall in IH. rewrite !Forall_forall. auto.
  - rewrite json_document_dict, no_nan_dict. intros (_ & Hd)%andb_true_iff.
    rewrite forallb_Forall, Forall_fmap in *. rewrite Forall_forall in *. intros p Hp.
    apply (IH p Hp). by apply Hd.
Qed.

(** ** Parts of values within the limits *)
Lemma sized_depth v depth depth' : sized v depth = true → depth' ≤ depth → sized v depth' = true.
Proof.
  revert depth depth'. induction v as [| | | | | | |l IH|d IH] using pyval_ind'; intros depth depth'.
  1-7: cbn [sized]; rewrite !andb_true_iff, !Z.leb_le; intros [? ?] ?; split; [lia|done].
  - cbn [sized]. rewrite !andb_true_iff, !Z.leb_le. intros (? & ? & Hl) Hd. repeat split; [lia|done|].
    rewrite forallb_Forall, Forall_forall in *. intros x Hx.
    apply (IH x Hx (depth + 1)); [by apply Hl|lia].
  - rewrite !sized_dict, !andb_true_iff, !Z.leb_le. intros (? & (? & ?) & Hl) Hd. repeat split; [lia|done..|].
    rewrite forallb_Forall, Forall_fmap, Forall_forall in *. intros p Hp.
    apply (IH p Hp (depth + 1)); [by apply Hl|lia].
Qed.

Lemma sum_elem x (l : list Z) : Forall (λ y, 0 ≤ y) l → x ∈ l → x ≤ foldr Z.add 0 l.
Proof.
  induction l as [|y l IH]; [by intros _ ?%elem_of_nil|]. intros [? Hl]%Forall_cons. cbn.
  assert (0 ≤ foldr Z.add 0 l) by (clear -Hl; induction Hl; cbn; lia).
  intros [->|Hx]%elem_of_cons; [lia|]. specialize (IH Hl Hx). lia.
Qed.

Lemma node_count_elem x l : x ∈ l → node_count x ≤ foldr Z.add 0 (node_count <$> l).
Proof.
  intros Hx. apply sum_elem; [|by apply list_elem_of_fmap_2]. apply Forall_fmap, Forall_true.
  intros y. cbn. pose proof (node_count_pos y). lia.
Qed.

Lemma within_limits_element l x : within_limits (PList l) = true → x ∈ l → within_limits x = true.
Proof.
  unfold within_limits. cbn [sized node_count]. rewrite !andb_true_iff, !Z.leb_le. intros ((_ & _ & Hl) & Hn) Hx.
  split; [|pose proof (node_count_elem _ _ Hx); lia].
  apply (sized_depth _ 1); [|lia]. by apply (forallb_elem _ _ _ Hl Hx).
Qed.

Lemma within_limits_member d k x : within_limits (PDict d) = true → (k, x) ∈ d → within_limits x = true.
Proof.
  unfold within_limits. rewrite sized_dict, node_count_dict, !andb_true_iff, !Z.leb_le.
  intros ((_ & _ & Hl) & Hn) Hx. apply (list_elem_of_fmap_2 snd) in Hx. cbn [snd] in Hx.
  split; [|pose proof (node_count_elem _ _ Hx); lia].
  apply (sized_depth _ 1); [|lia]. by apply (forallb_elem _ _ _ Hl Hx).
Qed.

(** ** Copies *)
Lemma copy_json_id v : copy_json v = v.
Proof.
  induction v as [| | | | | | |l IH|d IH] using pyval_ind'; try done; cbn; f_equal.
  - induction IH as [|x l Hx _ IHl]; cbn; congruence.
  - induction IH as [|[k x] d Hx _ IHd]; cbn in *; congruence.
Qed.

Lemma to_json_value_id v : json_document v = true → within_limits v = true → to_json_value v = Ok v.
Proof.
  induction v as [| | | | | | |l IH|d IH] using pyval_ind'; intros Hj Hw; try done.
  all: match goal with H : within_limits ?v = true |- _ =>
         pose proof (memory_limits_outcome v) as Hm; rewrite H in Hm; cbn [outcome] in Hm end;
    cbn [to_json_value]; rewrite Hm; cbn [mbind result_bind].
  - assert (∀ k, (∀ x, x ∈ k → x ∈ l) →
      (fix go (l : list pyval) : py (list pyval) :=
         match l with [] => Ok [] | c :: l' => x ← to_json_value c; r ← go l'; Ok (x :: r) end) k = Ok k) as Hk.
    { induction k as [|x k IHk]; intros Hin; [done|]. rewrite Forall_forall in IH.
      pose proof (Hin _ (list_elem_of_here _ _)) as Hx.
      rewrite (IH _ Hx (forallb_elem _ _ _ Hj Hx) (within_limits_element _ _ Hw Hx)).
      cbn [mbind result_bind]. rewrite IHk by (intros; apply Hin; by right). done. }
    by rewrite (Hk l).
  - assert (∀ k, (∀ p, p ∈ k → p ∈ d) →
      (fix go (d : list (pystr * pyval)) : py (list (pystr * pyval)) :=
         match d with
         | [] => Ok []
         | (key, child) :: d' => x ← to_json_value child; r ← go d'; Ok ((key, x) :: r)
         end) k = Ok k) as Hk.
    { induction k as [|[key x] k IHk]; intros Hin; [done|]. rewrite Forall_forall in IH.
      pose proof (Hin _ (list_elem_of_here _ _)) as Hx.
      pose proof (IH _ Hx (json_document_member _ _ _ Hj Hx) (within_limits_member _ _ _ Hw Hx)) as E.
      cbn [snd] in E. rewrite E.
      cbn [mbind result_bind]. rewrite IHk by (intros; apply Hin; by right). done. }
    by rewrite (Hk d).
Qed.

(** ** What a satisfied schema says *)
Lemma ranked_mono member n m i schema :
  ranked member n i schema = true → (n ≤ m)%nat → ranked member m i schema = true.
Proof.
  revert m i schema. induction n as [|n IH]; intros m i schema; [done|].
  destruct m as [|m]; [lia|]. cbn [ranked]. rewrite !andb_true_iff. intros (? & Hs) Hm.
  split; [done|]. rewrite !forallb_Forall, !Forall_forall in *. intros p Hp.
  apply IH; [by apply Hs|lia].
Qed.

Lemma same_value_node root schema p :
  protocol_node root schema → p ∈ same_value root schema → protocol_node p.1 p.2.
Proof.
  intros Hn Hp. apply (rank_step _ _ protocol_ranking) in Hn as (m & Hm & _ & _ & Hs).
  specialize (Hs p Hp) as (i & ? & Hr). exists i. split; [done|]. eapply ranked_mono; [done|lia].
Qed.

Lemma child_node root schema p :
  protocol_node root schema → p ∈ child_schemas root schema → protocol_node p.1 p.2.
Proof. intros Hn Hp. apply (rank_step _ _ protocol_ranking) in Hn as (m & Hm & _ & Hc & _). by apply Hc. Qed.

Lemma satisfies_eq root schema v :
  protocol_node root schema → satisfies root schema v = conforms_step satisfies root schema v.
Proof.
  intros Hn. pose proof Hn as (m & Hm & _ & Hc & Hs)%(rank_step _ _ protocol_ranking).
  unfold satisfies at 1. change (S (height v) * RANK)%nat with (S (4 + height v * RANK)).
  cbn [conforms]. apply conforms_step_cong; [done|..].
  - intros p Hp. unfold satisfies. apply (conforms_equiv RANK protocol_rank _ _ m _ _ _ _ protocol_ranking);
      [by apply Hs|done|..]; unfold RANK in *; lia.
  - intros p x y Hp Hxy Hlt. unfold satisfies.
    apply (conforms_equiv RANK protocol_rank _ _ RANK _ _ _ _ protocol_ranking); [by apply Hc|done|..];
      unfold RANK in *; rewrite ?(height_equiv _ _ Hxy); rewrite ?(height_equiv _ _ Hxy) in Hlt; lia.
Qed.

Ltac open_satisfies H Hn :=
  rewrite (satisfies_eq _ _ _ Hn) in H; unfold conforms_step in H; rewrite !andb_true_iff in H.

Lemma satisfies_ref root schema ref r s v :
  protocol_node root schema → get schema "$ref" = Some (PStr ref) → resolve_ref root ref = Ok (r, s) →
  satisfies root schema v = true → satisfies r s v = true ∧ protocol_node r s.
Proof.
  intros Hn Hr Hres Hs. open_satisfies Hs Hn. destruct Hs as ((((Hs & _) & _) & _) & _).
  unfold ref_conforms in Hs. rewrite Hr, Hres in Hs. split; [done|].
  apply (same_value_node root schema (r, s) Hn). unfold same_value. rewrite Hr, Hres. by left.
Qed.

Lemma satisfies_type root schema v :
  protocol_node root schema → satisfies root schema v = true → type_valid (get schema "type") v = true.
Proof. intros Hn Hs. open_satisfies Hs Hn. naive_solver. Qed.

Lemma satisfies_literals root schema v :
  protocol_node root schema → satisfies root schema v = true → literals_conform schema v = true.
Proof. intros Hn Hs. open_satisfies Hs Hn. naive_solver. Qed.

(** The schema of a property. *)
Definition property (schema : pyval) (name : string) : option pyval :=
  match get schema "properties" with Some p => opt_dict (get p name) | None => None end.

Lemma property_node root schema name s :
  protocol_node root schema → property schema name = Some s → protocol_node root s.
Proof.
  unfold property. intros Hn Hp. apply (child_node root schema (root, s) Hn).
  apply (list_elem_of_fmap_2 (λ s, (root, s))), elem_of_app. left.
  destruct (get schema "properties") as [[| | | | | | | |d]|]; try done. cbn in Hp.
  destruct (assoc (u name) d) as [[]|] eqn:E; try done. injection Hp as <-.
  apply list_elem_of_filter. split; [done|]. apply assoc_elem in E.
  by apply (list_elem_of_fmap_2 snd) in E.
Qed.

Lemma satisfies_object root schema d :
  protocol_node root schema → satisfies root schema (PDict d) = true →
  object_conforms satisfies root schema d = true.
Proof. intros Hn Hs. open_satisfies Hs Hn. naive_solver. Qed.

Lemma satisfies_property root schema d name s x :
  protocol_node root schema → satisfies root schema (PDict d) = true →
  property schema name = Some s → assoc (u name) d = Some x → satisfies root s x = true.
Proof.
  intros Hn Hs%satisfies_object Hp Hx; [|done]. unfold object_conforms in Hs. rewrite !andb_true_iff in Hs.
  destruct Hs as (((_ & Hm) & _) & _). apply assoc_elem in Hx.
  pose proof (forallb_elem _ _ _ Hm Hx) as Hx'. unfold member_conforms in Hx'. cbn [fst snd] in Hx'.
  unfold property in Hp. destruct (get schema "properties") as [[| | | | | | | |ps]|]; try done.
  cbn in Hp. destruct (assoc (u name) ps) as [[]|]; try done. by injection Hp as <-.
Qed.

Lemma satisfies_required root schema d name :
  protocol_node root schema → satisfies root schema (PDict d) = true →
  PStr (u name) ∈ opt_list (get schema "required") → is_Some (assoc (u name) d).
Proof.
  intros Hn Hs%satisfies_object Hr; [|done]. unfold object_conforms in Hs. rewrite !andb_true_iff in Hs.
  destruct Hs as (((Hq & _) & _) & _). pose proof (forallb_elem _ _ _ Hq Hr) as Hin. cbn in Hin.
  apply bool_decide_eq_true, list_elem_of_fmap in Hin as ([k x] & E & Hin).
  destruct (assoc (u name) d) as [y|] eqn:Ha; [by eexists|]. exfalso. cbn in E. subst k.
  clear -Ha Hin. induction d as [|[k y] d IH]; [by apply elem_of_nil in Hin|]. cbn in Ha.
  case_decide; [done|]. apply elem_of_cons in Hin as [|]; [congruence|auto].
Qed.

Lemma satisfies_closed root schema d name x :
  protocol_node root schema → satisfies root schema (PDict d) = true →
  get schema "additionalProperties" = Some (PBool false) → (name, x) ∈ d →
  ∃ s, match get schema "properties" with Some (PDict ps) => assoc name ps | _ => None end = Some (PDict s).
Proof.
  intros Hn Hs%satisfies_object Ha Hx; [|done]. unfold object_conforms in Hs. rewrite !andb_true_iff in Hs.
  destruct Hs as (((_ & Hm) & _) & _). pose proof (forallb_elem _ _ _ Hm Hx) as Hx'.
  unfold member_conforms in Hx'. cbn [fst snd] in Hx'. rewrite Ha in Hx'.
  destruct (get schema "properties") as [[| | | | | | | |ps]|]; try done.
  destruct (assoc name ps) as [[]|]; try done. eauto.
Qed.

(** ** Reading and writing the wire types

    The tables of fields agree with the schemas: [check] compares a table with a
    schema, and [check_sound] shows that a class that passes reads every document
    of the schema, writes it back to an equal document, and reads that to the same
    DTO.  One computation checks all classes of the protocol. *)

Lemma converter_ind' (P : converter → Prop) :
  P Raw → P Copied → (∀ k p, P (WireString k p)) → (∀ vs, P (WireEnum vs)) → P Integer →
  (∀ cls fs, Forall (λ f, P f.2) fs → P (Nested cls fs)) → ∀ c, P c.
Proof.
  intros H1 H2 H3 H4 H5 H6. fix IH 1. intros [| | | | |cls fs]; [done|done|apply H3|apply H4|done|].
  apply H6. induction fs as [|[[[a w] o] c] fs IHfs]; constructor; [apply IH|exact IHfs].
Qed.

(** ** Soundness of a conversion *)
Definition sound (root schema : pyval) (c : converter) : Prop :=
  ∀ x, json_document x = true → within_limits x = true → satisfies root schema x = true →
  ∃ a w, convert c x = Ok a ∧ a ≠ ARaw PNone ∧ to_json a = Ok w ∧ convert c w = Ok a ∧ json_equiv x w.

(** ** Schemas with the same keywords *)
Definition KEYWORDS : list string := [
  "$ref"; "type"; "const"; "enum"; "allOf"; "anyOf"; "oneOf"; "not"; "if"; "then"; "else";
  "required"; "properties"; "additionalProperties"; "propertyNames"; "maxProperties"; "items";
  "maxItems"; "minLength"; "maxLength"; "pattern"; "format"; "minimum"; "maximum"].
Definition same_keywords (s s' : pyval) : bool := forallb (λ k, bool_decide (get s k = get s' k)) KEYWORDS.

Ltac in_list := repeat first [by left | right].

Lemma same_keywords_conforms sat root s s' v :
  same_keywords s s' = true → conforms_step sat root s v = conforms_step sat root s' v.
Proof.
  intros Hk. assert (∀ k, k ∈ KEYWORDS → get s k = get s' k) as Hget.
  { intros k Hin. pose proof (forallb_elem _ _ _ Hk Hin) as H. by apply bool_decide_eq_true in H. }
  assert (∀ b : bool, get s (if b then "then" else "else") = get s' (if b then "then" else "else")) as Hb.
  { intros []; apply Hget; unfold KEYWORDS; in_list. }
  clear Hk. unfold KEYWORDS in Hget.
  unfold conforms_step, ref_conforms, literals_conform, branches_conform, object_conforms,
    array_conforms, string_conforms, number_conforms, bound_of, member_conforms.
  rewrite (Hget "$ref"), (Hget "type"), (Hget "const"), (Hget "enum"), (Hget "allOf"), (Hget "anyOf"),
    (Hget "oneOf"), (Hget "not"), (Hget "if"), (Hget "required"), (Hget "properties"),
    (Hget "additionalProperties"), (Hget "propertyNames"), (Hget "maxProperties"), (Hget "items"),
    (Hget "maxItems"), (Hget "minLength"), (Hget "maxLength"), (Hget "pattern"), (Hget "format"),
    (Hget "minimum"), (Hget "maximum") by in_list.
  destruct (opt_dict (get s' "if")); [|done]. by rewrite Hb.
Qed.

(** The schema [s] refers to [s'], or has its keywords. *)
Definition entails (i : nat) (s : pyval) (j : nat) (s' : pyval) : bool :=
  match get s "$ref" with
  | Some (PStr ref) =>
      match resolve_position i ref with
      | Some (j', t) => (j =? j')%nat && bool_decide (t = s')
      | None => false
      end
  | _ => (i =? j)%nat && same_keywords s s'
  end.

Lemma entails_sound i s j s' x :
  protocol_node (root_of i) s → protocol_node (root_of j) s' → entails i s j s' = true →
  satisfies (root_of i) s x = true → satisfies (root_of j) s' x = true.
Proof.
  unfold entails. intros Hi Hj He Hs.
  assert ((i =? j)%nat && same_keywords s s' = true → satisfies (root_of j) s' x = true) as Hsame.
  { intros (->%Nat.eqb_eq & Hk)%andb_true_iff. rewrite satisfies_eq in * by done.
    by rewrite <-(same_keywords_conforms _ _ _ _ _ Hk). }
  destruct (get s "$ref") as [[| | | | | |ref| |]|] eqn:Hr; try by apply Hsame.
  destruct (resolve_position i ref) as [[j' t]|] eqn:Hp; [|done]. apply andb_true_iff in He as [E1 E2].
  apply Nat.eqb_eq in E1. apply bool_decide_eq_true in E2. subst j' t.
  apply resolve_position_spec in Hp. by destruct (satisfies_ref _ _ _ _ _ x Hi Hr Hp Hs).
Qed.

(** ** The check of a table *)
Definition has_type (s : pyval) : bool := match get s "type" with Some (PStr _) => true | _ => false end.
(** The type is in the schema or in the one it refers to. *)
Definition typed (i : nat) (s : pyval) : bool :=
  has_type s ||
  match get s "$ref" with
  | Some (PStr ref) => match resolve_position i ref with Some (_, t) => has_type t | None => false end
  | _ => false
  end.
Definition of_type (s : pyval) (t : string) : bool := eq_lit (opt_val (get s "type")) t.

Definition class_position (c : class_id) : option (nat * pyval) :=
  if bool_decide (schema_pointer_of c = ""%string)
  then (λ i, (i, root_of i)) <$> position (u (schema_kind c)) SCHEMAS.*1
  else if bool_decide ((schema_kind c, schema_pointer_of c) ∈ WIRE_FRAGMENTS)
  then fragment_position (schema_kind c, schema_pointer_of c)
  else None.

Definition enum_check (values : list string) (s : pyval) : bool :=
  match get s "enum", get s "const" with
  | Some (PList l), _ => forallb (λ v, match v with PStr t => bool_decide (t ∈ u <$> values) | _ => false end) l
  | _, Some (PStr t) => bool_decide (t ∈ u <$> values)
  | _, _ => false
  end.

(** The object schema has exactly the fields of the table. *)
Definition table_check (s : pyval) (fs : list field) : bool :=
  of_type s "object"
  && bool_decide (get s "additionalProperties" = Some (PBool false))
  && bool_decide (NoDup (wire_name <$> fs))
  && match get s "properties" with
     | Some (PDict ps) => forallb (λ k, bool_decide (k ∈ (λ f, u (wire_name f)) <$> fs)) ps.*1
     | _ => false
     end
  && forallb (λ f, is_optional f || bool_decide (PStr (u (wire_name f)) ∈ opt_list (get s "required"))) fs.

Fixpoint check (c : converter) (i : nat) (s : pyval) {struct c} : bool :=
  match c with
  | Raw | Copied => typed i s
  | WireString kind pointer =>
      bool_decide ((kind, pointer) ∈ WIRE_FRAGMENTS)
      && match fragment_position (kind, pointer) with
         | Some (j, s') => of_type s' "string" && entails i s j s'
         | None => false
         end
  | WireEnum values => enum_check values s
  | Integer => of_type s "integer"
  | Nested cls fs =>
      match class_position cls with
      | Some (j, s') =>
          entails i s j s' && table_check s' fs
          && (fix go (fs : list (string * string * bool * converter)) : bool :=
                match fs with
                | [] => true
                | (_, name, _, c) :: fs' =>
                    match property s' name with Some t => check c j t | None => false end && go fs'
                end) fs
      | None => false
      end
  end.

Definition field_check (j : nat) (s : pyval) (f : field) : bool :=
  match property s (wire_name f) with Some t => check (conversion f) j t | None => false end.

Lemma check_nested cls fs i s :
  check (Nested cls fs) i s = true → ∃ j s', class_position cls = Some (j, s') ∧
    entails i s j s' = true ∧ table_check s' fs = true ∧ forallb (field_check j s') fs = true.
Proof.
  cbn [check]. destruct (class_position cls) as [[j s']|]; [|done].
  intros ((He & Ht)%andb_true_iff & Hf)%andb_true_iff. exists j, s'. repeat split; [done..|].
  clear Ht. induction fs as [|[[[a n] o] c] fs IH]; [done|]. cbn [forallb] in *.
  apply andb_true_iff in Hf as [Hf1 Hf2]. apply andb_true_iff. auto.
Qed.

(** ** Conversions of leaves *)
Lemma has_type_not_none root s x :
  protocol_node root s → has_type s = true → satisfies root s x = true → x ≠ PNone.
Proof.
  intros Hn Ht Hs%satisfies_type ->; [|done]. unfold has_type in Ht.
  destruct (get s "type") as [[| | | | | |t| |]|]; try done. cbn [type_valid is_dict is_str] in Hs.
  by rewrite !andb_false_r in Hs.
Qed.

Lemma of_type_string root s x :
  protocol_node root s → of_type s "string" = true → satisfies root s x = true → ∃ t, x = PStr t.
Proof.
  intros Hn Ht Hs%satisfies_type; [|done]. apply eq_lit_iff in Ht.
  destruct (get s "type") as [e|]; [|done]. cbn in Ht. subst e. destruct x; try done. eauto.
Qed.

Lemma of_type_object root s x :
  protocol_node root s → of_type s "object" = true → satisfies root s x = true → ∃ d, x = PDict d.
Proof.
  intros Hn Ht Hs%satisfies_type; [|done]. apply eq_lit_iff in Ht.
  destruct (get s "type") as [e|]; [|done]. cbn in Ht. subst e. destruct x; try done. eauto.
Qed.

Lemma sound_value i s (c : converter) :
  protocol_node (root_of i) s → typed i s = true → (∀ x, convert c x = Ok (ARaw x)) →
  sound (root_of i) s c.
Proof.
  intros Hn Ht Hc x Hj Hw Hs.
  assert (x ≠ PNone) as Hx.
  { apply orb_true_iff in Ht as [Ht|Ht]; [by eapply has_type_not_none|].
    destruct (get s "$ref") as [[| | | | | |ref| |]|] eqn:Hr; try done.
    destruct (resolve_position i ref) as [[j t]|] eqn:Hp; [|done]. apply resolve_position_spec in Hp.
    destruct (satisfies_ref _ _ _ _ _ x Hn Hr Hp Hs). by eapply has_type_not_none. }
  exists (ARaw x), x. rewrite !Hc.
  split; [done|]. split; [congruence|]. split; [by apply to_json_value_id|done].
Qed.

Lemma fragment_of_position kind pointer j s :
  fragment_position (kind, pointer) = Some (j, s) → fragment_schema kind pointer = Some (root_of j, s).
Proof.
  unfold fragment_position, fragment_schema. cbn [fst snd]. rewrite assoc_position. fold ROOTS.
  destruct (position (u kind) SCHEMAS.*1) as [i|]; [|done].
  cbn [mbind option_bind fmap option_fmap option_map]. fold (root_of i).
  destruct (schema_pointer (root_of i) (u pointer)); [|done]. intros E. by injection E as -> ->.
Qed.

Lemma fragment_position_node kind pointer j s :
  (kind, pointer) ∈ WIRE_FRAGMENTS → fragment_position (kind, pointer) = Some (j, s) →
  protocol_node (root_of j) s.
Proof.
  intros Hin E%fragment_of_position. apply fragment_schema_node in Hin as (r & t & E' & Hn).
  rewrite E in E'. by injection E' as <- <-.
Qed.

Lemma validate_fragment_Ok kind pointer j s x :
  (kind, pointer) ∈ WIRE_FRAGMENTS → fragment_position (kind, pointer) = Some (j, s) →
  no_nan x = true → within_limits x = true → satisfies (root_of j) s x = true →
  validate_fragment kind pointer x = Ok ().
Proof.
  intros Hin E%fragment_of_position Hn Hw Hs. pose proof (validate_fragment_outcome _ _ _ _ x Hin E Hn) as Ho.
  unfold accepted in Ho. by rewrite Hw, Hs in Ho.
Qed.

Lemma sound_string i s kind pointer :
  protocol_node (root_of i) s → check (WireString kind pointer) i s = true →
  sound (root_of i) s (WireString kind pointer).
Proof.
  intros Hn Hc x Hj Hw Hs. cbn [check] in Hc. apply andb_true_iff in Hc as [Hin Hc].
  apply bool_decide_eq_true in Hin. destruct (fragment_position (kind, pointer)) as [[j s']|] eqn:E; [|done].
  apply andb_true_iff in Hc as [Ht He]. pose proof (fragment_position_node _ _ _ _ Hin E) as Hn'.
  pose proof (entails_sound _ _ _ _ _ Hn Hn' He Hs) as Hs'.
  destruct (of_type_string _ _ _ Hn' Ht Hs') as [t ->].
  pose proof (validate_fragment_Ok _ _ _ _ _ Hin E (json_document_no_nan _ Hj) Hw Hs') as Hv.
  exists (AStr t), (PStr t). cbn [convert]. unfold wire_string. by rewrite Hv.
Qed.

Lemma sound_enum root s values :
  protocol_node root s → enum_check values s = true → sound root s (WireEnum values).
Proof.
  intros Hn Hc x Hj Hw Hs%satisfies_literals; [|done].
  assert (∃ t, x = PStr t ∧ t ∈ u <$> values) as (t & -> & Ht).
  { unfold enum_check in Hc. unfold literals_conform in Hs. apply andb_true_iff in Hs as [Hconst Henum].
    assert (match get s "const" with Some (PStr t) => bool_decide (t ∈ u <$> values) | _ => false end = true →
            ∃ t, x = PStr t ∧ t ∈ u <$> values) as Hk.
    { destruct (get s "const") as [[| | | | | |t| |]|]; try done. intros Ht%bool_decide_eq_true.
      cbn [from_option] in Hconst. apply py_eqb_str in Hconst. eauto. }
    destruct (get s "enum") as [[| | | | | | |l|]|]; try by apply Hk.
    apply existsb_exists in Henum as (v & Hv & Hxv). apply list_elem_of_In in Hv.
    pose proof (forallb_elem _ _ _ Hc Hv) as Hin. destruct v; try done.
    apply bool_decide_eq_true in Hin. apply py_eqb_str in Hxv. eauto. }
  exists (AStr t), (PStr t). cbn [convert wire_enum]. by rewrite bool_decide_eq_true_2.
Qed.

Lemma int_of_integral x :
  match x with PInt _ => true | PDec d => dec_integral d | _ => false end = true →
  ∃ z, int_of x = Ok z ∧ json_equiv x (PInt z).
Proof.
  destruct x as [| | |z| |d| | |]; try done; [by exists z|].
  destruct d as [negative coef exp| |]; try done. intros Hd. cbn [int_of]. eexists. split; [done|].
  eapply equiv_number; [done..|]. unfold Q_scale. cbn in Hd. destruct (Z.leb_spec 0 exp) as [He|He].
  { unfold Qeq. cbn. unfold signed. destruct negative; lia. }
  cbn in Hd. apply Z.eqb_eq in Hd.
  assert (10 ^ (- exp) = Zpos (Pos.pow 10 (Z.to_pos (- exp)))) as E.
  { rewrite Pos2Z.inj_pow, Z2Pos.id by lia. done. }
  unfold Qeq. cbn [Qnum Qden inject_Z]. rewrite Z.mul_1_r, <-E. unfold signed.
  pose proof (Z.div_exact (Z.of_N coef) (10 ^ (- exp))) as [_ Hx]; [rewrite E; lia|].
  specialize (Hx Hd). destruct negative; lia.
Qed.

Lemma sound_integer root s :
  protocol_node root s → of_type s "integer" = true → sound root s Integer.
Proof.
  intros Hn Ht x Hj Hw Hs%satisfies_type; [|done]. apply eq_lit_iff in Ht.
  destruct (get s "type") as [e|]; [|done]. cbn in Ht. subst e.
  destruct (int_of_integral x) as (z & Hz & Hxz).
  { destruct x as [| | | | |d| | |]; try done. unfold type_valid in Hs.
    change (eq_lit (PStr (u "integer")) "integer") with true in Hs.
    change (eq_lit (PStr (u "integer")) "number") with false in Hs.
    by rewrite !andb_false_r, orb_false_r in Hs. }
  exists (AInt z), (PInt z). cbn [convert]. by rewrite Hz.
Qed.

(** ** Objects *)
Lemma equiv_of_assoc (d e : list (pystr * pyval)) :
  NoDup d.*1 → NoDup e.*1 → (∀ k, option_Forall2 json_equiv (assoc k d) (assoc k e)) →
  json_equiv (PDict d) (PDict e).
Proof.
  intros Hd He Hk.
  apply (equiv_dict _ ((λ p, (p.1, default PNone (assoc p.1 e))) <$> d)); [| |done].
  - apply Forall2_fmap_r, Forall_Forall2_diag, Forall_forall. intros [k x] Hx. cbn. split; [done|].
    specialize (Hk k). rewrite (elem_assoc _ _ _ Hd Hx) in Hk. by inversion Hk; subst.
  - apply NoDup_Permutation.
    + apply (NoDup_fmap_1 fst). rewrite <-list_fmap_compose. done.
    + by apply NoDup_fmap_1 in He.
    + intros [k y]. rewrite list_elem_of_fmap. specialize (Hk k). split.
      * intros ([k' x] & E & Hx). cbn in E. injection E as -> ->.
        rewrite (elem_assoc _ _ _ Hd Hx) in Hk. destruct (assoc k' e) as [y|] eqn:Ey; [|by inversion Hk].
        by apply assoc_elem.
      * intros Hy. rewrite (elem_assoc _ _ _ He Hy) in Hk.
        destruct (assoc k d) as [x|] eqn:Ex; [|by inversion Hk].
        exists (k, x). cbn. rewrite (elem_assoc _ _ _ He Hy). split; [done|]. by apply assoc_elem.
Qed.

(** The result of reading and writing one field. *)
Definition field_result (d : list (pystr * pyval)) (f : field) (r : option (attr * pyval)) : Prop :=
  match r with
  | None => assoc (u (wire_name f)) d = None ∧ is_optional f = true
  | Some (a, w) =>
      ∃ x, assoc (u (wire_name f)) d = Some x ∧ convert (conversion f) x = Ok a ∧ a ≠ ARaw PNone ∧
        to_json a = Ok w ∧ convert (conversion f) w = Ok a ∧ json_equiv x w
  end.

Definition read_result (fs : list field) (rs : list (option (attr * pyval)))
    : list (string * string * option attr) :=
  zip_with (λ f r, (attribute_name f, wire_name f, fst <$> r)) fs rs.
Definition written (fs : list field) (rs : list (option (attr * pyval))) : list (pystr * pyval) :=
  omap (λ p, (λ r, (u (wire_name p.1), r.2)) <$> p.2) (zip fs rs).

Lemma fields_results root s d fs :
  protocol_node root s → json_document (PDict d) = true → within_limits (PDict d) = true →
  satisfies root s (PDict d) = true →
  Forall (λ f, (is_optional f = true ∨ PStr (u (wire_name f)) ∈ opt_list (get s "required")) ∧
               ∃ t, property s (wire_name f) = Some t ∧ sound root t (conversion f)) fs →
  ∃ rs, Forall2 (field_result d) fs rs.
Proof.
  intros Hn Hj Hw Hs. induction 1 as [|f fs (Ho & t & Hp & Hf) _ (rs & IH)]; [by exists []|].
  assert (∃ r, field_result d f r) as [r Hr]; [|exists (r :: rs); by constructor].
  destruct (assoc (u (wire_name f)) d) as [x|] eqn:Ex.
  - pose proof (satisfies_property _ _ _ _ _ _ Hn Hs Hp Ex) as Hx. pose proof (assoc_elem _ _ _ Ex) as Hin.
    destruct (Hf x (json_document_member _ _ _ Hj Hin) (within_limits_member _ _ _ Hw Hin) Hx)
      as (a & w & ? & ? & ? & ? & ?).
    exists (Some (a, w)). exists x. by repeat split.
  - exists None. split; [done|]. destruct Ho as [|Ho]; [done|].
    destruct (satisfies_required _ _ _ _ Hn Hs Ho). congruence.
Qed.

Lemma read_loop d fs rs :
  Forall2 (λ f r, read_member (PDict d) (wire_name f) (is_optional f) (convert (conversion f))
                  = Ok (fst <$> r)) fs rs →
  (fix go (fields : list (string * string * bool * converter)) : py (list (string * string * option attr)) :=
     match fields with
     | [] => Ok []
     | (attribute, name, optional, c) :: fields' =>
         a ← read_member (PDict d) name optional (convert c); r ← go fields'; Ok ((attribute, name, a) :: r)
     end) fs = Ok (read_result fs (rs : list (option (attr * pyval)))).
Proof.
  induction 1 as [|[[[a n] o] c] r fs rs Hr _ IH]; [done|].
  unfold wire_name, is_optional, conversion in Hr. cbn [fst snd] in Hr. rewrite Hr.
  cbn [mbind result_bind]. by rewrite IH.
Qed.

Lemma field_result_read d f r :
  field_result d f r →
  read_member (PDict d) (wire_name f) (is_optional f) (convert (conversion f)) = Ok (fst <$> r).
Proof.
  unfold field_result, read_member, has_key, getitem, get. destruct r as [[a w]|].
  - intros (x & -> & Hc & _). rewrite andb_false_r. cbn [mbind result_bind]. by rewrite Hc.
  - by intros [-> ->].
Qed.

Lemma write_loop fs rs :
  Forall2 (λ f r, match r with Some (a, w) => a ≠ ARaw PNone ∧ to_json a = Ok w | None => True end) fs rs →
  (fix go (attributes : list (string * string * option attr)) : py (list (pystr * pyval)) :=
     match attributes with
     | [] => Ok []
     | (_, _, None) :: rest => go rest
     | (_, _, Some (ARaw PNone)) :: rest => go rest
     | (_, wire_name, Some value) :: rest =>
         x ← to_json value; r ← go rest; Ok ((u wire_name, x) :: r)
     end) (read_result fs rs) = Ok (written fs rs).
Proof.
  induction 1 as [|f [[a w]|] fs rs Hr _ IH]; [done| |exact IH]. destruct Hr as [Ha Hw].
  unfold read_result, written. cbn [zip_with zip omap list_omap fmap option_fmap option_map fst snd].
  fold (read_result fs rs). fold (written fs rs). rewrite IH, Hw.
  destruct a as [| |[]|]; done.
Qed.

(** The written object, key by key. *)
Lemma written_keys fs rs k : k ∈ (written fs rs).*1 → k ∈ (λ f, u (wire_name f)) <$> fs.
Proof.
  revert rs. induction fs as [|f fs IH]; intros [|r rs]; unfold written; cbn; try by intros ?%elem_of_nil.
  destruct r as [[a w]|]; cbn.
  - intros [->|Hk]%elem_of_cons; [by left|]. right. by apply (IH rs).
  - intros Hk. right. by apply (IH rs).
Qed.

Lemma assoc_not_key {A} k (d : list (pystr * A)) : k ∉ d.*1 → assoc k d = None.
Proof.
  intros Hk. destruct (assoc k d) as [x|] eqn:E; [|done]. destruct Hk. apply assoc_elem in E.
  by apply (list_elem_of_fmap_2 fst) in E.
Qed.

Lemma not_written fs rs f :
  wire_name f ∉ wire_name <$> fs → u (wire_name f) ∉ (written fs rs).*1.
Proof.
  intros Hf Hk%written_keys. apply Hf. apply list_elem_of_fmap in Hk as (g & E%(inj u) & Hg).
  rewrite E. by apply list_elem_of_fmap_2.
Qed.

Lemma written_nodup fs rs : NoDup (wire_name <$> fs) → NoDup (written fs rs).*1.
Proof.
  revert rs. induction fs as [|f fs IH]; intros [|r rs] Hn; try (by constructor).
  apply NoDup_cons in Hn as [Hf Hn]. unfold written. cbn. destruct r as [[a w]|]; cbn; [|by apply IH].
  apply NoDup_cons. split; [by apply not_written|by apply IH].
Qed.

Lemma written_head f fs r rs :
  wire_name f ∉ wire_name <$> fs → assoc (u (wire_name f)) (written (f :: fs) (r :: rs)) = snd <$> r.
Proof.
  intros Hf. unfold written. cbn. destruct r as [[a w]|]; cbn; [by rewrite decide_True|].
  by apply assoc_not_key, not_written.
Qed.

Lemma written_tail f fs r rs k :
  k ≠ u (wire_name f) → assoc k (written (f :: fs) (r :: rs)) = assoc k (written fs rs).
Proof. intros Hk. unfold written. cbn. destruct r as [[a w]|]; cbn; [by rewrite decide_False|done]. Qed.

(** Every field of [e] has the value that was written. *)
Lemma assoc_written d e fs rs :
  NoDup (wire_name <$> fs) → Forall2 (field_result d) fs rs →
  (∀ f, f ∈ fs → assoc (u (wire_name f)) e = assoc (u (wire_name f)) (written fs rs)) →
  Forall2 (λ f r, field_result d f r ∧ assoc (u (wire_name f)) e = snd <$> r) fs rs.
Proof.
  intros Hn HF. induction HF as [|f r fs rs Hr HF IH]; intros He; [constructor|].
  apply NoDup_cons in Hn as [Hf Hn]. constructor.
  - split; [done|]. rewrite He by (by left). by apply written_head.
  - apply IH; [done|]. intros g Hg. rewrite He by (by right). apply written_tail.
    intros E%(inj u). apply Hf. rewrite <-E. by apply list_elem_of_fmap_2.
Qed.

(** The written object is read to the same attributes. *)
Lemma written_result d fs rs :
  NoDup (wire_name <$> fs) → Forall2 (field_result d) fs rs →
  Forall2 (field_result (written fs rs)) fs rs.
Proof.
  intros Hn HF. eapply Forall2_impl; [by apply (assoc_written d (written fs rs))|].
  intros f [[a w]|] [Hr E]; cbn in *; [|naive_solver].
  destruct Hr as (x & _ & _ & Ha & Hj & Hc & _). exists w. by repeat split.
Qed.

Lemma written_equiv d fs rs :
  NoDup d.*1 → NoDup (wire_name <$> fs) → Forall2 (field_result d) fs rs →
  (∀ k, k ∈ d.*1 → k ∈ (λ f, u (wire_name f)) <$> fs) → json_equiv (PDict d) (PDict (written fs rs)).
Proof.
  intros Hd Hn HF Hk. apply equiv_of_assoc; [done|by apply written_nodup|]. intros k.
  destruct (decide (k ∈ (λ f, u (wire_name f)) <$> fs)) as [Hin|Hout].
  - apply list_elem_of_fmap in Hin as (f & -> & Hf).
    pose proof (assoc_written d (written fs rs) fs rs Hn HF (λ _ _, eq_refl)) as HA.
    apply list_elem_of_lookup in Hf as [i Hi]. destruct (Forall2_lookup_l _ _ _ _ _ HA Hi) as (r & _ & Hr & ->).
    destruct r as [[a w]|]; cbn in *; [|destruct Hr as [-> _]; constructor].
    destruct Hr as (x & -> & _ & _ & _ & _ & Hxw). by constructor.
  - rewrite (assoc_not_key k d) by auto. rewrite assoc_not_key; [constructor|].
    intros ?%written_keys. auto.
Qed.

(** ** Classes *)
Lemma class_position_node cls j s : class_position cls = Some (j, s) → protocol_node (root_of j) s.
Proof.
  unfold class_position. case_bool_decide as Hp.
  - destruct (position (u (schema_kind cls)) SCHEMAS.*1) as [i|] eqn:E; [|done].
    cbn [fmap option_fmap option_map]. intros E'. injection E' as <- <-. apply (schema_node (schema_kind cls)).
    rewrite assoc_position, E. done.
  - case_bool_decide; [|done]. by apply fragment_position_node.
Qed.

Lemma validate_result_Ok cls j s x :
  class_position cls = Some (j, s) → is_dict x = true → no_nan x = true → within_limits x = true →
  satisfies (root_of j) s x = true → validate_result cls x = Ok ().
Proof.
  intros Hc Hd Hn Hw Hs. unfold class_position, validate_result in *. case_bool_decide as Hp.
  - destruct (position (u (schema_kind cls)) SCHEMAS.*1) as [i|] eqn:E; [|done].
    cbn [fmap option_fmap option_map] in Hc. injection Hc as <- <-.
    pose proof (validate_document_outcome (schema_kind cls) (root_of i) x) as Ho.
    rewrite assoc_position, E in Ho. specialize (Ho eq_refl Hn).
    unfold accepted in Ho. rewrite Hd, Hw, Hs in Ho. cbn [andb] in Ho. by rewrite Ho.
  - case_bool_decide; [|done]. by eapply validate_fragment_Ok.
Qed.

Lemma table_check_spec s fs :
  table_check s fs = true →
  of_type s "object" = true ∧ get s "additionalProperties" = Some (PBool false) ∧
  NoDup (wire_name <$> fs) ∧
  (∀ k t, match get s "properties" with Some (PDict ps) => assoc k ps | _ => None end = Some t →
     k ∈ (λ f, u (wire_name f)) <$> fs) ∧
  ∀ f, f ∈ fs → is_optional f = true ∨ PStr (u (wire_name f)) ∈ opt_list (get s "required").
Proof.
  unfold table_check. rewrite !andb_true_iff. intros ((((Ht & Ha) & Hn) & Hp) & Hr).
  apply bool_decide_eq_true in Ha, Hn. repeat split; [done..| |].
  - intros k t Hk. destruct (get s "properties") as [[| | | | | | | |ps]|]; try done.
    apply assoc_elem, (list_elem_of_fmap_2 fst) in Hk. pose proof (forallb_elem _ _ _ Hp Hk) as Hin.
    by apply bool_decide_eq_true in Hin.
  - intros f Hf. pose proof (forallb_elem _ _ _ Hr Hf) as Hin.
    apply orb_true_iff in Hin as [|Hin]; [by left|]. apply bool_decide_eq_true in Hin. by right.
Qed.

Lemma sound_nested cls fs i s :
  Forall (λ f, ∀ i s, protocol_node (root_of i) s → check f.2 i s = true → sound (root_of i) s f.2) fs →
  protocol_node (root_of i) s → check (Nested cls fs) i s = true → sound (root_of i) s (Nested cls fs).
Proof.
  intros IH Hn Hc x Hj Hw Hs. apply check_nested in Hc as (j & s' & Hcls & He & Ht & Hf).
  pose proof (class_position_node _ _ _ Hcls) as Hn'.
  pose proof (entails_sound _ _ _ _ _ Hn Hn' He Hs) as Hs'.
  apply table_check_spec in Ht as (Hobj & Hadd & Hnd & Hprops & Hreq).
  destruct (of_type_object _ _ _ Hn' Hobj Hs') as [d ->]. pose proof (json_document_keys _ Hj) as Hd.
  destruct (fields_results _ _ d fs Hn' Hj Hw Hs') as [rs Hrs].
  { apply Forall_forall. intros f Hin. split; [by apply Hreq|].
    pose proof (forallb_elem _ _ _ Hf Hin) as Hfc. unfold field_check in Hfc.
    destruct (property s' (wire_name f)) as [t|] eqn:Hp; [|done]. exists t. split; [done|].
    rewrite Forall_forall in IH. apply (IH f Hin); [|done]. by eapply property_node. }
  assert (json_equiv (PDict d) (PDict (written fs rs))) as Heq.
  { apply written_equiv; [done..|]. intros k ([k' y] & -> & Hin)%list_elem_of_fmap. cbn.
    destruct (satisfies_closed _ _ _ _ _ Hn' Hs' Hadd Hin) as [t Hk]. by eapply Hprops. }
  exists (ADto cls (read_result fs rs)), (PDict (written fs rs)). cbn [convert to_json].
  rewrite (read_loop d fs rs) by (eapply Forall2_impl; [done|apply field_result_read]).
  rewrite (read_loop (written fs rs) fs rs)
    by (eapply Forall2_impl; [by apply (written_result d)|apply field_result_read]).
  rewrite write_loop.
  2:{ eapply Forall2_impl; [exact Hrs|]. intros f [[a w]|]; cbn; [|done]. naive_solver. }
  cbn [mbind result_bind].
  rewrite (validate_result_Ok cls j s'); [done|done|done|..].
  - rewrite <-(no_nan_equiv _ _ Heq). by apply json_document_no_nan.
  - by rewrite <-(within_limits_equiv _ _ Heq).
  - by rewrite <-(satisfies_equiv _ _ _ _ Hn' Heq).
Qed.

Lemma check_sound c i s :
  protocol_node (root_of i) s → check c i s = true → sound (root_of i) s c.
Proof.
  revert i s. induction c as [| |k p|vs| |cls fs IH] using converter_ind'; intros i s Hn Hc.
  - by apply sound_value.
  - apply sound_value; [done..|]. intros x. cbn. by rewrite copy_json_id.
  - by apply sound_string.
  - by apply sound_enum.
  - by apply sound_integer.
  - by apply sound_nested.
Qed.
