(* ===== verification/WireProtocol.v ===== *)
(** * The documents of the protocol

    The results about structural validation and the wire types, for the classes
    that the generated module defines: validation ends and decides conformance,
    parsing is total on conforming documents, and parsing and writing are inverse
    to each other. *)

From stdpp Require Import base list list_numbers numbers strings.
From S2P Require Import Prelude PyString Regex Errors Timestamp PyValue Schemas Decimal Unicode.
From S2P Require Import Structure StructureFacts Conformance Wire WireSound.
Open Scope Z_scope.

(** The classes that have a parser, with it. *)
Definition DOCUMENT_CLASSES : list dto_class :=
  [ActionRequest; AuthorizationDecision; ApprovalRecord; ProtocolError; ReconciliationRecord].
(** The classes of parts of documents. *)
Definition PART_CLASSES : list dto_class :=
  [Adapter; TaskBinding; ActionTarget; ActionContext; ApprovalSummary; CacheDirective; DeliveryPolicy;
   ReconciliationAcknowledgement; ReconciliationDiscard].

Definition class_check (c : dto_class) : bool :=
  match class_position (class c) with Some (j, s) => check (nested c) j s | None => false end.

Lemma classes_checked :
  forallb class_check (DOCUMENT_CLASSES ++ PART_CLASSES)
  && forallb (λ c, bool_decide (schema_pointer_of (class c) = ""%string)) DOCUMENT_CLASSES = true.
Proof. vm_compute. reflexivity. Qed.

(** The position of the schema of a document class. *)
Lemma document_class c :
  c ∈ DOCUMENT_CLASSES → ∃ i, position (u (schema_kind (class c))) SCHEMAS.*1 = Some i ∧
    class_position (class c) = Some (i, root_of i) ∧ check (nested c) i (root_of i) = true.
Proof.
  intros Hc. pose proof classes_checked as H. apply andb_true_iff in H as [H1 H2].
  pose proof (forallb_elem _ _ _ H2 Hc) as Hp. apply bool_decide_eq_true in Hp.
  assert (c ∈ DOCUMENT_CLASSES ++ PART_CLASSES) as Hin by (apply elem_of_app; by left).
  pose proof (forallb_elem _ _ _ H1 Hin) as Hk. unfold class_check in Hk.
  destruct (class_position (class c)) as [[j s]|] eqn:E; [|done].
  pose proof E as E'. unfold class_position in E'. rewrite bool_decide_eq_true_2 in E' by done.
  destruct (position _ _) as [i|]; [|done]. cbn [fmap option_fmap option_map] in E'.
  injection E' as <- <-. eauto.
Qed.

(** The schema of a document class, and the documents it admits. *)
Definition document_schema (c : dto_class) : pyval := default PNone (assoc (u (schema_kind (class c))) SCHEMAS).
Definition valid_document (c : dto_class) (v : pyval) : bool :=
  is_dict v && (within_limits v && satisfies (document_schema c) (document_schema c) v).

Lemma document_class_sound c v :
  c ∈ DOCUMENT_CLASSES → json_document v = true → valid_document c v = true →
  ∃ r w, parse_with c v = Ok r ∧ to_dict r = Ok w ∧ parse_with c w = Ok r ∧ json_equiv v w.
Proof.
  intros Hc Hj Hv. destruct (document_class c Hc) as (i & Hi & Hp & Hk).
  assert (assoc (u (schema_kind (class c))) SCHEMAS = Some (root_of i)) as Hs.
  { rewrite assoc_position, Hi. done. }
  assert (document_schema c = root_of i) as Hds by (unfold document_schema; by rewrite Hs).
  unfold valid_document in Hv. rewrite Hds in Hv.
  apply andb_true_iff in Hv as [Hd Ha]. pose proof Ha as Ha'. apply andb_true_iff in Ha as [Hw Hsat].
  pose proof (class_position_node _ _ _ Hp) as Hn.
  destruct (check_sound _ _ _ Hn Hk v Hj Hw Hsat) as (r & w & Hr & _ & Hw' & Hrw & Heq).
  exists r, w. unfold parse_with.
  pose proof (validate_document_outcome _ _ v Hs (json_document_no_nan _ Hj)) as Ho.
  unfold accepted in Ho. rewrite Hd, Ha' in Ho. cbn [andb] in Ho. rewrite Ho.
  pose proof (validate_document_outcome _ _ w Hs) as Ho'.
  rewrite <-(no_nan_equiv _ _ Heq) in Ho'. specialize (Ho' (json_document_no_nan _ Hj)).
  unfold accepted in Ho'.
  rewrite <-(within_limits_equiv _ _ Heq), <-(satisfies_equiv _ _ _ _ Hn Heq), Ha' in Ho'.
  assert (is_dict w = true) as Hdw by (by rewrite <-(is_dict_equiv _ _ Heq)).
  rewrite Hdw in Ho'. cbn [andb] in Ho'. rewrite Ho'. done.
Qed.

Lemma invalid_document c v :
  c ∈ DOCUMENT_CLASSES → json_document v = true → valid_document c v = false →
  ∃ message, parse_with c v = Raise (ProtocolStructureError message).
Proof.
  intros Hc Hj Hv. destruct (document_class c Hc) as (i & Hi & Hp & Hk).
  assert (assoc (u (schema_kind (class c))) SCHEMAS = Some (root_of i)) as Hs.
  { rewrite assoc_position, Hi. done. }
  assert (document_schema c = root_of i) as Hds by (unfold document_schema; by rewrite Hs).
  unfold valid_document in Hv. rewrite Hds in Hv.
  pose proof (validate_document_outcome _ _ v Hs (json_document_no_nan _ Hj)) as Ho.
  unfold accepted in Ho. rewrite Hv in Ho. destruct Ho as [message Ho]. exists message.
  unfold parse_with. by rewrite Ho.
Qed.

(** C17: Parsing decides conformance.  On every JSON document the parser of a class
    ends; it returns a DTO exactly when the document is an object within the memory
    limits that satisfies the schema of the class, and raises
    [ProtocolStructureError] otherwise.  No other exception leaves it. *)
Theorem parse_decides_conformance c v :
  c ∈ DOCUMENT_CLASSES → json_document v = true →
  if valid_document c v then ∃ r, parse_with c v = Ok r
  else ∃ message, parse_with c v = Raise (ProtocolStructureError message).
Proof.
  intros Hc Hj. destruct (valid_document c v) eqn:Hv; [|by apply invalid_document].
  destruct (document_class_sound c v Hc Hj Hv) as (r & _ & Hr & _). eauto.
Qed.

(** C3: Documents round-trip through the wire types.  A parsed document is written
    by [to_dict] without an error to an equal document (up to the order of members
    and the type of integers), and that document is parsed to the same DTO. *)
Theorem document_round_trip c v r :
  c ∈ DOCUMENT_CLASSES → json_document v = true → parse_with c v = Ok r →
  ∃ w, to_dict r = Ok w ∧ json_equiv v w ∧ parse_with c w = Ok r.
Proof.
  intros Hc Hj Hr. destruct (valid_document c v) eqn:Hv.
  - destruct (document_class_sound c v Hc Hj Hv) as (r' & w & Hr' & Hw & Hrw & Heq). same_call. eauto.
  - destruct (invalid_document c v Hc Hj Hv) as [message Hm]. congruence.
Qed.

(** Validation terminates.  On a value within the memory limits, a call of
    [_validate] on a schema of the protocol ends after at most 170 nested calls
    (of the 1000 that Python allows by default, at three frames per call): it
    returns if the value satisfies the schema and raises [ProtocolStructureError]
    if it does not, whatever larger depth is available. *)
Theorem validation_terminates kind schema v depth path :
  assoc (u kind) SCHEMAS = Some schema → no_nan v = true → within_limits v = true →
  (VALIDATION_DEPTH ≤ depth)%nat →
  if satisfies schema schema v then validate depth schema schema v path = Ok ()
  else ∃ message, validate depth schema schema v path = Raise (ProtocolStructureError message).
Proof.
  intros Hk Hn Hw Hd. apply validate_satisfies; [by eapply schema_node|done|].
  apply within_limits_height in Hw. unfold VALIDATION_DEPTH, RANK in *. lia.
Qed.

(** The memory limits are exact.  The work list of [_validate_memory_limits]
    ends on every value; it accepts exactly the values of at most 4096 nodes, at
    most 32 levels deep, whose collections have at most 1024 items and whose texts
    are encodable in at most 8192 bytes, and raises [ProtocolStructureError] on all
    others. *)
Theorem memory_limits_exact v :
  if within_limits v then validate_memory_limits v = Ok ()
  else ∃ message, validate_memory_limits v = Raise (ProtocolStructureError message).
Proof. apply memory_limits_outcome. Qed.
