(* ===== verification/WireStrings.v ===== *)
(** * Identifiers on the wire

    The classes of identifiers validate a schema fragment with a pattern such as
    [^act_[0-7][0-9A-HJKMNP-TV-Z]{25}$].  Here the pattern, compiled and run by the
    matcher, is shown to be the predicate [prefixed_ulid] that the rest of the
    development uses for identifiers. *)

From stdpp Require Import base list list_numbers numbers strings.
From S2P Require Import Prelude PyString Regex Errors Timestamp PyValue Schemas Decimal Unicode.
From S2P Require Import Structure StructureFacts Conformance Wire WireSound.
Open Scope Z_scope.

(** ** The pattern *)
Definition CROCKFORD : list (Z * Z) :=
  [(48, 57); (65, 72); (74, 74); (75, 75); (77, 77); (78, 78); (80, 84); (86, 90)].
Definition literal (p : pystr) (r : regex) : regex := foldr (λ c r, RSeq (RChar c) r) r p.
Definition ulid_regex (prefix : string) : regex :=
  RSeq RBegin (literal (u prefix)
    (RSeq (RClass [(48, 55)]) (RSeq (rpower (RClass CROCKFORD) 25) (RSeq REnd REps)))).
Definition ulid_pattern (prefix : string) : pystr :=
  u "^" ++ u prefix ++ u "[0-7][0-9A-HJKMNP-TV-Z]{25}$".
Definition ulid_length (prefix : string) : Z := Z.of_nat (length (u prefix)) + 26.

(** ** Matching it *)
Lemma run_literal p r k st s :
  p ≠ [] → run (literal p r) k st s = startswith p s && run r k false (drop (length p) s).
Proof.
  revert st s. induction p as [|c p IH]; intros st s Hp; [done|]. cbn [literal foldr run RChar].
  destruct s as [|x s]; [done|]. cbn [in_ranges existsb]. rewrite startswith_cons, orb_false_r.
  replace ((c <=? x) && (x <=? c)) with (x =? c).
  2:{ apply eq_true_iff_eq. rewrite andb_true_iff, Z.eqb_eq, !Z.leb_le. lia. }
  destruct (x =? c); [|done]. cbn [andb length drop]. destruct p as [|d p].
  { unfold startswith. cbn. by destruct s. }
  by apply IH.
Qed.

Lemma run_power ranges n k s :
  run (rpower (RClass ranges) n) k false s =
  (n <=? length s)%nat && forallb (in_ranges ranges) (take n s) && k false (drop n s).
Proof.
  revert s. induction n as [|n IH]; intros s; [done|]. cbn [rpower run].
  destruct s as [|c s]; [done|]. cbn [length take drop forallb].
  destruct (in_ranges ranges c); cbn [andb]; [|by rewrite andb_false_r]. apply IH.
Qed.

Lemma search_begin r s : search (RSeq RBegin r) s = run r (λ _ _, true) true s.
Proof.
  unfold search. assert (∀ s, search_from (RSeq RBegin r) false s = false) as Hf.
  { clear s. induction s as [|c s IH]; cbn; [done|]. exact IH. }
  destruct s as [|c s]; cbn [search_from run].
  - by destruct (run r _ _ _).
  - rewrite Hf. by destruct (run r _ _ _).
Qed.

Lemma in_crockford c : in_ranges CROCKFORD c = is_crockford c.
Proof.
  unfold in_ranges, CROCKFORD, is_crockford, is_digit, is_upper. cbn [existsb].
  apply eq_true_iff_eq. rewrite !orb_true_iff, !andb_true_iff, !negb_true_iff, !Z.leb_le, !Z.eqb_neq.
  split; [|intros H; assert (c ≠ 73 ∨ c = 73) by lia]; lia.
Qed.

Lemma search_ulid prefix s :
  prefix ≠ ""%string → Z.of_nat (length s) = ulid_length prefix →
  search (ulid_regex prefix) s = prefixed_ulid prefix s.
Proof.
  intros Hp Hl. unfold ulid_regex, prefixed_ulid. rewrite search_begin, run_literal by (by destruct prefix).
  destruct (startswith (u prefix) s) eqn:Hs; [|done]. cbn [andb].
  assert (length (drop (length (u prefix)) s) = 26%nat) as Hr.
  { rewrite length_drop. unfold ulid_length in Hl. lia. }
  destruct (drop (length (u prefix)) s) as [|c r]; [done|]. cbn in Hr. injection Hr as Hr.
  change (run (RSeq (RClass [(48, 55)]) (RSeq (rpower (RClass CROCKFORD) 25) (RSeq REnd REps))) (λ _ _, true) false (c :: r))
    with (if in_ranges [(48, 55)] c
          then run (rpower (RClass CROCKFORD) 25) (λ st s, if at_end s then true else false) false r else false).
  rewrite run_power, Hr, Nat.leb_refl. cbn [andb in_ranges existsb is_ulid].
  rewrite Hr, orb_false_r, take_ge, drop_ge by lia. cbn [at_end]. rewrite !andb_true_r.
  replace (forallb (in_ranges CROCKFORD) r) with (forallb is_crockford r).
  { change (25 =? 25)%nat with true. by destruct ((48 <=? c) && (c <=? 55)). }
  clear. induction r as [|x r IH]; cbn [forallb]; [done|]. by rewrite IH, in_crockford.
Qed.

Lemma prefixed_ulid_length prefix s :
  prefixed_ulid prefix s = true → Z.of_nat (length s) = ulid_length prefix.
Proof.
  unfold prefixed_ulid, is_ulid, ulid_length. intros (Hs & Hd)%andb_true_iff.
  destruct (drop (length (u prefix)) s) as [|c r] eqn:E; [done|].
  apply andb_true_iff in Hd as [(_ & Hl)%andb_true_iff _]. apply Nat.eqb_eq in Hl.
  apply (f_equal length) in E. rewrite length_drop in E. cbn in E. lia.
Qed.

(** ** Fragments of identifiers *)
Definition ulid_schema (prefix : string) : pyval :=
  PDict [(u "maxLength", PInt (ulid_length prefix)); (u "minLength", PInt (ulid_length prefix));
         (u "pattern", PStr (ulid_pattern prefix)); (u "type", PStr (u "string"))].

(** The prefix, the schema kind and the pointer of every class of identifiers
    with one prefix. *)
Definition IDENTIFIERS : list (string * (string * string)) := [
  ("act_", ("common", "/$defs/actionId")); ("req_", ("common", "/$defs/requestId"));
  ("corr_", ("common", "/$defs/correlationId")); ("authz_", ("common", "/$defs/idempotencyKey"));
  ("task_", ("common", "/$defs/taskId")); ("session_", ("common", "/$defs/sessionId"));
  ("dec_", ("common", "/$defs/decisionId")); ("apr_", ("common", "/$defs/approvalId"));
  ("audit_", ("common", "/$defs/auditRef"));
  ("approval_", ("approval", "/$defs/resolutionIdempotencyKey"));
  ("recon_", ("reconciliation", "/properties/reconciliationId"));
  ("batch_", ("reconciliation", "/properties/batchId"));
  ("receipt_", ("reconciliation", "/properties/acknowledgement/properties/receiptId"))].

Lemma identifiers_checked :
  forallb (λ e, bool_decide (e.1 ≠ ""%string) && bool_decide (e.2 ∈ WIRE_FRAGMENTS)
    && bool_decide (compile (ulid_pattern e.1) = Some (ulid_regex e.1))
    && forallb (λ c, (0 <=? c) && (c <? 128)) (u e.1) && (ulid_length e.1 <=? MAX_STRING_BYTES)
    && match fragment_position e.2 with Some (_, s) => same_keywords s (ulid_schema e.1) | None => false end)
    IDENTIFIERS = true.
Proof. vm_compute. reflexivity. Qed.

Lemma ulid_schema_conforms sat root prefix s :
  compile (ulid_pattern prefix) = Some (ulid_regex prefix) → prefix ≠ ""%string →
  conforms_step sat root (ulid_schema prefix) (PStr s) = prefixed_ulid prefix s.
Proof.
  intros Hc Hp.
  transitivity ((ulid_length prefix <=? Z.of_nat (length s)) && (Z.of_nat (length s) <=? ulid_length prefix)
                && from_option (λ r, search r s) false (compile (ulid_pattern prefix)) && true); [done|].
  rewrite Hc, andb_true_r. cbn [from_option].
  destruct (decide (Z.of_nat (length s) = ulid_length prefix)) as [E|E].
  - rewrite E, !Z.leb_refl. cbn [andb]. by apply search_ulid.
  - destruct (prefixed_ulid prefix s) eqn:Hs; [by apply prefixed_ulid_length in Hs|].
    destruct (Z.leb_spec (ulid_length prefix) (Z.of_nat (length s))); [|done].
    rewrite (proj2 (Z.leb_gt _ _)) by lia. done.
Qed.

(** The text of an identifier is within the limits. *)
Lemma crockford_ascii c : is_crockford c = true → 0 ≤ c < 128.
Proof.
  unfold is_crockford, is_digit, is_upper. rewrite orb_true_iff, !andb_true_iff, !Z.leb_le. lia.
Qed.

Definition ascii (s : pystr) : bool := forallb (λ c, (0 <=? c) && (c <? 128)) s.

Lemma ascii_text_ok s : ascii s = true → Z.of_nat (length s) ≤ MAX_STRING_BYTES → text_ok s = true.
Proof.
  intros Ha Hl. unfold text_ok. rewrite utf8_encode_ascii; [by apply Z.leb_le|].
  apply forallb_Forall in Ha. eapply Forall_impl; [exact Ha|]. intros c (H1 & H2)%andb_true_iff.
  apply Z.leb_le in H1. apply Z.ltb_lt in H2. lia.
Qed.

Lemma prefixed_ulid_ascii prefix s :
  ascii (u prefix) = true → prefixed_ulid prefix s = true → ascii s = true.
Proof.
  unfold prefixed_ulid, startswith. intros Hp (Hs%str_eqb_eq & Hd)%andb_true_iff.
  rewrite <-(take_drop (length (u prefix)) s), Hs. unfold ascii. rewrite forallb_app. fold (ascii (u prefix)).
  rewrite Hp. cbn [andb]. unfold is_ulid in Hd. destruct (drop (length (u prefix)) s) as [|c r]; [done|].
  rewrite !andb_true_iff, !Z.leb_le in Hd. destruct Hd as (((H1 & H2) & _) & Hr). cbn [forallb].
  apply andb_true_iff. split; [apply andb_true_iff; rewrite Z.leb_le, Z.ltb_lt; lia|].
  apply forallb_Forall. apply forallb_Forall in Hr. eapply Forall_impl; [exact Hr|].
  intros x Hx%crockford_ascii. rewrite andb_true_iff, Z.leb_le, Z.ltb_lt. lia.
Qed.

Lemma identifier_outcome prefix kind pointer s :
  (prefix, (kind, pointer)) ∈ IDENTIFIERS →
  if prefixed_ulid prefix s then wire_string kind pointer (PStr s) = Ok (AStr s)
  else ∃ message, wire_string kind pointer (PStr s) = Raise (ProtocolStructureError message).
Proof.
  intros Hin. pose proof (forallb_elem _ _ _ identifiers_checked Hin) as Hc. cbn [fst snd] in Hc.
  rewrite !andb_true_iff, !bool_decide_eq_true, Z.leb_le in Hc.
  destruct Hc as (((((Hp & Hf) & Hre) & Ha) & Hl) & Hk).
  destruct (fragment_position (kind, pointer)) as [[j t]|] eqn:E; [|done].
  pose proof (fragment_position_node _ _ _ _ Hf E) as Hn.
  pose proof (validate_fragment_outcome _ _ _ _ (PStr s) Hf (fragment_of_position _ _ _ _ E) eq_refl) as Ho.
  assert (accepted (root_of j) t (PStr s) = prefixed_ulid prefix s) as Hacc.
  { unfold accepted. rewrite (satisfies_eq _ _ _ Hn), (same_keywords_conforms _ _ _ _ _ Hk).
    rewrite (ulid_schema_conforms _ _ _ _ Hre Hp).
    destruct (prefixed_ulid prefix s) eqn:Hs; [|by rewrite andb_false_r]. rewrite andb_true_r.
    unfold within_limits. cbn [sized node_count]. rewrite ascii_text_ok; [done| |].
    - by apply (prefixed_ulid_ascii prefix).
    - apply prefixed_ulid_length in Hs. lia. }
  rewrite Hacc in Ho. unfold wire_string. destruct (prefixed_ulid prefix s); cbn [outcome] in Ho.
  - by rewrite Ho.
  - destruct Ho as [message ->]. exists message. done.
Qed.

(** Identifier classes accept exactly the prefixed ULIDs.  The constructor of
    each class of identifiers, which interprets the schema fragment and runs its
    pattern, returns the text if it is the prefix of the class, a character [0] to
    [7] and 25 Crockford base-32 characters; on any other text it raises
    [ProtocolStructureError].  A trailing newline, which [$] would let through, is
    excluded by the length. *)
Theorem identifiers_are_prefixed_ulids prefix kind pointer s :
  (prefix, (kind, pointer)) ∈ IDENTIFIERS →
  if prefixed_ulid prefix s then wire_string kind pointer (PStr s) = Ok (AStr s)
  else ∃ message, wire_string kind pointer (PStr s) = Raise (ProtocolStructureError message).
Proof. apply identifier_outcome. Qed.
