(* ===== verification/Identifiers.v ===== *)
(** * Identifiers

    Models the first half of [python/src/palonexus/context.py]: the generator of
    monotonic ULIDs with its state per process.  What a call reads from the
    operating system is an argument: the process id, the clock and the result of
    [secrets.token_bytes]. *)

From stdpp Require Import base list list_numbers numbers strings sorting.
From S2P Require Import Prelude PyString Regex Errors Timestamp PyValue Schemas Decimal Unicode.
From S2P Require Import Structure StructureFacts Conformance Wire WireSound.
From S2P Require Import WireStrings.
Open Scope Z_scope.

(** ** ULIDs *)
Definition CROCKFORD32 : pystr := u "0123456789ABCDEFGHJKMNPQRSTVWXYZ".
Definition MAX_ULID_TIMESTAMP : Z := Z.shiftl 1 48 - 1.
Definition MAX_RANDOMNESS : Z := Z.shiftl 1 80 - 1.

Definition PREFIXES (kind : string) : option string :=
  if bool_decide (kind = "action"%string) then Some "act_"%string
  else if bool_decide (kind = "request"%string) then Some "req_"%string
  else if bool_decide (kind = "correlation"%string) then Some "corr_"%string
  else if bool_decide (kind = "idempotency"%string) then Some "authz_"%string
  else if bool_decide (kind = "task"%string) then Some "task_"%string
  else if bool_decide (kind = "session"%string) then Some "session_"%string
  else if bool_decide (kind = "causation"%string) then Some "cause_"%string
  else None.

(** The loop of [_encode_ulid]: from the last character to the first. *)
Definition crockford_char (digit : Z) : Z := nth (Z.to_nat digit) CROCKFORD32 0.
Fixpoint encode_digits (count : nat) (value : Z) (encoded : pystr) : pystr :=
  match count with
  | O => encoded
  | S count => encode_digits count (Z.shiftr value 5) (crockford_char (Z.land value 31) :: encoded)
  end.
Definition encode_ulid (value : Z) : pystr := encode_digits 26 value [].

(** ** The generator *)
Record generator := Generator {
  gen_pid : Z;
  last_timestamp : Z;
  last_randomness : Z
}.

(** What one call observes: [os.getpid()], [time.time_ns()] and, if it is
    called, the result of [secrets.token_bytes(10)] ([None] if it raises). *)
Record observation := Observation {
  obs_pid : Z;
  time_ns : Z;
  token_bytes : option (list Z)
}.

(** [int.from_bytes(random_bytes, "big")]. *)
Definition from_bytes (bytes : list Z) : Z := foldl (λ n b, n * 256 + b) 0 bytes.

Definition new_generator (pid : Z) : generator := Generator pid (-1) (-1).
(** [_after_fork_child] and [_reset_if_forked]. *)
Definition after_fork_child (pid : Z) (g : generator) : generator := Generator pid (-1) (-1).
Definition reset_if_forked (pid : Z) (g : generator) : generator :=
  if negb (pid =? gen_pid g) then after_fork_child pid g else g.

(** The timestamp and the randomness of the next identifier. *)
Definition next_ulid (g : generator) (o : observation) : py (Z * Z) :=
  let timestamp := time_ns o / 1000000 in
  raise_if ((timestamp <? 0) || (MAX_ULID_TIMESTAMP <? timestamp)) RuntimeError;;
  if last_timestamp g <? timestamp then
    match token_bytes o with
    | None => Raise RuntimeError
    | Some random_bytes =>
        raise_if (negb (length random_bytes =? 10)%nat) RuntimeError;;
        Ok (timestamp, from_bytes random_bytes)
    end
  else
    let timestamp := last_timestamp g in
    let randomness := last_randomness g + 1 in
    if MAX_RANDOMNESS <? randomness then
      raise_if (timestamp =? MAX_ULID_TIMESTAMP) RuntimeError;;
      Ok (timestamp + 1, 0)
    else Ok (timestamp, randomness).

(** [new(kind)]; the second component is the state after the call, also when it
    raises. *)
Definition new (kind : string) (o : observation) (g : generator) : py pystr * generator :=
  match PREFIXES kind with
  | None => (Raise ValueError, g)
  | Some prefix =>
      let g := reset_if_forked (obs_pid o) g in
      match next_ulid g o with
      | Raise e => (Raise e, g)
      | Ok (timestamp, randomness) =>
          (Ok (u prefix ++ encode_ulid (Z.lor (Z.shiftl timestamp 80) randomness)),
           Generator (gen_pid g) timestamp randomness)
      end
  end.

(** ** Encoding is monotonic *)
Lemma encode_digits_app n v s : encode_digits n v s = encode_digits n v [] ++ s.
Proof.
  revert v s. induction n as [|n IH]; intros v s; [done|]. cbn [encode_digits].
  rewrite IH, (IH _ [_]), <-app_assoc. done.
Qed.

Lemma encode_digits_S n v :
  0 ≤ v → encode_digits (S n) v [] = encode_digits n (v / 32) [] ++ [crockford_char (v mod 32)].
Proof.
  intros Hv. cbn [encode_digits]. rewrite encode_digits_app, Z.shiftr_div_pow2 by lia.
  change 31 with (Z.ones 5). by rewrite Z.land_ones by lia.
Qed.

Lemma length_encode_digits n v : length (encode_digits n v []) = n.
Proof.
  revert v. induction n as [|n IH]; intros v; [done|]. cbn [encode_digits].
  rewrite encode_digits_app, length_app, IH. cbn. lia.
Qed.

(** The alphabet is in code-point order, and all of it is Crockford base 32. *)
Lemma crockford32_sorted a b :
  0 ≤ a → a < b → b < 32 → crockford_char a < crockford_char b.
Proof.
  intros Ha Hab Hb.
  assert (forallb (λ p : Z * Z, negb (p.1 <? p.2) || (crockford_char p.1 <? crockford_char p.2))
    (list_prod (seqZ 0 32) (seqZ 0 32)) = true) as H by (vm_compute; reflexivity).
  assert ((a, b) ∈ list_prod (seqZ 0 32) (seqZ 0 32)) as Hin.
  { apply list_elem_of_In, in_prod; apply list_elem_of_In, elem_of_seqZ; lia. }
  pose proof (forallb_elem _ _ _ H Hin) as Hc. cbn [fst snd] in Hc.
  rewrite (proj2 (Z.ltb_lt a b) Hab) in Hc. cbn in Hc. by apply Z.ltb_lt.
Qed.

Lemma crockford32_char a : 0 ≤ a < 32 → is_crockford (crockford_char a) = true.
Proof.
  intros Ha. assert (forallb (λ a, is_crockford (crockford_char a)) (seqZ 0 32) = true) as H
    by (vm_compute; reflexivity).
  apply (forallb_elem _ _ _ H), elem_of_seqZ. lia.
Qed.

Lemma str_compare_snoc s t x y :
  length s = length t →
  str_compare (s ++ [x]) (t ++ [y]) = match str_compare s t with Eq => Z.compare x y | c => c end.
Proof.
  revert t. induction s as [|a s IH]; intros [|b t] Hl; try done; cbn.
  - by destruct (x ?= y).
  - injection Hl as Hl. destruct (a ?= b); [by apply IH|done|done].
Qed.

Lemma encode_digits_compare n v w :
  0 ≤ v < 32 ^ Z.of_nat n → 0 ≤ w < 32 ^ Z.of_nat n →
  str_compare (encode_digits n v []) (encode_digits n w []) = Z.compare v w.
Proof.
  revert v w. induction n as [|n IH]; intros v w Hv Hw.
  { cbn in *. symmetry. apply Z.compare_eq_iff. lia. }
  rewrite Nat2Z.inj_succ, Z.pow_succ_r in Hv, Hw by lia.
  rewrite !encode_digits_S by lia. rewrite str_compare_snoc by (by rewrite !length_encode_digits).
  rewrite IH by (split; [apply Z.div_pos; lia|apply Z.div_lt_upper_bound; lia]).
  pose proof (Z.div_mod v 32). pose proof (Z.div_mod w 32).
  pose proof (Z.mod_pos_bound v 32). pose proof (Z.mod_pos_bound w 32).
  destruct (Z.compare_spec (v / 32) (w / 32)) as [E|E|E].
  - destruct (Z.lt_trichotomy (v mod 32) (w mod 32)) as [Hlt|[Heq|Hgt]].
    + rewrite (proj2 (Z.compare_lt_iff v w)) by lia. apply Z.compare_lt_iff, crockford32_sorted; lia.
    + rewrite Heq, Z.compare_refl. symmetry. apply Z.compare_eq_iff. lia.
    + rewrite (proj2 (Z.compare_gt_iff v w)) by lia. apply Z.compare_gt_iff, crockford32_sorted; lia.
  - symmetry. apply Z.compare_lt_iff. lia.
  - symmetry. apply Z.compare_gt_iff. lia.
Qed.

(** ** The state of the generator

    It is fresh, or holds the parts of the last identifier. *)
Definition generator_wf (g : generator) : Prop :=
  (last_timestamp g = -1 ∧ last_randomness g = -1) ∨
  (0 ≤ last_timestamp g ≤ MAX_ULID_TIMESTAMP ∧ 0 ≤ last_randomness g ≤ MAX_RANDOMNESS).
Definition observation_ok (o : observation) : Prop :=
  ∀ bytes, token_bytes o = Some bytes → Forall (λ b, 0 ≤ b < 256) bytes.

(** The number an identifier encodes. *)
Definition ulid_value (timestamp randomness : Z) : Z := Z.lor (Z.shiftl timestamp 80) randomness.

Ltac ulid_lia :=
  change MAX_ULID_TIMESTAMP with 281474976710655 in *; change MAX_RANDOMNESS with 1208925819614629174706175 in *;
  change (2 ^ 80) with 1208925819614629174706176 in *;
  change (2 ^ 128) with 340282366920938463463374607431768211456 in *; lia.

Lemma ulid_value_sum t r : 0 ≤ r ≤ MAX_RANDOMNESS → ulid_value t r = t * 2 ^ 80 + r.
Proof.
  intros Hr. unfold ulid_value, MAX_RANDOMNESS in *. rewrite Z.shiftl_mul_pow2 in * by lia.
  rewrite <-Z.add_lor_land.
  assert (Z.land (t * 2 ^ 80) r = 0) as ->; [|lia]. apply Z.bits_inj'. intros n Hn.
  rewrite Z.land_spec, Z.bits_0. destruct (Z.lt_ge_cases n 80) as [Hlt|Hge].
  - by rewrite Z.mul_pow2_bits_low.
  - rewrite (Z.bits_above_log2 r n); [apply andb_false_r|lia|].
    destruct (Z.eq_dec r 0) as [->|]; [cbn; lia|]. apply Z.log2_lt_pow2; [lia|].
    apply Z.lt_le_trans with (2 ^ 80); [lia|]. apply Z.pow_le_mono_r; lia.
Qed.

Lemma from_bytes_bound bytes acc k :
  Forall (λ b, 0 ≤ b < 256) bytes → 0 ≤ acc < 256 ^ k → 0 ≤ k →
  0 ≤ foldl (λ n b, n * 256 + b) acc bytes < 256 ^ (k + Z.of_nat (length bytes)).
Proof.
  intros Hb. revert acc k. induction Hb as [|b bytes Hb _ IH]; intros acc k Ha Hk; cbn [foldl length].
  - by rewrite Z.add_0_r.
  - replace (k + Z.of_nat (S (length bytes))) with (k + 1 + Z.of_nat (length bytes)) by lia.
    apply IH; [|lia]. rewrite Z.pow_add_r by lia. change (256 ^ 1) with 256. nia.
Qed.

Lemma next_ulid_spec g o t r :
  generator_wf g → observation_ok o → next_ulid g o = Ok (t, r) →
  0 ≤ t ≤ MAX_ULID_TIMESTAMP ∧ 0 ≤ r ≤ MAX_RANDOMNESS ∧
  (last_timestamp g < t ∨ last_timestamp g = t ∧ last_randomness g < r).
Proof.
  unfold next_ulid. intros Hg Ho H. inv_ok. refl_bool.
  destruct (Z.ltb_spec (last_timestamp g) (time_ns o / 1000000)).
  - destruct (token_bytes o) as [bytes|] eqn:Eb; [|done]. inv_ok.
    match goal with H : (_ =? _)%nat = true |- _ => apply Nat.eqb_eq in H; rename H into Hl end.
    split; [lia|]. split; [|by left]. pose proof (from_bytes_bound bytes 0 0 (Ho _ Eb)) as Hb.
    rewrite Hl in Hb. unfold from_bytes, MAX_RANDOMNESS. change (Z.shiftl 1 80) with (256 ^ 10).
    change (0 + Z.of_nat 10) with 10 in Hb. change (256 ^ 0) with 1 in Hb. lia.
  - assert (0 < MAX_RANDOMNESS) by done. assert (0 < MAX_ULID_TIMESTAMP) by done.
    destruct (Z.ltb_spec MAX_RANDOMNESS (last_randomness g + 1)); inv_ok; refl_bool;
      destruct Hg as [[E1 E2]|[? ?]]; rewrite ?E1, ?E2 in *; lia.
Qed.

(** The number of the last identifier, negative for a fresh generator. *)
Definition generator_value (g : generator) : Z := last_timestamp g * 2 ^ 80 + last_randomness g.

Lemma new_spec kind o g id g' :
  generator_wf g → observation_ok o → new kind o g = (Ok id, g') →
  generator_wf g' ∧ gen_pid g' = obs_pid o ∧ 0 ≤ generator_value g' < 2 ^ 128 ∧
  (∃ prefix, PREFIXES kind = Some prefix ∧ id = u prefix ++ encode_ulid (generator_value g')) ∧
  (obs_pid o = gen_pid g → generator_value g < generator_value g').
Proof.
  unfold new. intros Hg Ho. destruct (PREFIXES kind) as [prefix|]; [|done].
  assert (generator_wf (reset_if_forked (obs_pid o) g)) as Hg'.
  { unfold reset_if_forked. destruct (obs_pid o =? gen_pid g); [done|by left]. }
  assert (gen_pid (reset_if_forked (obs_pid o) g) = obs_pid o) as Hpid.
  { unfold reset_if_forked. destruct (Z.eqb_spec (obs_pid o) (gen_pid g)); [by rewrite e|done]. }
  destruct (next_ulid _ o) as [[t r]|] eqn:E; [|done]. intros H. injection H as <- <-.
  apply next_ulid_spec in E as (Ht & Hr & Hlt); [|done|done].
  assert (ulid_value t r = t * 2 ^ 80 + r) as Hv by (by apply ulid_value_sum).
  unfold ulid_value in Hv. unfold generator_value. cbn [last_timestamp last_randomness gen_pid].
  split; [right; done|]. split; [done|].
  split; [ulid_lia|].
  split; [exists prefix; by rewrite Hv|]. intros Hp. unfold reset_if_forked in Hlt.
  rewrite Hp, Z.eqb_refl in Hlt. cbn in Hlt. destruct Hg as [[-> ->]|[? ?]]; ulid_lia.
Qed.

(** ** Identifiers are well formed *)
Lemma encode_digits_crockford n v : 0 ≤ v → forallb is_crockford (encode_digits n v []) = true.
Proof.
  revert v. induction n as [|n IH]; intros v Hv; [done|]. rewrite encode_digits_S by done.
  rewrite forallb_app, IH by (apply Z.div_pos; lia). cbn. rewrite andb_true_r.
  apply crockford32_char, Z.mod_pos_bound. lia.
Qed.

Lemma encode_digits_head n v :
  0 ≤ v → ∃ tail, encode_digits (S n) v [] = crockford_char ((v / 32 ^ Z.of_nat n) mod 32) :: tail.
Proof.
  revert v. induction n as [|n IH]; intros v Hv.
  - rewrite encode_digits_S by done. exists []. by rewrite Z.div_1_r.
  - rewrite encode_digits_S by done. destruct (IH (v / 32)) as [tail E]; [apply Z.div_pos; lia|].
    rewrite E. rewrite Z.div_div, <-Z.pow_succ_r, <-Nat2Z.inj_succ by lia. eexists. done.
Qed.

Lemma encode_ulid_is_ulid v : 0 ≤ v < 2 ^ 128 → is_ulid (encode_ulid v) = true.
Proof.
  intros Hv. unfold encode_ulid. pose proof (encode_digits_crockford 26 v) as Hc.
  pose proof (length_encode_digits 26 v) as Hl. destruct (encode_digits_head 25 v) as [tail E]; [lia|].
  rewrite E in *. cbn [is_ulid]. specialize (Hc ltac:(lia)). cbn [forallb] in Hc.
  apply andb_true_iff in Hc as [_ ->]. injection Hl as ->. rewrite Nat.eqb_refl, !andb_true_r.
  assert (0 ≤ v / 32 ^ Z.of_nat 25 < 8) as Hd.
  { split; [apply Z.div_pos; lia|]. apply Z.div_lt_upper_bound; [lia|]. exact (proj2 Hv). }
  rewrite Z.mod_small by lia.
  assert (forallb (λ d, (48 <=? crockford_char d) && (crockford_char d <=? 55)) (seqZ 0 8) = true) as H
    by (vm_compute; reflexivity).
  apply (forallb_elem _ _ _ H), elem_of_seqZ. lia.
Qed.

(** Identifiers are well formed.  Whatever the clock does, an identifier that
    the generator returns is the prefix of its kind followed by a ULID, and the
    wire class with that prefix accepts it.  The state of the generator stays well
    formed. *)
Theorem new_identifier_valid kind o g id g' :
  generator_wf g → observation_ok o → new kind o g = (Ok id, g') →
  generator_wf g' ∧ ∃ prefix, PREFIXES kind = Some prefix ∧ prefixed_ulid prefix id = true ∧
    ∀ schema pointer, (prefix, (schema, pointer)) ∈ IDENTIFIERS →
      wire_string schema pointer (PStr id) = Ok (AStr id).
Proof.
  intros Hg Ho H. destruct (new_spec _ _ _ _ _ Hg Ho H) as (Hg' & _ & Hv & (prefix & Hp & ->) & _).
  split; [done|]. exists prefix. split; [done|].
  assert (prefixed_ulid prefix (u prefix ++ encode_ulid (generator_value g')) = true) as Hu.
  { unfold prefixed_ulid. rewrite startswith_app, drop_app_length. by apply encode_ulid_is_ulid. }
  split; [done|]. intros schema pointer Hin.
  pose proof (identifier_outcome _ _ _ (u prefix ++ encode_ulid (generator_value g')) Hin) as Hi.
  by rewrite Hu in Hi.
Qed.

(** ** Sequences of identifiers *)

(** The ULID of an identifier: its last 26 characters. *)
Definition ulid_of (id : pystr) : pystr := drop (length id - 26) id.

(** The ULIDs that a sequence of calls returns, in order. *)
Fixpoint issue (calls : list (string * observation)) (g : generator) : list pystr :=
  match calls with
  | [] => []
  | (kind, o) :: calls' =>
      match new kind o g with
      | (Ok id, g') => ulid_of id :: issue calls' g'
      | (Raise _, g') => issue calls' g'
      end
  end.

Lemma ulid_of_app p v : ulid_of (p ++ encode_ulid v) = encode_ulid v.
Proof.
  unfold ulid_of, encode_ulid. rewrite length_app, length_encode_digits.
  replace (length p + 26 - 26)%nat with (length p) by lia. by rewrite drop_app_length.
Qed.

Lemma encode_ulid_compare v w :
  0 ≤ v < 2 ^ 128 → 0 ≤ w < 2 ^ 128 → str_compare (encode_ulid v) (encode_ulid w) = Z.compare v w.
Proof.
  intros Hv Hw. assert (2 ^ 128 < 32 ^ Z.of_nat 26) by done. apply encode_digits_compare; lia.
Qed.

Lemma new_state kind o g e g' :
  generator_wf g → new kind o g = (Raise e, g') → obs_pid o = gen_pid g → g' = g.
Proof.
  unfold new, reset_if_forked. intros Hg H Hp. rewrite Hp, Z.eqb_refl in H. cbn [negb] in H.
  destruct (PREFIXES kind); [|by simplify_eq]. destruct (next_ulid g o) as [[]|]; by simplify_eq.
Qed.

(** Every issued ULID is above the last one before. *)
Lemma issue_sorted calls g :
  generator_wf g → Forall (λ c, observation_ok c.2 ∧ obs_pid c.2 = gen_pid g) calls →
  StronglySorted (λ s t, str_compare s t = Lt) (issue calls g) ∧
  Forall (λ s, ∃ v, s = encode_ulid v ∧ generator_value g < v ∧ 0 ≤ v < 2 ^ 128) (issue calls g).
Proof.
  intros Hg Hc. revert g Hg Hc. induction calls as [|[kind o] calls IH]; intros g Hg Hc; cbn [issue].
  { split; constructor. }
  apply Forall_cons in Hc as [[Ho Hp] Hc]. cbn [snd] in Ho, Hp.
  destruct (new kind o g) as [[id|e] g'] eqn:E.
  - destruct (new_spec _ _ _ _ _ Hg Ho E) as (Hg' & Hpid & Hv & (prefix & _ & ->) & Hlt).
    specialize (Hlt Hp). rewrite ulid_of_app.
    destruct (IH g' Hg') as [Hs HF].
    { eapply Forall_impl; [exact Hc|]. intros c [? ?]. split; [done|]. by rewrite Hpid, Hp. }
    split.
    + constructor; [done|]. eapply Forall_impl; [exact HF|]. intros s (v & -> & Hgt & Hb).
      rewrite encode_ulid_compare by done. by apply Z.compare_lt_iff.
    + constructor; [by exists (generator_value g')|]. eapply Forall_impl; [exact HF|].
      intros s (v & -> & Hgt & Hb). exists v. split; [done|]. split; [lia|done].
  - pose proof (new_state _ _ _ _ _ Hg E Hp) as ->. by apply IH.
Qed.

(** Identifiers of a process are strictly increasing.  In any sequence of calls
    in one process, the ULIDs of the identifiers that are returned increase in
    code-point order, so no two are equal: also when the clock stands still or
    goes back, when the randomness of a millisecond is used up, and across calls
    that fail in between. *)
Theorem identifiers_strictly_increase calls pid :
  Forall (λ c, observation_ok c.2 ∧ obs_pid c.2 = pid) calls →
  StronglySorted (λ s t, str_compare s t = Lt) (issue calls (new_generator pid)).
Proof. intros Hc. apply issue_sorted; [by left|done]. Qed.

(** The generator answers.  With a supported kind, a clock in range and ten
    bytes of entropy, a call returns an identifier unless the last possible ULID
    has been issued in this process; after a fork it starts afresh from the clock
    and the entropy. *)
Theorem new_identifier_total kind prefix o g bytes :
  PREFIXES kind = Some prefix → 0 ≤ time_ns o / 1000000 ≤ MAX_ULID_TIMESTAMP →
  token_bytes o = Some bytes → length bytes = 10%nat →
  obs_pid o ≠ gen_pid g ∨ last_timestamp g < MAX_ULID_TIMESTAMP ∨ last_randomness g < MAX_RANDOMNESS →
  (∃ id g', new kind o g = (Ok id, g')) ∧
  (obs_pid o ≠ gen_pid g → (new kind o g).1
     = Ok (u prefix ++ encode_ulid (ulid_value (time_ns o / 1000000) (from_bytes bytes)))).
Proof.
  intros Hp Ht Hb Hl Hg. unfold new. rewrite Hp. unfold reset_if_forked, next_ulid.
  rewrite (proj2 (Z.ltb_ge (time_ns o / 1000000) 0)), (proj2 (Z.ltb_ge MAX_ULID_TIMESTAMP _)) by lia.
  cbn [orb raise_if mbind result_bind]. rewrite Hb, Hl. cbn [Nat.eqb negb raise_if mbind result_bind].
  destruct (Z.eqb_spec (obs_pid o) (gen_pid g)) as [E|E]; cbn [negb after_fork_child last_timestamp last_randomness].
  - split; [|done]. destruct (Z.ltb_spec (last_timestamp g) (time_ns o / 1000000)); [eauto|].
    destruct (Z.ltb_spec MAX_RANDOMNESS (last_randomness g + 1)); [|eauto].
    destruct (Z.eqb_spec (last_timestamp g) MAX_ULID_TIMESTAMP); cbn; [|eauto]. lia.
  - rewrite (proj2 (Z.ltb_lt _ _)) by lia. split; [eauto|done].
Qed.
