(* ===== verification/TaskScope.v ===== *)
(** * Task-local contexts

    Models the second half of [python/src/palonexus/context.py]: the validation of
    task contexts, and the scopes that bind one to the current
    [contextvars.Context].  [_CURRENT_TASK] is a map from execution contexts to the
    task bound there; a context that is not in the map has the default [None]. *)

From stdpp Require Import base list list_numbers numbers strings gmap.
From S2P Require Import Prelude PyString Regex Errors Timestamp PyValue Schemas Decimal Unicode.
From S2P Require Import Structure StructureFacts Conformance Wire WireSound.
From S2P Require Import WireStrings Identifiers.
Open Scope Z_scope.

(** ** Task contexts *)
Record task_context := TaskContext { task_id : pystr; session_id : pystr }.
#[global] Instance task_context_eq_dec : EqDecision task_context.
Proof. solve_decision. Defined.

Definition model_validation_error : exn :=
  PaloNexusError (sdk_error_init CModelValidationError None None None).

(** [TaskContext(task_id=..., session_id=...)] on strings: the validators of the
    two fields call [TaskID] and [SessionID]. *)
Definition make_task_context (task session : pystr) : py task_context :=
  match convert TaskID (PStr task), convert SessionID (PStr session) with
  | Ok _, Ok _ => Ok (TaskContext task session)
  | _, _ => Raise model_validation_error
  end.

(** [task_id if task_id is not None else _new_identifier("task")]. *)
Definition given_or_new (given : option pystr) (kind : string) (o : observation) (g : generator)
    : py pystr * generator :=
  match given with Some id => (Ok id, g) | None => new kind o g end.

(** [_context_value]; the two observations are those of the calls of the
    generator. *)
Definition context_value (context : option task_context) (task session : option pystr)
    (o1 o2 : observation) (g : generator) : py task_context * generator :=
  match context with
  | Some context =>
      ((raise_if (bool_decide (is_Some task) || bool_decide (is_Some session)) model_validation_error;;
        checked ← make_task_context (task_id context) (session_id context);
        raise_if (bool_decide (checked ≠ context)) model_validation_error;;
        Ok context), g)
  | None =>
      match given_or_new task "task" o1 g with
      | (Raise e, g) => (Raise e, g)
      | (Ok t, g) =>
          match given_or_new session "session" o2 g with
          | (Raise e, g) => (Raise e, g)
          | (Ok s, g) => (make_task_context t s, g)
          end
      end
  end.

(** ** The context variable *)
Abbreviation bindings := (gmap nat task_context).

(** [current_task()] in the execution context [c]. *)
Definition current_task (c : nat) (b : bindings) : option task_context := b !! c.

(** A token of [ContextVar.set]: the context it belongs to and the value before,
    [None] if there was none. *)
Record token := Token { token_context : nat; old_value : option task_context; token_used : bool }.

Definition set_variable (c : nat) (t : task_context) (b : bindings) : token * bindings :=
  (Token c (b !! c) false, <[c := t]> b).

(** [ContextVar.reset]: a token works once, and only in its own context. *)
Definition reset_variable (c : nat) (t : token) (b : bindings) : py (token * bindings) :=
  if token_used t then Raise RuntimeError
  else if negb (c =? token_context t)%nat then Raise ValueError
  else Ok (Token (token_context t) (old_value t) true, partial_alter (λ _, old_value t) c b).

(** ** Scopes *)
Record scope := Scope {
  scope_context : task_context;
  scope_token : option token;
  entered : bool;
  active : bool
}.

Definition new_scope (context : task_context) : scope := Scope context None false false.

(** [__enter__] and [__exit__]: the result, the scope and the bindings after. *)
Definition enter (c : nat) (s : scope) (b : bindings) : py task_context * scope * bindings :=
  if entered s then (Raise RuntimeError, s, b)
  else
    let '(t, b) := set_variable c (scope_context s) b in
    (Ok (scope_context s), Scope (scope_context s) (Some t) true true, b).

Definition exit (c : nat) (s : scope) (b : bindings) : py () * scope * bindings :=
  match active s, scope_token s with
  | true, Some t =>
      match reset_variable c t b with
      | Raise e => (Raise e, s, b)
      | Ok (t, b) => (Ok (), Scope (scope_context s) (Some t) (entered s) false, b)
      end
  | _, _ => (Raise RuntimeError, s, b)
  end.

(** [task(...)]; [atask] has the same scope inside. *)
Definition task (context : option task_context) (task session : option pystr)
    (o1 o2 : observation) (g : generator) : py scope * generator :=
  let '(r, g) := context_value context task session o1 o2 g in (new_scope <$> r, g).

(** [with scope: body].  The scope is exited also when the body raises; an
    exception of the exit replaces that of the body. *)
Definition with_scope {A} (c : nat) (s : scope) (body : bindings → py A * bindings) (b : bindings)
    : py A * bindings :=
  match enter c s b with
  | (Raise e, _, b) => (Raise e, b)
  | (Ok _, s, b) =>
      let '(r, b) := body b in
      match exit c s b with
      | (Raise e, _, b) => (Raise e, b)
      | (Ok _, _, b) => (r, b)
      end
  end.

(** ** Task contexts are valid *)

(** Task contexts are valid.  Whatever is passed, a context that [task] binds
    has a task identifier and a session identifier of the protocol: generated ones,
    given ones that were checked, or those of a context that was checked again. *)
Theorem task_contexts_valid context t s o1 o2 g r g' :
  context_value context t s o1 o2 g = (Ok r, g') →
  prefixed_ulid "task_" (task_id r) = true ∧ prefixed_ulid "session_" (session_id r) = true.
Proof.
  assert (∀ t s r, make_task_context t s = Ok r →
    prefixed_ulid "task_" (task_id r) = true ∧ prefixed_ulid "session_" (session_id r) = true) as Hmake.
  { clear. intros t s r. unfold make_task_context. cbn [convert TaskID SessionID].
    pose proof (identifier_outcome "task_" "common" "/$defs/taskId" t) as Ht.
    pose proof (identifier_outcome "session_" "common" "/$defs/sessionId" s) as Hs.
    specialize (Ht ltac:(unfold IDENTIFIERS; in_list)). specialize (Hs ltac:(unfold IDENTIFIERS; in_list)).
    destruct (prefixed_ulid "task_" t) eqn:Et; [|destruct Ht as [? ->]; done].
    destruct (prefixed_ulid "session_" s) eqn:Es; [|destruct Hs as [? ->]; by rewrite Ht].
    rewrite Ht, Hs. intros E. by injection E as <-. }
  unfold context_value. destruct context as [context|].
  - intros H. injection H as H <-. inv_ok. refl_bool. apply dec_stable in Hx1. subst. by eapply Hmake.
  - destruct (given_or_new t "task" o1 g) as [[t'|] g1]; [|done].
    destruct (given_or_new s "session" o2 g1) as [[s'|] g2]; [|done].
    intros H. injection H as H <-. by eapply Hmake.
Qed.

(** ** Scopes are lexical *)

(** Programs in one execution context: they observe the current task, raise, bind a
    task around a body, and run one after the other. *)
Inductive program :=
| Observe
| Throw (e : exn)
| Within (context : task_context) (body : program)
| Then (p q : program).

(** Running with the context variable: the result and the observations. *)
Fixpoint run_program (c : nat) (p : program) (b : bindings)
    : py () * list (option task_context) * bindings :=
  match p with
  | Observe => (Ok (), [current_task c b], b)
  | Throw e => (Raise e, [], b)
  | Within context body =>
      match enter c (new_scope context) b with
      | (Raise e, _, b) => (Raise e, [], b)
      | (Ok _, s, b) =>
          let '(r, seen, b) := run_program c body b in
          match exit c s b with
          | (Raise e, _, b) => (Raise e, seen, b)
          | (Ok _, _, b) => (r, seen, b)
          end
      end
  | Then p q =>
      match run_program c p b with
      | (Raise e, seen, b) => (Raise e, seen, b)
      | (Ok _, seen, b) =>
          let '(r, seen', b) := run_program c q b in (r, seen ++ seen', b)
      end
  end.

(** The meaning: the task of the innermost scope around. *)
Fixpoint meaning (p : program) (current : option task_context) : py () * list (option task_context) :=
  match p with
  | Observe => (Ok (), [current])
  | Throw e => (Raise e, [])
  | Within context body => meaning body (Some context)
  | Then p q =>
      match meaning p current with
      | (Raise e, seen) => (Raise e, seen)
      | (Ok _, seen) => let '(r, seen') := meaning q current in (r, seen ++ seen')
      end
  end.

(** Resetting restores the binding of before. *)
Lemma restore_binding c t (b : bindings) : partial_alter (λ _, b !! c) c (<[c := t]> b) = b.
Proof.
  apply map_eq. intros i. destruct (decide (i = c)) as [->|Hi].
  - by rewrite lookup_partial_alter_eq.
  - by rewrite lookup_partial_alter_ne, lookup_insert_ne by congruence.
Qed.

(** Task scopes are lexical.  A program that opens scopes with [with] sees in
    every place the task of the innermost scope around it, and leaves all bindings
    as they were, also when it raises. *)
Theorem scopes_are_lexical c p b :
  run_program c p b = (meaning p (current_task c b), b).
Proof.
  revert b. induction p as [|e|context body IH|p IHp q IHq]; intros b; cbn [run_program meaning]; [done|done|..].
  - cbn [enter entered new_scope set_variable scope_context]. rewrite IH.
    unfold current_task. rewrite lookup_insert, decide_True by done.
    destruct (meaning body (Some context)) as [r seen].
    cbn [exit active scope_token reset_variable token_used token_context old_value].
    rewrite Nat.eqb_refl. cbn [negb]. by rewrite restore_binding.
  - rewrite IHp. destruct (meaning p (current_task c b)) as [[]]; [|done]. rewrite IHq.
    by destruct (meaning q (current_task c b)).
Qed.

(** A scope that is left from another context stays open.  The exit raises
    [ValueError] and changes nothing, so that the exit in the owning context still
    restores the binding; entering a scope twice is refused. *)
Theorem foreign_exit_keeps_scope c c' context b s b' :
  c ≠ c' → enter c (new_scope context) b = (Ok context, s, b') →
  exit c' s b' = (Raise ValueError, s, b') ∧
  (exit c s b').2 = b ∧ (exit c s b').1.1 = Ok () ∧
  ∀ b'', (enter c s b'').1.1 = Raise RuntimeError.
Proof.
  intros Hc H. cbn [enter entered new_scope set_variable scope_context] in H. simplify_eq.
  cbn [exit active scope_token reset_variable token_used token_context old_value].
  rewrite (proj2 (Nat.eqb_neq c' c)) by congruence. rewrite Nat.eqb_refl. cbn.
  repeat split. apply restore_binding.
Qed.
