(* ===== verification/WireExamples.v ===== *)
(** * Documents and identifiers, by example

    Concrete documents and calls that instantiate the theorems on structural
    validation, on the wire types, on identifiers and on task scopes. *)

From stdpp Require Import base list list_numbers numbers strings sorting gmap.
From S2P Require Import Prelude PyString Regex Errors Timestamp PyValue Schemas Decimal Unicode.
From S2P Require Import Structure StructureFacts Conformance Wire WireSound.
From S2P Require Import WireProtocol WireStrings Identifiers TaskScope.
Open Scope Z_scope.

Definition entry (k v : string) : pystr * pyval := (u k, PStr (u v)).
Definition zeros (n : nat) : string := String.string_of_list_ascii (replicate n (Ascii.ascii_of_nat 48)).
Definition identifier (prefix : string) : string := (prefix ++ zeros 26)%string.
Definition digest : string := ("sha256:" ++ zeros 64)%string.

(** ** A reconciliation record with integers written as decimals *)
Definition wire_policy : pyval :=
  PDict [(u "maxDelaySeconds", PInt 60); (u "maxAttempts", PDec (DFinite false 20 (-1)));
         (u "maxTotalAttempts", PInt 3); (u "baseDelaySeconds", PInt 5)].

Definition wire_record (attempts : pyval) : pyval :=
  PDict [entry "state" "pending"; entry "schemaVersion" "1"; entry "reconciliationId" (identifier "recon_");
         entry "actionId" (identifier "act_"); entry "requestId" (identifier "req_");
         entry "correlationId" (identifier "corr_");
         entry "authorizationIdempotencyKey" (identifier "authz_"); entry "clientId" "client-1";
         entry "action" "file:read"; entry "targetKind" "local-action"; entry "outcome" "error";
         entry "reasonCode" "authorization_unavailable"; entry "observedAt" "2026-01-01T00:00:00Z";
         entry "batchId" (identifier "batch_"); (u "batchSequence", PInt 7); (u "deliveryPolicy", wire_policy);
         (u "attemptCount", attempts); entry "deliveryDisposition" "automatic"].

Lemma wire_record_parsed : is_Ok (parse_reconciliation (wire_record (PInt 0))) = true.
Proof. vm_compute. reflexivity. Qed.

Lemma reconciliation_is_document : ReconciliationRecord ∈ DOCUMENT_CLASSES.
Proof. unfold DOCUMENT_CLASSES. in_list. Qed.

Lemma parse_decides_conformance_witness :
  ∃ r, parse_with ReconciliationRecord (wire_record (PInt 0)) = Ok r.
Proof.
  pose proof (parse_decides_conformance ReconciliationRecord (wire_record (PInt 0))
    reconciliation_is_document) as H.
  assert (json_document (wire_record (PInt 0)) = true) as Hj by (vm_compute; reflexivity).
  assert (valid_document ReconciliationRecord (wire_record (PInt 0)) = true) as Hv by (vm_compute; reflexivity).
  specialize (H Hj). rewrite Hv in H. exact H.
Defined.

Lemma document_round_trip_witness :
  ∃ r w, to_dict r = Ok w ∧ json_equiv (wire_record (PInt 0)) w.
Proof.
  destruct (parse_with ReconciliationRecord (wire_record (PInt 0))) as [r|e] eqn:E.
  - destruct (document_round_trip ReconciliationRecord (wire_record (PInt 0)) r
      reconciliation_is_document) as (w & Hw & Heq & _); [vm_compute; reflexivity|exact E|].
    exists r, w. split; [exact Hw|exact Heq].
  - pose proof wire_record_parsed as H. unfold parse_reconciliation in H. rewrite E in H. discriminate H.
Defined.

Lemma validation_terminates_witness :
  validate VALIDATION_DEPTH reconciliation_schema reconciliation_schema (wire_record (PInt 0)) (u "$") = Ok ().
Proof.
  pose proof (validation_terminates "reconciliation" reconciliation_schema (wire_record (PInt 0))
    VALIDATION_DEPTH (u "$") eq_refl) as H.
  assert (satisfies reconciliation_schema reconciliation_schema (wire_record (PInt 0)) = true) as Hs
    by (vm_compute; reflexivity).
  rewrite Hs in H. apply H; [vm_compute; reflexivity|vm_compute; reflexivity|reflexivity].
Defined.

(** A NaN escapes the error contract.  The schema compares [attemptCount] with a
    minimum in a conditional branch before its type is checked, so for a record
    that is not pending [Decimal("NaN")] makes [_validate_document] raise
    [decimal.InvalidOperation] instead of [ProtocolStructureError]. *)
Theorem nan_escapes_validation :
  let record := match wire_record (PDec DNaN) with
                | PDict d => PDict (assoc_set (u "state") (PStr (u "sending")) d
                                    ++ [entry "lastAttemptAt" "2026-01-01T00:00:00Z"])
                | v => v
                end in
  within_limits record = true ∧
  validate_document "reconciliation" record = Raise DecimalException ∧
  parse_reconciliation record = Raise DecimalException ∧
  is_value_error DecimalException = false.
Proof. vm_compute. repeat split. Qed.

(** ** Identifiers *)
Lemma identifiers_are_prefixed_ulids_witness :
  wire_string "common" "/$defs/taskId" (PStr (u (identifier "task_"))) = Ok (AStr (u (identifier "task_"))).
Proof.
  pose proof (identifiers_are_prefixed_ulids "task_" "common" "/$defs/taskId" (u (identifier "task_"))) as H.
  assert (prefixed_ulid "task_" (u (identifier "task_")) = true) as Hp by (vm_compute; reflexivity).
  rewrite Hp in H. apply H. unfold IDENTIFIERS. in_list.
Defined.

(** Two calls in the same millisecond, and one after the clock went back. *)
Definition call_at (ms : Z) (byte : Z) : observation := Observation 7 (ms * 1000000) (Some (replicate 10 byte)).
Definition calls : list (string * observation) :=
  [("action", call_at 1000 255); ("request", call_at 1000 1); ("task", call_at 999 2)].

Example calls_issued :
  issue calls (new_generator 7)
  = [u "00000000Z8ZZZZZZZZZZZZZZZZ"; u "00000000Z90000000000000000"; u "00000000Z90000000000000001"].
Proof. vm_compute. reflexivity. Qed.

Lemma call_at_ok ms byte : 0 ≤ byte < 256 → observation_ok (call_at ms byte).
Proof. intros Hb bytes E. injection E as <-. repeat (apply Forall_cons_2; [exact Hb|]). apply Forall_nil_2. Qed.

Lemma new_identifier_valid_witness :
  ∃ prefix, PREFIXES "action" = Some prefix ∧
    prefixed_ulid prefix (u "act_00000000Z8ZZZZZZZZZZZZZZZZ") = true.
Proof.
  destruct (new_identifier_valid "action" (call_at 1000 255) (new_generator 7)
    (u "act_00000000Z8ZZZZZZZZZZZZZZZZ") (Generator 7 1000 (2 ^ 80 - 1))) as (_ & prefix & Hp & Hu & _).
  - left. split; reflexivity.
  - apply call_at_ok. lia.
  - vm_compute. reflexivity.
  - exists prefix. split; [exact Hp|exact Hu].
Defined.

Lemma identifiers_strictly_increase_witness :
  StronglySorted (λ s t, str_compare s t = Lt)
    [u "00000000Z8ZZZZZZZZZZZZZZZZ"; u "00000000Z90000000000000000"; u "00000000Z90000000000000001"].
Proof.
  rewrite <-calls_issued. apply (identifiers_strictly_increase calls 7). unfold calls.
  apply Forall_cons_2; [|apply Forall_cons_2; [|apply Forall_cons_2; [|apply Forall_nil_2]]];
    (split; [apply call_at_ok; lia|reflexivity]).
Defined.

Lemma new_identifier_total_witness :
  ∃ id g', new "task" (call_at 999 2) (new_generator 7) = (Ok id, g').
Proof.
  apply (new_identifier_total "task" "task_" (call_at 999 2) (new_generator 7) (replicate 10 2)).
  - reflexivity.
  - vm_compute. split; discriminate.
  - reflexivity.
  - reflexivity.
  - right. left. reflexivity.
Defined.

(** ** Task scopes *)
Definition example_task : task_context := TaskContext (u (identifier "task_")) (u (identifier "session_")).

Lemma task_contexts_valid_witness : prefixed_ulid "task_" (task_id example_task) = true.
Proof.
  apply (task_contexts_valid (Some example_task) None None (call_at 0 0) (call_at 0 0)
    (new_generator 7) example_task (new_generator 7)).
  vm_compute. reflexivity.
Defined.

Lemma foreign_exit_keeps_scope_witness :
  ∃ s b', enter 1 (new_scope example_task) ∅ = (Ok example_task, s, b') ∧
    exit 2 s b' = (Raise ValueError, s, b').
Proof.
  eexists _, _. split; [reflexivity|].
  apply (foreign_exit_keeps_scope 1 2 example_task ∅); [discriminate|reflexivity].
Defined.
