(* ===== verification/Effects.v ===== *)
(** * Operations on a state

    An operation takes the state it finds, returns or raises, and leaves a state; what it
    changed before it raised stays changed. *)

From stdpp Require Import base list.
From S2P Require Import Prelude PyString Errors.

Definition eff (W A : Type) : Type := W → py A * W.

#[global] Instance eff_ret W : MRet (eff W) := λ A a w, (Ok a, w).
#[global] Instance eff_bind W : MBind (eff W) := λ A B f m w,
  match m w with (Ok a, w) => f a w | (Raise e, w) => (Raise e, w) end.

Definition run {W A} (m : py A) : eff W A := λ w, (m, w).
Definition raising {W A} (e : exn) : eff W A := run (Raise e).
Definition update {W} (f : W → W) : eff W () := λ w, (Ok (), f w).
Definition reading {W A} (f : W → A) : eff W A := λ w, (Ok (f w), w).

(** [try: m except Exception: handler]. *)
Definition excepting {W A} (m : eff W A) (handler : eff W A) : eff W A := λ w,
  match m w with
  | (Raise e, w) => if is_exception e then handler w else (Raise e, w)
  | r => r
  end.

(** [try: m finally: cleanup], with a cleanup that does not raise. *)
Definition finally {W A} (m : eff W A) (cleanup : W → W) : eff W A := λ w,
  let '(r, w) := m w in (r, cleanup w).

(** The same, with a cleanup for an operation that raises. *)
Definition on_error {W A} (m : eff W A) (cleanup : W → W) : eff W A := λ w,
  match m w with (Raise e, w) => (Raise e, cleanup w) | r => r end.

(** [with ...: m], with an [__exit__] that may raise. *)
Definition exiting {W A} (m : eff W A) (exit : eff W ()) : eff W A := λ w,
  let '(r, w) := m w in match exit w with (Ok _, w) => (r, w) | (Raise e, w) => (Raise e, w) end.

Section eff_lemmas.
Context {W A B : Type}.
Implicit Types (m : eff W A) (f : A → eff W B) (w : W).

Lemma eff_bind_Ok m f w b w' :
  (m ≫= f) w = (Ok b, w') ↔ ∃ a w1, m w = (Ok a, w1) ∧ f a w1 = (Ok b, w').
Proof. unfold mbind, eff_bind. destruct (m w) as [[a|e] w1]; naive_solver. Qed.

Lemma eff_bind_Raise m f w e w' :
  (m ≫= f) w = (Raise e, w') ↔ m w = (Raise e, w') ∨ ∃ a w1, m w = (Ok a, w1) ∧ f a w1 = (Raise e, w').
Proof. unfold mbind, eff_bind. destruct (m w) as [[a|x] w1]; naive_solver. Qed.

(** What holds after an operation, given what holds before it. *)
Definition preserves {C} (P : W → Prop) (m : eff W C) : Prop := ∀ w, P w → P (m w).2.

Lemma preserves_bind P m f : preserves P m → (∀ a, preserves P (f a)) → preserves P (m ≫= f).
Proof.
  intros Hm Hf w Hw. specialize (Hm w Hw). unfold mbind, eff_bind.
  destruct (m w) as [[a|e] w1]; [by apply Hf|done].
Qed.
Lemma preserves_run P (m : py A) : preserves P (run m).
Proof. by intros w. Qed.
Lemma preserves_reading P (g : W → A) : preserves P (reading g).
Proof. by intros w. Qed.
Lemma preserves_excepting P m h : preserves P m → preserves P h → preserves P (excepting m h).
Proof.
  intros Hm Hh w Hw. specialize (Hm w Hw). unfold excepting. destruct (m w) as [[a|e] w1]; [done|].
  destruct (is_exception e); [by apply Hh|done].
Qed.
End eff_lemmas.
