(* ===== verification/Lifecycle.v ===== *)
(** * The life of a client

    Models how operations and [close] of [AuthorizationClient] ([client.py])
    interleave: [_begin_operation], [_end_operation], [_ensure_open] and [close].
    A block under [self._condition] is one atomic step.  A thread that waits on the
    condition sleeps until [notify_all] and then tests its loop condition again, so
    lost wake-ups are visible.  Between [_begin_operation] and [_end_operation] a
    thread runs a transport, which may call the client again; while the owner of a
    close calls the transports it may be called again, too. *)

From stdpp Require Import base list list_numbers numbers.
From S2P Require Import Prelude PyString Errors.

(** ** State *)
Inductive client_state := OPEN | CLOSING | CLOSED.
#[global] Instance client_state_eq_dec : EqDecision client_state.
Proof. solve_decision. Defined.

(** The attributes that never change: the transports, given by their identity,
    and which of them the client owns. *)
Record settings := Settings {
  transport : nat;
  approval_transport : option nat;
  owns_transport : bool;
  owns_approval_transport : bool;
}.

(** The attributes that the condition protects. *)
Record client := Client {
  state : client_state;
  active : nat;
  close_failure : bool;
  closing_thread_id : option nat;
}.

(** Where a thread is in [close]: not in it, asleep or awake in one of the two
    waiting loops, or calling the transports that are left. *)
Inductive close_pc :=
| Outside
| AwaitClosed (awake : bool)
| AwaitIdle (awake : bool)
| Calling (close_targets : list nat) (failed : bool).

(** A thread: [_operation_local.depth] and its place in [close]. *)
Record thread := Thread { depth : nat; pc : close_pc }.

(** How a call of [close] ends: it raises at once inside of an operation, returns
    at once inside of the close of the same thread, or returns after the close
    (raising the remembered failure if there is one). *)
Inductive close_result := Rejected | Reentered | Done (failed : bool).

(** The system: the client, its threads, the transports whose [close] was called
    (and whether it returned) and the results of the calls of the client's [close],
    in order. *)
Record system := System {
  shared : client;
  threads : list thread;
  closed : list (nat * bool);
  returned : list (nat * close_result);
}.

Definition new_client : client := Client OPEN 0 false None.
Definition initial (n : nat) : system := System new_client (replicate n (Thread 0 Outside)) [] [].

(** ** The operations *)

(** [close_targets]. *)
Definition close_targets (c : settings) : list nat :=
  let targets := if owns_transport c then [transport c] else [] in
  match approval_transport c with
  | Some approval =>
      if owns_approval_transport c && negb (approval =? transport c)%nat then targets ++ [approval]
      else if owns_approval_transport c && (approval =? transport c)%nat
              && bool_decide (targets = []) then targets ++ [approval]
      else targets
  | None => targets
  end.

(** [_condition.notify_all()]. *)
Definition wake (th : thread) : thread :=
  match pc th with
  | AwaitClosed _ => Thread (depth th) (AwaitClosed true)
  | AwaitIdle _ => Thread (depth th) (AwaitIdle true)
  | _ => th
  end.

(** A thread that is asleep or in a waiting loop runs no other code. *)
Definition runnable (th : thread) : bool :=
  match pc th with Outside | Calling _ _ => true | _ => false end.

(** [_ensure_open] and the test of [_begin_operation]: [None] is
    [AuthorizationUnavailable]. *)
Definition begin_operation (c : client) : option client :=
  match state c with
  | OPEN => Some (Client OPEN (S (active c)) (close_failure c) (closing_thread_id c))
  | _ => None
  end.

Definition end_operation (c : client) : client :=
  Client (state c) (pred (active c)) (close_failure c) (closing_thread_id c).

Inductive event :=
| Begin (t : nat)
| End (t : nat)
| Close (t : nat)
| Wake (t : nat)
| TransportClosed (t : nat) (ok : bool)
| Finish (t : nat).

Section steps.
Variable cfg : settings.

(** The loop [while self._active] of the owner, from its test on. *)
Definition owner_waits (c : client) : close_pc :=
  if (active c =? 0)%nat then Calling (close_targets cfg) false else AwaitIdle false.

(** The first block of [close], up to a wait or a return. *)
Definition close_begins (t : nat) (th : thread) (s : system) : system :=
  let c := shared s in
  if (0 <? depth th)%nat
  then System c (threads s) (closed s) (returned s ++ [(t, Rejected)])
  else match state c with
       | OPEN =>
           let c := Client CLOSING (active c) (close_failure c) (Some t) in
           System c (<[t := Thread (depth th) (owner_waits c)]> (threads s)) (closed s) (returned s)
       | CLOSING =>
           if bool_decide (closing_thread_id c = Some t)
           then System c (threads s) (closed s) (returned s ++ [(t, Reentered)])
           else System c (<[t := Thread (depth th) (AwaitClosed false)]> (threads s)) (closed s) (returned s)
       | CLOSED => System c (threads s) (closed s) (returned s ++ [(t, Done (close_failure c))])
       end.

(** A waiting thread that was woken tests its loop condition. *)
Definition woken (t : nat) (th : thread) (s : system) : option system :=
  let c := shared s in
  match pc th with
  | AwaitIdle true =>
      Some (System c (<[t := Thread (depth th) (owner_waits c)]> (threads s)) (closed s) (returned s))
  | AwaitClosed true =>
      match state c with
      | CLOSING =>
          Some (System c (<[t := Thread (depth th) (AwaitClosed false)]> (threads s)) (closed s) (returned s))
      | _ => Some (System c (<[t := Thread (depth th) Outside]> (threads s)) (closed s)
                     (returned s ++ [(t, Done (close_failure c))]))
      end
  | _ => None
  end.

(** One step of a thread; [None] when it cannot take it. *)
Definition step (e : event) (s : system) : option system :=
  let c := shared s in
  match e with
  | Begin t =>
      th ← threads s !! t;
      if runnable th then
        match begin_operation c with
        | Some c => Some (System c (<[t := Thread (S (depth th)) (pc th)]> (threads s)) (closed s) (returned s))
        | None => Some s
        end
      else None
  | End t =>
      th ← threads s !! t;
      if runnable th && (0 <? depth th)%nat then
        let c := end_operation c in
        let ths := <[t := Thread (pred (depth th)) (pc th)]> (threads s) in
        Some (System c (if (active c =? 0)%nat then wake <$> ths else ths) (closed s) (returned s))
      else None
  | Close t =>
      th ← threads s !! t; if runnable th then Some (close_begins t th s) else None
  | Wake t => th ← threads s !! t; woken t th s
  | TransportClosed t ok =>
      th ← threads s !! t;
      match pc th with
      | Calling (target :: rest) failed =>
          Some (System c (<[t := Thread (depth th) (Calling rest (failed || negb ok))]> (threads s))
                  (closed s ++ [(target, ok)]) (returned s))
      | _ => None
      end
  | Finish t =>
      th ← threads s !! t;
      match pc th with
      | Calling [] failed =>
          Some (System (Client CLOSED (active c) failed None)
                  (wake <$> <[t := Thread (depth th) Outside]> (threads s)) (closed s)
                  (returned s ++ [(t, Done failed)]))
      | _ => None
      end
  end.

Fixpoint run (es : list event) (s : system) : option system :=
  match es with [] => Some s | e :: es => s ← step e s; run es s end.

End steps.

(** ** The invariant *)

(** Sums over threads. *)
Definition total {A} (f : A → nat) (ths : list A) : nat := sum_list_with f ths.
Arguments total {A} f ths : simpl never.

Lemma total_insert {A} (f : A → nat) ths t th th' :
  ths !! t = Some th → (total f (<[t := th']> ths) + f th = total f ths + f th')%nat.
Proof.
  unfold total. revert t. induction ths as [|x ths IH]; intros [|t]; simpl; try done.
  - intros [= ->]. lia.
  - intros H%IH. lia.
Qed.

Lemma total_elem {A} (f : A → nat) ths t th : ths !! t = Some th → (f th ≤ total f ths)%nat.
Proof.
  unfold total. revert t. induction ths as [|x ths IH]; intros [|t]; simpl; try done.
  - intros [= ->]. lia.
  - intros H%IH. lia.
Qed.

Lemma total_fmap {A} (f : A → nat) g ths : (∀ th, f (g th) = f th) → total f (g <$> ths) = total f ths.
Proof. intros Hg. unfold total. induction ths as [|x ths IH]; cbn; [done|]. by rewrite Hg, IH. Qed.

Section invariant.
Variable cfg : settings.

(** Whether the [close] of a transport raised. *)
Definition any_failed (closed : list (nat * bool)) : bool := existsb (λ p, negb p.2) closed.

(** What a place in [close] says about the client [c] and the transports [closed]
    so far. *)
Definition pc_ok (c : client) (closed : list (nat * bool)) (t : nat) (p : close_pc) : Prop :=
  match p with
  | Outside => closing_thread_id c ≠ Some t
  | AwaitClosed awake =>
      closing_thread_id c ≠ Some t ∧ state c ≠ OPEN ∧ (awake = false → state c = CLOSING)
  | AwaitIdle awake =>
      closing_thread_id c = Some t ∧ state c = CLOSING ∧ closed = [] ∧ (awake = false → active c ≠ 0%nat)
  | Calling rest failed =>
      closing_thread_id c = Some t ∧ state c = CLOSING ∧ active c = 0%nat ∧
      close_targets cfg = closed.*1 ++ rest ∧ failed = any_failed closed
  end.

Definition thread_ok (c : client) (closed : list (nat * bool)) (t : nat) (th : thread) : Prop :=
  (pc th ≠ Outside → depth th = 0%nat) ∧ pc_ok c closed t (pc th).

Definition state_ok (s : system) : Prop :=
  match state (shared s) with
  | OPEN => closing_thread_id (shared s) = None ∧ closed s = []
  | CLOSING => ∃ t, closing_thread_id (shared s) = Some t ∧ is_Some (threads s !! t)
  | CLOSED => closing_thread_id (shared s) = None ∧ active (shared s) = 0%nat ∧
              (closed s).*1 = close_targets cfg ∧ close_failure (shared s) = any_failed (closed s)
  end.

Record invariant (s : system) : Prop := {
  inv_active : active (shared s) = total depth (threads s);
  inv_threads t th : threads s !! t = Some th → thread_ok (shared s) (closed s) t th;
  inv_state : state_ok s;
  inv_returned t f : (t, Done f) ∈ returned s →
    state (shared s) = CLOSED ∧ f = close_failure (shared s);
}.

Inductive reachable (n : nat) : system → Prop :=
| reachable_initial : reachable n (initial n)
| reachable_step s e s' : reachable n s → step cfg e s = Some s' → reachable n s'.

Lemma initial_invariant n : invariant (initial n).
Proof.
  split; cbn.
  - unfold total. by induction n.
  - intros t th [-> _]%lookup_replicate. by split.
  - done.
  - intros t f. rewrite elem_of_nil. done.
Qed.

(** A thread changes its place, nothing else happens. *)
Lemma move_invariant s t th p rs :
  invariant s → threads s !! t = Some th → depth th = 0%nat ∨ p = Outside →
  pc_ok (shared s) (closed s) t p →
  (∀ t f, (t, Done f) ∈ rs → state (shared s) = CLOSED ∧ f = close_failure (shared s)) →
  invariant (System (shared s) (<[t := Thread (depth th) p]> (threads s)) (closed s) rs).
Proof.
  intros [Ha Ht Hs Hr] Hth Hd Hp Hrs. split; cbn; [|intros t' th' Hth'|..|done].
  - pose proof (total_insert depth _ t th (Thread (depth th) p) Hth) as E. cbn [depth] in E. lia.
  - apply list_lookup_insert_Some in Hth' as [(<- & <- & _)|(_ & Hth')]; [|by apply Ht].
    split; [|done]. cbn. by intros; destruct Hd.
  - unfold state_ok in *. cbn. destruct (state (shared s)); [done| |done].
    destruct Hs as (o & ? & Ho). exists o. split; [done|].
    apply lookup_lt_is_Some in Ho. apply lookup_lt_is_Some. by rewrite length_insert.
Qed.

Lemma begin_invariant s t th c :
  invariant s → threads s !! t = Some th → begin_operation (shared s) = Some c →
  invariant (System c (<[t := Thread (S (depth th)) (pc th)]> (threads s)) (closed s) (returned s)).
Proof.
  intros [Ha Ht Hs Hr] Hth. unfold begin_operation. destruct (shared s) as [st n f o] eqn:Es.
  destruct st; cbn in *; intros [= <-].
  assert (∀ t th, threads s !! t = Some th → pc th = Outside) as Hout.
  { intros t' th' H'. destruct (Ht _ _ H') as [_ Hp]. destruct (pc th'); cbn in Hp; naive_solver. }
  split; cbn; [|intros t' th' H'|unfold state_ok in *|intros t' f' [H' _]%Hr; done].
  - pose proof (total_insert depth _ t th (Thread (S (depth th)) (pc th)) Hth) as E.
    cbn [depth] in E. lia.
  - apply list_lookup_insert_Some in H' as [(<- & <- & _)|(_ & H')].
    + split; cbn; [by rewrite (Hout _ _ Hth)|]. by destruct (Ht _ _ Hth) as [_ Hp]; rewrite (Hout _ _ Hth) in *.
    + destruct (Ht _ _ H') as [_ Hp]. rewrite (Hout _ _ H') in *. by split; cbn; rewrite (Hout _ _ H').
  - rewrite Es in Hs. exact Hs.
Qed.

Lemma end_invariant s t th :
  invariant s → threads s !! t = Some th → (0 < depth th)%nat →
  let c := end_operation (shared s) in
  let ths := <[t := Thread (pred (depth th)) (pc th)]> (threads s) in
  invariant (System c (if (active c =? 0)%nat then wake <$> ths else ths) (closed s) (returned s)).
Proof.
  intros [Ha Ht Hs Hr] Hth Hd c ths.
  pose proof (total_insert depth _ t th (Thread (pred (depth th)) (pc th)) Hth) as E. cbn [depth] in E.
  pose proof (total_elem depth _ _ _ Hth) as Hle.
  assert (pc th = Outside) as Hout.
  { destruct (Ht _ _ Hth) as [Hz _]. destruct (pc th); [done|..]; rewrite Hz in Hd by done; lia. }
  assert (∀ t' th', ths !! t' = Some th' → (pc th' ≠ Outside → depth th' = 0%nat) ∧
            (active c ≠ 0%nat → pc_ok c (closed s) t' (pc th')) ∧ pc_ok c (closed s) t' (pc (wake th'))) as Hths.
  { intros t' th' H'. apply list_lookup_insert_Some in H' as [(<- & <- & _)|(_ & H')].
    - destruct (Ht _ _ Hth) as [_ Hp]. cbn. rewrite Hout in *. by repeat split.
    - destruct (Ht _ _ H') as [Hz Hp]. split; [done|]. unfold wake.
      destruct th' as [d' [|[]|[]|]]; cbn in *; first [lia | intuition congruence]. }
  split; cbn [shared threads closed returned].
  - cbn. rewrite Ha. destruct (_ =? 0)%nat; [rewrite total_fmap by by intros [? []]|]; fold ths in E; lia.
  - intros t' th'. destruct (active c =? 0)%nat eqn:Ez.
    + rewrite list_lookup_fmap. intros ([d p] & H' & ->)%fmap_Some. destruct (Hths _ _ H') as (Hz & _ & Hp).
      split; [|done]. destruct p; cbn in *; auto.
    + apply Nat.eqb_neq in Ez. intros H'. destruct (Hths _ _ H') as (Hz & Hp & _). by split; [|apply Hp].
  - unfold state_ok in *. cbn. destruct (state (shared s)); [done| |lia].
    destruct Hs as (o & ? & Ho). exists o. split; [done|].
    apply lookup_lt_is_Some in Ho. apply lookup_lt_is_Some.
    by destruct (_ =? 0)%nat; rewrite ?length_fmap; unfold ths; rewrite length_insert.
  - intros t' f' [H' ->]%Hr. unfold state_ok in Hs. rewrite H' in Hs. lia.
Qed.

Lemma finish_invariant s t th failed :
  invariant s → threads s !! t = Some th → pc th = Calling [] failed →
  invariant (System (Client CLOSED (active (shared s)) failed None)
               (wake <$> <[t := Thread (depth th) Outside]> (threads s)) (closed s)
               (returned s ++ [(t, Done failed)])).
Proof.
  intros [Ha Ht Hs Hr] Hth Hpc.
  pose proof (total_insert depth _ t th (Thread (depth th) Outside) Hth) as E. cbn [depth] in E.
  destruct (Ht _ _ Hth) as [_ Hp]. rewrite Hpc in Hp. cbn in Hp. destruct Hp as (Ho & Hst & Hz & Hc & Hf).
  split; cbn; [|intros t' th'|unfold state_ok; cbn|intros t' f'].
  - rewrite total_fmap by by intros [? []]. lia.
  - rewrite list_lookup_fmap. intros ([d p] & H' & ->)%fmap_Some.
    apply list_lookup_insert_Some in H' as [(<- & [= <- <-] & _)|(Hne & H')]; [by split|].
    destruct (Ht _ _ H') as [Hd Hp]. destruct p as [|[]|[]|]; cbn in *; split; cbn; try done; try tauto; naive_solver.
  - rewrite app_nil_r in Hc. by repeat split.
  - rewrite elem_of_app, list_elem_of_singleton. intros [H'|[= _ ->]]; [|done].
    apply Hr in H' as [H' _]. congruence.
Qed.

Lemma owner_waits_ok c closed t :
  closing_thread_id c = Some t → state c = CLOSING → closed = [] → pc_ok c closed t (owner_waits cfg c).
Proof. intros Ho Hs ->. unfold owner_waits. by destruct (Nat.eqb_spec (active c) 0). Qed.

Lemma close_invariant s t th :
  invariant s → threads s !! t = Some th → runnable th = true → invariant (close_begins cfg t th s).
Proof.
  intros Hinv Hth Hrun. pose proof Hinv as [Ha Ht Hs Hr]. unfold close_begins.
  assert (∀ r, (∀ f, r = Done f → state (shared s) = CLOSED ∧ f = close_failure (shared s)) →
    invariant (System (shared s) (threads s) (closed s) (returned s ++ [(t, r)]))) as Hlog.
  { intros r Hd. split; cbn; [done..|]. intros t' f'.
    rewrite elem_of_app, list_elem_of_singleton. intros [H'|[= _ H']]; [by eapply Hr|by apply Hd]. }
  destruct (0 <? depth th)%nat eqn:Ed; [by apply Hlog|]. apply Nat.ltb_ge in Ed.
  destruct (Ht _ _ Hth) as [Hd Hp]. unfold state_ok in Hs.
  destruct (state (shared s)) eqn:Est; [|case_bool_decide|apply Hlog; by intros f [= ->]].
  - destruct Hs as [Ho Hc]. set (c := Client CLOSING (active (shared s)) (close_failure (shared s)) (Some t)).
    assert (∀ t' th', threads s !! t' = Some th' → pc th' = Outside) as Hout.
    { intros t' th' H'. destruct (Ht _ _ H') as [_ Hq]. destruct (pc th'); cbn in Hq; naive_solver. }
    pose proof (total_insert depth _ t th (Thread (depth th) (owner_waits cfg c)) Hth) as E. cbn [depth] in E.
    split; cbn; [lia|intros t' th' H'|unfold state_ok; cbn; exists t|intros t' f' [H' _]%Hr; congruence].
    + apply list_lookup_insert_Some in H' as [(<- & <- & _)|(Hne & H')].
      * split; [intros _; cbn; lia|]. by apply owner_waits_ok.
      * unfold thread_ok. rewrite (Hout _ _ H'). cbn. split; [done|congruence].
    + split; [done|]. apply lookup_lt_is_Some. rewrite length_insert. by apply lookup_lt_Some in Hth.
  - by apply Hlog.
  - apply move_invariant; [done|done|left; lia| |apply Hinv]. cbn. split; [done|]. by rewrite Est.
Qed.

Lemma woken_invariant s t th s' :
  invariant s → threads s !! t = Some th → woken cfg t th s = Some s' → invariant s'.
Proof.
  intros Hinv Hth. pose proof Hinv as [Ha Ht Hs Hr]. destruct (Ht _ _ Hth) as [Hd Hp]. unfold woken.
  destruct (pc th) as [|[]|[]|] eqn:Epc; try done; cbn in Hp.
  - destruct Hp as (Ho & Hst & _). specialize (Hd ltac:(done)).
    destruct (state (shared s)) eqn:Est; [done|..]; intros [= <-]; (apply move_invariant; [done|done|by left|..]).
    + cbn. by rewrite Est.
    + apply Hinv.
    + done.
    + intros t' f'. rewrite Est, elem_of_app, list_elem_of_singleton. intros [H'|[= _ ->]]; [by apply (Hr t')|done].
  - intros [= <-]. destruct Hp as (Ho & Hst & Hc & _). apply move_invariant; [done|done|left; by apply Hd|by apply owner_waits_ok|done].
Qed.

Lemma step_invariant e s s' : invariant s → step cfg e s = Some s' → invariant s'.
Proof.
  intros Hinv Hstep. pose proof Hinv as [Ha Ht Hs Hr].
  destruct e as [t|t|t|t|t ok|t]; cbn [step] in Hstep;
    (destruct (threads s !! t) as [th|] eqn:Hth; [|done]); cbn [mbind option_bind] in Hstep.
  - destruct (runnable th); [|done]. destruct (begin_operation (shared s)) eqn:Eb; injection Hstep as <-; [|done].
    by apply begin_invariant.
  - destruct (runnable th && _) eqn:E; [|done]. apply andb_true_iff in E as [_ Hd%Nat.ltb_lt].
    injection Hstep as <-. by apply end_invariant.
  - destruct (runnable th) eqn:E; [|done]. injection Hstep as <-. by apply close_invariant.
  - by eapply woken_invariant.
  - destruct (pc th) as [| | |[|target rest] failed] eqn:Epc; try done. injection Hstep as <-.
    destruct (Ht _ _ Hth) as [Hd Hp]. rewrite Epc in Hd, Hp. specialize (Hd ltac:(done)). cbn in Hp.
    destruct Hp as (Ho & Hst & Hz & Hc & ->).
    split; cbn; [|intros t' th' H'|unfold state_ok in *; cbn; rewrite Hst in *|done].
    + pose proof (total_insert depth _ t th (Thread (depth th) (Calling rest (any_failed (closed s) || negb ok))) Hth) as E.
      cbn [depth] in E. lia.
    + apply list_lookup_insert_Some in H' as [(<- & <- & _)|(Hne & H')].
      * split; [done|]. cbn. unfold any_failed. rewrite fmap_app, <-app_assoc, existsb_app. cbn.
        by rewrite orb_false_r.
      * destruct (Ht _ _ H') as [Hd' Hp']. split; [done|]. destruct (pc th') as [| | |]; cbn in *; naive_solver.
    + exists t. split; [done|]. apply lookup_lt_is_Some. rewrite length_insert. by apply lookup_lt_Some in Hth.
  - destruct (pc th) as [| | |[|target rest] failed] eqn:Epc; try done. injection Hstep as <-.
    by apply finish_invariant.
Qed.

Lemma reachable_invariant n s : reachable n s → invariant s.
Proof. induction 1; [apply initial_invariant|by eapply step_invariant]. Qed.

(** ** Progress

    The steps that end operations and calls of [close] that are under way.  Each of
    them decreases [remaining], and there is one as long as a call is under way. *)
Definition progress (e : event) : bool :=
  match e with Begin _ | Close _ => false | _ => true end.

Definition weight (n : nat) (p : close_pc) : nat :=
  match p with
  | Outside => 0
  | AwaitClosed awake => if awake then 2 else 1
  | Calling rest _ => n + 2 + length rest
  | AwaitIdle awake => n + length (close_targets cfg) + (if awake then 4 else 3)
  end.

Definition cost (n : nat) (th : thread) : nat := (n + 1) * depth th + weight n (pc th).
Definition remaining (s : system) : nat := total (cost (length (threads s))) (threads s).

Lemma wake_cost n ths : (total (cost n) (wake <$> ths) ≤ total (cost n) ths + length ths)%nat.
Proof.
  unfold total. induction ths as [|[d [|[]|[]|]] ths IH]; cbn in *; unfold cost in *; cbn in *; lia.
Qed.

Lemma progress_decreases e s s' :
  progress e = true → step cfg e s = Some s' → (remaining s' < remaining s)%nat.
Proof.
  intros Hp Hstep. unfold remaining. set (n := length (threads s)).
  destruct e as [t|t|t|t|t ok|t]; try done; cbn [step] in Hstep;
    (destruct (threads s !! t) as [th|] eqn:Hth; [|done]); cbn [mbind option_bind] in Hstep;
    pose proof (λ th', total_insert (cost n) _ t th th' Hth) as E.
  - destruct (runnable th && _) eqn:Er; [|done]. apply andb_true_iff in Er as [_ Hd%Nat.ltb_lt].
    specialize (E (Thread (pred (depth th)) (pc th))). unfold cost at 2 4 in E. cbn [depth pc] in E.
    injection Hstep as <-. cbn [threads]. destruct (_ =? 0)%nat; rewrite ?length_fmap, length_insert; fold n; [|nia].
    pose proof (wake_cost n (<[t := Thread (pred (depth th)) (pc th)]> (threads s))) as Hw.
    rewrite length_insert in Hw. fold n in Hw. nia.
  - unfold woken, owner_waits in Hstep. unfold cost at 2 4 in E.
    destruct (pc th) as [|[]|[]|] eqn:Epc; try done;
      [destruct (state (shared s))|destruct (active (shared s) =? 0)%nat]; injection Hstep as <-; cbn [threads];
      rewrite length_insert; fold n;
      match goal with |- context [<[t := ?th']> _] => specialize (E th') end; cbn [depth pc weight] in E; lia.
  - destruct (pc th) as [| | |[|target rest] failed] eqn:Epc; try done. injection Hstep as <-. cbn [threads].
    specialize (E (Thread (depth th) (Calling rest (failed || negb ok)))). unfold cost at 2 4 in E.
    rewrite Epc in E. rewrite length_insert. fold n. cbn [depth pc weight length] in E. lia.
  - destruct (pc th) as [| | |[|target rest] failed] eqn:Epc; try done. injection Hstep as <-. cbn [threads].
    specialize (E (Thread (depth th) Outside)). unfold cost at 2 4 in E. rewrite Epc in E.
    rewrite length_fmap, length_insert. fold n. cbn [depth pc weight length] in E.
    pose proof (wake_cost n (<[t := Thread (depth th) Outside]> (threads s))) as Hw.
    rewrite length_insert in Hw. fold n in Hw. lia.
Qed.

Lemma active_thread ths : (0 < total depth ths)%nat → ∃ t th, ths !! t = Some th ∧ (0 < depth th)%nat.
Proof.
  unfold total. induction ths as [|th ths IH]; cbn; [lia|]. intros H.
  destruct (decide (0 < depth th)%nat) as [Hd|Hd]; [by exists 0%nat, th|].
  destruct IH as (t & th' & ? & ?); [lia|]. by exists (S t), th'.
Qed.

Definition settled (s : system) : Prop := ∀ t th, threads s !! t = Some th → pc th = Outside.

Lemma owner_progress s t :
  invariant s → closing_thread_id (shared s) = Some t → is_Some (threads s !! t) →
  ∃ e s', progress e = true ∧ step cfg e s = Some s'.
Proof.
  intros [Ha Ht Hs Hr] Ho [th Hth]. destruct (Ht _ _ Hth) as [Hd Hp].
  destruct (pc th) as [|a|[]|[|x rest] f] eqn:Epc; cbn in Hp;
    [done|by destruct Hp|..].
  - exists (Wake t). cbn [step]. rewrite Hth. cbn [mbind option_bind]. unfold woken. rewrite Epc. eauto.
  - destruct (active_thread (threads s)) as (t' & th' & Hth' & Hd'); [rewrite <-Ha; destruct Hp as (_ & _ & _ & Hp); lia|].
    exists (End t'). cbn [step]. rewrite Hth'. cbn [mbind option_bind].
    destruct (Ht _ _ Hth') as [Hz _]. unfold runnable.
    destruct (pc th'); [|rewrite Hz in Hd' by done; lia..].
    apply Nat.ltb_lt in Hd'. rewrite Hd'. eauto.
  - exists (Finish t). cbn [step]. rewrite Hth. cbn [mbind option_bind]. rewrite Epc. eauto.
  - exists (TransportClosed t true). cbn [step]. rewrite Hth. cbn [mbind option_bind]. rewrite Epc. eauto.
Qed.

(** No deadlock: as long as a call of [close] is under way, a thread can go on. *)
Lemma progress_enabled s : invariant s → settled s ∨ ∃ e s', progress e = true ∧ step cfg e s = Some s'.
Proof.
  intros Hinv. pose proof Hinv as [Ha Ht Hs Hr]. unfold state_ok in Hs.
  destruct (state (shared s)) eqn:Est.
  - left. intros t th Hth. destruct (Ht _ _ Hth) as [_ Hp]. clear -Hp Est.
    destruct (pc th); cbn in Hp; intuition congruence.
  - right. destruct Hs as (t & Ho & Hth). by eapply owner_progress.
  - destruct (decide (Exists (λ th, runnable th = false) (threads s))) as [He|Hn].
    + right. apply Exists_exists in He as (th & (t & Hth)%list_elem_of_In%list_elem_of_lookup & Hrun).
      destruct (Ht _ _ Hth) as [_ Hp]. unfold runnable in Hrun. exists (Wake t). cbn [step]. rewrite Hth.
      cbn [mbind option_bind]. unfold woken.
      destruct (pc th) as [|[]|[]|]; cbn in Hp; rewrite ?Est; clear -Hp Est Hrun; [done|eauto|intuition congruence..].
    + left. intros t th Hth. destruct (Ht _ _ Hth) as [_ Hp].
      assert (runnable th ≠ false) as Hrun.
      { intros E. apply Hn, Exists_exists. exists th. split; [|done].
        apply list_elem_of_In, list_elem_of_lookup. by exists t. }
      unfold runnable in Hrun. clear -Hp Est Hrun. destruct (pc th); cbn in Hp; intuition congruence.
Qed.

Lemma run_app es es' s s' s'' :
  run cfg es s = Some s' → run cfg es' s' = Some s'' → run cfg (es ++ es') s = Some s''.
Proof.
  revert s. induction es as [|e es IH]; intros s; cbn; [by intros [= ->]|].
  destruct (step cfg e s); cbn; [apply IH|done].
Qed.

Lemma run_preserves (P : system → Prop) es s s' :
  (∀ e s s', P s → step cfg e s = Some s' → P s') → P s → run cfg es s = Some s' → P s'.
Proof.
  intros Hstep. revert s. induction es as [|e es IH]; intros s Hs; cbn; [by intros [= <-]|].
  destruct (step cfg e s) as [r|] eqn:E; cbn; [|done]. apply IH. by eapply Hstep.
Qed.

Lemma progress_bounded es s s' :
  Forall (λ e, progress e = true) es → run cfg es s = Some s' → (length es + remaining s' ≤ remaining s)%nat.
Proof.
  intros Hes. revert s. induction Hes as [|e es He _ IH]; intros s; cbn [run length]; [by intros [= ->]|].
  destruct (step cfg e s) as [r|] eqn:E; cbn; [|done]. intros H%IH.
  pose proof (progress_decreases e s r He E). lia.
Qed.

Lemma never_reopened e s s' : state (shared s) ≠ OPEN → step cfg e s = Some s' → state (shared s') ≠ OPEN.
Proof.
  intros Hs Hstep. destruct e as [t|t|t|t|t ok|t]; cbn [step] in Hstep;
    (destruct (threads s !! t) as [th|] eqn:Hth; [|done]); cbn [mbind option_bind] in Hstep.
  - destruct (runnable th); [|done]. unfold begin_operation in Hstep.
    destruct (state (shared s)) eqn:Est; [done|..]; injection Hstep as <-; by rewrite Est.
  - destruct (_ && _); [|done]. by injection Hstep as <-.
  - destruct (runnable th); [|done]. injection Hstep as <-. unfold close_begins.
    destruct (_ <? _)%nat; [done|]. destruct (state (shared s)) eqn:Est; [done|case_bool_decide|]; by cbn; rewrite Est.
  - unfold woken in Hstep. destruct (pc th) as [|[]|[]|]; try done; [|by injection Hstep as <-].
    destruct (state (shared s)) eqn:Est; [done|..]; injection Hstep as <-; cbn; by rewrite Est.
  - destruct (pc th) as [| | |[]]; try done. by injection Hstep as <-.
  - destruct (pc th) as [| | |[]]; try done. by injection Hstep as <-.
Qed.

Lemma settles s : invariant s → ∃ es s', Forall (λ e, progress e = true) es ∧ run cfg es s = Some s' ∧ settled s'.
Proof.
  remember (remaining s) as m eqn:Em. revert s Em.
  induction (lt_wf m) as [m _ IH]. intros s -> Hinv.
  destruct (progress_enabled s Hinv) as [Hset|(e & r & He & Hr)]; [by exists [], s|].
  destruct (IH (remaining r)) with (s := r) as (es & s' & Hes & Hrun & Hset);
    [by apply (progress_decreases e)|done|by eapply step_invariant|].
  exists (e :: es), s'. split; [by constructor|]. cbn. by rewrite Hr.
Qed.

(** The callers of [close] that wait for it or carry it out. *)
Definition under_way (s : system) (t : nat) : Prop := ∃ th, threads s !! t = Some th ∧ pc th ≠ Outside.

(** Results are only added, and a call that is no longer under way has one. *)
Definition answers (s s' : system) : Prop :=
  ∃ new, returned s' = returned s ++ new ∧
    ∀ t, under_way s t → under_way s' t ∨ ∃ failed, (t, Done failed) ∈ new.

Lemma answers_refl s : answers s s.
Proof. exists []. rewrite app_nil_r. eauto. Qed.

Lemma answers_trans s1 s2 s3 : answers s1 s2 → answers s2 s3 → answers s1 s3.
Proof.
  intros (new & E & H) (new' & E' & H'). exists (new ++ new'). split; [by rewrite E', E, app_assoc|].
  intros t [?|[f ?]]%H; [|right; exists f; apply elem_of_app; by left].
  destruct (H' t) as [?|[f ?]]; [done|by left|right; exists f; apply elem_of_app; by right].
Qed.

(** A step of one thread: it stays under way if it was, or it is answered. *)
Lemma answers_insert s c th' t th cl rs new (w : bool) :
  rs = returned s ++ new → threads s !! t = Some th → (pc th ≠ Outside → pc th' ≠ Outside ∨ ∃ failed, (t, Done failed) ∈ new) →
  let ths := <[t := th']> (threads s) in
  answers s (System c (if w then wake <$> ths else ths) cl rs).
Proof.
  intros -> Hth Hpc ths. exists new. split; [done|]. intros t' (x & Hx & Hout).
  assert ((∃ y, ths !! t' = Some y ∧ pc y ≠ Outside) ∨ ∃ failed, (t', Done failed) ∈ new) as [(y & Hy & Hne)|]; [| |by right].
  - unfold ths. destruct (decide (t = t')) as [<-|Hne].
    + rewrite Hth in Hx. injection Hx as <-. destruct (Hpc Hout) as [?|?]; [left|by right].
      exists th'. split; [|done]. apply list_lookup_insert_eq. by eapply lookup_lt_Some.
    + left. exists x. by rewrite list_lookup_insert_ne.
  - left. unfold under_way. cbn [threads]. destruct w; [|eauto]. exists (wake y).
    rewrite list_lookup_fmap, Hy. split; [done|]. by destruct y as [? []].
Qed.

Lemma answers_step e s s' : step cfg e s = Some s' → answers s s'.
Proof.
  intros Hstep. pose proof (app_nil_r (returned s)) as En.
  destruct e as [t|t|t|t|t ok|t]; cbn [step] in Hstep;
    (destruct (threads s !! t) as [th|] eqn:Hth; [|done]); cbn [mbind option_bind] in Hstep;
    pose proof (λ c th' cl rs new w Hrs, answers_insert s c th' t th cl rs new w Hrs Hth) as Hins.
  - destruct (runnable th); [|done]. destruct (begin_operation _); injection Hstep as <-; [|apply answers_refl].
    apply (Hins _ _ _ _ [] false); [done|by left].
  - destruct (_ && _); [|done]. injection Hstep as <-. apply (Hins _ _ _ _ []); [done|by left].
  - destruct (runnable th) eqn:Hrun; [|done]. injection Hstep as <-. unfold close_begins.
    assert (∀ r, answers s (System (shared s) (threads s) (closed s) (returned s ++ [(t, r)]))) as Hlog.
    { intros r. exists [(t, r)]. split; [done|]. intros t' Ht'. by left. }
    destruct (_ <? _)%nat; [apply Hlog|]. destruct (state (shared s)); [|case_bool_decide; [apply Hlog|]|apply Hlog].
    + apply (Hins _ _ _ _ [] false); [done|]. intros _. left. unfold owner_waits. by destruct (_ =? _)%nat.
    + apply (Hins _ _ _ _ [] false); [done|by left].
  - unfold woken in Hstep. destruct (pc th) as [|[]|[]|] eqn:Epc; try done.
    + destruct (state (shared s)); injection Hstep as <-;
        [eapply (Hins _ _ _ _ _ false); [done|]; right; eexists; by apply list_elem_of_singleton
        |apply (Hins _ _ _ _ [] false); [done|by left]
        |eapply (Hins _ _ _ _ _ false); [done|]; right; eexists; by apply list_elem_of_singleton].
    + injection Hstep as <-. apply (Hins _ _ _ _ [] false); [done|]. intros _. left.
      unfold owner_waits. by destruct (_ =? _)%nat.
  - destruct (pc th) as [| | |[|target rest] failed]; try done. injection Hstep as <-.
    apply (Hins _ _ _ _ [] false); [done|by left].
  - destruct (pc th) as [| | |[|target rest] failed]; try done. injection Hstep as <-.
    eapply (Hins _ _ _ _ _ true); [done|]. right. eexists. by apply list_elem_of_singleton.
Qed.

Lemma answers_run es s s' : run cfg es s = Some s' → answers s s'.
Proof.
  intros Hrun. apply (run_preserves (answers s) es s s'); [|apply answers_refl|done].
  intros e s1 s2 H1 H2. by eapply answers_trans; [|eapply answers_step].
Qed.

Lemma settled_answers s s' :
  invariant s' → settled s' → state (shared s') = CLOSED → answers s s' →
  ∃ new, returned s' = returned s ++ new ∧
    ∀ t, under_way s t → (t, Done (any_failed (closed s'))) ∈ new.
Proof.
  intros [_ _ Hs Hr] Hset Hcl (new & E & H). exists new. split; [done|].
  intros t [(th & Hth & Hout)|[f Hf]]%H; [by destruct Hout; eapply Hset|].
  destruct (Hr t f) as [_ ->]; [rewrite E; apply elem_of_app; by right|].
  unfold state_ok in Hs. rewrite Hcl in Hs. destruct Hs as (_ & _ & _ & Ef). by rewrite Ef in Hf.
Qed.

Lemma settled_closed s : invariant s → state (shared s) ≠ OPEN → settled s → state (shared s) = CLOSED.
Proof.
  intros [Ha Ht Hs Hr] Hne Hset. unfold state_ok in Hs. destruct (state (shared s)); [done| |done].
  destruct Hs as (t & Ho & th & Hth). destruct (Ht _ _ Hth) as [_ Hp]. rewrite (Hset _ _ Hth) in Hp. done.
Qed.

End invariant.

(** ** Which transports are closed *)
Definition owned (c : settings) (x : nat) : Prop :=
  (owns_transport c = true ∧ x = transport c) ∨
  (owns_approval_transport c = true ∧ approval_transport c = Some x).

Lemma close_targets_owned c : NoDup (close_targets c) ∧ ∀ x, x ∈ close_targets c ↔ owned c x.
Proof.
  unfold close_targets, owned. destruct c as [t [a|] [] []]; cbn;
    try (destruct (Nat.eqb_spec a t) as [->|Hne]; cbn); split;
    try (intros x; rewrite ?elem_of_cons, ?elem_of_nil; split; intros; destruct_or?; destruct_and?;
         simplify_eq; tauto);
    first [apply NoDup_nil_2 | apply NoDup_singleton
          | apply NoDup_cons_2; [by intros ->%list_elem_of_singleton|apply NoDup_singleton]].
Qed.

(** C15: Transports are closed when the client is idle, and once.  However the threads
    interleave, the transports closed so far are distinct and owned by the client,
    and while one is being closed, and after it, no thread is inside of an
    operation.  A call of [close] that ends normally or with the remembered failure
    does so when all owned transports were closed, and raises exactly if one of
    them failed: all such calls end the same way. *)
Theorem transports_close_when_idle cfg n s :
  reachable cfg n s →
  (∃ rest, close_targets cfg = (closed s).*1 ++ rest) ∧
  NoDup (closed s).*1 ∧ (∀ x, x ∈ (closed s).*1 → owned cfg x) ∧
  (closed s ≠ [] → ∀ t th, threads s !! t = Some th → depth th = 0%nat) ∧
  (∀ t failed, (t, Done failed) ∈ returned s →
    (∀ x, owned cfg x → x ∈ (closed s).*1) ∧ failed = any_failed (closed s)).
Proof.
  intros Hr%reachable_invariant. pose proof Hr as [Ha Ht Hs Hd].
  destruct (close_targets_owned cfg) as [Hnd Hown].
  assert (∃ rest, close_targets cfg = (closed s).*1 ++ rest ∧ (closed s ≠ [] → active (shared s) = 0%nat)) as (rest & Hc & Hz).
  { unfold state_ok in Hs. destruct (state (shared s)) eqn:Est.
    - destruct Hs as [_ ->]. by exists (close_targets cfg).
    - destruct Hs as (t & Ho & th & Hth). destruct (Ht _ _ Hth) as [_ Hp].
      destruct (pc th) as [| | |rest f]; cbn in Hp; [done|by destruct Hp|..].
      + destruct Hp as (_ & _ & -> & _). by exists (close_targets cfg).
      + exists rest. tauto.
    - exists []. rewrite app_nil_r. intuition congruence. }
  split; [by exists rest|]. rewrite Hc in Hnd. apply list.NoDup_app in Hnd as (Hnd & _ & _).
  split; [done|]. split; [|split].
  - intros x Hx. apply Hown. rewrite Hc. apply elem_of_app. by left.
  - intros Hne t th Hth. pose proof (total_elem depth _ _ _ Hth) as Hle. rewrite <-Ha, (Hz Hne) in Hle. lia.
  - intros t f [Hst ->]%Hd. unfold state_ok in Hs. rewrite Hst in Hs. destruct Hs as (_ & _ & Hl & Hf).
    split; [|done]. intros x Hx. rewrite Hl. by apply Hown.
Qed.

(** C37: [close] completes.  Once a thread has called [close], the steps that end
    operations and closes lead to the closed client in which every call of [close]
    has returned: each call that was under way has returned or raised, and all of
    them raised if the [close] of a transport did and returned otherwise.  There
    are at most [remaining] such steps, and one is enabled at every moment before.
    In particular no wake-up of a waiting thread is lost. *)
Theorem close_completes cfg n s :
  reachable cfg n s → state (shared s) ≠ OPEN →
  (∃ es s', Forall (λ e, progress e = true) es ∧ run cfg es s = Some s' ∧
     settled s' ∧ state (shared s') = CLOSED) ∧
  (∀ es s', run cfg es s = Some s' → settled s' →
     ∃ new, returned s' = returned s ++ new ∧
       ∀ t, under_way s t → (t, Done (any_failed (closed s'))) ∈ new) ∧
  (∀ es s', Forall (λ e, progress e = true) es → run cfg es s = Some s' →
     (length es ≤ remaining cfg s)%nat) ∧
  (∀ es s', run cfg es s = Some s' →
     settled s' ∨ ∃ e s'', progress e = true ∧ step cfg e s' = Some s'').
Proof.
  intros Hr%reachable_invariant Hne.
  assert (∀ es s', run cfg es s = Some s' → invariant cfg s') as Hinv.
  { intros es s'. apply (run_preserves cfg (invariant cfg)); [apply step_invariant|done]. }
  assert (∀ es s', run cfg es s = Some s' → settled s' → state (shared s') = CLOSED) as Hcl.
  { intros es s' Hrun. apply (settled_closed cfg); [by eapply Hinv|].
    by eapply (run_preserves cfg (λ s, state (shared s) ≠ OPEN)); [apply never_reopened|..]. }
  split; [|split; [|split]].
  - destruct (settles cfg s Hr) as (es & s' & Hes & Hrun & Hset). exists es, s'. eauto.
  - intros es s' Hrun Hset. apply (settled_answers cfg); eauto using answers_run.
  - intros es s' Hes Hrun. pose proof (progress_bounded cfg es s s' Hes Hrun). lia.
  - intros es s' Hrun. apply progress_enabled. eauto.
Qed.

(** ** An example

    Three threads: the first is in an operation when the second and the third
    close a client that owns both of its transports, the second of which fails. *)
Definition example_settings : settings := Settings 0 (Some 1%nat) true true.
Definition example_events : list event :=
  [Begin 0; Close 1; Close 2; Begin 0; End 0; Wake 1; TransportClosed 1 true].
Definition example_system : option system := run example_settings example_events (initial 3).

Lemma run_reachable cfg n es s s' : reachable cfg n s → run cfg es s = Some s' → reachable cfg n s'.
Proof. intros Hs. apply (run_preserves cfg (reachable cfg n)); [intros; by eapply reachable_step|done]. Qed.

Definition example_state : system := from_option id (initial 0) example_system.

Lemma example_reachable : reachable example_settings 3 example_state.
Proof. by apply (run_reachable _ _ example_events (initial 3)); [apply reachable_initial|]. Qed.

(** One transport is closed, the other is not; no thread is in an operation. *)
Lemma transports_close_when_idle_witness :
  reachable example_settings 3 example_state ∧ closed example_state = [(0%nat, true)] ∧
  (∀ t th, threads example_state !! t = Some th → depth th = 0%nat).
Proof.
  split; [exact example_reachable|]. split; [reflexivity|].
  destruct (transports_close_when_idle example_settings 3 example_state example_reachable) as (_ & _ & _ & H & _).
  by apply H.
Defined.

Definition example_rest : list event := [TransportClosed 1 false; Finish 1; Wake 2].

Lemma close_completes_witness :
  reachable example_settings 3 example_state ∧ state (shared example_state) ≠ OPEN ∧
  (∃ es s', Forall (λ e, progress e = true) es ∧ run example_settings es example_state = Some s' ∧
    settled s' ∧ state (shared s') = CLOSED) ∧
  (∀ s', run example_settings example_rest example_state = Some s' → settled s' →
    (2%nat, Done (any_failed (closed s'))) ∈ returned s').
Proof.
  destruct (close_completes example_settings 3 example_state example_reachable ltac:(done)) as (Hc & Ha & _).
  split; [exact example_reachable|]. split; [done|]. split; [exact Hc|].
  intros s' Hrun Hset. destruct (Ha example_rest s' Hrun Hset) as (new & -> & H).
  apply elem_of_app. right. apply H. by eexists.
Defined.
