(* ===== verification/AsyncLifecycle.v ===== *)
(** * The life of an asynchronous client

    Models [_begin_operation], [_end_operation], [_finish_close] and [aclose] of
    [AsyncAuthorizationClient] ([async_client.py]) and how the tasks that call them
    interleave.  No task suspends while it holds [self._condition] (waiting on the
    condition gives it up), so a block under the condition never has to wait for
    it and is part of one step; a step ends where a task awaits a transport, the
    condition or the close task.  Cancellation can arrive at any such place.  The
    context variable [_ACTIVE_CLIENTS] is a value of each task, and a new task
    starts with a copy of that of the task which creates it. *)

From stdpp Require Import base list list_numbers numbers.
From S2P Require Import Prelude PyString Errors Lifecycle.

(** ** State *)

(** How [_finish_close] ended: it returned, raised [AuthorizationUnavailable] or was
    cancelled. *)
Inductive close_outcome := Succeeded | Failed | Cancelled.
#[global] Instance close_outcome_eq_dec : EqDecision close_outcome.
Proof. solve_decision. Defined.

(** Where the task that runs [_finish_close] is: not started, asleep or awake in the
    loop that waits for operations, closing a target, or done. *)
Inductive close_task :=
| Created
| AwaitingIdle (awake : bool)
| AwaitingTarget (target : nat) (rest : list nat) (failed : bool)
| Ended (o : close_outcome).

Record aclient := AClient {
  a_state : client_state;
  a_active : nat;
  a_close_failure : bool;
  a_close_task : option close_task;
}.

(** A task: whether the client is in its [_ACTIVE_CLIENTS], the values that the
    tokens of its operations restore (the innermost first), and whether it awaits
    the close task in [aclose]. *)
Record task := Task { inside : bool; tokens : list bool; waits : bool }.

(** How a call of [aclose] ends: it raises at once inside of an operation, returns
    at once inside of the close task, ends as the close task did, or the caller is
    cancelled. *)
Inductive aclose_result := ARejected | AReentered | Finished (o : close_outcome) | Interrupted.

(** The client, the tasks other than the close task, the transports whose [aclose]
    was awaited (and whether it returned), and the results of the calls of the
    client's [aclose]; the close task as a caller is [None]. *)
Record loop := Loop {
  l_client : aclient;
  l_tasks : list task;
  l_closed : list (nat * bool);
  l_returned : list (option nat * aclose_result);
}.

Definition new_aclient : aclient := AClient OPEN 0 false None.
Definition initial_loop (n : nat) : loop := Loop new_aclient (replicate n (Task false [] false)) [] [].

(** ** The operations *)

(** [_begin_operation]; [None] is [AuthorizationUnavailable]. *)
Definition abegin_operation (c : aclient) : option aclient :=
  match a_state c with
  | OPEN => Some (AClient OPEN (S (a_active c)) (a_close_failure c) (a_close_task c))
  | _ => None
  end.

(** [notify_all]: only the close task waits on the condition. *)
Definition notify (ct : option close_task) : option close_task :=
  match ct with Some (AwaitingIdle _) => Some (AwaitingIdle true) | _ => ct end.

Definition aend_operation (c : aclient) : aclient :=
  let n := pred (a_active c) in
  AClient (a_state c) n (a_close_failure c)
    (if (n =? 0)%nat then notify (a_close_task c) else a_close_task c).

(** [token = _ACTIVE_CLIENTS.set(...)] and [_ACTIVE_CLIENTS.reset(token)]. *)
Definition set_active (tk : task) : task := Task true (inside tk :: tokens tk) (waits tk).
Definition reset_active (tk : task) : option task :=
  match tokens tk with [] => None | b :: bs => Some (Task b bs (waits tk)) end.

Definition set_close_task (ct : close_task) (c : aclient) : aclient :=
  AClient (a_state c) (a_active c) (a_close_failure c) (Some ct).

(** The last block of [_finish_close] and its end. *)
Definition close_finished (failed : bool) (c : aclient) : aclient :=
  AClient CLOSED (a_active c) failed (Some (Ended (if failed then Failed else Succeeded))).

(** [for close_target in close_targets], up to the next [await]. *)
Definition call_targets (targets : list nat) (failed : bool) (c : aclient) : aclient :=
  match targets with
  | [] => close_finished failed c
  | x :: rest => set_close_task (AwaitingTarget x rest failed) c
  end.

Inductive aevent :=
| ABegin (t : nat)
| AEnd (t : nat)
| AClose (t : option nat)
| Spawn (parent : option nat)
| CloseRuns
| TargetClosed (ok : bool)
| Resumes (t : nat)
| CancelCaller (t : nat)
| CancelClose.

Section steps.
Variable cfg : settings.

(** [_finish_close] from the test of [while self._active] on. *)
Definition await_idle (c : aclient) : aclient :=
  if (a_active c =? 0)%nat then call_targets (close_targets cfg) false c
  else set_close_task (AwaitingIdle false) c.

(** [aclose] up to its return or to [await asyncio.shield(task)], which ends at once
    if the task is done: the new client, and the result unless it waits. *)
Definition aclose (t : option nat) (active_inside : bool) (c : aclient) : aclient * option aclose_result :=
  if active_inside then (c, Some ARejected)
  else
    let c := match a_state c with
             | OPEN => AClient CLOSING (a_active c) (a_close_failure c) (Some Created)
             | _ => c
             end in
    match a_close_task c with
    | None => (c, Some (Finished (if a_close_failure c then Failed else Succeeded)))
    | Some ct =>
        match t with
        | None => (c, Some AReentered)
        | Some _ => match ct with Ended o => (c, Some (Finished o)) | _ => (c, None) end
        end
    end.

Definition set_task (t : nat) (tk : task) (c : aclient) (s : loop) : loop :=
  Loop c (<[t := tk]> (l_tasks s)) (l_closed s) (l_returned s).

Definition log (t : option nat) (r : aclose_result) (s : loop) : loop :=
  Loop (l_client s) (l_tasks s) (l_closed s) (l_returned s ++ [(t, r)]).

(** The task [t] if it runs, that is, unless it awaits the close task. *)
Definition running (t : nat) (s : loop) : option task :=
  tk ← l_tasks s !! t; if waits tk then None else Some tk.

Definition awaiting (t : nat) (s : loop) : option task :=
  tk ← l_tasks s !! t; if waits tk then Some tk else None.

(** One step; [None] when it cannot be taken. *)
Definition astep (e : aevent) (s : loop) : option loop :=
  let c := l_client s in
  match e with
  | ABegin t =>
      tk ← running t s;
      match abegin_operation c with
      | Some c => Some (set_task t (set_active tk) c s)
      | None => Some s
      end
  | AEnd t =>
      tk ← running t s;
      tk ← reset_active tk;
      Some (set_task t tk (aend_operation c) s)
  | AClose (Some t) =>
      tk ← running t s;
      match aclose (Some t) (inside tk) c with
      | (c, Some r) => Some (log (Some t) r (set_task t tk c s))
      | (c, None) => Some (set_task t (Task (inside tk) (tokens tk) true) c s)
      end
  | AClose None =>
      match a_close_task c with
      | Some (AwaitingTarget _ _ _) =>
          match aclose None false c with
          | (_, Some r) => Some (log None r s)
          | (_, None) => None
          end
      | _ => None
      end
  | Spawn (Some t) =>
      tk ← running t s;
      Some (Loop c (l_tasks s ++ [Task (inside tk) [] false]) (l_closed s) (l_returned s))
  | Spawn None => Some (Loop c (l_tasks s ++ [Task false [] false]) (l_closed s) (l_returned s))
  | CloseRuns =>
      match a_close_task c with
      | Some Created | Some (AwaitingIdle true) =>
          Some (Loop (await_idle c) (l_tasks s) (l_closed s) (l_returned s))
      | _ => None
      end
  | TargetClosed ok =>
      match a_close_task c with
      | Some (AwaitingTarget x rest failed) =>
          Some (Loop (call_targets rest (failed || negb ok) c) (l_tasks s) (l_closed s ++ [(x, ok)])
                  (l_returned s))
      | _ => None
      end
  | Resumes t =>
      tk ← awaiting t s;
      match a_close_task c with
      | Some (Ended o) => Some (log (Some t) (Finished o) (set_task t (Task (inside tk) (tokens tk) false) c s))
      | _ => None
      end
  | CancelCaller t =>
      tk ← awaiting t s;
      Some (log (Some t) Interrupted (set_task t (Task (inside tk) (tokens tk) false) c s))
  | CancelClose =>
      match a_close_task c with
      | Some Created | Some (AwaitingIdle _) =>
          Some (Loop (set_close_task (Ended Cancelled) c) (l_tasks s) (l_closed s) (l_returned s))
      | _ => None
      end
  end.

Fixpoint arun (es : list aevent) (s : loop) : option loop :=
  match es with [] => Some s | e :: es => s ← astep e s; arun es s end.

End steps.

Inductive areachable (cfg : settings) (n : nat) : loop → Prop :=
| areachable_initial : areachable cfg n (initial_loop n)
| areachable_step s e s' : areachable cfg n s → astep cfg e s = Some s' → areachable cfg n s'.

(** ** The invariant *)
Definition adepth (tk : task) : nat := length (tokens tk).

(** Only the outermost token can restore a context without the client. *)
Fixpoint tokens_ok (bs : list bool) : Prop :=
  match bs with [] => True | b :: bs => (bs ≠ [] → b = true) ∧ tokens_ok bs end.

Definition task_ok (c : aclient) (tk : task) : Prop :=
  (tokens tk ≠ [] → inside tk = true) ∧ tokens_ok (tokens tk) ∧
  (waits tk = true → inside tk = false ∧ a_state c ≠ OPEN).

Section invariant.
Variable cfg : settings.

(** What the close task says about the client and the transports closed so far. *)
Definition close_task_ok (c : aclient) (closed : list (nat * bool)) : Prop :=
  match a_close_task c with
  | None => a_state c = OPEN ∧ closed = []
  | Some Created => a_state c = CLOSING ∧ closed = []
  | Some (AwaitingIdle awake) => a_state c = CLOSING ∧ closed = [] ∧ (awake = false → a_active c ≠ 0%nat)
  | Some (AwaitingTarget x rest failed) =>
      a_state c = CLOSING ∧ a_active c = 0%nat ∧ close_targets cfg = closed.*1 ++ x :: rest ∧
      failed = any_failed closed
  | Some (Ended Cancelled) => a_state c = CLOSING ∧ closed = []
  | Some (Ended o) =>
      a_state c = CLOSED ∧ a_active c = 0%nat ∧ closed.*1 = close_targets cfg ∧
      a_close_failure c = any_failed closed ∧ o = (if any_failed closed then Failed else Succeeded)
  end.

Record ainvariant (s : loop) : Prop := {
  ainv_active : a_active (l_client s) = total adepth (l_tasks s);
  ainv_tasks t tk : l_tasks s !! t = Some tk → task_ok (l_client s) tk;
  ainv_close : close_task_ok (l_client s) (l_closed s);
  ainv_returned t o : (t, Finished o) ∈ l_returned s → a_close_task (l_client s) = Some (Ended o);
}.

Lemma initial_ainvariant n : ainvariant (initial_loop n).
Proof.
  split; cbn.
  - unfold total. by induction n.
  - intros t tk [-> _]%lookup_replicate. by repeat split.
  - done.
  - intros t o. by rewrite elem_of_nil.
Qed.

Lemma running_Some t s tk : running t s = Some tk → l_tasks s !! t = Some tk ∧ waits tk = false.
Proof. unfold running. destruct (l_tasks s !! t) as [k|]; [|done]. cbn. destruct (waits k) eqn:E; by intros [= <-]. Qed.

Lemma awaiting_Some t s tk : awaiting t s = Some tk → l_tasks s !! t = Some tk ∧ waits tk = true.
Proof. unfold awaiting. destruct (l_tasks s !! t) as [k|]; [|done]. cbn. destruct (waits k) eqn:E; by intros [= <-]. Qed.

(** The client and one task change. *)
Lemma set_task_ainvariant s t tk tk' c :
  ainvariant s → l_tasks s !! t = Some tk →
  (a_active c + adepth tk = a_active (l_client s) + adepth tk')%nat →
  (a_state c = OPEN → a_state (l_client s) = OPEN) → task_ok c tk' → close_task_ok c (l_closed s) →
  (∀ o, a_close_task (l_client s) = Some (Ended o) → a_close_task c = Some (Ended o)) →
  ainvariant (set_task t tk' c s).
Proof.
  intros [Ha Ht Hc Hr] Htk Hd Hst Hok Hc' He. split; cbn; [|intros u k Hk|done|by intros u o H%Hr%He].
  - pose proof (total_insert adepth _ t tk tk' Htk). lia.
  - apply list_lookup_insert_Some in Hk as [(<- & <- & _)|(_ & Hk)]; [done|].
    destruct (Ht _ _ Hk) as (? & ? & Hw). split; [done|]. split; [done|].
    intros [? Hn]%Hw. auto.
Qed.

(** The close task goes on. *)
Lemma set_client_ainvariant s c closed :
  ainvariant s → a_active c = a_active (l_client s) → a_state c ≠ OPEN → close_task_ok c closed →
  (∀ o, a_close_task (l_client s) ≠ Some (Ended o)) →
  ainvariant (Loop c (l_tasks s) closed (l_returned s)).
Proof.
  intros [Ha Ht Hc Hr] Hd Hst Hc' He. split; cbn; [by rewrite Hd|intros u k Hk|done|by intros u o H%Hr%He].
  destruct (Ht _ _ Hk) as (? & ? & Hw). split; [done|]. split; [done|]. by intros [? _]%Hw.
Qed.

Lemma log_ainvariant s t r :
  ainvariant s → (∀ o, r = Finished o → a_close_task (l_client s) = Some (Ended o)) → ainvariant (log t r s).
Proof.
  intros [Ha Ht Hc Hr] He. split; cbn; [done..|]. intros u o.
  rewrite elem_of_app, list_elem_of_singleton. intros [H|[= _ <-]]; [by eapply Hr|by apply He].
Qed.

Lemma spawn_ainvariant s b :
  ainvariant s → ainvariant (Loop (l_client s) (l_tasks s ++ [Task b [] false]) (l_closed s) (l_returned s)).
Proof.
  intros [Ha Ht Hc Hr]. split; cbn; [|intros u k|done..].
  - unfold total in *. rewrite sum_list_with_app. cbn. lia.
  - rewrite lookup_app_Some, list_lookup_singleton_Some. intros [H|(_ & _ & <-)]; [by eapply Ht|by repeat split].
Qed.

Lemma call_targets_ok c closed rest :
  a_state c = CLOSING → a_active c = 0%nat → close_targets cfg = closed.*1 ++ rest →
  close_task_ok (call_targets rest (any_failed closed) c) closed.
Proof.
  intros Hs Ha Hc. destruct rest as [|x rest]; cbn; [|done]. unfold close_task_ok. cbn.
  rewrite app_nil_r in Hc. by destruct (any_failed closed).
Qed.

Lemma open_client c closed :
  close_task_ok c closed → (a_state c = OPEN ∧ a_close_task c = None ∧ closed = []) ∨
                           (a_state c ≠ OPEN ∧ ∃ ct, a_close_task c = Some ct).
Proof.
  unfold close_task_ok. destruct (a_close_task c) as [[| | |[]]|]; intros Hc;
    first [left; tauto | right; split; [destruct Hc as [Hc _]; congruence|by eexists]].
Qed.

Lemma begin_ainvariant s t tk c :
  ainvariant s → running t s = Some tk → abegin_operation (l_client s) = Some c →
  ainvariant (set_task t (set_active tk) c s).
Proof.
  intros Hinv [Htk Hw]%running_Some. pose proof Hinv as [Ha Ht Hc Hr]. unfold abegin_operation.
  destruct (a_state (l_client s)) eqn:Est; [|done..]. intros [= <-].
  destruct (Ht _ _ Htk) as (Hi & Htok & _).
  apply (set_task_ainvariant s t tk); [done|done|unfold adepth; cbn; lia|done| | |by cbn].
  - split; [done|]. split; [by split; [intros ?%Hi|]|]. cbn. congruence.
  - apply open_client in Hc as [(_ & E & ->)|[? _]]; [|done]. unfold close_task_ok. cbn. by rewrite E.
Qed.

Lemma end_ainvariant s t tk tk' :
  ainvariant s → running t s = Some tk → reset_active tk = Some tk' →
  ainvariant (set_task t tk' (aend_operation (l_client s)) s).
Proof.
  intros Hinv [Htk Hw]%running_Some. pose proof Hinv as [Ha Ht Hc Hr]. unfold reset_active.
  destruct (tokens tk) as [|b bs] eqn:Etok; [done|]. intros [= <-].
  destruct (Ht _ _ Htk) as (Hi & Htok & _). rewrite Etok in Htok. destruct Htok as [Hb Htok].
  pose proof (total_elem adepth _ _ _ Htk) as Hle. unfold adepth in Hle at 1. rewrite Etok in Hle. cbn in Hle.
  apply (set_task_ainvariant s t tk); [done|done| |done| | |].
  - unfold adepth. rewrite Etok. cbn. lia.
  - split; [done|]. split; [done|]. cbn. congruence.
  - unfold close_task_ok, aend_operation in *. cbn.
    destruct (a_close_task (l_client s)) as [[|a| |[]]|] eqn:Ect; cbn; destruct (_ =? 0)%nat eqn:Ez; cbn;
      try apply Nat.eqb_neq in Ez; intuition lia.
  - intros o Ho. unfold aend_operation. cbn. rewrite Ho. by destruct (_ =? 0)%nat.
Qed.

Lemma aclose_ainvariant s t tk :
  ainvariant s → running t s = Some tk →
  ∀ c r, aclose (Some t) (inside tk) (l_client s) = (c, r) →
  ainvariant (match r with
              | Some r => log (Some t) r (set_task t tk c s)
              | None => set_task t (Task (inside tk) (tokens tk) true) c s
              end).
Proof.
  intros Hinv [Htk Hw]%running_Some c r. pose proof Hinv as [Ha Ht Hc Hr].
  destruct (Ht _ _ Htk) as (Hi & Htok & _).
  assert (∀ c, task_ok c tk) as Hok by (intros; split; [done|split; [done|congruence]]).
  assert (∀ c w, inside tk = false → a_state c ≠ OPEN → task_ok c (Task (inside tk) (tokens tk) w)) as Hok'
    by (intros; split; [done|split; done]).
  unfold aclose. destruct (inside tk) eqn:Ein.
  { intros [= <- <-]. apply log_ainvariant; [|done]. by apply (set_task_ainvariant s t tk). }
  destruct (open_client _ _ Hc) as [(Est & Ect & Ecl)|(Est & ct & Ect)].
  - rewrite Est. intros [= <- <-]. apply (set_task_ainvariant s t tk); [done..|by apply Hok'|done|].
    cbn. congruence.
  - destruct (a_state (l_client s)) eqn:Es; [done|..]; rewrite Ect;
      (destruct ct as [| | |o]; intros [= <- <-];
       [..|apply log_ainvariant; [|by intros ? [= <-]]]; apply (set_task_ainvariant s t tk);
       try done; apply Hok'; congruence).
Qed.

Lemma call_targets_ainvariant s closed rest failed :
  ainvariant s → a_state (l_client s) = CLOSING → a_active (l_client s) = 0%nat →
  (∀ o, a_close_task (l_client s) ≠ Some (Ended o)) → close_targets cfg = closed.*1 ++ rest →
  failed = any_failed closed →
  ainvariant (Loop (call_targets rest failed (l_client s)) (l_tasks s) closed (l_returned s)).
Proof.
  intros Hinv Hst Hz He Hc ->. apply set_client_ainvariant; [done|by destruct rest| |by apply call_targets_ok|done].
  destruct rest; cbn; congruence.
Qed.

Lemma close_runs_ainvariant s :
  ainvariant s → a_state (l_client s) = CLOSING → l_closed s = [] →
  (∀ o, a_close_task (l_client s) ≠ Some (Ended o)) →
  ainvariant (Loop (await_idle cfg (l_client s)) (l_tasks s) (l_closed s) (l_returned s)).
Proof.
  intros Hinv Hst Hcl He. unfold await_idle. destruct (Nat.eqb_spec (a_active (l_client s)) 0) as [Hz|Hz].
  - apply call_targets_ainvariant; rewrite ?Hcl; done.
  - apply set_client_ainvariant; [done|done|cbn; congruence|by unfold close_task_ok|done].
Qed.

Lemma stops_waiting_ainvariant s t tk :
  ainvariant s → awaiting t s = Some tk →
  ainvariant (set_task t (Task (inside tk) (tokens tk) false) (l_client s) s).
Proof.
  intros Hinv [Htk Hw]%awaiting_Some. pose proof Hinv as [Ha Ht Hc Hr]. destruct (Ht _ _ Htk) as (Hi & Htok & _).
  by apply (set_task_ainvariant s t tk); try done; repeat split.
Qed.

Lemma astep_ainvariant e s s' : ainvariant s → astep cfg e s = Some s' → ainvariant s'.
Proof.
  intros Hinv Hstep. pose proof Hinv as [Ha Ht Hc Hr].
  destruct e as [t|t|[t|]|[t|]| |ok|t|t|]; cbn [astep] in Hstep.
  - destruct (running t s) as [tk|] eqn:Etk; [|done]. cbn in Hstep.
    destruct (abegin_operation (l_client s)) eqn:Eb; injection Hstep as <-; [|done]. by eapply begin_ainvariant.
  - destruct (running t s) as [tk|] eqn:Etk; [|done]. cbn in Hstep.
    destruct (reset_active tk) eqn:Er; [|done]. injection Hstep as <-. by eapply end_ainvariant.
  - destruct (running t s) as [tk|] eqn:Etk; [|done]. cbn [mbind option_bind] in Hstep.
    destruct (aclose (Some t) (inside tk) (l_client s)) as [c r] eqn:Ea.
    pose proof (aclose_ainvariant s t tk Hinv Etk c r Ea) as H. by destruct r; injection Hstep as <-.
  - destruct (a_close_task (l_client s)) as [[| |x rest f|]|] eqn:Ect; try done.
    unfold aclose in Hstep. unfold close_task_ok in Hc. rewrite Ect in Hc. destruct Hc as [Hst _].
    rewrite Hst, Ect in Hstep. injection Hstep as <-. by apply log_ainvariant.
  - destruct (running t s) as [tk|] eqn:Etk; [|done]. injection Hstep as <-. by apply spawn_ainvariant.
  - injection Hstep as <-. by apply spawn_ainvariant.
  - unfold close_task_ok in Hc.
    destruct (a_close_task (l_client s)) as [[|[]| |]|] eqn:Ect; try done; injection Hstep as <-;
      apply close_runs_ainvariant; rewrite ?Ect; tauto || congruence.
  - unfold close_task_ok in Hc.
    destruct (a_close_task (l_client s)) as [[| |x rest f|]|] eqn:Ect; try done. injection Hstep as <-.
    destruct Hc as (Hst & Hz & Hc & ->). apply call_targets_ainvariant; [done..|congruence| |].
    + by rewrite fmap_app, <-app_assoc.
    + unfold any_failed. rewrite existsb_app. cbn. by rewrite orb_false_r.
  - destruct (awaiting t s) as [tk|] eqn:Etk; [|done]. cbn [mbind option_bind] in Hstep.
    destruct (a_close_task (l_client s)) as [[| | |o]|] eqn:Ect; try done. injection Hstep as <-.
    apply log_ainvariant; [by apply stops_waiting_ainvariant|]. by intros o' [= <-].
  - destruct (awaiting t s) as [tk|] eqn:Etk; [|done]. injection Hstep as <-.
    apply log_ainvariant; [by apply stops_waiting_ainvariant|done].
  - unfold close_task_ok in Hc.
    destruct (a_close_task (l_client s)) as [[|a| |]|] eqn:Ect; try done; injection Hstep as <-;
      apply set_client_ainvariant; try done; cbn; try congruence; unfold close_task_ok; cbn; tauto || (destruct Hc; congruence).
Qed.

Lemma areachable_ainvariant n s : areachable cfg n s → ainvariant s.
Proof. induction 1; [apply initial_ainvariant|by eapply astep_ainvariant]. Qed.

(** ** Progress

    The steps that end operations, run the close task and resume those who await it. *)
Definition aprogress (e : aevent) : bool :=
  match e with AEnd _ | CloseRuns | TargetClosed _ | Resumes _ => true | _ => false end.

Definition close_weight (c : aclient) : nat :=
  match a_close_task c with
  | Some Created => length (close_targets cfg) + 3
  | Some (AwaitingIdle awake) => length (close_targets cfg) + (if awake then 2 else 1)
  | Some (AwaitingTarget _ rest _) => 1 + length rest
  | _ => 0
  end.

Definition task_weight (tk : task) : nat := 2 * adepth tk + (if waits tk then 1 else 0).
Definition aremaining (s : loop) : nat := total task_weight (l_tasks s) + close_weight (l_client s).

Lemma call_targets_weight rest failed c : (close_weight (call_targets rest failed c) = length rest)%nat.
Proof. by destruct rest. Qed.

Lemma await_idle_weight c : (close_weight (await_idle cfg c) ≤ length (close_targets cfg) + 1)%nat.
Proof.
  unfold await_idle. destruct (_ =? 0)%nat; [rewrite call_targets_weight|cbn]; lia.
Qed.

Lemma end_weight c : (close_weight (aend_operation c) ≤ close_weight c + 1)%nat.
Proof.
  unfold close_weight, aend_operation. cbn.
  destruct (_ =? 0)%nat, (a_close_task c) as [[|[]| |]|]; cbn; lia.
Qed.

Lemma aprogress_decreases e s s' :
  aprogress e = true → astep cfg e s = Some s' → (aremaining s' < aremaining s)%nat.
Proof.
  intros Hp Hstep. unfold aremaining.
  destruct e as [t|t|[t|]|[t|]| |ok|t|t|]; try done; cbn [astep] in Hstep.
  - destruct (running t s) as [tk|] eqn:Etk; [|done]. apply running_Some in Etk as [Htk _].
    cbn [mbind option_bind] in Hstep. destruct (reset_active tk) as [tk'|] eqn:Er; [|done]. injection Hstep as <-.
    cbn [set_task l_tasks l_client]. pose proof (total_insert task_weight _ t tk tk' Htk) as E.
    pose proof (end_weight (l_client s)). unfold reset_active in Er. unfold task_weight at 2 4 in E. unfold adepth in E.
    destruct (tokens tk); [done|]. injection Er as <-. cbn in E. lia.
  - destruct (a_close_task (l_client s)) as [[|[]| |]|] eqn:Ect; try done; injection Hstep as <-; cbn [l_tasks l_client];
      pose proof (await_idle_weight (l_client s)); unfold close_weight at 2; rewrite Ect; lia.
  - destruct (a_close_task (l_client s)) as [[| |x rest f|]|] eqn:Ect; try done. injection Hstep as <-. cbn [l_tasks l_client].
    rewrite call_targets_weight. unfold close_weight. rewrite Ect. lia.
  - destruct (awaiting t s) as [tk|] eqn:Etk; [|done]. apply awaiting_Some in Etk as [Htk Hw].
    cbn [mbind option_bind] in Hstep. destruct (a_close_task (l_client s)) as [[| | |o]|]; try done. injection Hstep as <-.
    cbn [log set_task l_tasks l_client]. pose proof (total_insert task_weight _ t tk (Task (inside tk) (tokens tk) false) Htk) as E.
    unfold task_weight at 2 4 in E. unfold adepth in E. rewrite Hw in E. cbn [tokens waits] in E. lia.
Qed.

(** Everyone who called [aclose] has an answer, and the client is closed. *)
Definition asettled (s : loop) : Prop :=
  a_state (l_client s) = CLOSED ∧ ∀ t tk, l_tasks s !! t = Some tk → waits tk = false.

(** A close was begun, and its task was not cancelled. *)
Definition under_way (s : loop) : Prop :=
  a_state (l_client s) ≠ OPEN ∧ a_close_task (l_client s) ≠ Some (Ended Cancelled).

Lemma active_task tks : (0 < total adepth tks)%nat → ∃ t tk, tks !! t = Some tk ∧ tokens tk ≠ [].
Proof.
  unfold total. induction tks as [|tk tks IH]; cbn; [lia|]. intros H.
  destruct (tokens tk) as [|b bs] eqn:E; [|exists 0%nat, tk; by rewrite E].
  destruct IH as (t & tk' & ? & ?); [unfold adepth in H at 1; rewrite E in H; done|]. by exists (S t), tk'.
Qed.

(** No deadlock: a task that waits for the close is never one the close waits for. *)
Lemma operation_ends s :
  ainvariant s → a_active (l_client s) ≠ 0%nat → ∃ t s', astep cfg (AEnd t) s = Some s'.
Proof.
  intros [Ha Ht Hc Hr] Hz. destruct (active_task (l_tasks s)) as (t & tk & Htk & Hne); [lia|].
  destruct (Ht _ _ Htk) as (Hi & _ & Hw). exists t. cbn [astep]. unfold running. rewrite Htk. cbn.
  destruct (waits tk); [destruct Hw as [Hw _]; [done|rewrite Hi in Hw; done]|].
  unfold reset_active. cbn. destruct (tokens tk); [done|]. by eexists.
Qed.

Lemma aprogress_enabled s :
  ainvariant s → under_way s → asettled s ∨ ∃ e s', aprogress e = true ∧ astep cfg e s = Some s'.
Proof.
  intros Hinv [Hopen Hcan]. pose proof Hinv as [Ha Ht Hc Hr].
  destruct (open_client _ _ Hc) as [[? _]|(_ & ct & Ect)]; [done|]. unfold close_task_ok in Hc. rewrite Ect in Hc.
  destruct ct as [|[]|x rest f|o].
  - right. exists CloseRuns. cbn [astep]. rewrite Ect. by eexists.
  - right. exists CloseRuns. cbn [astep]. rewrite Ect. by eexists.
  - right. destruct (operation_ends s Hinv) as (t & s' & Hs); [by apply Hc|]. by exists (AEnd t), s'.
  - right. exists (TargetClosed true). cbn [astep]. rewrite Ect. by eexists.
  - destruct (decide (Exists (λ tk, waits tk = true) (l_tasks s))) as [He|Hn].
    + right. apply Exists_exists in He as (tk & (t & Htk)%list_elem_of_In%list_elem_of_lookup & Hw).
      exists (Resumes t). cbn [astep]. unfold awaiting. rewrite Htk. cbn. rewrite Hw. cbn. rewrite Ect. by eexists.
    + left. split; [by destruct o; try apply Hc; congruence|]. intros t tk Htk. destruct (waits tk) eqn:Ew; [|done].
      exfalso. apply Hn, Exists_exists. exists tk. split; [|done]. apply list_elem_of_In, list_elem_of_lookup. by exists t.
Qed.

Definition cancels_close (e : aevent) : bool := match e with CancelClose => true | _ => false end.

Lemma call_targets_under_way rest failed c :
  a_state c ≠ OPEN → a_state (call_targets rest failed c) ≠ OPEN ∧
  a_close_task (call_targets rest failed c) ≠ Some (Ended Cancelled).
Proof. by destruct rest, failed. Qed.

Lemma await_idle_under_way c :
  a_state c ≠ OPEN → a_state (await_idle cfg c) ≠ OPEN ∧ a_close_task (await_idle cfg c) ≠ Some (Ended Cancelled).
Proof. unfold await_idle. destruct (_ =? 0)%nat; [apply call_targets_under_way|by split]. Qed.

Lemma aclose_under_way t b c :
  a_state c ≠ OPEN → a_close_task c ≠ Some (Ended Cancelled) →
  a_state (aclose t b c).1 ≠ OPEN ∧ a_close_task (aclose t b c).1 ≠ Some (Ended Cancelled).
Proof.
  intros Hs Hc. unfold aclose. destruct b; [done|].
  destruct (a_state c) eqn:Es; [done|..]; destruct (a_close_task c) as [[]|] eqn:Ec, t; cbn; rewrite ?Es, ?Ec; done.
Qed.

Lemma aend_under_way c :
  a_state c ≠ OPEN → a_close_task c ≠ Some (Ended Cancelled) →
  a_state (aend_operation c) ≠ OPEN ∧ a_close_task (aend_operation c) ≠ Some (Ended Cancelled).
Proof. intros Hs Hc. split; [done|]. cbn. destruct (_ =? 0)%nat, (a_close_task c) as [[]|]; done. Qed.

Lemma under_way_preserved e s s' :
  cancels_close e = false → under_way s → astep cfg e s = Some s' → under_way s'.
Proof.
  intros He [Hs Hc] Hstep. unfold under_way.
  destruct e as [t|t|[t|]|[t|]| |ok|t|t|]; try done; cbn [astep] in Hstep.
  - destruct (running t s); [|done]. cbn in Hstep. unfold abegin_operation in Hstep.
    destruct (a_state (l_client s)) eqn:Es; [done|..]; injection Hstep as <-; by rewrite Es.
  - destruct (running t s) as [tk|]; [|done]. cbn [mbind option_bind] in Hstep.
    destruct (reset_active tk); [|done]. injection Hstep as <-. by apply aend_under_way.
  - destruct (running t s) as [tk|]; [|done]. cbn [mbind option_bind] in Hstep.
    pose proof (aclose_under_way (Some t) (inside tk) _ Hs Hc) as H.
    by destruct (aclose _ _ _) as [c [r|]]; injection Hstep as <-.
  - destruct (a_close_task (l_client s)) as [[]|] eqn:Ec; try done.
    destruct (aclose None false (l_client s)) as [c [r|]]; [|done]. injection Hstep as <-. cbn. by rewrite Ec.
  - destruct (running t s); [|done]. by injection Hstep as <-.
  - by injection Hstep as <-.
  - destruct (a_close_task (l_client s)) as [[|[]| |]|]; try done; injection Hstep as <-; by apply await_idle_under_way.
  - destruct (a_close_task (l_client s)) as [[]|]; try done; injection Hstep as <-. by apply call_targets_under_way.
  - destruct (awaiting t s); [|done]. cbn [mbind option_bind] in Hstep.
    destruct (a_close_task (l_client s)) as [[]|] eqn:Ec; try done. injection Hstep as <-. cbn. by rewrite Ec.
  - destruct (awaiting t s); [|done]. by injection Hstep as <-.
Qed.

Lemma arun_preserves (P : loop → Prop) (ok : aevent → bool) es s s' :
  (∀ e s s', ok e = true → P s → astep cfg e s = Some s' → P s') →
  Forall (λ e, ok e = true) es → P s → arun cfg es s = Some s' → P s'.
Proof.
  intros Hstep Hes. revert s. induction Hes as [|e es He _ IH]; intros s Hs; cbn; [by intros [= <-]|].
  destruct (astep cfg e s) as [r|] eqn:E; cbn; [|done]. apply IH. by eapply Hstep.
Qed.

Lemma aprogress_bounded es s s' :
  Forall (λ e, aprogress e = true) es → arun cfg es s = Some s' → (length es + aremaining s' ≤ aremaining s)%nat.
Proof.
  intros Hes. revert s. induction Hes as [|e es He _ IH]; intros s; cbn [arun length]; [by intros [= ->]|].
  destruct (astep cfg e s) as [r|] eqn:E; cbn; [|done]. intros H%IH.
  pose proof (aprogress_decreases e s r He E). lia.
Qed.

Lemma asettles s :
  ainvariant s → under_way s →
  ∃ es s', Forall (λ e, aprogress e = true) es ∧ arun cfg es s = Some s' ∧ asettled s'.
Proof.
  remember (aremaining s) as m eqn:Em. revert s Em.
  induction (lt_wf m) as [m _ IH]. intros s -> Hinv Hu.
  destruct (aprogress_enabled s Hinv Hu) as [Hset|(e & r & He & Hr)]; [by exists [], s|].
  destruct (IH (aremaining r)) with (s := r) as (es & s' & Hes & Hrun & Hset);
    [by apply (aprogress_decreases e)|done|by eapply astep_ainvariant|by apply (under_way_preserved e s); [destruct e|..]|].
  exists (e :: es), s'. split; [by constructor|]. cbn. by rewrite Hr.
Qed.
End invariant.

(** C16: Async close is safe.  However tasks, cancellations and nested calls interleave, the
    transports whose [aclose] was awaited are distinct, owned and a prefix of the
    targets; while one is being closed, and after it, no task is inside of an
    operation.  A task that awaits the close is not inside of an operation, nor
    started from one.  All calls of [aclose] that were not cancelled by their caller
    end alike: they return or raise when every owned transport was closed (raising
    exactly if one of them failed), or, if the close task itself was cancelled, with
    that cancellation and no transport closed. *)
Theorem async_close_is_safe cfg n s :
  areachable cfg n s →
  (∃ rest, close_targets cfg = (l_closed s).*1 ++ rest) ∧
  NoDup (l_closed s).*1 ∧ (∀ x, x ∈ (l_closed s).*1 → owned cfg x) ∧
  (l_closed s ≠ [] → ∀ t tk, l_tasks s !! t = Some tk → tokens tk = []) ∧
  (∀ t tk, l_tasks s !! t = Some tk → waits tk = true → inside tk = false ∧ tokens tk = []) ∧
  (∀ t o, (t, Finished o) ∈ l_returned s →
    match o with
    | Cancelled => l_closed s = []
    | _ => (∀ x, owned cfg x → x ∈ (l_closed s).*1) ∧ o = (if any_failed (l_closed s) then Failed else Succeeded)
    end).
Proof.
  intros Hinv%areachable_ainvariant. pose proof Hinv as [Ha Ht Hc Hr].
  destruct (close_targets_owned cfg) as [Hnd Hown].
  assert (∃ rest, close_targets cfg = (l_closed s).*1 ++ rest ∧ (l_closed s ≠ [] → a_active (l_client s) = 0%nat))
    as (rest & Hp & Hz).
  { unfold close_task_ok in Hc. destruct (a_close_task (l_client s)) as [[|a|x rest f|[]]|]; destruct_and?;
      first [exists (close_targets cfg); by split; [simplify_list_eq|] | exists []; by rewrite app_nil_r |
             by eexists | replace (l_closed s) with (@nil (nat * bool)); by eexists]. }
  split; [by exists rest|]. rewrite Hp in Hnd. apply list.NoDup_app in Hnd as (Hnd & _ & _).
  split; [done|]. split; [|split; [|split]].
  - intros x Hx. apply Hown. rewrite Hp. apply elem_of_app. by left.
  - intros Hne t tk Htk. pose proof (total_elem adepth _ _ _ Htk) as Hle. rewrite <-Ha, (Hz Hne) in Hle.
    unfold adepth in Hle. destruct (tokens tk); [done|cbn in Hle; lia].
  - intros t tk Htk Hw. destruct (Ht _ _ Htk) as (Hi & _ & H). destruct (H Hw) as [E _]. split; [done|].
    destruct (tokens tk); [done|]. by rewrite Hi in E.
  - intros t o Ho%Hr. unfold close_task_ok in Hc. rewrite Ho in Hc. destruct o; destruct_and?; try done;
      (split; [|done]); intros x Hx; apply Hown in Hx; congruence.
Qed.

(** C38: [aclose] completes and cannot be interrupted by its callers.  Once a close is under
    way, ending the operations and running the close task leads to the closed client
    in which no caller waits, in at most [aremaining] steps.  After any other steps
    (new callers, callers that are cancelled, calls that are refused), short of
    cancelling the close task itself, that is reached or such a step is possible. *)
Theorem aclose_completes cfg n s :
  areachable cfg n s → under_way s →
  (∃ es s', Forall (λ e, aprogress e = true) es ∧ arun cfg es s = Some s' ∧ asettled s') ∧
  (∀ es s', Forall (λ e, aprogress e = true) es → arun cfg es s = Some s' → (length es ≤ aremaining cfg s)%nat) ∧
  (∀ es s', Forall (λ e, negb (cancels_close e) = true) es → arun cfg es s = Some s' →
     asettled s' ∨ ∃ e s'', aprogress e = true ∧ astep cfg e s' = Some s'').
Proof.
  intros Hinv%areachable_ainvariant Hu. split; [by apply asettles|]. split.
  - intros es s' Hes Hrun. pose proof (aprogress_bounded cfg es s s' Hes Hrun). lia.
  - intros es s' Hes Hrun.
    assert (ainvariant cfg s' ∧ under_way s') as [Hinv' Hu'].
    { apply (arun_preserves cfg (λ s, ainvariant cfg s ∧ under_way s) (λ e, negb (cancels_close e)) es s s'); [|done..].
      intros e s1 s2 He%negb_true_iff [H1 H2] Hs. split; [by eapply astep_ainvariant|by eapply under_way_preserved]. }
    by apply aprogress_enabled.
Qed.

(** ** An example

    Three tasks: the first is in an operation, from which a task is started that tries
    to close the client; the second and the third close it, and the third is
    cancelled while it waits. *)
Definition async_events : list aevent :=
  [ABegin 0; Spawn (Some 0%nat); AClose (Some 3%nat); AClose (Some 1%nat); AClose (Some 2%nat); CloseRuns;
   CancelCaller 2; ABegin 2; AEnd 0; CloseRuns; AClose None; TargetClosed true].
Definition async_state : loop := from_option id (initial_loop 0) (arun example_settings async_events (initial_loop 3)).

Lemma arun_reachable cfg n es s s' : areachable cfg n s → arun cfg es s = Some s' → areachable cfg n s'.
Proof.
  intros Hs. apply (arun_preserves cfg (areachable cfg n) (λ _, true)); [intros; by eapply areachable_step| |done].
  by apply Forall_forall.
Qed.

Lemma async_reachable : areachable example_settings 3 async_state.
Proof. by apply (arun_reachable _ _ async_events (initial_loop 3)); [apply areachable_initial|]. Qed.

Lemma async_under_way : under_way async_state.
Proof. split; vm_compute; discriminate. Qed.

Lemma async_close_is_safe_witness :
  areachable example_settings 3 async_state ∧ l_closed async_state = [(0%nat, true)] ∧
  l_returned async_state = [(Some 3%nat, ARejected); (Some 2%nat, Interrupted); (None, AReentered)] ∧
  (∀ t tk, l_tasks async_state !! t = Some tk → tokens tk = []).
Proof.
  split; [exact async_reachable|]. split; [reflexivity|]. split; [reflexivity|].
  destruct (async_close_is_safe example_settings 3 async_state async_reachable) as (_ & _ & _ & H & _).
  apply H. vm_compute. discriminate.
Defined.

Lemma aclose_completes_witness :
  areachable example_settings 3 async_state ∧ under_way async_state ∧
  ∃ es s', Forall (λ e, aprogress e = true) es ∧ arun example_settings es async_state = Some s' ∧ asettled s'.
Proof.
  split; [exact async_reachable|]. split; [exact async_under_way|].
  exact (proj1 (aclose_completes example_settings 3 async_state async_reachable async_under_way)).
Defined.
