(* ===== verification/PyFloat.v ===== *)
(** * Binary floating point

    [float] of Python is IEEE 754 binary64; the arithmetic is that of [SpecFloat] of
    the Standard Library.  [min] and [max] are those of Python on two arguments,
    which keep the first one unless the second is less, or greater. *)

From stdpp Require Import base numbers.
From Stdlib Require Import SpecFloat.
From S2P Require Import Prelude.
Open Scope Z_scope.

Abbreviation float := spec_float.

Definition fadd : float → float → float := SFadd 53 1024.
Definition fsub : float → float → float := SFsub 53 1024.
Definition fmul : float → float → float := SFmul 53 1024.

(** The float nearest to an integer; infinite if it is out of range. *)
Definition of_int (z : Z) : float := binary_normalize 53 1024 z 0 false.

Definition fzero : float := S754_zero false.
Definition flt (a b : float) : bool := SFltb a b.
Definition fle (a b : float) : bool := SFleb a b.

(** [math.isfinite]. *)
Definition isfinite (f : float) : bool :=
  match f with S754_zero _ | S754_finite _ _ _ => true | _ => false end.

Definition py_min (a b : float) : float := if flt b a then b else a.
Definition py_max (a b : float) : float := if flt a b then b else a.

(** [a / b] of integers with [b > 0], correctly rounded. *)
Definition true_divide (a : Z) (b : positive) : float :=
  match a with
  | Z0 => fzero
  | Zpos p => SFdiv 53 1024 (S754_finite false p 0) (S754_finite false b 0)
  | Zneg p => SFdiv 53 1024 (S754_finite true p 0) (S754_finite false b 0)
  end.

Definition isnan (f : float) : bool := match f with S754_nan => true | _ => false end.

(** ** Lemmas on the order *)
Lemma fle_refl a : isfinite a = true → fle a a = true.
Proof.
  destruct a as [s| | |s m e]; try done. intros _. unfold fle, SFleb, SFcompare.
  destruct s; rewrite Z.compare_refl, Pos.compare_cont_refl; done.
Qed.

Lemma flt_fle a b : flt a b = true → fle a b = true.
Proof. unfold flt, fle, SFltb, SFleb. by destruct (SFcompare a b) as [[]|]. Qed.

Lemma py_min_le a b : isfinite a = true → fle (py_min a b) a = true.
Proof. intros Ha. unfold py_min. destruct (flt b a) eqn:E; [by apply flt_fle|by apply fle_refl]. Qed.

Lemma py_max_ge a b : isfinite a = true → fle a (py_max a b) = true.
Proof. intros Ha. unfold py_max. destruct (flt a b) eqn:E; [by apply flt_fle|by apply fle_refl]. Qed.

Lemma SFcompare_antisym a b : SFcompare b a = CompOpp <$> SFcompare a b.
Proof.
  destruct a as [s| s| |s m e], b as [s'| s'| |s' m' e']; try done; try (by destruct s); try (by destruct s');
    try (by destruct s, s').
  cbn. rewrite (Z.compare_antisym e' e). destruct s, s', (e' ?= e)%Z; try done; cbn;
    by rewrite !Pos.compare_cont_antisym.
Qed.

Lemma fle_total a b : isnan a = false → isnan b = false → fle a b = false → flt b a = true.
Proof.
  intros Ha Hb. unfold fle, flt, SFleb, SFltb. rewrite (SFcompare_antisym a b).
  destruct (SFcompare a b) as [[]|] eqn:E; try done. destruct a, b; done.
Qed.

Lemma flt_total a b : isnan a = false → isnan b = false → flt b a = false → fle a b = true.
Proof.
  intros Ha Hb. unfold fle, flt, SFleb, SFltb. rewrite (SFcompare_antisym a b).
  destruct (SFcompare a b) as [[]|] eqn:E; try done. destruct a, b; done.
Qed.

Lemma isfinite_isnan a : isfinite a = true → isnan a = false.
Proof. by destruct a. Qed.

Lemma py_min_le_r a b : isfinite b = true → isfinite (py_min a b) = true → fle (py_min a b) b = true.
Proof.
  intros Hb. unfold py_min. destruct (flt b a) eqn:E; intros Ha; [by apply fle_refl|].
  apply flt_total; auto using isfinite_isnan.
Qed.

(** A number between finite ones is finite. *)
Lemma between_finite x m : isfinite m = true → flt fzero x = true → flt x m = true → isfinite x = true.
Proof. destruct x as [| []| |], m; done. Qed.

Lemma clamp_finite m x : isfinite m = true → isfinite (py_max fzero (py_min m x)) = true.
Proof.
  intros Hm. unfold py_max. destruct (flt fzero (py_min m x)) eqn:E; [|done].
  unfold py_min in *. destruct (flt x m) eqn:E'; [by eapply between_finite|done].
Qed.

(** ** Rounding does not produce a NaN *)
Lemma iter_shr_1_nonneg p r : 0 ≤ shr_m r → 0 ≤ shr_m (SpecFloat.iter_pos shr_1 p r).
Proof.
  assert (∀ r, 0 ≤ shr_m r → 0 ≤ shr_m (shr_1 r)) as H1 by (by intros [[|[]|[]] ? ?]).
  revert r. induction p as [p IH|p IH|]; intros r Hr; cbn; auto.
Qed.

Lemma shr_fexp_nonneg m e l : 0 ≤ m → 0 ≤ shr_m (shr_fexp 53 1024 m e l).1.
Proof.
  intros Hm. unfold shr_fexp, shr.
  assert (0 ≤ shr_m (shr_record_of_loc m l)) by (by destruct l as [|[]]).
  destruct (fexp _ _ _ - e); cbn; auto using iter_shr_1_nonneg.
Qed.

Lemma round_aux_not_nan s m e l : 0 ≤ m → isnan (binary_round_aux 53 1024 s m e l) = false.
Proof.
  intros Hm. unfold binary_round_aux. pose proof (shr_fexp_nonneg m e l Hm) as H1.
  destruct (shr_fexp 53 1024 m e l) as [r1 e1]. cbn in H1.
  set (m2 := round_nearest_even _ _). assert (0 ≤ m2) as H2 by (subst m2; destruct r1 as [? [] []]; cbn in *; try case_match; lia).
  pose proof (shr_fexp_nonneg m2 e1 loc_Exact H2) as H3.
  destruct (shr_fexp 53 1024 m2 e1 loc_Exact) as [r2 e2]. cbn in H3.
  destruct (shr_m r2); [done|by destruct (e2 <=? 1024 - 53)|lia].
Qed.

Lemma fsub_not_nan a b : isfinite a = true → isfinite b = true → isnan (fsub a b) = false.
Proof.
  destruct a as [s| | |s m e], b as [s'| | |s' m' e']; try done; try (by destruct s, s').
  intros _ _. cbn. unfold binary_normalize, binary_round. destruct (_ - _); [done|..];
    destruct (shl_align _ _ _); by apply round_aux_not_nan.
Qed.
