(* ===== verification/Interfaces.v ===== *)
(** * Interfaces between the components

    The document validators rely on two components.  The canonicalizer turns a
    value into bytes and hashes them; its implementation is modelled in this
    library and discharges the laws.  The JSON Schema validator is the
    third-party package [jsonschema]; the code observes only whether a document
    has errors, or whether the recursion limit of Python was hit. *)

From stdpp Require Import base list list_numbers numbers strings.
From Stdlib Require Import QArith_base SpecFloat.
From S2P Require Import Prelude PyString Errors PyValue.

(** No [float] anywhere inside the value. *)
Fixpoint no_float (v : pyval) : bool :=
  match v with
  | PFloat _ => false
  | PList l => forallb no_float l
  | PDict d => forallb (λ p, no_float p.2) d
  | _ => true
  end.

Unset Elimination Schemes.
(** What two values with the same canonical bytes have in common: the same
    literal, the same exact number, the same text up to the normalization [n]
    of strings, and agreement element by element and on every key they share. *)
Inductive json_agree (n : pystr → pystr) : pyval → pyval → Prop :=
| agree_absent : json_agree n PAbsent PAbsent
| agree_none : json_agree n PNone PNone
| agree_bool b : json_agree n (PBool b) (PBool b)
| agree_num v w p q :
    num_of v = Some (XFin p) → num_of w = Some (XFin q) → (p == q)%Q → json_agree n v w
| agree_str s t : n s = n t → json_agree n (PStr s) (PStr t)
| agree_list l m : Forall2 (json_agree n) l m → json_agree n (PList l) (PList m)
| agree_dict d e :
    (∀ k x y, assoc k d = Some x → assoc k e = Some y → json_agree n x y) →
    json_agree n (PDict d) (PDict e).
Set Elimination Schemes.

(** What [_canonicalize] promises to its callers: canonical bytes or a
    [CanonicalizationError], no value that contains a binary float is
    canonical, and the bytes determine the value.  [normalize] is the NFC form
    of a string; [sha256_hex] is [hashlib.sha256(data).hexdigest()]. *)
Class Canonicalizer := {
  canonical_json : pyval → py pybytes;
  sha256_hex : pybytes → pystr;
  normalize : pystr → pystr;
  canonical_json_raises v e :
    canonical_json v = Raise e → ∃ code, e = CanonicalizationError code;
  canonical_json_no_float v b : canonical_json v = Ok b → no_float v = true;
  canonical_json_agree v w b :
    canonical_json v = Ok b → canonical_json w = Ok b → json_agree normalize v w;
}.

Section canonicalizer.
Context `{Canonicalizer}.

Definition canonical_hash (v : pyval) : py pystr :=
  payload ← canonical_json v; Ok (u "sha256:" ++ sha256_hex payload).

(** Two different canonical forms with the same digest. *)
Definition hash_collision (v w : pyval) : Prop :=
  ∃ b c, canonical_json v = Ok b ∧ canonical_json w = Ok c ∧ b ≠ c ∧ sha256_hex b = sha256_hex c.

(** Equal hashes mean equal canonical bytes, or a SHA-256 collision. *)
Lemma canonical_hash_eq v w h :
  canonical_hash v = Ok h → canonical_hash w = Ok h →
  canonical_json v = canonical_json w ∨ hash_collision v w.
Proof.
  unfold canonical_hash, hash_collision. intros Hv Hw.
  apply bind_Ok_iff in Hv as (b & -> & Hb). apply bind_Ok_iff in Hw as (c & -> & Hc).
  simplify_eq. destruct (decide (b = c)) as [->|Hne]; [by left|right].
  by exists b, c.
Qed.

(** So equal hashes mean agreeing values, or a collision. *)
Lemma canonical_hash_agree v w h :
  canonical_hash v = Ok h → canonical_hash w = Ok h →
  json_agree normalize v w ∨ hash_collision v w.
Proof.
  intros Hv Hw. destruct (canonical_hash_eq v w h Hv Hw) as [Heq|]; [left|by right].
  unfold canonical_hash in Hv. apply bind_Ok_iff in Hv as (b & Hb & _).
  apply (canonical_json_agree v w b); congruence.
Qed.

Lemma canonical_hash_raises v e :
  canonical_hash v = Raise e → ∃ code, e = CanonicalizationError code.
Proof.
  unfold canonical_hash. intros [Hr|(b & _ & Hr)]%bind_Raise_iff; [|done].
  by eapply canonical_json_raises.
Qed.
End canonicalizer.

(** ** Document kinds and [jsonschema] *)
Inductive doc_kind := KAction | KDecision | KApproval | KErrorDoc | KReconciliation.
Inductive schema_outcome := SchemaOk | SchemaErrors | SchemaRecursion.

Class SchemaValidator := { iter_errors : doc_kind → pyval → schema_outcome }.

(** ** Using agreement *)
Lemma json_agree_get n v w k x y :
  json_agree n v w → get v k = Some x → get w k = Some y → json_agree n x y.
Proof.
  intros Ha Hx Hy. destruct Ha; cbn in *; try done; eauto.
  destruct v; cbn in *; done.
Qed.

Lemma json_agree_int n v w z z' :
  json_agree n v w → as_int v = Ok z → as_int w = Ok z' → z = z'.
Proof.
  intros Ha Hz Hz'. assert (Hn : ∀ v z, as_int v = Ok z → num_of v = Some (XFin (inject_Z z))).
  { intros [] ?; cbn; intros; by simplify_eq. }
  destruct Ha as [| | |v w p q Hp Hq Hpq| | |]; cbn in *; simplify_eq; try done.
  rewrite (Hn _ _ Hz) in Hp. rewrite (Hn _ _ Hz') in Hq. simplify_eq.
  by apply inject_Z_injective.
Qed.

Lemma json_agree_get_int n v w k z z' :
  json_agree n v w → get_int v k = Ok z → get_int w k = Ok z' → z = z'.
Proof.
  intros Ha (x & Hx & Hz)%get_int_Ok (y & Hy & Hz')%get_int_Ok.
  eapply json_agree_int; [eapply json_agree_get|..]; eauto.
Qed.
