(* ===== verification/CanonicalJson.v ===== *)
(** * Canonical JSON

    Models [_snapshot_value], [_encode_canonical], [_json_string] and
    [canonical_json] of [_canonicalize.py].  The snapshot walks the caller's
    objects, so it is modelled over a heap in which containers have identities
    and may be shared or cyclic; [snapshot_tree] is its reference definition on
    values without sharing. *)

From stdpp Require Import base list list_numbers numbers strings gmap.
From S2P Require Import Prelude PyString Errors PyValue Decimal Unicode.
Open Scope Z_scope.

Definition MAX_INPUT_BYTES : Z := 65536.
Definition MAX_NESTING_DEPTH : nat := 32.
Definition MAX_OBJECT_KEYS : nat := 256.
Definition MAX_ARRAY_ITEMS : nat := 1024.

(** ** The caller's objects *)
Inductive scalar :=
| SAbsent | SNone | SBool (b : bool) | SInt (z : Z) | SFloat (f : SpecFloat.spec_float)
| SDec (d : pydec) | SStr (s : pystr).

(** A reference to an object: a scalar, or the identity of an object that the
    heap may know as a container.  An identity without an entry is an object of
    any other type. *)
Inductive pyref := RScalar (s : scalar) | RLoc (identity : positive).
Inductive object_key := KStr (s : pystr) | KOther.
Inductive container :=
| HMapping (items : list (object_key * pyref))
| HSequence (items : list pyref).
Abbreviation heap := (gmap positive container).

(** ** Loops over the children, shared by the heap and the reference walk *)
Section loops.
Context `{UnicodeData} {I St : Type}.
Context (charge : Z → St → py St) (visit : I → St → py (pyval * St)).

Definition utf8_size (s : pystr) : Z := utf8_length s.

Fixpoint visit_items (captured : list (pystr * pyval)) (key_of : I → object_key) (items : list I)
    (st : St) : py (list (pystr * pyval) * St) :=
  match items with
  | [] => Ok (captured, st)
  | item :: items' =>
      raise_if (MAX_OBJECT_KEYS <? S (length captured))%nat
        (CanonicalizationError "too_many_object_keys");;
      raw_key ← (match key_of item with
                 | KStr s => Ok s
                 | KOther => cerr "invalid_object_key"
                 end);
      key ← nfc "invalid_string" raw_key;
      raise_if (bool_decide (key ∈ captured.*1)) (CanonicalizationError "duplicate_key");;
      st ← charge (utf8_size key + 4) st;
      '(child, st) ← visit item st;
      visit_items (captured ++ [(key, child)]) key_of items' st
  end.

Fixpoint visit_array (values : list pyval) (items : list I) (st : St) : py (list pyval * St) :=
  match items with
  | [] => Ok (values, st)
  | item :: items' =>
      raise_if (MAX_ARRAY_ITEMS <=? length values)%nat
        (CanonicalizationError "too_many_array_items");;
      st ← charge 1 st;
      '(child, st) ← visit item st;
      visit_array (values ++ [child]) items' st
  end.
End loops.

Section canonical_json.
Context `{UnicodeData}.

(** ** [_snapshot_value] *)
Record vstate := {
  used : Z;
  active : gset positive;
  memo : gmap positive (pyval * Z);
}.

Definition charge (amount : Z) (used : Z) : py Z :=
  raise_if (MAX_INPUT_BYTES <? used + amount) (CanonicalizationError "input_too_large");;
  Ok (used + amount).

Definition charge_state (amount : Z) (st : vstate) : py vstate :=
  n ← charge amount (used st); Ok {| used := n; active := active st; memo := memo st |}.

(** The snapshot of a scalar and what it is charged. *)
Definition visit_scalar (s : scalar) : py (pyval * Z) :=
  match s with
  | SAbsent => Ok (PAbsent, 5)
  | SNone => Ok (PNone, 5)
  | SBool b => Ok (PBool b, 5)
  | SStr s => n ← nfc "invalid_string" s; Ok (PStr n, utf8_size n + 2)
  | SFloat _ => cerr "binary_float"
  | SInt z => t ← decimal_text (dec_of_int z); Ok (PInt z, Z.of_nat (length t))
  | SDec d => t ← decimal_text d; Ok (PDec d, Z.of_nat (length t))
  end.

(** [visit(item, depth)], where [rest] is [MAX_NESTING_DEPTH - depth]. *)
Fixpoint visit (h : heap) (rest : nat) (item : pyref) (st : vstate) : py (pyval * vstate) :=
  match item with
  | RScalar s =>
      '(v, cost) ← visit_scalar s; st ← charge_state cost st; Ok (v, st)
  | RLoc identity =>
      match h !! identity with
      | None => cerr "unsupported_value"
      | Some c =>
          match rest with
          | O => cerr "nesting_too_deep"
          | S rest =>
              raise_if (bool_decide (identity ∈ active st)) (CanonicalizationError "cyclic_value");;
              match memo st !! identity with
              | Some (snapshot, cost) => st ← charge_state cost st; Ok (snapshot, st)
              | None =>
                  let before := used st in
                  st ← charge_state 2 {| used := used st; active := {[identity]} ∪ active st;
                                         memo := memo st |};
                  '(snapshot, st) ←
                    (match c with
                     | HMapping items =>
                         '(captured, st) ← visit_items charge_state (λ i, visit h rest i.2) [] fst items st;
                         Ok (PDict captured, st)
                     | HSequence items =>
                         '(values, st) ← visit_array charge_state (visit h rest) [] items st;
                         Ok (PList values, st)
                     end);
                  Ok (snapshot, {| used := used st; active := active st ∖ {[identity]};
                                   memo := <[identity := (snapshot, used st - before)]> (memo st) |})
              end
          end
      end
  end.

Definition initial_state : vstate := {| used := 0; active := ∅; memo := ∅ |}.
Definition snapshot_value (h : heap) (value : pyref) : py pyval :=
  fst <$> visit h MAX_NESTING_DEPTH value initial_state.

(** ** The reference walk over a value without sharing *)
Definition scalar_of (v : pyval) : option scalar :=
  match v with
  | PAbsent => Some SAbsent | PNone => Some SNone | PBool b => Some (SBool b)
  | PInt z => Some (SInt z) | PFloat f => Some (SFloat f) | PDec d => Some (SDec d)
  | PStr s => Some (SStr s) | PList _ | PDict _ => None
  end.

Fixpoint snapshot_tree (rest : nat) (v : pyval) (n : Z) {struct v} : py (pyval * Z) :=
  match v with
  | PList l =>
      match rest with
      | O => cerr "nesting_too_deep"
      | S rest =>
          n ← charge 2 n;
          '(values, n) ← visit_array charge (snapshot_tree rest) [] l n;
          Ok (PList values, n)
      end
  | PDict d =>
      match rest with
      | O => cerr "nesting_too_deep"
      | S rest =>
          n ← charge 2 n;
          '(captured, n) ← visit_items charge (λ p, snapshot_tree rest p.2) [] (λ p, KStr p.1) d n;
          Ok (PDict captured, n)
      end
  | _ =>
      match scalar_of v with
      | Some s => '(v, cost) ← visit_scalar s; n ← charge cost n; Ok (v, n)
      | None => cerr "unsupported_value"
      end
  end.

(** ** Encoding *)
Definition hex_digit (d : Z) : Z := if d <? 10 then 48 + d else 87 + d.

(** The escapes of [json.dumps(..., ensure_ascii=False)]. *)
Definition json_escape (c : Z) : pystr :=
  if c =? 34 then [92; 34]
  else if c =? 92 then [92; 92]
  else if c =? 8 then u "\b"
  else if c =? 12 then u "\f"
  else if c =? 10 then u "\n"
  else if c =? 13 then u "\r"
  else if c =? 9 then u "\t"
  else if c <? 32 then u "\u00" ++ [hex_digit (c / 16); hex_digit (c mod 16)]
  else [c].

Definition quoted (s : pystr) : pystr := [34] ++ concat (json_escape <$> s) ++ [34].
Definition json_string (s : pystr) : py pystr := quoted <$> nfc "invalid_string" s.

Definition is_absent (v : pyval) : bool := match v with PAbsent => true | _ => false end.

(** [normalized]: the keys in their order, [ABSENT] values left out. *)
Fixpoint normalized_fields {A} (absent : A → bool) (normalized : list (pystr * A))
    (items : list (pystr * A)) : py (list (pystr * A)) :=
  match items with
  | [] => Ok normalized
  | (raw_key, item) :: items' =>
      key ← nfc "invalid_string" raw_key;
      raise_if (bool_decide (key ∈ normalized.*1)) (CanonicalizationError "duplicate_key");;
      normalized_fields absent
        (if absent item then normalized else normalized ++ [(key, item)]) items'
  end.

(** [sorted(normalized)] with the values: insertion by code-point order. *)
Fixpoint insert_field {A} (f : pystr * A) (fs : list (pystr * A)) : list (pystr * A) :=
  match fs with
  | [] => [f]
  | g :: fs' => if str_leb f.1 g.1 then f :: fs else g :: insert_field f fs'
  end.
Definition sort_fields {A} (fs : list (pystr * A)) : list (pystr * A) := foldr insert_field [] fs.

(** Joining what has been encoded; the first failing element decides. *)
Fixpoint sequence_py {A} (xs : list (py A)) : py (list A) :=
  match xs with [] => Ok [] | x :: xs' => y ← x; ys ← sequence_py xs'; Ok (y :: ys) end.

Definition encode_field (f : pystr * (bool * py pystr)) : py pystr :=
  k ← json_string f.1; x ← f.2.2; Ok (k ++ u ":" ++ x).

Fixpoint encode_canonical (v : pyval) : py pystr :=
  match v with
  | PAbsent => cerr "absent_value"
  | PNone => Ok (u "null")
  | PBool true => Ok (u "true")
  | PBool false => Ok (u "false")
  | PStr s => json_string s
  | PFloat _ => cerr "binary_float"
  | PInt z => decimal_text (dec_of_int z)
  | PDec d => decimal_text d
  | PDict d =>
      fields ← normalized_fields fst [] ((λ p, (p.1, (is_absent p.2, encode_canonical p.2))) <$> d);
      parts ← sequence_py (encode_field <$> sort_fields fields);
      Ok (u "{" ++ join (u ",") parts ++ u "}")
  | PList l =>
      raise_if (existsb is_absent l) (CanonicalizationError "absent_array_value");;
      parts ← sequence_py (encode_canonical <$> l);
      Ok (u "[" ++ join (u ",") parts ++ u "]")
  end.

(** ** [canonical_json] *)
Definition canonical_bytes (snapshot : pyval) : py pybytes :=
  text ← encode_canonical snapshot;
  match utf8_encode text with
  | None => cerr "invalid_string"
  | Some result =>
      raise_if (MAX_INPUT_BYTES <? Z.of_nat (length result)) (CanonicalizationError "input_too_large");;
      Ok result
  end.

Definition canonical_json_at (h : heap) (value : pyref) : py pybytes :=
  snapshot ← snapshot_value h value; canonical_bytes snapshot.

(** The same on a value without sharing. *)
Definition canonical_json_tree (v : pyval) : py pybytes :=
  '(snapshot, _) ← snapshot_tree MAX_NESTING_DEPTH v 0; canonical_bytes snapshot.
End canonical_json.
