(* ===== verification/JsonScan.v ===== *)
(** * Scanning JSON

    The decoder of the Standard Library, [json.loads], with its hooks: how numbers
    are made, what happens to [NaN] and the infinities, and how objects are built
    from their members.  The canonicalizer and the generated protocol instantiate
    the hooks. *)

From stdpp Require Import base list list_numbers numbers strings gmap.
From Stdlib Require Import SpecFloat.
From S2P Require Import Prelude PyString Errors PyValue Decimal.
Open Scope Z_scope.

(** ** Strings *)
Definition hex_value (c : Z) : option Z :=
  if is_digit c then Some (c - 48)
  else if (97 <=? c) && (c <=? 102) then Some (c - 87)
  else if (65 <=? c) && (c <=? 70) then Some (c - 55)
  else None.
Definition hex4 (a b c d : Z) : option Z :=
  w ← hex_value a; x ← hex_value b; y ← hex_value c; z ← hex_value d;
  Some (w * 4096 + x * 256 + y * 16 + z).
Definition is_high_surrogate (x : Z) : bool := (55296 <=? x) && (x <=? 56319).
Definition is_low_surrogate (x : Z) : bool := (56320 <=? x) && (x <=? 57343).
Definition join_surrogates (x y : Z) : Z := 65536 + (x - 55296) * 1024 + (y - 56320).

(** The escapes of one character. *)
Definition simple_escape (e : Z) : option Z :=
  if e =? 34 then Some 34 else if e =? 92 then Some 92 else if e =? 47 then Some 47
  else if e =? 98 then Some 8 else if e =? 102 then Some 12 else if e =? 110 then Some 10
  else if e =? 114 then Some 13 else if e =? 116 then Some 9 else None.

Definition cons_char (c : Z) (r : option (pystr * pystr)) : option (pystr * pystr) :=
  '(s, rest) ← r; Some (c :: s, rest).

(** [scanstring(s, end, strict=True)], after the opening quote; [None] is a
    [JSONDecodeError]. *)
Fixpoint scan_string (s : pystr) : option (pystr * pystr) :=
  match s with
  | [] => None
  | c :: s1 =>
      if c =? 34 then Some ([], s1)
      else if c =? 92 then
        match s1 with
        | [] => None
        | e :: s2 =>
            if e =? 117 then
              match s2 with
              | h1 :: h2 :: h3 :: h4 :: s3 =>
                  match hex4 h1 h2 h3 h4 with
                  | None => None
                  | Some x =>
                      match s3 with
                      | b :: v :: l1 :: l2 :: l3 :: l4 :: s4 =>
                          match hex4 l1 l2 l3 l4 with
                          | Some y =>
                              if is_high_surrogate x && (b =? 92) && (v =? 117) && is_low_surrogate y
                              then cons_char (join_surrogates x y) (scan_string s4)
                              else cons_char x (scan_string s3)
                          | None => cons_char x (scan_string s3)
                          end
                      | _ => cons_char x (scan_string s3)
                      end
                  end
              | _ => None
              end
            else match simple_escape e with
                 | Some x => cons_char x (scan_string s2)
                 | None => None
                 end
        end
      else if c <? 32 then None
      else cons_char c (scan_string s1)
  end.

(** ** Numbers *)

(** The fraction: a point followed by a digit, else nothing is consumed. *)
Definition scan_fraction (s : pystr) : pystr * pystr :=
  match s with
  | 46 :: s1 => match span is_digit s1 with ([], _) => ([], s) | r => r end
  | _ => ([], s)
  end.
(** The exponent, with the same rule. *)
Definition scan_exponent (s : pystr) : option Z * pystr :=
  match s with
  | e :: s1 =>
      if (e =? 101) || (e =? 69) then
        let '(negative, s2) := match s1 with
                               | 45 :: s2 => (true, s2) | 43 :: s2 => (false, s2) | _ => (false, s1)
                               end in
        match span is_digit s2 with
        | ([], _) => (None, s)
        | (ds, rest) => (Some (signed negative (int_of_digits ds)), rest)
        end
      else (None, s)
  | [] => (None, s)
  end.
Definition scan_integer (s : pystr) : option (pystr * pystr) :=
  match s with
  | 48 :: s1 => Some ([48], s1)
  | _ => match span is_digit s with ([], _) => None | r => Some r end
  end.

(** The limits of the exponent in [libmpdec] on 64-bit platforms. *)
Definition MAX_EMAX : Z := 999999999999999999.
Definition MIN_ETINY : Z := -1999999999999999997.

(** [value.adjusted()]; zero has one digit. *)
Definition adjusted (coef exp : Z) : Z := exp + Z.max 1 (Z.of_nat (ndigits coef)) - 1.

(** [Decimal(token)] of a JSON number; [None] is a [DecimalException]. *)
Definition decimal_of_parts (negative : bool) (ip fp : pystr) (e : option Z) : option pydec :=
  let coef := int_of_digits (ip ++ fp) in
  let exp := default 0 e - Z.of_nat (length fp) in
  if (exp <? MIN_ETINY) || (MAX_EMAX <? adjusted coef exp) then None
  else Some (DFinite negative (Z.to_N coef) exp).

(** A number: its sign, integer digits, fraction digits and exponent. *)
Definition scan_number_parts (s : pystr) : option (bool * pystr * pystr * option Z * pystr) :=
  let '(negative, s0) := match s with 45 :: s0 => (true, s0) | _ => (false, s) end in
  '(ip, s1) ← scan_integer s0;
  let '(fp, s2) := scan_fraction s1 in
  let '(e, s3) := scan_exponent s2 in
  Some (negative, ip, fp, e, s3).

(** ** Values *)
Definition is_space (c : Z) : bool := (c =? 32) || (c =? 9) || (c =? 10) || (c =? 13).
Fixpoint skip_space (s : pystr) : pystr :=
  match s with c :: s' => if is_space c then skip_space s' else s | [] => [] end.

(** ** Hooks *)
Class JsonHooks := {
  decode_error : exn;
  make_constant : spec_float → py pyval;
  make_number : bool → pystr → pystr → option Z → py pyval;
  make_object : list (pystr * pyval) → py (list (pystr * pyval));
}.

Section json.
Context `{JsonHooks}.

(** [m], where [None] is a [JSONDecodeError]. *)
Definition or_decode_error {A} (m : option A) : py A :=
  match m with Some a => Ok a | None => Raise decode_error end.

Definition scan_number (s : pystr) : py (pyval * pystr) :=
  '(negative, ip, fp, e, rest) ← or_decode_error (scan_number_parts s);
  v ← make_number negative ip fp e; Ok (v, rest).

(** The literals; [NaN] and the infinities go to [parse_constant]. *)
Definition scan_constant (s : pystr) : option (py (pyval * pystr)) :=
  if startswith (u "null") s then Some (Ok (PNone, drop 4 s))
  else if startswith (u "true") s then Some (Ok (PBool true, drop 4 s))
  else if startswith (u "false") s then Some (Ok (PBool false, drop 5 s))
  else if startswith (u "NaN") s then Some (v ← make_constant S754_nan; Ok (v, drop 3 s))
  else if startswith (u "Infinity") s then Some (v ← make_constant (S754_infinity false); Ok (v, drop 8 s))
  else if startswith (u "-Infinity") s then Some (v ← make_constant (S754_infinity true); Ok (v, drop 9 s))
  else None.

(** [scan_once]; running out of [fuel] is [RecursionError]. *)
Fixpoint scan_once (fuel : nat) (s : pystr) : py (pyval * pystr) :=
  match fuel with
  | O => Raise RecursionError
  | S fuel =>
      match s with
      | [] => Raise decode_error
      | c :: s1 =>
          if c =? 34 then '(t, rest) ← or_decode_error (scan_string s1); Ok (PStr t, rest)
          else if c =? 123 then
            let s2 := skip_space s1 in
            if startswith (u "}") s2 then Ok (PDict [], drop 1 s2)
            else
              '(pairs, rest) ← scan_members fuel s2;
              d ← make_object pairs; Ok (PDict d, rest)
          else if c =? 91 then
            let s2 := skip_space s1 in
            if startswith (u "]") s2 then Ok (PList [], drop 1 s2)
            else '(values, rest) ← scan_elements fuel s2; Ok (PList values, rest)
          else match scan_constant s with
               | Some r => r
               | None => scan_number s
               end
      end
  end
with scan_members (fuel : nat) (s : pystr) : py (list (pystr * pyval) * pystr) :=
  match fuel with
  | O => Raise RecursionError
  | S fuel =>
      match s with
      | 34 :: s1 =>
          '(key, s2) ← or_decode_error (scan_string s1);
          match skip_space s2 with
          | 58 :: s3 =>
              '(value, s4) ← scan_once fuel (skip_space s3);
              match skip_space s4 with
              | 125 :: s5 => Ok ([(key, value)], s5)
              | 44 :: s5 =>
                  '(pairs, rest) ← scan_members fuel (skip_space s5);
                  Ok ((key, value) :: pairs, rest)
              | _ => Raise decode_error
              end
          | _ => Raise decode_error
          end
      | _ => Raise decode_error
      end
  end
with scan_elements (fuel : nat) (s : pystr) : py (list pyval * pystr) :=
  match fuel with
  | O => Raise RecursionError
  | S fuel =>
      '(value, s1) ← scan_once fuel s;
      match skip_space s1 with
      | 93 :: s2 => Ok ([value], s2)
      | 44 :: s2 =>
          '(values, rest) ← scan_elements fuel (skip_space s2);
          Ok (value :: values, rest)
      | _ => Raise decode_error
      end
  end.

(** [json.loads(source, ...)]. *)
Definition json_loads (source : pystr) : py pyval :=
  raise_if (startswith [65279] source) decode_error;;
  let start := skip_space source in
  '(value, rest) ← scan_once (S (2 * length start)) start;
  raise_if (negb (bool_decide (skip_space rest = []))) decode_error;;
  Ok value.

End json.
