(* ===== verification/JsonScanFacts.v ===== *)
(** * What the scanner reads

    Lemmas on the scanner of JSON for any hooks.  [reads v t] says that the text [t]
    is scanned as the value [v]; the encoders of the canonicalizer and of the
    generated protocol write such texts.  The scanner consumes its input, so its
    fuel is enough. *)

From stdpp Require Import base list list_numbers numbers strings gmap.
From S2P Require Import Prelude PyString Errors PyValue Decimal CanonicalJson JsonScan.
Open Scope Z_scope.

(** ** Numbers *)

(** What may follow a value: not a continuation of a number. *)
Definition stops (rest : pystr) : Prop :=
  match rest with
  | [] => True
  | c :: _ => is_digit c = false ∧ c ≠ 46 ∧ c ≠ 101 ∧ c ≠ 69
  end.

Lemma stops_comma r : stops (44 :: r). Proof. by split_and!. Qed.
Lemma stops_bracket r : stops (93 :: r). Proof. by split_and!. Qed.
Lemma stops_brace r : stops (125 :: r). Proof. by split_and!. Qed.

(** An exponent as [Decimal] writes it. *)
Definition exponent_digits (z : Z) : pystr := if z =? 0 then [48] else digits z.
Definition exponent_text (e : option Z) : pystr :=
  match e with
  | None => []
  | Some z => 69 :: (if z <? 0 then 45 else 43) :: exponent_digits (Z.abs z)
  end.

Record json_number (t : pystr) (negative : bool) (ip fp : pystr) (e : option Z) : Prop := {
  json_number_eq : t = (if negative then u "-" else []) ++ ip ++ fraction_text fp ++ exponent_text e;
  json_number_ip : all_digits ip;
  json_number_fp : all_digits fp;
  json_number_head : ip = [48] ∨ ∃ d rest, ip = d :: rest ∧ d ≠ 48;
}.

Lemma number_text_json t negative ip fp : number_text t negative ip fp → json_number t negative ip fp None.
Proof. intros [-> ? ? ?]. split; [|done..]. cbn [exponent_text]. by rewrite app_nil_r. Qed.

Lemma span_digits_stop a rest :
  all_digits a → (∀ c r, rest = c :: r → is_digit c = false) → span is_digit (a ++ rest) = (a, rest).
Proof.
  intros Ha Hr. destruct rest as [|c r]; [rewrite app_nil_r; by apply span_all|].
  apply span_app_stop; [done|]. by eapply Hr.
Qed.

Lemma stops_not_digit rest : stops rest → ∀ c r, rest = c :: r → is_digit c = false.
Proof. intros Hr c r ->. by destruct Hr. Qed.

Lemma exponent_digits_spec z :
  0 ≤ z → all_digits (exponent_digits z) ∧ exponent_digits z ≠ [] ∧ int_of_digits (exponent_digits z) = z.
Proof.
  intros Hz. unfold exponent_digits. destruct (z =? 0) eqn:E; refl_bool; [by subst; repeat constructor|].
  destruct (digits_head z) as (d & r & Hd & _); [lia|].
  split_and!; [apply digits_are_digits|by rewrite Hd|by apply int_of_digits_digits; lia].
Qed.

Lemma scan_exponent_none rest : stops rest → scan_exponent rest = (None, rest).
Proof.
  destruct rest as [|c r]; [done|]. intros (_ & _ & H1 & H2). cbn.
  by rewrite (proj2 (Z.eqb_neq c 101)), (proj2 (Z.eqb_neq c 69)).
Qed.

Lemma scan_exponent_text e rest : stops rest → scan_exponent (exponent_text e ++ rest) = (e, rest).
Proof.
  intros Hr. destruct e as [z|]; [|by apply scan_exponent_none].
  destruct (exponent_digits_spec (Z.abs z)) as (Hd & Hne & Hi); [lia|].
  pose proof (span_digits_stop _ _ Hd (stops_not_digit _ Hr)) as Hs.
  destruct (exponent_digits (Z.abs z)) as [|d ds] eqn:E; [done|].
  unfold exponent_text. rewrite E. cbn [app scan_exponent]. cbn [Z.eqb Pos.eqb orb].
  destruct (z <? 0) eqn:Ez; refl_bool; cbn [app] in *; rewrite Hs, Hi; unfold signed; do 2 f_equal; lia.
Qed.

(** The text that may follow the integer digits. *)
Lemma tail_not_digit fp e rest :
  stops rest → ∀ c r, fraction_text fp ++ exponent_text e ++ rest = c :: r → is_digit c = false.
Proof.
  intros Hr c r. destruct fp; cbn; [|by intros [= <- _]].
  destruct e; cbn; [by intros [= <- _]|]. by apply stops_not_digit.
Qed.

Lemma scan_fraction_text fp e rest :
  all_digits fp → stops rest →
  scan_fraction (fraction_text fp ++ exponent_text e ++ rest) = (fp, exponent_text e ++ rest).
Proof.
  intros Hfp Hr. destruct fp as [|d fp].
  - destruct e as [z|]; [done|]. destruct rest as [|c r]; [done|]. destruct Hr as (_ & Hc & _). cbn.
    destruct c as [|p|p]; [done| |done]. do 6 (destruct p as [p|p|]; try done).
  - change (fraction_text (d :: fp) ++ ?x) with (46 :: ((d :: fp) ++ x)).
    cbn [scan_fraction]. rewrite span_digits_stop; [done|done|]. apply (tail_not_digit [] e rest Hr).
Qed.

Lemma scan_integer_text ip fp e rest :
  all_digits ip → (ip = [48] ∨ ∃ d r, ip = d :: r ∧ d ≠ 48) → stops rest →
  scan_integer (ip ++ fraction_text fp ++ exponent_text e ++ rest)
  = Some (ip, fraction_text fp ++ exponent_text e ++ rest).
Proof.
  intros Hip [->|(d & r & -> & Hd)] Hr; [done|].
  pose proof (span_digits_stop _ _ Hip (tail_not_digit fp e rest Hr)) as Hs.
  unfold scan_integer. cbn [app] in *. rewrite Hs.
  destruct d as [|p|p]; [done| |done]. do 6 (destruct p as [p|p|]; try done).
Qed.

Lemma head_digit ip :
  all_digits ip → (ip = [48] ∨ ∃ d r, ip = d :: r ∧ d ≠ 48) → ∃ c r, ip = c :: r ∧ 48 ≤ c ≤ 57.
Proof.
  intros Hip Hh. assert (∃ c r, ip = c :: r ∧ is_digit c = true) as (c & r & -> & Hc%is_digit_iff).
  { destruct Hh as [->|(d & r & -> & _)]; [by eexists _, _|]. apply Forall_cons in Hip as [? _]. eauto. }
  by exists c, r.
Qed.

Lemma scan_number_parts_text t negative ip fp e rest :
  json_number t negative ip fp e → stops rest →
  scan_number_parts (t ++ rest) = Some (negative, ip, fp, e, rest).
Proof.
  intros [-> Hip Hfp Hh] Hr. unfold scan_number_parts. rewrite <-!app_assoc.
  destruct (head_digit ip Hip Hh) as (c & r & E & Hc).
  assert (Hs : ∀ s, match (if negative then u "-" else []) ++ ip ++ s with
                    | 45 :: s0 => (true, s0) | _ => (false, (if negative then u "-" else []) ++ ip ++ s)
                    end = (negative, ip ++ s)).
  { intros s. destruct negative; [done|]. rewrite E. cbn [app].
    destruct c as [|p|p]; [done| |done]. do 6 (destruct p as [p|p|]; try done); lia. }
  rewrite Hs, scan_integer_text by done. cbn [mbind option_bind].
  by rewrite scan_fraction_text, scan_exponent_text.
Qed.

(** ** Strings *)
Lemma scan_string_u h1 h2 h3 h4 s x :
  hex4 h1 h2 h3 h4 = Some x → is_high_surrogate x = false →
  scan_string (92 :: 117 :: h1 :: h2 :: h3 :: h4 :: s) = cons_char x (scan_string s).
Proof.
  intros Hx Hh. transitivity (match hex4 h1 h2 h3 h4 with
    | None => None
    | Some x =>
        match s with
        | b :: v :: l1 :: l2 :: l3 :: l4 :: s4 =>
            match hex4 l1 l2 l3 l4 with
            | Some y =>
                if is_high_surrogate x && (b =? 92) && (v =? 117) && is_low_surrogate y
                then cons_char (join_surrogates x y) (scan_string s4)
                else cons_char x (scan_string s)
            | None => cons_char x (scan_string s)
            end
        | _ => cons_char x (scan_string s)
        end
    end); [reflexivity|].
  rewrite Hx, Hh. do 6 (destruct s as [|? s]; [done|]). by destruct (hex4 z1 z2 z3 z4).
Qed.

Lemma scan_string_plain c s :
  c ≠ 34 → c ≠ 92 → 32 ≤ c → scan_string (c :: s) = cons_char c (scan_string s).
Proof.
  intros H1 H2 H3. transitivity (if c =? 34 then Some ([], s)
    else if c =? 92 then scan_string (92 :: s)
    else if c <? 32 then None else cons_char c (scan_string s)).
  - unfold scan_string at 1. destruct (c =? 34) eqn:?, (c =? 92) eqn:?; refl_bool; by subst.
  - by rewrite (proj2 (Z.eqb_neq c 34)), (proj2 (Z.eqb_neq c 92)), (proj2 (Z.ltb_ge c 32)).
Qed.

Lemma scan_escape c s : 0 ≤ c → scan_string (json_escape c ++ s) = cons_char c (scan_string s).
Proof.
  intros Hc. unfold json_escape.
  repeat match goal with
  | |- context [if ?a =? ?b then _ else _] => destruct (a =? b) eqn:?; refl_bool; [by subst|]
  end.
  destruct (c <? 32) eqn:E; refl_bool.
  - rewrite <-app_assoc.
    change (u "\u00" ++ ?x) with (92 :: 117 :: 48 :: 48 :: x). cbn [app]. apply scan_string_u.
    + assert (Hall : forallb (λ k, let c := Z.of_nat k in
          bool_decide (hex4 48 48 (hex_digit (c / 16)) (hex_digit (c mod 16)) = Some c)) (seq 0 32)
        = true) by (vm_compute; reflexivity).
      rewrite forallb_forall in Hall. specialize (Hall (Z.to_nat c)). cbn zeta in Hall.
      rewrite Z2Nat.id in Hall by done. apply (bool_decide_unpack _), Is_true_true, Hall, in_seq. lia.
    + unfold is_high_surrogate. by rewrite (proj2 (Z.leb_gt 55296 c)) by lia.
  - by apply scan_string_plain.
Qed.

Lemma scan_quoted s rest :
  Forall (λ c, 0 ≤ c) s → scan_string (concat (json_escape <$> s) ++ 34 :: rest) = Some (s, rest).
Proof.
  induction 1 as [|c s Hc _ IH]; [done|]. cbn [fmap list_fmap concat].
  rewrite <-app_assoc, scan_escape by done. by rewrite IH.
Qed.

(** ** Values *)

(** How the text of a value begins. *)
Definition opens (t : pystr) : Prop :=
  ∃ c r, t = c :: r ∧ is_space c = false ∧ c ≠ 93 ∧ c ≠ 125 ∧ c < 128.

Lemma skip_space_opens t rest : opens t → skip_space (t ++ rest) = t ++ rest.
Proof. intros (c & r & -> & Hc & _). cbn. by rewrite Hc. Qed.

Lemma startswith_opens t rest :
  opens t → startswith (u "]") (t ++ rest) = false ∧ startswith (u "}") (t ++ rest) = false.
Proof.
  intros (c & r & -> & _ & H1 & H2 & _). change (u "]") with [93]. change (u "}") with [125].
  cbn [app]. by rewrite !startswith_cons, (proj2 (Z.eqb_neq c 93)), (proj2 (Z.eqb_neq c 125)).
Qed.

Lemma number_opens t negative ip fp e : json_number t negative ip fp e → opens t.
Proof.
  intros [-> Hip _ Hh]. destruct negative; [by eexists _, _|]. cbn [app].
  destruct (head_digit ip Hip Hh) as (c & r & -> & Hc). eexists c, _.
  split_and!; [done| |lia..]. unfold is_space. by rewrite !(proj2 (Z.eqb_neq _ _)) by lia.
Qed.

Lemma join_cons2 sep p q ps : join sep (p :: q :: ps) = p ++ sep ++ join sep (q :: ps).
Proof. done. Qed.

Lemma opens_join sep q parts : opens q → opens (join sep (q :: parts)).
Proof.
  intros (c & r & -> & ?). destruct parts; cbn [join]; [by eexists _, _|]. by eexists _, _.
Qed.

Lemma length_join_elem sep p parts : p ∈ parts → (length p ≤ length (join sep parts))%nat.
Proof.
  induction parts as [|q parts IH]; [by intros ?%elem_of_nil|].
  intros [->|Hp]%elem_of_cons; (destruct parts as [|r parts]; [|rewrite join_cons2, !length_app]).
  - done.
  - lia.
  - by apply elem_of_nil in Hp.
  - specialize (IH Hp). lia.
Qed.

Section reads.
Context `{JsonHooks}.

(** [reads m t]: the scanner reads the text [t] with the outcome [m]. *)
Definition reads (m : py pyval) (t : pystr) : Prop :=
  opens t ∧ ∀ fuel rest, (2 * length t < fuel)%nat → stops rest →
    scan_once fuel (t ++ rest) = (v ← m; Ok (v, rest)).

Lemma number_not_constant t negative ip fp e rest :
  json_number t negative ip fp e →
  scan_constant (t ++ rest) = None ∧
  ∃ c r, t ++ rest = c :: r ∧ c ≠ 34 ∧ c ≠ 123 ∧ c ≠ 91.
Proof.
  intros [-> Hip _ Hh]. destruct (head_digit ip Hip Hh) as (c & r & -> & Hc).
  rewrite <-!app_assoc. cbn [app]. generalize (r ++ fraction_text fp ++ exponent_text e ++ rest). intros s.
  unfold scan_constant.
  change (u "null") with [110; 117; 108; 108]. change (u "true") with [116; 114; 117; 101].
  change (u "false") with [102; 97; 108; 115; 101]. change (u "NaN") with [78; 97; 78].
  change (u "Infinity") with [73; 110; 102; 105; 110; 105; 116; 121].
  change (u "-Infinity") with [45; 73; 110; 102; 105; 110; 105; 116; 121].
  destruct negative.
  - change (u "-" ++ c :: s) with (45 :: c :: s). split; [|by eexists _, _].
    rewrite !startswith_cons. by rewrite (proj2 (Z.eqb_neq c 73)) by lia.
  - split; [|exists c, s; split_and!; [done|lia..]]. cbn [app].
    rewrite !startswith_cons. by rewrite !(proj2 (Z.eqb_neq c _)) by lia.
Qed.

Lemma scan_once_other fuel c r :
  c ≠ 34 → c ≠ 123 → c ≠ 91 →
  scan_once (S fuel) (c :: r) = match scan_constant (c :: r) with
                                | Some x => x | None => scan_number (c :: r) end.
Proof.
  intros H1 H2 H3. cbn [scan_once].
  by rewrite (proj2 (Z.eqb_neq c 34)), (proj2 (Z.eqb_neq c 123)), (proj2 (Z.eqb_neq c 91)).
Qed.

Lemma reads_number t negative ip fp e :
  json_number t negative ip fp e → reads (make_number negative ip fp e) t.
Proof.
  intros Hn. split; [by eapply number_opens|]. intros [|fuel] rest Hf Hr; [lia|].
  destruct (number_not_constant t negative ip fp e rest Hn) as (Hc & c & r & E & ? & ? & ?).
  rewrite E, scan_once_other, <-E, Hc by done. unfold scan_number.
  by rewrite (scan_number_parts_text _ _ _ _ _ _ Hn Hr).
Qed.

Lemma reads_string s : Forall (λ c, 0 ≤ c) s → reads (Ok (PStr s)) (quoted s).
Proof.
  intros Hs. split; [by eexists _, _|]. intros [|fuel] rest Hf Hr; [lia|].
  unfold quoted. rewrite <-!app_assoc. cbn [app scan_once]. cbn [Z.eqb Pos.eqb]. by rewrite scan_quoted.
Qed.

Lemma reads_constant v c t :
  (∀ rest, scan_constant (c :: t ++ rest) = Some (Ok (v, rest))) →
  is_space c = false → c ≠ 34 → c ≠ 123 → c ≠ 91 → c ≠ 93 → c ≠ 125 → c < 128 → reads (Ok v) (c :: t).
Proof.
  intros Hs ? ? ? ? ? ? ?. split; [by eexists _, _|]. intros [|fuel] rest Hf Hr; [lia|].
  cbn [app]. by rewrite scan_once_other, Hs.
Qed.

Lemma reads_none : reads (Ok PNone) (u "null").
Proof. by apply (reads_constant PNone 110 [117; 108; 108]). Qed.
Lemma reads_bool b : reads (Ok (PBool b)) (if b then u "true" else u "false").
Proof.
  destruct b; [by apply (reads_constant _ 116 [114; 117; 101])|by apply (reads_constant _ 102 [97; 108; 115; 101])].
Qed.

Lemma scan_elements_join l parts : Forall2 reads l parts → l ≠ [] →
  ∀ fuel rest, (S (2 * length (join (u ",") parts)) < fuel)%nat →
  scan_elements fuel (join (u ",") parts ++ 93 :: rest) = (values ← sequence_py l; Ok (values, rest)).
Proof.
  induction 1 as [|v p l parts [_ Hp] Hl IH]; [done|]. intros _ [|fuel] rest Hf; [lia|].
  destruct Hl as [|w q l parts Hq Hl].
  - cbn [join] in *. cbn [scan_elements]. rewrite Hp by (lia || apply stops_bracket). by destruct v.
  - rewrite join_cons2 in *. change (u ",") with [44] in *. rewrite !length_app in Hf.
    rewrite <-!app_assoc. cbn [app length] in *. cbn [scan_elements].
    rewrite Hp by (lia || apply stops_comma). remember (w :: l) as l' eqn:El. destruct v as [v|e]; [|done].
    cbn [mbind result_bind skip_space is_space Z.eqb Pos.eqb orb sequence_py].
    rewrite skip_space_opens, IH by ((by subst) || lia || apply opens_join, Hq). by destruct (sequence_py l').
Qed.

Lemma reads_list l parts :
  Forall2 reads l parts → reads (PList <$> sequence_py l) (u "[" ++ join (u ",") parts ++ u "]").
Proof.
  intros Hl. split; [by eexists _, _|]. intros [|fuel] rest Hf Hr; [lia|].
  change (u "[") with [91] in *. change (u "]") with [93] in *.
  rewrite !length_app in Hf. rewrite <-!app_assoc. cbn [app length] in *.
  cbn [scan_once]. cbn [Z.eqb Pos.eqb].
  destruct Hl as [|v p l parts Hp Hl].
  - cbn [join app skip_space]. done.
  - pose proof (opens_join (u ",") p parts (proj1 Hp)) as Ho.
    rewrite skip_space_opens by done.
    destruct (startswith_opens _ (93 :: rest) Ho) as [-> _].
    rewrite (scan_elements_join (v :: l)) by (by constructor || done || lia). by destruct (sequence_py _).
Qed.

(** A member of an object with the outcome of its value. *)
Definition field_outcome (f : pystr * py pyval) : py (pystr * pyval) := v ← f.2; Ok (f.1, v).

(** A field of an object and its text. *)
Definition reads_field (f : pystr * py pyval) (p : pystr) : Prop :=
  Forall (λ c, 0 ≤ c) f.1 ∧ ∃ t, reads f.2 t ∧ p = quoted f.1 ++ u ":" ++ t.

Lemma scan_members_join fs parts : Forall2 reads_field fs parts → fs ≠ [] →
  ∀ fuel rest, (2 * length (join (u ",") parts) < fuel)%nat →
  scan_members fuel (join (u ",") parts ++ 125 :: rest)
  = (pairs ← sequence_py (field_outcome <$> fs); Ok (pairs, rest)).
Proof.
  induction 1 as [|[k v] p fs parts (Hk & t & [Ho Ht] & ->) Hl IH]; [done|].
  intros _ [|fuel] rest Hf; [lia|]. change (u ",") with [44] in *. change (u ":") with [58] in *.
  cbn [fst snd] in *. unfold quoted in *.
  destruct Hl as [|w q fs parts Hq Hl].
  - cbn [join] in *. rewrite <-!app_assoc. cbn [app scan_members].
    rewrite scan_quoted by done. cbn [or_decode_error mbind result_bind skip_space is_space Z.eqb Pos.eqb orb].
    rewrite skip_space_opens by done.
    rewrite Ht by (apply stops_brace || (rewrite !length_app in Hf; cbn in Hf; lia)). by destruct v.
  - rewrite join_cons2 in *. rewrite !length_app in Hf. cbn [length] in Hf.
    rewrite <-!app_assoc. cbn [app scan_members].
    rewrite scan_quoted by done. cbn [or_decode_error mbind result_bind skip_space is_space Z.eqb Pos.eqb orb].
    rewrite skip_space_opens by done.
    rewrite Ht by (apply stops_comma || lia). remember (w :: fs) as fs' eqn:Ef. destruct v as [v|e]; [|done].
    cbn [mbind result_bind skip_space is_space Z.eqb Pos.eqb orb fmap list_fmap sequence_py field_outcome fst snd].
    destruct Hq as (? & t' & ? & ->).
    rewrite skip_space_opens by (apply opens_join; by eexists _, _). rewrite IH by ((by subst) || lia).
    by destruct (sequence_py _).
Qed.

Lemma reads_dict fs parts :
  Forall2 reads_field fs parts → make_object [] = Ok [] →
  reads (pairs ← sequence_py (field_outcome <$> fs); PDict <$> make_object pairs)
    (u "{" ++ join (u ",") parts ++ u "}").
Proof.
  intros Hl He. split; [by eexists _, _|]. intros [|fuel] rest Hf Hr; [lia|].
  change (u "{") with [123] in *. change (u "}") with [125] in *.
  rewrite !length_app in Hf. rewrite <-!app_assoc. cbn [app length] in *.
  cbn [scan_once]. cbn [Z.eqb Pos.eqb]. destruct fs as [|f fs].
  { apply Forall2_nil_inv_l in Hl as ->. cbn [join app skip_space fmap list_fmap sequence_py mbind result_bind].
    by rewrite He. }
  destruct parts as [|p parts]; [by apply Forall2_nil_inv_r in Hl|].
  assert (opens (join (u ",") (p :: parts))) as Ho.
  { apply opens_join. apply Forall2_cons in Hl as [(_ & t & _ & ->) _]. by eexists _, _. }
  rewrite skip_space_opens by done. destruct (startswith_opens _ (125 :: rest) Ho) as [_ ->].
  rewrite (scan_members_join (f :: fs)) by (done || lia).
  destruct (sequence_py _) as [pairs|]; [|done]. cbn. by destruct (make_object pairs).
Qed.

Lemma json_loads_reads m t : reads m t → json_loads t = m.
Proof.
  intros [Ho Hr]. unfold json_loads.
  assert (startswith [65279] t = false) as ->.
  { destruct Ho as (c & r & -> & _ & _ & _ & Hc). rewrite startswith_cons.
    by rewrite (proj2 (Z.eqb_neq c 65279)) by lia. }
  pose proof (skip_space_opens t [] Ho) as Es. pose proof (Hr (S (2 * length t)) []) as Er.
  rewrite app_nil_r in Es, Er. cbn [raise_if mbind result_bind]. rewrite Es, Er by (done || lia).
  by destruct m.
Qed.

Lemma sequence_py_Ok {A} (l : list A) : sequence_py (Ok <$> l) = Ok l.
Proof. induction l as [|x l IH]; [done|]. cbn. by rewrite IH. Qed.

(** ** Progress *)
Lemma skip_space_length s : (length (skip_space s) ≤ length s)%nat.
Proof. induction s as [|c s IH]; cbn; [lia|]. destruct (is_space c); cbn; lia. Qed.

Lemma span_length f s a b : span f s = (a, b) → length s = (length a + length b)%nat.
Proof.
  revert a b. induction s as [|c s IH]; intros a b; cbn; [by intros [= <- <-]|].
  destruct (f c); [|by intros [= <- <-]]. destruct (span f s) as [a' b'] eqn:E. intros [= <- <-]. cbn.
  by rewrite (IH a' b').
Qed.

Lemma cons_char_Some c m t rest : cons_char c m = Some (t, rest) → ∃ t', m = Some (t', rest).
Proof. unfold cons_char. destruct m as [[t' r]|]; [|done]. cbn. intros [= _ <-]. eauto. Qed.

Lemma scan_string_length s t rest : scan_string s = Some (t, rest) → (length rest < length s)%nat.
Proof.
  remember (length s) as n eqn:En. revert s t rest En.
  induction n as [n IH] using lt_wf_ind. intros [|c s1] t rest -> Hs; [done|]. cbn [scan_string] in Hs.
  repeat case_match; try done; subst;
    try (apply cons_char_Some in Hs as [t' Hs];
         match type of Hs with scan_string ?x = _ =>
           specialize (IH (length x) ltac:(cbn [length]; lia) x _ _ eq_refl Hs); cbn [length] in *; lia end).
  injection Hs as <- <-. cbn. lia.
Qed.

Lemma scan_integer_length s ip rest : scan_integer s = Some (ip, rest) → (length rest < length s)%nat.
Proof.
  assert (∀ s, match span is_digit s with ([], _) => None | r => Some r end = Some (ip, rest) →
    (length rest < length s)%nat) as Hspan.
  { intros s'. destruct (span is_digit s') as [[|d ds] r] eqn:E; [done|]. intros [= <- <-].
    apply span_length in E. cbn in E. lia. }
  destruct s as [|c s]; [done|]. destruct (decide (c = 48)) as [->|Hc]; [cbn; intros [= <- <-]; lia|].
  intros Hs. apply (Hspan (c :: s)). rewrite <-Hs.
  destruct c as [|p|p]; [done| |done]. do 6 (destruct p as [p|p|]; try done).
Qed.

Lemma scan_fraction_length s : (length (scan_fraction s).2 ≤ length s)%nat.
Proof.
  unfold scan_fraction. repeat case_match; cbn; try lia.
  match goal with E : span _ _ = _ |- _ => apply span_length in E; cbn in E end. lia.
Qed.

Lemma scan_exponent_length s : (length (scan_exponent s).2 ≤ length s)%nat.
Proof.
  unfold scan_exponent. repeat (case_match; simplify_eq/=); try lia;
  match goal with E : span _ _ = _ |- _ => apply span_length in E; cbn in E end; lia.
Qed.

Lemma scan_number_parts_length s n ip fp e rest :
  scan_number_parts s = Some (n, ip, fp, e, rest) → (length rest < length s)%nat.
Proof.
  unfold scan_number_parts.
  assert (length (match s with 45%Z :: s0 => (true, s0) | _ => (false, s) end).2 ≤ length s)%nat as H1
    by (repeat case_match; cbn; lia).
  destruct (match s with 45 :: s0 => (true, s0) | _ => (false, s) end) as [n' s0]. cbn in H1.
  destruct (scan_integer s0) as [[ip' s1]|] eqn:E; [|done]. apply scan_integer_length in E. cbn.
  pose proof (scan_fraction_length s1) as H2. destruct (scan_fraction s1) as [fp' s2]. cbn in H2.
  pose proof (scan_exponent_length s2) as H3. destruct (scan_exponent s2) as [e' s3]. cbn in H3.
  intros [= _ _ _ _ <-]. lia.
Qed.

Lemma scan_number_length s v rest : scan_number s = Ok (v, rest) → (length rest < length s)%nat.
Proof.
  unfold scan_number. destruct (scan_number_parts s) as [[[[[n ip] fp] e] r]|] eqn:E; [|done].
  cbn. intros Hs. inv_ok. by eapply scan_number_parts_length.
Qed.

Lemma startswith_length p s : startswith p s = true → (length p ≤ length s)%nat.
Proof.
  unfold startswith. rewrite str_eqb_eq. intros Hs. apply (f_equal length) in Hs. rewrite length_take in Hs. lia.
Qed.

Lemma scan_constant_length s v rest : scan_constant s = Some (Ok (v, rest)) → (length rest < length s)%nat.
Proof.
  unfold scan_constant, mbind, result_bind. repeat case_match; try done; intros [= _ <-]; rewrite length_drop;
    match goal with E : startswith ?p s = true |- _ =>
      apply startswith_length in E; let n := eval vm_compute in (length p) in change (length p) with n in E end; lia.
Qed.

(** What is left is shorter; and with enough fuel only the decoder and the hooks
    raise, and the values are made by the hooks. *)
Section outcome.
Context (P : exn → Prop) (Q : pyval → Prop).
Hypothesis P_decode : P decode_error.
Hypothesis P_constant : ∀ f, match make_constant f with Ok v => Q v | Raise x => P x end.
Hypothesis P_number : ∀ n ip fp e, match make_number n ip fp e with Ok v => Q v | Raise x => P x end.
Hypothesis P_object : ∀ pairs, Forall (λ p, Q p.2) pairs →
  match make_object pairs with Ok d => Q (PDict d) | Raise x => P x end.
Hypothesis Q_none : Q PNone.
Hypothesis Q_bool : ∀ b, Q (PBool b).
Hypothesis Q_string : ∀ s, Q (PStr s).
Hypothesis Q_list : ∀ l, Forall Q l → Q (PList l).
Hypothesis Q_empty : Q (PDict []).

Definition scanned {A} (good : A → Prop) (s : pystr) (m : py (A * pystr)) : Prop :=
  match m with Ok (a, rest) => good a ∧ (length rest < length s)%nat | Raise e => P e end.

Lemma scan_number_outcome s : scanned Q s (scan_number s).
Proof.
  unfold scan_number. destruct (scan_number_parts s) as [[[[[n ip] fp] e] r]|] eqn:E; [|done]. cbn.
  specialize (P_number n ip fp e). destruct (make_number n ip fp e) as [v|x]; cbn; [|done].
  split; [done|]. by eapply scan_number_parts_length.
Qed.

Lemma scan_constant_outcome s m : scan_constant s = Some m → scanned Q s m.
Proof.
  intros Hs. destruct m as [[v rest]|e]; cbn.
  - split; [|by eapply scan_constant_length]. revert Hs. unfold scan_constant, mbind, result_bind.
    repeat case_match; try done; intros [= <- _]; try done;
      match goal with E : make_constant ?f = Ok _ |- _ => specialize (P_constant f); by rewrite E in P_constant end.
  - revert Hs. unfold scan_constant, mbind, result_bind. repeat case_match; try done; intros [= <-];
      match goal with E : make_constant ?f = Raise _ |- _ => specialize (P_constant f); by rewrite E in P_constant end.
Qed.

Lemma scan_outcome fuel :
  (∀ s, (2 * length s < fuel)%nat → scanned Q s (scan_once fuel s)) ∧
  (∀ s, (2 * length s < fuel)%nat → scanned (Forall (λ p, Q p.2)) s (scan_members fuel s)) ∧
  (∀ s, (S (2 * length s) < fuel)%nat → scanned (Forall Q) s (scan_elements fuel s)).
Proof.
  induction fuel as [|fuel (IHo & IHm & IHe)]; [split_and!; intros; lia|]. split_and!.
  - intros [|c s1] Hf; [done|]. cbn [scan_once length] in *.
    pose proof (skip_space_length s1) as Hl.
    destruct (c =? 34).
    { destruct (scan_string s1) as [[t rest]|] eqn:E; cbn; [|done]. apply scan_string_length in E.
      split; [done|lia]. }
    destruct (c =? 123).
    { destruct (startswith _ _) eqn:E; cbn; [split; [done|rewrite length_drop; lia]|].
      specialize (IHm (skip_space s1) ltac:(lia)). destruct (scan_members _ _) as [[pairs rest]|]; cbn in *; [|done].
      destruct IHm as [HQ ?]. specialize (P_object pairs HQ). destruct (make_object pairs); cbn; [|done].
      split; [done|lia]. }
    destruct (c =? 91).
    { destruct (startswith _ _) eqn:E; cbn; [split; [by apply Q_list|rewrite length_drop; lia]|].
      specialize (IHe (skip_space s1) ltac:(lia)). destruct (scan_elements _ _) as [[l rest]|]; cbn in *; [|done].
      destruct IHe as [HQ ?]. split; [by apply Q_list|lia]. }
    destruct (scan_constant (c :: s1)) as [m|] eqn:E; [by apply scan_constant_outcome|]. apply scan_number_outcome.
  - intros s Hf. cbn [scan_members]. destruct s as [|c s1]; [done|]. destruct (decide (c = 34)) as [->|Hc]; cycle 1.
    { destruct c as [|p|p]; [done| |done]. do 6 (destruct p as [p|p|]; try done). }
    destruct (scan_string s1) as [[key s2]|] eqn:Es; cbn [or_decode_error mbind result_bind]; [|done].
    apply scan_string_length in Es. pose proof (skip_space_length s2) as Hl2.
    destruct (skip_space s2) as [|c s3]; [done|]. destruct (decide (c = 58)) as [->|Hc]; cycle 1.
    { destruct c as [|p|p]; [done| |done]. do 6 (destruct p as [p|p|]; try done). }
    pose proof (skip_space_length s3) as Hl3. cbn [length] in *.
    specialize (IHo (skip_space s3) ltac:(lia)). destruct (scan_once _ _) as [[v s4]|]; cbn in *; [|done].
    destruct IHo as [HQ Hl]. pose proof (skip_space_length s4) as Hl4.
    destruct (skip_space s4) as [|c s5]; [done|]. cbn [length] in *.
    destruct (decide (c = 125)) as [->|Hc]; [cbn; split; [by constructor|lia]|].
    destruct (decide (c = 44)) as [->|Hc']; cycle 1.
    { destruct c as [|p|p]; [done| |done]. do 7 (destruct p as [p|p|]; try done). }
    pose proof (skip_space_length s5) as Hl5.
    specialize (IHm (skip_space s5) ltac:(lia)). destruct (scan_members _ _) as [[pairs rest]|]; cbn in *; [|done].
    destruct IHm as [HQ' ?]. split; [by constructor|lia].
  - intros s Hf. cbn [scan_elements]. specialize (IHo s ltac:(lia)).
    destruct (scan_once _ _) as [[v s1]|]; cbn in *; [|done]. destruct IHo as [HQ Hl].
    pose proof (skip_space_length s1) as Hl1. destruct (skip_space s1) as [|c s2]; [done|]. cbn [length] in *.
    destruct (decide (c = 93)) as [->|Hc]; [cbn; split; [by constructor|lia]|].
    destruct (decide (c = 44)) as [->|Hc']; cycle 1.
    { destruct c as [|p|p]; [done| |done]. do 7 (destruct p as [p|p|]; try done). }
    pose proof (skip_space_length s2) as Hl2.
    specialize (IHe (skip_space s2) ltac:(lia)). destruct (scan_elements _ _) as [[l rest]|]; cbn in *; [|done].
    destruct IHe as [HQ' ?]. split; [by constructor|lia].
Qed.

(** [json.loads] ends with such a value or exception. *)
Lemma json_loads_outcome s : match json_loads s with Ok v => Q v | Raise e => P e end.
Proof.
  unfold json_loads. destruct (startswith _ s); [done|]. cbn [raise_if mbind result_bind].
  destruct (scan_outcome (S (2 * length (skip_space s)))) as (Ho & _).
  specialize (Ho (skip_space s) ltac:(lia)). destruct (scan_once _ _) as [[v rest]|]; cbn in *; [|done].
  destruct (negb _); cbn; [done|]. by destruct Ho.
Qed.
End outcome.

End reads.
