(* ===== verification/WireText.v ===== *)
(** * The JSON text of the wire types

    Models the text layer of [_generated/protocol.py]: [_preflight_wire], which
    bounds a document before it is decoded, [_strict_loads_json] with the hooks it
    gives to [json.loads], [_encode_json_value], [to_json_bytes] and the
    [parse_*_json] functions. *)

From stdpp Require Import base list list_numbers numbers strings.
From S2P Require Import Prelude PyString Regex Errors Timestamp PyValue Schemas Decimal Unicode.
From S2P Require Import Structure Wire CanonicalJson JsonScan.
Open Scope Z_scope.

(** ** [_preflight_wire] *)

(** The argument: [bytes], a [str], or an object of another type. *)
Inductive wire_source :=
| SBytes (b : pybytes)
| SText (s : pystr)
| SOther.

(** A character of a numeric token. *)
Definition numeric_char (c : Z) : bool := bool_decide (c ∈ u "0123456789.eE+-").

(** The loop over the characters; a numeric token is skipped as a whole. *)
Fixpoint preflight (fuel : nat) (text : pystr) (depth : Z) (in_string escaped : bool) : py () :=
  match fuel with
  | O => Raise RecursionError
  | S fuel =>
      match text with
      | [] => raise_if (in_string || negb (depth =? 0)) (wire_error "invalid_json")
      | character :: rest =>
          if in_string then
            if escaped then preflight fuel rest depth true false
            else if character =? 92 then preflight fuel rest depth true true
            else if character =? 34 then preflight fuel rest depth false false
            else preflight fuel rest depth true false
          else if character =? 34 then preflight fuel rest depth true escaped
          else if (character =? 91) || (character =? 123) then
            raise_if (Structure.MAX_NESTING <? depth + 1) (wire_error "nesting_too_deep");;
            preflight fuel rest (depth + 1) false escaped
          else if (character =? 93) || (character =? 125) then
            raise_if (depth - 1 <? 0) (wire_error "invalid_json");;
            preflight fuel rest (depth - 1) false escaped
          else if (character =? 45) || is_digit character then
            let '(token, after) := span numeric_char rest in
            raise_if (MAX_NUMERIC_TOKEN_BYTES <? Z.of_nat (S (length token)))
              (wire_error "numeric_token_too_long");;
            preflight fuel after depth false escaped
          else preflight fuel rest depth false escaped
      end
  end.

Definition preflight_wire (document : wire_source) : py pystr :=
  raw ← match document with
        | SText s => match utf8_encode s with
                     | Some raw => Ok raw
                     | None => Raise (wire_error "invalid_utf8")
                     end
        | SBytes b => Ok b
        | SOther => Raise (wire_error "invalid_json")
        end;
  raise_if (MAX_WIRE_BYTES <? Z.of_nat (length raw)) (wire_error "wire_too_large");;
  match utf8_decode raw with
  | None => Raise (wire_error "invalid_utf8")
  | Some text => preflight (S (length text)) text 0 false false;; Ok text
  end.

(** ** [_strict_loads_json] *)

(** The hook [unique_object]. *)
Fixpoint unique_members (result pairs : list (pystr * pyval)) : py (list (pystr * pyval)) :=
  match pairs with
  | [] => Ok result
  | (key, value) :: pairs' =>
      raise_if (bool_decide (key ∈ result.*1)) (wire_error "duplicate_json_key");;
      unique_members (result ++ [(key, value)]) pairs'
  end.
Definition unique_object (pairs : list (pystr * pyval)) : py (list (pystr * pyval)) :=
  raise_if (MAX_COLLECTION_ITEMS <? Z.of_nat (length pairs)) (wire_error "collection_limit_exceeded");;
  unique_members [] pairs.

(** The hook [reject_constant]. *)
Definition reject_constant : exn := wire_error "invalid_json_number".

(** The hook [parse_decimal], of a number with a fraction or an exponent. *)
Definition parse_decimal (negative : bool) (ip fp : pystr) (e : option Z) : py pydec :=
  match decimal_of_parts negative ip fp e with
  | Some (DFinite negative coef exp) =>
      raise_if (10000 <? Z.abs (adjusted (Z.of_N coef) exp)) (wire_error "invalid_json_number");;
      Ok (DFinite negative coef exp)
  | _ => Raise (wire_error "invalid_json_number")
  end.

(** [int(token)], which refuses more than 4300 digits. *)
Definition MAX_STR_DIGITS : nat := 4300.
Definition parse_int (negative : bool) (ip : pystr) : py Z :=
  raise_if (MAX_STR_DIGITS <? length ip)%nat ValueError;;
  Ok (signed negative (int_of_digits ip)).

Definition wire_number (negative : bool) (ip fp : pystr) (e : option Z) : py pyval :=
  match fp, e with
  | [], None => PInt <$> parse_int negative ip
  | _, _ => PDec <$> parse_decimal negative ip fp e
  end.

(** [JSONDecodeError] is a [ValueError]. *)
#[local] Instance wire_hooks : JsonHooks := {|
  decode_error := ValueError;
  make_constant := λ _, Raise reject_constant;
  make_number := wire_number;
  make_object := unique_object;
|}.

(** The [except] clauses around [json.loads]. *)
Definition decode_failure (e : exn) : exn :=
  match e with
  | RecursionError | ValueError => wire_error "invalid_json"
  | e => e
  end.

Definition strict_loads_json (document : wire_source) : py pyval :=
  text ← preflight_wire document;
  value ← map_raise decode_failure (json_loads text);
  validate_memory_limits value;;
  Ok value.

(** ** [_encode_json_value] *)

(** [str(value)] of an integer. *)
Definition nat_text (z : Z) : pystr := if z =? 0 then [48] else digits z.
Definition str_int (z : Z) : py pystr :=
  raise_if (MAX_STR_DIGITS <? length (nat_text (Z.abs z)))%nat ValueError;;
  Ok ((if z <? 0 then u "-" else []) ++ nat_text (Z.abs z)).

(** [str(value)] of a finite [Decimal]: the scientific string. *)
Definition place_dot (int : pystr) (dotplace : Z) : pystr * pystr :=
  if dotplace <=? 0 then ([48], 46 :: replicate (Z.to_nat (- dotplace)) 48 ++ int)
  else if Z.of_nat (length int) <=? dotplace
  then (int ++ replicate (Z.to_nat (dotplace - Z.of_nat (length int))) 48, [])
  else (take (Z.to_nat dotplace) int, 46 :: drop (Z.to_nat dotplace) int).
Definition str_decimal (negative : bool) (coef : N) (exp : Z) : pystr :=
  let int := nat_text (Z.of_N coef) in
  let leftdigits := exp + Z.of_nat (length int) in
  let dotplace := if (exp <=? 0) && (-6 <? leftdigits) then leftdigits else 1 in
  let '(intpart, fracpart) := place_dot int dotplace in
  let exponent := leftdigits - dotplace in
  (if negative then u "-" else []) ++ intpart ++ fracpart
  ++ (if exponent =? 0 then []
      else 69 :: (if exponent <? 0 then 45 else 43) :: nat_text (Z.abs exponent)).

(** The regular expression of a JSON number. *)
Definition is_json_number (s : pystr) : bool :=
  match scan_number_parts s with Some (_, _, _, _, []) => true | _ => false end.

Definition encode_decimal (d : pydec) : py pystr :=
  match d with
  | DFinite negative coef exp =>
      let encoded := str_decimal negative coef exp in
      raise_if (negb (is_json_number encoded)) (wire_error "invalid_json_number");;
      Ok encoded
  | _ => Raise (wire_error "invalid_json_number")
  end.

Fixpoint encode_json_value (v : pyval) : py pystr :=
  match v with
  | PNone => Ok (u "null")
  | PBool b => Ok (if b then u "true" else u "false")
  | PStr s => Ok (quoted s)
  | PInt z => str_int z
  | PDec d => encode_decimal d
  | PList l =>
      parts ← (fix go (l : list pyval) : py (list pystr) :=
                 match l with
                 | [] => Ok []
                 | child :: l' => x ← encode_json_value child; r ← go l'; Ok (x :: r)
                 end) l;
      Ok (u "[" ++ join (u ",") parts ++ u "]")
  | PDict d =>
      parts ← (fix go (d : list (pystr * pyval)) : py (list pystr) :=
                 match d with
                 | [] => Ok []
                 | (key, child) :: d' =>
                     x ← encode_json_value child; r ← go d'; Ok ((quoted key ++ u ":" ++ x) :: r)
                 end) d;
      Ok (u "{" ++ join (u ",") parts ++ u "}")
  | PFloat _ | PAbsent => Raise (wire_error "invalid_json_value")
  end.

(** [to_json_bytes]; a string without an encoding is a [UnicodeEncodeError], which
    is a [ValueError]. *)
Definition to_json_bytes (d : attr) : py pybytes :=
  v ← to_dict d;
  text ← encode_json_value v;
  match utf8_encode text with
  | None => Raise ValueError
  | Some encoded => strict_loads_json (SBytes encoded);; Ok encoded
  end.

(** ** The parsers of texts *)
Definition parse_text_with (c : dto_class) (document : wire_source) : py attr :=
  v ← strict_loads_json document; parse_with c v.
Definition parse_action_json : wire_source → py attr := parse_text_with ActionRequest.
Definition parse_decision_json : wire_source → py attr := parse_text_with AuthorizationDecision.
Definition parse_approval_json : wire_source → py attr := parse_text_with ApprovalRecord.
Definition parse_error_json : wire_source → py attr := parse_text_with ProtocolError.
Definition parse_reconciliation_json : wire_source → py attr := parse_text_with ReconciliationRecord.
