(* ===== verification/WireTextFacts.v ===== *)
(** * Texts of documents

    The JSON text layer of the wire types is total on any input, a document that is
    accepted conforms to its schema, and the bytes of a document are read back as an
    equal document. *)

From stdpp Require Import base list list_numbers numbers strings.
From Stdlib Require Import QArith_base.
From S2P Require Import Prelude PyString Regex Errors Timestamp PyValue Schemas Decimal Unicode.
From S2P Require Import Structure StructureFacts Conformance Wire WireSound.
From S2P Require Import WireProtocol WireExamples CanonicalJson JsonScan JsonScanFacts WireText.
Open Scope Z_scope.

(** ** Errors of the text layer *)
Definition structural (e : exn) : Prop := ∃ message, e = ProtocolStructureError message.
Definition structural_only {A} (m : py A) : Prop := ∀ e, m = Raise e → structural e.

Lemma structural_wire_error code : structural (wire_error code).
Proof. by eexists. Qed.

Lemma structural_Ok {A} (a : A) : structural_only (Ok a).
Proof. by intros e. Qed.
Lemma structural_raise {A} code : structural_only (A := A) (Raise (wire_error code)).
Proof. intros e [= <-]. apply structural_wire_error. Qed.
Lemma structural_raise_if c code : structural_only (raise_if c (wire_error code)).
Proof. intros e. destruct c; [intros [= <-]; apply structural_wire_error|done]. Qed.
Lemma structural_bind {A B} (m : py A) (f : A → py B) :
  structural_only m → (∀ a, m = Ok a → structural_only (f a)) → structural_only (m ≫= f).
Proof. intros Hm Hf e [He|(a & Ha & He)]%bind_Raise_iff; [by apply Hm|by eapply Hf]. Qed.

Create HintDb structural.
#[export] Hint Resolve structural_Ok structural_raise structural_raise_if : structural.

(** Opens binds and conditionals until only known computations are left. *)
Ltac solve_structural :=
  repeat first
    [ solve [auto with structural] | progress cbn beta iota
    | apply structural_bind; [|intros ? ?]
    | match goal with |- structural_only (match ?x with _ => _ end) => destruct x end ].

Lemma preflight_structural fuel text depth in_string escaped :
  (length text < fuel)%nat → structural_only (preflight fuel text depth in_string escaped).
Proof.
  revert text depth in_string escaped.
  induction fuel as [|fuel IH]; intros text depth in_string escaped Hf; [lia|].
  destruct text as [|c rest]; cbn [preflight length] in *; [auto with structural|].
  destruct (span numeric_char rest) as [token after] eqn:E. apply span_length in E.
  assert (∀ d b b', structural_only (preflight fuel rest d b b')) by (intros; apply IH; lia).
  assert (∀ d b b', structural_only (preflight fuel after d b b')) by (intros; apply IH; lia).
  solve_structural.
Qed.

Lemma preflight_wire_structural document : structural_only (preflight_wire document).
Proof. unfold preflight_wire. solve_structural; apply preflight_structural; lia. Qed.

(** ** The values that are read *)
Lemma unique_members_spec pairs result :
  NoDup result.*1 → Forall (λ p, json_document p.2 = true) (result ++ pairs) →
  match unique_members result pairs with
  | Ok d => json_document (PDict d) = true | Raise e => structural e
  end.
Proof.
  revert result. induction pairs as [|[key value] pairs IH]; intros result Hn Hv; cbn [unique_members].
  - rewrite app_nil_r in Hv. rewrite json_document_dict, bool_decide_eq_true_2 by done.
    apply forallb_Forall, Forall_fmap. eapply Forall_impl; [done|]. cbn. by intros ? ->.
  - case_bool_decide as Hk; [apply structural_wire_error|]. apply IH.
    + rewrite fmap_app. apply NoDup_app. cbn. split_and!; [done| |apply NoDup_singleton].
      by intros k Hin ->%list_elem_of_singleton.
    + by rewrite <-app_assoc.
Qed.

Lemma unique_object_spec pairs :
  Forall (λ p, json_document p.2 = true) pairs →
  match unique_object pairs with
  | Ok d => json_document (PDict d) = true | Raise e => structural e
  end.
Proof.
  intros Hp. unfold unique_object. destruct (_ <? _); cbn; [apply structural_wire_error|].
  by apply unique_members_spec; [apply NoDup_nil_2|].
Qed.

(** The exceptions that the hooks and the decoder raise. *)
Definition loads_error (e : exn) : Prop := e = ValueError ∨ structural e.

Lemma wire_number_spec negative ip fp e :
  match wire_number negative ip fp e with
  | Ok v => json_document v = true | Raise x => loads_error x
  end.
Proof.
  assert (match PDec <$> parse_decimal negative ip fp e with
          | Ok v => json_document v = true | Raise x => loads_error x end).
  { unfold parse_decimal. destruct (decimal_of_parts _ _ _ _) as [[? ? ?| |]|]; cbn;
      try (right; apply structural_wire_error).
    destruct (_ <? _); cbn; [right; apply structural_wire_error|done]. }
  unfold wire_number. destruct fp, e; try done. unfold parse_int. destruct (_ <? _)%nat; cbn; [by left|done].
Qed.

Lemma json_loads_spec text :
  match json_loads (H := wire_hooks) text with
  | Ok v => json_document v = true | Raise e => loads_error e
  end.
Proof.
  apply (json_loads_outcome loads_error (λ v, json_document v = true)); try done.
  - by left.
  - right. apply structural_wire_error.
  - apply wire_number_spec.
  - intros pairs Hp. pose proof (unique_object_spec pairs Hp). cbn [make_object wire_hooks].
    destruct (unique_object pairs); [done|by right].
  - intros l Hl. cbn. apply forallb_Forall. eapply Forall_impl; [done|]. cbn. by intros ? ->.
Qed.

(** [_strict_loads_json] returns a JSON document within the limits or raises
    [ProtocolStructureError]. *)
Lemma strict_loads_json_spec document :
  match strict_loads_json document with
  | Ok v => json_document v = true ∧ within_limits v = true | Raise e => structural e
  end.
Proof.
  unfold strict_loads_json. pose proof (preflight_wire_structural document) as Hp.
  destruct (preflight_wire document) as [text|e]; cbn [mbind result_bind]; [clear Hp|cbn; by apply Hp].
  pose proof (json_loads_spec text) as Hl. destruct (json_loads text) as [v|e]; cbn [map_raise mbind result_bind].
  - pose proof (memory_limits_outcome v) as Hm. unfold outcome in Hm. destruct (within_limits v) eqn:Hw; [by rewrite Hm|].
    destruct Hm as [message ->]. by eexists.
  - destruct Hl as [->|[message ->]]; by eexists.
Qed.

(** ** Numbers are written and read back *)
Lemma nat_text_spec z :
  0 ≤ z → all_digits (nat_text z) ∧ int_of_digits (nat_text z) = z ∧
    (nat_text z = [48] ∨ ∃ d r, nat_text z = d :: r ∧ d ≠ 48).
Proof.
  intros Hz. unfold nat_text. destruct (z =? 0) eqn:E; refl_bool; [subst; split_and!; [by repeat constructor|done|by left]|].
  destruct (digits_head z) as (d & r & Hd & Hd'); [lia|].
  split_and!; [apply digits_are_digits|apply int_of_digits_digits; lia|right; eauto].
Qed.

Lemma nat_text_length z : 0 ≤ z → (1 ≤ length (nat_text z))%nat.
Proof. intros Hz. destruct (nat_text_spec z Hz) as (_ & _ & [->|(d & r & -> & _)]); cbn; lia. Qed.

Lemma str_int_number z t :
  str_int z = Ok t → ∃ negative ip,
    json_number t negative ip [] None ∧ wire_number negative ip [] None = Ok (PInt z).
Proof.
  unfold str_int. intros ([] & Hn%raise_if_Ok_iff & [= <-])%bind_Ok_iff. destruct (nat_text_spec (Z.abs z)) as (Hd & Hi & Hh); [lia|].
  exists (z <? 0), (nat_text (Z.abs z)). split.
  - split; [|done|constructor|done]. cbn. by rewrite !app_nil_r.
  - cbn. unfold parse_int. rewrite Hn. cbn. rewrite Hi. unfold signed.
    destruct (z <? 0) eqn:E; refl_bool; do 2 f_equal; lia.
Qed.

Lemma all_zeros n : all_digits (replicate n 48).
Proof. by apply Forall_replicate. Qed.

Lemma int_of_digits_zeros n s : int_of_digits (replicate n 48 ++ s) = int_of_digits s.
Proof. induction n as [|n IH]; [done|]. cbn [replicate app]. rewrite <-IH. done. Qed.

(** The exponent is written unless it is zero. *)
Lemma exponent_written z :
  (if z =? 0 then [] else 69 :: (if z <? 0 then 45 else 43) :: nat_text (Z.abs z))
  = exponent_text (if z =? 0 then None else Some z).
Proof. by destruct (z =? 0) eqn:E. Qed.

Lemma place_dot_spec int dot :
  all_digits int → (int = [48] ∨ ∃ d r, int = d :: r ∧ d ≠ 48) → dot ≤ Z.of_nat (length int) →
  ∃ ip fp, place_dot int dot = (ip, fraction_text fp) ∧ all_digits ip ∧ all_digits fp ∧
    (ip = [48] ∨ ∃ d r, ip = d :: r ∧ d ≠ 48) ∧ int_of_digits (ip ++ fp) = int_of_digits int ∧
    Z.of_nat (length fp) = Z.of_nat (length int) - dot.
Proof.
  intros Hd Hh Hl. unfold place_dot. destruct (dot <=? 0) eqn:E0; refl_bool.
  - exists [48], (replicate (Z.to_nat (- dot)) 48 ++ int). split_and!.
    + f_equal. unfold fraction_text. destruct (_ ++ int) eqn:E; [|done].
      apply app_eq_nil in E as [_ ->]. by destruct Hh as [?|(? & ? & ? & _)].
    + by repeat constructor.
    + apply Forall_app. split; [apply all_zeros|done].
    + by left.
    + rewrite (int_of_digits_zeros 1). by rewrite int_of_digits_zeros.
    + rewrite length_app, length_replicate. lia.
  - destruct (Z.of_nat (length int) <=? dot) eqn:E1; refl_bool.
    + exists int, []. replace (Z.to_nat (dot - Z.of_nat (length int))) with 0%nat by lia.
      cbn [replicate fraction_text length]. rewrite !app_nil_r. split_and!; [done|done|constructor|done|done|lia].
    + exists (take (Z.to_nat dot) int), (drop (Z.to_nat dot) int). rewrite take_drop, length_drop. split_and!.
      * f_equal. unfold fraction_text. destruct (drop _ int) eqn:E; [|done].
        apply (f_equal length) in E. rewrite length_drop in E. cbn in E. lia.
      * by apply Forall_take.
      * by apply Forall_drop.
      * destruct Hh as [->|(d & r & -> & ?)]; [cbn in E1; lia|]. right.
        destruct (Z.to_nat dot) eqn:E; [lia|]. by eexists _, _.
      * done.
      * lia.
Qed.

Lemma str_decimal_number negative coef exp : ∃ ip fp e,
  json_number (str_decimal negative coef exp) negative ip fp e ∧
  int_of_digits (ip ++ fp) = Z.of_N coef ∧ default 0 e - Z.of_nat (length fp) = exp.
Proof.
  destruct (nat_text_spec (Z.of_N coef)) as (Hd & Hi & Hh); [lia|].
  pose proof (nat_text_length (Z.of_N coef) ltac:(lia)) as Hl.
  unfold str_decimal. set (int := nat_text (Z.of_N coef)) in *. cbn zeta.
  set (left := exp + Z.of_nat (length int)).
  set (dot := if (exp <=? 0) && (-6 <? left) then left else 1).
  assert (dot ≤ Z.of_nat (length int)) as Hdot.
  { unfold dot, left. destruct (exp <=? 0) eqn:E; cbn [andb]; [|lia]. refl_bool. case_match; lia. }
  destruct (place_dot_spec int dot Hd Hh Hdot) as (ip & fp & E & Hip & Hfp & Hh' & Hv & Hlen).
  rewrite E, exponent_written. exists ip, fp, (if left - dot =? 0 then None else Some (left - dot)).
  split_and!; [done|by rewrite Hv|]. destruct (left - dot =? 0) eqn:Ez; refl_bool; cbn -[Z.sub]; clearbody dot; unfold left in *; lia.
Qed.

(** ** Values are written and read back *)
#[local] Existing Instance wire_hooks.

(** [written v t]: what is read from the text [t] is the document [v]. *)
Definition written (v : pyval) (t : pystr) : Prop :=
  ∃ m, reads m t ∧ ∀ w, m = Ok w → json_equiv v w.

Lemma written_value v t : reads (Ok v) t → written v t.
Proof. intros Ht. exists (Ok v). split; [done|]. by intros w [= <-]. Qed.

Lemma decimal_of_parts_exact negative ip fp e d :
  decimal_of_parts negative ip fp e = Some d →
  d = DFinite negative (Z.to_N (int_of_digits (ip ++ fp))) (default 0 e - Z.of_nat (length fp)).
Proof. unfold decimal_of_parts. cbn zeta. destruct (_ || _); [done|]. by intros [= <-]. Qed.

Lemma written_decimal d t : encode_decimal d = Ok t → written (PDec d) t.
Proof.
  destruct d as [negative coef exp| |]; [|done..]. intros ([] & _ & [= <-])%bind_Ok_iff.
  destruct (str_decimal_number negative coef exp) as (ip & fp & e & Hj & Hc & He).
  exists (wire_number negative ip fp e). split; [exact (reads_number _ _ _ _ _ Hj)|].
  intros w Hw. unfold wire_number in Hw.
  assert (PDec <$> parse_decimal negative ip fp e = Ok w → json_equiv (PDec (DFinite negative coef exp)) w) as Hdec.
  { clear Hw. intros Hw. unfold parse_decimal in Hw.
    destruct (decimal_of_parts negative ip fp e) as [d|] eqn:E; [|done].
    apply decimal_of_parts_exact in E. rewrite Hc, N2Z.id, He in E. subst d.
    destruct (_ <? _); [done|]. injection Hw as <-. done. }
  destruct fp as [|c fp], e as [z|]; [by apply Hdec| |by apply Hdec..].
  unfold parse_int in Hw. destruct (_ <? _)%nat; [done|]. injection Hw as <-.
  rewrite app_nil_r in Hc. cbn in He. subst exp. rewrite Hc.
  eapply equiv_number; [done..|]. unfold Q_scale. cbn. by rewrite Z.mul_1_r.
Qed.

Lemma text_ok_nonneg s : text_ok s = true → Forall (λ c, 0 ≤ c) s.
Proof.
  unfold text_ok. destruct (utf8_encode s) as [b|] eqn:E; [|done]. intros _. by eapply utf8_encode_nonneg.
Qed.

Lemma written_list l parts :
  Forall2 written l parts → written (PList l) (u "[" ++ join (u ",") parts ++ u "]").
Proof.
  intros Hl. assert (∃ ms, Forall2 reads ms parts ∧
    ∀ ws, sequence_py ms = Ok ws → Forall2 json_equiv l ws) as (ms & Hr & Hm).
  { induction Hl as [|v t l parts (m & Hr & Hm) _ (ms & Hrs & Hms)].
    - exists []. split; [constructor|]. intros ws [= <-]. constructor.
    - exists (m :: ms). split; [by constructor|]. intros ws Hws. cbn in Hws.
      destruct m as [w|]; [|done]. destruct (sequence_py ms) as [ws'|]; [|done]. injection Hws as <-.
      constructor; auto. }
  exists (PList <$> sequence_py ms). split; [by apply reads_list|].
  intros w Hw. destruct (sequence_py ms) as [ws|]; [|done]. injection Hw as <-. constructor. auto.
Qed.

(** Unique keys are kept in their order. *)
Lemma unique_members_Ok pairs result d : unique_members result pairs = Ok d → d = result ++ pairs.
Proof.
  revert result. induction pairs as [|[k x] pairs IH]; intros result; cbn; [by rewrite app_nil_r; intros [= ->]|].
  intros ([] & _ & Hd)%bind_Ok_iff. apply IH in Hd. by rewrite <-app_assoc in Hd.
Qed.

Definition written_member (p : pystr * pyval) (t : pystr) : Prop :=
  Forall (λ c, 0 ≤ c) p.1 ∧ ∃ x, written p.2 x ∧ t = quoted p.1 ++ u ":" ++ x.

Lemma written_dict d parts :
  NoDup d.*1 → Forall2 written_member d parts → written (PDict d) (u "{" ++ join (u ",") parts ++ u "}").
Proof.
  intros Hn Hl. assert (∃ fs, Forall2 reads_field fs parts ∧ ∀ ws, sequence_py (field_outcome <$> fs) = Ok ws →
    Forall2 (λ p q, p.1 = q.1 ∧ json_equiv p.2 q.2) d ws) as (fs & Hr & Hm).
  { clear Hn. induction Hl as [|[k v] t d parts (Hk & x & (m & Hr & Hm) & ->) _ (fs & Hrs & Hms)].
    - exists []. split; [constructor|]. intros ws [= <-]. constructor.
    - exists ((k, m) :: fs). split; [constructor; [split; eauto|done]|]. intros ws Hws.
      cbn in Hws. destruct m as [w|]; [|done]. cbn in Hws.
      destruct (sequence_py (field_outcome <$> fs)) as [ws'|]; [|done]. injection Hws as <-.
      constructor; auto. }
  eexists. split; [apply reads_dict; [exact Hr|done]|].
  intros w (pairs & Hp & Hw)%bind_Ok_iff. specialize (Hm _ Hp).
  destruct (make_object pairs) as [d'|] eqn:E; [|done]. injection Hw as <-.
  apply bind_Ok_iff in E as ([] & _ & E). apply unique_members_Ok in E as ->. cbn [app].
  eapply equiv_dict; [done|done|]. by rewrite <-(equiv_keys _ _ Hm).
Qed.

(** The parts of the text of a list and of an object. *)
Lemma encode_list_parts l t :
  encode_json_value (PList l) = Ok t →
  ∃ parts, t = u "[" ++ join (u ",") parts ++ u "]" ∧ Forall2 (λ v x, encode_json_value v = Ok x) l parts.
Proof.
  cbn [encode_json_value]. intros (parts & Hp & [= <-])%bind_Ok_iff. exists parts. split; [done|].
  revert parts Hp. induction l as [|v l IH]; intros parts; [intros [= <-]; constructor|].
  intros (x & Hx & (r & Hr & [= <-])%bind_Ok_iff)%bind_Ok_iff. constructor; auto.
Qed.

Lemma encode_dict_parts d t :
  encode_json_value (PDict d) = Ok t →
  ∃ parts, t = u "{" ++ join (u ",") parts ++ u "}" ∧
    Forall2 (λ p s, ∃ x, encode_json_value p.2 = Ok x ∧ s = quoted p.1 ++ u ":" ++ x) d parts.
Proof.
  cbn [encode_json_value]. intros (parts & Hp & [= <-])%bind_Ok_iff. exists parts. split; [done|].
  revert parts Hp. induction d as [|[k v] d IH]; intros parts; [intros [= <-]; constructor|].
  intros (x & Hx & (r & Hr & [= <-])%bind_Ok_iff)%bind_Ok_iff. constructor; [by exists x|auto].
Qed.

Lemma encode_written v t depth :
  json_document v = true → sized v depth = true → encode_json_value v = Ok t → written v t.
Proof.
  revert t depth. induction v as [| |b|z|f|d|s|l IH|d IH] using pyval_ind'; intros t depth Hj Hs Ht; try done.
  - injection Ht as <-. apply written_value, reads_none.
  - injection Ht as <-. apply written_value, reads_bool.
  - destruct (str_int_number z t Ht) as (negative & ip & Hn & Hw). apply written_value.
    rewrite <-Hw. exact (reads_number _ _ _ _ _ Hn).
  - by apply written_decimal.
  - injection Ht as <-. apply written_value, reads_string, text_ok_nonneg.
    cbn in Hs. by apply andb_true_iff in Hs as [_ ?].
  - apply encode_list_parts in Ht as (parts & -> & Hp). apply written_list.
    cbn in Hj, Hs. rewrite !andb_true_iff in Hs. destruct Hs as (_ & _ & Hs).
    induction Hp as [|v x l parts Hx _ IHp]; [constructor|]. cbn in Hj, Hs.
    apply andb_true_iff in Hj as [? ?], Hs as [? ?]. apply Forall_cons in IH as [IHv IH]. constructor; eauto.
  - pose proof (json_document_keys d Hj) as Hn. rewrite json_document_dict in Hj. rewrite sized_dict in Hs.
    apply andb_true_iff in Hj as [_ Hj], Hs as [_ [[_ Hk]%andb_true_iff Hs]%andb_true_iff].
    apply encode_dict_parts in Ht as (parts & -> & Hp). apply written_dict; [done|]. clear Hn.
    induction Hp as [|[k v] s d parts (x & Hx & ->) _ IHp]; [constructor|]. cbn in Hj, Hs, Hk.
    apply andb_true_iff in Hj as [? ?], Hs as [? ?], Hk as [? ?]. apply Forall_cons in IH as [IHv IH].
    constructor; [|by auto]. split; [by apply text_ok_nonneg|]. cbn. eauto.
Qed.

(** The text of a document is decoded to an equal document, if it is decoded. *)
Lemma encode_decoded v t b w :
  json_document v = true → within_limits v = true → encode_json_value v = Ok t → utf8_encode t = Some b →
  strict_loads_json (SBytes b) = Ok w → json_equiv v w.
Proof.
  intros Hj Hw Ht Hb Hl. apply andb_true_iff in Hw as [Hs _].
  destruct (encode_written v t 0 Hj Hs Ht) as (m & Hr & Hm). apply Hm.
  apply bind_Ok_iff in Hl as (text & Hp & (w' & Hl%map_raise_Ok_iff & ([] & _ & [= <-])%bind_Ok_iff)%bind_Ok_iff).
  apply bind_Ok_iff in Hp as ([] & _ & Hp).
  rewrite (utf8_decode_encode t b Hb) in Hp. apply bind_Ok_iff in Hp as ([] & _ & [= <-]).
  by rewrite (json_loads_reads m t Hr) in Hl.
Qed.

(** ** Equal documents *)
Lemma json_equiv_trans v w x : json_equiv v w → json_equiv w x → json_equiv v x.
Proof.
  intros H. revert x.
  induction H as [|v w q r Hv Hw Eq Er E|l k HF|d e f HF Hp Hn] using json_equiv_ind; intros x Hx; [done|..].
  - inversion Hx as [|? ? q' r' ? Hx' Eq' Er' E'| |]; subst; [by eapply equiv_number| |done|done].
    rewrite Er in Eq'. injection Eq' as <-. eapply equiv_number; [done..|]. by rewrite E.
  - inversion Hx as [| | ? k' HF'|]; subst; [|done|].
    + constructor. eapply Forall2_impl; [done|]. by intros ? ? [? _].
    + constructor. clear Hx. revert k' HF'. induction HF as [|v w l k [_ Hv] _ IH]; intros k' HF'.
      * by apply Forall2_nil_inv_l in HF' as ->.
      * apply Forall2_cons_inv_l in HF' as (? & ? & ? & ? & ->). constructor; auto.
  - inversion Hx as [| | |? e' f' HF' Hp' Hn']; subst; [|done|].
    + eapply equiv_dict; [|done|done]. eapply Forall2_impl; [done|]. by intros ? ? (? & ? & _).
    + destruct (Permutation_Forall2 (symmetry Hp) HF') as (e1 & Hp1 & HF1).
      eapply (equiv_dict _ e1); [|by rewrite <-Hp1|done]. clear - HF HF1. revert e1 HF1.
      induction HF as [|p q d e (Hk & _ & Hv) _ IH]; intros e1 HF1.
      * apply Forall2_nil_inv_l in HF1 as ->. constructor.
      * apply Forall2_cons_inv_l in HF1 as (r & e2 & [? ?] & ? & ->). constructor; [split; [congruence|auto]|auto].
Qed.

Lemma json_document_equiv v w : json_equiv v w → json_document v = true → json_document w = true.
Proof.
  intros H. induction H as [|v w q r Hv Hw Eq Er E|l k HF|d e f HF Hp Hn] using json_equiv_ind; [done|..].
  - intros _. by destruct w as [| | | | |[]| | |].
  - cbn. rewrite !forallb_Forall. intros Hl. induction HF as [|v w l k [_ Hv] _ IH]; [constructor|].
    apply Forall_cons in Hl as [? ?]. constructor; auto.
  - rewrite !json_document_dict, !andb_true_iff, !forallb_Forall. intros [_ Hd].
    split; [by apply bool_decide_eq_true|]. rewrite <-Hp. clear Hp Hn.
    induction HF as [|p q d e (_ & _ & Hv) _ IH]; [constructor|]. cbn in *.
    apply Forall_cons in Hd as [? ?]. constructor; auto.
Qed.

Lemma valid_document_equiv c v w :
  c ∈ DOCUMENT_CLASSES → json_equiv v w → valid_document c v = valid_document c w.
Proof.
  intros Hc Heq. destruct (document_class c Hc) as (i & Hi & Hp & _).
  unfold valid_document, document_schema. rewrite assoc_position, Hi.
  rewrite (is_dict_equiv _ _ Heq), (within_limits_equiv _ _ Heq). do 2 f_equal.
  apply satisfies_equiv; [|done]. exact (class_position_node _ _ _ Hp).
Qed.

(** ** The parsers of texts *)

Lemma parse_text_outcome c document :
  c ∈ DOCUMENT_CLASSES →
  match parse_text_with c document with
  | Ok r => ∃ v, strict_loads_json document = Ok v ∧ json_document v = true ∧
                 valid_document c v = true ∧ parse_with c v = Ok r
  | Raise e => ∃ message, e = ProtocolStructureError message
  end.
Proof.
  intros Hc. unfold parse_text_with. pose proof (strict_loads_json_spec document) as Hs.
  destruct (strict_loads_json document) as [v|e]; cbn; [|done]. destruct Hs as [Hj _].
  destruct (valid_document c v) eqn:Hv.
  - destruct (document_class_sound c v Hc Hj Hv) as (r & _ & Hr & _). rewrite Hr. eauto.
  - destruct (invalid_document c v Hc Hj Hv) as [message ->]. eauto.
Qed.

(** C18: The parsers of JSON texts are total and strict.  Whatever bytes, string or
    other object a caller passes, decoding ends: it gives a JSON document without
    duplicate keys and within the memory limits, and the parser returns a DTO exactly
    when that document satisfies the schema of the class, or it fails.  In all other
    cases [ProtocolStructureError] is raised; no other exception leaves the parser. *)
Theorem wire_text_decides c document :
  c ∈ DOCUMENT_CLASSES →
  match strict_loads_json document with
  | Ok v => json_document v = true ∧ within_limits v = true ∧
      if valid_document c v then ∃ r, parse_text_with c document = Ok r ∧ parse_with c v = Ok r
      else ∃ message, parse_text_with c document = Raise (ProtocolStructureError message)
  | Raise e => ∃ message, e = ProtocolStructureError message ∧ parse_text_with c document = Raise e
  end.
Proof.
  intros Hc. unfold parse_text_with. pose proof (strict_loads_json_spec document) as Hs.
  destruct (strict_loads_json document) as [v|e]; cbn; [|destruct Hs as [message ->]; eauto].
  destruct Hs as [Hj Hw]. split_and!; [done..|]. destruct (valid_document c v) eqn:Hv.
  - destruct (document_class_sound c v Hc Hj Hv) as (r & _ & Hr & _). eauto.
  - by apply invalid_document.
Qed.

(** Documents survive the wire.  A DTO that was parsed from a JSON document is
    written by [to_json_bytes], when the text fits the limits of the wire, to bytes
    that the parser of its class reads; the DTO that is read stands for the document
    that the first one was parsed from. *)
Theorem wire_bytes_round_trip c v r b :
  c ∈ DOCUMENT_CLASSES → json_document v = true → parse_with c v = Ok r → to_json_bytes r = Ok b →
  ∃ r' w, parse_text_with c (SBytes b) = Ok r' ∧ to_dict r' = Ok w ∧ json_equiv v w.
Proof.
  intros Hc Hj Hr Hb. destruct (valid_document c v) eqn:Hv; cycle 1.
  { destruct (invalid_document c v Hc Hj Hv) as [message Hm]. congruence. }
  destruct (document_class_sound c v Hc Hj Hv) as (r0 & w0 & Hr0 & Hw0 & _ & Heq). same_call.
  apply bind_Ok_iff in Hb as (w1 & Hw1 & (t & Ht & Hb)%bind_Ok_iff). same_call.
  destruct (utf8_encode t) as [b'|] eqn:Eb; [|done].
  apply bind_Ok_iff in Hb as (w2 & Hl & [= ->]).
  assert (within_limits w0 = true) as Hlim.
  { rewrite <-(within_limits_equiv _ _ Heq). unfold valid_document in Hv. by rewrite !andb_true_iff in Hv; destruct_and!. }
  pose proof (encode_decoded w0 t b w2 (json_document_equiv _ _ Heq Hj) Hlim Ht Eb Hl) as Heq2.
  pose proof (json_equiv_trans _ _ _ Heq Heq2) as Heq3.
  destruct (document_class_sound c w2 Hc (json_document_equiv _ _ Heq3 Hj)) as (r2 & w3 & Hr2 & Hw3 & _ & Heq4).
  { by rewrite <-(valid_document_equiv c v w2 Hc Heq3). }
  exists r2, w3. unfold parse_text_with. rewrite Hl. split_and!; [done..|]. by apply (json_equiv_trans _ w2).
Qed.

(** ** Examples *)
Definition wire_line : wire_source :=
  SText (match encode_json_value (wire_record (PInt 0)) with Ok t => u " " ++ t | Raise _ => [] end).
Lemma wire_line_read : is_Ok (parse_reconciliation_json wire_line) = true.
Proof. vm_compute. reflexivity. Qed.

Lemma wire_record_written :
  is_Ok (r ← parse_with ReconciliationRecord (wire_record (PInt 0)); to_json_bytes r) = true.
Proof. vm_compute. reflexivity. Qed.

Lemma wire_text_decides_witness :
  is_Ok (strict_loads_json wire_line) = true ∧ ∃ r, parse_text_with ReconciliationRecord wire_line = Ok r.
Proof.
  pose proof (wire_text_decides ReconciliationRecord wire_line reconciliation_is_document) as H.
  pose proof wire_line_read as Hr. unfold parse_reconciliation_json in Hr.
  destruct (strict_loads_json wire_line) as [v|e]; [split; [reflexivity|]|].
  - destruct H as (_ & _ & H). destruct (valid_document ReconciliationRecord v).
    + destruct H as (r & H & _). exists r. exact H.
    + destruct H as [message H]. rewrite H in Hr. discriminate Hr.
  - destruct H as (message & _ & H). rewrite H in Hr. discriminate Hr.
Defined.

Lemma wire_bytes_round_trip_witness : ∃ b r' w,
  parse_text_with ReconciliationRecord (SBytes b) = Ok r' ∧ to_dict r' = Ok w ∧ json_equiv (wire_record (PInt 0)) w.
Proof.
  pose proof wire_record_written as H.
  destruct (parse_with ReconciliationRecord (wire_record (PInt 0))) as [r|e] eqn:E; [|discriminate H].
  destruct (to_json_bytes r) as [b|e] eqn:Eb; cbn in H; [|by rewrite Eb in H].
  exists b. refine (wire_bytes_round_trip ReconciliationRecord (wire_record (PInt 0)) r b reconciliation_is_document _ E Eb).
  vm_compute. reflexivity.
Defined.
