(* ===== verification/JsonRoundTrip.v ===== *)
(** * Parsing JSON

    Models [parse_json] of [_canonicalize.py]: [json.loads] with
    [parse_float=Decimal], [parse_int=Decimal] and the object hook
    [_object_from_pairs]; and shows that the canonical bytes of a value parse to
    its canonical form. *)

From stdpp Require Import base list list_numbers numbers strings gmap.
From Stdlib Require Import QArith_base Sorted.
From S2P Require Import Prelude PyString Errors PyValue Decimal Unicode Interfaces CanonicalJson JsonScan JsonScanFacts.
Open Scope Z_scope.

(** A number is a [Decimal]. *)
Definition decimal_number (negative : bool) (ip fp : pystr) (e : option Z) : py pyval :=
  match decimal_of_parts negative ip fp e with
  | Some d => Ok (PDec d)
  | None => cerr "number_out_of_range"
  end.

(** [_invalid_constant]. *)
Definition invalid_constant_error : exn := CanonicalizationError "non_finite_number".

Section json.
Context `{UnicodeData}.

(** [_object_from_pairs]. *)
Fixpoint object_from_pairs (result : list (pystr * pyval)) (pairs : list (pystr * pyval))
    : py (list (pystr * pyval)) :=
  match pairs with
  | [] => Ok result
  | (raw_key, value) :: pairs' =>
      key ← nfc "invalid_json" raw_key;
      raise_if (bool_decide (key ∈ result.*1)) (CanonicalizationError "duplicate_key");;
      object_from_pairs (result ++ [(key, value)]) pairs'
  end.

#[global] Instance canonical_hooks : JsonHooks := {|
  decode_error := CanonicalizationError "invalid_json";
  make_constant := λ _, Raise invalid_constant_error;
  make_number := decimal_number;
  make_object := object_from_pairs [];
|}.

(** [parse_json] of a [str] and of [bytes]. *)
Definition parse_json_text (source : pystr) : py pyval :=
  match utf8_encode source with
  | None => cerr "invalid_json"
  | Some source_bytes =>
      raise_if (MAX_INPUT_BYTES <? Z.of_nat (length source_bytes))
        (CanonicalizationError "input_too_large");;
      value ← map_raise (λ e, match e with
                               | RecursionError => CanonicalizationError "nesting_too_deep"
                               | e => e end) (json_loads source);
      snapshot_tree MAX_NESTING_DEPTH value 0;;
      Ok value
  end.
Definition parse_json (source : pybytes) : py pyval :=
  raise_if (MAX_INPUT_BYTES <? Z.of_nat (length source)) (CanonicalizationError "input_too_large");;
  match utf8_decode source with
  | None => cerr "invalid_json"
  | Some text => parse_json_text text
  end.
End json.

(** ** The canonical bytes denote the value

    [canon] is the canonical form of a value.  Parsing the canonical bytes of a
    value gives back its canonical form, so the bytes determine the value up to
    the order of keys, the normalization of text, the spelling of numbers and
    absent members. *)

(** ** Canonical forms *)
Definition canon_num (d : pydec) : pydec :=
  match decimal_text d with
  | Ok t => match scan_number_parts t with
            | Some (negative, ip, fp, _, []) => number_value negative ip fp
            | _ => d
            end
  | Raise _ => d
  end.

Definition present {A} (absent : A → bool) (d : list (pystr * A)) : list (pystr * A) :=
  filter (λ p, absent p.2 = false) d.

Section canon.
Context `{UnicodeData}.

Fixpoint canon (v : pyval) : pyval :=
  match v with
  | PInt z => PDec (canon_num (dec_of_int z))
  | PDec d => PDec (canon_num d)
  | PStr s => PStr (nfc_form s)
  | PList l => PList (canon <$> l)
  | PDict d => PDict (sort_fields (present is_absent ((λ p, (nfc_form p.1, canon p.2)) <$> d)))
  | v => v
  end.
End canon.

(** ** Numbers *)

Lemma int_of_digits_bound s : all_digits s → int_of_digits s < 10 ^ Z.of_nat (length s).
Proof.
  induction 1 as [|c s Hc Hs IH]; [done|]. change (c :: s) with ([c] ++ s).
  rewrite int_of_digits_app, length_app, Nat2Z.inj_add, Z.pow_add_r by lia.
  assert (int_of_digits [c] ≤ 9).
  { apply is_digit_iff in Hc. unfold int_of_digits. cbn. unfold digit_val. lia. }
  cbn [length]. change (10 ^ Z.of_nat 1) with 10. nia.
Qed.

Lemma ndigits_bound n k : 0 ≤ n < 10 ^ Z.of_nat k → (ndigits n ≤ k)%nat.
Proof.
  intros Hn. destruct (decide (n = 0)) as [->|]; [by vm_compute; lia|].
  destruct (ndigits_spec n) as (w & -> & Hw & _); [lia|].
  destruct (decide (S w ≤ k)%nat); [done|].
  assert (10 ^ Z.of_nat k ≤ 10 ^ Z.of_nat w) by (apply Z.pow_le_mono_r; lia). lia.
Qed.

Lemma decimal_number_text negative ip fp :
  all_digits ip → all_digits fp → Z.of_nat (length ip + length fp) ≤ MAX_INPUT_BYTES →
  decimal_number negative ip fp None = Ok (PDec (number_value negative ip fp)).
Proof.
  intros Hip Hfp Hl. unfold decimal_number, decimal_of_parts, number_value. cbn zeta.
  assert (all_digits (ip ++ fp)) as Hall by (by apply Forall_app).
  pose proof (int_of_digits_nonneg _ Hall). pose proof (int_of_digits_bound _ Hall).
  pose proof (ndigits_bound (int_of_digits (ip ++ fp)) (length (ip ++ fp)) ltac:(lia)) as Hd.
  rewrite length_app in Hd. unfold MIN_ETINY, MAX_EMAX, MAX_INPUT_BYTES, adjusted in *. cbn [default].
  rewrite (proj2 (Z.ltb_ge _ _)), (proj2 (Z.ltb_ge _ _)) by lia. done.
Qed.

(** A canonical number is read back as its canonical form. *)
Lemma canon_num_spec d t :
  decimal_text d = Ok t → Z.of_nat (length t) ≤ MAX_INPUT_BYTES →
  dec_eq (canon_num d) d ∧ ∃ negative ip fp, json_number t negative ip fp None ∧
    decimal_number negative ip fp None = Ok (PDec (canon_num d)).
Proof.
  intros Ht Hl. destruct (decimal_text_number d t Ht) as (negative & ip & fp & Hn & Heq).
  pose proof (number_text_json _ _ _ _ Hn) as Hj.
  assert (canon_num d = number_value negative ip fp) as ->.
  { unfold canon_num. rewrite Ht. pose proof (scan_number_parts_text t _ _ _ _ [] Hj I) as E.
    rewrite app_nil_r in E. by rewrite E. }
  split; [done|]. exists negative, ip, fp. split; [done|].
  destruct Hn as [-> Hip Hfp _]. apply decimal_number_text; [done..|].
  rewrite !length_app in Hl. destruct fp; cbn [fraction_text length] in *; lia.
Qed.

(** ** Sorting fields *)
Section sorting.
Context {A B : Type}.
Implicit Types fs : list (pystr * A).

Lemma insert_field_perm (f : pystr * A) fs : insert_field f fs ≡ₚ f :: fs.
Proof.
  induction fs as [|g fs IH]; [done|]. cbn. destruct (str_leb f.1 g.1); [done|].
  rewrite IH. apply Permutation_swap.
Qed.

Lemma sort_fields_perm fs : sort_fields fs ≡ₚ fs.
Proof. induction fs as [|f fs IH]; [done|]. cbn. by rewrite insert_field_perm, IH. Qed.

Lemma insert_field_fmap (g : A → B) (f : pystr * A) fs :
  insert_field (f.1, g f.2) ((λ p, (p.1, g p.2)) <$> fs)
  = (λ p, (p.1, g p.2)) <$> insert_field f fs.
Proof.
  induction fs as [|h fs IH]; [done|]. cbn. destruct (str_leb f.1 h.1); cbn; [done|]. by rewrite IH.
Qed.

Lemma sort_fields_fmap (g : A → B) fs :
  sort_fields ((λ p, (p.1, g p.2)) <$> fs) = (λ p, (p.1, g p.2)) <$> sort_fields fs.
Proof.
  induction fs as [|f fs IH]; [done|]. unfold sort_fields in *. cbn [fmap list_fmap foldr].
  rewrite IH. apply insert_field_fmap.
Qed.

Lemma insert_field_Sorted (f : pystr * A) fs :
  Sorted (λ g h, str_leb g.1 h.1 = true) fs →
  Sorted (λ g h, str_leb g.1 h.1 = true) (insert_field f fs).
Proof.
  induction fs as [|g fs IH]; intros Hs; cbn; [by repeat constructor|].
  destruct (str_leb f.1 g.1) eqn:E; [constructor; [done|by constructor]|].
  apply str_leb_total in E. inversion Hs as [|? ? Hs' Hh]; subst. constructor; [by apply IH|].
  destruct fs as [|h fs]; cbn; [by constructor|]. inversion Hh; subst.
  destruct (str_leb f.1 h.1); by constructor.
Qed.

Lemma sort_fields_Sorted fs : Sorted (λ g h, str_leb g.1 h.1 = true) (sort_fields fs).
Proof. induction fs; [constructor|]. by apply insert_field_Sorted. Qed.

Lemma sort_fields_id fs : Sorted (λ g h, str_leb g.1 h.1 = true) fs → sort_fields fs = fs.
Proof.
  induction 1 as [|f fs Hs IH Hh]; [done|]. unfold sort_fields in *. cbn [foldr]. rewrite IH.
  destruct Hh as [|g fs Hfg]; [done|]. cbn [insert_field]. by rewrite Hfg.
Qed.

Lemma present_fmap (absent : A → bool) (absent' : B → bool) (g : A → B) fs :
  (∀ x, absent' (g x) = absent x) →
  present absent' ((λ p, (p.1, g p.2)) <$> fs) = (λ p, (p.1, g p.2)) <$> present absent fs.
Proof.
  intros Hg. induction fs as [|[k x] fs IH]; [done|]. unfold present in *. cbn [fmap list_fmap].
  rewrite !filter_cons. cbn [fst snd]. rewrite Hg. case_decide; cbn [fmap list_fmap]; by rewrite IH.
Qed.
End sorting.

Section round_trip.
Context `{UnicodeData}.

(** ** Snapshots *)
Definition normal (s : pystr) : Prop := nfc "invalid_string" s = Ok s.

Unset Elimination Schemes.
Inductive snapped : pyval → Prop :=
| snapped_absent : snapped PAbsent
| snapped_none : snapped PNone
| snapped_bool b : snapped (PBool b)
| snapped_int z : snapped (PInt z)
| snapped_dec d : snapped (PDec d)
| snapped_str s : normal s → snapped (PStr s)
| snapped_list l : Forall snapped l → snapped (PList l)
| snapped_dict d : NoDup d.*1 → Forall (λ p, normal p.1) d → Forall (λ p, snapped p.2) d →
    snapped (PDict d).
Set Elimination Schemes.

Lemma normalized_fields_snapped {A} (absent : A → bool) acc items :
  Forall (λ p, normal p.1) items → NoDup (acc.*1 ++ items.*1) →
  normalized_fields absent acc items = Ok (acc ++ present absent items).
Proof.
  intros Hn. revert acc. induction Hn as [|[k x] items Hk Hn IH]; intros acc Hd; cbn [normalized_fields].
  { unfold present. cbn. by rewrite app_nil_r. }
  cbn [fst fmap list_fmap] in *. red in Hk. rewrite Hk. cbn [mbind result_bind].
  apply NoDup_app in Hd as (Ha & Hdis & [Hk' Hd]%NoDup_cons).
  rewrite bool_decide_false by (intros Hin; apply (Hdis k Hin); left). cbn [raise_if mbind result_bind].
  unfold present. rewrite filter_cons. cbn [snd]. destruct (absent x) eqn:Ex.
  - rewrite decide_False by done. apply IH. apply NoDup_app. split_and!; [done| |done].
    intros y Hy Hy'. apply (Hdis y Hy). by right.
  - rewrite decide_True by done. rewrite IH.
    + by rewrite <-app_assoc.
    + rewrite fmap_app. cbn. rewrite <-app_assoc. cbn. apply NoDup_app. split_and!; [done| |by constructor].
      intros y Hy. apply Hdis, Hy.
Qed.

(** ** Scanning encoded values *)

Lemma object_from_pairs_normal acc pairs :
  Forall (λ p, normal p.1) pairs → NoDup (acc.*1 ++ pairs.*1) →
  object_from_pairs acc pairs = Ok (acc ++ pairs).
Proof.
  intros Hn. revert acc. induction Hn as [|[k x] pairs Hk Hn IH]; intros acc Hd; cbn [object_from_pairs].
  { by rewrite app_nil_r. }
  cbn [fst fmap list_fmap] in *.
  rewrite (nfc_idem "invalid_string" "invalid_json" k k Hk). cbn [mbind result_bind].
  rewrite bool_decide_false.
  - cbn [raise_if mbind result_bind]. rewrite IH; [by rewrite <-app_assoc|].
    rewrite fmap_app. cbn. by rewrite <-app_assoc.
  - intros Hin. apply NoDup_app in Hd as (_ & Hdis & _). apply (Hdis k Hin). by left.
Qed.

Lemma sequence_py_Forall2 {A} (xs : list (py A)) ys :
  sequence_py xs = Ok ys → Forall2 (λ x y, x = Ok y) xs ys.
Proof.
  revert ys. induction xs as [|x xs IH]; intros ys Hs; cbn in Hs; inv_ok; constructor; auto.
Qed.

Lemma normal_nonneg s : normal s → Forall (λ c, 0 ≤ c) s.
Proof. intros Hn. destruct (nfc_encodes _ _ _ Hn) as [b Hb]. by eapply utf8_encode_nonneg. Qed.
Lemma normal_form s : normal s → nfc_form s = s.
Proof. by intros (<- & _)%nfc_Ok. Qed.

Lemma canon_is_absent v : is_absent (canon v) = is_absent v.
Proof. by destruct v. Qed.

Lemma canon_fields d :
  Forall (λ p, normal p.1) d →
  sort_fields (present is_absent ((λ p, (nfc_form p.1, canon p.2)) <$> d))
  = (λ p, (p.1, canon p.2)) <$> sort_fields (present is_absent d).
Proof.
  intros Hd.
  assert ((λ p, (nfc_form p.1, canon p.2)) <$> d = (λ p, (p.1, canon p.2)) <$> d) as ->.
  { induction Hd as [|p d Hp _ IH]; [done|]. cbn [fmap list_fmap]. by rewrite IH, normal_form. }
  rewrite (present_fmap is_absent) by apply canon_is_absent. apply sort_fields_fmap.
Qed.

Lemma present_NoDup {A} (absent : A → bool) d : NoDup d.*1 → NoDup (present absent d).*1.
Proof.
  unfold present. induction d as [|[k x] d IH]; [done|]. cbn [fmap list_fmap fst].
  intros [Hk Hnd]%NoDup_cons. rewrite filter_cons. case_decide; [|auto].
  cbn [fmap list_fmap fst]. constructor; [|auto]. intros Hin. apply Hk.
  apply list_elem_of_fmap in Hin as (p & -> & [_ Hp]%list_elem_of_filter).
  by apply list_elem_of_fmap_2.
Qed.

Lemma sorted_fields_ok (P : pystr * pyval → Prop) d :
  NoDup d.*1 → Forall P d →
  NoDup (sort_fields (present is_absent d)).*1 ∧ Forall P (sort_fields (present is_absent d)).
Proof.
  intros Hnd HP. assert (sort_fields (present is_absent d) ≡ₚ present is_absent d) as Hp
    by apply sort_fields_perm.
  split.
  - rewrite Hp. by apply present_NoDup.
  - rewrite Hp. unfold present. apply Forall_forall. intros p [_ Hin]%list_elem_of_filter.
    rewrite Forall_forall in HP. auto.
Qed.

Lemma canonical_reads_dict d parts :
  NoDup d.*1 → Forall (λ p, normal p.1) d →
  Forall2 reads_field ((λ f, (f.1, Ok (canon f.2))) <$> sort_fields (present is_absent d)) parts →
  reads (Ok (canon (PDict d))) (u "{" ++ join (u ",") parts ++ u "}").
Proof.
  intros Hnd Hn Hl. cbn [canon]. rewrite canon_fields by done.
  destruct (sorted_fields_ok _ d Hnd Hn) as [Hnd' Hn'].
  apply reads_dict in Hl; [|done]. rewrite <-list_fmap_compose in Hl.
  change (field_outcome ∘ _) with (Ok (E := exn) ∘ λ f : pystr * pyval, (f.1, canon f.2)) in Hl.
  rewrite list_fmap_compose, sequence_py_Ok in Hl.
  cbn [mbind result_bind make_object canonical_hooks] in Hl.
  rewrite object_from_pairs_normal in Hl; [done|by apply Forall_fmap|].
  cbn [app fmap list_fmap]. by rewrite <-list_fmap_compose.
Qed.

Lemma encode_dict_eq d :
  NoDup d.*1 → Forall (λ p, normal p.1) d →
  encode_canonical (PDict d) =
    (parts ← sequence_py ((λ p, encode_field (p.1, (is_absent p.2, encode_canonical p.2)))
                            <$> sort_fields (present is_absent d));
     Ok (u "{" ++ join (u ",") parts ++ u "}")).
Proof.
  intros Hnd Hn. cbn [encode_canonical]. rewrite (normalized_fields_snapped fst []); cycle 1.
  { by apply Forall_fmap. }
  { cbn [app fmap list_fmap]. by rewrite <-list_fmap_compose. }
  cbn [app mbind result_bind].
  rewrite (present_fmap is_absent fst (λ x, (is_absent x, encode_canonical x))) by done.
  by rewrite (sort_fields_fmap (λ x, (is_absent x, encode_canonical x))), <-list_fmap_compose.
Qed.

Lemma encode_dict d t :
  NoDup d.*1 → Forall (λ p, normal p.1) d → encode_canonical (PDict d) = Ok t →
  ∃ parts, t = u "{" ++ join (u ",") parts ++ u "}" ∧
    Forall2 (λ f p, ∃ x, encode_canonical f.2 = Ok x ∧ p = quoted f.1 ++ u ":" ++ x)
      (sort_fields (present is_absent d)) parts.
Proof.
  intros Hnd Hn Ht. rewrite encode_dict_eq in Ht by done.
  apply bind_Ok_iff in Ht as (parts & Hp%sequence_py_Forall2 & Ht). inv_ok.
  exists parts. split; [done|]. apply Forall2_fmap_l in Hp.
  destruct (sorted_fields_ok _ d Hnd Hn) as [_ Hn'].
  eapply Forall2_impl_Forall_l; [exact Hn'|exact Hp|].
  intros [k v] p Hk Hf _ _. cbn in Hf. unfold encode_field, json_string in Hf. cbn [fst snd] in *.
  red in Hk. rewrite Hk in Hf. inv_ok. eauto.
Qed.

Lemma reads_canon_num v d t :
  canon v = PDec (canon_num d) → decimal_text d = Ok t → Z.of_nat (length t) ≤ MAX_INPUT_BYTES →
  reads (Ok (canon v)) t.
Proof.
  intros Hv Ht Hl. destruct (canon_num_spec d t Ht Hl) as (_ & negative & ip & fp & Hj & Hd).
  rewrite Hv, <-Hd. exact (reads_number _ _ _ _ _ Hj).
Qed.

(** The text of a snapshot is read back as its canonical form. *)
Lemma encode_reads v : ∀ t,
  snapped v → encode_canonical v = Ok t → Z.of_nat (length t) ≤ MAX_INPUT_BYTES → reads (Ok (canon v)) t.
Proof.
  induction v as [| |b|z|f|d|s|l IH|d IH] using pyval_ind'; intros t Hs Ht Hl.
  - done.
  - cbn in Ht. inv_ok. apply reads_none.
  - destruct b; cbn in Ht; inv_ok; apply (reads_bool true) || apply (reads_bool false).
  - by apply (reads_canon_num _ (dec_of_int z)).
  - done.
  - by apply (reads_canon_num _ d).
  - inversion Hs; subst. cbn [encode_canonical] in Ht. unfold json_string in Ht.
    assert (Hn : normal s) by done. red in Hn. rewrite Hn in Ht. inv_ok. cbn [canon].
    rewrite normal_form by done. apply reads_string. by apply normal_nonneg.
  - inversion Hs; subst. cbn [encode_canonical] in Ht. inv_ok.
    apply sequence_py_Forall2, Forall2_fmap_l in Hx0. cbn [canon].
    change (Ok (PList ?x)) with (PList <$> Ok (E := exn) x). rewrite <-(sequence_py_Ok (canon <$> l)).
    apply reads_list, Forall2_fmap_l, Forall2_fmap_l.
    assert (Forall snapped l) as Hsl by done.
    eapply Forall2_impl_Forall_l; [apply (proj2 (Forall_and _ _) (conj IH Hsl))|exact Hx0|].
    intros v p [HIH Hv] Hp _ Hin. apply HIH; [done|done|].
    apply (length_join_elem (u ",")) in Hin. cbn [length] in Hl. rewrite length_app in Hl. lia.
  - inversion Hs as [| | | | | | |? Hnd Hn Hsd]; subst.
    destruct (encode_dict d t Hnd Hn Ht) as (parts & -> & Hp). apply canonical_reads_dict; [done..|].
    apply Forall2_fmap_l.
    destruct (sorted_fields_ok _ d Hnd IH) as [_ IH'].
    destruct (sorted_fields_ok _ d Hnd Hn) as [_ Hn'].
    destruct (sorted_fields_ok _ d Hnd Hsd) as [_ Hs'].
    eapply Forall2_impl_Forall_l;
      [apply (proj2 (Forall_and _ _) (conj IH' (proj2 (Forall_and _ _) (conj Hn' Hs'))))|exact Hp|].
    intros [k v] p (HIH & Hk & Hv) (x & Hx & ->) _ Hin. split; [by apply normal_nonneg|].
    exists x. split; [|done]. apply HIH; [done|done|].
    apply (length_join_elem (u ",")) in Hin. rewrite !length_app in *. lia.
Qed.
End round_trip.
