(* ===== verification/CanonicalFacts.v ===== *)
(** * What canonical bytes guarantee

    The snapshot of a value, its cost and the portable limits; the round trip of
    [canonical_json] through [parse_json]; agreement of values with the same
    bytes; and the [Canonicalizer] that the document validators rely on. *)

From stdpp Require Import base list list_numbers numbers strings gmap sorting.
From Stdlib Require Import QArith_base Sorted.
From S2P Require Import Prelude PyString Errors PyValue Decimal Unicode Interfaces CanonicalJson.
From S2P Require Import JsonScan JsonScanFacts JsonRoundTrip Sha256.
Open Scope Z_scope.

Section canonical_facts.
Context `{UnicodeData}.

(** ** What a snapshot is *)

(** The amount a snapshot is charged. *)
Definition number_cost (d : pydec) : Z :=
  match decimal_text d with Ok t => Z.of_nat (length t) | Raise _ => 0 end.

Definition Zsum (l : list Z) : Z := foldr Z.add 0 l.

Fixpoint cost (v : pyval) : Z :=
  match v with
  | PAbsent | PNone | PBool _ => 5
  | PStr s => utf8_size s + 2
  | PInt z => number_cost (dec_of_int z)
  | PDec d => number_cost d
  | PFloat _ => 0
  | PList l => 2 + Zsum ((λ x, 1 + cost x) <$> l)
  | PDict d => 2 + Zsum ((λ p, utf8_size p.1 + 4 + cost p.2) <$> d)
  end.

(** Depth and sizes are inside the portable limits; numbers have a text. *)
Fixpoint limits (rest : nat) (v : pyval) : Prop :=
  match v with
  | PInt z => is_Ok (decimal_text (dec_of_int z)) = true
  | PDec d => is_Ok (decimal_text d) = true
  | PFloat _ => False
  | PList l =>
      match rest with
      | O => False
      | S rest => (length l ≤ MAX_ARRAY_ITEMS)%nat ∧ Forall (limits rest) l
      end
  | PDict d =>
      match rest with
      | O => False
      | S rest => (length d ≤ MAX_OBJECT_KEYS)%nat ∧ Forall (λ p, limits rest p.2) d
      end
  | _ => True
  end.

(** The snapshot keeps the value and normalizes its text. *)
Unset Elimination Schemes.
Inductive snap_of : pyval → pyval → Prop :=
| snap_absent : snap_of PAbsent PAbsent
| snap_none : snap_of PNone PNone
| snap_bool b : snap_of (PBool b) (PBool b)
| snap_int z : snap_of (PInt z) (PInt z)
| snap_dec d : snap_of (PDec d) (PDec d)
| snap_str s t : nfc "invalid_string" s = Ok t → snap_of (PStr s) (PStr t)
| snap_list l m : Forall2 snap_of l m → snap_of (PList l) (PList m)
| snap_dict d e : NoDup e.*1 →
    Forall2 (λ p q, nfc "invalid_string" p.1 = Ok q.1 ∧ snap_of p.2 q.2) d e →
    snap_of (PDict d) (PDict e).
Set Elimination Schemes.

Lemma charge_Ok a n m : charge a n = Ok m ↔ m = n + a ∧ n + a ≤ MAX_INPUT_BYTES.
Proof.
  unfold charge. split; [intros Hc; inv_ok; by refl_bool|].
  intros [-> Hle]. by rewrite (proj2 (Z.ltb_ge _ _)).
Qed.

Lemma charge_fits a n : n + a ≤ MAX_INPUT_BYTES → charge a n = Ok (n + a).
Proof. intros. by apply charge_Ok. Qed.

Lemma NoDup_snoc_key {A} (acc : list (pystr * A)) k x :
  NoDup acc.*1 → k ∉ acc.*1 → NoDup (acc ++ [(k, x)]).*1.
Proof.
  intros Hnd Hk. rewrite fmap_app. apply NoDup_app. split_and!; [done| |apply NoDup_singleton].
  intros y Hy ->%list_elem_of_singleton. done.
Qed.

Section tree_loops.
Context {I : Type} (f : I → Z → py (pyval * Z)) (Q : I → pyval → Prop).

Lemma visit_array_spec items :
  Forall (λ i, ∀ n w m, f i n = Ok (w, m) →
    m = n + cost w ∧ m ≤ MAX_INPUT_BYTES ∧ Q i w) items →
  ∀ acc n vs m, visit_array charge f acc items n = Ok (vs, m) →
  ∃ ws, vs = acc ++ ws ∧ Forall2 Q items ws ∧ (n ≤ MAX_INPUT_BYTES → m ≤ MAX_INPUT_BYTES) ∧
    m = n + Zsum ((λ x, 1 + cost x) <$> ws) ∧
    (ws = [] ∨ length vs ≤ MAX_ARRAY_ITEMS)%nat.
Proof.
  induction 1 as [|i items Hi _ IH]; intros acc n vs m Hv; cbn [visit_array] in Hv.
  { inv_ok. exists []. rewrite app_nil_r. cbn. split_and!; [done|constructor|done|lia|by left]. }
  inv_ok. destruct x1 as [child n']. inv_ok. rewrite Nat.leb_gt in Hx.
  apply charge_Ok in Hx0 as [-> _]. destruct (Hi _ _ _ Hx1) as (-> & Hmax & HQ).
  destruct (IH _ _ _ _ Hv) as (ws & -> & HF & Hm & -> & Hlen).
  exists (child :: ws). rewrite <-app_assoc.
  split_and!; [done|by constructor|auto|unfold Zsum; cbn [fmap list_fmap foldr]; lia|].
  right. destruct Hlen as [->|Hlen]; rewrite !length_app in *; cbn in *; lia.
Qed.

Lemma visit_items_spec key_of items :
  Forall (λ i, ∀ n w m, f i n = Ok (w, m) →
    m = n + cost w ∧ m ≤ MAX_INPUT_BYTES ∧ Q i w) items →
  ∀ acc n vs m, NoDup acc.*1 → visit_items charge f acc key_of items n = Ok (vs, m) →
  ∃ ws, vs = acc ++ ws ∧ NoDup vs.*1 ∧ (n ≤ MAX_INPUT_BYTES → m ≤ MAX_INPUT_BYTES) ∧
    Forall2 (λ i q, ∃ s, key_of i = KStr s ∧ nfc "invalid_string" s = Ok q.1 ∧ Q i q.2) items ws ∧
    m = n + Zsum ((λ p, utf8_size p.1 + 4 + cost p.2) <$> ws) ∧
    (ws = [] ∨ length vs ≤ MAX_OBJECT_KEYS)%nat.
Proof.
  induction 1 as [|i items Hi _ IH]; intros acc n vs m Hnd Hv; cbn [visit_items] in Hv.
  { inv_ok. exists []. rewrite app_nil_r. cbn. split_and!; [done|done|done|constructor|lia|by left]. }
  inv_ok. destruct x4 as [child n']. inv_ok. rewrite Nat.ltb_ge in Hx. refl_bool.
  destruct (key_of i) as [s|] eqn:Ek; [|done]. inv_ok.
  apply charge_Ok in Hx3 as [-> _]. destruct (Hi _ _ _ Hx4) as (-> & Hmax & HQ).
  destruct (IH _ _ _ _ (NoDup_snoc_key _ _ _ Hnd Hx2) Hv) as (ws & -> & Hnd' & Hm & HF & -> & Hlen).
  exists ((x1, child) :: ws). rewrite <-app_assoc in *.
  split_and!; [done|done|auto|by constructor; eauto|unfold Zsum; cbn [fmap list_fmap foldr fst snd]; lia|].
  right. destruct Hlen as [->|Hlen]; rewrite !length_app in *; cbn in *; lia.
Qed.
End tree_loops.

Lemma visit_scalar_spec v s w c :
  scalar_of v = Some s → visit_scalar s = Ok (w, c) →
  c = cost w ∧ snap_of v w ∧ ∀ rest, limits rest w.
Proof.
  destruct v; intros [= <-] Hv; cbn [visit_scalar] in Hv; inv_ok; try done.
  all: split; [|split]; [|by constructor|].
  all: try (intros []; cbn [limits]); cbn [cost]; try done.
  all: unfold number_cost; by rewrite Hx.
Qed.

(** A snapshot that succeeds: what it returns and what it charges. *)
Lemma snapshot_tree_spec v : ∀ rest n w m,
  snapshot_tree rest v n = Ok (w, m) →
  m = n + cost w ∧ m ≤ MAX_INPUT_BYTES ∧ snap_of v w ∧ limits rest w.
Proof.
  induction v as [| |b|z|f|d|s|l IH|d IH] using pyval_ind'; intros rest n w m Hv;
    try (cbn [snapshot_tree] in Hv; apply bind_Ok_iff in Hv as ([w' c] & Hs & Hv);
         inv_ok; apply charge_Ok in Hx as [-> ?];
         eapply visit_scalar_spec in Hs as (-> & ? & ?); [by auto|reflexivity]).
  - cbn [snapshot_tree] in Hv. destruct rest as [|rest]; [done|].
    apply bind_Ok_iff in Hv as (n' & [-> Hn]%charge_Ok & Hv).
    apply bind_Ok_iff in Hv as ([values m'] & Hl & Hv). inv_ok.
    apply (visit_array_spec _ (λ x w, snap_of x w ∧ limits rest w)) in Hl
      as (ws & -> & HF & Hm & -> & Hlen); [|eapply Forall_impl; [exact IH|]; cbn; eauto].
    cbn [app] in *. split_and!; [cbn [cost]; lia|auto| |].
    + constructor. eapply Forall2_impl; [exact HF|]. by intros ?? [??].
    + cbn [limits]. split; [destruct Hlen as [->|]; [cbn; lia|done]|].
      eapply Forall2_Forall_r; [exact HF|]. apply Forall_true. by intros ??[??].
  - cbn [snapshot_tree] in Hv. destruct rest as [|rest]; [done|].
    apply bind_Ok_iff in Hv as (n' & [-> Hn]%charge_Ok & Hv).
    apply bind_Ok_iff in Hv as ([values m'] & Hl & Hv). inv_ok.
    apply (visit_items_spec _ (λ p w, snap_of p.2 w ∧ limits rest w)) in Hl
      as (ws & -> & Hnd & Hm & HF & -> & Hlen); [|eapply Forall_impl; [exact IH|]; cbn; eauto|constructor].
    cbn [app] in *. split_and!; [cbn [cost]; lia|auto| |].
    + constructor; [done|]. eapply Forall2_impl; [exact HF|].
      intros ?? (s & [= <-] & ? & ? & ?). auto.
    + cbn [limits]. split; [destruct Hlen as [->|]; [cbn; lia|done]|].
      eapply Forall2_Forall_r; [exact HF|]. apply Forall_true. intros ?? (? & ? & ? & ? & ?). done.
Qed.

Lemma snap_of_snapped v : ∀ w, snap_of v w → snapped w.
Proof.
  induction v as [| |b|z|f|d|s|l IH|d IH] using pyval_ind'; intros w Hw; inversion Hw; subst;
    try constructor.
  - by eapply nfc_idem.
  - eapply Forall2_Forall_r; [eassumption|]. eapply Forall_impl; [exact IH|]. cbn. eauto.
  - done.
  - eapply Forall2_Forall_r; [eassumption|]. apply Forall_true.
    intros ?? [? _]. by eapply nfc_idem.
  - eapply Forall2_Forall_r; [eassumption|]. eapply Forall_impl; [exact IH|].
    cbn. intros p Hp q [_ Hq]. eauto.
Qed.

Lemma snap_of_canon v : ∀ w, snap_of v w → canon w = canon v.
Proof.
  induction v as [| |b|z|f|d|s|l IH|d IH] using pyval_ind'; intros w Hw; inversion Hw; subst; try done.
  - cbn. f_equal. match goal with H : nfc _ _ = Ok _ |- _ => apply nfc_Ok in H as (-> & _) end.
    apply nfc_form_idem.
  - cbn [canon]. f_equal. eapply Forall2_fmap_eq; [eassumption|]. done.
  - cbn [canon]. do 3 f_equal. eapply Forall2_fmap_eq; [eassumption|].
    eapply Forall_impl; [exact IH|]. intros p Hp q [Hk Hv]. apply nfc_Ok in Hk as (-> & _).
    by rewrite nfc_form_idem, (Hp _ Hv).
Qed.

Lemma snap_of_no_float v : ∀ w, snap_of v w → no_float v = true.
Proof.
  induction v as [| |b|z|f|d|s|l IH|d IH] using pyval_ind'; intros w Hw; inversion Hw; subst; try done.
  - cbn [no_float]. apply forallb_Forall. by eapply Forall2_Forall_impl_l.
  - cbn [no_float]. apply forallb_Forall. eapply Forall2_Forall_impl_l; [eassumption|].
    eapply Forall_impl; [exact IH|]. intros p Hp q [_ Hq]. eauto.
Qed.

(** ** Parsing the canonical bytes *)
Lemma utf8_encode_length s b : utf8_encode s = Some b → (length s ≤ length b)%nat.
Proof.
  revert b. induction s as [|c s IH]; intros b Hb; [cbn; lia|].
  apply utf8_encode_cons in Hb as (x & y & Hx & Hy & ->). rewrite length_app. cbn [length].
  pose proof (utf8_char_nonempty _ _ Hx). specialize (IH _ Hy). destruct x; [done|]. cbn. lia.
Qed.

(** What [canonical_json] computed. *)
Lemma canonical_json_tree_inv v b :
  canonical_json_tree v = Ok b →
  ∃ w t, snap_of v w ∧ limits MAX_NESTING_DEPTH w ∧ encode_canonical w = Ok t ∧ reads (Ok (canon w)) t ∧
    utf8_encode t = Some b ∧ Z.of_nat (length b) ≤ MAX_INPUT_BYTES ∧ cost w ≤ MAX_INPUT_BYTES.
Proof.
  unfold canonical_json_tree. intros ([w m] & Hs & Hb)%bind_Ok_iff. unfold canonical_bytes in Hb.
  apply bind_Ok_iff in Hb as (t & Ht & Hb). destruct (utf8_encode t) as [b'|] eqn:Eb; [|done].
  inv_ok. refl_bool. destruct (snapshot_tree_spec _ _ _ _ _ Hs) as (-> & Hm & Hw & Hl).
  exists w, t. split_and!; try done.
  - apply encode_reads; [by eapply snap_of_snapped|done|].
    apply utf8_encode_length in Eb. lia.
Qed.

(** ** The canonical form is inside the limits again *)
Lemma Zsum_app l m : Zsum (l ++ m) = Zsum l + Zsum m.
Proof. induction l as [|x l IH]; cbn [app]; [done|]. unfold Zsum in *. cbn [foldr]. lia. Qed.

Lemma Zsum_nonneg l : Forall (λ x, 0 ≤ x) l → 0 ≤ Zsum l.
Proof. induction 1; unfold Zsum in *; cbn [foldr]; lia. Qed.

Lemma Zsum_perm l m : l ≡ₚ m → Zsum l = Zsum m.
Proof. induction 1; unfold Zsum in *; cbn [foldr]; lia. Qed.

Lemma Zsum_le {A} (f g : A → Z) l : Forall (λ x, f x ≤ g x) l → Zsum (f <$> l) ≤ Zsum (g <$> l).
Proof. induction 1; unfold Zsum in *; cbn [fmap list_fmap foldr]; lia. Qed.

Lemma Zsum_elem {A} (f : A → Z) l x :
  Forall (λ y, 0 ≤ f y) l → x ∈ l → f x ≤ Zsum (f <$> l).
Proof.
  intros Hl Hx. induction Hl as [|y l Hy Hl IH]; [by apply elem_of_nil in Hx|].
  assert (0 ≤ Zsum (f <$> l)) by (apply Zsum_nonneg; by apply Forall_fmap).
  unfold Zsum in *. cbn [fmap list_fmap foldr].
  apply elem_of_cons in Hx as [->|Hx]; [lia|]. specialize (IH Hx). lia.
Qed.

Lemma utf8_size_nonneg s : 0 ≤ utf8_size s.
Proof. unfold utf8_size, utf8_length. destruct (utf8_encode s); cbn; lia. Qed.

Lemma cost_nonneg v : 0 ≤ cost v.
Proof.
  induction v as [| |b|z|f|d|s|l IH|d IH] using pyval_ind'; cbn [cost];
    try unfold number_cost; try case_match; try lia.
  - pose proof (utf8_size_nonneg s). lia.
  - assert (0 ≤ Zsum ((λ x, 1 + cost x) <$> l)); [|lia].
    apply Zsum_nonneg, Forall_fmap. eapply Forall_impl; [exact IH|]. intros x Hx. unfold compose in *; cbv beta in *. lia.
  - assert (0 ≤ Zsum ((λ p, utf8_size p.1 + 4 + cost p.2) <$> d)); [|lia].
    apply Zsum_nonneg, Forall_fmap. eapply Forall_impl; [exact IH|].
    intros p Hp. unfold compose in *; cbv beta in *. pose proof (utf8_size_nonneg p.1). lia.
Qed.

Lemma visit_array_complete f items :
  Forall (λ x, ∀ n, n + cost x ≤ MAX_INPUT_BYTES → f x n = Ok (x, n + cost x)) items →
  ∀ acc n, (length acc + length items ≤ MAX_ARRAY_ITEMS)%nat →
  n + Zsum ((λ x, 1 + cost x) <$> items) ≤ MAX_INPUT_BYTES →
  visit_array charge f acc items n = Ok (acc ++ items, n + Zsum ((λ x, 1 + cost x) <$> items)).
Proof.
  induction 1 as [|x items Hx Hi IH]; intros acc n Hlen Hn; cbn [visit_array].
  { cbn. by rewrite app_nil_r, Z.add_0_r. }
  unfold Zsum in *. cbn [length fmap list_fmap foldr] in *.
  assert (0 ≤ Zsum ((λ x, 1 + cost x) <$> items)) as Hz.
  { apply Zsum_nonneg, Forall_fmap, Forall_true. intros y. unfold compose in *; cbv beta in *. pose proof (cost_nonneg y). lia. }
  unfold Zsum in Hz. pose proof (cost_nonneg x).
  rewrite (proj2 (Nat.leb_gt _ _)) by lia. cbn [raise_if mbind result_bind].
  rewrite charge_fits by lia. cbn [mbind result_bind].
  rewrite Hx by lia. cbn [mbind result_bind]. rewrite IH; [|rewrite length_app; cbn; lia|lia].
  rewrite <-app_assoc. do 2 f_equal. lia.
Qed.

Lemma visit_items_complete f items :
  Forall (λ p, ∀ n, n + cost p.2 ≤ MAX_INPUT_BYTES → f p n = Ok (p.2, n + cost p.2)) items →
  Forall (λ p, normal p.1) items →
  ∀ acc n, NoDup (acc.*1 ++ items.*1) → (length acc + length items ≤ MAX_OBJECT_KEYS)%nat →
  n + Zsum ((λ p, utf8_size p.1 + 4 + cost p.2) <$> items) ≤ MAX_INPUT_BYTES →
  visit_items charge f acc (λ p, KStr p.1) items n
  = Ok (acc ++ items, n + Zsum ((λ p, utf8_size p.1 + 4 + cost p.2) <$> items)).
Proof.
  induction 1 as [|[k x] items Hx Hi IH]; intros Hnorm acc n Hnd Hlen Hn; cbn [visit_items].
  { cbn. by rewrite app_nil_r, Z.add_0_r. }
  apply Forall_cons in Hnorm as [Hk Hnorm]. cbn [fst snd fmap list_fmap length] in *.
  unfold Zsum in *. cbn [foldr fst snd] in *.
  assert (0 ≤ Zsum ((λ p, utf8_size p.1 + 4 + cost p.2) <$> items)) as Hz.
  { apply Zsum_nonneg, Forall_fmap, Forall_true. intros y. unfold compose in *; cbv beta in *.
    pose proof (cost_nonneg y.2). pose proof (utf8_size_nonneg y.1). lia. }
  unfold Zsum in Hz. pose proof (cost_nonneg x). pose proof (utf8_size_nonneg k).
  rewrite (proj2 (Nat.ltb_ge _ _)) by lia. cbn [raise_if mbind result_bind].
  red in Hk. rewrite Hk. cbn [mbind result_bind].
  rewrite bool_decide_false
    by (intros Hin; apply NoDup_app in Hnd as (_ & Hdis & _); apply (Hdis k Hin); by left).
  cbn [raise_if mbind result_bind].
  rewrite charge_fits by lia.
  cbn [mbind result_bind]. rewrite Hx by lia. cbn [mbind result_bind].
  rewrite IH; [|done|by rewrite fmap_app, <-app_assoc|rewrite length_app; cbn; lia|lia].
  rewrite <-app_assoc. do 2 f_equal. lia.
Qed.

Lemma Zsum_present d :
  Zsum ((λ p, utf8_size p.1 + 4 + cost p.2) <$> present is_absent d)
  ≤ Zsum ((λ p, utf8_size p.1 + 4 + cost p.2) <$> d).
Proof.
  unfold present. induction d as [|p d IH]; [done|]. rewrite filter_cons.
  pose proof (cost_nonneg p.2). pose proof (utf8_size_nonneg p.1).
  unfold Zsum in *. case_decide; cbn [fmap list_fmap foldr]; lia.
Qed.

(** A snapshot inside the limits is accepted again, unchanged. *)
Lemma snapshot_tree_complete w : ∀ rest n,
  snapped w → limits rest w → n + cost w ≤ MAX_INPUT_BYTES →
  snapshot_tree rest w n = Ok (w, n + cost w).
Proof.
  induction w as [| |b|z|f|d|s|l IH|d IH] using pyval_ind'; intros rest n Hs Hl Hn;
    try (cbn [snapshot_tree scalar_of visit_scalar cost mbind result_bind] in *;
         by rewrite charge_fits).
  - assert (is_Ok (decimal_text (dec_of_int z)) = true) as Ht by (by destruct rest).
    cbn [snapshot_tree scalar_of visit_scalar cost] in *. unfold number_cost in *.
    destruct (decimal_text (dec_of_int z)); [|done]. cbn [mbind result_bind].
    by rewrite charge_fits.
  - by destruct rest.
  - assert (is_Ok (decimal_text d) = true) as Ht by (by destruct rest).
    cbn [snapshot_tree scalar_of visit_scalar cost] in *. unfold number_cost in *.
    destruct (decimal_text d); [|done]. cbn [mbind result_bind].
    by rewrite charge_fits.
  - inversion Hs as [| | | | |? Hk| |]; subst. red in Hk.
    cbn [snapshot_tree scalar_of visit_scalar cost] in *. rewrite Hk. cbn [mbind result_bind].
    by rewrite charge_fits.
  - destruct rest as [|rest]; [done|]. destruct Hl as [Hlen Hl]. inversion Hs as [| | | | | |? Hsl|]; subst.
    cbn [snapshot_tree cost] in *.
    assert (0 ≤ Zsum ((λ x, 1 + cost x) <$> l)).
    { apply Zsum_nonneg, Forall_fmap, Forall_true. intros y. unfold compose; cbv beta.
      pose proof (cost_nonneg y). lia. }
    rewrite charge_fits by lia. cbn [mbind result_bind].
    rewrite visit_array_complete; [|  |done|lia].
    + cbn [app mbind result_bind]. do 2 f_equal. lia.
    + rewrite Forall_forall in *. auto.
  - destruct rest as [|rest]; [done|]. destruct Hl as [Hlen Hl].
    inversion Hs as [| | | | | | |? Hnd Hnorm Hsd]; subst. cbn [snapshot_tree cost] in *.
    assert (0 ≤ Zsum ((λ p, utf8_size p.1 + 4 + cost p.2) <$> d)).
    { apply Zsum_nonneg, Forall_fmap, Forall_true. intros y. unfold compose; cbv beta.
      pose proof (cost_nonneg y.2). pose proof (utf8_size_nonneg y.1). lia. }
    rewrite charge_fits by lia. cbn [mbind result_bind].
    rewrite visit_items_complete; [| |done|done|done|lia].
    + cbn [app mbind result_bind]. do 2 f_equal. lia.
    + rewrite Forall_forall in *. intros p Hp n' Hn'. apply IH; auto.
Qed.

Lemma canon_num_text d :
  is_Ok (decimal_text d) = true → number_cost d ≤ MAX_INPUT_BYTES →
  decimal_text (canon_num d) = decimal_text d.
Proof.
  unfold number_cost. destruct (decimal_text d) as [t|] eqn:Et; [|done]. intros _ Hl.
  rewrite <-Et. apply decimal_text_ext. by apply (canon_num_spec d t).
Qed.

Lemma dict_cost_bound d p :
  p ∈ d → cost p.2 ≤ cost (PDict d).
Proof.
  intros Hp. cbn [cost].
  assert (utf8_size p.1 + 4 + cost p.2 ≤ Zsum ((λ p, utf8_size p.1 + 4 + cost p.2) <$> d)).
  { apply (Zsum_elem (λ p, utf8_size p.1 + 4 + cost p.2)); [|done]. apply Forall_true.
    intros y. pose proof (cost_nonneg y.2). pose proof (utf8_size_nonneg y.1). lia. }
  pose proof (utf8_size_nonneg p.1). lia.
Qed.

Lemma list_cost_bound l x : x ∈ l → cost x ≤ cost (PList l).
Proof.
  intros Hx. cbn [cost]. assert (1 + cost x ≤ Zsum ((λ x, 1 + cost x) <$> l)); [|lia].
  apply (Zsum_elem (λ x, 1 + cost x)); [|done]. apply Forall_true.
  intros y. pose proof (cost_nonneg y). lia.
Qed.

Lemma canon_limits w : ∀ rest,
  snapped w → limits rest w → cost w ≤ MAX_INPUT_BYTES →
  snapped (canon w) ∧ limits rest (canon w) ∧ cost (canon w) ≤ cost w.
Proof.
  induction w as [| |b|z|f|d|s|l IH|d IH] using pyval_ind'; intros rest Hs Hl Hc; try done.
  - assert (is_Ok (decimal_text (dec_of_int z)) = true) as Ht by (by destruct rest).
    cbn [canon cost] in *. split_and!; [constructor| |].
    + destruct rest; cbn [limits]; by rewrite canon_num_text.
    + unfold number_cost. by rewrite canon_num_text.
  - assert (is_Ok (decimal_text d) = true) as Ht by (by destruct rest).
    cbn [canon cost] in *. split_and!; [constructor| |].
    + destruct rest; cbn [limits]; by rewrite canon_num_text.
    + unfold number_cost. by rewrite canon_num_text.
  - inversion Hs; subst. cbn [canon]. by rewrite normal_form.
  - destruct rest as [|rest]; [done|]. destruct Hl as [Hlen Hl]. inversion Hs as [| | | | | |? Hsl|]; subst.
    assert (Forall (λ x, snapped (canon x) ∧ limits rest (canon x) ∧ cost (canon x) ≤ cost x) l) as Hall.
    { rewrite Forall_forall in *. intros x Hx. apply IH; auto.
      pose proof (list_cost_bound l x Hx). lia. }
    cbn [canon cost limits]. rewrite length_fmap. split_and!.
    + constructor. apply Forall_fmap. eapply Forall_impl; [exact Hall|]. by intros x (? & _).
    + done.
    + apply Forall_fmap. eapply Forall_impl; [exact Hall|]. by intros x (_ & ? & _).
    + rewrite <-list_fmap_compose.
      assert (Zsum ((λ x, 1 + cost (canon x)) <$> l) ≤ Zsum ((λ x, 1 + cost x) <$> l)); [|unfold compose; lia].
      apply Zsum_le. eapply Forall_impl; [exact Hall|]. cbv beta. intros x (_ & _ & ?). lia.
  - destruct rest as [|rest]; [done|]. destruct Hl as [Hlen Hl].
    inversion Hs as [| | | | | | |? Hnd Hnorm Hsd]; subst.
    assert (Forall (λ p, snapped (canon p.2) ∧ limits rest (canon p.2) ∧
                         cost (canon p.2) ≤ cost p.2) d) as Hall.
    { rewrite Forall_forall in *. intros p Hp. apply IH; auto.
      pose proof (dict_cost_bound d p Hp). lia. }
    cbn [canon]. rewrite canon_fields by done.
    destruct (sorted_fields_ok _ d Hnd Hall) as [Hnd' Hall'].
    destruct (sorted_fields_ok _ d Hnd Hnorm) as [_ Hnorm'].
    assert (Hp : sort_fields (present is_absent d) ≡ₚ present is_absent d) by apply sort_fields_perm.
    remember (sort_fields (present is_absent d)) as fs eqn:Efs. clear Efs.
    cbn [cost limits]. rewrite length_fmap. split_and!.
    + constructor; [by rewrite <-list_fmap_compose|by apply Forall_fmap|].
      apply Forall_fmap. eapply Forall_impl; [exact Hall'|]. by intros p (? & _).
    + rewrite Hp. unfold present. etrans; [apply length_filter|done].
    + apply Forall_fmap. eapply Forall_impl; [exact Hall'|]. by intros p (_ & ? & _).
    + rewrite <-list_fmap_compose.
      assert (Zsum ((λ p, utf8_size p.1 + 4 + cost (canon p.2)) <$> fs)
              ≤ Zsum ((λ p, utf8_size p.1 + 4 + cost p.2) <$> fs)) as H1.
      { apply Zsum_le. eapply Forall_impl; [exact Hall'|]. cbv beta. intros p (_ & _ & ?). lia. }
      assert (Zsum ((λ p, utf8_size p.1 + 4 + cost p.2) <$> fs)
              ≤ Zsum ((λ p, utf8_size p.1 + 4 + cost p.2) <$> d)) as H2.
      { rewrite (Zsum_perm _ ((λ p, utf8_size p.1 + 4 + cost p.2) <$> present is_absent d))
          by (by rewrite Hp). apply Zsum_present. }
      unfold compose. cbn [fst snd]. lia.
Qed.

Lemma present_present d :
  present is_absent (sort_fields (present is_absent d)) = sort_fields (present is_absent d).
Proof.
  assert (Forall (λ p, is_absent p.2 = false) (sort_fields (present is_absent d))) as Hall.
  { rewrite sort_fields_perm. apply Forall_forall. by intros p [? _]%list_elem_of_filter. }
  revert Hall. generalize (sort_fields (present is_absent d)). intros fs Hall.
  unfold present. induction Hall as [|p fs Hp _ IH]; [done|].
  rewrite filter_cons, decide_True by done. by rewrite IH.
Qed.

(** The canonical form has the same text. *)
Lemma canon_encode w : ∀ rest,
  snapped w → limits rest w → cost w ≤ MAX_INPUT_BYTES →
  encode_canonical (canon w) = encode_canonical w.
Proof.
  induction w as [| |b|z|f|d|s|l IH|d IH] using pyval_ind'; intros rest Hs Hl Hc; try done.
  - assert (is_Ok (decimal_text (dec_of_int z)) = true) as Ht by (by destruct rest).
    cbn [canon encode_canonical]. by rewrite canon_num_text.
  - assert (is_Ok (decimal_text d) = true) as Ht by (by destruct rest).
    cbn [canon encode_canonical]. by rewrite canon_num_text.
  - inversion Hs; subst. cbn [canon]. by rewrite normal_form.
  - destruct rest as [|rest]; [done|]. destruct Hl as [Hlen Hl]. inversion Hs as [| | | | | |? Hsl|]; subst.
    assert (existsb is_absent (canon <$> l) = existsb is_absent l) as E.
    { clear. induction l as [|x l IHl]; [done|].
      cbn [fmap list_fmap existsb]. by rewrite canon_is_absent, IHl. }
    cbn [canon encode_canonical]. rewrite E, <-list_fmap_compose.
    assert ((encode_canonical ∘ canon) <$> l = encode_canonical <$> l) as ->; [|done].
    apply Forall_fmap_ext_1. rewrite Forall_forall in *. intros x Hx. apply (IH x Hx rest); auto.
    pose proof (list_cost_bound l x Hx). lia.
  - destruct (canon_limits (PDict d) rest Hs Hl Hc) as (Hs' & _ & _).
    inversion Hs as [| | | | | | |? Hnd Hnorm Hsd]; subst.
    cbn [canon] in *. rewrite canon_fields in * by done.
    inversion Hs' as [| | | | | | |? Hnd' Hnorm' Hsd']; subst.
    rewrite !encode_dict_eq by done.
    assert (Hp : present is_absent ((λ p, (p.1, canon p.2)) <$> sort_fields (present is_absent d))
                 = (λ p, (p.1, canon p.2)) <$> sort_fields (present is_absent d)).
    { rewrite (present_fmap is_absent) by apply canon_is_absent. f_equal. apply present_present. }
    rewrite Hp, (sort_fields_fmap canon), sort_fields_id by apply sort_fields_Sorted.
    rewrite <-list_fmap_compose.
    assert (Forall (λ p, encode_canonical (canon p.2) = encode_canonical p.2) d) as Hall.
    { destruct rest as [|rest]; [done|]. destruct Hl as [_ Hl]. rewrite Forall_forall in *.
      intros p Hp'. apply (IH p Hp' rest); auto. pose proof (dict_cost_bound d p Hp'). lia. }
    destruct (sorted_fields_ok _ d Hnd Hall) as [_ Hall'].
    f_equal. f_equal. apply Forall_fmap_ext_1. eapply Forall_impl; [exact Hall'|].
    intros p Hp'. unfold compose. cbn [fst snd]. by rewrite canon_is_absent, Hp'.
Qed.

(** ** Agreement of values with the same canonical form *)

Lemma key_unique {A} k (d : list (pystr * A)) x y : NoDup d.*1 → (k, x) ∈ d → (k, y) ∈ d → x = y.
Proof. intros Hnd Hx%elem_assoc Hy%elem_assoc; [congruence|done..]. Qed.

Lemma canon_num_agree d e n :
  is_Ok (decimal_text d) = true → number_cost d ≤ MAX_INPUT_BYTES →
  is_Ok (decimal_text e) = true → number_cost e ≤ MAX_INPUT_BYTES →
  canon_num d = canon_num e → ∀ v w, num_of v = num_of (PDec d) → num_of w = num_of (PDec e) →
  json_agree n v w.
Proof.
  unfold number_cost. intros Hd Ld He Le E v w Hv Hw.
  destruct (decimal_text d) as [s|] eqn:Ed, (decimal_text e) as [t|] eqn:Ee; try done.
  assert (dec_eq d e) as Hde.
  { apply (dec_eq_trans _ (canon_num d)); [by apply dec_eq_sym, (canon_num_spec d s)|].
    rewrite E. by apply (canon_num_spec e t). }
  unfold dec_eq in Hde. rewrite <-Hv, <-Hw in Hde.
  destruct (num_of v) as [[p| |]|] eqn:Ev, (num_of w) as [[q| |]|] eqn:Ew; try done.
  by eapply agree_num.
Qed.

Lemma num_of_int z : num_of (PInt z) = num_of (PDec (dec_of_int z)).
Proof.
  cbn. unfold Q_scale, signed. cbn [Z.leb Z.compare]. do 2 f_equal. f_equal.
  rewrite Z.pow_0_r, Z.mul_1_r. destruct (z <? 0) eqn:E; refl_bool; lia.
Qed.

(** A field that is present is a field of the canonical form. *)
Lemma canon_field d k x :
  (k, x) ∈ d → is_absent x = false →
  (k, canon x) ∈ (λ p, (p.1, canon p.2)) <$> sort_fields (present is_absent d).
Proof.
  intros Hin Hx. apply (list_elem_of_fmap_2 (λ p, (p.1, canon p.2)) _ (k, x)).
  rewrite sort_fields_perm. by apply list_elem_of_filter.
Qed.

Lemma canon_field_inv d k y :
  (k, y) ∈ (λ p, (p.1, canon p.2)) <$> sort_fields (present is_absent d) →
  ∃ x, (k, x) ∈ d ∧ is_absent x = false ∧ y = canon x.
Proof.
  intros ([k' x] & [= -> ->] & Hin)%list_elem_of_fmap. rewrite sort_fields_perm in Hin.
  apply list_elem_of_filter in Hin as [? ?]. eauto.
Qed.

Definition sized (rest : nat) (w : pyval) : Prop :=
  snapped w ∧ limits rest w ∧ cost w ≤ MAX_INPUT_BYTES.

Lemma sized_number d rest w :
  sized rest w → w = PDec d ∨ (∃ z, w = PInt z ∧ d = dec_of_int z) →
  is_Ok (decimal_text d) = true ∧ number_cost d ≤ MAX_INPUT_BYTES ∧ num_of w = num_of (PDec d).
Proof.
  intros (_ & Hl & Hc) [->|(z & -> & ->)]; (split_and!; [by destruct rest|done|]);
    [done|apply num_of_int].
Qed.

Lemma sized_list rest l x : sized rest (PList l) → x ∈ l → ∃ r, sized r x.
Proof.
  intros (Hs & Hl & Hc) Hx. destruct rest as [|rest]; [done|]. destruct Hl as [_ Hl].
  inversion Hs as [| | | | | |? Hsl|]; subst. rewrite Forall_forall in *.
  exists rest. split_and!; [auto..|]. pose proof (list_cost_bound l x Hx). lia.
Qed.

Lemma sized_item rest d p : sized rest (PDict d) → p ∈ d → ∃ r, sized r p.2.
Proof.
  intros (Hs & Hl & Hc) Hp. destruct rest as [|rest]; [done|]. destruct Hl as [_ Hl].
  inversion Hs as [| | | | | | |? _ _ Hsd]; subst. rewrite Forall_forall in *.
  exists rest. split_and!; [auto..|]. pose proof (dict_cost_bound d p Hp). lia.
Qed.

Lemma canon_number v d : canon v = PDec d →
  ∃ e, d = canon_num e ∧ (v = PDec e ∨ ∃ z, v = PInt z ∧ e = dec_of_int z).
Proof. destruct v; cbn; intros E; simplify_eq; eauto 10. Qed.

Lemma agree_numbers v w d rest rest' :
  sized rest v → sized rest' w → canon v = PDec d → canon v = canon w → json_agree id v w.
Proof.
  intros Hv Hw Ed E. assert (canon w = PDec d) as Ed' by congruence.
  apply canon_number in Ed as (e & -> & He), Ed' as (e' & E' & He').
  destruct (sized_number _ _ _ Hv He) as (? & ? & ?), (sized_number _ _ _ Hw He') as (? & ? & ?).
  by apply (canon_num_agree e e').
Qed.

(** Snapshots with the same canonical form agree. *)
Lemma canon_agree v : ∀ w rest rest',
  sized rest v → sized rest' w → canon v = canon w → json_agree id v w.
Proof.
  induction v as [| |b|z|f|d|s|l IH|d IH] using pyval_ind'; intros w rest rest' Hv Hw E.
  - destruct w; try done. constructor.
  - destruct w; try done. constructor.
  - destruct w; try done. cbn in E. simplify_eq. constructor.
  - by eapply agree_numbers.
  - by destruct Hv as (Hs & _); inversion Hs.
  - by eapply agree_numbers.
  - destruct w; try done. cbn in E. injection E as E. constructor. cbn.
    destruct Hv as (Hv & _), Hw as (Hw & _). inversion Hv; inversion Hw; subst.
    rewrite !normal_form in E by done. done.
  - destruct w as [| | | | | | |m|]; try done. cbn in E. injection E as E. constructor.
    assert (∀ x, x ∈ l → ∃ r, sized r x) as Hl by (intros x Hx; by apply (sized_list rest l)).
    assert (∀ x, x ∈ m → ∃ r, sized r x) as Hm by (intros x Hx; by apply (sized_list rest' m)).
    clear Hv Hw. revert m E Hm. induction IH as [|x l Hx _ IHl]; intros [|y m] E Hm; try done.
    cbn in E. injection E as Exy E. constructor.
    + destruct (Hl x) as [r ?], (Hm y) as [r' ?]; [by left..|]. eauto.
    + apply IHl; [intros; apply Hl; by right|done|intros; apply Hm; by right].
  - destruct w as [| | | | | | | |e]; try done. constructor. intros k x y Hx Hy.
    pose proof (λ p, sized_item _ _ p Hv) as Hd. pose proof (λ p, sized_item _ _ p Hw) as He.
    destruct Hv as (Hv & _), Hw as (Hw & _).
    inversion Hv as [| | | | | | |? Nd Kd _]; inversion Hw as [| | | | | | |? Ne Ke _]; subst.
    apply assoc_elem in Hx, Hy. cbn [canon] in E. injection E as E.
    rewrite !canon_fields in E by done.
    destruct (is_absent x) eqn:Ax, (is_absent y) eqn:Ay.
    + destruct x, y; try done. constructor.
    + pose proof (canon_field _ _ _ Hy Ay) as Hin. rewrite <-E in Hin.
      apply canon_field_inv in Hin as (x' & Hx' & ? & _).
      rewrite (key_unique k d x x') in Ax by done. congruence.
    + pose proof (canon_field _ _ _ Hx Ax) as Hin. rewrite E in Hin.
      apply canon_field_inv in Hin as (y' & Hy' & ? & _).
      rewrite (key_unique k e y y') in Ay by done. congruence.
    + pose proof (canon_field _ _ _ Hx Ax) as Hin. rewrite E in Hin.
      apply canon_field_inv in Hin as (y' & Hy' & _ & Exy).
      rewrite (key_unique k e y' y) in Exy by done.
      destruct (Hd (k, x)) as [r Hr]; [done|]. destruct (He (k, y)) as [r' Hr']; [done|].
      rewrite Forall_forall in IH. by apply (IH (k, x) Hx y r r').
Qed.

(** Lifting agreement from the snapshots to the values. *)
Lemma snap_field d e k x :
  NoDup e.*1 → Forall2 (λ p q, nfc "invalid_string" p.1 = Ok q.1 ∧ snap_of p.2 q.2) d e →
  assoc k d = Some x → ∃ x', assoc (nfc_form k) e = Some x' ∧ snap_of x x'.
Proof.
  intros Hnd HF Hx%assoc_elem. apply list_elem_of_lookup_1 in Hx as [i Hi].
  destruct (Forall2_lookup_l _ _ _ _ _ HF Hi) as ([k' x'] & Hi' & Hk & Hs). cbn in Hk, Hs.
  apply nfc_Ok in Hk as (-> & _). exists x'. split; [|done].
  apply elem_assoc; [done|]. by eapply list_elem_of_lookup_2.
Qed.

Lemma json_agree_snap v : ∀ v' w w',
  snap_of v v' → snap_of w w' → json_agree id v' w' → json_agree nfc_form v w.
Proof.
  induction v as [| |b|z|f|d|s|l IH|d IH] using pyval_ind'; intros v' w w' Hv Hw Ha;
    inversion Hv; subst.
  - inversion Ha; subst; inversion Hw; subst; try done; constructor.
  - inversion Ha; subst; inversion Hw; subst; try done; constructor.
  - inversion Ha; subst; inversion Hw; subst; try done; first [by apply agree_bool|by eapply agree_num].
  - inversion Ha; subst; inversion Hw; subst; try done; by eapply agree_num.
  - inversion Ha; subst; inversion Hw; subst; try done; by eapply agree_num.
  - inversion Ha; subst; [done|]. inversion Hw; subst. constructor. cbn in *. subst.
    repeat match goal with H : nfc _ _ = Ok _ |- _ => apply nfc_Ok in H as (? & _) end. congruence.
  - inversion Ha as [| | | | |? ? Hab|]; subst; [done|].
    inversion Hw as [| | | | | |lw ? Hlw|]; subst. constructor.
    match goal with Hlv : Forall2 snap_of l ?mv, Hab : Forall2 (json_agree id) ?mv ?mw |- _ =>
      rename Hlv into Hlv; clear -IH Hlv Hab Hlw; revert lw mv mw Hlv Hab Hlw end.
    induction IH as [|x l Hx _ IHl]; intros lw mv mw Hlv Hab Hlw.
    + apply Forall2_nil_inv_l in Hlv as ->. apply Forall2_nil_inv_l in Hab as ->.
      by apply Forall2_nil_inv_r in Hlw as ->.
    + apply Forall2_cons_inv_l in Hlv as (x' & l' & ? & ? & ->).
      apply Forall2_cons_inv_l in Hab as (y' & m' & ? & ? & ->).
      apply Forall2_cons_inv_r in Hlw as (y & m & ? & ? & ->). constructor; eauto.
  - inversion Ha as [| | | | | |? ? Hab]; subst; [done|].
    inversion Hw as [| | | | | | |dw ? Ndw Hdw]; subst. constructor. intros k x y Hx Hy.
    match goal with HF : Forall2 _ d ?e, HN : NoDup ?e.*1 |- _ =>
      destruct (snap_field d e k x HN HF Hx) as (x' & Hx' & Sx) end.
    destruct (snap_field dw _ k y Ndw Hdw Hy) as (y' & Hy' & Sy).
    apply assoc_elem in Hx. rewrite Forall_forall in IH. eapply (IH (k, x)); eauto.
Qed.

(** ** The guarantees *)
Lemma canonical_json_tree_sized v b :
  canonical_json_tree v = Ok b →
  ∃ w, snap_of v w ∧ sized MAX_NESTING_DEPTH w ∧ canonical_bytes w = Ok b ∧
       parse_json b = Ok (canon w).
Proof.
  intros Hb. destruct (canonical_json_tree_inv v b Hb) as (w & t & Hw & Hl & Ht & Hr & Hu & Hlen & Hc).
  assert (sized MAX_NESTING_DEPTH w) as Hs by (split; [by eapply snap_of_snapped|done]).
  exists w. split_and!; [done|done| |].
  - unfold canonical_bytes. rewrite Ht. cbn [mbind result_bind]. rewrite Hu.
    by rewrite (proj2 (Z.ltb_ge _ _)).
  - unfold parse_json. rewrite (proj2 (Z.ltb_ge _ _)) by done. cbn [raise_if mbind result_bind].
    rewrite (utf8_decode_encode t b Hu). unfold parse_json_text. rewrite Hu.
    rewrite (proj2 (Z.ltb_ge _ _)) by done. cbn [raise_if mbind result_bind].
    rewrite (json_loads_reads (Ok (canon w)) t Hr). cbn [map_raise mbind result_bind].
    destruct Hs as (Hs & _ & _). destruct (canon_limits w _ Hs Hl Hc) as (Hs' & Hl' & Hc').
    rewrite (snapshot_tree_complete (canon w) MAX_NESTING_DEPTH 0 Hs' Hl') by lia. done.
Qed.

Lemma canonical_json_tree_round_trip v b :
  canonical_json_tree v = Ok b → parse_json b = Ok (canon v).
Proof.
  intros (w & Hw & _ & _ & ->)%canonical_json_tree_sized. by rewrite (snap_of_canon v w).
Qed.

Lemma canonical_json_tree_agree v w b :
  canonical_json_tree v = Ok b → canonical_json_tree w = Ok b → json_agree nfc_form v w.
Proof.
  intros Hv Hw. destruct (canonical_json_tree_sized v b Hv) as (v' & Sv & Zv & _ & Pv).
  destruct (canonical_json_tree_sized w b Hw) as (w' & Sw & Zw & _ & Pw).
  apply (json_agree_snap v v' w w'); [done..|].
  apply (canon_agree v' w' MAX_NESTING_DEPTH MAX_NESTING_DEPTH); [done..|]. congruence.
Qed.

Lemma canonical_bytes_canon w b :
  sized MAX_NESTING_DEPTH w → canonical_bytes w = Ok b → canonical_bytes (canon w) = Ok b.
Proof. intros (Hs & Hl & Hc). unfold canonical_bytes. by rewrite (canon_encode w MAX_NESTING_DEPTH). Qed.

Lemma charge_craises a n : craises (charge a n).
Proof. unfold charge. solve_craises. Qed.
#[local] Hint Resolve charge_craises : craises.

Lemma visit_array_craises {I} (f : I → Z → py (pyval * Z)) items :
  Forall (λ i, ∀ n, craises (f i n)) items → ∀ acc n, craises (visit_array charge f acc items n).
Proof.
  induction 1 as [|i items Hi _ IH]; intros acc n; cbn [visit_array]; solve_craises.
Qed.

Lemma visit_items_craises {I} (f : I → Z → py (pyval * Z)) key_of items :
  Forall (λ i, ∀ n, craises (f i n)) items → ∀ acc n, craises (visit_items charge f acc key_of items n).
Proof.
  induction 1 as [|i items Hi _ IH]; intros acc n; cbn [visit_items]; solve_craises.
Qed.

Lemma visit_scalar_craises s : craises (visit_scalar s).
Proof. destruct s; cbn [visit_scalar]; solve_craises. Qed.
#[local] Hint Resolve visit_scalar_craises : craises.

Lemma snapshot_tree_craises v : ∀ rest n, craises (snapshot_tree rest v n).
Proof.
  induction v as [| |b|z|f|d|s|l IH|d IH] using pyval_ind'; intros rest n; cbn [snapshot_tree scalar_of];
    solve_craises.
  - apply visit_array_craises. eapply Forall_impl; [exact IH|]. auto.
  - apply visit_items_craises. eapply Forall_impl; [exact IH|]. auto.
Qed.
#[local] Hint Resolve snapshot_tree_craises : craises.

Lemma sequence_py_craises {A} (xs : list (py A)) : Forall craises xs → craises (sequence_py xs).
Proof. induction 1; cbn [sequence_py]; solve_craises. Qed.

Lemma normalized_fields_craises {A} (absent : A → bool) items : ∀ acc,
  craises (normalized_fields absent acc items).
Proof. induction items as [|[k x] items IH]; intros acc; cbn [normalized_fields]; solve_craises. Qed.

Lemma normalized_fields_elem {A} (absent : A → bool) items : ∀ acc fs p,
  normalized_fields absent acc items = Ok fs → p ∈ fs → p ∈ acc ∨ p.2 ∈ items.*2.
Proof.
  induction items as [|[k x] items IH]; intros acc fs p Hn Hp; cbn in Hn; inv_ok; [by left|].
  destruct (IH _ _ _ Hn Hp) as [Hin|Hin]; [|right; by right].
  destruct (absent x); [by left|].
  apply elem_of_app in Hin as [Hin| ->%list_elem_of_singleton]; [by left|right; by left].
Qed.

Lemma encode_canonical_craises v : craises (encode_canonical v).
Proof.
  induction v as [| |b|z|f|d|s|l IH|d IH] using pyval_ind'; cbn [encode_canonical];
    unfold json_string; try (solve_craises; fail).
  - solve_craises. apply sequence_py_craises. by apply Forall_fmap.
  - intros e [He|(fs & Hfs & He)]%bind_Raise_iff; [by eapply normalized_fields_craises|].
    revert e He. change (craises (parts ← sequence_py (encode_field <$> sort_fields fs);
      Ok (u "{" ++ join (u ",") parts ++ u "}"))).
    apply craises_bind; [|solve_craises]. apply sequence_py_craises, Forall_fmap, Forall_forall.
    intros [k [a x]] Hin. rewrite sort_fields_perm in Hin. unfold compose, encode_field, json_string.
    cbn [fst snd]. solve_craises.
    destruct (normalized_fields_elem _ _ _ _ _ Hfs Hin) as [?%elem_of_nil|Hx]; [done|].
    rewrite <-list_fmap_compose in Hx. cbn in Hx.
    apply list_elem_of_fmap in Hx as (p & [= _ ->] & Hp). rewrite Forall_forall in IH. by apply IH.
Qed.
#[local] Hint Resolve encode_canonical_craises : craises.

Lemma canonical_json_tree_craises v : craises (canonical_json_tree v).
Proof. unfold canonical_json_tree, canonical_bytes. solve_craises. Qed.

(** The canonicalizer the validators are verified against. *)
#[export] Program Instance palonexus_canonicalizer : Canonicalizer := {|
  canonical_json := canonical_json_tree;
  sha256_hex := sha256_hexdigest;
  normalize := nfc_form;
|}.
Next Obligation. by eapply canonical_json_tree_craises. Qed.
Next Obligation.
  match goal with H : _ = Ok _ |- _ => apply canonical_json_tree_sized in H as (w & Hw & _) end.
  by eapply snap_of_no_float.
Qed.
Next Obligation. by eapply canonical_json_tree_agree. Qed.

(** The canonical form has the same canonical bytes. *)
Lemma canonical_json_tree_stable v b :
  canonical_json_tree v = Ok b → canonical_json_tree (canon v) = Ok b.
Proof.
  intros Hb. destruct (canonical_json_tree_sized v b Hb) as (w & Hw & Hs & Hbytes & _).
  rewrite <-(snap_of_canon v w Hw). pose proof Hs as (Hsn & Hl & Hc).
  destruct (canon_limits w _ Hsn Hl Hc) as (Hs' & Hl' & Hc'). unfold canonical_json_tree.
  rewrite (snapshot_tree_complete (canon w) MAX_NESTING_DEPTH 0 Hs' Hl') by lia.
  by apply canonical_bytes_canon.
Qed.

(** ** Values that denote the same document

    Equality of documents, stated without the canonical form: literals are equal,
    numbers are integers or decimals of the same value, texts have the same NFC
    form, arrays agree element by element, and objects have the same present
    members under the same NFC names, in any order. *)
Definition is_number (v : pyval) : bool := match v with PInt _ | PDec _ => true | _ => false end.

Unset Elimination Schemes.
Inductive same_json : pyval → pyval → Prop :=
| same_absent : same_json PAbsent PAbsent
| same_none : same_json PNone PNone
| same_bool b : same_json (PBool b) (PBool b)
| same_number v w p q :
    is_number v = true → is_number w = true →
    num_of v = Some (XFin p) → num_of w = Some (XFin q) → (p == q)%Q → same_json v w
| same_str s t : nfc_form s = nfc_form t → same_json (PStr s) (PStr t)
| same_list l m : Forall2 same_json l m → same_json (PList l) (PList m)
| same_dict d e :
    (∀ k x, (k, x) ∈ d → x ≠ PAbsent →
       ∃ k' y, (k', y) ∈ e ∧ y ≠ PAbsent ∧ nfc_form k = nfc_form k' ∧ same_json x y) →
    (∀ k y, (k, y) ∈ e → y ≠ PAbsent →
       ∃ k' x, (k', x) ∈ d ∧ x ≠ PAbsent ∧ nfc_form k' = nfc_form k ∧ same_json x y) →
    same_json (PDict d) (PDict e).
Set Elimination Schemes.

(** A value the canonicalizer accepts. *)
Definition portable (v : pyval) : Prop := ∃ r w, snap_of v w ∧ sized r w.

Lemma portable_list l : portable (PList l) → Forall portable l.
Proof.
  intros (r & w & Hw & Hs). inversion Hw as [| | | | | |? m Hm|]; subst. apply Forall_forall.
  intros x Hx. apply list_elem_of_lookup_1 in Hx as [i Hi].
  destruct (Forall2_lookup_l _ _ _ _ _ Hm Hi) as (y & Hy & Hxy).
  destruct (sized_list r m y Hs) as [r' ?]; [by eapply list_elem_of_lookup_2|]. by exists r', y.
Qed.

Lemma portable_dict d : portable (PDict d) →
  NoDup (nfc_form <$> d.*1) ∧ Forall (λ p, portable p.2) d.
Proof.
  intros (r & w & Hw & Hs). inversion Hw as [| | | | | | |? e Hnd He]; subst. split.
  - assert (nfc_form <$> d.*1 = e.*1) as ->; [|done]. clear -He.
    induction He as [|[k x] [k' y] d e [Hk _] _ IH]; [done|]. cbn in *. f_equal; [|done].
    by apply nfc_Ok in Hk as (-> & _).
  - apply Forall_forall. intros p Hp. apply list_elem_of_lookup_1 in Hp as [i Hi].
    destruct (Forall2_lookup_l _ _ _ _ _ He Hi) as (q & Hq & _ & Hpq).
    destruct (sized_item r e q Hs) as [r' ?]; [by eapply list_elem_of_lookup_2|]. by exists r', q.2.
Qed.

Lemma portable_number v : portable v → is_number v = true →
  ∃ d, canon v = PDec (canon_num d) ∧ num_of v = num_of (PDec d) ∧
       is_Ok (decimal_text d) = true ∧ number_cost d ≤ MAX_INPUT_BYTES.
Proof.
  intros (r & w & Hw & Hs) Hv. destruct v as [| | |z| |d| | |]; try done; inversion Hw; subst.
  - exists (dec_of_int z). destruct (sized_number (dec_of_int z) r (PInt z)) as (? & ? & ?); eauto.
  - exists d. destruct (sized_number d r (PDec d)) as (? & ? & ?); eauto.
Qed.

Lemma canon_num_ext d e :
  is_Ok (decimal_text d) = true → number_cost d ≤ MAX_INPUT_BYTES → dec_eq d e →
  canon_num d = canon_num e.
Proof.
  unfold number_cost. destruct (decimal_text d) as [t|] eqn:Et; [|done]. intros _ Hl E.
  destruct (canon_num_spec d t Et Hl) as (_ & negative & ip & fp & Hj & _).
  pose proof (scan_number_parts_text t _ _ _ _ [] Hj I) as Es. rewrite app_nil_r in Es.
  unfold canon_num. by rewrite <-(decimal_text_ext d e E), Et, Es.
Qed.

Lemma canon_num_dec_eq d :
  is_Ok (decimal_text d) = true → number_cost d ≤ MAX_INPUT_BYTES → dec_eq (canon_num d) d.
Proof.
  unfold number_cost. destruct (decimal_text d) as [t|] eqn:Et; [|done]. intros _ Hl.
  by apply (canon_num_spec d t).
Qed.

Lemma same_number_iff v w : portable v → portable w → is_number v = true → is_number w = true →
  same_json v w ↔ canon v = canon w.
Proof.
  intros Av Aw Nv Nw. destruct (portable_number v Av Nv) as (d & -> & Ed & Td & Ld).
  destruct (portable_number w Aw Nw) as (e & -> & Ee & Te & Le). split.
  - intros Hs. assert (dec_eq d e) as Hde; [|by rewrite (canon_num_ext d e)].
    unfold dec_eq. rewrite <-Ed, <-Ee. inversion Hs as [| | |? ? p q _ _ Hp Hq Hpq| | |]; subst; try done.
    by rewrite Hp, Hq.
  - intros [= E]. assert (dec_eq d e) as Hde.
    { apply (dec_eq_trans _ (canon_num d)); [by apply dec_eq_sym, canon_num_dec_eq|].
      rewrite E. by apply canon_num_dec_eq. }
    unfold dec_eq in Hde. rewrite <-Ed, <-Ee in Hde.
    destruct (num_of v) as [[p| |]|] eqn:Ev, (num_of w) as [[q| |]|] eqn:Ew; try done.
    by eapply same_number.
Qed.

(** The members of a canonical object. *)
Definition canon_members (d : list (pystr * pyval)) : list (pystr * pyval) :=
  present is_absent ((λ p, (nfc_form p.1, canon p.2)) <$> d).

Lemma canon_members_elem d k y :
  (k, y) ∈ canon_members d ↔
  ∃ k' x, (k', x) ∈ d ∧ x ≠ PAbsent ∧ k = nfc_form k' ∧ y = canon x.
Proof.
  unfold canon_members, present. rewrite list_elem_of_filter, list_elem_of_fmap. cbn [snd]. split.
  - intros (Ha & [k' x] & [= -> ->] & Hin). rewrite canon_is_absent in Ha.
    exists k', x. split_and!; try done. by intros ->.
  - intros (k' & x & Hin & Hx & -> & ->). rewrite canon_is_absent. split; [by destruct x|].
    by exists (k', x).
Qed.

Lemma canon_members_keys d : NoDup (nfc_form <$> d.*1) → NoDup (canon_members d).*1.
Proof.
  intros Hd. eapply sublist_NoDup; [exact Hd|].
  replace (nfc_form <$> d.*1) with ((λ p, (nfc_form p.1, canon p.2)) <$> d).*1
    by (by rewrite <-!list_fmap_compose).
  unfold canon_members, present. induction ((λ p, (nfc_form p.1, canon p.2)) <$> d) as [|p l IH]; [done|].
  rewrite filter_cons. case_decide; cbn; by constructor.
Qed.

(** Sorting forgets the order, and nothing else. *)
Lemma sort_fields_members {A} (f g : list (pystr * A)) :
  NoDup f.*1 → NoDup g.*1 → (∀ p, p ∈ f ↔ p ∈ g) ↔ sort_fields f = sort_fields g.
Proof.
  intros Hf Hg. split.
  - intros E. assert (Transitive (λ g h : pystr * A, str_leb g.1 h.1 = true)).
    { intros x y z. apply str_leb_trans. }
    apply (Sorted_unique_strong (λ g h, str_leb g.1 h.1 = true)); [|apply sort_fields_Sorted..|].
    + intros [k x] [k' y] Hx Hy Hxy Hyx. cbn in Hxy, Hyx.
      rewrite sort_fields_perm in Hx, Hy. apply E in Hx.
      assert (k = k') as -> by by apply str_leb_antisym.
      f_equal. by apply (key_unique k' g).
    + rewrite !sort_fields_perm. apply NoDup_Permutation; [by eapply NoDup_fmap_1..|done].
  - intros E p. rewrite <-(sort_fields_perm f), <-(sort_fields_perm g). by rewrite E.
Qed.

Lemma same_dict_iff d e :
  Forall (λ p, ∀ w, portable p.2 → portable w → same_json p.2 w ↔ canon p.2 = canon w) d →
  portable (PDict d) → portable (PDict e) → same_json (PDict d) (PDict e) ↔ canon (PDict d) = canon (PDict e).
Proof.
  intros IH (Nd & Ad)%portable_dict (Ne & Ae)%portable_dict. rewrite Forall_forall in IH, Ad, Ae.
  trans (∀ p, p ∈ canon_members d ↔ p ∈ canon_members e).
  2: { rewrite sort_fields_members by (by apply canon_members_keys). cbn [canon].
       unfold canon_members. split; [by intros ->|by intros [= ?]]. }
  split.
  - intros Hs. inversion Hs as [| | |? ? ? ? Hn| | |? ? Hl Hr]; subst; [done|].
    intros [k y]. rewrite !canon_members_elem. split.
    + intros (k' & x & Hin & Hx & -> & ->). destruct (Hl k' x Hin Hx) as (k2 & y & Hy & ? & ? & Hs').
      exists k2, y. split_and!; try done. apply (IH (k', x)); [done|by apply Ad|by apply (Ae (k2, y))|done].
    + intros (k' & y' & Hin & Hy & -> & ->). destruct (Hr k' y' Hin Hy) as (k2 & x & Hx & ? & ? & Hs').
      exists k2, x. split_and!; try done.
      symmetry. apply (IH (k2, x)); [done|by apply (Ad (k2, x))|by apply (Ae (k', y'))|done].
  - intros E. apply same_dict.
    + intros k x Hin Hx. destruct (E (nfc_form k, canon x)) as [E' _].
      rewrite !canon_members_elem in E'. destruct E' as (k' & y & Hy & ? & ? & Exy); [by exists k, x|].
      exists k', y. split_and!; try done. by apply (IH (k, x)); [|apply Ad|apply (Ae (k', y))|].
    + intros k y Hin Hy. destruct (E (nfc_form k, canon y)) as [_ E'].
      rewrite !canon_members_elem in E'. destruct E' as (k' & x & Hx & ? & ? & Exy); [by exists k, y|].
      exists k', x. split_and!; try done. by apply (IH (k', x)); [|apply (Ad (k', x))|apply (Ae (k, y))|].
Qed.

(** Accepted values have the same canonical form exactly when they denote the
    same document. *)
Lemma same_json_canon v : ∀ w, portable v → portable w → same_json v w ↔ canon v = canon w.
Proof.
  induction v as [| |b|z|f|d|s|l IH|d IH] using pyval_ind'; intros w Av Aw.
  4, 6: destruct (is_number w) eqn:Nw; [by apply same_number_iff|];
    (split; [intros Hs; inversion Hs; subst; congruence|by destruct w]).
  4: by destruct Av as (? & ? & Hf & _); inversion Hf.
  all: (destruct w; try by (split; [intros Hs; inversion Hs; subst; done|done])).
  - split; [done|constructor].
  - split; [done|constructor].
  - split; [intros Hs; inversion Hs; subst; done|intros [= ->]; constructor].
  - split; [intros Hs; inversion Hs; subst; [done|by cbn; f_equal]|intros [= ?]; by constructor].
  - apply portable_list in Av, Aw. trans (Forall2 same_json l l0).
    { split; [intros Hs; inversion Hs; subst; done|by constructor]. }
    trans (canon <$> l = canon <$> l0); [|split; [by cbn; intros ->|by intros [= ?]]].
    revert l0 Aw. induction IH as [|x l Hx _ IHl]; intros [|y m] Aw;
      try by (split; [intros E; inversion E|done]).
    apply Forall_cons in Av as [Ax Al], Aw as [Ay Am].
    rewrite Forall2_cons, (Hx y Ax Ay), (IHl Al m Am). cbn. split; [by intros [-> ->]|by intros [= -> ->]].
  - by apply same_dict_iff.
Qed.

Lemma canonical_json_tree_same v w b c :
  canonical_json_tree v = Ok b → canonical_json_tree w = Ok c → (b = c ↔ same_json v w).
Proof.
  intros Hv Hw. destruct (canonical_json_tree_sized v b Hv) as (v' & Sv & Zv & Bv & Pv).
  destruct (canonical_json_tree_sized w c Hw) as (w' & Sw & Zw & Bw & Pw).
  rewrite same_json_canon by (by eexists _, _).
  rewrite <-(snap_of_canon v v' Sv), <-(snap_of_canon w w' Sw). split; [congruence|].
  intros E. apply canonical_bytes_canon in Bv, Bw; [congruence|done..].
Qed.

(** C27: Canonical bytes are a faithful encoding.  Parsing the canonical bytes of a
    value returns its canonical form (keys sorted and normalized, absent members
    dropped, numbers with their exact value), the canonical form has the same
    canonical bytes, and it denotes the same document as the value. *)
Theorem canonical_json_round_trip v b :
  canonical_json_tree v = Ok b →
  parse_json b = Ok (canon v) ∧ canonical_json_tree (canon v) = Ok b ∧ same_json v (canon v).
Proof.
  intros Hb. pose proof (canonical_json_tree_stable v b Hb) as Hc. split_and!; [|done|].
  - by apply canonical_json_tree_round_trip.
  - by apply (canonical_json_tree_same v (canon v) b b).
Qed.

(** C11: Two values have the same canonical bytes exactly when they denote the
    same document: numbers of the same value however they are spelled, texts of
    the same NFC form, arrays that agree element by element, and objects with the
    same present members under the same NFC names in any order.  So a hash of the
    bytes identifies the document. *)
Theorem canonical_json_injective v w b c :
  canonical_json_tree v = Ok b → canonical_json_tree w = Ok c → (b = c ↔ same_json v w).
Proof. apply canonical_json_tree_same. Qed.
End canonical_facts.

(** ** Examples *)
Definition sample_document : pyval :=
  PDict [(u "b", PList [PInt 100; PDec (DFinite true 2500 (-3)); PNone]); (u "gone", PAbsent);
         (u "a", PStr [34; 10; 233])].

Definition sample_bytes : pybytes :=
  [123; 34; 97; 34; 58; 34; 92; 34; 92; 110; 195; 169; 34; 44; 34; 98; 34; 58; 91; 49; 48; 48; 44;
   45; 50; 46; 53; 44; 110; 117; 108; 108; 93; 125].

Lemma canonical_json_round_trip_witness :
  parse_json (H := plain_unicode) sample_bytes = Ok (canon (H := plain_unicode) sample_document) ∧
  canonical_json_tree (H := plain_unicode) (canon (H := plain_unicode) sample_document)
    = Ok sample_bytes ∧
  same_json (H := plain_unicode) sample_document (canon (H := plain_unicode) sample_document).
Proof.
  apply (canonical_json_round_trip (H := plain_unicode)). vm_compute. reflexivity.
Defined.

Definition number_members : pyval := PDict [(u "n", PInt 1); (u "gone", PAbsent)].
Definition spelled_members : pyval := PDict [(u "n", PDec (DFinite false 10 (-1)))].

Lemma canonical_json_injective_witness :
  (sample_bytes = sample_bytes ↔ same_json (H := plain_unicode) sample_document sample_document) ∧
  same_json (H := plain_unicode) number_members spelled_members.
Proof.
  split.
  - apply (canonical_json_injective (H := plain_unicode)); vm_compute; reflexivity.
  - refine (proj1 (canonical_json_injective (H := plain_unicode) _ _ _ _ _ _) eq_refl);
      vm_compute; reflexivity.
Defined.
