(* ===== verification/Snapshot.v ===== *)
(** * Snapshots of shared and cyclic objects

    [_snapshot_value] walks the caller's objects once per identity.  On objects
    without sharing it computes what the reference walk computes; in general its
    result is the snapshot of the value the objects denote, charged as if every
    shared object were written out. *)

From stdpp Require Import base list list_numbers numbers strings gmap.
From S2P Require Import Prelude PyString Errors PyValue Decimal Unicode Interfaces CanonicalJson.
From S2P Require Import JsonRoundTrip CanonicalFacts.
Open Scope Z_scope.

Definition val_of_scalar (s : scalar) : pyval :=
  match s with
  | SAbsent => PAbsent | SNone => PNone | SBool b => PBool b | SInt z => PInt z
  | SFloat f => PFloat f | SDec d => PDec d | SStr s => PStr s
  end.

(** The value an object denotes; there is none for a cycle. *)
Unset Elimination Schemes.
Inductive unfolds (h : heap) : pyref → pyval → Prop :=
| unfolds_scalar s : unfolds h (RScalar s) (val_of_scalar s)
| unfolds_mapping l items d :
    h !! l = Some (HMapping items) →
    Forall2 (λ i p, i.1 = KStr p.1 ∧ unfolds h i.2 p.2) items d → unfolds h (RLoc l) (PDict d)
| unfolds_sequence l items vs :
    h !! l = Some (HSequence items) → Forall2 (unfolds h) items vs → unfolds h (RLoc l) (PList vs).
Set Elimination Schemes.

Section snapshot.
Context `{UnicodeData}.

(** [w] is the snapshot of what [r] denotes. *)
Definition snapshot_of (h : heap) (r : pyref) (w : pyval) : Prop := ∃ v, unfolds h r v ∧ snap_of v w.

Definition memo_ok (h : heap) (m : gmap positive (pyval * Z)) : Prop :=
  ∀ l w c, m !! l = Some (w, c) → snapshot_of h (RLoc l) w ∧ c = cost w.

(** What one visit establishes. *)
Definition visit_ok (h : heap) (st : vstate) (r : pyref) (w : pyval) (st' : vstate) : Prop :=
  snapshot_of h r w ∧ used st' = used st + cost w ∧ active st' = active st ∧ memo_ok h (memo st') ∧
  used st' ≤ MAX_INPUT_BYTES.

Lemma charge_state_Ok a st st' :
  charge_state a st = Ok st' →
  used st' = used st + a ∧ active st' = active st ∧ memo st' = memo st ∧ used st' ≤ MAX_INPUT_BYTES.
Proof. unfold charge_state. intros Hc. inv_ok. apply charge_Ok in Hx as [-> ?]. done. Qed.

Lemma visit_array_heap h f items :
  (∀ r st w st', memo_ok h (memo st) → f r st = Ok (w, st') → visit_ok h st r w st') →
  ∀ acc st vs st', memo_ok h (memo st) → visit_array charge_state f acc items st = Ok (vs, st') →
  ∃ ws, vs = acc ++ ws ∧ Forall2 (snapshot_of h) items ws ∧
    used st' = used st + Zsum ((λ x, 1 + cost x) <$> ws) ∧ active st' = active st ∧
    memo_ok h (memo st') ∧ (used st ≤ MAX_INPUT_BYTES → used st' ≤ MAX_INPUT_BYTES).
Proof.
  intros Hf. induction items as [|r items IH]; intros acc st vs st' Hm Hv; cbn [visit_array] in Hv.
  { inv_ok. exists []. rewrite app_nil_r. cbn. split_and!; [done|constructor|lia|done|done|done]. }
  apply bind_Ok_iff in Hv as (_ & _ & Hv). apply bind_Ok_iff in Hv as (st1 & H1 & Hv).
  apply bind_Ok_iff in Hv as ([child st2] & H2 & Hv).
  apply charge_state_Ok in H1 as (U1 & A1 & M1 & _).
  destruct (Hf r st1 child st2) as (Hs & U2 & A2 & Hm2 & B2); [by rewrite M1|done|].
  destruct (IH _ _ _ _ Hm2 Hv) as (ws & -> & HF & U3 & A3 & Hm3 & B3).
  exists (child :: ws). rewrite <-app_assoc.
  split_and!; [done|by constructor|unfold Zsum in *; cbn [fmap list_fmap foldr]; lia|congruence|done|auto].
Qed.

Lemma visit_items_heap h f items :
  (∀ r st w st', memo_ok h (memo st) → f r st = Ok (w, st') → visit_ok h st r w st') →
  ∀ acc st vs st', NoDup acc.*1 → memo_ok h (memo st) →
  visit_items charge_state (λ i, f i.2) acc fst items st = Ok (vs, st') →
  ∃ ws, vs = acc ++ ws ∧ NoDup vs.*1 ∧
    Forall2 (λ i q, ∃ s, i.1 = KStr s ∧ nfc "invalid_string" s = Ok q.1 ∧ snapshot_of h i.2 q.2) items ws ∧
    used st' = used st + Zsum ((λ p, utf8_size p.1 + 4 + cost p.2) <$> ws) ∧ active st' = active st ∧
    memo_ok h (memo st') ∧ (used st ≤ MAX_INPUT_BYTES → used st' ≤ MAX_INPUT_BYTES).
Proof.
  intros Hf. induction items as [|[k r] items IH]; intros acc st vs st' Hnd Hm Hv; cbn [visit_items] in Hv.
  { inv_ok. exists []. rewrite app_nil_r. cbn. split_and!; [done|done|constructor|lia|done|done|done]. }
  apply bind_Ok_iff in Hv as (_ & _ & Hv). apply bind_Ok_iff in Hv as (raw & Hraw & Hv).
  apply bind_Ok_iff in Hv as (key & Hkey & Hv).
  apply bind_Ok_iff in Hv as (_ & Hdup%raise_if_Ok_iff & Hv). refl_bool.
  apply bind_Ok_iff in Hv as (st1 & H1 & Hv). apply bind_Ok_iff in Hv as ([child st2] & H2 & Hv).
  cbn [fst snd] in *. destruct k as [s|]; [|done]. inv_ok.
  apply charge_state_Ok in H1 as (U1 & A1 & M1 & _).
  destruct (Hf r st1 child st2) as (Hs & U2 & A2 & Hm2 & B2); [by rewrite M1|done|].
  destruct (IH _ _ _ _ (NoDup_snoc_key _ _ _ Hnd Hdup) Hm2 Hv) as (ws & -> & Hnd' & HF & U3 & A3 & Hm3 & B3).
  exists ((key, child) :: ws). rewrite <-app_assoc in *.
  split_and!; [done|done|constructor; [eauto|done]
              |unfold Zsum in *; cbn [fmap list_fmap foldr fst snd]; lia|congruence|done|auto].
Qed.

Lemma snapshot_sequence h l items ws :
  h !! l = Some (HSequence items) → Forall2 (snapshot_of h) items ws →
  snapshot_of h (RLoc l) (PList ws).
Proof.
  intros Hl (vs & Hu & Hs)%Forall2_middle. exists (PList vs).
  split; [by eapply unfolds_sequence|by constructor].
Qed.

Lemma snapshot_mapping h l items ws :
  h !! l = Some (HMapping items) → NoDup ws.*1 →
  Forall2 (λ i q, ∃ s, i.1 = KStr s ∧ nfc "invalid_string" s = Ok q.1 ∧ snapshot_of h i.2 q.2) items ws →
  snapshot_of h (RLoc l) (PDict ws).
Proof.
  intros Hl Hnd HF.
  assert (Forall2 (λ i q, ∃ p, (i.1 = KStr p.1 ∧ unfolds h i.2 p.2) ∧
    (nfc "invalid_string" p.1 = Ok q.1 ∧ snap_of p.2 q.2)) items ws) as HF'.
  { eapply Forall2_impl; [exact HF|]. intros i q (s & ? & ? & v & ? & ?). by exists (s, v). }
  apply Forall2_middle in HF' as (d & Hu & Hs). exists (PDict d).
  split; [by eapply unfolds_mapping|by constructor].
Qed.

Lemma visit_scalar_heap h s w c : visit_scalar s = Ok (w, c) → snapshot_of h (RScalar s) w ∧ c = cost w.
Proof.
  intros Hv. destruct (visit_scalar_spec (val_of_scalar s) s w c) as (-> & Hs & _);
    [by destruct s|done|]. split; [|done]. exists (val_of_scalar s). split; [constructor|done].
Qed.

(** Every visit: the snapshot of what the object denotes, at its full cost. *)
Lemma visit_sound h rest : ∀ r st w st',
  memo_ok h (memo st) → visit h rest r st = Ok (w, st') → visit_ok h st r w st'.
Proof.
  induction rest as [|rest IH]; intros r st w st' Hm Hv; destruct r as [s|l]; cbn [visit] in Hv.
  - apply bind_Ok_iff in Hv as ([w' c] & Hs & Hv). apply bind_Ok_iff in Hv as (st1 & Hc & Hv). inv_ok.
    apply (visit_scalar_heap h) in Hs as [Hs ->].
    apply charge_state_Ok in Hc as (? & ? & M & ?). split_and!; try done. by rewrite M.
  - by destruct (h !! l).
  - apply bind_Ok_iff in Hv as ([w' c] & Hs & Hv). apply bind_Ok_iff in Hv as (st1 & Hc & Hv). inv_ok.
    apply (visit_scalar_heap h) in Hs as [Hs ->].
    apply charge_state_Ok in Hc as (? & ? & M & ?). split_and!; try done. by rewrite M.
  - destruct (h !! l) as [c|] eqn:El; [|done].
    apply bind_Ok_iff in Hv as (_ & Ha%raise_if_Ok_iff & Hv). refl_bool.
    destruct (memo st !! l) as [[w' cost']|] eqn:Em.
    { apply bind_Ok_iff in Hv as (st1 & Hc & Hv). inv_ok. destruct (Hm _ _ _ Em) as [Hs ->].
      apply charge_state_Ok in Hc as (? & ? & M & ?). split_and!; try done. by rewrite M. }
    apply bind_Ok_iff in Hv as (st1 & Hc & Hv). apply charge_state_Ok in Hc as (U1 & A1 & M1 & B1).
    apply bind_Ok_iff in Hv as ([snap st2] & Hbody & Hv). inv_ok. cbn [used active memo] in *.
    assert (snapshot_of h (RLoc l) w ∧ used st2 = used st + cost w ∧ active st2 = active st1 ∧
            memo_ok h (memo st2) ∧ used st2 ≤ MAX_INPUT_BYTES) as (Hs & U2 & A2 & Hm2 & B2).
    { destruct c as [items|items]; apply bind_Ok_iff in Hbody as ([vs st3] & Hb & Hbody); inv_ok.
      - apply (visit_items_heap h (visit h rest)) in Hb as (ws & -> & Hnd & HF & U & A & M & B);
          [|done|constructor|by rewrite M1].
        cbn [app] in *. split_and!; [by eapply snapshot_mapping|cbn [cost]; lia|done|done|auto].
      - apply (visit_array_heap h (visit h rest)) in Hb as (ws & -> & HF & U & A & M & B);
          [|done|by rewrite M1].
        cbn [app] in *. split_and!; [by eapply snapshot_sequence|cbn [cost]; lia|done|done|auto]. }
    unfold visit_ok. cbn [used active memo]. split_and!; [done|done|rewrite A2, A1; set_solver| |done].
    intros l' w' c' Hl'. apply lookup_insert_Some in Hl' as [[<- [= <- <-]]|[_ Hl']]; [|by apply Hm2].
    split; [done|lia].
Qed.

(** ** Objects without sharing *)

(** [rep h r v L]: [r] is a tree of objects for [v] at the identities [L]. *)
Unset Elimination Schemes.
Inductive rep (h : heap) : pyref → pyval → list positive → Prop :=
| rep_scalar s v : scalar_of v = Some s → rep h (RScalar s) v []
| rep_mapping l items d Ls :
    h !! l = Some (HMapping items) →
    Forall3 (λ i p L, i.1 = KStr p.1 ∧ rep h i.2 p.2 L) items d Ls →
    rep h (RLoc l) (PDict d) (l :: concat Ls)
| rep_sequence l items vs Ls :
    h !! l = Some (HSequence items) → Forall3 (rep h) items vs Ls →
    rep h (RLoc l) (PList vs) (l :: concat Ls).
Set Elimination Schemes.

(** The identities of [L] have not been seen yet. *)
Definition unseen (L : list positive) (st : vstate) : Prop :=
  ∀ l, l ∈ L → (l ∉ active st) ∧ memo st !! l = None.

(** The visit of a tree at the identities [L], against the reference walk. *)
Definition matches {A} (L : list positive) (st : vstate) (m : py (A * vstate)) (r : py (A * Z)) : Prop :=
  match r with
  | Raise e => m = Raise e
  | Ok (w, n) => ∃ memo', m = Ok (w, {| used := n; active := active st; memo := memo' |}) ∧
      ∀ l, l ∉ L → memo' !! l = memo st !! l
  end.

Lemma unseen_app L L' st : unseen (L ++ L') st ↔ unseen L st ∧ unseen L' st.
Proof. unfold unseen. setoid_rewrite elem_of_app. naive_solver. Qed.

Lemma charge_matches a st :
  charge_state a st = (n ← charge a (used st); Ok {| used := n; active := active st; memo := memo st |}).
Proof. done. Qed.

(** After one child, the siblings are still unseen. *)
Lemma unseen_after (L L' : list positive) st memo' n :
  unseen L' st → (∀ l, l ∉ L → memo' !! l = memo st !! l) → (∀ l, l ∈ L → l ∉ L') →
  unseen L' {| used := n; active := active st; memo := memo' |}.
Proof.
  intros Hu Hm Hd l Hl. destruct (Hu l Hl) as [? Hn]. split; [done|]. cbn.
  rewrite Hm; [done|]. intros Hl'. by apply (Hd l).
Qed.

Lemma visit_array_tree (f : pyref → vstate → py (pyval * vstate)) (g : pyval → Z → py (pyval * Z)) items vs Ls :
  Forall3 (λ i v L, ∀ st, NoDup L → unseen L st → matches L st (f i st) (g v (used st))) items vs Ls →
  ∀ acc st, NoDup (concat Ls) → unseen (concat Ls) st →
  matches (concat Ls) st (visit_array charge_state f acc items st) (visit_array charge g acc vs (used st)).
Proof.
  induction 1 as [|i v L items vs Ls Hi _ IH]; intros acc st Hnd Hun; cbn [visit_array].
  { cbn. exists (memo st). by destruct st. }
  cbn [concat] in *. apply NoDup_app in Hnd as (HnL & Hdis & HnLs). apply unseen_app in Hun as [HuL HuLs].
  destruct (MAX_ARRAY_ITEMS <=? length acc)%nat; [done|]. cbn [raise_if mbind result_bind].
  rewrite charge_matches. destruct (charge 1 (used st)) as [n|e] eqn:Ec; [|done]. cbn [mbind result_bind].
  set (st1 := {| used := n; active := active st; memo := memo st |}).
  specialize (Hi st1 HnL HuL). change (used st1) with n in Hi.
  destruct (g v n) as [[w m]|e]; cbn [matches] in Hi; [|by rewrite Hi].
  destruct Hi as (memo' & -> & Hmemo). cbn [mbind result_bind].
  set (st2 := {| used := m; active := active st1; memo := memo' |}).
  specialize (IH (acc ++ [w]) st2 HnLs).
  assert (unseen (concat Ls) st2) as Hu2 by (by apply (unseen_after L)).
  specialize (IH Hu2). change (used st2) with m in IH.
  destruct (visit_array charge g (acc ++ [w]) vs m) as [[ws k]|e]; cbn [matches] in *; [|done].
  destruct IH as (memo'' & -> & Hm'). exists memo''. split; [done|].
  intros l [Hl Hl']%not_elem_of_app. by rewrite Hm', Hmemo.
Qed.

Lemma visit_items_tree (f : pyref → vstate → py (pyval * vstate)) (g : pyval → Z → py (pyval * Z)) items d Ls :
  Forall3 (λ i p L, i.1 = KStr p.1 ∧
    ∀ st, NoDup L → unseen L st → matches L st (f i.2 st) (g p.2 (used st))) items d Ls →
  ∀ acc st, NoDup (concat Ls) → unseen (concat Ls) st →
  matches (concat Ls) st (visit_items charge_state (λ i, f i.2) acc fst items st)
    (visit_items charge (λ p, g p.2) acc (λ p, KStr p.1) d (used st)).
Proof.
  induction 1 as [|[k i] [s v] L items d Ls [Hk Hi] _ IH]; intros acc st Hnd Hun; cbn [visit_items].
  { cbn. exists (memo st). by destruct st. }
  cbn [concat fst snd] in *. subst k.
  apply NoDup_app in Hnd as (HnL & Hdis & HnLs). apply unseen_app in Hun as [HuL HuLs].
  destruct (MAX_OBJECT_KEYS <? S (length acc))%nat; [done|]. cbn [raise_if mbind result_bind].
  destruct (nfc "invalid_string" s) as [key|]; [|done]. cbn [mbind result_bind].
  destruct (bool_decide (key ∈ acc.*1)); [done|]. cbn [raise_if mbind result_bind].
  rewrite charge_matches. destruct (charge _ (used st)) as [n|e] eqn:Ec; [|done]. cbn [mbind result_bind].
  set (st1 := {| used := n; active := active st; memo := memo st |}).
  specialize (Hi st1 HnL HuL). change (used st1) with n in Hi.
  destruct (g v n) as [[w m]|e]; cbn [matches] in Hi; [|by rewrite Hi].
  destruct Hi as (memo' & -> & Hmemo). cbn [mbind result_bind].
  set (st2 := {| used := m; active := active st1; memo := memo' |}).
  specialize (IH (acc ++ [(key, w)]) st2 HnLs).
  assert (unseen (concat Ls) st2) as Hu2 by (by apply (unseen_after L)).
  specialize (IH Hu2). change (used st2) with m in IH.
  destruct (visit_items charge _ (acc ++ [(key, w)]) _ d m) as [[ws q]|e]; cbn [matches] in *; [|done].
  destruct IH as (memo'' & -> & Hm'). exists memo''. split; [done|].
  intros l [Hl Hl']%not_elem_of_app. by rewrite Hm', Hmemo.
Qed.

Lemma Forall3_impl_Forall {A B C} (R S : A → B → C → Prop) (P : B → Prop) l k m :
  Forall P k → Forall3 R l k m → (∀ x y z, P y → R x y z → S x y z) → Forall3 S l k m.
Proof. intros HP HR HS. induction HR; constructor; apply Forall_cons in HP as [??]; auto. Qed.

Lemma visit_scalar_tree h v s rest st :
  scalar_of v = Some s → matches [] st (visit h rest (RScalar s) st) (snapshot_tree rest v (used st)).
Proof.
  intros Hs.
  assert (snapshot_tree rest v (used st)
          = ('(w, c) ← visit_scalar s; n ← charge c (used st); Ok (w, n))) as ->.
  { destruct v; cbn in Hs; simplify_eq; done. }
  replace (visit h rest (RScalar s) st) with
    ('(w, c) ← visit_scalar s; st ← charge_state c st; Ok (w, st)) by (by destruct rest).
  destruct (visit_scalar s) as [[w c]|]; [|done]. cbn [mbind result_bind].
  rewrite charge_matches. destruct (charge c (used st)); [|done]. cbn. by exists (memo st).
Qed.

(** Entering a container: the walk below it, then the memo entry. *)
Definition body_of (h : heap) (rest : nat) (c : container) (st : vstate) : py (pyval * vstate) :=
  match c with
  | HMapping items =>
      '(captured, st) ← visit_items charge_state (λ i, visit h rest i.2) [] fst items st;
      Ok (PDict captured, st)
  | HSequence items =>
      '(values, st) ← visit_array charge_state (visit h rest) [] items st; Ok (PList values, st)
  end.

Lemma visit_container_tree h rest l c Ls st (body : Z → py (pyval * Z)) :
  h !! l = Some c → l ∉ concat Ls → unseen (l :: concat Ls) st →
  (∀ st', unseen (concat Ls) st' → matches (concat Ls) st' (body_of h rest c st') (body (used st'))) →
  matches (l :: concat Ls) st (visit h (S rest) (RLoc l) st) (n ← charge 2 (used st); body n).
Proof.
  intros Hl Hin Hun Hbody. cbn [visit]. rewrite Hl. destruct (Hun l) as [Ha Hm]; [by left|].
  rewrite bool_decide_false by done. cbn [raise_if mbind result_bind]. rewrite Hm, charge_matches.
  cbn [used active memo]. destruct (charge 2 (used st)) as [n|]; [|done]. cbn [mbind result_bind].
  set (st1 := {| used := n; active := {[l]} ∪ active st; memo := memo st |}).
  change (match c with HMapping items => _ | HSequence items => _ end) with (body_of h rest c st1).
  assert (unseen (concat Ls) st1) as Hun1.
  { intros k Hk. destruct (Hun k) as [? ?]; [by right|]. cbn. set_solver. }
  specialize (Hbody st1 Hun1). change (used st1) with n in Hbody.
  destruct (body n) as [[w m]|e]; cbn [matches] in *; [|by rewrite Hbody].
  destruct Hbody as (memo' & -> & Hmemo). cbn [mbind result_bind used active memo].
  eexists. split; [do 3 f_equal; set_solver|].
  intros k [Hk Hk']%not_elem_of_cons. rewrite lookup_insert_ne by done. by apply Hmemo.
Qed.

(** On a tree of objects the visit is the reference walk. *)
Lemma visit_tree h v : ∀ rest r L st,
  rep h r v L → NoDup L → unseen L st →
  matches L st (visit h rest r st) (snapshot_tree rest v (used st)).
Proof.
  induction v as [| |b|z|f|d|s|l IH|d IH] using pyval_ind'; intros rest r L st Hr Hnd Hun;
    inversion Hr as [? ? Hs|loc items ? Ls Hloc HF|loc items ? Ls Hloc HF]; subst;
    try by apply visit_scalar_tree.
  - destruct rest as [|rest]; [cbn [visit snapshot_tree]; by rewrite Hloc|].
    apply NoDup_cons in Hnd as [Hin Hnd]. cbn [snapshot_tree].
    eapply visit_container_tree; [done..|]. intros st' Hun'. cbn [body_of].
    pose proof (visit_array_tree (visit h rest) (snapshot_tree rest) items l Ls) as Hv.
    specialize (Hv ltac:(eapply Forall3_impl_Forall; [exact IH|exact HF|]; cbn; eauto) [] st' Hnd Hun').
    destruct (visit_array charge _ [] l (used st')) as [[ws m]|e]; cbn [matches] in *; [|by rewrite Hv].
    destruct Hv as (memo' & -> & ?). cbn. eauto.
  - destruct rest as [|rest]; [cbn [visit snapshot_tree]; by rewrite Hloc|].
    apply NoDup_cons in Hnd as [Hin Hnd]. cbn [snapshot_tree].
    eapply visit_container_tree; [done..|]. intros st' Hun'. cbn [body_of].
    pose proof (visit_items_tree (visit h rest) (snapshot_tree rest) items d Ls) as Hv.
    specialize (Hv ltac:(eapply Forall3_impl_Forall; [exact IH|exact HF|]; cbn;
      intros ? ? ? ? [? ?]; eauto) [] st' Hnd Hun').
    destruct (visit_items charge _ [] _ d (used st')) as [[ws m]|e]; cbn [matches] in *; [|by rewrite Hv].
    destruct Hv as (memo' & -> & ?). cbn. eauto.
Qed.

(** On objects that are not shared, [_snapshot_value] and [canonical_json]
    compute exactly what the reference walk computes, errors included. *)
Theorem snapshot_matches_reference h r v L :
  rep h r v L → NoDup L →
  snapshot_value h r = fst <$> snapshot_tree MAX_NESTING_DEPTH v 0 ∧
  canonical_json_at h r = canonical_json_tree v.
Proof.
  intros Hr Hnd. assert (unseen L initial_state) as Hun by (intros l _; done).
  pose proof (visit_tree h v MAX_NESTING_DEPTH r L initial_state Hr Hnd Hun) as Hm.
  unfold canonical_json_at, canonical_json_tree, snapshot_value. change (used initial_state) with 0 in Hm.
  destruct (snapshot_tree _ v 0) as [[w n]|e]; cbn [matches] in Hm.
  - by destruct Hm as (m & -> & _).
  - by rewrite Hm.
Qed.

(** In general the snapshot is that of the value the objects denote, however
    they are shared, and it is charged as if every shared object were written out:
    a small graph of shared containers cannot expand past the byte budget.  In
    particular an object that contains itself is never accepted. *)
Theorem snapshot_denotes h r w :
  snapshot_value h r = Ok w →
  ∃ v, unfolds h r v ∧ snap_of v w ∧ cost w ≤ MAX_INPUT_BYTES.
Proof.
  unfold snapshot_value. intros ([w' st] & Hv & <-)%fmap_Ok_iff.
  apply visit_sound in Hv as ((v & ? & ?) & Hu & _ & _ & Hb); [|by intros l ? ? ?].
  exists v. cbn in Hu |- *. split_and!; [done|done|lia].
Qed.
End snapshot.

(** ** Examples *)

(** A sequence with two separate members. *)
Definition sample_heap : heap :=
  {[ 1%positive := HSequence [RLoc 2; RScalar (SInt 5)];
     2%positive := HMapping [(KStr (u "k"), RScalar (SStr (u "v")))] ]}.

Lemma snapshot_matches_reference_witness :
  canonical_json_at (H := plain_unicode) sample_heap (RLoc 1)
  = canonical_json_tree (H := plain_unicode) (PList [PDict [(u "k", PStr (u "v"))]; PInt 5]).
Proof.
  apply (snapshot_matches_reference (H := plain_unicode) sample_heap (RLoc 1) _ [1; 2]%positive).
  - apply (rep_sequence _ 1 [RLoc 2; RScalar (SInt 5)] _ [[2%positive]; []]); [done|].
    constructor; [|constructor; [by constructor|constructor]].
    apply (rep_mapping _ 2 [(KStr (u "k"), RScalar (SStr (u "v")))] _ [[]]); [done|].
    constructor; [|constructor]. split; [done|by constructor].
  - apply (bool_decide_unpack _). vm_compute. exact I.
Defined.

Lemma snapshot_denotes_witness :
  ∃ v, unfolds sample_heap (RLoc 1) v ∧
       snap_of (H := plain_unicode) v (PList [PDict [(u "k", PStr (u "v"))]; PInt 5]) ∧
       cost (PList [PDict [(u "k", PStr (u "v"))]; PInt 5]) ≤ MAX_INPUT_BYTES.
Proof. apply (snapshot_denotes (H := plain_unicode)). vm_compute. reflexivity. Defined.

(** ** Sharing and the nesting limit *)
Fixpoint unfold_fuel (h : heap) (fuel : nat) (r : pyref) : option pyval :=
  match fuel with
  | O => None
  | S fuel =>
      match r with
      | RScalar s => Some (val_of_scalar s)
      | RLoc l =>
          match h !! l with
          | Some (HSequence items) => PList <$> mapM (unfold_fuel h fuel) items
          | _ => None
          end
      end
  end.

Lemma unfold_fuel_sound h fuel : ∀ r v, unfold_fuel h fuel r = Some v → unfolds h r v.
Proof.
  induction fuel as [|fuel IH]; intros r v Hv; [done|]. cbn [unfold_fuel] in Hv.
  destruct r as [s|l]; [injection Hv as <-; constructor|].
  destruct (h !! l) as [[items|items]|] eqn:El; try done.
  apply fmap_Some in Hv as (vs & Hvs & ->). eapply unfolds_sequence; [done|].
  apply mapM_Some in Hvs. eapply Forall2_impl; [exact Hvs|]. auto.
Qed.

(** [chain a n last]: nested one-element sequences at the identities [a], ...,
    [a + n - 1], the innermost holding [last]. *)
Fixpoint chain (a : positive) (n : nat) (last : list pyref) : list (positive * container) :=
  match n with
  | O => []
  | S O => [(a, HSequence last)]
  | S n => (a, HSequence [RLoc (Pos.succ a)]) :: chain (Pos.succ a) n last
  end.

(** One object nested 20 deep, seen first at depth 1 and again at depth 30. *)
Definition alias_heap : heap :=
  list_to_map ((1%positive, HSequence [RLoc 100; RLoc 200])
               :: chain 100 20 [] ++ chain 200 29 [RLoc 100]).
Definition alias_value : option pyval := unfold_fuel alias_heap 64 (RLoc 1).
Definition alias_bytes : pybytes := 
  u "[[[[[[[[[[[[[[[[[[[[[]]]]]]]]]]]]]]]]]]]],[[[[[[[[[[[[[[[[[[[[[[[[[[[[[[[[[[[[[[[[[[[[[[[[[]]]]]]]]]]]]]]]]]]]]]]]]]]]]]]]]]]]]]]]]]]]]]]]]]]".

(** The nesting limit depends on sharing.  There are objects that
    [canonical_json] accepts although the value they denote is nested deeper than
    the limit: the same value written out without sharing is rejected, and
    [parse_json] rejects the canonical bytes. *)
Theorem nesting_limit_depends_on_sharing `{UnicodeData} :
  ∃ h r v b, unfolds h r v ∧ canonical_json_at h r = Ok b ∧
    canonical_json_tree v = Raise (CanonicalizationError "nesting_too_deep") ∧
    parse_json b = Raise (CanonicalizationError "nesting_too_deep").
Proof.
  destruct alias_value as [v|] eqn:Ev; [|by vm_compute in Ev].
  exists alias_heap, (RLoc 1), v.
  assert (canonical_json_at alias_heap (RLoc 1) = Ok alias_bytes) as Hb by (vm_compute; reflexivity).
  exists alias_bytes. split; [by apply unfold_fuel_sound in Ev|]. split; [done|].
  vm_compute in Ev. injection Ev as <-. split; vm_compute; reflexivity.
Qed.
