(* ===== verification/Approvals.v ===== *)
(** * Approval records of the SDK

    Models [python/src/palonexus/approvals.py]: the immutable view of an approval
    that a transport returned, its validation, and the check that a record follows
    one that was seen before. *)

From stdpp Require Import base list list_numbers numbers strings.
From S2P Require Import Prelude PyString Errors Timestamp PyValue Schemas Decimal Unicode.
From S2P Require Import Structure Wire Interfaces CanonicalJson.
Open Scope Z_scope.

(** ** Attributes of wire objects *)

(** An attribute that is not [None]. *)
Definition given (a : option attr) : option attr :=
  match a with Some (ARaw PNone) => None | a => a end.

(** [str(value.name)].  The attributes the SDK reads this way are strings once
    [validate_structural] has passed. *)
Definition str_of (a : option attr) : py pystr :=
  match given a with
  | Some (AStr s) | Some (ARaw (PStr s)) => Ok s
  | Some _ => Raise TypeError
  | None => Ok (u "None")
  end.

(** [None if value.name is None else str(value.name)]. *)
Definition optional_str (a : option attr) : py (option pystr) :=
  match given a with Some a => Some <$> str_of (Some a) | None => Ok None end.

(** [type(value) is cls]. *)
Definition is_instance (c : dto_class) (v : attr) : bool :=
  match v with ADto cls _ => bool_decide (class_name cls = class_name (class c)) | _ => false end.

(** [value.validate_structural()]; other values have no such method. *)
Definition validate_structural (v : attr) : py () :=
  match v with ADto _ _ => to_dict v;; Ok () | _ => Raise AttributeError end.

(** ** Timestamps *)
Definition parse_timestamp (value : pyval) : py timestamp :=
  match value with
  | PStr s => match rfc3339_value s with Some t => Ok t | None => Raise ValueError end
  | _ => Raise ValueError
  end.

Inductive approval_status := PENDING | APPROVED | DENIED | EXPIRED | CANCELLED.
#[global] Instance approval_status_eq_dec : EqDecision approval_status.
Proof. solve_decision. Defined.

(** [ApprovalStatus(text)]. *)
Definition approval_status_of (s : pystr) : py approval_status :=
  if str_eqb s (u "pending") then Ok PENDING
  else if str_eqb s (u "approved") then Ok APPROVED
  else if str_eqb s (u "denied") then Ok DENIED
  else if str_eqb s (u "expired") then Ok EXPIRED
  else if str_eqb s (u "cancelled") then Ok CANCELLED
  else Raise ValueError.

(** [_parse_timestamp(str(value.name))]. *)
Definition attribute_timestamp (value : attr) (name : string) : py timestamp :=
  s ← str_of (attribute name value); parse_timestamp (PStr s).

Definition validate_record_timestamps (value : attr) : py () :=
  requested ← attribute_timestamp value "requested_at";
  expires ← attribute_timestamp value "expires_at";
  raise_if (timestamp_order expires requested <=? 0) ValueError;;
  text ← str_of (attribute "status" value);
  status ← approval_status_of text;
  if bool_decide (status = PENDING)
  then raise_if (bool_decide (is_Some (given (attribute "decided_at" value)))) ValueError
  else
    raise_if (bool_decide (given (attribute "decided_at" value) = None)) ValueError;;
    decided ← attribute_timestamp value "decided_at";
    if bool_decide (status = EXPIRED)
    then raise_if (timestamp_order decided expires <? 0) ValueError
    else raise_if ((timestamp_order decided requested <? 0)
                   || (0 <=? timestamp_order decided expires)) ValueError.

(** ** Records *)
Record approval := Approval {
  apr_action_id : pystr;
  apr_approval_id : pystr;
  apr_authorization_decision_id : pystr;
  apr_authoritative_scope_hash : pystr;
  apr_correlation_id : pystr;
  apr_creation_audit_ref : pystr;
  apr_decided_at : option pystr;
  apr_expires_at : pystr;
  apr_extensions_canonical : pybytes;
  apr_requested_at : pystr;
  apr_requester_ref : pystr;
  apr_resolution_audit_ref : option pystr;
  apr_resolution_decision_id : option pystr;
  apr_resolution_idempotency_key : option pystr;
  apr_resolution_reason_code : option pystr;
  apr_reviewer_ref : option pystr;
  apr_status : approval_status;
}.

(** [__eq__] compares all slots. *)
#[global] Instance approval_eq_dec : EqDecision approval.
Proof. solve_decision. Defined.

Section approvals.
Context `{Canonicalizer}.

(** The fields that [_from_protocol] sets. *)
Definition approval_fields (value : attr) : py approval :=
  action_id ← str_of (attribute "action_id" value);
  approval_id ← str_of (attribute "approval_id" value);
  authorization_decision_id ← str_of (attribute "authorization_decision_id" value);
  authoritative_scope_hash ← str_of (attribute "authoritative_scope_hash" value);
  correlation_id ← str_of (attribute "correlation_id" value);
  creation_audit_ref ← str_of (attribute "creation_audit_ref" value);
  decided_at ← optional_str (attribute "decided_at" value);
  expires_at ← str_of (attribute "expires_at" value);
  extensions_canonical ← canonical_json (match attribute "extensions" value with
                                         | Some (ARaw v) => v | _ => PNone end);
  requested_at ← str_of (attribute "requested_at" value);
  requester_ref ← str_of (attribute "requester_ref" value);
  resolution_audit_ref ← optional_str (attribute "resolution_audit_ref" value);
  resolution_decision_id ← optional_str (attribute "resolution_decision_id" value);
  resolution_idempotency_key ← optional_str (attribute "resolution_idempotency_key" value);
  resolution_reason_code ← optional_str (attribute "resolution_reason_code" value);
  reviewer_ref ← optional_str (attribute "reviewer_ref" value);
  text ← str_of (attribute "status" value);
  status ← approval_status_of text;
  Ok (Approval action_id approval_id authorization_decision_id authoritative_scope_hash correlation_id
        creation_audit_ref decided_at expires_at extensions_canonical requested_at requester_ref
        resolution_audit_ref resolution_decision_id resolution_idempotency_key resolution_reason_code
        reviewer_ref status).

Definition approval_from_protocol (value : attr) : py approval :=
  except_raise is_exception (bare_error CInvalidDecision)
    (raise_if (negb (is_instance ApprovalRecord value)) TypeError;;
     validate_structural value;;
     validate_record_timestamps value;;
     approval_fields value).

(** ** Transitions *)

(** The fields [_validate_transition] compares first. *)
Definition approval_binding (a : approval)
    : pystr * pystr * pystr * pystr * pystr * pystr * pystr * pystr * pystr * pybytes :=
  (apr_approval_id a, apr_action_id a, apr_correlation_id a, apr_authoritative_scope_hash a,
   apr_requested_at a, apr_expires_at a, apr_requester_ref a, apr_authorization_decision_id a,
   apr_creation_audit_ref a, apr_extensions_canonical a).

Definition validate_transition (expected current : approval) : py () :=
  raise_if (negb (bool_decide (approval_binding expected = approval_binding current)))
    (bare_error CApprovalScopeMismatch);;
  if bool_decide (apr_status expected = PENDING)
  then raise_if (bool_decide (apr_status current = PENDING) && negb (bool_decide (current = expected)))
         (bare_error CInvalidDecision)
  else raise_if (negb (bool_decide (current = expected))) (bare_error CInvalidDecision).

End approvals.

(** ** What a record guarantees *)

(** A pending record has no decision; an expired one is decided after its lifetime
    and any other one inside of it. *)
Definition decision_ok (status : approval_status) (requested expires : timestamp)
    (decided_at : option pystr) : Prop :=
  if bool_decide (status = PENDING) then decided_at = None
  else ∃ text decided, decided_at = Some text ∧ rfc3339_value text = Some decided ∧
         if bool_decide (status = EXPIRED) then 0 ≤ timestamp_order decided expires
         else 0 ≤ timestamp_order decided requested ∧ timestamp_order decided expires < 0.

(** A record expires after it was requested. *)
Definition approval_wf (a : approval) : Prop :=
  ∃ requested expires,
    rfc3339_value (apr_requested_at a) = Some requested ∧ rfc3339_value (apr_expires_at a) = Some expires ∧
    0 < timestamp_order expires requested ∧
    decision_ok (apr_status a) requested expires (apr_decided_at a).

Lemma parse_timestamp_Ok v t : parse_timestamp v = Ok t ↔ ∃ s, v = PStr s ∧ rfc3339_value s = Some t.
Proof.
  destruct v; cbn; try (split; [done|by intros (? & ? & ?)]).
  destruct (rfc3339_value s) eqn:E; split.
  - intros [= ->]. by exists s.
  - intros (? & [= <-] & H). congruence.
  - done.
  - intros (? & [= <-] & H). congruence.
Qed.

Lemma attribute_timestamp_Ok v name t :
  attribute_timestamp v name = Ok t ↔ ∃ s, str_of (attribute name v) = Ok s ∧ rfc3339_value s = Some t.
Proof.
  unfold attribute_timestamp. rewrite bind_Ok_iff. setoid_rewrite parse_timestamp_Ok. naive_solver.
Qed.

Lemma optional_str_given a s : optional_str a = Ok s → is_Some (given a) → ∃ t, s = Some t ∧ str_of a = Ok t.
Proof.
  unfold optional_str, str_of. destruct (given a) as [x|] eqn:E; [|by intros _ [? ?]].
  assert (given (Some x) = Some x) as -> by (destruct a as [[| |[]|]|]; cbn in *; naive_solver).
  intros H _. destruct x as [t| |[]|]; naive_solver.
Qed.

Section facts.
Context `{Canonicalizer}.

Lemma approval_from_protocol_inv v a :
  approval_from_protocol v = Ok a →
  is_instance ApprovalRecord v = true ∧ (∃ d, to_dict v = Ok d) ∧
  validate_record_timestamps v = Ok () ∧ approval_fields v = Ok a.
Proof.
  unfold approval_from_protocol, validate_structural. intros Hv%except_raise_Ok. inv_ok. refl_bool.
  destruct v; inv_ok. eauto.
Qed.

(** The part of the validation that depends on the status. *)
Lemma decision_wf v status requested expires decided_at :
  (if bool_decide (status = PENDING)
   then raise_if (bool_decide (is_Some (given (attribute "decided_at" v)))) ValueError
   else
     raise_if (bool_decide (given (attribute "decided_at" v) = None)) ValueError;;
     decided ← attribute_timestamp v "decided_at";
     if bool_decide (status = EXPIRED)
     then raise_if (timestamp_order decided expires <? 0) ValueError
     else raise_if ((timestamp_order decided requested <? 0)
                    || (0 <=? timestamp_order decided expires)) ValueError) = Ok () →
  optional_str (attribute "decided_at" v) = Ok decided_at →
  decision_ok status requested expires decided_at.
Proof.
  intros Ht Hd. unfold decision_ok. case_bool_decide as Hp.
  - inv_ok. refl_bool. unfold optional_str in Hd.
    destruct (given (attribute "decided_at" v)); [by destruct Ht|by inv_ok].
  - apply bind_Ok_iff in Ht as ([] & Hg%raise_if_Ok_iff & Ht). apply bool_decide_eq_false in Hg.
    apply bind_Ok_iff in Ht as (decided & (text & Hs & Hr)%attribute_timestamp_Ok & Ht).
    destruct (optional_str_given _ _ Hd) as (t & -> & Ht'); [by destruct (given _)|].
    assert (t = text) as -> by congruence. exists text, decided. split; [done|]. split; [done|].
    case_bool_decide; apply raise_if_Ok_iff in Ht; [by apply Z.ltb_ge|].
    apply orb_false_iff in Ht as [?%Z.ltb_ge ?%Z.leb_gt]. done.
Qed.

Lemma approval_from_protocol_wf v a : approval_from_protocol v = Ok a → approval_wf a.
Proof.
  intros (_ & _ & Ht & Hf)%approval_from_protocol_inv.
  unfold validate_record_timestamps in Ht. unfold approval_fields in Hf. inv_ok. refl_bool.
  repeat match goal with H : attribute_timestamp _ _ = Ok _ |- _ => apply attribute_timestamp_Ok in H as (? & ? & ?) end.
  same_call. eexists _, _. split; [done|]. split; [done|]. split; [done|].
  match goal with Hd : optional_str (attribute "decided_at" _) = Ok _ |- _ => exact (decision_wf _ _ _ _ _ Ht Hd) end.
Qed.

(** A record that follows another one is that record, or decides it. *)
Lemma validate_transition_spec expected current :
  validate_transition expected current = Ok () ↔
  approval_binding expected = approval_binding current ∧
  (current = expected ∨ apr_status expected = PENDING ∧ apr_status current ≠ PENDING).
Proof.
  unfold validate_transition, raise_if. repeat case_bool_decide; cbn; first [tauto | naive_solver].
Qed.

End facts.
