(* ===== verification/Models.v ===== *)
(** * Public models

    Models [python/src/palonexus/models.py]: the immutable values for proposed
    actions.  A model is a record of strings; constructing or revalidating it runs
    the validators, which build the wire values and validate them.  [pydantic]
    checks the literals first and turns a [ValueError] of a validator into a
    [ValidationError], which the base class replaces by [ModelValidationError]. *)

From stdpp Require Import base list list_numbers numbers strings.
From S2P Require Import Prelude PyString Regex Errors Timestamp PyValue Schemas Decimal Unicode.
From S2P Require Import Structure Wire Identifiers TaskScope Approvals.
Open Scope Z_scope.

(** ** Wire objects built from keyword arguments

    The values are those of the fields of the class, in its order; [None] is an
    argument that is [None] or not given. *)
Definition make (c : dto_class) (values : list (option attr)) : attr :=
  ADto (class c) (zip_with (λ f v, (attribute_name f, wire_name f, v)) (fields c) values).

(** A class applied to a string, and to one that may be [None]. *)
Definition wire (c : converter) (s : pystr) : py (option attr) := Some <$> convert c (PStr s).
Definition wire_or_none (c : converter) (s : option pystr) : py (option attr) :=
  match s with Some s => wire c s | None => Ok None end.

Definition PLACEHOLDER_ACTION_ID : pystr := u "act_" ++ replicate 26 48.
Definition PLACEHOLDER_REQUEST_ID : pystr := u "req_" ++ replicate 26 48.
Definition PLACEHOLDER_RESOURCE_HASH : pystr := u "sha256:" ++ replicate 64 48.
Definition PLACEHOLDER_OCCURRED_AT : pystr := u "2000-01-01T00:00:00Z".

Definition ActionNames : list pystr := u <$>
  ["shell:exec"; "file:read"; "file:write"; "file:delete"; "web:fetch"; "mcp:call"; "tool:invoke"].
Definition TargetKinds : list pystr := u <$> ["local-action"; "mcp-tool"; "tool"].
Definition SideEffects : list pystr := u <$> ["read_only"; "write"; "destructive"; "external"].

(** [_ProtocolValue.__init__] and [model_validate] around the validators. *)
Definition validated {A} (m : py A) : py A := except_raise is_value_error model_validation_error m.

(** A field of a [Literal] type. *)
Definition literal (values : list pystr) (s : pystr) : py () :=
  raise_if (negb (bool_decide (s ∈ values))) ValueError.

(** ** Targets *)
Record action_target := ActionTarget { at_kind : pystr; at_service : pystr; at_resource : pystr }.
#[global] Instance action_target_eq_dec : EqDecision action_target.
Proof. solve_decision. Defined.

(** The wire value of a target with the given resource hash. *)
Definition wire_target (t : action_target) (resource_hash : pystr) : py attr :=
  kind ← wire TargetKind (at_kind t);
  resource ← wire SafeText (at_resource t);
  resource_hash ← wire SHA256Digest resource_hash;
  Ok (make Wire.ActionTarget [kind; Some (ARaw (PStr (at_service t))); resource; resource_hash; None]).

(** [ActionTarget._validate_protocol_fragment]. *)
Definition validate_protocol_fragment (t : action_target) : py () :=
  target ← wire_target t PLACEHOLDER_RESOURCE_HASH; validate_structural target.

Definition validate_action_target (t : action_target) : py () :=
  literal TargetKinds (at_kind t);; validate_protocol_fragment t.

(** [ActionTarget(kind=..., service=..., resource=...)]. *)
Definition make_action_target (kind service resource : pystr) : py action_target :=
  let t := ActionTarget kind service resource in
  validated (validate_action_target t);; Ok t.

(** [except (AttributeError, TypeError, ValueError)]. *)
Definition is_argument_error (e : exn) : bool :=
  match e with AttributeError | TypeError => true | _ => is_value_error e end.

Definition action_target_from_protocol (value : attr) : py action_target :=
  '(kind, service, resource) ← except_raise is_argument_error model_validation_error
    (validate_structural value;;
     kind ← str_of (attribute "kind" value);
     convert TargetKind (PStr kind);;
     service ← str_of (attribute "service" value);
     resource ← str_of (attribute "resource" value);
     Ok (kind, service, resource));
  make_action_target kind service resource.

(** ** Task contexts *)
Definition task_context_from_protocol (value : attr) : py task_context :=
  '(task_id, session_id) ← except_raise is_argument_error model_validation_error
    (validate_structural value;;
     task_id ← str_of (attribute "task_id" value);
     session_id ← str_of (attribute "session_id" value);
     Ok (task_id, session_id));
  make_task_context task_id session_id.

(** ** Actions *)
Record action_request := ActionRequest {
  ar_action : pystr;
  ar_target : action_target;
  ar_task : task_context;
  ar_side_effect : pystr;
  ar_correlation_id : pystr;
  ar_idempotency_key : pystr;
  ar_action_id : option pystr;
  ar_request_id : option pystr;
  ar_causation_id : option pystr;
  ar_resume_from_approval_id : option pystr;
}.

Definition wire_task (t : task_context) : py attr :=
  task_id ← wire TaskID (task_id t);
  session_id ← wire SessionID (session_id t);
  Ok (make TaskBinding [task_id; session_id; None]).

Definition wire_adapter (id version host_version : pystr) : py attr :=
  version ← wire SemanticVersion version;
  host_version ← wire SemanticVersion host_version;
  Ok (make Adapter [Some (ARaw (PStr id)); version; host_version; None]).

(** The keyword arguments of [_wire.ActionRequest], for the model [r] with the
    identifiers and the parts that are given separately. *)
Definition wire_action (r : action_request) (action_id request_id occurred_at resource_hash : pystr)
    (adapter context : attr) (target : action_target) : py attr :=
  schema_version ← wire SchemaVersion (u "1");
  action_id ← wire ActionID action_id;
  request_id ← wire RequestID request_id;
  correlation_id ← wire CorrelationID (ar_correlation_id r);
  idempotency_key ← wire AuthorizationIdempotencyKey (ar_idempotency_key r);
  task ← wire_task (ar_task r);
  action ← wire ActionName (ar_action r);
  target ← wire_target target resource_hash;
  side_effect ← wire SideEffect (ar_side_effect r);
  occurred_at ← wire RFC3339Timestamp occurred_at;
  causation_id ← wire_or_none CausationID (ar_causation_id r);
  resume_from_approval_id ← wire_or_none ApprovalID (ar_resume_from_approval_id r);
  Ok (make Wire.ActionRequest
        [schema_version; action_id; request_id; correlation_id; idempotency_key; Some adapter; Some task;
         action; Some target; side_effect; occurred_at; Some context; causation_id;
         resume_from_approval_id; None]).

(** [value or placeholder]. *)
Definition or_placeholder (value : option pystr) (placeholder : pystr) : pystr :=
  match value with Some ((_ :: _) as s) => s | _ => placeholder end.

Definition empty_context : attr := make ActionContext [None; None; None; None; None].

(** [_validate_protocol_document_shape]. *)
Definition validate_protocol_document_shape (r : action_request) : py () :=
  adapter ← wire_adapter (u "python-sdk") (u "0.0.0") (u "3.12.0");
  request ← wire_action r (or_placeholder (ar_action_id r) PLACEHOLDER_ACTION_ID)
    (or_placeholder (ar_request_id r) PLACEHOLDER_REQUEST_ID) PLACEHOLDER_OCCURRED_AT
    PLACEHOLDER_RESOURCE_HASH adapter empty_context (ar_target r);
  validate_structural request.

(** The validators of the fields, then that of the model; nested models are
    validated again. *)
Definition validate_action_request (r : action_request) : py () :=
  literal ActionNames (ar_action r);;
  validate_action_target (ar_target r);;
  make_task_context (task_id (ar_task r)) (session_id (ar_task r));;
  literal SideEffects (ar_side_effect r);;
  wire CorrelationID (ar_correlation_id r);;
  wire AuthorizationIdempotencyKey (ar_idempotency_key r);;
  wire_or_none ActionID (ar_action_id r);;
  wire_or_none RequestID (ar_request_id r);;
  wire_or_none CausationID (ar_causation_id r);;
  wire_or_none ApprovalID (ar_resume_from_approval_id r);;
  validate_protocol_document_shape r.

(** [ActionRequest(...)], and [ActionRequest.model_validate] of its fields. *)
Definition make_action_request (r : action_request) : py action_request :=
  validated (validate_action_request r);; Ok r.

Definition action_request_from_protocol (value : attr) : py action_request :=
  '(action, side_effect) ← except_raise is_argument_error model_validation_error
    (validate_structural value;;
     action ← str_of (attribute "action" value);
     convert ActionName (PStr action);;
     side_effect ← str_of (attribute "side_effect" value);
     convert SideEffect (PStr side_effect);;
     Ok (action, side_effect));
  action_id ← str_of (attribute "action_id" value);
  request_id ← str_of (attribute "request_id" value);
  correlation_id ← str_of (attribute "correlation_id" value);
  idempotency_key ← str_of (attribute "idempotency_key" value);
  target ← action_target_from_protocol (default (ARaw PNone) (attribute "target" value));
  task ← task_context_from_protocol (default (ARaw PNone) (attribute "task" value));
  causation_id ← optional_str (attribute "causation_id" value);
  resume_from_approval_id ← optional_str (attribute "resume_from_approval_id" value);
  make_action_request (ActionRequest action target task side_effect correlation_id idempotency_key
    (Some action_id) (Some request_id) causation_id resume_from_approval_id).
