(* ===== verification/CanonicalPath.v ===== *)
(** * Canonical paths

    Models [canonicalize_path] of [_canonicalize.py]: an absolute POSIX path
    computed from the text alone, without looking at a file system. *)

From stdpp Require Import base list list_numbers numbers strings sets.
From S2P Require Import Prelude PyString Errors PyValue Decimal Unicode.
Open Scope Z_scope.

Definition slash : Z := 47.
Definition has_char (c : Z) (s : pystr) : bool := existsb (Z.eqb c) s.

(** [posixpath.join(a, b)] for a [b] that is not absolute. *)
Definition posix_join (a b : pystr) : pystr :=
  if bool_decide (a = []) || endswith [slash] a then a ++ b else a ++ [slash] ++ b.

(** One component of the walk: [""] and ["."] stay, [".."] goes up. *)
Definition walk_part (parts : list pystr) (part : pystr) : list pystr :=
  if str_in part [[]; u "."] then parts
  else if str_eqb part (u "..") then take (length parts - 1) parts
  else parts ++ [part].

Definition render_path (parts : list pystr) : pystr := [slash] ++ join [slash] parts.

Section path.
Context `{UnicodeData}.

Definition canonicalize_path (path cwd : pystr) : py pystr :=
  normalized_path ← nfc "invalid_path" path;
  normalized_cwd ← nfc "invalid_path" cwd;
  raise_if (has_char 0 normalized_path || has_char 0 normalized_cwd)
    (CanonicalizationError "invalid_path");;
  raise_if (has_char 92 normalized_path || has_char 92 normalized_cwd)
    (CanonicalizationError "unsupported_path_syntax");;
  raise_if (negb (startswith [slash] normalized_cwd)) (CanonicalizationError "cwd_not_absolute");;
  let combined :=
    if startswith [slash] normalized_path then normalized_path
    else posix_join normalized_cwd normalized_path in
  Ok (render_path (foldl walk_part [] (split_on slash combined))).
End path.

(** ** Splitting and joining *)
Lemma split_on_app c a b : split_on c (a ++ c :: b) = split_on c a ++ split_on c b.
Proof.
  induction a as [|x a IH]; cbn; [by rewrite Z.eqb_refl|]. destruct (x =? c); [by rewrite IH|].
  rewrite IH. destruct (split_on c a) eqn:E; [|done].
  destruct a; cbn in E; [done|]. destruct (_ =? _); [done|]. by destruct (split_on c a).
Qed.

Lemma split_on_none c a : c ∉ a → split_on c a = [a].
Proof.
  induction a as [|x a IH]; intros Hc; cbn; [done|]. apply not_elem_of_cons in Hc as [? ?].
  rewrite (proj2 (Z.eqb_neq _ _)) by done. by rewrite IH.
Qed.

Lemma split_on_parts c s : Forall (λ p, (c ∉ p) ∧ (∀ x, x ∈ p → x ∈ s)) (split_on c s).
Proof.
  induction s as [|x s IH]; cbn; [apply Forall_singleton; set_solver|].
  destruct (x =? c) eqn:E; refl_bool.
  - constructor; [set_solver|]. eapply Forall_impl; [exact IH|]. set_solver.
  - destruct (split_on c s) as [|w ws]; [apply Forall_singleton; set_solver|].
    apply Forall_cons in IH as [Hw Hws]. constructor; [set_solver|].
    eapply Forall_impl; [exact Hws|]. set_solver.
Qed.

Lemma split_on_join c parts :
  parts ≠ [] → Forall (λ p, c ∉ p) parts → split_on c (join [c] parts) = parts.
Proof.
  induction parts as [|p [|q ps] IH]; intros Hne Hp; [done|..]; apply Forall_cons in Hp as [Hp Hps].
  - by apply split_on_none.
  - change (join [c] (p :: q :: ps)) with (p ++ c :: join [c] (q :: ps)).
    rewrite split_on_app, split_on_none, IH by done. done.
Qed.

Lemma elem_of_join x c parts : x ∈ join [c] parts → x = c ∨ ∃ p, (p ∈ parts) ∧ (x ∈ p).
Proof.
  induction parts as [|p [|q ps] IH]; [by intros ?%elem_of_nil|set_solver|].
  cbn [join]. rewrite !elem_of_app. intros [Hx|[Hx|Hx]].
  - right. exists p. set_solver.
  - left. set_solver.
  - destruct (IH Hx) as [->|(r & ? & ?)]; [by left|right]. exists r. set_solver.
Qed.

(** ** Canonical paths *)
Definition segment_ok (p : pystr) : Prop := p ≠ [] ∧ p ≠ u "." ∧ p ≠ u ".." ∧ (slash ∉ p).

Lemma walk_part_ok s ps :
  Forall segment_ok s → Forall (λ p, slash ∉ p) ps → Forall segment_ok (foldl walk_part s ps).
Proof.
  revert s; induction ps as [|p ps IH]; intros s Hs Hp; [done|].
  apply Forall_cons in Hp as [Hp Hps]. apply IH; [|done]. unfold walk_part, str_in.
  case_bool_decide as E; [done|]. destruct (str_eqb p (u "..")) eqn:E'; [by apply Forall_take|].
  apply str_eqb_neq in E'. apply Forall_app. split; [done|]. apply Forall_singleton. unfold segment_ok. set_solver.
Qed.

(** The walk only reads characters of the text. *)
Lemma walk_part_chars (P : Z → Prop) s ps :
  Forall (Forall P) s → Forall (Forall P) ps → Forall (Forall P) (foldl walk_part s ps).
Proof.
  revert s; induction ps as [|p ps IH]; intros s Hs Hp; [done|].
  apply Forall_cons in Hp as [Hp Hps]. apply IH; [|done]. unfold walk_part.
  destruct (str_in _ _); [done|]. destruct (str_eqb p (u "..")); [by apply Forall_take|].
  apply Forall_app. auto.
Qed.

(** Components that are already canonical are kept. *)
Lemma walk_segments s ps : Forall segment_ok ps → foldl walk_part s ps = s ++ ps.
Proof.
  intros Hps. revert s; induction Hps as [|p ps (? & ? & ? & _) _ IH]; intros s; cbn;
    [by rewrite app_nil_r|].
  rewrite IH. unfold walk_part, str_in. rewrite bool_decide_eq_false_2 by set_solver.
  rewrite (proj2 (str_eqb_neq _ _)) by done. by rewrite <-app_assoc.
Qed.

Lemma walk_empty s : walk_part s [] = s.
Proof. done. Qed.

Lemma walk_rendered s ps : Forall segment_ok ps →
  foldl walk_part s (split_on slash (render_path ps)) = s ++ ps.
Proof.
  intros Hps. unfold render_path. change ([slash] ++ join [slash] ps) with ([] ++ slash :: join [slash] ps).
  rewrite split_on_app, foldl_app. cbn [split_on foldl]. rewrite walk_empty.
  destruct ps as [|p ps]; [cbn; by rewrite app_nil_r|].
  rewrite split_on_join; [by apply walk_segments|done|].
  eapply Forall_impl; [exact Hps|]. by intros ? (? & ? & ? & ?).
Qed.

(** Without [".."] a walk only goes down. *)
Lemma walk_below s ps : u ".." ∉ ps → ∃ below, foldl walk_part s ps = s ++ below.
Proof.
  revert s; induction ps as [|p ps IH]; intros s Hup; [exists []; by rewrite app_nil_r|].
  apply not_elem_of_cons in Hup as [Hp Hup]. cbn. unfold walk_part at 2.
  destruct (str_in p _); [auto|]. rewrite (proj2 (str_eqb_neq _ _)) by done.
  destruct (IH (s ++ [p]) Hup) as (below & ->). exists (p :: below). by rewrite <-app_assoc.
Qed.

(** Joining a relative path continues the walk of the working directory. *)
Lemma walk_posix_join s a b :
  foldl walk_part s (split_on slash (posix_join a b))
  = foldl walk_part (foldl walk_part s (split_on slash a)) (split_on slash b).
Proof.
  unfold posix_join. destruct (bool_decide (a = [])) eqn:E; cbn [orb].
  - apply bool_decide_eq_true in E as ->. cbn [app split_on foldl]. by rewrite walk_empty.
  - destruct (endswith [slash] a) eqn:E'.
    + unfold endswith in E'. apply andb_true_iff in E' as [_ E']. apply str_eqb_eq in E'.
      rewrite <-(take_drop (length a - length [slash]) a), E'. generalize (take (length a - length [slash]) a).
      intros a'. rewrite <-app_assoc. cbn [app]. rewrite !split_on_app, !foldl_app. cbn [split_on foldl].
      by rewrite walk_empty.
    + cbn [app]. by rewrite split_on_app, foldl_app.
Qed.

Section path_facts.
Context `{UnicodeData}.

(** The walk [canonicalize_path] makes, on text that passed the checks. *)
Definition path_text (s : pystr) : Prop :=
  nfc "invalid_path" s = Ok s ∧ has_char 0 s = false ∧ has_char 92 s = false.

Lemma canonicalize_path_Ok path cwd q :
  canonicalize_path path cwd = Ok q ↔
  ∃ p c, nfc "invalid_path" path = Ok p ∧ nfc "invalid_path" cwd = Ok c ∧
    path_text p ∧ path_text c ∧ startswith [slash] c = true ∧
    q = render_path (foldl walk_part []
          (split_on slash (if startswith [slash] p then p else posix_join c p))).
Proof.
  unfold canonicalize_path. split.
  - intros Hq. inv_ok. exists x, x0. unfold path_text. split_and!; eauto using nfc_idem.
  - intros (p & c & -> & -> & (_ & Hp & Hp') & (_ & Hc & Hc') & Hs & ->). cbn.
    by rewrite Hp, Hp', Hc, Hc', Hs.
Qed.

Lemma has_char_false c s : has_char c s = false ↔ c ∉ s.
Proof.
  unfold has_char. rewrite <-not_true_iff_false, existsb_exists, list_elem_of_In.
  split; intros Hn Hx; apply Hn; [by exists c; rewrite Z.eqb_refl|].
  by destruct Hx as (x & Hx & <-%Z.eqb_eq).
Qed.

(** A character that is in neither input (and is not the slash) is not in the result. *)
Lemma rendered_chars c s : c ≠ slash → c ∉ s →
  has_char c (render_path (foldl walk_part [] (split_on slash s))) = false.
Proof.
  intros Hc Hs. apply has_char_false. unfold render_path.
  intros [->%list_elem_of_singleton|Hin]%elem_of_app; [done|].
  apply elem_of_join in Hin as [->|(p & Hp & Hx)]; [done|].
  assert (Forall (Forall (λ x, x ≠ c)) (foldl walk_part [] (split_on slash s))) as Hall.
  { apply walk_part_chars; [constructor|]. eapply Forall_impl; [apply split_on_parts|].
    intros w [_ Hw]. apply Forall_forall. intros x Hx' ->. auto. }
  rewrite Forall_forall in Hall. specialize (Hall p Hp). rewrite Forall_forall in Hall.
  by apply (Hall c).
Qed.

Lemma combined_chars c p d : c ≠ slash → c ∉ p → c ∉ d →
  c ∉ (if startswith [slash] p then p else posix_join d p).
Proof. intros. destruct (startswith _ p); [done|]. unfold posix_join. destruct (_ || _); set_solver. Qed.

(** The canonical path as a list of segments. *)
Lemma canonicalize_path_segments path cwd q :
  canonicalize_path path cwd = Ok q →
  ∃ parts, q = render_path parts ∧ Forall segment_ok parts ∧ has_char 0 q = false ∧ has_char 92 q = false.
Proof.
  intros (p & c & _ & _ & (_ & Hp & Hp') & (_ & Hc & Hc') & _ & ->)%canonicalize_path_Ok.
  rewrite has_char_false in Hp, Hp', Hc, Hc'. eexists. split; [reflexivity|]. split_and!.
  - apply walk_part_ok; [constructor|]. eapply Forall_impl; [apply split_on_parts|]. by intros ? [? _].
  - apply rendered_chars; [done|]. by apply combined_chars.
  - apply rendered_chars; [done|]. by apply combined_chars.
Qed.

(** Canonical paths are normal forms.  The result is absolute and made of
    segments that are not empty, ["."] or [".."], without NUL and backslash; and a
    canonical path that is within the string limit is a fixed point, whatever the
    working directory. *)
Theorem canonicalize_path_normal path cwd q :
  canonicalize_path path cwd = Ok q →
  (∃ parts, q = render_path parts ∧ Forall segment_ok parts) ∧
  has_char 0 q = false ∧ has_char 92 q = false ∧
  (nfc "invalid_path" q = Ok q → canonicalize_path q cwd = Ok q).
Proof.
  intros Hq. destruct (canonicalize_path_segments _ _ _ Hq) as (parts & -> & Hparts & H0 & H92).
  split_and!; [by exists parts|done|done|]. intros Hn.
  apply canonicalize_path_Ok in Hq as (_ & c & _ & Hc & _ & Hct & Hs & _).
  apply canonicalize_path_Ok. exists (render_path parts), c. split_and!; try done.
  rewrite (startswith_app [slash] (join [slash] parts) : startswith [slash] (render_path parts) = true).
  f_equal. by rewrite walk_rendered.
Qed.

(** A relative path is resolved from the canonical working directory.  The
    segments of the result are those of the working directory, walked by the
    components of the path; so a path without [".."] stays below it. *)
Theorem canonicalize_path_confined path cwd c q :
  canonicalize_path cwd cwd = Ok c → canonicalize_path path cwd = Ok q →
  startswith [slash] (nfc_form path) = false →
  ∃ base, c = render_path base ∧ Forall segment_ok base ∧
    q = render_path (foldl walk_part base (split_on slash (nfc_form path))) ∧
    (u ".." ∉ split_on slash (nfc_form path) → ∃ below, q = render_path (base ++ below)).
Proof.
  intros Hc Hq Hr. apply canonicalize_path_Ok in Hc as (d & d' & Hd & Hd' & _ & _ & Hs & ->).
  apply canonicalize_path_Ok in Hq as (p & d'' & Hp & Hd'' & _ & _ & _ & ->).
  same_call. apply nfc_Ok in Hp as (-> & _). rewrite Hr, Hs, walk_posix_join.
  set (base := foldl _ [] _). exists base. split_and!; try done.
  - apply walk_part_ok; [constructor|]. eapply Forall_impl; [apply split_on_parts|]. by intros ? [? _].
  - intros Hup. destruct (walk_below base _ Hup) as (below & ->). eauto.
Qed.
End path_facts.

(** ** Examples *)
Example climbing_path :
  canonicalize_path (H := plain_unicode) (u "../b/./c//d/..") (u "/work/a/") = Ok (u "/work/b/c").
Proof. reflexivity. Qed.

Lemma canonicalize_path_normal_witness :
  canonicalize_path (H := plain_unicode) (u "/x/y") (u "/") = Ok (u "/x/y").
Proof.
  apply (canonicalize_path_normal (H := plain_unicode) (u "./x//z/../y") (u "/")); reflexivity.
Defined.

Lemma canonicalize_path_confined_witness :
  ∃ base, u "/work/a" = render_path base ∧ ∃ below, u "/work/a/b/c" = render_path (base ++ below).
Proof.
  destruct (canonicalize_path_confined (H := plain_unicode) (u "b/./c") (u "/work/a/")
    (u "/work/a") (u "/work/a/b/c") eq_refl eq_refl eq_refl) as (base & Hc & _ & _ & Hbelow).
  exists base. split; [exact Hc|]. apply Hbelow. vm_compute. intros Hin. inversion_clear Hin as [|? ? ? Hin'].
  inversion_clear Hin' as [|? ? ? Hin]. inversion_clear Hin as [|? ? ? Hin']. inversion Hin'.
Defined.
