(* ===== verification/PyUrl.v ===== *)
(** * URLs in the Python standard library

    What the canonicalizer uses of [urllib.parse] ([urlsplit], [quote],
    [unquote], [parse_qsl], [urlencode], [urlunsplit]), of [ipaddress.IPv4Address]
    and of the case and whitespace methods of [str]. *)

From stdpp Require Import base list list_numbers numbers strings sets.
From S2P Require Import Prelude PyString Errors PyValue Decimal Unicode JsonScan JsonScanFacts JsonRoundTrip CanonicalPath.
Open Scope Z_scope.

(** ** Characters *)
Definition is_ascii (c : Z) : bool := (0 <=? c) && (c <? 128).
Definition is_alpha (c : Z) : bool := is_lower c || is_upper c.
Definition is_alnum (c : Z) : bool := is_alpha c || is_digit c.
Definition ascii_lower (c : Z) : Z := if is_upper c then c + 32 else c.
Definition ascii_upper (c : Z) : Z := if is_lower c then c - 32 else c.
Definition one_of (chars : string) (c : Z) : bool := has_char c (u chars).

(** The characters [str.strip()] removes. *)
Definition is_whitespace (c : Z) : bool :=
  (9 <=? c) && (c <=? 13) || (28 <=? c) && (c <=? 32) || (c =? 133) || (c =? 160)
  || (c =? 5760) || (8192 <=? c) && (c <=? 8202) || (c =? 8232) || (c =? 8233)
  || (c =? 8239) || (c =? 8287) || (c =? 12288).
Fixpoint drop_while (f : Z → bool) (s : pystr) : pystr :=
  match s with x :: s' => if f x then drop_while f s' else s | [] => [] end.
Definition strip (s : pystr) : pystr :=
  rev (drop_while is_whitespace (rev (drop_while is_whitespace s))).

(** [s.rpartition(c)]: [None] when the separator does not occur. *)
Definition rpartition (c : Z) (s : pystr) : option (pystr * pystr) :=
  (λ p, (rev p.2, rev p.1)) <$> partition c (rev s).

(** What the standard library and the [idna] package know beyond ASCII:
    [str.lower], the NFKC form, the Python version's check of a bracketed
    authority, and the two IDNA conversions ([None] is [IDNAError]; the encoded
    label is ASCII). *)
Class UrlData := {
  str_lower : pystr → pystr;
  nfkc_form : pystr → pystr;
  check_bracketed_netloc : pystr → bool;
  idna_decode : pystr → option pystr;
  idna_encode : pystr → option pystr;
  str_lower_ascii s : Forall (λ c, 0 ≤ c < 128) s → str_lower s = ascii_lower <$> s;
}.

(** ** [urlsplit] *)
Record SplitResult := {
  scheme : pystr; netloc : pystr; path : pystr; query : pystr; fragment : pystr;
}.

Definition scheme_char (c : Z) : bool := is_alnum c || one_of "+-." c.

(** The scheme before the first colon, when it has the syntax of one. *)
Definition split_scheme (url : pystr) : pystr * pystr :=
  match partition 58 url with
  | Some ((c :: _) as pre, post) =>
      if is_alpha c && forallb scheme_char pre then (ascii_lower <$> pre, post) else ([], url)
  | _ => ([], url)
  end.

(** [url.split(c, 1)]. *)
Definition split_once (c : Z) (s : pystr) : pystr * pystr := default (s, []) (partition c s).

Section urllib.
Context `{UrlData}.

(** [_checknetloc]. *)
Definition checknetloc (netloc : pystr) : bool :=
  if forallb is_ascii netloc then true
  else
    let n := filter (λ c, one_of "@:#?" c = false) netloc in
    let netloc2 := nfkc_form n in
    str_eqb n netloc2 || forallb (λ c, negb (one_of "/?#@:" c)) netloc2.

Definition urlsplit (url : pystr) : py SplitResult :=
  let url := drop_while (λ c, c <=? 32) url in
  let url := filter (λ c, (c =? 9) || (c =? 10) || (c =? 13) = false) url in
  let '(scheme, url) := split_scheme url in
  '(netloc, url) ←
    (if startswith (u "//") url then
       let '(netloc, rest) := span (λ c, negb (one_of "/?#" c)) (drop 2 url) in
       raise_if (has_char 91 netloc && negb (has_char 93 netloc)
                 || has_char 93 netloc && negb (has_char 91 netloc)) ValueError;;
       raise_if (has_char 91 netloc && has_char 93 netloc && negb (check_bracketed_netloc netloc))
         ValueError;;
       Ok (netloc, rest)
     else Ok ([], url));
  let '(url, fragment) := split_once 35 url in
  let '(url, query) := split_once 63 url in
  raise_if (negb (checknetloc netloc)) ValueError;;
  Ok {| scheme := scheme; netloc := netloc; path := url; query := query; fragment := fragment |}.

(** [_hostinfo]: the host and the text of the port. *)
Definition hostinfo (netloc : pystr) : pystr * option pystr :=
  let info := match rpartition 64 netloc with Some (_, i) => i | None => netloc end in
  let '(host, port) :=
    match partition 91 info with
    | Some (_, bracketed) =>
        let '(host, port) := split_once 93 bracketed in (host, (split_once 58 port).2)
    | None => split_once 58 info
    end in
  (host, match port with [] => None | _ => Some port end).

Definition hostname (r : SplitResult) : option pystr :=
  match (hostinfo (netloc r)).1 with
  | [] => None
  | host =>
      Some match partition 37 host with
           | Some (name, zone) => str_lower name ++ [37] ++ zone
           | None => str_lower host
           end
  end.

(** The property [port]; [ValueError] when it is not a number up to 65535. *)
Definition port (r : SplitResult) : py (option Z) :=
  match (hostinfo (netloc r)).2 with
  | None => Ok None
  | Some text =>
      raise_if (negb (forallb is_digit text)) ValueError;;
      let port := int_of_digits text in
      raise_if (negb ((0 <=? port) && (port <=? 65535))) ValueError;;
      Ok (Some port)
  end.
End urllib.

(** ** Percent encoding *)
Definition upper_hex (d : Z) : Z := if d <? 10 then 48 + d else 55 + d.
Definition percent_byte (b : Z) : pystr := [37; upper_hex (b / 16); upper_hex (b mod 16)].

(** [quote(s, safe)]: a byte is kept when it is always safe or named in [safe]. *)
Definition always_safe (c : Z) : bool := is_alnum c || one_of "_.-~" c.
Definition quote_byte (safe : string) (b : Z) : pystr :=
  if always_safe b || one_of safe b then [b] else percent_byte b.
Definition quote (safe : string) (s : pystr) : py pystr :=
  match utf8_encode s with
  | Some bs => Ok (concat (quote_byte safe <$> bs))
  | None => Raise ValueError
  end.

Definition hex_byte (a b : Z) : option Z :=
  match hex_value a, hex_value b with Some x, Some y => Some (16 * x + y) | _, _ => None end.

(** [unquote_to_bytes] on ASCII text. *)
Fixpoint unquote_to_bytes (s : pystr) : pybytes :=
  match s with
  | 37 :: ((a :: b :: rest) as s') =>
      match hex_byte a b with
      | Some x => x :: unquote_to_bytes rest
      | None => 37 :: unquote_to_bytes s'
      end
  | c :: s' => c :: unquote_to_bytes s'
  | [] => []
  end.

(** The runs of ASCII text are decoded, the rest is kept; [None] stands for
    [UnicodeDecodeError] here and in [parse_qsl]. *)
Fixpoint unquote_runs (run : pystr) (s : pystr) : option pystr :=
  match s with
  | [] => utf8_decode (unquote_to_bytes run)
  | c :: s' =>
      if is_ascii c then unquote_runs (run ++ [c]) s'
      else a ← utf8_decode (unquote_to_bytes run); b ← unquote_runs [] s'; Some (a ++ c :: b)
  end.
Definition unquote (s : pystr) : option pystr :=
  if has_char 37 s then unquote_runs [] s else Some s.

Definition replace_char (a b : Z) (s : pystr) : pystr := (λ c, if c =? a then b else c) <$> s.

(** [parse_qsl(qs, keep_blank_values=True, errors="strict")]. *)
Fixpoint parse_fields (fields : list pystr) : option (list (pystr * pystr)) :=
  match fields with
  | [] => Some []
  | [] :: fields' => parse_fields fields'
  | name_value :: fields' =>
      let '(n, v) := split_once 61 name_value in
      name ← unquote (replace_char 43 32 n);
      value ← unquote (replace_char 43 32 v);
      r ← parse_fields fields';
      Some ((name, value) :: r)
  end.
Definition parse_qsl (qs : pystr) : option (list (pystr * pystr)) := parse_fields (split_on 38 qs).

(** [urlencode(pairs, safe=safe, quote_via=quote)]. *)
Fixpoint urlencode_fields (safe : string) (pairs : list (pystr * pystr)) : py (list pystr) :=
  match pairs with
  | [] => Ok []
  | (k, v) :: pairs' =>
      k ← quote safe k; v ← quote safe v;
      r ← urlencode_fields safe pairs'; Ok ((k ++ [61] ++ v) :: r)
  end.
Definition urlencode (safe : string) (pairs : list (pystr * pystr)) : py pystr :=
  join [38] <$> urlencode_fields safe pairs.

(** [urlunsplit((scheme, netloc, path, query, ""))] with an authority. *)
Definition urlunsplit (scheme netloc path query : pystr) : pystr :=
  let url := if bool_decide (path ≠ []) && negb (startswith [slash] path) then [slash] ++ path else path in
  let url := u "//" ++ netloc ++ url in
  let url := if bool_decide (scheme = []) then url else scheme ++ [58] ++ url in
  if bool_decide (query = []) then url else url ++ [63] ++ query.

(** ** [ipaddress.IPv4Address]: the octets of a dotted-decimal address *)
Definition parse_octet (s : pystr) : option Z :=
  if bool_decide (s = []) || negb (forallb is_digit s) || (3 <? length s)%nat then None
  else if negb (str_eqb s (u "0")) && startswith (u "0") s then None
  else let octet := int_of_digits s in if 255 <? octet then None else Some octet.
Definition IPv4Address (s : pystr) : option (list Z) :=
  let octets := split_on 46 s in
  if (length octets =? 4)%nat then mapM parse_octet octets else None.
Definition decimal (z : Z) : pystr := if z =? 0 then [48] else digits z.
Definition ipv4_str (octets : list Z) : pystr := join [46] (decimal <$> octets).
