(* ===== verification/CanonicalUrl.v ===== *)
(** * Canonical URLs

    Models the URL half of [_canonicalize.py]: percent encoding, dot segments,
    hosts, sensitive names and [canonicalize_url]. *)

From stdpp Require Import base list list_numbers numbers strings sets.
From S2P Require Import Prelude PyString Errors PyValue Decimal Unicode JsonScan JsonScanFacts JsonRoundTrip CanonicalPath PyUrl.
Open Scope Z_scope.

Definition REDACTED : pystr := u "[REDACTED]".
Definition UNRESERVED (c : Z) : bool := is_alnum c || one_of "-._~" c.

Definition SENSITIVE_NAMES : list pystr :=
  u <$> ["access-key"; "access_key"; "api-key"; "api_key"; "authorization"; "cookie"; "password";
         "secret"; "token"]%string.
Definition SENSITIVE_QUERY_KEYS : list pystr :=
  u <$> ["access_key"; "access_token"; "api_key"; "apikey"; "authorization"; "code"; "credential";
         "password"; "secret"; "signature"; "token"]%string.

(** ** Percent encoding *)
Fixpoint validate_percent_encoding (value : pystr) : py () :=
  match value with
  | [] => Ok ()
  | c :: rest =>
      if c =? 37 then
        match rest with
        | a :: b :: rest' =>
            match hex_byte a b with
            | Some _ => validate_percent_encoding rest'
            | None => cerr "invalid_percent_encoding"
            end
        | _ => cerr "invalid_percent_encoding"
        end
      else validate_percent_encoding rest
  end.

(** A maximal run of bytes above ASCII is one UTF-8 text. *)
Definition decode_run (run : pybytes) : py pystr :=
  match utf8_decode run with Some s => Ok s | None => cerr "invalid_url_utf8" end.

(** The text of a run of escapes: [run] are the pending bytes above ASCII. *)
Fixpoint decode_escapes (run : pybytes) (encoded : pybytes) : py pystr :=
  match encoded with
  | [] => decode_run run
  | byte :: encoded' =>
      if byte <? 128 then
        pre ← decode_run run;
        raise_if ((byte <? 32) || (byte =? 127)) (CanonicalizationError "invalid_url");;
        post ← decode_escapes [] encoded';
        Ok (pre ++ (if UNRESERVED byte then [byte] else percent_byte byte) ++ post)
      else decode_escapes (run ++ [byte]) encoded'
  end.

(** The loop over the characters; [encoded] are the bytes of the escapes read
    since the last other character. *)
Fixpoint decode_component (encoded : pybytes) (value : pystr) : py pystr :=
  match value with
  | [] => decode_escapes [] encoded
  | c :: rest =>
      if c =? 37 then
        match rest with
        | a :: b :: rest' =>
            match hex_byte a b with
            | Some byte => decode_component (encoded ++ [byte]) rest'
            | None => Raise ValueError
            end
        | _ => Raise ValueError
        end
      else
        pre ← decode_escapes [] encoded;
        post ← decode_component [] rest;
        Ok (pre ++ c :: post)
  end.

(** [re.sub("%[0-9a-fA-F]{2}", upper, rendered)]. *)
Fixpoint upper_escapes (s : pystr) : pystr :=
  match s with
  | [] => []
  | c :: rest =>
      match rest with
      | a :: b :: rest' =>
          if (c =? 37) && bool_decide (is_Some (hex_byte a b))
          then 37 :: ascii_upper a :: ascii_upper b :: upper_escapes rest'
          else c :: upper_escapes rest
      | _ => c :: upper_escapes rest
      end
  end.

(** ** Dot segments *)
Definition remove_last_url_segment (output : pystr) : pystr :=
  match rpartition slash output with Some (front, _) => front | None => [] end.

(** One turn of the loop, [None] when nothing is left. *)
Definition dot_segment_step (remaining output : pystr) : option (pystr * pystr) :=
  if bool_decide (remaining = []) then None
  else if startswith (u "../") remaining then Some (drop 3 remaining, output)
  else if startswith (u "./") remaining then Some (drop 2 remaining, output)
  else if startswith (u "/./") remaining then Some ([slash] ++ drop 3 remaining, output)
  else if str_eqb remaining (u "/.") then Some ([slash], output)
  else if startswith (u "/../") remaining then
    Some ([slash] ++ drop 4 remaining, remove_last_url_segment output)
  else if str_eqb remaining (u "/..") then Some ([slash], remove_last_url_segment output)
  else if str_in remaining [u "."; u ".."] then Some ([], output)
  else
    let start := if startswith [slash] remaining then 1%nat else O in
    let '(segment, rest) := span (λ c, negb (c =? slash)) (drop start remaining) in
    Some (rest, output ++ take start remaining ++ segment).

Fixpoint dot_segment_loop (fuel : nat) (remaining output : pystr) : pystr :=
  match fuel with
  | O => output
  | S fuel =>
      match dot_segment_step remaining output with
      | Some (remaining, output) => dot_segment_loop fuel remaining output
      | None => output
      end
  end.

(** Every turn shortens what remains. *)
Definition remove_url_dot_segments (path : pystr) : pystr :=
  let output := dot_segment_loop (S (length path)) path [] in
  if bool_decide (output = []) then [slash] else output.

(** ** Hosts *)
Definition is_host_char (c : Z) : bool := is_lower c || is_digit c.

Definition DNS_LABEL (label : pystr) : bool :=
  match label, last label with
  | c :: _, Some d =>
      is_host_char c && is_host_char d && forallb (λ x, is_host_char x || (x =? 45)) label
      && (length label <=? 63)%nat
  | _, _ => false
  end.

(** One part of a numeric host: [0x[0-9a-f]+] or [[0-9]+], in either case. *)
Definition numeric_part (p : pystr) : bool :=
  match p with
  | 48 :: x :: ((_ :: _) as h) =>
      (one_of "xX" x && forallb (λ c, bool_decide (is_Some (hex_value c))) h) || forallb is_digit p
  | [] => false
  | _ => forallb is_digit p
  end.
Definition AMBIGUOUS_NUMERIC_HOST (host : pystr) : bool := forallb numeric_part (split_on 46 host).

Section url.
Context `{UnicodeData} `{UrlData}.

(** A character no URL may contain, also the two separators of lines. *)
Definition is_control (c : Z) : bool :=
  String.eqb (category c) "Cc" || (c =? 8232) || (c =? 8233).

Definition normalize_percent_component (value : pystr) (safe : string) : py pystr :=
  validate_percent_encoding value;;
  output ← decode_component [] value;
  normalized ← nfc "invalid_url" output;
  raise_if (existsb is_control normalized) (CanonicalizationError "invalid_url");;
  rendered ← quote (safe +:+ "%") normalized;
  Ok (upper_escapes rendered).

(** An A-label must survive the round trip through its Unicode form. *)
Definition check_a_label (label : pystr) : py () :=
  if negb (startswith (u "xn--") label) then Ok ()
  else
    match idna_decode label with
    | None => cerr "invalid_url_host"
    | Some decoded =>
        nfc "invalid_url_host" decoded;;
        match idna_encode decoded with
        | None => cerr "invalid_url_host"
        | Some round_trip =>
            raise_if (negb (str_eqb (str_lower round_trip) (str_lower label)))
              (CanonicalizationError "invalid_url_host")
        end
    end.

Fixpoint check_a_labels (labels : list pystr) : py () :=
  match labels with [] => Ok () | l :: ls => check_a_label l;; check_a_labels ls end.

Definition canonical_host (host : pystr) : py pystr :=
  raw ← nfc "invalid_url" host;
  raise_if (endswith [46] raw) (CanonicalizationError "noncanonical_url_host");;
  raise_if (has_char 58 raw) (CanonicalizationError "unsupported_ipv6");;
  raise_if (negb (forallb is_ascii raw)) (CanonicalizationError "unsupported_url_host");;
  let normalized := str_lower raw in
  raise_if (bool_decide (normalized = [])) (CanonicalizationError "missing_url_host");;
  match IPv4Address normalized with
  | None =>
      raise_if (AMBIGUOUS_NUMERIC_HOST normalized) (CanonicalizationError "ambiguous_numeric_host");;
      raise_if (253 <? length normalized)%nat (CanonicalizationError "invalid_url_host");;
      let labels := split_on 46 normalized in
      raise_if (negb (forallb DNS_LABEL labels)) (CanonicalizationError "invalid_url_host");;
      check_a_labels labels;;
      Ok normalized
  | Some address =>
      raise_if (negb (str_eqb (ipv4_str address) normalized))
        (CanonicalizationError "ambiguous_numeric_host");;
      Ok (ipv4_str address)
  end.

Definition reject_ambiguous_url_source (source : pystr) : py () :=
  raise_if (has_char 92 source) (CanonicalizationError "invalid_url");;
  raise_if (existsb is_control source) (CanonicalizationError "invalid_url").

(** ** Sensitive names *)
Definition SENSITIVE_NAME (s : pystr) : bool :=
  match s with
  | c :: rest => is_host_char c && forallb (λ x, is_host_char x || one_of "_-" x) rest
                 && (length rest <=? 63)%nat
  | [] => false
  end.

Definition normalize_sensitive_name (value : pystr) : py pystr :=
  normalized ← nfc "invalid_sensitive_name" value;
  let normalized := lstrip 45 (strip normalized) in
  raise_if (negb (forallb is_ascii normalized)) (CanonicalizationError "invalid_sensitive_name");;
  let normalized := replace_char 95 45 (str_lower normalized) in
  raise_if (negb (SENSITIVE_NAME normalized)) (CanonicalizationError "invalid_sensitive_name");;
  Ok normalized.

Fixpoint normalize_names (names : list pystr) : py (list pystr) :=
  match names with
  | [] => Ok []
  | n :: names' => n ← normalize_sensitive_name n; r ← normalize_names names'; Ok (n :: r)
  end.
Definition sensitive_names (additional : list pystr) : py (list pystr) :=
  mandatory ← normalize_names SENSITIVE_NAMES;
  additions ← normalize_names additional;
  Ok (mandatory ++ additions).

Definition sensitive_name (value : pystr) (names : list pystr) : bool :=
  match normalize_sensitive_name value with
  | Ok normalized => str_in normalized names
  | Raise _ => false
  end.

(** ** [canonicalize_url] *)

(** The checks of the authority, and its canonical text. *)
Definition check_raw_port (raw_port : pystr) : bool :=
  negb (forallb is_ascii raw_port) || bool_decide (raw_port = []) || negb (forallb is_digit raw_port)
  || ((1 <? length raw_port)%nat && startswith (u "0") raw_port).

Definition canonical_netloc (scheme : pystr) (parsed : SplitResult) : py pystr :=
  match hostname parsed with
  | None => cerr "missing_url_host"
  | Some name =>
      raise_if (has_char 64 (netloc parsed)) (CanonicalizationError "url_userinfo");;
      raise_if (has_char 37 (netloc parsed)) (CanonicalizationError "invalid_url_host");;
      raise_if (has_char 91 (netloc parsed) || has_char 93 (netloc parsed))
        (CanonicalizationError "unsupported_ipv6");;
      host ← canonical_host name;
      let raw_port := snd <$> rpartition 58 (netloc parsed) in
      raise_if (from_option check_raw_port false raw_port)
        (CanonicalizationError "noncanonical_url_port");;
      port ← map_raise (λ _, CanonicalizationError "invalid_url_port") (port parsed);
      raise_if (bool_decide (port = Some 0)) (CanonicalizationError "invalid_url_port");;
      raise_if (match raw_port with
                | Some text => negb (bool_decide (port = Some (int_of_digits text)))
                | None => false
                end) (CanonicalizationError "noncanonical_url_port");;
      let default_port :=
        str_eqb scheme (u "http") && bool_decide (port = Some 80)
        || str_eqb scheme (u "https") && bool_decide (port = Some 443) in
      Ok match port with
         | Some p => if default_port then host else host ++ [58] ++ decimal p
         | None => host
         end
  end.

(** The loop over the query: normalized and, under a sensitive name, redacted. *)
Fixpoint normalize_pairs (redact : bool) (sensitive : list pystr) (pairs : list (pystr * pystr))
    : py (list (pystr * pystr)) :=
  match pairs with
  | [] => Ok []
  | (raw_key, raw_value) :: pairs' =>
      key ← nfc "invalid_url" raw_key;
      item ← nfc "invalid_url" raw_value;
      reject_ambiguous_url_source key;;
      reject_ambiguous_url_source item;;
      let item := if redact && sensitive_name key sensitive then REDACTED else item in
      r ← normalize_pairs redact sensitive pairs';
      Ok ((key, item) :: r)
  end.

(** [sort(key=lambda item: (item[0], item[2]))]: by name, stable. *)
Fixpoint insert_pair (p : pystr * pystr) (ps : list (pystr * pystr)) : list (pystr * pystr) :=
  match ps with
  | [] => [p]
  | q :: ps' => if str_leb p.1 q.1 then p :: ps else q :: insert_pair p ps'
  end.
Definition sort_pairs (ps : list (pystr * pystr)) : list (pystr * pystr) := foldr insert_pair [] ps.

Definition PATH_SAFE : string := "/:@!$&'()*+,;=-._~".

Definition canonicalize_split (redact : bool) (sensitive_query_keys : list pystr)
    (parsed : SplitResult) : py pystr :=
  let scheme := ascii_lower <$> scheme parsed in
  raise_if (negb (str_in scheme [u "http"; u "https"])) (CanonicalizationError "unsupported_url_scheme");;
  netloc ← canonical_netloc scheme parsed;
  path ← normalize_percent_component
    (if bool_decide (path parsed = []) then [slash] else path parsed) PATH_SAFE;
  let path := remove_url_dot_segments path in
  validate_percent_encoding (query parsed);;
  match parse_qsl (query parsed) with
  | None => cerr "invalid_url_utf8"
  | Some pairs =>
      sensitive ← sensitive_names (SENSITIVE_QUERY_KEYS ++ sensitive_query_keys);
      normalized_pairs ← normalize_pairs redact sensitive pairs;
      query ← urlencode "-._~" (sort_pairs normalized_pairs);
      Ok (urlunsplit scheme netloc path query)
  end.

Definition canonicalize_url (value : pystr) (sensitive_query_keys : list pystr) (redact : bool)
    : py pystr :=
  source ← nfc "invalid_url" value;
  reject_ambiguous_url_source source;;
  parsed ← map_raise (λ _, CanonicalizationError "invalid_url") (urlsplit source);
  canonicalize_split redact sensitive_query_keys parsed.
End url.

(** A database that knows ASCII only, for examples. *)
Program Definition plain_url : UrlData := {|
  str_lower s := ascii_lower <$> s; nfkc_form s := s; check_bracketed_netloc _ := false;
  idna_decode _ := None; idna_encode _ := None;
|}.
Solve All Obligations with done.

Definition canonicalize_plain := canonicalize_url (H := plain_unicode) (H0 := plain_url).

Example canonical_url_example :
  canonicalize_plain (u "HTTPS://Example.COM:443/a/%7Eb/../c%2fd/?z=1&token=abc&a=%20+#frag") [] true
  = Ok (u "https://example.com/a/c%2Fd/?a=%20%20&token=%5BREDACTED%5D&z=1").
Proof. vm_compute. reflexivity. Qed.
