(* ===== verification/UrlFacts.v ===== *)
(** * Properties of canonical URLs

    Dot-segment removal implements the stack semantics of RFC 3986 on segments;
    the host and the port of a canonical URL are canonical; the diagnostic URL
    does not depend on the values of sensitive query parameters; a normalization
    can break an escape; only [CanonicalizationError] leaves. *)

From stdpp Require Import base list list_numbers numbers strings sets.
From S2P Require Import Prelude PyString Errors PyValue Decimal Unicode JsonRoundTrip CanonicalPath PyUrl CanonicalUrl.
Open Scope Z_scope.

(** ** Dot segments *)

(** The path [/s1/s2/...] of a list of segments. *)
Definition absolute (segments : list pystr) : pystr := concat ((λ s, slash :: s) <$> segments).

(** RFC 3986, section 5.2.4, on segments: ["."] and [".."] disappear, the last
    one leaves an empty segment, and empty segments are kept. *)
Fixpoint resolve (output segments : list pystr) : list pystr :=
  match segments with
  | [] => output
  | s :: rest =>
      let again output := match rest with [] => output ++ [[]] | _ => resolve output rest end in
      if str_eqb s (u ".") then again output
      else if str_eqb s (u "..") then again (take (length output - 1) output)
      else resolve (output ++ [s]) rest
  end.

Lemma absolute_app a b : absolute (a ++ b) = absolute a ++ absolute b.
Proof. unfold absolute. by rewrite fmap_app, concat_app. Qed.

Lemma absolute_cons s rest : absolute (s :: rest) = slash :: s ++ absolute rest.
Proof. done. Qed.

Lemma segment_prefix p : ∀ s rest, slash ∉ p → slash ∉ s →
  startswith (p ++ [slash]) (s ++ absolute rest) = bool_decide (s = p ∧ rest ≠ []).
Proof.
  induction p as [|x p IH]; intros s rest Hp Hs.
  - destruct s as [|c s]; [destruct rest as [|r rest]|]; cbn [app].
    + by rewrite bool_decide_eq_false_2 by naive_solver.
    + rewrite bool_decide_eq_true_2 by naive_solver. apply (startswith_app [slash]).
    + rewrite startswith_cons, (proj2 (Z.eqb_neq c slash)) by set_solver.
      by rewrite bool_decide_eq_false_2 by naive_solver.
  - apply not_elem_of_cons in Hp as [Hx Hp]. destruct s as [|c s]; [destruct rest as [|r rest]|]; cbn [app].
    + by rewrite bool_decide_eq_false_2 by naive_solver.
    + rewrite absolute_cons, startswith_cons, (proj2 (Z.eqb_neq slash x)) by done.
      by rewrite bool_decide_eq_false_2 by naive_solver.
    + apply not_elem_of_cons in Hs as [_ Hs]. rewrite startswith_cons, IH by done.
      destruct (Z.eqb_spec c x) as [->|]; cbn; apply bool_decide_ext || symmetry; [naive_solver|].
      rewrite bool_decide_eq_false_2; naive_solver.
Qed.

Lemma segment_equal p s rest : slash ∉ p → slash ∉ s →
  str_eqb (slash :: s ++ absolute rest) (slash :: p) = bool_decide (s = p ∧ rest = []).
Proof.
  intros Hp Hs. unfold str_eqb. apply bool_decide_ext. split.
  - intros [= E]. destruct rest as [|r rest]; [by rewrite app_nil_r in E|].
    rewrite absolute_cons in E. subst p. set_solver.
  - intros [-> ->]. by rewrite app_nil_r.
Qed.

Lemma span_segment s rest : slash ∉ s →
  span (λ c, negb (c =? slash)) (s ++ absolute rest) = (s, absolute rest).
Proof.
  intros Hs. assert (Forall (λ c, negb (c =? slash) = true) s).
  { apply Forall_forall. intros c Hc. apply negb_true_iff, Z.eqb_neq. by intros ->. }
  destruct rest as [|r rest]; [rewrite app_nil_r; by apply span_all|].
  rewrite absolute_cons. by apply span_app_stop.
Qed.

(** [_remove_last_url_segment] drops the last segment. *)
Lemma remove_last_absolute out : Forall (λ s, slash ∉ s) out →
  remove_last_url_segment (absolute out) = absolute (take (length out - 1) out).
Proof.
  intros Hout. destruct out as [|s out] using rev_ind; [done|].
  rewrite length_app, Nat.add_sub, take_app_length. apply Forall_app in Hout as [_ Hs].
  rewrite Forall_singleton in Hs. rewrite absolute_app, absolute_cons, app_nil_r.
  unfold remove_last_url_segment, rpartition, partition.
  replace (rev (absolute out ++ slash :: s)) with (rev s ++ slash :: rev (absolute out)).
  - rewrite span_app_stop; [cbn; by rewrite rev_involutive| |done].
    apply Forall_rev, Forall_forall. intros c Hc. apply negb_true_iff, Z.eqb_neq. intros ->. exact (Hs Hc).
  - rewrite rev_app_distr. cbn. by rewrite <-app_assoc.
Qed.

(** The tests of the loop on an absolute path. *)
Lemma dot_tests p s rest : slash ∉ p → slash ∉ s →
  startswith (slash :: p ++ [slash]) (absolute (s :: rest)) = bool_decide (s = p ∧ rest ≠ []) ∧
  str_eqb (absolute (s :: rest)) (slash :: p) = bool_decide (s = p ∧ rest = []).
Proof.
  intros Hp Hs. rewrite absolute_cons. split; [|by apply segment_equal].
  rewrite startswith_cons, Z.eqb_refl. by apply segment_prefix.
Qed.

Lemma no_slash_dot : (slash ∉ u ".") ∧ (slash ∉ u "..").
Proof. split; apply has_char_false; reflexivity. Qed.

(** One turn of the loop on an absolute path. *)
Lemma dot_segment_step_absolute s rest out :
  slash ∉ s → Forall (λ s, slash ∉ s) out →
  dot_segment_step (absolute (s :: rest)) (absolute out) = Some
    (if str_eqb s (u ".") then (absolute (match rest with [] => [[]] | _ => rest end), absolute out)
     else if str_eqb s (u "..") then
       (absolute (match rest with [] => [[]] | _ => rest end), absolute (take (length out - 1) out))
     else (absolute rest, absolute (out ++ [s]))).
Proof.
  intros Hs Hout. destruct no_slash_dot as [H1 H2]. rewrite <-remove_last_absolute by done.
  destruct (str_eqb s (u ".")) eqn:E1; [apply str_eqb_eq in E1 as ->; by destruct rest|].
  destruct (str_eqb s (u "..")) eqn:E2; [apply str_eqb_eq in E2 as ->; by destruct rest|].
  apply str_eqb_neq in E1, E2. unfold dot_segment_step.
  destruct (dot_tests (u ".") s rest H1 Hs) as [T1 T2].
  destruct (dot_tests (u "..") s rest H2 Hs) as [T3 T4].
  rewrite bool_decide_eq_false_2 in T1, T2, T3, T4 by naive_solver.
  change (startswith (u "/./") (absolute (s :: rest)) = false) in T1.
  change (startswith (u "/../") (absolute (s :: rest)) = false) in T3.
  change (str_eqb (absolute (s :: rest)) (u "/.") = false) in T2.
  change (str_eqb (absolute (s :: rest)) (u "/..") = false) in T4.
  rewrite T1, T2, T3, T4. rewrite absolute_cons, absolute_app, absolute_cons, app_nil_r.
  cbn [app]. unfold str_in.
  rewrite (bool_decide_eq_false_2 (slash :: s ++ absolute rest ∈ _)) by (vm_compute; set_solver).
  rewrite (startswith_app [slash] (s ++ absolute rest)
    : startswith [slash] (slash :: s ++ absolute rest) = true).
  rewrite (bool_decide_eq_false_2 (slash :: _ = [])) by done.
  rewrite (eq_refl : startswith (u "../") (slash :: s ++ absolute rest) = false).
  rewrite (eq_refl : startswith (u "./") (slash :: s ++ absolute rest) = false).
  cbn [drop take]. rewrite drop_0, span_segment by done. done.
Qed.

(** The loop computes [resolve]. *)
Lemma dot_segment_loop_resolve segments : ∀ fuel out,
  (length (absolute segments) < fuel)%nat →
  Forall (λ s, slash ∉ s) segments → Forall (λ s, slash ∉ s) out →
  dot_segment_loop fuel (absolute segments) (absolute out) = absolute (resolve out segments).
Proof.
  assert (∀ fuel out, (1 < fuel)%nat → Forall (λ s, slash ∉ s) out →
    dot_segment_loop fuel (absolute [[]]) (absolute out) = absolute (out ++ [[]])) as Hlast.
  { intros [|[|fuel]] out Hf Ho; [lia|lia|]. cbn [dot_segment_loop].
    rewrite dot_segment_step_absolute by (done || set_solver). done. }
  induction segments as [|s rest IH]; intros fuel out Hf Hs Ho.
  - by destruct fuel; [lia|].
  - apply Forall_cons in Hs as [Hs Hrest]. destruct fuel as [|fuel]; [lia|].
    rewrite absolute_cons, length_cons, length_app in Hf. cbn [dot_segment_loop].
    rewrite dot_segment_step_absolute by done. cbn [resolve].
    destruct (str_eqb s (u ".")) eqn:E1; [|destruct (str_eqb s (u "..")) eqn:E2].
    + apply str_eqb_eq in E1 as ->. change (length (u ".")) with 1%nat in Hf.
      destruct rest; [apply Hlast; [lia|done]|apply IH; [lia|done|done]].
    + apply str_eqb_eq in E2 as ->. change (length (u "..")) with 2%nat in Hf.
      destruct rest; [apply Hlast; [lia|by apply Forall_take]|apply IH; [lia|done|by apply Forall_take]].
    + apply IH; [lia|done|]. apply Forall_app. auto.
Qed.

(** A segment that means itself. *)
Definition plain_segment (s : pystr) : Prop := (slash ∉ s) ∧ s ≠ u "." ∧ s ≠ u "..".

Lemma resolve_segments out segments :
  Forall plain_segment out → Forall (λ s, slash ∉ s) segments →
  Forall plain_segment (resolve out segments).
Proof.
  assert (∀ out, Forall plain_segment out →
    Forall plain_segment (out ++ [[]])) as Hlast.
  { intros o Ho. apply Forall_app. split; [done|]. apply Forall_singleton. unfold plain_segment. set_solver. }
  revert out; induction segments as [|s rest IH]; intros out Ho Hs; [done|].
  apply Forall_cons in Hs as [Hs Hrest]. cbn [resolve].
  destruct (str_eqb s (u ".")) eqn:E1; [destruct rest; auto|].
  destruct (str_eqb s (u "..")) eqn:E2; [destruct rest; auto using Forall_take|].
  apply str_eqb_neq in E1, E2. apply IH; [|done]. apply Forall_app. split; [done|].
  by apply Forall_singleton.
Qed.

(** Segments without dots are not changed. *)
Lemma resolve_fixed out segments :
  Forall plain_segment segments → resolve out segments = out ++ segments.
Proof.
  intros Hs. revert out; induction Hs as [|s rest (_ & H1 & H2) _ IH]; intros out; [by rewrite app_nil_r|].
  cbn [resolve]. rewrite !(proj2 (str_eqb_neq _ _)) by done. rewrite IH. by rewrite <-app_assoc.
Qed.

Lemma resolve_nonempty out segments : segments ≠ [] → resolve out segments ≠ [].
Proof.
  revert out; induction segments as [|s rest IH]; intros out Hne; [done|]. cbn [resolve].
  destruct (str_eqb s (u ".")), (str_eqb s (u "..")), rest; cbn [resolve]; try (by apply IH);
    by intros [_ ?]%app_eq_nil.
Qed.

(** Dot-segment removal implements RFC 3986.  On an absolute path the loop
    returns the path of the resolved segments; none of them is ["."] or [".."],
    empty segments are kept, and the result is a fixed point. *)
Theorem dot_segments_resolved segments :
  segments ≠ [] → Forall (λ s, slash ∉ s) segments →
  remove_url_dot_segments (absolute segments) = absolute (resolve [] segments) ∧
  Forall plain_segment (resolve [] segments) ∧
  remove_url_dot_segments (absolute (resolve [] segments)) = absolute (resolve [] segments).
Proof.
  assert (∀ segs, segs ≠ [] → Forall (λ s, slash ∉ s) segs →
    remove_url_dot_segments (absolute segs) = absolute (resolve [] segs)) as Hremove.
  { intros segs Hne Hs. unfold remove_url_dot_segments. cbv zeta.
    pose proof (dot_segment_loop_resolve segs _ [] (Nat.lt_succ_diag_r _) Hs (Forall_nil_2 _)) as E.
    change (absolute []) with (@nil Z) in E. rewrite E.
    rewrite bool_decide_eq_false_2; [done|].
    pose proof (resolve_nonempty [] segs Hne). by destruct (resolve [] segs). }
  intros Hne Hs. assert (Forall plain_segment (resolve [] segments)) as Hp by (by apply resolve_segments).
  split_and!; [auto|done|]. rewrite Hremove; [by rewrite resolve_fixed|by apply resolve_nonempty|].
  eapply Forall_impl; [exact Hp|]. by intros ? (? & ? & ?).
Qed.

Lemma dot_segments_resolved_witness :
  remove_url_dot_segments (u "/a/./b//../../c/..") = u "/a/" ∧ Forall plain_segment [u "a"; []].
Proof.
  destruct (dot_segments_resolved [u "a"; u "."; u "b"; []; u ".."; u ".."; u "c"; u ".."])
    as (H1 & H2 & _); [done| |by split].
  apply Forall_forall. intros s Hs. apply has_char_false. revert s Hs. apply Forall_forall.
  repeat constructor.
Defined.

(** ** Redaction *)
Section redaction.
Context `{UnicodeData} `{UrlData}.

(** The same parameter, up to the value of a sensitive one. *)
Definition same_but_secret (names : list pystr) (p q : pystr * pystr) : Prop :=
  p.1 = q.1 ∧ (p.2 = q.2 ∨ sensitive_name (nfc_form p.1) names = true).

Lemma normalize_pairs_redacted names ps qs r r' :
  Forall2 (same_but_secret names) ps qs →
  normalize_pairs true names ps = Ok r → normalize_pairs true names qs = Ok r' → r = r'.
Proof.
  intros Hpq. revert r r'.
  induction Hpq as [|[k x] [k' y] ps qs [Hk Hsecret] _ IH]; intros r r' Hr Hr'; cbn in *; inv_ok; [done|].
  same_call. f_equal; [|by eapply IH]. f_equal.
  destruct Hsecret as [->|Hs]; [same_call; done|].
  match goal with E : nfc _ k' = Ok _ |- _ => apply nfc_Ok in E as (-> & _) end. by rewrite Hs.
Qed.

(** The parts of a URL that [canonicalize_url] works on. *)
Definition url_parts (value : pystr) (parsed : SplitResult) : Prop :=
  ∃ source, nfc "invalid_url" value = Ok source ∧ urlsplit source = Ok parsed.

Lemma canonicalize_url_parts value keys b r :
  canonicalize_url value keys b = Ok r → ∃ parsed, url_parts value parsed ∧
  canonicalize_split b keys parsed = Ok r.
Proof. unfold canonicalize_url, url_parts. intros Hr. inv_ok. eauto. Qed.

Lemma canonical_netloc_ext sch p q :
  netloc p = netloc q → canonical_netloc sch p = canonical_netloc sch q.
Proof. intros E. unfold canonical_netloc, hostname, port. by rewrite E. Qed.

(** The diagnostic URL hides secrets.  Two URLs with the same scheme, authority
    and path, whose query parameters differ only in the values of sensitive names,
    have the same canonical form; their fragments do not matter either. *)
Theorem url_redaction_hides_secrets keys names v w p q ps qs r r' :
  url_parts v p → url_parts w q →
  scheme p = scheme q → netloc p = netloc q → path p = path q →
  parse_qsl (query p) = Some ps → parse_qsl (query q) = Some qs →
  sensitive_names (SENSITIVE_QUERY_KEYS ++ keys) = Ok names →
  Forall2 (same_but_secret names) ps qs →
  canonicalize_url v keys true = Ok r → canonicalize_url w keys true = Ok r' → r = r'.
Proof.
  intros (s & Hs & Hp) (t & Ht & Hq) Esch Enet Epath Hps Hqs Hnames Hpq Hr Hr'.
  apply canonicalize_url_parts in Hr as (p' & (s' & Hs' & Hp') & Hr).
  apply canonicalize_url_parts in Hr' as (q' & (t' & Ht' & Hq') & Hr').
  same_call. unfold canonicalize_split in Hr, Hr'.
  rewrite Esch, Epath, Hps, (canonical_netloc_ext _ _ _ Enet) in Hr. rewrite Hqs in Hr'. inv_ok. same_call.
  repeat match goal with A : normalize_pairs _ _ ps = Ok ?x, B : normalize_pairs _ _ qs = Ok ?y |- _ =>
    assert (x = y) as -> by (by eapply normalize_pairs_redacted); clear B end.
  same_call. done.
Qed.
End redaction.

(** ** Hosts and the shape of a canonical URL *)
Lemma is_ascii_iff s : forallb is_ascii s = true ↔ Forall (λ c, 0 ≤ c < 128) s.
Proof.
  rewrite forallb_Forall. apply Forall_proper; [|done]. intros c. unfold is_ascii.
  rewrite andb_true_iff, Z.leb_le, Z.ltb_lt. done.
Qed.

Lemma ascii_lower_bounds c : 0 ≤ c < 128 → 0 ≤ ascii_lower c < 128 ∧ is_upper (ascii_lower c) = false.
Proof.
  intros Hc. unfold ascii_lower. destruct (is_upper c) eqn:E; [|done]. unfold is_upper in *.
  apply andb_true_iff in E as [E1 E2]. refl_bool. split; [lia|].
  apply andb_false_iff. right. refl_bool. lia.
Qed.

Lemma ascii_lower_idem c : 0 ≤ c < 128 → ascii_lower (ascii_lower c) = ascii_lower c.
Proof. intros Hc. unfold ascii_lower at 1. by rewrite (proj2 (ascii_lower_bounds c Hc)). Qed.

(** Lower-casing touches letters only. *)
Lemma ascii_lower_char c x : is_upper c = false → is_lower c = false → ascii_lower x = c ↔ x = c.
Proof.
  intros Hu Hl. unfold ascii_lower. destruct (is_upper x) eqn:E; [|done].
  split; intros Hx; [|congruence]. exfalso. subst c. unfold is_upper, is_lower in *.
  apply andb_true_iff in E as [E1 E2]. apply andb_false_iff in Hl as [Hl|Hl]; refl_bool; lia.
Qed.

Lemma has_char_lower c s : is_upper c = false → is_lower c = false →
  has_char c (ascii_lower <$> s) = has_char c s.
Proof.
  intros Hu Hl. apply eq_true_iff_eq. rewrite <-!not_false_iff_true, !has_char_false.
  split; intros Hn Hin; apply Hn; intros Hin'; apply Hin.
  - apply list_elem_of_fmap in Hin' as (x & E & Hx). symmetry in E. by apply ascii_lower_char in E as ->.
  - apply list_elem_of_fmap. exists c. split; [|done]. symmetry. by apply ascii_lower_char.
Qed.

Lemma endswith_lower c s : is_upper c = false → is_lower c = false →
  endswith [c] (ascii_lower <$> s) = endswith [c] s.
Proof.
  intros Hu Hl. unfold endswith. rewrite length_fmap. f_equal. unfold str_eqb. apply bool_decide_ext.
  rewrite skipn_map. generalize (drop (length s - length [c]) s). intros [|x [|y l]]; cbn; [done| |done].
  split; intros E; injection E as E; apply (ascii_lower_char c x Hu Hl) in E; by rewrite E.
Qed.

Section hosts.
Context `{UnicodeData} `{UrlData}.

Lemma nfc_ascii_length code s t :
  nfc code s = Ok t → Forall (λ c, 0 ≤ c < 128) t → Z.of_nat (length t) ≤ MAX_STRING_BYTES.
Proof.
  intros (_ & _ & Ht)%nfc_Ok Ha. unfold check_text in Ht. rewrite utf8_encode_ascii in Ht by done.
  inv_ok. by refl_bool.
Qed.

(** A canonical host: lower-case ASCII that [_canonical_host] returns unchanged. *)
Lemma canonical_host_idem host r :
  canonical_host host = Ok r →
  canonical_host r = Ok r ∧ forallb is_ascii r = true ∧ has_char 58 r = false ∧ r ≠ [].
Proof.
  intros Hh. unfold canonical_host in Hh. inv_ok.
  assert (Ha : Forall (λ c, 0 ≤ c < 128) x) by (by apply is_ascii_iff).
  rewrite (str_lower_ascii x Ha) in *. set (n := ascii_lower <$> x) in *.
  assert (Forall (λ c, 0 ≤ c < 128) n) as Hn.
  { subst n. rewrite Forall_fmap. eapply Forall_impl; [exact Ha|]. intros c Hc. by apply ascii_lower_bounds. }
  assert (ascii_lower <$> n = n) as Hidem.
  { subst n. rewrite <-list_fmap_compose. apply Forall_fmap_ext_1. eapply Forall_impl; [exact Ha|].
    intros c Hc. by apply ascii_lower_idem. }
  assert (r = n) as ->.
  { destruct (IPv4Address n); inv_ok; [by match goal with E : str_eqb _ _ = true |- _ => apply str_eqb_eq in E end|done]. }
  assert (has_char 58 n = false) as Hcolon by (subst n; by rewrite has_char_lower).
  assert (endswith [46] n = false) as Hdot by (subst n; by rewrite endswith_lower).
  split_and!; [|by apply is_ascii_iff|done|by refl_bool].
  unfold canonical_host. rewrite nfc_ascii by (done || (subst n; rewrite length_fmap; by eapply nfc_ascii_length)). cbn.
  rewrite Hdot, Hcolon, (proj2 (is_ascii_iff n) Hn), str_lower_ascii, Hidem by done. cbn.
  refl_bool. by rewrite bool_decide_eq_false_2.
Qed.
End hosts.

(** ** Percent escapes and normalization

    [_normalize_percent_component] decodes the escapes above ASCII, keeps the
    escapes of reserved ASCII characters as text, and only then normalizes.  The
    last hexadecimal digit of a kept escape can therefore combine with a mark
    that follows it. *)

(** [%3C%CC%A7]: the escapes of ["<"] and of U+0327, the combining cedilla. *)
Definition escaped_cedilla : pystr := u "%3C%CC%A7".

(** Normalization can break an escape.  U+0327 composes with the letter [C], the
    last digit of the kept escape [%3C], so a well-formed URL component is rewritten
    into text that is not valid percent encoding. *)
Theorem escape_recomposed `{UnicodeData} :
  nfc_form [37; 51; 67; 807] = [37; 51; 199] →
  (∀ c, c ∈ [37; 51; 67; 807; 199] → category c ≠ "Cn" ∧ category c ≠ "Cc") →
  validate_percent_encoding escaped_cedilla = Ok () ∧
  normalize_percent_component escaped_cedilla PATH_SAFE = Ok (u "%3%C3%87") ∧
  validate_percent_encoding (u "%3%C3%87") = cerr "invalid_percent_encoding".
Proof.
  intros Hnfc Hcat. split_and!; [reflexivity| |reflexivity].
  assert (∀ (l : pystr) (P : Z → bool), (∀ c, c ∈ l → P c = false) → existsb P l = false) as Hnone.
  { intros l P HP. induction l as [|c l IH]; [done|]. cbn. rewrite HP by set_solver.
    apply IH. set_solver. }
  assert (∀ l, (∀ c, c ∈ l → c ∈ [37; 51; 67; 807; 199]) →
    existsb (λ c, String.eqb (category c) "Cn") l = false) as Hn.
  { intros l Hl. apply Hnone. intros c Hc. apply String.eqb_neq, Hcat. auto. }
  unfold normalize_percent_component. rewrite (eq_refl : validate_percent_encoding escaped_cedilla = Ok ()).
  rewrite (eq_refl : decode_component [] escaped_cedilla = Ok [37; 51; 67; 807]). cbn [mbind result_bind].
  unfold nfc, check_text. rewrite (eq_refl : utf8_encode [37; 51; 67; 807] = Some [37; 51; 67; 204; 167]).
  rewrite Hnfc, (eq_refl : utf8_encode [37; 51; 199] = Some [37; 51; 195; 135]), !Hn by set_solver.
  transitivity (raise_if (existsb is_control [37; 51; 199]) (CanonicalizationError "invalid_url");;
    rendered ← quote (PATH_SAFE +:+ "%") [37; 51; 199]; Ok (upper_escapes rendered)); [reflexivity|].
  rewrite Hnone; [reflexivity|]. intros c Hc. unfold is_control.
  rewrite (proj2 (String.eqb_neq _ _)) by (apply Hcat; set_solver). cbn [orb].
  apply orb_false_iff. split; apply Z.eqb_neq; intros ->; revert Hc; apply has_char_false; reflexivity.
Qed.

(** ** A normalization that composes the cedilla *)
Fixpoint compose_cedilla (s : pystr) : pystr :=
  match s with
  | [] => []
  | c :: s' =>
      match s' with
      | d :: rest =>
          if (c =? 67) && (d =? 807) then 199 :: compose_cedilla rest else c :: compose_cedilla s'
      | [] => [c]
      end
  end.

Lemma compose_cedilla_cons c s :
  (c = 67 → head s ≠ Some 807) → compose_cedilla (c :: s) = c :: compose_cedilla s.
Proof.
  intros Hc. destruct s as [|d rest]; [done|]. cbn. destruct ((c =? 67) && (d =? 807)) eqn:E; [|done].
  apply andb_true_iff in E as [->%Z.eqb_eq ->%Z.eqb_eq]. by destruct (Hc eq_refl).
Qed.

Lemma compose_cedilla_head s : head (compose_cedilla s) = Some 807 → head s = Some 807.
Proof.
  destruct s as [|c [|d rest]]; [done|done|]. cbn. by destruct ((c =? 67) && (d =? 807)).
Qed.

Lemma compose_cedilla_idem s : compose_cedilla (compose_cedilla s) = compose_cedilla s.
Proof.
  enough (∀ n s, (length s <= n)%nat → compose_cedilla (compose_cedilla s) = compose_cedilla s) by eauto.
  induction n as [|n IH]; intros [|c [|d rest]] Hn; cbn in Hn; try lia; try done.
  destruct ((c =? 67) && (d =? 807)) eqn:E.
  - cbn [compose_cedilla]. rewrite E, compose_cedilla_cons, IH by (done || lia). done.
  - assert (compose_cedilla (c :: d :: rest) = c :: compose_cedilla (d :: rest)) as ->.
    { cbn [compose_cedilla]. by rewrite E. }
    rewrite compose_cedilla_cons, IH; [done|cbn; lia|]. intros -> Hd%compose_cedilla_head.
    injection Hd as ->. done.
Qed.

Lemma compose_cedilla_ascii s : Forall (λ c, 0 ≤ c < 128) s → compose_cedilla s = s.
Proof.
  induction 1 as [|c s Hc Hs IH]; [done|]. rewrite compose_cedilla_cons, IH; [done|].
  intros _. destruct Hs; [done|]. cbn. intros [= ->]. lia.
Qed.

Program Definition cedilla_unicode : UnicodeData :=
  {| nfc_form := compose_cedilla; category := λ _, "Lo" |}.
Next Obligation. apply compose_cedilla_idem. Qed.
Next Obligation. by apply compose_cedilla_ascii. Qed.
Next Obligation. done. Qed.

Lemma escape_recomposed_witness :
  normalize_percent_component (H := cedilla_unicode) escaped_cedilla PATH_SAFE = Ok (u "%3%C3%87").
Proof. apply (escape_recomposed (H := cedilla_unicode)); [reflexivity|]. intros c _. split; done. Defined.

(** ** Errors of the URL canonicalizer

    [canonicalize_url] leaves with a [CanonicalizationError] or returns: the
    conversions that could raise another exception only see text that was
    checked before. *)

Lemma decode_run_craises run : craises (decode_run run).
Proof. unfold decode_run. solve_craises. Qed.
#[local] Hint Resolve decode_run_craises : craises.

Lemma decode_escapes_craises encoded : ∀ run, craises (decode_escapes run encoded).
Proof.
  induction encoded as [|b encoded IH]; intros run; cbn [decode_escapes]; [auto with craises|].
  destruct (b <? 128); [|apply IH]. solve_craises.
Qed.
#[local] Hint Resolve decode_escapes_craises : craises.

Lemma decode_component_other encoded c rest : (c =? 37) = false →
  decode_component encoded (c :: rest)
  = (pre ← decode_escapes [] encoded; post ← decode_component [] rest; Ok (pre ++ c :: post)).
Proof. intros E. cbn [decode_component]. by rewrite E. Qed.

(** Escapes that were validated decode without [ValueError]. *)
Lemma decode_component_craises value : ∀ encoded,
  validate_percent_encoding value = Ok () → craises (decode_component encoded value).
Proof.
  enough (∀ n value encoded, (length value <= n)%nat →
    validate_percent_encoding value = Ok () → craises (decode_component encoded value)) by eauto.
  induction n as [|n IH]; intros [|c rest] encoded Hn Hv; cbn [length] in Hn; try lia;
    [apply decode_escapes_craises..|].
  cbn [validate_percent_encoding] in Hv. destruct (c =? 37) eqn:E.
  - cbn [decode_component]. rewrite E. destruct rest as [|a [|b rest]]; [done|done|].
    destruct (hex_byte a b); [|done]. apply IH; [cbn in Hn; lia|done].
  - rewrite decode_component_other by done. apply craises_bind; [auto with craises|]. intros pre.
    apply craises_bind; [|auto with craises]. apply IH; [lia|done].
Qed.

Lemma validate_percent_craises value : craises (validate_percent_encoding value).
Proof.
  enough (∀ n v, (length v <= n)%nat → craises (validate_percent_encoding v)) by eauto.
  induction n as [|n IH]; intros [|c rest] Hn; cbn [length] in Hn; try lia; [apply craises_Ok..|].
  cbn [validate_percent_encoding]. destruct (c =? 37); [|apply IH; lia].
  destruct rest as [|a [|b rest]]; [auto with craises..|].
  destruct (hex_byte a b); [apply IH; cbn in Hn; lia|auto with craises].
Qed.
#[local] Hint Resolve validate_percent_craises : craises.

Section url_errors.
Context `{UnicodeData} `{UrlData}.

(** Text that [_nfc] accepted can be quoted. *)
Lemma quote_nfc safe code s t : nfc code s = Ok t → ∃ r, quote safe t = Ok r.
Proof. intros (b & Hb)%nfc_encodes. unfold quote. rewrite Hb. eauto. Qed.

Lemma normalize_percent_craises value safe : craises (normalize_percent_component value safe).
Proof.
  unfold normalize_percent_component. intros e [He|([] & Hv & He)]%bind_Raise_iff.
  - by eapply validate_percent_craises.
  - revert e He. change (craises (output ← decode_component [] value; normalized ← nfc "invalid_url" output;
      raise_if (existsb is_control normalized) (CanonicalizationError "invalid_url");;
      rendered ← quote (safe +:+ "%") normalized; Ok (upper_escapes rendered))).
    apply craises_bind; [by apply decode_component_craises|]. intros output.
    intros e [He|(normalized & Hn & He)]%bind_Raise_iff; [by eapply nfc_craises|].
    destruct (quote_nfc (safe +:+ "%") _ _ _ Hn) as (r & Hr). rewrite Hr in He. revert e He.
    change (craises (raise_if (existsb is_control normalized) (CanonicalizationError "invalid_url");;
      Ok (upper_escapes r))). solve_craises.
Qed.
#[local] Hint Resolve normalize_percent_craises : craises.

Lemma check_a_labels_craises labels : craises (check_a_labels labels).
Proof.
  induction labels as [|l ls IH]; cbn [check_a_labels]; [auto with craises|].
  apply craises_bind; [|done]. unfold check_a_label. solve_craises.
Qed.
#[local] Hint Resolve check_a_labels_craises : craises.

Lemma canonical_host_craises host : craises (canonical_host host).
Proof. unfold canonical_host. solve_craises. Qed.
#[local] Hint Resolve canonical_host_craises : craises.

Lemma reject_craises s : craises (reject_ambiguous_url_source s).
Proof. unfold reject_ambiguous_url_source. solve_craises. Qed.
#[local] Hint Resolve reject_craises : craises.

Lemma map_raise_craises {A} code (m : py A) : craises (map_raise (λ _, CanonicalizationError code) m).
Proof. intros e. destruct m; [done|]. intros [= <-]. eauto. Qed.
#[local] Hint Resolve map_raise_craises : craises.

Lemma canonical_netloc_craises sch parsed : craises (canonical_netloc sch parsed).
Proof. unfold canonical_netloc. solve_craises. Qed.
#[local] Hint Resolve canonical_netloc_craises : craises.

Lemma normalize_sensitive_name_craises v : craises (normalize_sensitive_name v).
Proof. unfold normalize_sensitive_name. solve_craises. Qed.
#[local] Hint Resolve normalize_sensitive_name_craises : craises.

Lemma normalize_names_craises names : craises (normalize_names names).
Proof. induction names; cbn [normalize_names]; solve_craises. Qed.
#[local] Hint Resolve normalize_names_craises : craises.

Lemma sensitive_names_craises names : craises (sensitive_names names).
Proof. unfold sensitive_names. solve_craises. Qed.
#[local] Hint Resolve sensitive_names_craises : craises.

Lemma normalize_pairs_craises b names pairs : craises (normalize_pairs b names pairs).
Proof. induction pairs as [|[k v] pairs IH]; cbn [normalize_pairs]; solve_craises. Qed.
#[local] Hint Resolve normalize_pairs_craises : craises.

(** The pairs of the query can be encoded. *)
Definition encodable (s : pystr) : Prop := is_Some (utf8_encode s).

Lemma normalize_pairs_encodable b names pairs : ∀ r,
  normalize_pairs b names pairs = Ok r → Forall (λ p, encodable p.1 ∧ encodable p.2) r.
Proof.
  induction pairs as [|[k v] pairs IH]; intros r Hr; cbn in Hr; inv_ok; constructor; [|by apply IH].
  cbn. split; [by eapply nfc_encodes|]. destruct (_ && _); [by eexists|by eapply nfc_encodes].
Qed.

Lemma insert_pair_perm p ps : insert_pair p ps ≡ₚ p :: ps.
Proof.
  induction ps as [|q ps IH]; [done|]. cbn. destruct (str_leb p.1 q.1); [done|].
  rewrite IH. apply perm_swap.
Qed.

Lemma sort_pairs_perm ps : sort_pairs ps ≡ₚ ps.
Proof. induction ps as [|p ps IH]; [done|]. cbn. by rewrite insert_pair_perm, IH. Qed.

Lemma urlencode_Ok safe pairs :
  Forall (λ p, encodable p.1 ∧ encodable p.2) pairs → ∃ r, urlencode safe pairs = Ok r.
Proof.
  unfold urlencode. intros Hp. enough (∃ fs, urlencode_fields safe pairs = Ok fs) as (fs & ->) by eauto.
  induction Hp as [|[k v] pairs [[a Ha] [b Hb]] _ (fs & IH)]; [eauto|]. cbn in *. unfold quote.
  rewrite Ha, Hb. cbn. rewrite IH. eauto.
Qed.

Lemma canonicalize_split_craises b keys parsed : craises (canonicalize_split b keys parsed).
Proof.
  unfold canonicalize_split. repeat (apply craises_bind; [auto with craises|intros ?]).
  destruct (parse_qsl _) as [pairs|]; [|auto with craises].
  apply craises_bind; [auto with craises|]. intros names.
  intros e [He|(r & Hr & He)]%bind_Raise_iff; [by eapply normalize_pairs_craises|].
  destruct (urlencode_Ok "-._~" (sort_pairs r)) as (q & Hq).
  { rewrite sort_pairs_perm. by eapply normalize_pairs_encodable. }
  rewrite Hq in He. done.
Qed.

Lemma canonicalize_url_craises value keys b : craises (canonicalize_url value keys b).
Proof.
  unfold canonicalize_url. do 3 (apply craises_bind; [auto with craises|intros ?]).
  apply canonicalize_split_craises.
Qed.
End url_errors.
#[export] Hint Resolve canonicalize_url_craises sensitive_names_craises : craises.
