(* ===== verification/UrlShape.v ===== *)
(** * The shape of a canonical URL

    The result of [canonicalize_url] is an absolute HTTP(S) URL of URL characters
    with a canonical authority; the fragment, the user information and the
    default port are gone and the query is sorted. *)

From stdpp Require Import base list list_numbers numbers strings sets sorting.
From S2P Require Import Prelude PyString Errors PyValue Decimal Unicode JsonRoundTrip CanonicalPath PyUrl.
From S2P Require Import CanonicalUrl UrlFacts.
Open Scope Z_scope.

(** The characters of a canonical URL. *)
Definition url_char (c : Z) : bool := always_safe c || one_of "/:@!$&'()*+,;=?%" c.
Abbreviation url_text := (Forall (λ c, url_char c = true)).

Lemma url_char_alnum c : is_alnum c = true → url_char c = true.
Proof. unfold url_char, always_safe. by intros ->. Qed.

Lemma url_text_digits s : Forall (λ c, is_digit c = true) s → url_text s.
Proof.
  intros Hs. eapply Forall_impl; [exact Hs|]. intros c Hc. apply url_char_alnum. unfold is_alnum.
  by rewrite Hc, orb_true_r.
Qed.

(** ** Percent encoding *)
Lemma utf8_char_bytes c b : utf8_char c = Some b → Forall (λ x, 0 ≤ x < 256) b.
Proof.
  unfold utf8_char. intros Hb.
  repeat match type of Hb with (if ?t then _ else _) = _ => destruct t eqn:? end; try done;
    injection Hb as <-; refl_bool;
    repeat constructor; try lia; Z.to_euclidean_division_equations; lia.
Qed.

Lemma utf8_encode_bytes s : ∀ b, utf8_encode s = Some b → Forall (λ x, 0 ≤ x < 256) b.
Proof.
  induction s as [|c s IH]; intros b Hb; [by injection Hb as <-|].
  apply utf8_encode_cons in Hb as (x & y & Hx & Hy & ->). apply Forall_app.
  eauto using utf8_char_bytes.
Qed.

Lemma upper_hex_url d : 0 ≤ d < 16 → url_char (upper_hex d) = true.
Proof.
  intros Hd. apply url_char_alnum. unfold upper_hex, is_alnum, is_alpha, is_upper, is_lower, is_digit.
  destruct (d <? 10) eqn:E; refl_bool; rewrite !orb_true_iff, !andb_true_iff, !Z.leb_le; lia.
Qed.

Lemma percent_byte_url b : 0 ≤ b < 256 → url_text (percent_byte b).
Proof.
  intros Hb. unfold percent_byte. repeat constructor; apply upper_hex_url;
    Z.to_euclidean_division_equations; lia.
Qed.

Lemma quote_url safe s r :
  (∀ c, one_of safe c = true → url_char c = true) → quote safe s = Ok r → url_text r.
Proof.
  intros Hsafe. unfold quote. destruct (utf8_encode s) as [bs|] eqn:E; [|done]. intros [= <-].
  apply utf8_encode_bytes in E. induction E as [|b bs Hb _ IH]; [constructor|]. cbn.
  apply Forall_app. split; [|done]. unfold quote_byte.
  destruct (always_safe b || one_of safe b) eqn:Hs; [|by apply percent_byte_url].
  repeat constructor. apply orb_true_iff in Hs as [Hs|Hs]; [|auto]. unfold url_char. by rewrite Hs.
Qed.

Lemma ascii_upper_url c : url_char c = true → url_char (ascii_upper c) = true.
Proof.
  unfold ascii_upper. destruct (is_lower c) eqn:E; [|done]. intros _. apply url_char_alnum.
  unfold is_alnum, is_alpha, is_upper, is_lower, is_digit in *. apply andb_true_iff in E as [E1 E2].
  refl_bool. rewrite !orb_true_iff, !andb_true_iff, !Z.leb_le. lia.
Qed.

Lemma upper_escapes_eq c a b rest :
  upper_escapes (c :: a :: b :: rest)
  = if (c =? 37) && bool_decide (is_Some (hex_byte a b))
    then 37 :: ascii_upper a :: ascii_upper b :: upper_escapes rest
    else c :: upper_escapes (a :: b :: rest).
Proof. done. Qed.

Lemma upper_escapes_url s : url_text s → url_text (upper_escapes s).
Proof.
  enough (∀ n s, (length s <= n)%nat → url_text s → url_text (upper_escapes s)) by eauto.
  induction n as [|n IH]; intros [|c [|a [|b rest]]] Hn Hs; cbn in Hn; try lia; try done;
    repeat match goal with E : Forall _ (_ :: _) |- _ => apply Forall_cons in E as [? ?] end.
  all: try solve [cbn; repeat constructor; done].
  rewrite upper_escapes_eq. destruct (_ && _).
  - repeat constructor; auto using ascii_upper_url. apply IH; [lia|done].
  - constructor; [done|]. apply IH; [cbn; lia|]. by repeat constructor.
Qed.

Lemma literal_subset (safe : string) (P : Z → bool) :
  forallb P (u safe) = true → ∀ c, one_of safe c = true → P c = true.
Proof.
  rewrite forallb_forall. unfold one_of, has_char. intros HP c (x & Hx & <-%Z.eqb_eq)%existsb_exists.
  auto.
Qed.

(** ** Dot segments only rearrange the path *)
Lemma span_Forall (P : Z → Prop) f s : Forall P s → Forall P (span f s).1 ∧ Forall P (span f s).2.
Proof.
  intros Hs. destruct (span f s) as [a b] eqn:E. apply span_prefix in E as [-> _].
  by apply Forall_app in Hs.
Qed.

Lemma remove_last_Forall (P : Z → Prop) s : Forall P s → Forall P (remove_last_url_segment s).
Proof.
  intros Hs. unfold remove_last_url_segment, rpartition, partition.
  destruct (span _ (rev s)) as [a [|x b]] eqn:E; cbn; [constructor|].
  apply span_prefix in E as [E _]. apply (f_equal (@rev Z)) in E. rewrite rev_involutive in E. subst s.
  rewrite rev_app_distr in Hs. apply Forall_app in Hs as [Hs _]. cbn in Hs. apply Forall_app in Hs as [Hs _]. exact Hs.
Qed.

Lemma dot_segment_step_Forall (P : Z → Prop) rem out rem' out' :
  P slash → Forall P rem → Forall P out → dot_segment_step rem out = Some (rem', out') →
  Forall P rem' ∧ Forall P out'.
Proof.
  intros Hslash Hr Ho. unfold dot_segment_step.
  repeat match goal with |- (if ?t then _ else _) = _ → _ => destruct t end; try done;
    try (intros [= <- <-]; rewrite ?Forall_app, ?Forall_cons; auto using Forall_drop, remove_last_Forall).
  set (start := if startswith [slash] rem then 1%nat else 0%nat).
  destruct (span_Forall P (λ c, negb (c =? slash)) (drop start rem)) as [H1 H2];
    [by apply Forall_drop|]. destruct (span _ _) as [a b]. intros [= <- <-].
  rewrite !Forall_app. auto using Forall_take.
Qed.

Lemma dot_segment_loop_Forall (P : Z → Prop) fuel : ∀ rem out,
  P slash → Forall P rem → Forall P out → Forall P (dot_segment_loop fuel rem out).
Proof.
  induction fuel as [|fuel IH]; intros rem out Hs Hr Ho; [done|]. cbn [dot_segment_loop].
  destruct (dot_segment_step rem out) as [[rem' out']|] eqn:E; [|done].
  apply (dot_segment_step_Forall P) in E as [? ?]; auto.
Qed.

Lemma remove_dots_url s : url_text s → url_text (remove_url_dot_segments s).
Proof.
  intros Hs. unfold remove_url_dot_segments. cbv zeta. destruct (bool_decide _); [by repeat constructor|].
  by apply dot_segment_loop_Forall.
Qed.

(** ** The authority *)
Lemma Forall_join (P : Z → Prop) c parts : P c → Forall (Forall P) parts → Forall P (join [c] parts).
Proof.
  intros Hc Hp. apply Forall_forall. intros x [->|(p & Hin & Hx)]%elem_of_join; [done|].
  rewrite Forall_forall in Hp. specialize (Hp p Hin). rewrite Forall_forall in Hp. auto.
Qed.

Lemma Forall_split (P : Z → Prop) c s : P c → Forall (Forall P) (split_on c s) → Forall P s.
Proof.
  intros Hc. induction s as [|x s IH]; [constructor|]. cbn. destruct (Z.eqb_spec x c) as [->|].
  - intros [_ Hs]%Forall_cons. constructor; auto.
  - destruct (split_on c s) as [|w ws]; intros [Hw Hws]%Forall_cons; apply Forall_cons in Hw as [? Hw];
      constructor; auto.
Qed.

Lemma decimal_digits z : Forall (λ c, is_digit c = true) (decimal z).
Proof. unfold decimal. destruct (z =? 0); [by repeat constructor|apply digits_are_digits]. Qed.

Lemma ipv4_str_url octets : url_text (ipv4_str octets).
Proof.
  apply Forall_join; [done|]. apply Forall_fmap, Forall_true. intros z.
  apply url_text_digits, decimal_digits.
Qed.

Lemma dns_label_url label : DNS_LABEL label = true → url_text label.
Proof.
  unfold DNS_LABEL. destruct label as [|c label]; [constructor|]. destruct (last _); [|done].
  rewrite !andb_true_iff. intros [[_ Hl] _]. apply forallb_Forall in Hl.
  eapply Forall_impl; [exact Hl|]. intros x [Hx|Hx]%orb_true_iff; [|by apply Z.eqb_eq in Hx as ->].
  apply url_char_alnum. unfold is_host_char, is_alnum, is_alpha in *.
  apply orb_true_iff in Hx as [->| ->]; by rewrite ?orb_true_r.
Qed.

(** ** The query *)
Definition name_le (p q : pystr * pystr) : Prop := str_leb p.1 q.1 = true.

Lemma insert_pair_sorted p ps : Sorted name_le ps → Sorted name_le (insert_pair p ps).
Proof.
  induction 1 as [|q ps Hs IH Hq]; cbn; [by repeat constructor|].
  destruct (str_leb p.1 q.1) eqn:E; [by repeat constructor|].
  constructor; [done|]. apply str_leb_total in E. destruct ps as [|q' ps]; cbn; [by constructor|].
  inversion Hq; subst. destruct (str_leb p.1 q'.1); by constructor.
Qed.

Lemma sort_pairs_sorted ps : Sorted name_le (sort_pairs ps).
Proof. induction ps; cbn; [constructor|by apply insert_pair_sorted]. Qed.

(** Parameters of one name keep their order. *)
Lemma sort_pairs_stable k ps :
  filter (λ p, p.1 = k) (sort_pairs ps) = filter (λ p, p.1 = k) ps.
Proof.
  induction ps as [|p ps IH]; [done|]. cbn [sort_pairs foldr]. rewrite filter_cons, <-IH.
  fold (sort_pairs ps). generalize (sort_pairs ps). clear IH. intros l.
  induction l as [|q l IH]; cbn [insert_pair]; [by rewrite filter_cons|].
  destruct (str_leb p.1 q.1) eqn:E; [by rewrite filter_cons|]. rewrite !filter_cons, IH.
  case_decide as Hq; [|done]. case_decide as Hp; [|done]. exfalso. rewrite Hp, <-Hq in E.
  unfold str_leb in E. by rewrite (proj2 (str_compare_eq _ _) eq_refl) in E.
Qed.

Lemma urlencode_fields_url pairs : ∀ fields,
  urlencode_fields "-._~" pairs = Ok fields → Forall (Forall (λ c, url_char c = true)) fields.
Proof.
  induction pairs as [|[k v] pairs IH]; intros fields Hf; cbn in Hf; inv_ok; [constructor|].
  constructor; [|by apply IH].
  assert (∀ s r, quote "-._~" s = Ok r → url_text r) as Hq.
  { intros s r. apply quote_url. by apply literal_subset. }
  apply Forall_app. split; [by eapply Hq|]. constructor; [done|]. by eapply Hq.
Qed.

Section shape.
Context `{UnicodeData} `{UrlData}.

Lemma canonical_host_url host r : canonical_host host = Ok r → url_text r.
Proof.
  unfold canonical_host. intros Hr. inv_ok. destruct (IPv4Address _); inv_ok; [apply ipv4_str_url|].
  apply (Forall_split _ 46); [done|]. eapply Forall_impl; [by apply forallb_Forall|].
  apply dns_label_url.
Qed.

Definition default_port (sch : pystr) : Z := if str_eqb sch (u "http") then 80 else 443.

(** The text after the host: nothing, or a port that is not the default. *)
Definition port_suffix (sch text : pystr) : Prop :=
  text = [] ∨ ∃ p, text = [58] ++ decimal p ∧ 0 < p ≤ 65535 ∧ p ≠ default_port sch.

Lemma port_range parsed p : port parsed = Ok (Some p) → 0 ≤ p ≤ 65535.
Proof.
  unfold port. destruct (hostinfo _).2; [|done]. intros Hp. inv_ok. refl_bool. split; congruence || lia.
Qed.

Lemma canonical_netloc_shape sch parsed n :
  str_in sch [u "http"; u "https"] = true → canonical_netloc sch parsed = Ok n →
  ∃ host text, n = host ++ text ∧ canonical_host host = Ok host ∧ url_text host ∧ host ≠ [] ∧
    port_suffix sch text.
Proof.
  intros Hsch. unfold canonical_netloc. destruct (hostname parsed) as [name|]; [|done]. intros Hn. inv_ok.
  match goal with E : canonical_host name = Ok ?h |- _ =>
    pose proof (canonical_host_url _ _ E); destruct (canonical_host_idem _ _ E) as (? & _ & _ & ?);
    exists h end.
  match goal with E : port parsed = Ok ?o |- _ => destruct o as [p|] end;
    [|exists []; rewrite app_nil_r; by repeat (split; [done|]); left].
  match goal with E : port parsed = _ |- _ => apply port_range in E end.
  match goal with |- context [if ?t then _ else _] => destruct t eqn:Ed end;
    [exists []; rewrite app_nil_r; by repeat (split; [done|]); left|].
  exists ([58] ++ decimal p). split_and!; try done. right. exists p. refl_bool.
  split_and!; [done|destruct (decide (p = 0)); [congruence|lia]|lia|]. unfold default_port. intros ->.
  apply bool_decide_eq_true in Hsch. apply orb_false_iff in Ed as [E1 E2].
  destruct (str_eqb sch (u "http")) eqn:E; [done|]. apply str_eqb_neq in E.
  assert (sch = u "https") as -> by set_solver. done.
Qed.

Lemma normalize_percent_url value r :
  normalize_percent_component value PATH_SAFE = Ok r → url_text r.
Proof.
  unfold normalize_percent_component. intros Hr. inv_ok. apply upper_escapes_url.
  eapply quote_url; [|eassumption]. by apply literal_subset.
Qed.

Lemma urlunsplit_shape sch n path q :
  sch ≠ [] → path ≠ [] → url_text path →
  ∃ path', startswith [slash] path' = true ∧ url_text path' ∧
    urlunsplit sch n path q = sch ++ u "://" ++ n ++ path' ++ (if bool_decide (q = []) then [] else [63] ++ q).
Proof.
  intros Hsch Hpath Hu. unfold urlunsplit. rewrite (bool_decide_eq_true_2 (path ≠ [])) by done.
  rewrite (bool_decide_eq_false_2 (sch = [])) by done. cbn [andb].
  set (path' := if negb _ then _ else _). exists path'. split_and!.
  - subst path'. destruct (startswith [slash] path) eqn:E; [done|]. apply (startswith_app [slash]).
  - subst path'. destruct (negb _); [by constructor|done].
  - change (u "://") with ([58] ++ u "//"). destruct (bool_decide (q = [])); rewrite <-?app_assoc, ?app_nil_r; done.
Qed.

Lemma remove_dots_nonempty s : remove_url_dot_segments s ≠ [].
Proof. unfold remove_url_dot_segments. cbv zeta. by case_bool_decide. Qed.

Lemma port_suffix_url sch text : port_suffix sch text → url_text text.
Proof.
  intros [->|(p & -> & _)]; [constructor|]. constructor; [done|]. apply url_text_digits, decimal_digits.
Qed.

(** The proof of the shape of a canonical URL. *)
Lemma canonicalize_url_form value keys redact r :
  canonicalize_url value keys redact = Ok r →
  ∃ sch host text path q,
    r = sch ++ u "://" ++ host ++ text ++ path ++ q ∧ url_text r ∧
    sch ∈ [u "http"; u "https"] ∧ canonical_host host = Ok host ∧ port_suffix sch text ∧
    startswith [slash] path = true ∧
    (q = [] ∨ ∃ pairs, Sorted name_le pairs ∧ urlencode "-._~" pairs = Ok (drop 1 q) ∧ head q = Some 63).
Proof.
  intros (parsed & _ & Hr)%canonicalize_url_parts. unfold canonicalize_split in Hr. inv_ok.
  set (sch := ascii_lower <$> scheme parsed) in *.
  match goal with E : canonical_netloc _ _ = Ok ?n |- _ =>
    apply canonical_netloc_shape in E as (host & text & -> & Hhost & Hhu & Hne & Hport) end; [|done].
  apply bool_decide_eq_true in Hx. destruct (parse_qsl (query parsed)) as [pairs|]; [|done]. inv_ok.
  match goal with E : urlencode _ (sort_pairs ?ps) = Ok ?y |- _ =>
    rename E into Hq; rename y into q; set (sorted := sort_pairs ps) in Hq end.
  assert (url_text sch ∧ sch ≠ []) as [Hsu Hsne].
  { clear -Hx. apply elem_of_cons in Hx as [->| ->%list_elem_of_singleton]; split; try done;
      apply forallb_Forall; reflexivity. }
  destruct (urlunsplit_shape sch (host ++ text) (remove_url_dot_segments x1) q) as (path' & Hp & Hpu & ->);
    [done|apply remove_dots_nonempty|by eapply remove_dots_url, normalize_percent_url|].
  exists sch, host, text, path', (if bool_decide (q = []) then [] else [63] ++ q).
  rewrite <-app_assoc. split_and!; try done.
  - rewrite !Forall_app. split_and!; try done; [by apply forallb_Forall|by eapply port_suffix_url|].
    destruct (bool_decide (q = [])); [constructor|]. constructor; [done|]. unfold urlencode in Hq. inv_ok.
    apply Forall_join; [done|]. by eapply urlencode_fields_url.
  - case (bool_decide (q = [])); [by left|right]. exists sorted. split_and!; [apply sort_pairs_sorted|done|done].
Qed.

(** The shape of a canonical URL.  It is [scheme://host[:port]/path[?query]] in
    URL characters, with the scheme HTTP(S), a host that is canonical itself, a
    port only if it is not the default, an absolute path and the parameters
    sorted by name. *)
Theorem canonical_url_shape value keys redact r :
  canonicalize_url value keys redact = Ok r →
  ∃ sch host text path q,
    r = sch ++ u "://" ++ host ++ text ++ path ++ q ∧ url_text r ∧
    sch ∈ [u "http"; u "https"] ∧ canonical_host host = Ok host ∧ port_suffix sch text ∧
    startswith [slash] path = true ∧
    (q = [] ∨ ∃ pairs, Sorted name_le pairs ∧ urlencode "-._~" pairs = Ok (drop 1 q) ∧ head q = Some 63).
Proof. apply canonicalize_url_form. Qed.
End shape.

(** ** Examples *)
Lemma canonical_url_shape_witness :
  url_text (u "https://example.com/a/c%2Fd/?a=%20%20&token=%5BREDACTED%5D&z=1").
Proof.
  destruct (canonical_url_shape (H := plain_unicode) (H0 := plain_url)
    (u "HTTPS://Example.COM:443/a/%7Eb/../c%2fd/?z=1&token=abc&a=%20+#frag") [] true
    (u "https://example.com/a/c%2Fd/?a=%20%20&token=%5BREDACTED%5D&z=1"))
    as (sch & host & text & path & q & E & Hu & _); [vm_compute; reflexivity|exact Hu].
Defined.

Lemma url_redaction_hides_secrets_witness :
  u "http://h/?token=%5BREDACTED%5D" = u "http://h/?token=%5BREDACTED%5D".
Proof.
  apply (url_redaction_hides_secrets (H := plain_unicode) (H0 := plain_url) []
    (u <$> ["access-key"; "access-key"; "api-key"; "api-key"; "authorization"; "cookie"; "password";
            "secret"; "token"; "access-key"; "access-token"; "api-key"; "apikey"; "authorization"; "code";
            "credential"; "password"; "secret"; "signature"; "token"]%string)
    (u "http://h?token=abc") (u "http://h?token=xyz")
    {| scheme := u "http"; netloc := u "h"; path := []; query := u "token=abc"; fragment := [] |}
    {| scheme := u "http"; netloc := u "h"; path := []; query := u "token=xyz"; fragment := [] |}
    [(u "token", u "abc")] [(u "token", u "xyz")]); [| |reflexivity..| |vm_compute; reflexivity|
    vm_compute; reflexivity].
  - exists (u "http://h?token=abc"). split; vm_compute; reflexivity.
  - exists (u "http://h?token=xyz"). split; vm_compute; reflexivity.
  - constructor; [|constructor]. split; [reflexivity|right]. vm_compute. reflexivity.
Defined.
