(* ===== verification/Shell.v ===== *)
(** * Shell commands

    Models [shlex.split] of the Python standard library in POSIX mode, and
    [_redact_header], [_redact_shell_tokens] and [canonicalize_shell] of
    [_canonicalize.py]: the diagnostic tokens of a command next to a hash of the
    whole command. *)

From stdpp Require Import base list list_numbers numbers strings sets.
From S2P Require Import Prelude PyString Errors Sha256 PyValue Decimal Unicode JsonRoundTrip CanonicalPath PyUrl.
From S2P Require Import CanonicalUrl UrlFacts.
Open Scope Z_scope.

(** ** [shlex.split(s, posix=True)] *)

(** Between tokens, inside a word, inside the quotes [q], and after a backslash
    in a word ([None]) or in double quotes. *)
Inductive lex_state := LSpace | LWord | LQuote (q : Z) | LEscape (back : option Z).

Definition lex_whitespace (c : Z) : bool := (c =? 32) || (c =? 9) || (c =? 13) || (c =? 10).
Definition is_quote (c : Z) : bool := (c =? 39) || (c =? 34).
Definition backslash : Z := 92.

(** The end of a token: an empty one counts only when it was quoted. *)
Definition emit (token : pystr) (quoted : bool) (tokens : list pystr) : list pystr :=
  if bool_decide (token = []) && negb quoted then tokens else token :: tokens.

(** [None] is [ValueError]: no closing quotation, or no escaped character. *)
Fixpoint shlex_loop (state : lex_state) (token : pystr) (quoted : bool) (s : pystr)
    : option (list pystr) :=
  match s with
  | [] =>
      match state with
      | LSpace | LWord => Some (emit token quoted [])
      | LQuote _ | LEscape _ => None
      end
  | c :: s' =>
      match state with
      | LSpace | LWord =>
          if lex_whitespace c then emit token quoted <$> shlex_loop LSpace [] false s'
          else if c =? backslash then shlex_loop (LEscape None) token quoted s'
          else if is_quote c then shlex_loop (LQuote c) token quoted s'
          else shlex_loop LWord (token ++ [c]) quoted s'
      | LQuote q =>
          if c =? q then shlex_loop LWord token true s'
          else if (c =? backslash) && (q =? 34) then shlex_loop (LEscape (Some q)) token true s'
          else shlex_loop (LQuote q) (token ++ [c]) true s'
      | LEscape None => shlex_loop LWord (token ++ [c]) quoted s'
      | LEscape (Some q) =>
          let token := if negb (c =? backslash) && negb (c =? q) then token ++ [backslash] else token in
          shlex_loop (LQuote q) (token ++ [c]) quoted s'
      end
  end.
Definition shlex_split (s : pystr) : option (list pystr) := shlex_loop LSpace [] false s.

Example shlex_example :
  shlex_split (u "curl  -H 'A: b c' x\ y") = Some [u "curl"; u "-H"; u "A: b c"; u "x y"].
Proof. reflexivity. Qed.

(** ** Redaction *)
Section shell.
Context `{UnicodeData} `{UrlData}.

Definition redact_header (value : pystr) : pystr :=
  match partition 58 value with
  | Some (name, _) =>
      if str_in (str_lower (strip name))
           [u "authorization"; u "cookie"; u "proxy-authorization"; u "set-cookie"]
      then strip name ++ u ": " ++ REDACTED
      else value
  | None => value
  end.

(** [-H] and [--header]: the next token is a header. *)
Definition is_header_flag (token : pystr) : bool := str_in token [u "-H"; u "--header"].

(** A URL token; a URL that is not canonical is replaced as a whole. *)
Definition redact_url (token : pystr) (names : list pystr) : py pystr :=
  match canonicalize_url token names true with
  | Raise (CanonicalizationError _) => Ok (u "[URL]")
  | r => r
  end.

Definition is_url (token : pystr) : bool :=
  startswith (u "http://") (str_lower token) || startswith (u "https://") (str_lower token).

(** The token as it is shown, and what it says about the next one. *)
Inductive next_token := NPlain | NRedact | NHeader.

Definition redact_token (names : list pystr) (token : pystr) : py (pystr * next_token) :=
  if is_header_flag token then Ok (token, NHeader)
  else if startswith (u "--header=") token then Ok (u "--header=" ++ REDACTED, NPlain)
  else if startswith (u "-H") token && (2 <? length token)%nat then Ok (u "-H" ++ REDACTED, NPlain)
  else
    match partition 61 token with
    | Some (name, _) =>
        if sensitive_name name names then Ok (name ++ [61] ++ REDACTED, NPlain)
        else if sensitive_name token names then Ok (token, NRedact)
        else if is_url token then (λ t, (t, NPlain)) <$> redact_url token names
        else Ok (redact_header token, NPlain)
    | None =>
        if sensitive_name token names then Ok (token, NRedact)
        else if is_url token then (λ t, (t, NPlain)) <$> redact_url token names
        else Ok (redact_header token, NPlain)
    end.

Fixpoint redact_tokens (names : list pystr) (next : next_token) (tokens : list pystr)
    : py (list pystr) :=
  match tokens with
  | [] => Ok match next with NPlain => [] | NRedact | NHeader => [REDACTED] end
  | token :: tokens' =>
      match next with
      | NRedact | NHeader => cons REDACTED <$> redact_tokens names NPlain tokens'
      | NPlain =>
          '(shown, next) ← redact_token names token;
          cons shown <$> redact_tokens names next tokens'
      end
  end.
Definition redact_shell_tokens (tokens names : list pystr) : py (list pystr) :=
  redact_tokens names NPlain tokens.

(** [canonical_hash] of bytes. *)
Definition bytes_hash (payload : pybytes) : pystr := u "sha256:" ++ sha256_hexdigest payload.

Definition canonicalize_shell (command : pystr) (additional_sensitive_names : list pystr) : py pyval :=
  normalized ← nfc "invalid_shell_command" command;
  names ← sensitive_names additional_sensitive_names;
  match utf8_encode normalized with
  | None => Raise ValueError
  | Some payload =>
      tokens ← match shlex_split normalized with
               | None => Ok [u "[UNPARSEABLE]"]
               | Some tokens => redact_shell_tokens tokens names
               end;
      Ok (PDict [(u "commandHash", PStr (bytes_hash payload)); (u "tokens", PList (PStr <$> tokens))])
  end.

(** ** Prefixes of a text with a separator *)
Lemma startswith_before p c n a : c ∉ p → startswith p (n ++ c :: a) = startswith p n.
Proof.
  revert n; induction p as [|x p IH]; intros n Hc; [done|]. apply not_elem_of_cons in Hc as [? Hc].
  destruct n as [|y n]; cbn [app].
  - rewrite startswith_cons, (proj2 (Z.eqb_neq c x)) by done. done.
  - by rewrite !startswith_cons, IH.
Qed.

Lemma startswith_upto p c n a : c ∉ p → c ∉ n → startswith (p ++ [c]) (n ++ c :: a) = str_eqb n p.
Proof.
  revert n; induction p as [|x p IH]; intros n Hp Hn; cbn [app].
  - destruct n as [|y n]; cbn [app]; rewrite startswith_cons; [by rewrite Z.eqb_refl|].
    rewrite (proj2 (Z.eqb_neq y c)) by set_solver. done.
  - apply not_elem_of_cons in Hp as [? Hp]. destruct n as [|y n]; cbn [app]; rewrite startswith_cons.
    + by rewrite (proj2 (Z.eqb_neq c x)).
    + rewrite IH by set_solver. unfold str_eqb. destruct (Z.eqb_spec y x) as [->|]; cbn;
        [apply bool_decide_ext; naive_solver|]. symmetry. apply bool_decide_eq_false. naive_solver.
Qed.

(** ** What the diagnostic tokens hide *)

(** The flags whose next token is hidden. *)
Definition hides_next (names : list pystr) (token : pystr) : Prop :=
  ∃ shown next, redact_token names token = Ok (shown, next) ∧ next ≠ NPlain.

(** Two tokens that are shown alike: equal, headers of any content, assignments to
    the same sensitive name, or URLs with the same diagnostic form. *)
Inductive token_alike (names : list pystr) : pystr → pystr → Prop :=
| alike_refl t : token_alike names t t
| alike_long_header a b : token_alike names (u "--header=" ++ a) (u "--header=" ++ b)
| alike_short_header c a d b : token_alike names (u "-H" ++ c :: a) (u "-H" ++ d :: b)
| alike_secret n a b :
    sensitive_name n names = true → 61 ∉ n → token_alike names (n ++ 61 :: a) (n ++ 61 :: b)
| alike_url a b :
    is_url a = true → is_url b = true → redact_token names a = redact_token names b →
    token_alike names a b.

(** Two commands that differ in secrets only. *)
Inductive same_but_secrets (names : list pystr) : list pystr → list pystr → Prop :=
| secrets_nil : same_but_secrets names [] []
| secrets_hidden flag a b ts ts' :
    hides_next names flag → same_but_secrets names ts ts' →
    same_but_secrets names (flag :: a :: ts) (flag :: b :: ts')
| secrets_last flag : hides_next names flag → same_but_secrets names [flag] [flag]
| secrets_token t t' ts ts' :
    ¬ hides_next names t → token_alike names t t' → same_but_secrets names ts ts' →
    same_but_secrets names (t :: ts) (t' :: ts').

Lemma redact_secret names n a : sensitive_name n names = true → 61 ∉ n →
  redact_token names (n ++ 61 :: a)
  = if str_eqb n (u "--header") then Ok (u "--header=" ++ REDACTED, NPlain)
    else if startswith (u "-H") n then Ok (u "-H" ++ REDACTED, NPlain)
    else Ok (n ++ [61] ++ REDACTED, NPlain).
Proof.
  intros Hs Hn. unfold redact_token.
  assert (is_header_flag (n ++ 61 :: a) = false) as ->.
  { apply bool_decide_eq_false. assert (61 ∈ n ++ 61 :: a) as Hin by set_solver.
    intros [E|E%list_elem_of_singleton]%elem_of_cons; rewrite E in Hin; revert Hin;
      apply has_char_false; reflexivity. }
  rewrite (startswith_upto (u "--header") 61) by (done || apply has_char_false; reflexivity).
  destruct (str_eqb n (u "--header")); [done|].
  rewrite (startswith_before (u "-H") 61) by (apply has_char_false; reflexivity).
  destruct (startswith (u "-H") n) eqn:E.
  - destruct n as [|x [|y n]]; [done|by apply str_eqb_eq in E|].
    rewrite (proj2 (Nat.ltb_lt _ _)) by (rewrite length_app; cbn; lia). done.
  - cbn [andb]. unfold partition. rewrite span_app_stop; [by rewrite Hs| |done].
    apply Forall_forall. intros c Hc. apply negb_true_iff, Z.eqb_neq. by intros ->.
Qed.

Lemma token_alike_redact names t t' : token_alike names t t' → redact_token names t = redact_token names t'.
Proof.
  intros [ | | | n a b Hs Hn| ]; [done|done|done|by rewrite !redact_secret|done].
Qed.

Lemma redact_token_total names t : ∃ r, redact_token names t = Ok r.
Proof.
  assert (∃ r, redact_url t names = Ok r) as (r & Hr).
  { unfold redact_url. destruct (canonicalize_url t names true) as [r|e] eqn:E; [eauto|].
    apply canonicalize_url_craises in E as (c & ->). eauto. }
  unfold redact_token. rewrite Hr. destruct (partition 61 t) as [[name item]|];
    repeat match goal with |- context [if ?b then _ else _] => destruct b end; eauto.
Qed.

Lemma redact_tokens_total names tokens : ∀ next, ∃ r, redact_tokens names next tokens = Ok r.
Proof.
  induction tokens as [|t ts IH]; intros next; [cbn; eauto|]. cbn [redact_tokens].
  destruct (IH NPlain) as (r & Hr). destruct next; [|rewrite Hr; eauto..].
  destruct (redact_token_total names t) as ([shown next] & ->). cbn.
  destruct (IH next) as (r' & ->). cbn. eauto.
Qed.

(** Diagnostic tokens hide secrets.  Commands that differ only in the tokens after
    a sensitive option or a header option, in the contents of headers and in the
    values assigned to sensitive names have the same diagnostic tokens; and every
    command has some. *)
Theorem shell_redaction_hides_secrets names ts ts' :
  same_but_secrets names ts ts' →
  ∃ shown, redact_shell_tokens ts names = Ok shown ∧ redact_shell_tokens ts' names = Ok shown.
Proof.
  intros Hts. destruct (redact_tokens_total names ts NPlain) as (r & Hr). exists r.
  split; [done|]. rewrite <-Hr. clear r Hr. unfold redact_shell_tokens. symmetry.
  induction Hts as [|flag a b ts ts' (shown & next & Hf & Hn) _ IH|flag _|t t' ts ts' Hf Ht _ IH];
    [done| |done|]; cbn [redact_tokens].
  - rewrite Hf. cbn. by destruct next; [done|rewrite IH..].
  - rewrite <-(token_alike_redact _ _ _ Ht). destruct (redact_token names t) as [[shown next]|] eqn:E; [|done].
    cbn. assert (next = NPlain) as -> by (destruct next; [done|destruct Hf; by exists shown; eexists..]).
    by rewrite IH.
Qed.

(** The command hash binds the command.  Two commands with the same [commandHash]
    are the same text after normalization, or SHA-256 collides on them. *)
Theorem shell_hash_binds c c' names names' h ts ts' :
  canonicalize_shell c names = Ok (PDict [(u "commandHash", h); ts]) →
  canonicalize_shell c' names' = Ok (PDict [(u "commandHash", h); ts']) →
  nfc_form c = nfc_form c' ∨
  ∃ b b', utf8_encode (nfc_form c) = Some b ∧ utf8_encode (nfc_form c') = Some b' ∧ b ≠ b' ∧
    sha256_hexdigest b = sha256_hexdigest b'.
Proof.
  unfold canonicalize_shell. intros Hc Hc'. inv_ok.
  repeat match goal with E : nfc _ _ = Ok _ |- _ => apply nfc_Ok in E as (-> & _) end.
  destruct (utf8_encode (nfc_form c)) as [b|] eqn:Hb; [|done].
  destruct (utf8_encode (nfc_form c')) as [b'|] eqn:Hb'; [|done]. inv_ok. simplify_eq.
  unfold bytes_hash in *. simplify_list_eq.
  destruct (decide (b = b')) as [->|]; [left|right; by eauto 10]. by eapply utf8_encode_inj.
Qed.
End shell.

(** ** Examples *)
Definition plain_names : list pystr := [u "password"; u "token"].

Lemma shell_redaction_hides_secrets_witness :
  ∃ shown,
    redact_shell_tokens (H := plain_unicode) (H0 := plain_url)
      [u "curl"; u "--password"; u "a"; u "-Hx: y"; u "token=1"] plain_names = Ok shown ∧
    redact_shell_tokens (H := plain_unicode) (H0 := plain_url)
      [u "curl"; u "--password"; u "bb"; u "-Hz"; u "token=22"] plain_names = Ok shown.
Proof.
  apply (shell_redaction_hides_secrets (H := plain_unicode) (H0 := plain_url)).
  apply secrets_token; [|apply alike_refl|].
  { intros (shown & next & E & Hn). vm_compute in E. congruence. }
  apply secrets_hidden; [by exists (u "--password"), NRedact|].
  apply secrets_token; [|apply (alike_short_header _ 120 (u ": y") 122 [])|].
  { intros (shown & next & E & Hn). vm_compute in E. congruence. }
  apply secrets_token; [|apply (alike_secret _ (u "token") (u "1") (u "22"));
    [reflexivity|apply has_char_false; reflexivity]|apply secrets_nil].
  intros (shown & next & E & Hn). vm_compute in E. congruence.
Defined.

Lemma shell_hash_binds_witness :
  nfc_form (UnicodeData := plain_unicode) (u "ls") = nfc_form (UnicodeData := plain_unicode) (u "ls") ∨
  ∃ b b', utf8_encode (u "ls") = Some b ∧ utf8_encode (u "ls") = Some b' ∧ b ≠ b' ∧
    sha256_hexdigest b = sha256_hexdigest b'.
Proof.
  apply (shell_hash_binds (H := plain_unicode) (H0 := plain_url) (u "ls") (u "ls") [] [u "k"]
    (PStr (bytes_hash (u "ls"))) (u "tokens", PList [PStr (u "ls")]) (u "tokens", PList [PStr (u "ls")]));
    vm_compute; reflexivity.
Defined.
