(* ===== verification/Redaction.v ===== *)
(** * Redaction of diagnostics

    Models [python/src/palonexus/redaction.py]: the redactor of texts, headers,
    queries, URLs and shell commands, and the loop that copies nested values.

    The first part is what the file uses of [re] beyond [Regex]: substitution and
    iteration observe which match the backtracking engine finds first, so [match_at]
    tries the alternatives in the order of Python.  The tables of the Unicode
    database and the C function [log2] are the classes [TextData] and [FloatLog2]. *)

From stdpp Require Import base list list_numbers numbers strings gmap.
From Stdlib Require Import SpecFloat.
From S2P Require Import Prelude PyString Errors PyValue Decimal Unicode JsonScan JsonRoundTrip CanonicalPath PyUrl.
From S2P Require Import CanonicalUrl Shell PyFloat.
Open Scope Z_scope.

(** ** Characters *)

(** [unicodedata.category], the predicates and the simple lower case of [str] and of
    [re] for one character, with their values for ASCII. *)
Class TextData := {
  std_category : Z → string;
  char_isalnum : Z → bool;
  char_islower : Z → bool;
  char_isupper : Z → bool;
  char_isdigit : Z → bool;
  char_tolower : Z → Z;
  std_category_ascii c : 32 ≤ c < 127 → std_category c ≠ "Cc" ∧ std_category c ≠ "Cf";
  char_isalnum_ascii c : 0 ≤ c < 128 → char_isalnum c = is_alnum c;
  char_islower_ascii c : 0 ≤ c < 128 → char_islower c = is_lower c;
  char_isupper_ascii c : 0 ≤ c < 128 → char_isupper c = is_upper c;
  char_isdigit_ascii c : 0 ≤ c < 128 → char_isdigit c = is_digit c;
  char_tolower_ascii c : 0 ≤ c < 128 → char_tolower c = ascii_lower c;
}.

(** [math.log2] of a positive float. *)
Class FloatLog2 := { c_log2 : float → float }.

(** ** Patterns

    A position is the character before it, if any, and the rest of the text. *)
Definition position : Type := option Z * pystr.

Inductive group := GName | GSeparator | GValue | GScheme.
#[global] Instance group_eq_dec : EqDecision group.
Proof. solve_decision. Defined.

(** [Many p m n]: greedy repetition of a class, [p{m,n}]; [Behind p] and [Ahead p]:
    [(?<!p)] and [(?!p)]; [Boundary p]: [\b] for the word characters [p]. *)
Inductive pattern :=
| Many (p : Z → bool) (least : nat) (most : option nat)
| Then (a b : pattern)
| Or (a b : pattern)
| Group (g : group) (a : pattern)
| Behind (p : Z → bool)
| Ahead (p : Z → bool)
| Boundary (p : Z → bool).

Definition One (p : Z → bool) : pattern := Many p 1 (Some 1%nat).
Definition Char (c : Z) : pattern := One (Z.eqb c).
Fixpoint Literal (f : Z → Z → bool) (c : Z) (s : pystr) : pattern :=
  match s with [] => One (f c) | c' :: s => Then (One (f c)) (Literal f c' s) end.

Definition groups : Type := list (group * pystr).
Definition holds (p : Z → bool) (c : option Z) : bool := match c with Some c => p c | None => false end.
Definition below (n : nat) (most : option nat) : bool := match most with Some m => (n <? m)%nat | None => true end.

(** The repetition from [n] characters on: as many as possible, then fewer. *)
Fixpoint repeat_from {A} (p : Z → bool) (least : nat) (most : option nat) (k : position → option A)
    (n : nat) (before : option Z) (s : pystr) : option A :=
  let here := if (least <=? n)%nat then k (before, s) else None in
  match s with
  | c :: s' =>
      if p c && below n most then
        match repeat_from p least most k (S n) (Some c) s' with Some r => Some r | None => here end
      else here
  | [] => here
  end.

(** The first match in the order of the engine that [k] accepts. *)
Fixpoint match_at {A} (r : pattern) (k : position → groups → option A) (pos : position) (gs : groups) : option A :=
  match r with
  | Many p least most => repeat_from p least most (λ pos, k pos gs) 0 pos.1 pos.2
  | Then a b => match_at a (match_at b k) pos gs
  | Or a b => match match_at a k pos gs with Some x => Some x | None => match_at b k pos gs end
  | Group g a =>
      match_at a (λ pos' gs', k pos' ((g, take (length pos.2 - length pos'.2) pos.2) :: gs')) pos gs
  | Behind p => if holds p pos.1 then None else k pos gs
  | Ahead p => if holds p (head pos.2) then None else k pos gs
  | Boundary p => if bool_decide (holds p pos.1 = holds p (head pos.2)) then None else k pos gs
  end.

(** [m.group(g)]. *)
Definition group_of (g : group) (gs : groups) : pystr := default [] (list_find (λ x, x.1 = g) gs ≫= λ x, Some x.2.2).

(** A match: its text, its groups and the position after it. *)
Definition found : Type := pystr * groups * position.
Definition match_here (r : pattern) (pos : position) : option found :=
  match_at r (λ pos' gs, Some (take (length pos.2 - length pos'.2) pos.2, gs, pos')) pos [].

(** [r.sub(f, text)] and [r.finditer(text)] for a pattern that matches no empty text,
    with the length of the text as fuel. *)
Fixpoint sub_from (r : pattern) (f : pystr → groups → pystr) (fuel : nat) (pos : position) : pystr :=
  match fuel, pos.2 with
  | S fuel, c :: s =>
      match match_here r pos with
      | Some (text, gs, pos') => f text gs ++ sub_from r f fuel pos'
      | None => c :: sub_from r f fuel (Some c, s)
      end
  | _, s => s
  end.
Definition sub (r : pattern) (f : pystr → groups → pystr) (text : pystr) : pystr :=
  sub_from r f (length text) (None, text).

Fixpoint finditer_from (r : pattern) (fuel : nat) (pos : position) : list (pystr * groups) :=
  match fuel, pos.2 with
  | S fuel, c :: s =>
      match match_here r pos with
      | Some (text, gs, pos') => (text, gs) :: finditer_from r fuel pos'
      | None => finditer_from r fuel (Some c, s)
      end
  | _, _ => []
  end.
Definition finditer (r : pattern) (text : pystr) : list (pystr * groups) :=
  finditer_from r (length text) (None, text).

(** ** Names and texts *)
Definition CONTROL : pystr := u "[CONTROL]".
Definition CYCLE : pystr := u "[CYCLE]".
Definition MAX_DEPTH : pystr := u "[MAX_DEPTH]".
Definition LIMIT : pystr := u "[LIMIT]".
Definition TRUNCATED : pystr := u "[TRUNCATED]".
Definition UNPARSEABLE : pystr := u "[UNPARSEABLE]".

Definition MANDATORY_NAMES : list pystr :=
  u <$> ["access-key"; "access-token"; "api-key"; "apikey"; "authorization"; "client-secret"; "code"; "cookie";
         "credential"; "password"; "passwd"; "proxy-authorization"; "secret"; "set-cookie"; "signature"; "token";
         "x-access-token"; "x-api-key"]%string.

(** [[A-Za-z0-9_-]]. *)
Definition name_char (c : Z) : bool := is_alnum c || one_of "_-" c.

Definition PORTABLE_NAME (s : pystr) : bool :=
  match s with [] => false | c :: s => is_alnum c && forallb name_char s && (length s <=? 63)%nat end.

(** [_PERCENT_ESCAPE.search(s) is not None]. *)
Definition is_hex (c : Z) : bool := match hex_value c with Some _ => true | None => false end.
Fixpoint has_percent_escape (s : pystr) : bool :=
  match s with
  | [] => false
  | c :: s' =>
      (c =? 37) && match s' with a :: b :: _ => is_hex a && is_hex b | _ => false end || has_percent_escape s'
  end.

(** [re.sub(r"(?i)%25", "%", s)]. *)
Fixpoint peel_percent (s : pystr) : pystr :=
  match s with
  | 37 :: 50 :: 53 :: s' => 37 :: peel_percent s'
  | c :: s' => c :: peel_percent s'
  | [] => []
  end.

Definition len (s : pystr) : Z := Z.of_nat (length s).

(** The loop of [_bounded_percent_decode]; [None] when a text gets too long. *)
Fixpoint percent_rounds (rounds : nat) (max_length : Z) (current : pystr) : option pystr :=
  match rounds with
  | O => Some current
  | S rounds =>
      let decoded := match unquote current with Some s => s | None => peel_percent current end in
      if max_length <? len decoded then None
      else if str_eqb decoded current then Some current
      else percent_rounds rounds max_length decoded
  end.

Definition bounded_percent_decode (value : pystr) (max_length : Z) : pystr * bool :=
  if max_length <? len value then ([], true)
  else match percent_rounds 3 max_length value with
       | Some current => (current, has_percent_escape current)
       | None => ([], true)
       end.

(** ** Entropy *)

(** [Counter(value).values()], in the order of the first occurrences. *)
Fixpoint count_char (c : Z) (counts : list (Z * Z)) : list (Z * Z) :=
  match counts with
  | [] => [(c, 1)]
  | (x, n) :: counts => if x =? c then (x, n + 1) :: counts else (x, n) :: count_char c counts
  end.
Definition Counter (value : pystr) : list (Z * Z) := foldl (λ counts c, count_char c counts) [] value.

(** [sum] of floats, with the compensation of Python since 3.12. *)
Fixpoint sum_loop (total c : float) (xs : list float) : float :=
  match xs with
  | [] => if SFeqb c fzero || negb (isfinite c) then total else fadd total c
  | x :: xs =>
      let t := fadd total x in
      let e := if fle (SFabs x) (SFabs total) then fadd (fsub total t) x else fadd (fsub x t) total in
      sum_loop t (fadd c e) xs
  end.
Definition float_sum (xs : list float) : float :=
  match xs with [] => fzero | x :: xs => sum_loop (fadd fzero x) fzero xs end.

(** ** Queries *)

(** [bytes.decode("utf-8", "replace")]: one U+FFFD for each invalid sequence, whose
    length is that of the longest valid beginning, and of the rest if that is cut off. *)
Definition second_byte (a b : Z) : bool :=
  is_cont b && negb ((a =? 224) && (b <? 160)) && negb ((a =? 237) && (160 <=? b))
  && negb ((a =? 240) && (b <? 144)) && negb ((a =? 244) && (144 <=? b)).
Definition invalid_length (bs : pybytes) : nat :=
  match bs with
  | a :: b :: r =>
      if (224 <=? a) && (a <=? 244) && second_byte a b then
        if a <=? 239 then 2 else match r with c :: _ => if is_cont c then 3 else 2 | [] => 2 end
      else 1
  | _ => 1
  end.
Fixpoint utf8_replacing (fuel : nat) (bs : pybytes) : pystr :=
  match fuel, bs with
  | S fuel, _ :: _ =>
      match utf8_step bs with
      | Some (c, r) => c :: utf8_replacing fuel r
      | None => 65533 :: utf8_replacing fuel (drop (invalid_length bs) bs)
      end
  | _, _ => []
  end.

(** [unquote(s)]. *)
Definition decode_run_replacing (run : pystr) : pystr :=
  let bs := unquote_to_bytes run in utf8_replacing (length bs) bs.
Fixpoint unquote_replacing_runs (run s : pystr) : pystr :=
  match s with
  | [] => decode_run_replacing run
  | c :: s' =>
      if is_ascii c then unquote_replacing_runs (run ++ [c]) s'
      else decode_run_replacing run ++ c :: unquote_replacing_runs [] s'
  end.
Definition unquote_replacing (s : pystr) : pystr := if has_char 37 s then unquote_replacing_runs [] s else s.

(** [parse_qsl(qs, keep_blank_values=True, max_num_fields=most)]. *)
Definition parse_qsl_replacing (qs : pystr) (most : Z) : py (list (pystr * pystr)) :=
  match qs with
  | [] => Ok []
  | _ =>
      let fields := split_on 38 qs in
      raise_if (most <? Z.of_nat (length fields)) ValueError;;
      let field nv := let '(n, v) := split_once 61 nv in
                      (unquote_replacing (replace_char 43 32 n), unquote_replacing (replace_char 43 32 v)) in
      Ok (field <$> filter (λ nv, nv ≠ []) fields)
  end.

(** [quote_plus(s)] and [urlencode(pairs, doseq=True)] of texts. *)
Definition quote_plus (s : pystr) : py pystr := replace_char 32 43 <$> quote " " s.
Fixpoint urlencode_plus_fields (pairs : list (pystr * pystr)) : py (list pystr) :=
  match pairs with
  | [] => Ok []
  | (k, v) :: pairs => k ← quote_plus k; v ← quote_plus v; r ← urlencode_plus_fields pairs; Ok ((k ++ [61] ++ v) :: r)
  end.
Definition urlencode_plus (pairs : list (pystr * pystr)) : py pystr := join [38] <$> urlencode_plus_fields pairs.

(** ** Values

    A value is a scalar, a text, bytes, an object that can be iterated, given by its
    identity, or any other object. *)
Inductive item :=
| INone
| IBool (b : bool)
| IInt (z : Z)
| IFloat (f : float)
| IText (s : pystr)
| IBytes
| IMapping (id : positive)
| ISequence (id : positive)
| IOther.

(** What iterating an object yields, and whether it ends or raises after that; for
    [items()] of a mapping [None] is something that is not a pair. *)
Record iteration (A : Type) := Iteration { produced : list A; ends : bool }.
Arguments Iteration {A} _ _.
Arguments produced {A} _.
Arguments ends {A} _.

(** The objects of the program, which may answer differently at different times. *)
Record environment := Environment {
  mapping_items : nat → positive → iteration (option (item * item));
  sequence_items : nat → positive → iteration item;
}.

(** The objects as they answer [n] times later. *)
Definition later (env : environment) (n : nat) : environment :=
  Environment (λ now, mapping_items env (n + now)) (λ now, sequence_items env (n + now)).

(** The copy: texts and numbers, mappings with their entries in order, and lists. *)
Inductive leaf := LNone | LBool (b : bool) | LInt (z : Z) | LFloat (f : float) | LText (s : pystr).
Inductive output :=
| OLeaf (l : leaf)
| OMapping (entries : list (pystr * output))
| OSequence (elements : list output).

(** While it is built, the copy is a store of mutable dictionaries and lists. *)
Inductive cell := Leaf (l : leaf) | Ref (n : nat).
Inductive container := CMapping (entries : list (pystr * cell)) | CSequence (elements : list cell).
Inductive slot := SKey (k : pystr) | SIndex (i : nat).

(** [target[key] = item]. *)
Definition assign (store : list container) (target : nat) (key : slot) (x : cell) : list container :=
  alter (λ c, match c, key with
              | CMapping entries, SKey k => CMapping (assoc_set k x entries)
              | CSequence elements, SIndex i => CSequence (<[i := x]> elements)
              | _, _ => c
              end) target store.

(** The object that a cell stands for, with the height of the copy as fuel. *)
Fixpoint read_cell (fuel : nat) (store : list container) (x : cell) : option output :=
  match x with
  | Leaf l => Some (OLeaf l)
  | Ref n =>
      match fuel, store !! n with
      | S fuel, Some (CMapping entries) =>
          OMapping <$> mapM (λ '(k, x), pair k <$> read_cell fuel store x) entries
      | S fuel, Some (CSequence elements) => OSequence <$> mapM (read_cell fuel store) elements
      | _, _ => None
      end
  end.

(** [snapshots]: what was captured of an object, and whether it has more. *)
Inductive snapshot := SMapping (pairs : list (item * item)) (truncated : bool) | SSequence (items : list item) (truncated : bool).

(** The first [most] elements, and whether there are more; [None] if iterating raises. *)
Definition capture {A} (most : nat) (it : iteration A) : option (list A * bool) :=
  if (most <? length (produced it))%nat then Some (take most (produced it), true)
  else if ends it then Some (produced it, false) else None.

Record frame := Frame {
  f_item : item; f_depth : Z; f_path : list positive; f_target : nat; f_key : slot;
}.

(** The variables of the loop of [redact]: what it counts and remembers, and the store. *)
Record counters := Counters { nodes : nat; used_bytes : Z; snapshots : gmap positive snapshot }.
Record copying := Copying { counted : counters; store : list container }.

Section text.
Context `{TextData} `{FloatLog2}.

Definition entropy (value : pystr) : float :=
  match value with
  | [] => fzero
  | _ =>
      let share n := true_divide n (Z.to_pos (len value)) in
      SFopp (float_sum ((λ '(_, n), fmul (share n) (c_log2 (share n))) <$> Counter value))
  end.

Definition looks_like_secret (value : pystr) : bool :=
  if len value <? 24 then false
  else
    let classes := length (filter (λ b : bool, b = true)
      [existsb char_islower value; existsb char_isupper value; existsb char_isdigit value;
       existsb (λ c, negb (char_isalnum c)) value]) in
    (2 <=? classes)%nat && (10 <=? length (Counter value))%nat
    && fle (true_divide 7 2) (entropy value).

Definition redact_candidates (text : pystr) (_ : groups) : pystr :=
  if looks_like_secret text then REDACTED else text.

(** ** Control characters *)
Definition default_ignorable (c : Z) : bool :=
  bool_decide (std_category c = "Cc") || bool_decide (std_category c = "Cf")
  || (65024 <=? c) && (c <=? 65039) || (917760 <=? c) && (c <=? 917999).

Definition control_char (c : Z) : bool :=
  default_ignorable c || (c <? 32) || (127 <=? c) && (c <=? 159)
  || bool_decide (c ∈ [1564; 8206; 8207; 8232; 8233; 8234; 8235; 8236; 8237; 8238; 8294; 8295; 8296; 8297]).

Definition has_control (value : pystr) : bool := existsb control_char value.

Definition replace_controls (value : pystr) : pystr :=
  concat ((λ c, if control_char c then CONTROL else [c]) <$> value).

Definition visible (value : pystr) : pystr := filter (λ c, default_ignorable c = false) value.

Definition normalize_name (value : pystr) : py pystr :=
  raise_if (256 <? len value) ValueError;;
  let '(decoded, unresolved) := bounded_percent_decode value 256 in
  raise_if unresolved ValueError;;
  let normalized := drop_while (Z.eqb 45) (strip (visible decoded)) in
  raise_if (bool_decide (normalized = []) || negb (forallb is_ascii normalized) || negb (PORTABLE_NAME normalized))
    ValueError;;
  Ok (replace_char 95 45 (ascii_lower <$> normalized)).

(** ** The patterns of credentials *)

(** A literal character under [re.IGNORECASE]; [i] and [s] have a second lower-case
    form each. *)
Definition ignoring_case (x c : Z) : bool :=
  let l := char_tolower c in
  (l =? x) || (x =? 105) && (l =? 305) || (x =? 115) && (l =? 383).

Definition word_char (c : Z) : bool := char_isalnum c || (c =? 95).

(** [[A-Za-z0-9._~+/\-=]] under [re.IGNORECASE]. *)
Definition auth_char (c : Z) : bool :=
  let l := char_tolower c in
  is_lower l || is_digit l || one_of "._~+/-=" l || (l =? 305) || (l =? 383).

Definition JWT : pattern :=
  Then (Behind name_char)
    (Then (Many name_char 8 None) (Then (Char 46)
      (Then (Many name_char 8 None) (Then (Char 46)
        (Then (Many name_char 8 None) (Ahead name_char)))))).

(** [Bearer|Basic]. *)
Definition SCHEMES : pattern :=
  Or (Literal ignoring_case 98 (u "earer")) (Literal ignoring_case 98 (u "asic")).

Definition AUTH_SCHEME : pattern :=
  Then (Boundary word_char)
    (Then (Group GScheme SCHEMES) (Then (Many is_whitespace 1 None) (Many auth_char 4 None))).

(** [[^\s,;&]] and [[^\s,;&:=]]. *)
Definition value_char (c : Z) : bool := negb (is_whitespace c || one_of ",;&" c).
Definition assigned_char (c : Z) : bool := negb (is_whitespace c || one_of ",;&:=" c).

Definition quoted (q : Z) : pattern := Then (Char q) (Then (Many (λ c, negb (c =? q)) 0 None) (Char q)).

Definition NAMED_ASSIGNMENT : pattern :=
  Then (Group GName (Many assigned_char 1 (Some 256%nat)))
    (Then (Group GSeparator (Then (Many is_whitespace 0 None) (Then (One (one_of ":=")) (Many is_whitespace 0 None))))
      (Group GValue
        (Or (Then SCHEMES (Then (Many is_whitespace 1 None) (Many value_char 1 None)))
          (Or (quoted 34) (Or (quoted 39) (Many value_char 1 None)))))).

(** [sk|pk|ghp|gho|github_pat|xox[baprs]]. *)
Definition TOKEN_PREFIX : pattern :=
  Or (Literal Z.eqb 115 (u "k")) (Or (Literal Z.eqb 112 (u "k")) (Or (Literal Z.eqb 103 (u "hp"))
    (Or (Literal Z.eqb 103 (u "ho")) (Or (Literal Z.eqb 103 (u "ithub_pat"))
      (Then (Literal Z.eqb 120 (u "ox")) (One (one_of "baprs"))))))).

Definition TOKEN_CANDIDATE : pattern :=
  Then (Behind is_alnum)
    (Then
       (Or (Then TOKEN_PREFIX (Then (One (one_of "-_")) (Many name_char 12 None)))
           (Then (One is_alnum) (Many (λ c, is_alnum c || one_of "+/_=-" c) 23 None)))
       (Ahead is_alnum)).

(** ** The redactor *)
Record redactor := Redactor {
  names : list pystr;
  max_depth : Z;
  max_items : Z;
  max_nodes : Z;
  max_query_pairs : Z;
  max_string_length : Z;
  max_total_bytes : Z;
}.

(** An argument of the constructor that has to be an integer within bounds. *)
Definition policy_int (value : pyval) (low high : Z) : py Z :=
  match value with
  | PInt z => if (z <? low) || (high <? z) then Raise ValueError else Ok z
  | _ => Raise ValueError
  end.

Fixpoint policy_names (additional : list pyval) : py (list pystr) :=
  match additional with
  | [] => Ok MANDATORY_NAMES
  | PStr s :: additional => n ← normalize_name s; ns ← policy_names additional; Ok (n :: ns)
  | _ :: _ => Raise ValueError
  end.

(** [Redactor(...)]; every failure is [ValueError]. *)
Definition make_redactor (additional : list pyval) (depth items nodes total_bytes string_length query_pairs : pyval)
    : py redactor :=
  depth ← policy_int depth 1 32;
  items ← policy_int items 1 4096;
  nodes ← policy_int nodes 1 1000000;
  total_bytes ← policy_int total_bytes 16 16777216;
  string_length ← policy_int string_length 16 65536;
  query_pairs ← policy_int query_pairs 1 4096;
  ns ← policy_names additional;
  Ok (Redactor ns depth items nodes query_pairs string_length total_bytes).

Section redactor.
Variable self : redactor.

Definition sensitive_name (value : pystr) : bool :=
  if 256 <? len value then true
  else if (bounded_percent_decode value 256).2 then true
  else match normalize_name value with
       | Raise _ => false
       | Ok normalized => str_in normalized (names self)
       end.

Definition redact_assignment (text : pystr) (gs : groups) : pystr :=
  if negb (sensitive_name (group_of GName gs)) then text
  else group_of GName gs ++ group_of GSeparator gs ++ REDACTED.

(** The substitutions of [redact_text], one after the other. *)
Definition scrub (rendered : pystr) : pystr :=
  let rendered := sub JWT (λ _ _, REDACTED) rendered in
  let rendered := sub NAMED_ASSIGNMENT redact_assignment rendered in
  let rendered := sub AUTH_SCHEME (λ _ gs, group_of GScheme gs ++ u " " ++ REDACTED) rendered in
  sub TOKEN_CANDIDATE redact_candidates rendered.

Definition redact_text (value : pystr) : pystr :=
  if max_string_length self <? len value then TRUNCATED
  else
    let '(comparison, unresolved) := bounded_percent_decode value (max_string_length self) in
    let comparison := visible comparison in
    if negb unresolved && negb (str_eqb comparison value)
       && existsb (λ m, sensitive_name (group_of GName m.2)) (finditer NAMED_ASSIGNMENT comparison)
    then REDACTED
    else scrub (replace_controls value).

(** ** Copying nested values *)
Definition char_bytes (c : Z) : Z := if c <=? 127 then 1 else if c <=? 2047 then 2 else if c <=? 65535 then 3 else 4.

Fixpoint charge_loop (used amount : Z) (text : pystr) : option Z :=
  match text with
  | [] => Some (used + amount)
  | c :: text =>
      let amount := amount + char_bytes c in
      if max_total_bytes self <? used + amount then None else charge_loop used amount text
  end.

(** [charge_text]: the bytes used afterwards, or [None] if the text is refused. *)
Definition charge_text (text : pystr) (used : Z) : option Z :=
  if max_string_length self <? len text then None else charge_loop used 0 text.

Definition items_limit : nat := Z.to_nat (max_items self).

(** [snapshot = ...]; [None] if iterating raises or a pair is malformed. *)
Definition take_snapshot (env : environment) (now : nat) (x : item) : option (positive * snapshot) :=
  match x with
  | IMapping id =>
      '(captured, truncated) ← capture items_limit (mapping_items env now id);
      pairs ← mapM (λ pair, pair) captured;
      Some (id, SMapping pairs truncated)
  | ISequence id =>
      '(captured, truncated) ← capture items_limit (sequence_items env now id);
      Some (id, SSequence captured truncated)
  | _ => None
  end.

(** [while safe_key in output_mapping: safe_key += "[DUPLICATE]"]. *)
Fixpoint unused_key {A} (fuel : nat) (key : pystr) (entries : list (pystr * A)) : pystr :=
  match fuel with
  | O => key
  | S fuel => if str_in key entries.*1 then unused_key fuel (key ++ u "[DUPLICATE]") entries else key
  end.

(** One pair of a mapping: the bytes used, the entries of the copy and the values that
    are copied. *)
Definition add_pair (acc : Z * list (pystr * leaf) * list (item * pystr)) (pair : item * item)
    : Z * list (pystr * leaf) * list (item * pystr) :=
  let '(used, entries, pending) := acc in
  let '(raw_key, child) := pair in
  let '(safe_key, used) :=
    match raw_key with
    | IText k => match charge_text k used with Some used => (redact_text k, used) | None => (REDACTED, used) end
    | _ => (REDACTED, used)
    end in
  let safe_key := unused_key (S (length entries)) safe_key entries in
  let entries := entries ++ [(safe_key, LText REDACTED)] in
  let hidden := match raw_key with IText k => sensitive_name k | _ => true end in
  (used, entries, if hidden then pending else pending ++ [(child, safe_key)]).

Definition truncation (truncated : bool) : list (pystr * leaf) :=
  if truncated then [(TRUNCATED, LText TRUNCATED)] else [].

(** What a value that is not copied by its elements becomes. *)
Definition copy_leaf (x : item) (used : Z) : option (leaf * Z) :=
  match x with
  | INone => Some (LNone, used)
  | IBool b => Some (LBool b, used)
  | IInt z => Some (LInt z, used)
  | IFloat f => Some (if isfinite f then LFloat f else LText REDACTED, used)
  | IText s =>
      Some match charge_text s used with Some used => (LText (redact_text s), used) | None => (LText LIMIT, used) end
  | IBytes => Some (LText REDACTED, used)
  | _ => None
  end.

(** The identity of an object that can be iterated. *)
Definition identity_of (x : item) : option positive :=
  match x with IMapping id | ISequence id => Some id | _ => None end.

(** What the loop does with an object that can be iterated: a marker, or its snapshot. *)
Definition inspect (env : environment) (depth : Z) (path : list positive) (x : item) (c : counters)
    : leaf + positive * snapshot :=
  if max_depth self <=? depth then inl (LText MAX_DEPTH)
  else match identity_of x with
       | None => inl (LText REDACTED)
       | Some id =>
           if bool_decide (id ∈ path) then inl (LText CYCLE)
           else match snapshots c !! id with
                | Some s => inr (id, s)
                | None => match take_snapshot env (nodes c) x with Some s => inr s | None => inl (LText REDACTED) end
                end
       end.

(** One iteration of the loop: the frames it pushes, the top of the stack first. *)
Definition visit_frame (env : environment) (f : frame) (st : copying) : list frame * copying :=
  let c := Counters (S (nodes (counted st))) (used_bytes (counted st)) (snapshots (counted st)) in
  let assigned x := assign (store st) (f_target f) (f_key f) x in
  if max_nodes self <? Z.of_nat (nodes c) then ([], Copying c (assigned (Leaf (LText LIMIT))))
  else match copy_leaf (f_item f) (used_bytes c) with
       | Some (l, used) => ([], Copying (Counters (nodes c) used (snapshots c)) (assigned (Leaf l)))
       | None =>
           match inspect env (f_depth f) (f_path f) (f_item f) c with
           | inl l => ([], Copying c (assigned (Leaf l)))
           | inr (id, s) =>
               let remembered := <[id := s]> (snapshots c) in
               let new := length (store st) in
               match s with
               | SMapping pairs truncated =>
                   let '(used, entries, pending) := foldl add_pair (used_bytes c, truncation truncated, []) pairs in
                   ((λ '(child, key), Frame child (f_depth f + 1) (id :: f_path f) new (SKey key)) <$> pending,
                    Copying (Counters (nodes c) used remembered)
                      (assigned (Ref new) ++ [CMapping ((λ '(k, l), (k, Leaf l)) <$> entries)]))
               | SSequence items truncated =>
                   (imap (λ i child, Frame child (f_depth f + 1) (id :: f_path f) new (SIndex i)) items,
                    Copying (Counters (nodes c) (used_bytes c) remembered)
                      (assigned (Ref new)
                       ++ [CSequence (replicate (length items) (Leaf (LText REDACTED))
                                      ++ (if truncated then [Leaf (LText TRUNCATED)] else []))]))
               end
           end
       end.

Fixpoint redact_loop (env : environment) (fuel : nat) (stack : list frame) (st : copying) : option copying :=
  match stack, fuel with
  | [], _ => Some st
  | _, O => None
  | f :: stack, S fuel => let '(pushed, st) := visit_frame env f st in redact_loop env fuel (pushed ++ stack) st
  end.

(** No more frames are visited than one and [max_items] for each of [max_nodes]. *)
Definition loop_fuel : nat := S (Z.to_nat (max_nodes self) * items_limit).

Definition holder : nat := 0.

Definition redact (env : environment) (value : item) : option output :=
  st ← redact_loop env loop_fuel [Frame value 0 [] holder (SIndex 0)]
         (Copying (Counters 0 0 ∅) [CSequence [Leaf (LText REDACTED)]]);
  match store st !! holder with
  | Some (CSequence (x :: _)) => read_cell (Z.to_nat (max_depth self)) (store st) x
  | _ => None
  end.

(** ** Headers and queries *)

(** The loops over [items()]; [None] if something raises. *)
Fixpoint headers_loop (index : Z) (items : list (option (item * item))) (ends : bool) (out : list (pystr * pystr))
    : option (list (pystr * pystr)) :=
  match items with
  | [] => if ends then Some out else None
  | None :: _ => None
  | Some (raw_name, raw_value) :: items =>
      if max_items self <=? index then Some (assoc_set TRUNCATED TRUNCATED out)
      else
        headers_loop (index + 1) items ends
          match raw_name with
          | IText raw_name =>
              if max_string_length self <? len raw_name then assoc_set REDACTED REDACTED out
              else
                assoc_set (redact_text raw_name)
                  (if sensitive_name raw_name then REDACTED
                   else match raw_value with
                        | IText v => if max_string_length self <? len v then TRUNCATED else redact_text v
                        | _ => REDACTED
                        end) out
          | _ => assoc_set REDACTED REDACTED out
          end
  end.

Definition redact_headers (headers : iteration (option (item * item))) : list (pystr * pystr) :=
  default [(REDACTED, REDACTED)] (headers_loop 0 (produced headers) (ends headers) []).

Definition query_value (env : environment) (raw_value : item) : option output :=
  match raw_value with
  | IText v =>
      let '(decoded, unresolved) := bounded_percent_decode v (max_string_length self) in
      Some (OLeaf (LText (if unresolved then REDACTED else redact_text decoded)))
  | _ => redact env raw_value
  end.

(** Each value is copied after those before it; a copy takes no more than [loop_fuel]
    times. *)
Fixpoint query_loop (env : environment) (index : Z) (items : list (option (item * item))) (ends : bool)
    (out : list (pystr * output)) : option (list (pystr * output)) :=
  match items with
  | [] => if ends then Some out else None
  | None :: _ => None
  | Some (raw_name, raw_value) :: items =>
      if max_items self <=? index then Some (assoc_set TRUNCATED (OLeaf (LText TRUNCATED)) out)
      else
        out ← match raw_name with
              | IText raw_name =>
                  if max_string_length self <? len raw_name then Some (assoc_set REDACTED (OLeaf (LText REDACTED)) out)
                  else
                    x ← (if sensitive_name raw_name then Some (OLeaf (LText REDACTED))
                         else query_value (later env (Z.to_nat index * S loop_fuel)) raw_value);
                    Some (assoc_set (redact_text raw_name) x out)
              | _ => Some (assoc_set REDACTED (OLeaf (LText REDACTED)) out)
              end;
        query_loop env (index + 1) items ends out
  end.

Definition redact_query (env : environment) (query : iteration (option (item * item))) : list (pystr * output) :=
  default [(REDACTED, OLeaf (LText REDACTED))] (query_loop env 0 (produced query) (ends query) []).

(** ** URLs *)
Context `{UnicodeData} `{UrlData}.

Definition URL : pystr := u "[URL]".
Definition is_separator (c : Z) : bool := (c =? 38) || (c =? 59).

(** The loop over the characters of the query: no field is too long, and there are not
    too many. *)
Fixpoint query_fields (field_length field_count : Z) (q : pystr) : py () :=
  match q with
  | [] => Ok ()
  | c :: q =>
      let '(field_length, field_count) :=
        if is_separator c then (0, field_count + 1) else (field_length + 1, field_count) in
      raise_if ((max_string_length self <? field_length) || (max_query_pairs self <? field_count)) ValueError;;
      query_fields field_length field_count q
  end.

Definition query_item (pair : pystr * pystr) : pystr * pystr :=
  let '(raw_name, raw_value) := pair in
  let '(decoded_value, unresolved) := bounded_percent_decode raw_value (max_string_length self) in
  (redact_text raw_name, if negb (sensitive_name raw_name) && negb unresolved then redact_text decoded_value else REDACTED).

(** The URL that is built from the parts. *)
Definition candidate_url (value : pystr) : py pystr :=
  parts ← urlsplit value;
  query_fields 0 1 (query parts);;
  raise_if ((max_string_length self <? len (query parts))
            || (max_query_pairs self <=? len (filter (λ c, is_separator c = true) (query parts)))) ValueError;;
  let scheme := ascii_lower <$> scheme parts in
  raise_if (negb (str_in scheme [u "http"; u "https"])) ValueError;;
  match hostname parts with
  | None => Raise ValueError
  | Some host =>
      let host := str_lower host in
      port ← port parts;
      let host := if has_char 58 host then [91] ++ host ++ [93] else host in
      let netloc := match port with None => host | Some p => host ++ [58] ++ decimal p end in
      path ← quote "/:@-._~!$&'()*+,;=%" (redact_text (if bool_decide (path parts = []) then [slash] else path parts));
      parsed_query ← parse_qsl_replacing (query parts) (max_query_pairs self);
      raise_if (Z.min (max_items self) (max_query_pairs self) <? Z.of_nat (length parsed_query)) ValueError;;
      query ← urlencode_plus (query_item <$> parsed_query);
      Ok (urlunsplit scheme netloc path query)
  end.

Definition redact_url (value : pystr) : pystr :=
  if (max_string_length self <? len value) || has_control value then URL
  else match (candidate ← candidate_url value; canonicalize_url candidate (names self) true) with
       | Ok rendered => rendered
       | Raise _ => URL
       end.

(** ** Shell commands *)

(** What the loop does with a token: the output, and whether the next token is hidden. *)
Definition redact_shell_token (token : pystr) : pystr * bool :=
  if str_in token [u "-H"; u "--header"] then (token, true)
  else if startswith (u "--header=") token then (u "--header=" ++ REDACTED, false)
  else if startswith (u "-H") token && (2 <? len token) then (u "-H" ++ REDACTED, false)
  else if startswith (u "http://") (str_lower token) || startswith (u "https://") (str_lower token)
  then (redact_url token, false)
  else
    match partition 61 token with
    | Some (name, _) =>
        if sensitive_name name then (name ++ [61] ++ REDACTED, false)
        else (redact_text token, sensitive_name token)
    | None => (redact_text token, sensitive_name token)
    end.

Fixpoint shell_loop (hidden : bool) (tokens : list pystr) : option (list pystr) :=
  match tokens with
  | [] => Some (if hidden then [REDACTED] else [])
  | token :: tokens =>
      if max_string_length self <? len token then None
      else
        let '(text, next) := if hidden then (REDACTED, false) else redact_shell_token token in
        cons text <$> shell_loop next tokens
  end.

Definition redact_shell (command : pystr) : list pystr :=
  default [UNPARSEABLE]
    (if max_string_length self <? len command then None
     else
       tokens ← shlex_split command;
       if max_items self <? Z.of_nat (length tokens) then None else shell_loop false tokens).

End redactor.
End text.

(** A database that knows ASCII only, for examples. *)
Program Definition plain_text : TextData := {|
  std_category c := if (c <? 32) || (127 <=? c) && (c <=? 159) then "Cc" else "Ll";
  char_isalnum := is_alnum; char_islower := is_lower; char_isupper := is_upper; char_isdigit := is_digit;
  char_tolower := ascii_lower;
|}.
Next Obligation.
  intros c Hc. cbn. destruct (Z.ltb_spec c 32), (Z.leb_spec 127 c); try lia. by split.
Qed.
Solve All Obligations with done.
