(* ===== verification/RedactionFacts.v ===== *)
(** * What the redactor hides

    The loop that copies nested values equals a recursive copy, ends, and depends on no
    value that stands under a sensitive name; what it writes has no control
    characters.  The value of a text that assigns to a sensitive name is hidden, unless
    the assignment is the value of another one. *)

From stdpp Require Import base list list_numbers numbers strings gmap.
From S2P Require Import Prelude PyString Errors PyValue Decimal Unicode JsonScan JsonRoundTrip CanonicalPath PyUrl.
From S2P Require Import CanonicalUrl UrlShape Shell PyFloat Redaction.
Open Scope Z_scope.

(** ** Matches *)

(** A position reached by going forward. *)
Definition forward (pos pos' : position) : Prop := ∃ t, pos.2 = t ++ pos'.2.

Lemma forward_refl pos : forward pos pos.
Proof. by exists []. Qed.

Lemma forward_trans p1 p2 p3 : forward p1 p2 → forward p2 p3 → forward p1 p3.
Proof. intros [t E] [t' E']. exists (t ++ t'). by rewrite E, E', app_assoc. Qed.

Lemma forward_Forall (P : Z → Prop) pos pos' : forward pos pos' → Forall P pos.2 → Forall P pos'.2.
Proof. intros [t E] H. rewrite E in H. by apply Forall_app in H as [_ ?]. Qed.

(** Where a repetition ends: after characters of the class. *)
Lemma repeat_from_Some {A} p least most (k : position → option A) n before s x :
  repeat_from p least most k n before s = Some x →
  ∃ t s' before', s = t ++ s' ∧ Forall (λ c, p c = true) t ∧ (least ≤ n + length t)%nat ∧ k (before', s') = Some x.
Proof.
  revert n before. induction s as [|c s IH]; intros n before; cbn [repeat_from].
  - destruct (Nat.leb_spec least n); [|done]. intros Hk. exists [], [], before. cbn. split_and!; [done|done|lia|done].
  - assert ((if (least <=? n)%nat then k (before, c :: s) else None) = Some x →
      ∃ t s' before', c :: s = t ++ s' ∧ Forall (λ c, p c = true) t ∧ (least ≤ n + length t)%nat ∧ k (before', s') = Some x) as Hhere.
    { destruct (Nat.leb_spec least n); [|done]. intros Hk. exists [], (c :: s), before. cbn. split_and!; [done|done|lia|done]. }
    destruct (p c && below n most) eqn:E; [|done]. apply andb_true_iff in E as [Ec _].
    destruct (repeat_from p least most k (S n) (Some c) s) as [y|] eqn:Er; [|done].
    intros [= <-]. apply IH in Er as (t & s' & b & -> & Ht & Hl & Hk). exists (c :: t), s', b.
    split_and!; [done|by constructor|cbn; lia|done].
Qed.

(** Every match goes forward, and its groups are made of the characters it passes. *)
Lemma match_at_Some {A} (P : Z → Prop) r (k : position → groups → option A) pos gs x :
  Forall P pos.2 → Forall (λ g, Forall P g.2) gs → match_at r k pos gs = Some x →
  ∃ pos' gs', forward pos pos' ∧ Forall (λ g, Forall P g.2) gs' ∧ k pos' gs' = Some x.
Proof.
  revert A k pos gs x. induction r as [p least most|a IHa b IHb|a IHa b IHb|g a IHa|p|p|p];
    intros A k pos gs x Hpos Hgs; cbn [match_at].
  - intros (t & s' & b & E & _ & _ & Hk)%repeat_from_Some. exists (b, s'), gs. split_and!; [by exists t|done|done].
  - intros (p1 & g1 & Hf & Hg & Hk)%IHa; [|done..].
    apply IHb in Hk as (p2 & g2 & Hf2 & Hg2 & Hk); [|by eapply forward_Forall|done].
    exists p2, g2. split_and!; [by eapply forward_trans|done|done].
  - destruct (match_at a k pos gs) as [y|] eqn:E; [intros [= <-]; by apply IHa in E|by apply IHb].
  - intros (p1 & g1 & Hf & Hg & Hk)%IHa; [|done..]. eexists p1, _. split_and!; [done| |done].
    constructor; [|done]. by apply Forall_take.
  - destruct (holds p pos.1); [done|]. intros Hk. exists pos, gs. split_and!; [apply forward_refl|done|done].
  - destruct (holds p (head pos.2)); [done|]. intros Hk. exists pos, gs. split_and!; [apply forward_refl|done|done].
  - case_bool_decide; [done|]. intros Hk. exists pos, gs. split_and!; [apply forward_refl|done|done].
Qed.

Lemma match_here_Some (P : Z → Prop) r pos text gs pos' :
  Forall P pos.2 → match_here r pos = Some (text, gs, pos') →
  forward pos pos' ∧ Forall P text ∧ Forall (λ g, Forall P g.2) gs.
Proof.
  intros HP H. unfold match_here in H.
  apply (match_at_Some P) in H as (p1 & g1 & Hf & Hg & [= <- <- <-]); [|done|done].
  split_and!; [done|by apply Forall_take|done].
Qed.

Lemma group_of_Forall (P : Z → Prop) g gs : Forall (λ g, Forall P g.2) gs → Forall P (group_of g gs).
Proof.
  intros Hgs. unfold group_of. destruct (list_find _ gs) as [[i x]|] eqn:E; cbn; [|done].
  apply list_find_Some in E as (E & _ & _). by eapply (Forall_lookup_1 (λ g, Forall P g.2)).
Qed.

(** A substitution writes characters of the text and of its replacements. *)
Lemma sub_from_Forall (P : Z → Prop) r f fuel pos :
  Forall P pos.2 →
  (∀ t gs, Forall P t → Forall (λ g, Forall P g.2) gs → Forall P (f t gs)) → Forall P (sub_from r f fuel pos).
Proof.
  intros HP Hf. revert pos HP. induction fuel as [|fuel IH]; intros pos HP; [done|]. cbn [sub_from].
  destruct pos as [b [|c s]]; [done|]. cbn [snd] in *.
  destruct (match_here r (b, c :: s)) as [[[t gs] pos']|] eqn:E.
  - apply (match_here_Some P) in E as (Hfw & Ht & Hg); [|done].
    apply Forall_app. split; [by apply Hf|]. apply IH. by eapply forward_Forall.
  - inversion HP; subst. constructor; [done|]. by apply IH.
Qed.

Lemma sub_Forall (P : Z → Prop) r f text :
  Forall P text →
  (∀ t gs, Forall P t → Forall (λ g, Forall P g.2) gs → Forall P (f t gs)) → Forall P (sub r f text).
Proof. by apply (sub_from_Forall P r f _ (None, text)). Qed.

Section facts.
Context `{TextData} `{FloatLog2}.
Variable self : redactor.

(** ** Printable texts *)

(** What must not reach a log: the controls of C0, DEL and C1, the Arabic letter mark,
    the marks of direction, the separators of lines and paragraphs, the embeddings and
    overrides of direction, the isolates, and the selectors of variants. *)
Definition unsafe_ranges : list (Z * Z) :=
  [(0, 31); (127, 159); (1564, 1564); (8206, 8207); (8232, 8233); (8234, 8238); (8294, 8297);
   (65024, 65039); (917760, 917999)].

(** A text without such characters, and without any other control or format character. *)
Definition shows (c : Z) : Prop :=
  std_category c ≠ "Cc" ∧ std_category c ≠ "Cf" ∧ Forall (λ r, ¬ r.1 ≤ c ≤ r.2) unsafe_ranges.
Definition printable (s : pystr) : Prop := Forall shows s.

Lemma control_char_shows c : control_char c = false → shows c.
Proof.
  unfold control_char, default_ignorable. rewrite !orb_false_iff, !andb_false_iff.
  intros [[[[[[H1 H2] H3] H4] H5] H6] H7]. apply bool_decide_eq_false in H1, H2, H7.
  split_and!; [done..|]. rewrite !not_elem_of_cons in H7. destruct_and? H7.
  rewrite !Z.ltb_ge, !Z.leb_gt in *. repeat (apply Forall_cons_2; [cbn; lia|]). apply Forall_nil_2.
Qed.

Definition graphic (c : Z) : Prop := 32 ≤ c < 127.

Lemma graphic_ignorable c : graphic c → default_ignorable c = false.
Proof.
  intros Hc. destruct (std_category_ascii c Hc) as [H1 H2]. unfold graphic in Hc. unfold default_ignorable.
  rewrite !bool_decide_eq_false_2 by done.
  destruct (Z.leb_spec 65024 c), (Z.leb_spec 917760 c); first [lia|done].
Qed.

Lemma graphic_control c : graphic c → control_char c = false.
Proof.
  intros Hc. unfold control_char. rewrite graphic_ignorable by done. unfold graphic in Hc.
  destruct (Z.ltb_spec c 32), (Z.leb_spec 127 c); try lia. apply bool_decide_eq_false.
  rewrite !elem_of_cons. intros Hin. destruct_or? Hin; [lia..|]. by apply not_elem_of_nil in Hin.
Qed.

Lemma graphic_printable c : graphic c → shows c.
Proof. intros Hc. by apply control_char_shows, graphic_control. Qed.

Definition is_graphic (s : pystr) : bool := forallb (λ c, (32 <=? c) && (c <? 127)) s.

Lemma is_graphic_spec s : is_graphic s = true → Forall graphic s.
Proof.
  unfold is_graphic. intros Hs%forallb_Forall. eapply Forall_impl; [exact Hs|]. intros c Hc. unfold graphic.
  cbn in Hc. apply andb_true_iff in Hc as [H1%Z.leb_le H2%Z.ltb_lt]. lia.
Qed.

Lemma marker_printable s : is_graphic s = true → printable s.
Proof. intros Hs%is_graphic_spec. eapply Forall_impl; [exact Hs|]. apply graphic_printable. Qed.

Lemma replace_controls_printable s : printable (replace_controls s).
Proof.
  unfold replace_controls. induction s as [|c s IH]; [apply Forall_nil_2|]. cbn. apply Forall_app. split; [|exact IH].
  destruct (control_char c) eqn:E; [by apply marker_printable|by apply Forall_singleton, control_char_shows].
Qed.

Lemma scrub_printable s : printable s → printable (scrub self s).
Proof.
  intros Hs. unfold scrub. repeat apply sub_Forall; [done|..].
  - intros. by apply marker_printable.
  - intros t gs Ht Hg. unfold redact_assignment. destruct (negb _); [done|].
    repeat apply Forall_app_2; [by apply group_of_Forall..|by apply marker_printable].
  - intros t gs Ht Hg. repeat apply Forall_app_2; [by apply group_of_Forall|by apply marker_printable..].
  - intros t gs Ht Hg. unfold redact_candidates. destruct (looks_like_secret t); [by apply marker_printable|done].
Qed.

Lemma redact_text_printable s : printable (redact_text self s).
Proof.
  unfold redact_text. destruct (_ <? _); [by apply marker_printable|].
  destruct (bounded_percent_decode _ _) as [comparison unresolved].
  destruct (_ && _); [by apply marker_printable|]. apply scrub_printable, replace_controls_printable.
Qed.

(** ** The recursive copy *)
Fixpoint copy_all (copy : item → counters → output * counters) (xs : list item) (c : counters)
    : list output * counters :=
  match xs with
  | [] => ([], c)
  | x :: xs => let '(o, c) := copy x c in let '(os, c) := copy_all copy xs c in (o :: os, c)
  end.

Definition set_entries {A} (entries : list (pystr * A)) (new : list (pystr * A)) : list (pystr * A) :=
  foldl (λ es '(k, x), assoc_set k x es) entries new.

(** The copy of a value, with [levels] levels below the deepest one; the counters are
    those of the loop. *)
Fixpoint copy (env : environment) (levels : nat) (path : list positive) (x : item) (c : counters) : output * counters :=
  let c := Counters (S (nodes c)) (used_bytes c) (snapshots c) in
  if max_nodes self <? Z.of_nat (nodes c) then (OLeaf (LText LIMIT), c)
  else match copy_leaf self x (used_bytes c) with
       | Some (l, used) => (OLeaf l, Counters (nodes c) used (snapshots c))
       | None =>
           match inspect self env (max_depth self - Z.of_nat levels) path x c, levels with
           | inl l, _ => (OLeaf l, c)
           | inr _, O => (OLeaf (LText MAX_DEPTH), c)
           | inr (id, s), S levels =>
               let remembered := <[id := s]> (snapshots c) in
               match s with
               | SMapping pairs truncated =>
                   let '(used, entries, pending) :=
                     foldl (add_pair self) (used_bytes c, truncation truncated, []) pairs in
                   let '(os, c) := copy_all (copy env levels (id :: path)) pending.*1
                                     (Counters (nodes c) used remembered) in
                   (OMapping (set_entries ((λ '(k, l), (k, OLeaf l)) <$> entries) (zip pending.*2 os)), c)
               | SSequence items truncated =>
                   let '(os, c) := copy_all (copy env levels (id :: path)) items
                                     (Counters (nodes c) (used_bytes c) remembered) in
                   (OSequence (os ++ (if truncated then [OLeaf (LText TRUNCATED)] else [])), c)
               end
           end
       end.

(** ** The loop and the recursive copy *)

(** [n] iterations lead from one stack and state to another. *)
Definition runs (env : environment) (n : nat) (stack : list frame) (st : copying) (stack' : list frame)
    (st' : copying) : Prop :=
  ∀ fuel, redact_loop self env (n + fuel) stack st = redact_loop self env fuel stack' st'.

Lemma runs_trans env n n' s1 st1 s2 st2 s3 st3 :
  runs env n s1 st1 s2 st2 → runs env n' s2 st2 s3 st3 → runs env (n + n') s1 st1 s3 st3.
Proof. intros H1 H2 fuel. by rewrite <-Nat.add_assoc, H1, H2. Qed.

Lemma runs_step env f st stack pushed st' :
  visit_frame self env f st = (pushed, st') → runs env 1 (f :: stack) st (pushed ++ stack) st'.
Proof. intros E fuel. cbn. by rewrite E. Qed.

(** The containers [new] stand in the store from [offset] on. *)
Definition holds_at (s : list container) (offset : nat) (new : list container) : Prop :=
  ∀ i c, new !! i = Some c → s !! (offset + i)%nat = Some c.

Lemma holds_at_app s offset new new' :
  holds_at s offset (new ++ new') → holds_at s offset new ∧ holds_at s (offset + length new) new'.
Proof.
  intros Hs. split; intros i c Hi.
  - apply Hs. by apply lookup_app_l_Some.
  - rewrite <-Nat.add_assoc. apply Hs. by rewrite lookup_app_r, Nat.add_sub' by lia.
Qed.

Definition assign_all (s : list container) (target : nat) (new : list (slot * cell)) : list container :=
  foldl (λ s '(k, x), assign s target k x) s new.

Lemma length_assign s t k x : length (assign s t k x) = length s.
Proof. apply length_alter. Qed.

Lemma length_assign_all s t new : length (assign_all s t new) = length s.
Proof.
  revert s. induction new as [|[k x] new IH]; intros s; [done|]. unfold assign_all in *. cbn [foldl].
  by rewrite IH, length_assign.
Qed.

Lemma assign_app s s' t k x : (t < length s)%nat → assign (s ++ s') t k x = assign s t k x ++ s'.
Proof. intros Ht. unfold assign. by apply alter_app_l. Qed.

Lemma assign_all_app s s' t new :
  (t < length s)%nat → assign_all (s ++ s') t new = assign_all s t new ++ s'.
Proof.
  revert s. induction new as [|[k x] new IH]; intros s Ht; [done|]. unfold assign_all in *. cbn [foldl].
  rewrite assign_app by done. apply IH. by rewrite length_assign.
Qed.

(** What the copy of [x] is in the store from [offset] on. *)
Definition reads_as (levels offset : nat) (new : list container) (x : cell) (o : output) : Prop :=
  ∀ s, holds_at s offset new → read_cell levels s x = Some o.

Lemma reads_as_app_l levels offset new new' x o :
  reads_as levels offset new x o → reads_as levels offset (new ++ new') x o.
Proof. intros Hx s [Hs _]%holds_at_app. by apply Hx. Qed.

Lemma reads_as_app_r levels offset new new' x o :
  reads_as levels (offset + length new) new' x o → reads_as levels offset (new ++ new') x o.
Proof. intros Hx s [_ Hs]%holds_at_app. by apply Hx. Qed.

(** The loop visits a frame, and all it pushes, as the recursive copy does. *)
Definition frame_simulated (env : environment) (levels : nat) : Prop := ∀ f st,
  f_depth f = max_depth self - Z.of_nat levels → (f_target f < length (store st))%nat →
  ∃ n st' x new,
    (∀ stack, runs env n (f :: stack) st stack st') ∧
    counted st' = (copy env levels (f_path f) (f_item f) (counted st)).2 ∧
    store st' = assign (store st) (f_target f) (f_key f) x ++ new ∧
    reads_as levels (length (store st)) new x (copy env levels (f_path f) (f_item f) (counted st)).1.

Lemma frames_simulated env levels path target fs st :
  frame_simulated env levels → (target < length (store st))%nat →
  Forall (λ f, f_depth f = max_depth self - Z.of_nat levels ∧ f_path f = path ∧ f_target f = target) fs →
  ∃ n st' xs new,
    (∀ stack, runs env n (fs ++ stack) st stack st') ∧
    counted st' = (copy_all (copy env levels path) (f_item <$> fs) (counted st)).2 ∧
    store st' = assign_all (store st) target (zip (f_key <$> fs) xs) ++ new ∧
    Forall2 (reads_as levels (length (store st)) new) xs
      (copy_all (copy env levels path) (f_item <$> fs) (counted st)).1.
Proof.
  intros Hsim Ht Hfs. revert st Ht. induction Hfs as [|f fs (Hd & Hp & Hf) _ IH]; intros st Ht.
  - exists 0%nat, st, [], []. split_and!; [done|done|by rewrite app_nil_r|constructor].
  - subst path target. destruct (Hsim f st Hd Ht) as (n & st1 & x & new & Hrun & Hc & Hs & Hx).
    destruct (IH st1) as (n' & st2 & xs & new' & Hrun' & Hc' & Hs' & Hxs).
    { rewrite Hs, length_app, length_assign. lia. }
    exists (n + n')%nat, st2, (x :: xs), (new ++ new').
    cbn [fmap list_fmap copy_all zip_with assign_all foldl].
    destruct (copy env levels (f_path f) (f_item f) (counted st)) as [o c1]. cbn [fst snd] in *. subst c1.
    destruct (copy_all _ _ (counted st1)) as [os c2]. cbn [fst snd] in *.
    split_and!.
    + intros stack. eapply runs_trans; [apply Hrun|apply Hrun'].
    + done.
    + rewrite Hs', Hs, assign_all_app, app_assoc by by rewrite length_assign. done.
    + constructor; [by apply reads_as_app_l|].
      eapply Forall2_impl; [exact Hxs|]. intros y o' Hy. apply reads_as_app_r.
      by rewrite Hs, length_app, length_assign in Hy.
Qed.

(** *** Filling a new container *)
Lemma alter_last {A} (f : A → A) l x : alter f (length l) (l ++ [x]) = l ++ [f x].
Proof. induction l as [|y l IH]; [done|]. cbn. by f_equal. Qed.

Lemma assign_all_mapping s es new :
  assign_all (s ++ [CMapping es]) (length s) ((λ '(k, x), (SKey k, x)) <$> new)
  = s ++ [CMapping (set_entries es new)].
Proof.
  revert es. induction new as [|[k x] new IH]; intros es; [done|]. unfold assign_all, set_entries in *.
  cbn [fmap list_fmap foldl]. unfold assign at 2. rewrite alter_last. apply IH.
Qed.

Definition insert_all {A} (l : list A) (new : list (nat * A)) : list A := foldl (λ l '(i, x), <[i := x]> l) l new.

Lemma assign_all_sequence s es new :
  assign_all (s ++ [CSequence es]) (length s) ((λ '(i, x), (SIndex i, x)) <$> new)
  = s ++ [CSequence (insert_all es new)].
Proof.
  revert es. induction new as [|[k x] new IH]; intros es; [done|]. unfold assign_all, insert_all in *.
  cbn [fmap list_fmap foldl]. unfold assign at 2. rewrite alter_last. apply IH.
Qed.

Lemma insert_all_fill {A} (d : A) done_ xs rest :
  insert_all (done_ ++ replicate (length xs) d ++ rest) (imap (λ i x, ((length done_ + i)%nat, x)) xs)
  = done_ ++ xs ++ rest.
Proof.
  revert done_. induction xs as [|x xs IH]; intros done_; [done|]. unfold insert_all in *.
  cbn [imap length replicate foldl app]. rewrite Nat.add_0_r, insert_app_r_alt, Nat.sub_diag by lia. cbn [insert list_insert].
  rewrite (cons_middle x), app_assoc. rewrite (cons_middle x done_), (app_assoc _ [x] (xs ++ rest)).
  rewrite <-(IH (done_ ++ [x])). f_equal. apply imap_ext. intros i y _. cbn. rewrite length_app. cbn. f_equal. lia.
Qed.

Lemma mapM_assoc_set {A B} (g : A → option B) k x y es os :
  g x = Some y → mapM (λ '(k, x), pair k <$> g x) es = Some os →
  mapM (λ '(k, x), pair k <$> g x) (assoc_set k x es) = Some (assoc_set k y os).
Proof.
  intros Hx. revert os. induction es as [|[k' x'] es IH]; intros os; cbn.
  - intros [= <-]. cbn. by rewrite Hx.
  - intros (z & Hz & H2)%bind_Some. apply fmap_Some in Hz as (y' & Hy' & ->).
    apply bind_Some in H2 as (os' & Hos & [= <-]). cbn. destruct (decide (k = k')) as [->|Hk]; cbn.
    + rewrite Hx. cbn. by rewrite Hos.
    + rewrite Hy'. cbn. by rewrite (IH _ Hos).
Qed.

Lemma mapM_set_entries {A B} (g : A → option B) ks xs ys es os :
  Forall2 (λ x y, g x = Some y) xs ys → mapM (λ '(k, x), pair k <$> g x) es = Some os →
  mapM (λ '(k, x), pair k <$> g x) (set_entries es (zip ks xs)) = Some (set_entries os (zip ks ys)).
Proof.
  intros Hxs. revert ks es os. induction Hxs as [|x y xs ys Hx _ IH]; intros [|k ks] es os Hes; try done.
  unfold set_entries in *. cbn. apply IH. by apply mapM_assoc_set.
Qed.

Lemma mapM_leaves levels s (es : list (pystr * leaf)) :
  mapM (λ '(k, x), pair k <$> read_cell levels s x) ((λ '(k, l), (k, Leaf l)) <$> es)
  = Some ((λ '(k, l), (k, OLeaf l)) <$> es).
Proof. induction es as [|[k l] es IH]; [done|]. cbn [fmap list_fmap mapM]. rewrite IH. by destruct levels. Qed.

(** The copy of a leaf. *)
Lemma leaf_simulated env f st levels c l out :
  visit_frame self env f st = ([], Copying c (assign (store st) (f_target f) (f_key f) (Leaf l))) →
  out = (OLeaf l, c) →
  ∃ n st' x new,
    (∀ stack, runs env n (f :: stack) st stack st') ∧ counted st' = out.2 ∧
    store st' = assign (store st) (f_target f) (f_key f) x ++ new ∧
    reads_as levels (length (store st)) new x out.1.
Proof.
  intros Hv ->. exists 1%nat, (Copying c (assign (store st) (f_target f) (f_key f) (Leaf l))), (Leaf l), [].
  split_and!; [intros stack; by apply (runs_step _ _ _ _ [])|done|by rewrite app_nil_r|by intros s _; destruct levels].
Qed.

Lemma zip_indices {A} (xs : list A) (ys : list cell) :
  length xs = length ys →
  zip (imap (λ i _, SIndex i) xs) ys = (λ '(i, x), (SIndex i, x)) <$> imap (λ i y, (i, y)) ys.
Proof.
  intros Hl. apply list_eq. intros i. rewrite lookup_zip_with, list_lookup_fmap, !list_lookup_imap.
  destruct (decide (i < length xs)%nat) as [Hi|Hi].
  - destruct (lookup_lt_is_Some_2 xs i Hi) as [x ->], (lookup_lt_is_Some_2 ys i) as [y ->]; [lia|done].
  - rewrite (lookup_ge_None_2 xs), (lookup_ge_None_2 ys) by lia. done.
Qed.

Lemma fmap_zip_keys (ks : list pystr) (xs : list cell) :
  (λ '(k, x), (SKey k, x)) <$> zip ks xs = zip (SKey <$> ks) xs.
Proof. revert xs. induction ks as [|k ks IH]; intros [|x xs]; cbn; [done..|]. f_equal. apply IH. Qed.

Lemma mapping_simulated env levels f st c id pairs truncated used entries pending :
  frame_simulated env levels → f_depth f + 1 = max_depth self - Z.of_nat levels →
  (f_target f < length (store st))%nat →
  foldl (add_pair self) (used_bytes c, truncation truncated, []) pairs = (used, entries, pending) →
  let c' := Counters (nodes c) used (<[id := SMapping pairs truncated]> (snapshots c)) in
  let new := length (store st) in
  visit_frame self env f st =
    ((λ '(child, key), Frame child (f_depth f + 1) (id :: f_path f) new (SKey key)) <$> pending,
     Copying c' (assign (store st) (f_target f) (f_key f) (Ref new) ++ [CMapping ((λ '(k, l), (k, Leaf l)) <$> entries)])) →
  let '(os, c'') := copy_all (copy env levels (id :: f_path f)) pending.*1 c' in
  ∃ n st' x new,
    (∀ stack, runs env n (f :: stack) st stack st') ∧ counted st' = c'' ∧
    store st' = assign (store st) (f_target f) (f_key f) x ++ new ∧
    reads_as (S levels) (length (store st)) new x
      (OMapping (set_entries ((λ '(k, l), (k, OLeaf l)) <$> entries) (zip pending.*2 os))).
Proof.
  intros Hsim Hd Ht Hfold c' new Hv.
  set (fs := (λ '(child, key), Frame child (f_depth f + 1) (id :: f_path f) new (SKey key)) <$> pending) in *.
  set (s1 := assign (store st) (f_target f) (f_key f) (Ref new)) in *.
  assert (length s1 = new) as Hl by apply length_assign.
  destruct (frames_simulated env levels (id :: f_path f) new fs
    (Copying c' (s1 ++ [CMapping ((λ '(k, l), (k, Leaf l)) <$> entries)]))) as (n & st' & xs & new' & Hrun & Hc & Hs & Hxs).
  { done. }
  { cbn. rewrite length_app, Hl. cbn. lia. }
  { unfold fs. apply Forall_fmap, Forall_forall. by intros [x k] _. }
  assert (f_item <$> fs = pending.*1) as Ei.
  { unfold fs. rewrite <-list_fmap_compose. apply list_fmap_ext. by intros ? [x k] _. }
  assert (f_key <$> fs = SKey <$> pending.*2) as Ek.
  { unfold fs. rewrite <-!list_fmap_compose. apply list_fmap_ext. by intros ? [x k] _. }
  rewrite Ei in *. rewrite Ek in *. cbn [counted] in *.
  destruct (copy_all _ pending.*1 c') as [os c'']. cbn [fst snd] in *.
  rewrite <-Hl in Hs at 1. cbn [store] in Hs.
  replace (zip (SKey <$> pending.*2) xs) with ((λ '(k, x), (SKey k, x)) <$> zip pending.*2 xs) in Hs
    by apply fmap_zip_keys.
  rewrite assign_all_mapping, <-app_assoc in Hs.
  eexists (1 + n)%nat, st', (Ref new), _. split_and!; [|done|exact Hs|].
  - intros stack. eapply runs_trans; [by apply runs_step|apply Hrun].
  - intros s Hh. cbn [read_cell]. pose proof (Hh 0%nat _ eq_refl) as H0'. rewrite Nat.add_0_r in H0'.
    unfold new. rewrite H0'. apply fmap_Some. eexists. split; [|done].
    apply mapM_set_entries; [|apply mapM_leaves].
    eapply Forall2_impl; [exact Hxs|]. intros x o Hx. apply Hx.
    intros i y Hi. cbn [store]. rewrite length_app, Hl. cbn [length].
    specialize (Hh (S i) y Hi). by rewrite <-Hh; f_equal; unfold new; lia.
Qed.

Lemma length_copy_all cp xs c : length (copy_all cp xs c).1 = length xs.
Proof.
  revert c. induction xs as [|x xs IH]; intros c; [done|]. cbn. destruct (cp x c) as [o c1].
  specialize (IH c1). destruct (copy_all cp xs c1). cbn in *. by f_equal.
Qed.

Lemma sequence_simulated env levels f st c id items truncated :
  frame_simulated env levels → f_depth f + 1 = max_depth self - Z.of_nat levels →
  (f_target f < length (store st))%nat →
  let c' := Counters (nodes c) (used_bytes c) (<[id := SSequence items truncated]> (snapshots c)) in
  let new := length (store st) in
  visit_frame self env f st =
    (imap (λ i child, Frame child (f_depth f + 1) (id :: f_path f) new (SIndex i)) items,
     Copying c' (assign (store st) (f_target f) (f_key f) (Ref new)
                 ++ [CSequence (replicate (length items) (Leaf (LText REDACTED))
                                ++ (if truncated then [Leaf (LText TRUNCATED)] else []))])) →
  let '(os, c'') := copy_all (copy env levels (id :: f_path f)) items c' in
  ∃ n st' x new,
    (∀ stack, runs env n (f :: stack) st stack st') ∧ counted st' = c'' ∧
    store st' = assign (store st) (f_target f) (f_key f) x ++ new ∧
    reads_as (S levels) (length (store st)) new x
      (OSequence (os ++ (if truncated then [OLeaf (LText TRUNCATED)] else []))).
Proof.
  intros Hsim Hd Ht c' new Hv.
  set (fs := imap (λ i child, Frame child (f_depth f + 1) (id :: f_path f) new (SIndex i)) items) in *.
  set (s1 := assign (store st) (f_target f) (f_key f) (Ref new)) in *.
  assert (length s1 = new) as Hl by apply length_assign.
  set (rest := if truncated then [Leaf (LText TRUNCATED)] else []) in *.
  destruct (frames_simulated env levels (id :: f_path f) new fs
    (Copying c' (s1 ++ [CSequence (replicate (length items) (Leaf (LText REDACTED)) ++ rest)])))
    as (n & st' & xs & new' & Hrun & Hc & Hs & Hxs).
  { done. }
  { cbn. rewrite length_app, Hl. cbn. lia. }
  { unfold fs. apply Forall_lookup_2. intros i y Hy. apply list_lookup_imap_Some in Hy as (x & _ & ->). done. }
  assert (f_item <$> fs = items) as Ei.
  { unfold fs. apply list_eq. intros i. rewrite list_lookup_fmap, list_lookup_imap. by destruct (items !! i). }
  assert (f_key <$> fs = imap (λ i _, SIndex i) items) as Ek.
  { unfold fs. apply list_eq. intros i. rewrite list_lookup_fmap, !list_lookup_imap. by destruct (items !! i). }
  rewrite Ei in *. rewrite Ek in *. cbn [counted] in *.
  pose proof (length_copy_all (copy env levels (id :: f_path f)) items c') as Hlen.
  destruct (copy_all _ items c') as [os c'']. cbn [fst snd] in *.
  pose proof (Forall2_length _ _ _ Hxs) as Hlx.
  rewrite <-Hl in Hs at 1. cbn [store] in Hs. rewrite zip_indices, assign_all_sequence, <-app_assoc in Hs by lia.
  replace (length items) with (length xs) in Hs by lia.
  pose proof (insert_all_fill (Leaf (LText REDACTED)) [] xs rest) as Hfill. cbn [app length Nat.add] in Hfill. rewrite Hfill in Hs.
  eexists (1 + n)%nat, st', (Ref new), _. split_and!; [|done|exact Hs|].
  - intros stack. eapply runs_trans; [by apply runs_step|apply Hrun].
  - intros s Hh. cbn [read_cell]. pose proof (Hh 0%nat _ eq_refl) as H0'. rewrite Nat.add_0_r in H0'.
    unfold new. rewrite H0'. apply fmap_Some. eexists. split; [|done].
    apply mapM_Some, Forall2_app; [|unfold rest; destruct truncated, levels; by repeat constructor].
    eapply Forall2_impl; [exact Hxs|]. intros x o Hx. apply Hx.
    intros i y Hi. cbn [store]. rewrite length_app, Hl. cbn [length].
    specialize (Hh (S i) y Hi). by rewrite <-Hh; f_equal; unfold new; lia.
Qed.

Lemma inspect_deep env path x c depth r :
  inspect self env depth path x c = inr r → depth < max_depth self.
Proof. unfold inspect. destruct (Z.leb_spec (max_depth self) depth); [done|]. by intros _. Qed.

Lemma frame_simulated_all env levels : frame_simulated env levels.
Proof.
  induction levels as [|levels IH]; intros f st Hd Ht.
  all: set (c := Counters (S (nodes (counted st))) (used_bytes (counted st)) (snapshots (counted st))).
  all: destruct (max_nodes self <? Z.of_nat (nodes c)) eqn:En.
  1,3: apply (leaf_simulated env f st _ c (LText LIMIT)); [unfold visit_frame|cbn [copy]]; fold c; by rewrite En.
  all: destruct (copy_leaf self (f_item f) (used_bytes c)) as [[l used]|] eqn:El.
  1,3: apply (leaf_simulated env f st _ (Counters (nodes c) used (snapshots c)) l);
    [unfold visit_frame|cbn [copy]]; fold c; by rewrite En, El.
  all: destruct (inspect self env (f_depth f) (f_path f) (f_item f) c) as [l|[id s]] eqn:Ei; pose proof Ei as Ei'; rewrite Hd in Ei'.
  1,3: apply (leaf_simulated env f st _ c l); [unfold visit_frame|cbn [copy]]; fold c; by rewrite En, El, ?Ei, ?Ei'.
  - apply inspect_deep in Ei. lia.
  - assert (f_depth f + 1 = max_depth self - Z.of_nat levels) as Hd' by lia.
    destruct s as [pairs truncated|items truncated].
    + destruct (foldl (add_pair self) (used_bytes c, truncation truncated, []) pairs) as [[used entries] pending] eqn:Ef.
      pose proof (mapping_simulated env levels f st c id pairs truncated used entries pending IH Hd' Ht Ef) as Hm.
      cbn zeta in Hm. cbn [copy]. fold c. rewrite En, El, Ei', Ef.
      destruct (copy_all _ pending.*1 _) as [os c'']. cbn [fst snd]. apply Hm.
      unfold visit_frame. fold c. by rewrite En, El, Ei, Ef.
    + pose proof (sequence_simulated env levels f st c id items truncated IH Hd' Ht) as Hm.
      cbn zeta in Hm. cbn [copy]. fold c. rewrite En, El, Ei'.
      destruct (copy_all _ items _) as [os c'']. cbn [fst snd]. apply Hm.
      unfold visit_frame. fold c. by rewrite En, El, Ei.
Qed.

(** ** The loop ends *)
Definition width (s : snapshot) : nat :=
  match s with SMapping pairs _ => length pairs | SSequence items _ => length items end.

Definition narrow (c : counters) : Prop := map_Forall (λ _ s, (width s ≤ items_limit self)%nat) (snapshots c).

Lemma length_capture {A} most (it : iteration A) xs b : capture most it = Some (xs, b) → (length xs ≤ most)%nat.
Proof.
  unfold capture. destruct (Nat.ltb_spec most (length (produced it))); [|destruct (ends it); [|done]]; intros [= <- <-].
  - rewrite length_take. lia.
  - done.
Qed.

Lemma take_snapshot_narrow env now x id s :
  take_snapshot self env now x = Some (id, s) → (width s ≤ items_limit self)%nat.
Proof.
  unfold take_snapshot. destruct x; try done.
  - intros ([xs b] & Hc%length_capture & (ps & Hp & [= <- <-])%bind_Some)%bind_Some.
    apply mapM_Some, Forall2_length in Hp. cbn. lia.
  - by intros ([xs b] & Hc%length_capture & [= <- <-])%bind_Some.
Qed.

Lemma inspect_narrow env depth path x c id s :
  narrow c → inspect self env depth path x c = inr (id, s) → (width s ≤ items_limit self)%nat.
Proof.
  intros Hn. unfold inspect. destruct (_ <=? _); [done|]. destruct (identity_of x) as [i|]; [|done].
  case_bool_decide; [done|]. destruct (snapshots c !! i) as [s'|] eqn:E.
  - intros [= <- <-]. by apply (Hn i).
  - destruct (take_snapshot _ _ _ _) as [[i' s']|] eqn:Es; [|done]. intros [= <- <-]. by eapply take_snapshot_narrow.
Qed.

Lemma length_pending acc pairs :
  (length (foldl (add_pair self) acc pairs).2 ≤ length acc.2 + length pairs)%nat.
Proof.
  revert acc. induction pairs as [|[k v] pairs IH]; intros [[used entries] pending]; cbn [foldl]; [cbn; lia|].
  etrans; [apply IH|]. unfold add_pair. destruct (match k with IText _ => _ | _ => _ end) as [key used'].
  cbn [snd length]. destruct (match k with IText _ => _ | _ => _ end); rewrite ?length_app; cbn; lia.
Qed.

(** A visited frame counts, and pushes at most [max_items] frames within [max_nodes]. *)
Lemma visit_frame_bounds env f st pushed st' :
  narrow (counted st) → visit_frame self env f st = (pushed, st') →
  narrow (counted st') ∧ nodes (counted st') = S (nodes (counted st)) ∧
  (length pushed ≤ items_limit self)%nat ∧
  (Z.of_nat (S (nodes (counted st))) > max_nodes self → pushed = []).
Proof.
  intros Hn. unfold visit_frame. cbn zeta.
  set (c := Counters (S (nodes (counted st))) (used_bytes (counted st)) (snapshots (counted st))).
  assert (narrow c) as Hc by exact Hn.
  destruct (Z.ltb_spec (max_nodes self) (Z.of_nat (nodes c))) as [Hl|Hl].
  { intros [= <- <-]. split_and!; [done|done|cbn; lia|done]. }
  destruct (copy_leaf self (f_item f) (used_bytes c)) as [[l used]|].
  { intros [= <- <-]. split_and!; [done|done|cbn; lia|done]. }
  destruct (inspect self env (f_depth f) (f_path f) (f_item f) c) as [l|[id s]] eqn:Ei.
  { intros [= <- <-]. split_and!; [done|done|cbn; lia|done]. }
  pose proof (inspect_narrow _ _ _ _ _ _ _ Hc Ei) as Hw.
  assert (∀ n u, narrow (Counters n u (<[id := s]> (snapshots c)))) as Hi by by intros; apply map_Forall_insert_2.
  cbn in Hl. destruct s as [pairs b|items b]; cbn [width] in Hw.
  - pose proof (length_pending (used_bytes c, truncation b, []) pairs) as Hp.
    destruct (foldl _ _ _) as [[used entries] pending]. cbn in Hp. intros [= <- <-].
    split_and!; [apply Hi|done|rewrite length_fmap; lia|lia].
  - intros [= <- <-]. split_and!; [apply Hi|done|rewrite length_imap; lia|lia].
Qed.

Lemma loop_ends env fuel stack st :
  narrow (counted st) →
  (length stack + (Z.to_nat (max_nodes self) - nodes (counted st)) * items_limit self ≤ fuel)%nat →
  is_Some (redact_loop self env fuel stack st).
Proof.
  revert stack st. induction fuel as [|fuel IH]; intros stack st Hn Hf; destruct stack as [|f stack]; cbn [redact_loop];
    [by eexists|by apply Nat.le_0_r, Nat.eq_add_0 in Hf as [Hf _]|by eexists|].
  destruct (visit_frame self env f st) as [pushed st'] eqn:Ev.
  destruct (visit_frame_bounds _ _ _ _ _ Hn Ev) as (Hn' & Hnode & Hlen & Hlim). apply IH; [done|].
  rewrite length_app, Hnode. cbn [length] in Hf.
  destruct (decide (Z.of_nat (S (nodes (counted st))) > max_nodes self)) as [Hgt|Hle].
  - rewrite Hlim by done. cbn [length Nat.add].
    pose proof (Nat.mul_le_mono_r (Z.to_nat (max_nodes self) - S (nodes (counted st)))
                  (Z.to_nat (max_nodes self) - nodes (counted st)) (items_limit self) ltac:(lia)). lia.
  - assert (Z.to_nat (max_nodes self) - nodes (counted st) = S (Z.to_nat (max_nodes self) - S (nodes (counted st))))%nat as E by lia.
    rewrite E in Hf. lia.
Qed.

Lemma loop_more env fuel fuel' stack st st' :
  redact_loop self env fuel stack st = Some st' → (fuel ≤ fuel')%nat →
  redact_loop self env fuel' stack st = Some st'.
Proof.
  revert fuel' stack st. induction fuel as [|fuel IH]; intros fuel' stack st; destruct stack as [|f stack]; cbn [redact_loop].
  - by destruct fuel'.
  - done.
  - by destruct fuel'.
  - destruct fuel' as [|fuel']; [lia|]. cbn [redact_loop]. destruct (visit_frame self env f st) as [pushed st1].
    intros Hr Hle. apply IH; [done|lia].
Qed.

Definition start : counters := Counters 0 0 ∅.

Lemma redact_copy env value :
  0 ≤ max_depth self →
  redact self env value = Some (copy env (Z.to_nat (max_depth self)) [] value start).1.
Proof.
  intros Hd. unfold redact. set (f := Frame value 0 [] holder (SIndex 0)). set (st := Copying _ _).
  destruct (frame_simulated_all env (Z.to_nat (max_depth self)) f st) as (n & st' & x & new & Hrun & Hc & Hs & Hx);
    [cbn; lia|cbn; unfold holder; lia|].
  assert (redact_loop self env (n + 0) [f] st = Some st') as Hn by by rewrite Hrun; destruct st'.
  destruct (loop_ends env (loop_fuel self) [f] st) as [st1 H1]; [apply map_Forall_empty|cbn; unfold loop_fuel; lia|].
  assert (st1 = st') as ->.
  { pose proof (loop_more _ _ (n + 0 + loop_fuel self) _ _ _ Hn) as E1. pose proof (loop_more _ _ (n + 0 + loop_fuel self) _ _ _ H1) as E2.
    rewrite E1 in E2 by lia. specialize (E2 ltac:(lia)). congruence. }
  rewrite H1. cbn [mbind option_bind]. rewrite Hs. cbn. apply Hx. intros i y Hi. exact Hi.
Qed.

(** ** Hidden values do not matter *)

(** The value of a pair with this key is not copied. *)
Definition hides (key : item) : bool := match key with IText k => sensitive_name self k | _ => true end.

Definition pairs_agree (p q : item * item) : Prop := p.1 = q.1 ∧ (hides p.1 = false → p.2 = q.2).

(** Two environments that may differ in the values of hidden pairs only. *)
Definition environments_agree (env env' : environment) : Prop := ∀ now id,
  Forall2 (option_Forall2 pairs_agree) (produced (mapping_items env now id)) (produced (mapping_items env' now id)) ∧
  ends (mapping_items env now id) = ends (mapping_items env' now id) ∧
  sequence_items env now id = sequence_items env' now id.

Definition snapshots_agree (s s' : snapshot) : Prop :=
  match s, s' with
  | SMapping ps b, SMapping qs b' => Forall2 pairs_agree ps qs ∧ b = b'
  | SSequence xs b, SSequence ys b' => xs = ys ∧ b = b'
  | _, _ => False
  end.

Definition counters_agree (c c' : counters) : Prop :=
  nodes c = nodes c' ∧ used_bytes c = used_bytes c' ∧
  ∀ id, option_Forall2 snapshots_agree (snapshots c !! id) (snapshots c' !! id).

Lemma counters_agree_insert n u m m' id s s' :
  (∀ id, option_Forall2 snapshots_agree (m !! id) (m' !! id)) → snapshots_agree s s' →
  counters_agree (Counters n u (<[id := s]> m)) (Counters n u (<[id := s']> m')).
Proof.
  intros Hm Hs. split_and!; [done|done|]. intros id'. cbn. destruct (decide (id = id')) as [->|Hne].
  - rewrite !lookup_insert_eq. by constructor.
  - by rewrite !lookup_insert_ne.
Qed.

Lemma add_pair_agrees acc p q : pairs_agree p q → add_pair self acc p = add_pair self acc q.
Proof.
  destruct acc as [[used entries] pending], p as [k v], q as [k' v']. intros [E Hv]. cbn in E, Hv. subst k'.
  unfold add_pair. unfold hides in Hv. destruct k; cbn [fst snd]; try done.
  destruct (charge_text self s used); destruct (sensitive_name self s) eqn:Es; try done; by rewrite Hv.
Qed.

Lemma add_pairs_agree acc ps qs :
  Forall2 pairs_agree ps qs → foldl (add_pair self) acc ps = foldl (add_pair self) acc qs.
Proof.
  intros H2. revert acc. induction H2 as [|p q ps qs Hp _ IH]; intros acc; [done|]. cbn [foldl].
  rewrite (add_pair_agrees acc p q Hp). apply IH.
Qed.

Lemma capture_agrees {A B} (R : A → B → Prop) most (it : iteration A) (it' : iteration B) :
  Forall2 R (produced it) (produced it') → ends it = ends it' →
  option_Forall2 (λ x y, Forall2 R x.1 y.1 ∧ x.2 = y.2) (capture most it) (capture most it').
Proof.
  intros Hp He. unfold capture. rewrite He, (Forall2_length _ _ _ Hp).
  destruct (_ <? _)%nat; [constructor; split; [by apply Forall2_take|done]|].
  destruct (ends it'); by constructor.
Qed.

Lemma mapM_agrees {A} (R : A → A → Prop) (xs ys : list (option A)) :
  Forall2 (option_Forall2 R) xs ys → option_Forall2 (Forall2 R) (mapM (λ x, x) xs) (mapM (λ x, x) ys).
Proof.
  induction 1 as [|x y xs ys Hx _ IH]; cbn; [by repeat constructor|].
  destruct Hx as [a b Hab|]; cbn; [|constructor]. destruct IH; cbn; repeat constructor; done.
Qed.

Lemma take_snapshot_agrees env env' now x :
  environments_agree env env' →
  option_Forall2 (λ r r', r.1 = r'.1 ∧ snapshots_agree r.2 r'.2)
    (take_snapshot self env now x) (take_snapshot self env' now x).
Proof.
  intros He. unfold take_snapshot. destruct x as [| | | | | |id|id|]; try constructor; destruct (He now id) as (Hm & Hend & Hseq).
  - pose proof (capture_agrees _ (items_limit self) _ _ Hm Hend) as Hc.
    destruct Hc as [[xs b] [ys b'] [Hxy Eb]|]; cbn in *; [|constructor].
    pose proof (mapM_agrees _ _ _ Hxy) as Hp. destruct Hp; cbn; constructor. done.
  - rewrite Hseq. destruct (capture _ _) as [[xs b]|]; cbn; by constructor.
Qed.

Lemma inspect_agrees env env' depth path x c c' :
  environments_agree env env' → counters_agree c c' →
  match inspect self env depth path x c, inspect self env' depth path x c' with
  | inl l, inl l' => l = l'
  | inr (id, s), inr (id', s') => id = id' ∧ snapshots_agree s s'
  | _, _ => False
  end.
Proof.
  intros He (Hn & Hu & Hs). unfold inspect. destruct (_ <=? _); [done|]. destruct (identity_of x) as [id|]; [|done].
  case_bool_decide; [done|]. specialize (Hs id). destruct Hs as [s s' Hs|]; [done|].
  rewrite Hn. pose proof (take_snapshot_agrees env env' (nodes c') x He) as Ht.
  destruct Ht as [[i s] [i' s'] [E Hss]|]; [cbn in *; by subst|done].
Qed.

Definition copies_agree (r r' : output * counters) : Prop := r.1 = r'.1 ∧ counters_agree r.2 r'.2.

Lemma copy_all_agrees cp cp' xs c c' :
  (∀ x c c', counters_agree c c' → copies_agree (cp x c) (cp' x c')) → counters_agree c c' →
  (copy_all cp xs c).1 = (copy_all cp' xs c').1 ∧ counters_agree (copy_all cp xs c).2 (copy_all cp' xs c').2.
Proof.
  intros Hcp. revert c c'. induction xs as [|x xs IH]; intros c c' Hc; [done|]. cbn.
  destruct (Hcp x c c' Hc) as [E1 E2]. destruct (cp x c) as [o c1], (cp' x c') as [o' c1']. cbn in *. subst o'.
  destruct (IH c1 c1' E2) as [E3 E4]. destruct (copy_all cp xs c1), (copy_all cp' xs c1'). cbn in *. by subst.
Qed.

Lemma copy_agrees env env' levels path x c c' :
  environments_agree env env' → counters_agree c c' →
  copies_agree (copy env levels path x c) (copy env' levels path x c').
Proof.
  intros He. revert path x c c'. induction levels as [|levels IH]; intros path x c c' (Hn & Hu & Hs); cbn [copy].
  all: rewrite Hn, Hu; cbn [nodes used_bytes snapshots].
  all: destruct (max_nodes self <? _); [by repeat split|].
  all: destruct (copy_leaf self x (used_bytes c')) as [[l used]|]; [by repeat split|].
  all: match goal with |- copies_agree (match inspect _ _ ?d _ _ ?a with _ => _ end) (match inspect _ _ _ _ _ ?b with _ => _ end) =>
    pose proof (inspect_agrees env env' d path x a b He (conj eq_refl (conj eq_refl Hs))) as Hi;
    destruct (inspect self env d path x a) as [l|[id s]], (inspect self env' d path x b) as [l'|[id' s']]; try done end.
  - subst. by repeat split.
  - subst. by repeat split.
  - destruct Hi as [<- Hss].
    destruct s as [ps b|xs b], s' as [qs b'|ys b']; try done; destruct Hss as [Hps <-]; pose proof Hps as Hps'.
    + rewrite (add_pairs_agree _ _ _ Hps). destruct (foldl _ _ _) as [[used entries] pending].
      destruct (copy_all_agrees (copy env levels (id :: path)) (copy env' levels (id :: path)) pending.*1
        (Counters (S (nodes c')) used (<[id := SMapping ps b]> (snapshots c)))
        (Counters (S (nodes c')) used (<[id := SMapping qs b]> (snapshots c')))) as [E1 E2];
        [intros; by apply IH|by apply counters_agree_insert|].
      destruct (copy_all _ _ _) as [os c1], (copy_all _ _ _) as [os' c1']. cbn in *. by subst.
    + subst ys. destruct (copy_all_agrees (copy env levels (id :: path)) (copy env' levels (id :: path)) xs
        (Counters (S (nodes c')) (used_bytes c') (<[id := SSequence xs b]> (snapshots c)))
        (Counters (S (nodes c')) (used_bytes c') (<[id := SSequence xs b]> (snapshots c')))) as [E1 E2];
        [intros; by apply IH|by apply counters_agree_insert|].
      destruct (copy_all _ _ _) as [os c1], (copy_all _ _ _) as [os' c1']. cbn in *. by subst.
Qed.

(** ** What is written is presentable *)
Definition leaf_ok (l : leaf) : Prop :=
  match l with LText s => printable s | LFloat f => isfinite f = true | _ => True end.

(** At most [levels] containers inside of each other, none of them with more than
    [max_items] elements and a mark, keys that differ, no control characters. *)
Fixpoint presentable (levels : nat) (o : output) : Prop :=
  match o, levels with
  | OLeaf l, _ => leaf_ok l
  | _, O => False
  | OMapping entries, S levels =>
      NoDup entries.*1 ∧ (length entries ≤ S (items_limit self))%nat ∧
      Forall (λ e, printable e.1 ∧ presentable levels e.2) entries
  | OSequence elements, S levels =>
      (length elements ≤ S (items_limit self))%nat ∧ Forall (presentable levels) elements
  end.

Lemma presentable_leaf levels l : leaf_ok l → presentable levels (OLeaf l).
Proof. by destruct levels. Qed.

(** *** Keys that are not used *)
Definition longer {A} (key : pystr) (entries : list (pystr * A)) : list (pystr * A) :=
  filter (λ e, (length key ≤ length e.1)%nat) entries.

Lemma longer_shrinks {A} key (entries : list (pystr * A)) tail :
  tail ≠ [] → key ∈ entries.*1 → (length (longer (key ++ tail) entries) < length (longer key entries))%nat.
Proof.
  intros Ht. assert (0 < length tail)%nat by (destruct tail; [done|cbn; lia]).
  assert (∀ es : list (pystr * A), length (longer (key ++ tail) es) ≤ length (longer key es))%nat as Hle.
  { unfold longer. induction es as [|e es IH]; [done|]. rewrite !filter_cons, length_app in *.
    destruct (decide (length key + length tail ≤ length e.1)%nat), (decide (length key ≤ length e.1)%nat); cbn; lia. }
  induction entries as [|[k v] es IH]; cbn [fmap list_fmap fst]; [by intros ?%not_elem_of_nil|].
  intros Hin. specialize (Hle es). unfold longer in *. rewrite !filter_cons, length_app in *. cbn [fst] in *.
  apply elem_of_cons in Hin as [->|Hin].
  - rewrite decide_False, decide_True by lia. cbn. lia.
  - specialize (IH Hin).
    destruct (decide (length key + length tail ≤ length k)%nat), (decide (length key ≤ length k)%nat); cbn; lia.
Qed.

Lemma unused_key_fresh {A} fuel key (entries : list (pystr * A)) :
  (length (longer key entries) < fuel)%nat → unused_key fuel key entries ∉ entries.*1.
Proof.
  revert key. induction fuel as [|fuel IH]; intros key Hf; [lia|]. cbn [unused_key]. unfold str_in.
  case_bool_decide as Hk; [|done]. apply IH.
  pose proof (longer_shrinks key entries (u "[DUPLICATE]") ltac:(done) Hk). lia.
Qed.

Lemma unused_key_printable {A} fuel key (entries : list (pystr * A)) :
  printable key → printable (unused_key fuel key entries).
Proof.
  revert key. induction fuel as [|fuel IH]; intros key Hk; [done|]. cbn [unused_key]. destruct (str_in _ _); [|done].
  apply IH, Forall_app_2; [done|by apply marker_printable].
Qed.

(** *** The entries of a mapping *)
Definition entries_ok (n : nat) (acc : Z * list (pystr * leaf) * list (item * pystr)) : Prop :=
  let '(_, entries, pending) := acc in
  NoDup entries.*1 ∧ (length entries ≤ n)%nat ∧ Forall (λ e, printable e.1 ∧ leaf_ok e.2) entries ∧
  Forall (λ p, p.2 ∈ entries.*1) pending.

Lemma add_pair_ok n acc p : entries_ok n acc → entries_ok (S n) (add_pair self acc p).
Proof.
  destruct acc as [[used entries] pending], p as [k v]. intros (Hnd & Hlen & Hes & Hp). unfold add_pair.
  assert (∃ key used', (match k with
    | IText k => match charge_text self k used with Some used => (redact_text self k, used) | None => (REDACTED, used) end
    | _ => (REDACTED, used) end) = (key, used') ∧ printable key) as (key & used' & -> & Hkey).
  { destruct k; try (eexists _, _; split; [reflexivity|by apply marker_printable]).
    destruct (charge_text self s used); eexists _, _; (split; [reflexivity|]);
      [apply redact_text_printable|by apply marker_printable]. }
  pose proof (unused_key_fresh (S (length entries)) key entries) as Hf.
  pose proof (unused_key_printable (S (length entries)) key entries Hkey) as Hk'.
  set (fresh := unused_key _ _ _) in *. specialize (Hf ltac:(unfold longer; pose proof (length_filter (λ e, (length key ≤ length e.1)%nat) entries); lia)).
  split_and!.
  - rewrite fmap_app. apply NoDup_app. split_and!; [done|by intros x Hx ->%list_elem_of_singleton|apply NoDup_singleton].
  - rewrite length_app. cbn. lia.
  - apply Forall_app_2; [done|]. apply Forall_singleton. split; [done|by apply marker_printable].
  - assert (Forall (λ p, p.2 ∈ (entries ++ [(fresh, LText REDACTED)]).*1) pending) as Hp'.
    { eapply Forall_impl; [exact Hp|]. intros e He. rewrite fmap_app. apply elem_of_app. by left. }
    destruct (match k with IText _ => _ | _ => _ end); [done|]. apply Forall_app_2; [done|]. apply Forall_singleton.
    rewrite fmap_app. apply elem_of_app. right. by apply list_elem_of_singleton.
Qed.

Lemma add_pairs_ok n acc ps : entries_ok n acc → entries_ok (n + length ps) (foldl (add_pair self) acc ps).
Proof.
  revert n acc. induction ps as [|p ps IH]; intros n acc Hacc; cbn [foldl length]; [by rewrite Nat.add_0_r|].
  rewrite <-Nat.add_succ_comm. by apply IH, add_pair_ok.
Qed.

Lemma truncation_ok used b : entries_ok 1 (used, truncation b, []).
Proof.
  destruct b; cbn; split_and!; try done; try apply NoDup_nil_2; try apply Forall_nil_2; try lia.
  - apply NoDup_singleton.
  - apply Forall_singleton. split; by apply marker_printable.
Qed.

Lemma assoc_set_keys {A} k (x : A) es : k ∈ es.*1 → (assoc_set k x es).*1 = es.*1.
Proof.
  induction es as [|[k' x'] es IH]; cbn; [by intros ?%not_elem_of_nil|]. intros Hk.
  destruct (decide (k = k')) as [->|Hne]; [done|]. cbn. f_equal. apply IH. by apply elem_of_cons in Hk as [?|?].
Qed.

Lemma assoc_set_Forall {A} (P : pystr * A → Prop) k x es : Forall P es → P (k, x) → Forall P (assoc_set k x es).
Proof.
  intros Hes Hx. induction Hes as [|[k' x'] es He Hes IH]; cbn; [by constructor|].
  destruct (decide (k = k')) as [->|]; by constructor.
Qed.

Lemma set_entries_keys {A} (es new : list (pystr * A)) :
  Forall (λ e, e.1 ∈ es.*1) new → (set_entries es new).*1 = es.*1.
Proof.
  revert es. induction new as [|[k x] new IH]; intros es Hn; [done|]. inversion_clear Hn as [|? ? Hk Hn'].
  unfold set_entries in *. cbn [foldl]. rewrite IH; by rewrite assoc_set_keys.
Qed.

Lemma set_entries_Forall {A} (P : pystr * A → Prop) es new :
  Forall P es → Forall P new → Forall P (set_entries es new).
Proof.
  intros Hes Hn. revert es Hes. induction Hn as [|[k x] new Hx _ IH]; intros es Hes; [done|].
  apply IH. by apply assoc_set_Forall.
Qed.

Lemma set_entries_presentable levels n used entries pending os :
  entries_ok n (used, entries, pending) → (n ≤ S (items_limit self))%nat → Forall (presentable levels) os →
  presentable (S levels) (OMapping (set_entries ((λ '(k, l), (k, OLeaf l)) <$> entries) (zip pending.*2 os))).
Proof.
  intros (Hnd & Hlen & Hes & Hp) Hn Hos.
  assert (((λ '(k, l), (k, OLeaf l)) <$> entries).*1 = entries.*1) as Ek.
  { rewrite <-list_fmap_compose. apply list_fmap_ext. by intros ? [k l] _. }
  assert (Forall (λ e : pystr * output, e.1 ∈ entries.*1 ∧ presentable levels e.2) (zip pending.*2 os)) as Hz.
  { clear -Hp Hos. revert os Hos. induction Hp as [|[x k] pending Hk _ IH]; intros [|o os] Hos; cbn; [constructor..|].
    inversion_clear Hos. constructor; [done|by apply IH]. }
  pose proof (set_entries_keys ((λ '(k, l), (k, OLeaf l)) <$> entries) (zip pending.*2 os)) as Hkeys.
  rewrite Ek in Hkeys. specialize (Hkeys ltac:(eapply Forall_impl; [exact Hz|by intros e [? _]])).
  split_and!.
  - by rewrite Hkeys.
  - rewrite <-(length_fmap fst), Hkeys, length_fmap. lia.
  - apply set_entries_Forall.
    + apply Forall_fmap. eapply Forall_impl; [exact Hes|]. intros [k l] [Hk Hl]. split; [done|]. by apply presentable_leaf.
    + eapply Forall_impl; [exact Hz|]. intros [k o] [Hk Ho]. split; [|done].
      apply list_elem_of_fmap in Hk as ([k' l] & -> & Hin). by eapply (Forall_forall (λ e, printable e.1 ∧ _) entries) in Hin as [? _].
Qed.

Lemma copy_leaf_ok x used l used' : copy_leaf self x used = Some (l, used') → leaf_ok l.
Proof.
  unfold copy_leaf. destruct x; try done; intros E.
  1-3: by injection E as <- <-.
  - injection E as <- <-. destruct (isfinite f) eqn:Ef; [done|by apply marker_printable].
  - destruct (charge_text self s used); injection E as <- <-; [apply redact_text_printable|by apply marker_printable].
  - injection E as <- <-. by apply marker_printable.
Qed.

Lemma inspect_leaf_ok env depth path x c l : inspect self env depth path x c = inl l → leaf_ok l.
Proof.
  unfold inspect. destruct (_ <=? _); [intros [= <-]; by apply marker_printable|].
  destruct (identity_of x) as [id|]; [|intros [= <-]; by apply marker_printable].
  case_bool_decide; [intros [= <-]; by apply marker_printable|]. destruct (snapshots c !! id); [done|].
  destruct (take_snapshot _ _ _ _); [done|]. intros [= <-]. by apply marker_printable.
Qed.

Lemma copy_all_Forall (P : output → Prop) (I : counters → Prop) cp xs c :
  (∀ x c, I c → P (cp x c).1 ∧ I (cp x c).2) → I c → Forall P (copy_all cp xs c).1 ∧ I (copy_all cp xs c).2.
Proof.
  intros Hcp. revert c. induction xs as [|x xs IH]; intros c Hc; [done|]. cbn. destruct (Hcp x c Hc) as [Hx Hc'].
  destruct (cp x c) as [o c1]. destruct (IH c1 Hc') as [Hxs Hc'']. destruct (copy_all cp xs c1). split; [by constructor|done].
Qed.

Lemma copy_presentable env levels path x c :
  narrow c → presentable levels (copy env levels path x c).1 ∧ narrow (copy env levels path x c).2.
Proof.
  revert path x c. induction levels as [|levels IH]; intros path x c Hn; cbn [copy].
  all: set (c1 := Counters (S (nodes c)) (used_bytes c) (snapshots c)); assert (narrow c1) as Hn1 by exact Hn.
  all: destruct (max_nodes self <? _); [split; [by apply marker_printable|done]|].
  all: destruct (copy_leaf self x (used_bytes c1)) as [[l used]|] eqn:El; [split; [by apply copy_leaf_ok in El|done]|].
  all: destruct (inspect _ _ _ _ _ _) as [l|[id s]] eqn:Ei; [split; [by apply inspect_leaf_ok in Ei|done]|].
  - split; [by apply marker_printable|done].
  - pose proof (inspect_narrow _ _ _ _ _ _ _ Hn1 Ei) as Hw.
    assert (∀ n u, narrow (Counters n u (<[id := s]> (snapshots c1)))) as Hi by by intros; apply map_Forall_insert_2.
    destruct s as [ps b|xs b]; cbn [width] in Hw.
    + pose proof (add_pairs_ok 1 _ ps (truncation_ok (used_bytes c1) b)) as Hok.
      destruct (foldl _ _ _) as [[used entries] pending].
      pose proof (copy_all_Forall (presentable levels) narrow (copy env levels (id :: path)) pending.*1 _ (IH _) (Hi (nodes c1) used)) as [Hos Hc].
      destruct (copy_all _ _ _) as [os c2]. split; [|done]. eapply set_entries_presentable; [done|lia|done].
    + pose proof (copy_all_Forall (presentable levels) narrow (copy env levels (id :: path)) xs _ (IH _) (Hi (nodes c1) (used_bytes c1))) as [Hos Hc].
      pose proof (length_copy_all (copy env levels (id :: path)) xs (Counters (nodes c1) (used_bytes c1) (<[id := SSequence xs b]> (snapshots c1)))) as Hl.
      destruct (copy_all _ _ _) as [os c2]. cbn [fst snd] in *. split; [|done]. split.
      * rewrite length_app. destruct b; cbn; lia.
      * apply Forall_app_2; [done|]. destruct b; [|done]. apply Forall_singleton, presentable_leaf. by apply marker_printable.
Qed.

(** ** Assignments to sensitive names *)

(** A value without delimiters, quotes and escapes. *)
Definition value_part (c : Z) : Prop := value_char c = true ∧ c ≠ 34 ∧ c ≠ 39.
Definition plain_value (v : pystr) : Prop := v ≠ [] ∧ Forall (λ c, graphic c ∧ value_part c ∧ c ≠ 37) v.

Lemma first_other (p : Z → bool) t t' a b r r' :
  t ++ a :: r = t' ++ b :: r' → Forall (λ c, p c = true) t → Forall (λ c, p c = true) t' → p a = false → p b = false → a = b.
Proof.
  revert t'. induction t as [|x t IH]; intros [|y t'] E Ht Ht' Ha Hb; simplify_eq/=; [done|..].
  - inversion_clear Ht'. congruence.
  - inversion_clear Ht. congruence.
  - inversion_clear Ht. inversion_clear Ht'. by apply (IH t').
Qed.

(** No token begins in a name or at the separator after it. *)
Lemma no_jwt_in_name b t sep v :
  Forall (λ c, name_char c = true) t → sep ∈ [58; 61] → match_here JWT (b, t ++ sep :: v) = None.
Proof.
  intros Ht Hsep. destruct (match_here JWT _) as [x|] eqn:E; [exfalso|done].
  unfold match_here, JWT in E. cbn [match_at fst snd] in E. destruct (holds name_char b); [done|].
  apply repeat_from_Some in E as (t' & s' & b' & E & Ht' & _ & Hk).
  cbn [match_at Char One fst snd] in Hk. apply repeat_from_Some in Hk as (d & s2 & b2 & -> & Hd & Hl & _).
  destruct d as [|c d]; [cbn in Hl; lia|]. inversion_clear Hd as [|? ? Hc _]. apply Z.eqb_eq in Hc. subst c.
  assert (sep = 46) as ->.
  { apply (first_other name_char _ _ _ _ _ _ E Ht Ht'); [|done]. by apply elem_of_cons in Hsep as [->|Hs%list_elem_of_singleton]; [|subst sep]. }
  by apply elem_of_cons in Hsep as [?|?%list_elem_of_singleton].
Qed.

Lemma sub_from_prefix r f pre s fuel before :
  (∀ t t' b, pre = t ++ t' → t' ≠ [] → match_here r (b, t' ++ s) = None) → (length pre ≤ fuel)%nat →
  ∃ before', sub_from r f fuel (before, pre ++ s) = pre ++ sub_from r f (fuel - length pre) (before', s).
Proof.
  revert fuel before. induction pre as [|c pre IH]; intros fuel before Hn Hf; [exists before; by rewrite Nat.sub_0_r|].
  destruct fuel as [|fuel]; [cbn in Hf; lia|]. cbn [app sub_from snd length Nat.sub].
  pose proof (Hn [] (c :: pre) before eq_refl ltac:(done)) as E. cbn [app] in E. rewrite E.
  destruct (IH fuel (Some c)) as [b' Hb']; [|cbn in Hf; lia|exists b'; by rewrite Hb'].
  intros t t' b -> Hne. by apply (Hn (c :: t)).
Qed.

Lemma jwt_keeps_assignment name sep v :
  Forall (λ c, name_char c = true) name → sep ∈ [58; 61] → v ≠ [] → Forall value_part v →
  ∃ v', sub JWT (λ _ _, REDACTED) (name ++ sep :: v) = name ++ sep :: v' ∧ v' ≠ [] ∧ Forall value_part v'.
Proof.
  intros Hname Hsep Hne Hv. unfold sub. rewrite (cons_middle sep name v), app_assoc.
  destruct (sub_from_prefix JWT (λ _ _, REDACTED) (name ++ [sep]) v (length ((name ++ [sep]) ++ v)) None) as [b Hb].
  { intros t t' b E Hne'. destruct (exists_last Hne') as (t1 & c & ->).
    rewrite app_assoc in E. apply app_inj_2 in E as [-> [= <-]]; [|done]. rewrite <-app_assoc. apply no_jwt_in_name; [|done].
    by apply Forall_app in Hname as [_ ?]. }
  { rewrite (length_app (name ++ [sep]) v). lia. }
  rewrite Hb, (length_app (name ++ [sep]) v), Nat.add_comm, Nat.add_sub. eexists. rewrite <-app_assoc. split; [done|]. split.
  - destruct v as [|c v]; [done|]. cbn [length sub_from snd]. by destruct (match_here JWT (b, c :: v)) as [[[? ?] ?]|].
  - apply sub_from_Forall; [done|]. intros. apply Forall_lookup_2. intros i c Hc.
    assert (Forall value_part REDACTED) as HR by (unfold value_part; by repeat constructor).
    by eapply Forall_lookup_1 in HR.
Qed.

(** A greedy repetition takes all it can if the rest matches after that. *)
Lemma repeat_from_all {A} (p : Z → bool) least most (k : position → option A) n before t s x :
  Forall (λ c, p c = true) t → holds p (head s) = false ∨ below (n + length t) most = false →
  (least ≤ n + length t)%nat → match most with Some m => (n + length t ≤ m)%nat | None => True end →
  k (match last t with Some c => Some c | None => before end, s) = Some x →
  repeat_from p least most k n before (t ++ s) = Some x.
Proof.
  intros Ht. revert n before. induction Ht as [|c t Hc Ht IH]; intros n before Hs Hl Hm Hk; cbn [app repeat_from].
  - cbn [length last] in *. rewrite Nat.add_0_r in *. destruct s as [|c s]; cbn in Hs; cbn [repeat_from];
      [|replace (p c && below n most) with false by (destruct Hs as [-> | ->]; [done|by rewrite andb_false_r])];
      by rewrite (proj2 (Nat.leb_le _ _)) by lia.
  - cbn [length] in *. rewrite <-Nat.add_succ_comm in *. assert (below n most = true) as ->.
    { destruct most as [m|]; [|done]. apply Nat.ltb_lt. lia. }
    rewrite Hc. cbn [andb]. rewrite last_cons in Hk. rewrite IH; [done|done|lia|done|]. by destruct (last t).
Qed.

(** Neither a scheme with its credentials nor a quoted text begins in such a value. *)
Lemma no_scheme {A} (k : position → groups → option A) pos gs :
  Forall value_part pos.2 →
  match_at (Then SCHEMES (Then (Many is_whitespace 1 None) (Many value_char 1 None))) k pos gs = None.
Proof.
  intros Hv. destruct (match_at _ _ _ _) as [x|] eqn:E; [exfalso|done]. cbn [match_at] in E.
  apply (match_at_Some (λ _, True)) in E as (p1 & g1 & Hf & _ & Hk);
    [|by apply Forall_forall|apply Forall_forall; intros; by apply Forall_forall].
  apply repeat_from_Some in Hk as (t & s' & b & E & Ht & Hl & _). destruct t as [|c t]; [cbn in Hl; lia|].
  inversion_clear Ht as [|? ? Hc _]. apply (forward_Forall value_part _ _ Hf) in Hv. rewrite E in Hv.
  inversion_clear Hv as [|? ? [Hc' _] _]. unfold value_char in Hc'. by rewrite Hc in Hc'.
Qed.

Lemma no_quoted {A} q (k : position → groups → option A) pos gs :
  q = 34 ∨ q = 39 → Forall value_part pos.2 → match_at (quoted q) k pos gs = None.
Proof.
  intros Hq Hv. destruct (match_at _ _ _ _) as [x|] eqn:E; [exfalso|done].
  unfold quoted in E. cbn [match_at Char One] in E. apply repeat_from_Some in E as (t & s' & b & E & Ht & Hl & _).
  destruct t as [|c t]; [cbn in Hl; lia|]. inversion_clear Ht as [|? ? Hc _]. apply Z.eqb_eq in Hc. subst c.
  rewrite E in Hv. inversion_clear Hv as [|? ? [_ [H1 H2]] _]. naive_solver.
Qed.

Lemma take_sub {A} (t r : list A) : take (length (t ++ r) - length r) (t ++ r) = t.
Proof. rewrite length_app, Nat.add_sub. by rewrite take_app_length. Qed.

Lemma name_char_assigned c : name_char c = true → assigned_char c = true.
Proof.
  intros Hc. assert (45 ≤ c < 123) as Hr.
  { unfold name_char, is_alnum, is_alpha, is_lower, is_upper, is_digit, one_of, has_char in Hc.
    change (u "_-") with [95; 45] in Hc. cbn [existsb] in Hc.
    rewrite !orb_true_iff, !andb_true_iff, !Z.leb_le, !Z.eqb_eq in Hc. lia. }
  assert (forallb (λ c, implb (name_char c) (assigned_char c)) (seqZ 45 78) = true) as Hall by (vm_compute; done).
  eapply (forallb_elem _ _ c) in Hall; [|by apply elem_of_seqZ; lia]. cbn in Hall. by rewrite Hc in Hall.
Qed.

Lemma value_matches {A} (k : position → groups → option A) b v gs x :
  v ≠ [] → Forall value_part v → k (match last v with Some c => Some c | None => b end, []) gs = Some x →
  match_at (Or (Then SCHEMES (Then (Many is_whitespace 1 None) (Many value_char 1 None)))
              (Or (quoted 34) (Or (quoted 39) (Many value_char 1 None)))) k (b, v) gs = Some x.
Proof.
  intros Hne Hv Hk.
  change (match match_at (Then SCHEMES (Then (Many is_whitespace 1 None) (Many value_char 1 None))) k (b, v) gs with
          | Some x => Some x
          | None => match match_at (quoted 34) k (b, v) gs with
                    | Some x => Some x
                    | None => match match_at (quoted 39) k (b, v) gs with
                              | Some x => Some x
                              | None => match_at (Many value_char 1 None) k (b, v) gs
                              end
                    end
          end = Some x).
  rewrite no_scheme, !no_quoted by auto. cbn [match_at fst snd]. rewrite <-(app_nil_r v).
  apply repeat_from_all; [|by left|destruct v; [done|cbn; lia]|done|exact Hk].
  eapply Forall_impl; [exact Hv|by intros c [? _]].
Qed.

Lemma assignment_matches name sep v :
  name ≠ [] → (length name ≤ 256)%nat → Forall (λ c, name_char c = true) name → sep ∈ [58; 61] → v ≠ [] →
  Forall value_part v →
  ∃ b, match_here NAMED_ASSIGNMENT (None, name ++ sep :: v)
       = Some (name ++ sep :: v, [(GValue, v); (GSeparator, [sep]); (GName, name)], (b, [])).
Proof.
  intros Hne Hlen Hname Hsep Hnv Hv.
  assert (Forall (λ c, assigned_char c = true) name) as Hname'
    by (eapply Forall_impl; [exact Hname|apply name_char_assigned]).
  assert (is_whitespace sep = false ∧ assigned_char sep = false ∧ one_of ":=" sep = true) as (Hs1 & Hs2 & Hs3)
    by by apply elem_of_cons in Hsep as [->|Hs%list_elem_of_singleton]; [|subst sep].
  assert (holds is_whitespace (head v) = false) as Hv1.
  { destruct Hv as [|c v [Hc _] _]; [done|]. cbn. unfold value_char in Hc. by destruct (is_whitespace c). }
  unfold match_here, NAMED_ASSIGNMENT. set (VALUE := Or (Then SCHEMES _) _).
  eexists. cbn [match_at fst snd].
  apply repeat_from_all; [done|by left|by destruct name; [|cbn; lia]|cbn; lia|].
  apply (repeat_from_all _ _ _ _ _ _ []); [done|by left|done|done|]. cbn [fst snd].
  apply (repeat_from_all _ _ _ _ _ _ [sep] v); [by repeat constructor|by right|done|cbn; lia|]. cbn [fst snd].
  apply (repeat_from_all _ _ _ _ _ _ [] v); [done|by left|done|done|]. cbn [fst snd].
  apply value_matches; [done|done|]. cbn [fst snd]. rewrite take_sub.
  change (sep :: v) with ([sep] ++ v) at 3 4. rewrite take_sub. by rewrite !Nat.sub_0_r, !firstn_all.
Qed.

Lemma scrub_assignment name sep v :
  name ≠ [] → (length name ≤ 256)%nat → Forall (λ c, name_char c = true) name → sensitive_name self name = true →
  sep ∈ [58; 61] → v ≠ [] → Forall value_part v →
  scrub self (name ++ sep :: v) =
    sub TOKEN_CANDIDATE redact_candidates
      (sub AUTH_SCHEME (λ _ gs, group_of GScheme gs ++ u " " ++ REDACTED) (name ++ sep :: REDACTED)).
Proof.
  intros Hne Hlen Hname Hsens Hsep Hnv Hv. unfold scrub.
  destruct (jwt_keeps_assignment name sep v) as (v' & -> & Hne' & Hv'); [done..|].
  do 2 f_equal. unfold sub. destruct (assignment_matches name sep v') as [b Hb]; [done..|].
  assert (∃ n, length (name ++ sep :: v') = S n) as [n ->].
  { exists (length name + length v')%nat. rewrite length_app. cbn. lia. }
  assert (∃ c s, name ++ sep :: v' = c :: s) as (c & s & E) by (destruct name; by eexists _, _).
  cbn [sub_from snd]. rewrite E at 1. rewrite Hb.
  replace (sub_from _ _ n (b, [])) with (@nil Z) by by destruct n. rewrite app_nil_r.
  unfold redact_assignment. set (gs := [_; _; _]).
  assert (group_of GName gs = name) as -> by reflexivity. assert (group_of GSeparator gs = [sep]) as -> by reflexivity.
  by rewrite Hsens.
Qed.

(** *** Texts without escapes and control characters *)
Lemma no_escape s : has_char 37 s = false → has_percent_escape s = false.
Proof.
  induction s as [|c s IH]; [done|]. cbn [has_char existsb has_percent_escape]. intros [E Hs]%orb_false_iff.
  rewrite Z.eqb_sym, E. cbn [andb orb]. by apply IH.
Qed.

Lemma plain_decode s most : has_char 37 s = false → len s ≤ most → bounded_percent_decode s most = (s, false).
Proof.
  intros Hs Hl. unfold bounded_percent_decode. destruct (Z.ltb_spec most (len s)); [lia|]. cbn [percent_rounds].
  unfold unquote. rewrite Hs. destruct (Z.ltb_spec most (len s)); [lia|]. rewrite str_eqb_refl. by rewrite no_escape.
Qed.

Lemma visible_graphic s : Forall graphic s → visible s = s.
Proof.
  unfold visible. induction 1 as [|c s Hc _ IH]; [done|]. rewrite filter_cons_True by by apply graphic_ignorable.
  by rewrite IH.
Qed.

Lemma replace_controls_graphic s : Forall graphic s → replace_controls s = s.
Proof.
  unfold replace_controls. induction 1 as [|c s Hc _ IH]; [done|]. cbn. by rewrite (graphic_control c Hc), IH.
Qed.

Lemma redact_plain_text s :
  Forall graphic s → has_char 37 s = false → len s ≤ max_string_length self → redact_text self s = scrub self s.
Proof.
  intros Hg Hp Hl. unfold redact_text. destruct (Z.ltb_spec (max_string_length self) (len s)); [lia|].
  rewrite plain_decode, visible_graphic, str_eqb_refl by done. cbn. by rewrite replace_controls_graphic.
Qed.

Lemma has_char_Forall s : Forall (λ c, c ≠ 37) s → has_char 37 s = false.
Proof.
  unfold has_char. induction 1 as [|c s Hc _ IH]; [done|]. cbn [existsb]. rewrite IH, orb_false_r.
  apply Z.eqb_neq. congruence.
Qed.

Lemma name_char_graphic c : name_char c = true → graphic c ∧ c ≠ 37.
Proof.
  intros Hc. assert (assigned_char c = true) by by apply name_char_assigned.
  unfold name_char, is_alnum, is_alpha, is_lower, is_upper, is_digit, one_of, has_char in Hc.
  change (u "_-") with [95; 45] in Hc. cbn [existsb] in Hc.
  rewrite !orb_true_iff, !andb_true_iff, !Z.leb_le, !Z.eqb_eq in Hc. unfold graphic. lia.
Qed.

Lemma redact_assignment_text name sep v :
  name ≠ [] → (length name ≤ 256)%nat → Forall (λ c, name_char c = true) name → sensitive_name self name = true →
  sep ∈ [58; 61] → plain_value v → len (name ++ sep :: v) ≤ max_string_length self →
  redact_text self (name ++ sep :: v) = scrub self (name ++ sep :: v).
Proof.
  intros Hne Hlen Hname Hsens Hsep [Hnv Hv] Hl.
  assert (Forall (λ c, graphic c ∧ c ≠ 37) (name ++ sep :: v)) as Hall.
  { apply Forall_app_2; [eapply Forall_impl; [exact Hname|apply name_char_graphic]|]. constructor.
    - unfold graphic. apply elem_of_cons in Hsep as [->|Hs%list_elem_of_singleton]; [|subst sep]; lia.
    - eapply Forall_impl; [exact Hv|]. naive_solver. }
  apply redact_plain_text; [by eapply Forall_impl; [exact Hall|intros c [? _]]| |done].
  apply has_char_Forall. by eapply Forall_impl; [exact Hall|intros c [_ ?]].
Qed.

(** *** Assignments in the value of another one *)

(** A substitution that replaces each match by itself changes nothing. *)
Lemma match_here_text r pos text gs pos' : match_here r pos = Some (text, gs, pos') → pos.2 = text ++ pos'.2.
Proof.
  unfold match_here. intros E. apply (match_at_Some (λ _, True)) in E as (p1 & g1 & [t Ht] & _ & E);
    [|by apply Forall_true|done]. injection E as <- _ <-. rewrite Ht. by rewrite take_sub.
Qed.

Lemma sub_from_keeps r f fuel pos :
  (∀ pos1 text gs pos2, forward pos pos1 → match_here r pos1 = Some (text, gs, pos2) → f text gs = text) →
  sub_from r f fuel pos = pos.2.
Proof.
  revert pos. induction fuel as [|fuel IH]; intros pos Hf; [done|]. cbn [sub_from].
  destruct pos as [b [|c s]]; [done|]. cbn [snd].
  destruct (match_here r (b, c :: s)) as [[[t gs] pos']|] eqn:E.
  - rewrite (Hf _ _ _ _ (forward_refl _) E). apply match_here_text in E. cbn in E. rewrite E, IH; [done|].
    intros pos1 text gs1 pos2 Hfw. apply Hf. eapply forward_trans; [|exact Hfw]. by exists t.
  - rewrite IH; [done|]. intros pos1 text gs1 pos2 Hfw. apply Hf. eapply forward_trans; [|exact Hfw]. by exists [c].
Qed.

(** The least number of characters a pattern takes. *)
Fixpoint least_length (r : pattern) : nat :=
  match r with
  | Many _ least _ => least
  | Then a b => least_length a + least_length b
  | Or a b => least_length a `min` least_length b
  | Group _ a => least_length a
  | _ => 0
  end.

Lemma match_at_length {A} r (k : position → groups → option A) pos gs x :
  match_at r k pos gs = Some x →
  ∃ pos' gs', k pos' gs' = Some x ∧ (length pos'.2 + least_length r ≤ length pos.2)%nat.
Proof.
  revert A k pos gs x. induction r as [p least most|a IHa b IHb|a IHa b IHb|g a IHa|p|p|p];
    intros A k pos gs x; cbn [match_at least_length].
  - intros (t & s' & b & E & _ & Hl & Hk)%repeat_from_Some. exists (b, s'), gs. split; [done|].
    rewrite E, length_app. cbn. lia.
  - intros (p1 & g1 & (p2 & g2 & Hk & Hl2)%IHb & Hl1)%IHa. exists p2, g2. split; [done|lia].
  - destruct (match_at a k pos gs) as [y|] eqn:E.
    + intros [= <-]. apply IHa in E as (p1 & g1 & ? & ?). exists p1, g1. split; [done|lia].
    + intros (p1 & g1 & ? & ?)%IHb. exists p1, g1. split; [done|lia].
  - intros (p1 & g1 & ? & ?)%IHa. eauto.
  - destruct (holds p pos.1); [done|]. intros Hk. exists pos, gs. split; [done|lia].
  - destruct (holds p (head pos.2)); [done|]. intros Hk. exists pos, gs. split; [done|lia].
  - case_bool_decide; [done|]. intros Hk. exists pos, gs. split; [done|lia].
Qed.

Lemma forward_length pos pos' : forward pos pos' → (length pos'.2 ≤ length pos.2)%nat.
Proof. intros [t ->]. rewrite length_app. lia. Qed.

Lemma short_text_keeps_jwt s : (length s < 26)%nat → sub JWT (λ _ _, REDACTED) s = s.
Proof.
  intros Hl. apply sub_from_keeps. intros pos1 text gs pos2 Hf%forward_length E.
  apply match_at_length in E as (p & g & _ & Hp). change (least_length JWT) with 26%nat in Hp. cbn in Hf. lia.
Qed.

Lemma word_keeps_auth f s : Forall (λ c, is_whitespace c = false) s → sub AUTH_SCHEME f s = s.
Proof.
  intros Hs. apply sub_from_keeps. intros pos1 text gs pos2 Hf E. exfalso.
  apply (forward_Forall _ _ _ Hf) in Hs. revert E. unfold match_here, AUTH_SCHEME.
  change (match_at (Then ?a ?b) ?k ?p ?g) with (match_at a (match_at b k) p g).
  intros (p1 & g1 & Hf1 & Hg1 & E)%(match_at_Some (λ c, is_whitespace c = false)); [|done|done].
  change (match_at (Then ?a ?b) ?k ?p ?g) with (match_at a (match_at b k) p g) in E.
  apply (match_at_Some (λ c, is_whitespace c = false)) in E as (p2 & g2 & Hf2 & _ & E); [|by eapply forward_Forall|done].
  cbn [match_at] in E. apply repeat_from_Some in E as (t & s' & b & E & Ht & Hl & _).
  destruct Ht as [|c t Hc _]; [cbn in Hl; lia|].
  pose proof (forward_Forall _ _ _ Hf2 (forward_Forall _ _ _ Hf1 Hs)) as Hw. rewrite E in Hw.
  inversion_clear Hw. congruence.
Qed.

Lemma short_text_keeps_tokens s : (length s < 24)%nat → sub TOKEN_CANDIDATE redact_candidates s = s.
Proof.
  intros Hl. apply sub_from_keeps. intros pos1 text gs pos2 Hf%forward_length E%match_here_text.
  unfold redact_candidates, looks_like_secret, len. cbn in Hf. rewrite E, length_app in Hf.
  by rewrite (proj2 (Z.ltb_lt _ _)) by lia.
Qed.

Lemma shadowing_keeps pre sep w :
  pre ≠ [] → (length pre ≤ 256)%nat → Forall (λ c, name_char c = true) pre → sensitive_name self pre = false →
  sep ∈ [58; 61] → w ≠ [] → Forall value_part w →
  sub NAMED_ASSIGNMENT (redact_assignment self) (pre ++ sep :: w) = pre ++ sep :: w.
Proof.
  intros Hne Hlen Hname Hsens Hsep Hnw Hw. unfold sub. destruct (assignment_matches pre sep w) as [b Hb]; [done..|].
  assert (∃ n, length (pre ++ sep :: w) = S n) as [n ->].
  { exists (length pre + length w)%nat. rewrite length_app. cbn. lia. }
  assert (∃ c s, pre ++ sep :: w = c :: s) as (c & s & E) by (destruct pre; by eexists _, _).
  cbn [sub_from snd]. rewrite E at 1. rewrite Hb.
  replace (sub_from _ _ n (b, [])) with (@nil Z) by by destruct n. rewrite app_nil_r.
  unfold redact_assignment. set (gs := [_; _; _]). assert (group_of GName gs = pre) as -> by reflexivity.
  by rewrite Hsens.
Qed.

Lemma name_char_plain c : name_char c = true → graphic c ∧ value_part c ∧ c ≠ 37.
Proof.
  intros Hc. destruct (name_char_graphic c Hc) as [Hg Hp]. split_and!; [done| |done].
  assert (c ≠ 34 ∧ c ≠ 39) as [? ?] by by split; intros ->. split_and!; [|done..].
  apply name_char_assigned in Hc. unfold assigned_char in Hc. unfold value_char.
  apply negb_true_iff, orb_false_iff in Hc as [Hw Ho]. rewrite Hw. revert Ho. unfold one_of, has_char.
  change (u ",;&:=") with [44; 59; 38; 58; 61]. change (u ",;&") with [44; 59; 38]. cbn [existsb].
  by destruct (Z.eqb 44 c), (Z.eqb 59 c), (Z.eqb 38 c), (Z.eqb c 44), (Z.eqb c 59), (Z.eqb c 38).
Qed.

Lemma shadowed_text pre sep w :
  pre ≠ [] → Forall (λ c, name_char c = true) pre → sensitive_name self pre = false →
  sep ∈ [58; 61] → plain_value w → (length (pre ++ sep :: w) < 24)%nat → 24 ≤ max_string_length self →
  redact_text self (pre ++ sep :: w) = pre ++ sep :: w.
Proof.
  intros Hne Hname Hsens Hsep [Hnw Hw] Hl Hmax.
  assert (is_whitespace sep = false ∧ graphic sep ∧ sep ≠ 37) as (Hs1 & Hs2 & Hs3).
  { unfold graphic. apply elem_of_cons in Hsep as [->|Hs%list_elem_of_singleton]; [|subst sep]; (split; [done|lia]). }
  assert (Forall (λ c, is_whitespace c = false ∧ graphic c ∧ c ≠ 37) (pre ++ sep :: w)) as Hall.
  { apply Forall_app_2; [|constructor; [done|]].
    - eapply Forall_impl; [exact Hname|]. intros c Hc. split; [|by apply name_char_graphic].
      apply name_char_assigned in Hc. unfold assigned_char in Hc. by destruct (is_whitespace c).
    - eapply Forall_impl; [exact Hw|]. intros c (Hg & (Hc & _) & Hp). split_and!; [|done|done].
      unfold value_char in Hc. by destruct (is_whitespace c). }
  rewrite redact_plain_text.
  2: eapply Forall_impl; [exact Hall|naive_solver].
  2: apply has_char_Forall; eapply Forall_impl; [exact Hall|naive_solver].
  2: unfold len; lia.
  unfold scrub. rewrite short_text_keeps_jwt by lia.
  rewrite shadowing_keeps; [|done| |done|done|done|done|eapply Forall_impl; [exact Hw|naive_solver]].
  - rewrite word_keeps_auth by (eapply Forall_impl; [exact Hall|naive_solver]). by apply short_text_keeps_tokens.
  - rewrite length_app in Hl. lia.
Qed.

(** ** Headers and queries *)
Lemma header_loops_agree index hs hs' b out :
  Forall2 (option_Forall2 pairs_agree) hs hs' → headers_loop self index hs b out = headers_loop self index hs' b out.
Proof.
  intros H2. revert index out. induction H2 as [|x y hs hs' Hxy _ IH]; intros index out; [done|]. cbn [headers_loop].
  destruct Hxy as [[k v] [k' v'] [E Hv]|]; [|done]. cbn in E, Hv. subst k'. destruct (_ <=? _); [done|].
  destruct k; try apply IH. unfold hides in Hv. destruct (sensitive_name self s); [apply IH|]. rewrite Hv by done. apply IH.
Qed.

Lemma query_agree env env' index qs qs' b out :
  (∀ n x, redact self (later env n) x = redact self (later env' n) x) → Forall2 (option_Forall2 pairs_agree) qs qs' →
  query_loop self env index qs b out = query_loop self env' index qs' b out.
Proof.
  intros He H2. revert index out. induction H2 as [|x y qs qs' Hxy _ IH]; intros index out; [done|]. cbn [query_loop].
  destruct Hxy as [[k v] [k' v'] [E Hv]|]; [|done]. cbn in E, Hv. subst k'. destruct (_ <=? _); [done|].
  unfold query_value. destruct k; cbn [mbind option_bind]; try apply IH. unfold hides in Hv.
  destruct (max_string_length self <? len s); [apply IH|]. destruct (sensitive_name self s); cbn [mbind option_bind]; [apply IH|].
  rewrite Hv, He by done. destruct (match v' with IText _ => _ | _ => _ end); cbn [mbind option_bind]; [apply IH|done].
Qed.

(** A list of entries with presentable keys. *)
Definition entries_presentable {A} (P : A → Prop) (n : Z) (es : list (pystr * A)) : Prop :=
  NoDup es.*1 ∧ Z.of_nat (length es) ≤ n ∧ Forall (λ e, printable e.1 ∧ P e.2) es.

Lemma assoc_set_new {A} k (x : A) es : k ∉ es.*1 → (assoc_set k x es).*1 = es.*1 ++ [k].
Proof.
  induction es as [|[k' x'] es IH]; [done|]. cbn. intros [Hne Hin]%not_elem_of_cons.
  rewrite decide_False by done. cbn. by rewrite IH.
Qed.

Lemma assoc_set_presentable {A} (P : A → Prop) n k x es :
  entries_presentable P n es → printable k → P x → entries_presentable P (n + 1) (assoc_set k x es).
Proof.
  intros (Hnd & Hl & Hes) Hk Hx. split_and!; [| |by apply assoc_set_Forall].
  - destruct (decide (k ∈ es.*1)) as [Hin|Hin]; [by rewrite assoc_set_keys|]. rewrite assoc_set_new by done.
    apply NoDup_app. split_and!; [done|by intros y Hy ->%list_elem_of_singleton|apply NoDup_singleton].
  - assert (length (assoc_set k x es) ≤ S (length es))%nat; [|lia]. clear. induction es as [|[k' x'] es IH]; cbn; [lia|].
    destruct (decide _); cbn; lia.
Qed.

Lemma headers_loop_presentable index hs b out out' :
  entries_presentable printable index out → 0 ≤ index ≤ max_items self →
  headers_loop self index hs b out = Some out' → entries_presentable printable (max_items self + 1) out'.
Proof.
  revert index out. induction hs as [|[[k v]|] hs IH]; intros index out Hout Hi; cbn [headers_loop].
  - destruct b; [|done]. intros [= <-]. destruct Hout as (? & ? & ?). split_and!; [done|lia|done].
  - destruct (Z.leb_spec (max_items self) index).
    + intros [= <-]. replace index with (max_items self) in Hout by lia.
      by apply assoc_set_presentable; [|apply marker_printable..].
    + apply IH; [|lia]. destruct k; try by apply assoc_set_presentable; [|apply marker_printable..].
      destruct (_ <? _); [by apply assoc_set_presentable; [|apply marker_printable..]|].
      apply assoc_set_presentable; [done|apply redact_text_printable|].
      destruct (sensitive_name self s); [by apply marker_printable|]. destruct v; try by apply marker_printable.
      destruct (_ <? _); [by apply marker_printable|apply redact_text_printable].
  - done.
Qed.

Lemma query_loop_presentable env levels index qs b out out' :
  (∀ n x o, redact self (later env n) x = Some o → presentable levels o) →
  entries_presentable (presentable levels) index out → 0 ≤ index ≤ max_items self →
  query_loop self env index qs b out = Some out' →
  entries_presentable (presentable levels) (max_items self + 1) out'.
Proof.
  intros Hr. assert (∀ s, is_graphic s = true → presentable levels (OLeaf (LText s))) as Hm
    by by intros; apply presentable_leaf, marker_printable.
  revert index out. induction qs as [|[[k v]|] qs IH]; intros index out Hout Hi; cbn [query_loop].
  - destruct b; [|done]. intros [= <-]. destruct Hout as (? & ? & ?). split_and!; [done|lia|done].
  - destruct (Z.leb_spec (max_items self) index).
    + intros [= <-]. replace index with (max_items self) in Hout by lia.
      apply assoc_set_presentable; [done|by apply marker_printable|by apply Hm].
    + intros (o & Ho & H2)%bind_Some. revert H2. apply IH; [|lia].
      assert (entries_presentable (presentable levels) (index + 1) (assoc_set REDACTED (OLeaf (LText REDACTED)) out)) as Hred
        by by apply assoc_set_presentable; [|apply marker_printable|apply Hm].
      destruct k; try by injection Ho as <-. destruct (_ <? _); [by injection Ho as <-|].
      apply bind_Some in Ho as (x & Hx & [= <-]). apply assoc_set_presentable; [done|apply redact_text_printable|].
      destruct (sensitive_name self s); [injection Hx as <-; by apply Hm|]. unfold query_value in Hx.
      destruct v; try by apply Hr in Hx. destruct (bounded_percent_decode _ _) as [d un]. injection Hx as <-.
      apply presentable_leaf. destruct un; [by apply marker_printable|apply redact_text_printable].
  - done.
Qed.

(** ** URLs and shell commands *)
Section urls.
Context `{UnicodeData} `{UrlData}.

Lemma url_char_graphic c : url_char c = true → graphic c.
Proof.
  assert (∀ safe, is_graphic (u safe) = true → one_of safe c = true → graphic c) as Hl.
  { intros safe Hs Hc. apply (literal_subset safe (λ c, (32 <=? c) && (c <? 127)) Hs) in Hc.
    apply andb_true_iff in Hc as [?%Z.leb_le ?%Z.ltb_lt]. unfold graphic. lia. }
  unfold url_char, always_safe. intros [[Ha|Ho]%orb_true_iff|Ho]%orb_true_iff; [|by eapply Hl; [|exact Ho]..].
  revert Ha. unfold is_alnum, is_alpha, is_upper, is_lower, is_digit, graphic.
  rewrite !orb_true_iff, !andb_true_iff, !Z.leb_le. lia.
Qed.

Lemma redact_url_printable url : printable (redact_url self url).
Proof.
  unfold redact_url. destruct (_ || _); [by apply marker_printable|].
  destruct (candidate_url self url ≫= _) as [r|e] eqn:E; [|by apply marker_printable].
  apply bind_Ok_iff in E as (candidate & _ & (? & ? & ? & ? & ? & _ & Hu & _)%canonicalize_url_form).
  eapply Forall_impl; [exact Hu|]. intros c Hc. by apply graphic_printable, url_char_graphic.
Qed.

(** A token as it may be written: printable, or the name of an assignment. *)
Definition token_shown (token : pystr) : Prop :=
  printable token ∨ ∃ name, sensitive_name self name = true ∧ token = name ++ [61] ++ REDACTED.

Lemma redact_shell_token_shown token : token_shown (redact_shell_token self token).1.
Proof.
  unfold redact_shell_token.
  destruct (str_in token _) eqn:E.
  { left. unfold str_in in E. apply bool_decide_eq_true in E.
    apply elem_of_cons in E as [->| ->%list_elem_of_singleton]; by apply marker_printable. }
  destruct (startswith _ _); [left; by apply marker_printable|].
  destruct (_ && _); [left; by apply marker_printable|].
  destruct (_ || _); [left; apply redact_url_printable|].
  destruct (partition 61 token) as [[name rest]|]; [|left; apply redact_text_printable].
  destruct (sensitive_name self name) eqn:Es; [right; eauto|left; apply redact_text_printable].
Qed.

Lemma redact_shell_shows command : Forall token_shown (redact_shell self command).
Proof.
  assert (∀ s, is_graphic s = true → Forall token_shown [s]) as Hm.
  { intros s Hs. apply Forall_singleton. left. by apply marker_printable. }
  unfold redact_shell. destruct (_ <? _); [by apply Hm|].
  destruct (shlex_split command) as [tokens|]; cbn [mbind option_bind default]; [|by apply Hm].
  destruct (_ <? _); [by apply Hm|]. destruct (shell_loop self false tokens) as [out|] eqn:E; cbn [default]; [|by apply Hm].
  revert out E. generalize false. induction tokens as [|t tokens IH]; intros hidden out; cbn [shell_loop].
  - intros [= <-]. destruct hidden; [by apply Hm|apply Forall_nil_2].
  - destruct (_ <? _); [done|]. pose proof (redact_shell_token_shown t) as Ht.
    destruct hidden; [|destruct (redact_shell_token self t) as [text next]]; intros (rest & Hrest & ->)%fmap_Some;
      (apply Forall_cons_2; [|by eapply IH]); [by left; apply marker_printable|done].
Qed.
End urls.

(** ** The policy *)
Lemma policy_int_bounds v low high z : policy_int v low high = Ok z → low ≤ z ≤ high.
Proof.
  unfold policy_int. destruct v; try done. destruct (_ || _) eqn:E; [done|]. intros [= <-].
  apply orb_false_iff in E as [?%Z.ltb_ge ?%Z.ltb_ge]. lia.
Qed.

Lemma policy_names_mandatory add ns : policy_names add = Ok ns → MANDATORY_NAMES ⊆ ns.
Proof.
  revert ns. induction add as [|x add IH]; intros ns; cbn; [by intros [= <-]|]. destruct x; try done.
  intros (n & _ & (ns' & Hns & [= <-])%bind_Ok_iff)%bind_Ok_iff. intros y Hy. apply elem_of_cons. right. by apply (IH ns').
Qed.
End facts.

Section theorems.
Context `{TextData} `{FloatLog2} `{UnicodeData} `{UrlData}.

Lemma make_redactor_Ok add depth items nodes total string pairs self :
  make_redactor add depth items nodes total string pairs = Ok self →
  1 ≤ max_depth self ∧ 1 ≤ max_items self ∧ 16 ≤ max_string_length self ∧ MANDATORY_NAMES ⊆ names self.
Proof.
  unfold make_redactor.
  intros (d & Hd%policy_int_bounds & (i & Hi%policy_int_bounds & (n & _ & (t & _ & (s & Hs%policy_int_bounds & (q & _ &
    (ns & Hns%policy_names_mandatory & [= <-])%bind_Ok_iff)%bind_Ok_iff)%bind_Ok_iff)%bind_Ok_iff)%bind_Ok_iff)%bind_Ok_iff)%bind_Ok_iff.
  cbn. split_and!; [lia..|done].
Qed.

(** C22: The copy of nested diagnostics ends and is the recursive one.  For every redactor that
    can be made, whatever objects answer when they are iterated (raising, endless,
    cyclic or different at each time), the loop over an explicit stack, which fills
    containers it has already linked to each other, ends within one and [max_items]
    times [max_nodes] iterations with the value that [copy] computes by recursion. *)
Theorem redaction_is_a_bounded_copy add depth items nodes total string pairs self env value :
  make_redactor add depth items nodes total string pairs = Ok self →
  (∃ st, redact_loop self env (S (Z.to_nat (max_nodes self) * Z.to_nat (max_items self)))
           [Frame value 0 [] holder (SIndex 0)] (Copying start [CSequence [Leaf (LText REDACTED)]]) = Some st) ∧
  redact self env value = Some (copy self env (Z.to_nat (max_depth self)) [] value start).1.
Proof.
  intros (Hd & _)%make_redactor_Ok. split; [|by apply redact_copy; lia].
  destruct (loop_ends self env (loop_fuel self) [Frame value 0 [] holder (SIndex 0)] (Copying start [CSequence [Leaf (LText REDACTED)]]))
    as [st Hst]; [apply map_Forall_empty|cbn; unfold loop_fuel; lia|by exists st].
Qed.

(** C21: Values under sensitive names never show.  If the objects, the headers or the queries of
    two calls differ only in the values of pairs whose key is sensitive or no text,
    the redactor returns the same; and every name that [normalize_name] maps to a
    mandatory name (which ignores case, underscores, escapes and invisible characters)
    is sensitive for every redactor. *)
Theorem sensitive_values_never_show add depth items nodes total string pairs self env env' :
  make_redactor add depth items nodes total string pairs = Ok self → environments_agree self env env' →
  (∀ value, redact self env value = redact self env' value) ∧
  (∀ hs hs' b, Forall2 (option_Forall2 (pairs_agree self)) hs hs' →
     redact_headers self (Iteration hs b) = redact_headers self (Iteration hs' b) ∧
     redact_query self env (Iteration hs b) = redact_query self env' (Iteration hs' b)) ∧
  (∀ name n, normalize_name name = Ok n → n ∈ MANDATORY_NAMES → hides self (IText name) = true).
Proof.
  intros (Hd & _ & _ & Hn)%make_redactor_Ok He.
  assert (∀ e e' value, environments_agree self e e' → redact self e value = redact self e' value) as Hr.
  { intros e e' value Ha. rewrite !redact_copy by lia. f_equal. apply copy_agrees; [done|].
    split_and!; [done|done|]. intros id. cbn. rewrite lookup_empty. constructor. }
  split_and!; [intros value; by apply Hr|..].
  - intros hs hs' b Hhs. unfold redact_headers, redact_query. cbn [produced ends]. split; f_equal;
      [by apply header_loops_agree|apply query_agree; [|done]].
    intros n value. apply Hr. intros now id. apply He.
  - intros name n Hname Hin. unfold hides, sensitive_name. destruct (_ <? _); [done|]. destruct (bounded_percent_decode _ _).2; [done|].
    rewrite Hname. unfold str_in. by apply bool_decide_eq_true_2, Hn.
Qed.


(** C30: The value of an assignment to a sensitive name is hidden.  A text that consists of a
    sensitive name of at most 256 letters, digits, [_] and [-], then [=] or [:] and a
    value of printable ASCII characters without delimiters, quotes and escapes is
    rendered in the same way for all such values for which the text is not longer than
    [max_string_length]. *)
Theorem assigned_secrets_are_hidden self name sep v v' :
  name ≠ [] → (length name ≤ 256)%nat → Forall (λ c, name_char c = true) name →
  sensitive_name self name = true → sep ∈ [58; 61] → plain_value v → plain_value v' →
  len (name ++ sep :: v) ≤ max_string_length self → len (name ++ sep :: v') ≤ max_string_length self →
  redact_text self (name ++ sep :: v) = redact_text self (name ++ sep :: v').
Proof.
  intros Hne Hlen Hname Hsens Hsep Hv Hv' Hl Hl'.
  assert (∀ v, plain_value v → v ≠ [] ∧ Forall value_part v) as Hp.
  { intros w [Hw1 Hw2]. split; [done|]. eapply Forall_impl; [exact Hw2|]. naive_solver. }
  rewrite !redact_assignment_text by done.
  rewrite (scrub_assignment self name sep v), (scrub_assignment self name sep v') by (done || by apply Hp). done.
Qed.

End theorems.
