(* ===== verification/RedactionExamples.v ===== *)
(** * Redacting, step by step

    A record with a password, which also contains itself, is redacted; so is an
    assignment in a text.  The last examples are an assignment that stays readable and
    the name of one that is written with a control character. *)

From stdpp Require Import base list list_numbers numbers strings gmap.
From S2P Require Import Prelude PyString Errors PyValue Decimal Unicode JsonScan JsonRoundTrip CanonicalPath PyUrl.
From S2P Require Import CanonicalUrl UrlShape Shell PyFloat Redaction RedactionFacts.
Open Scope Z_scope.

#[local] Existing Instance plain_text.
Definition no_log2 : FloatLog2 := {| c_log2 x := x |}.
#[local] Existing Instance no_log2.
#[local] Existing Instance plain_unicode.
#[local] Existing Instance plain_url.

(** [Redactor()]. *)
Definition default_redactor : redactor := Redactor MANDATORY_NAMES 8 128 4096 128 4096 262144.

Lemma default_made :
  make_redactor [] (PInt 8) (PInt 128) (PInt 4096) (PInt 262144) (PInt 4096) (PInt 128) = Ok default_redactor.
Proof. reflexivity. Qed.

(** ** A record that contains itself *)
Definition record_pairs (password : item) : list (option (item * item)) :=
  [Some (IText (u "user"), IText (u "ann")); Some (IText (u "Pass%77ord"), password);
   Some (IText (u "self"), IMapping 1)].
Definition record_objects (password : item) : environment :=
  Environment (λ _ _, Iteration (record_pairs password) true) (λ _ _, Iteration [] false).

Definition redacted_record : output :=
  OMapping [(u "user", OLeaf (LText (u "ann"))); (u "Pass%77ord", OLeaf (LText REDACTED));
            (u "self", OLeaf (LText CYCLE))].

Lemma records_agree p q : Forall2 (option_Forall2 (pairs_agree default_redactor)) (record_pairs p) (record_pairs q).
Proof.
  assert (∀ x, pairs_agree default_redactor x x) as Hx by by split.
  repeat constructor; try apply Hx; cbn [fst snd]. vm_compute. discriminate.
Qed.

Lemma record_objects_agree p q : environments_agree default_redactor (record_objects p) (record_objects q).
Proof. intros now id. split; [apply records_agree|done]. Qed.

Lemma redaction_is_a_bounded_copy_witness :
  redact default_redactor (record_objects (IText (u "hunter2"))) (IMapping 1) = Some redacted_record ∧
  (copy default_redactor (record_objects (IText (u "hunter2"))) 8 [] (IMapping 1) start).1 = redacted_record.
Proof.
  assert (redact default_redactor (record_objects (IText (u "hunter2"))) (IMapping 1) = Some redacted_record) as E
    by (vm_compute; reflexivity).
  destruct (redaction_is_a_bounded_copy _ _ _ _ _ _ _ default_redactor (record_objects (IText (u "hunter2"))) (IMapping 1)
    default_made) as [_ E']. change (Z.to_nat (max_depth default_redactor)) with 8%nat in E'. rewrite E in E'.
  split; [exact E|exact (eq_sym (Some_inj _ _ E'))].
Defined.

Lemma sensitive_values_never_show_witness :
  redact default_redactor (record_objects (IText (u "hunter2"))) (IMapping 1)
    = redact default_redactor (record_objects (IMapping 1)) (IMapping 1) ∧
  redact_headers default_redactor (Iteration (record_pairs (IText (u "hunter2"))) true)
    = redact_headers default_redactor (Iteration (record_pairs IBytes) true).
Proof.
  destruct (sensitive_values_never_show _ _ _ _ _ _ _ default_redactor _ _ default_made
    (record_objects_agree (IText (u "hunter2")) (IMapping 1))) as (Hr & Hh & _).
  split; [apply Hr|]. exact (proj1 (Hh _ _ true (records_agree (IText (u "hunter2")) IBytes))).
Defined.


(** ** Assignments *)
Lemma plain_values : plain_value (u "hunter2") ∧ plain_value (u "Bearer").
Proof. split; (split; [done|]); repeat constructor; done. Qed.

Lemma assigned_secrets_are_hidden_witness :
  redact_text default_redactor (u "password=hunter2") = redact_text default_redactor (u "password=Bearer").
Proof.
  destruct plain_values as [H1 H2].
  apply (assigned_secrets_are_hidden default_redactor (u "password") 61 (u "hunter2") (u "Bearer"));
    [done|by apply Nat.leb_le|by repeat constructor|by vm_compute|by apply elem_of_cons; right; apply list_elem_of_singleton|done|done|..];
    by vm_compute.
Defined.


(** The name of an assignment in a command is written with its control characters. *)
Lemma shell_names_are_written_raw :
  redact_shell default_redactor (u "pass" ++ [127] ++ u "word=hunter2") = [u "pass" ++ [127] ++ u "word=[REDACTED]"].
Proof. vm_compute. reflexivity. Qed.
