(* ===== verification/Resources.v ===== *)
(** * Hashed documents and prepared resources

    The canonicalizer hashes dicts whose keys are literals of the source; their
    canonical bytes determine the value under every key.  Then the [prepare_*]
    functions of [_canonicalize.py]: the resource determines what is executed. *)

From stdpp Require Import base list list_numbers numbers strings sets.
From S2P Require Import Prelude PyString Sha256 Errors PyValue Decimal Unicode Interfaces CanonicalJson JsonRoundTrip CanonicalFacts CanonicalPath PyUrl CanonicalUrl.
From S2P Require Import UrlShape Shell.
Open Scope Z_scope.

Section documents.
Context `{UnicodeData}.

(** A dict with normalized, distinct keys and a value under each. *)
Definition document (d : list (pystr * pyval)) : Prop :=
  Forall (λ p, nfc_form p.1 = p.1 ∧ is_absent p.2 = false) d ∧ NoDup d.*1.

Lemma canon_document d : document d →
  canon (PDict d) = PDict (sort_fields ((λ p, (p.1, canon p.2)) <$> d)).
Proof.
  intros [Hd _]. cbn [canon]. do 2 f_equal. unfold present.
  induction Hd as [|[k v] d [Hk Hv] _ IH]; [done|]. cbn [fmap list_fmap fst snd] in *.
  rewrite filter_cons, decide_True by (cbn; by rewrite canon_is_absent). by rewrite Hk, IH.
Qed.

Lemma assoc_canon d e k : document d → canon (PDict d) = PDict e → assoc k e = canon <$> assoc k d.
Proof.
  intros Hd. rewrite canon_document by done. intros [= <-]. destruct Hd as [_ Hnd].
  set (f := λ p : pystr * pyval, (p.1, canon p.2)).
  assert (NoDup (sort_fields (f <$> d)).*1) as Hnd'.
  { rewrite sort_fields_perm, <-list_fmap_compose. done. }
  destruct (assoc k d) as [x|] eqn:E; cbn.
  - apply elem_assoc; [done|]. rewrite sort_fields_perm. apply assoc_elem in E.
    by apply (list_elem_of_fmap_2 f d (k, x)).
  - destruct (assoc k (sort_fields (f <$> d))) as [y|] eqn:E'; [|done].
    apply assoc_elem in E'. rewrite sort_fields_perm in E'.
    apply list_elem_of_fmap in E' as ([k' x] & [= -> ->] & Hin). apply elem_assoc in Hin; [|done].
    congruence.
Qed.

Lemma canon_field_eq d e k :
  document d → document e → canon (PDict d) = canon (PDict e) →
  canon <$> assoc k d = canon <$> assoc k e.
Proof.
  intros Hd He E. rewrite (canon_document d) in E by done.
  rewrite <-(assoc_canon e _ k He (eq_sym E)). symmetry. apply assoc_canon; [done|]. by apply canon_document.
Qed.

Lemma canonical_json_tree_canon v w b :
  canonical_json_tree v = Ok b → canonical_json_tree w = Ok b → canon v = canon w.
Proof. intros Hv%canonical_json_tree_round_trip Hw%canonical_json_tree_round_trip. congruence. Qed.

(** The text of canonical bytes. *)
Lemma canonical_json_tree_text v b :
  canonical_json_tree v = Ok b → ∃ t, utf8_encode t = Some b ∧ utf8_decode b = Some t.
Proof.
  intros (w & t & _ & _ & _ & _ & Ht & _)%canonical_json_tree_inv. eauto using utf8_decode_encode.
Qed.

(** Two normalized strings with the same canonical form are equal. *)
Lemma canon_str_inj s t :
  nfc_form s = s → nfc_form t = t → canon (PStr s) = canon (PStr t) → s = t.
Proof. cbn. intros -> ->. congruence. Qed.

Lemma nfc_literal k :
  forallb (λ c, (0 <=? c) && (c <? 128)) (u k) = true → nfc_form (u k) = u k.
Proof.
  intros Hk. apply nfc_form_ascii. apply forallb_Forall in Hk. eapply Forall_impl; [exact Hk|].
  cbn. intros c [? ?]%andb_true_iff. refl_bool. lia.
Qed.

Lemma nfc_normal code s t : nfc code s = Ok t → nfc_form t = t.
Proof. intros (-> & _)%nfc_Ok. apply nfc_form_idem. Qed.
End documents.

(** Literal dicts are documents. *)
Ltac solve_document :=
  split; [repeat (apply Forall_cons_2; [split; [by apply nfc_literal|reflexivity]|]); apply Forall_nil_2
         |refine (proj1 (bool_decide_eq_true _) _); vm_compute; reflexivity].

Section document_example.
Context `{UnicodeData}.
Example two_fields_document x y : document [(u "kind", PStr x); (u "service", PStr y)].
Proof. solve_document. Qed.
End document_example.

(** ** Prepared resources

    Models [canonicalize_mcp], [PreparedResource] and the [prepare_*] functions
    of [_canonicalize.py]: a canonical resource text paired with the exact value
    an adapter executes. *)

(** [PreparedResource]. *)
Record PreparedResource := { resource : pystr; execution : pyval }.

Definition is_mcp_char (c : Z) : bool := is_alnum c || one_of "._-" c.
Definition MCP_NAME (s : pystr) : bool :=
  match s with
  | c :: rest => is_alnum c && forallb is_mcp_char rest && (length rest <=? 127)%nat
  | [] => false
  end.

(** [payload.decode("utf-8")]. *)
Definition decode_utf8 (b : pybytes) : py pystr :=
  match utf8_decode b with Some s => Ok s | None => Raise ValueError end.

Lemma split_at_inj c (a a' r r' : pystr) : c ∉ a → c ∉ a' → a ++ c :: r = a' ++ c :: r' → a = a' ∧ r = r'.
Proof.
  intros Ha Ha' E. assert (∀ x, c ∉ x → Forall (λ y, negb (y =? c) = true) x) as Hf.
  { intros x Hx. apply Forall_forall. intros y Hy. apply negb_true_iff, Z.eqb_neq. by intros ->. }
  pose proof (span_app_stop (λ y, negb (y =? c)) a c r (Hf a Ha)) as H1.
  pose proof (span_app_stop (λ y, negb (y =? c)) a' c r' (Hf a' Ha')) as H2.
  cbn in H1, H2. rewrite Z.eqb_refl in H1, H2. rewrite E, H2 in H1 by done. naive_solver.
Qed.

Lemma mcp_name_chars c s : MCP_NAME s = true → is_mcp_char c = false → c ∉ s.
Proof.
  unfold MCP_NAME. destruct s as [|x s]; [done|]. rewrite !andb_true_iff. intros [[Hx Hs] _] Hc Hin.
  rewrite forallb_forall in Hs. apply elem_of_cons in Hin as [->|Hin%list_elem_of_In].
  - unfold is_mcp_char in Hc. by rewrite Hx in Hc.
  - apply Hs in Hin. congruence.
Qed.

Section resources.
Context `{UnicodeData} `{UrlData}.

Definition canonicalize_mcp (server tool : pystr) (tool_input : pyval) : py pystr :=
  normalized_server ← nfc "invalid_mcp_name" server;
  normalized_tool ← nfc "invalid_mcp_name" tool;
  raise_if (negb (MCP_NAME normalized_server) || negb (MCP_NAME normalized_tool))
    (CanonicalizationError "invalid_mcp_name");;
  h ← canonical_hash tool_input;
  Ok (u "mcp:" ++ normalized_server ++ u "/" ++ normalized_tool ++ u "#" ++ h).

Definition prepare_path_resource (path cwd : pystr) : py PreparedResource :=
  execution ← canonicalize_path path cwd;
  Ok {| resource := u "path:" ++ execution; execution := PStr execution |}.

(** The value whose hash binds the URL that is executed. *)
Definition url_execution (execution : pystr) : pyval :=
  PDict [(u "preimageType", PStr (u "palonexus.url-execution")); (u "preimageVersion", PStr (u "1"));
         (u "url", PStr execution)].

Definition prepare_url_resource (value : pystr) (sensitive_query_keys : list pystr)
    : py PreparedResource :=
  execution ← canonicalize_url value sensitive_query_keys false;
  diagnostic_url ← canonicalize_url value sensitive_query_keys true;
  h ← canonical_hash (url_execution execution);
  bytes ← canonical_json_tree (PDict [(u "executionHash", PStr h); (u "url", PStr diagnostic_url)]);
  resource ← decode_utf8 bytes;
  Ok {| resource := resource; execution := PStr execution |}.

Definition prepare_shell_resource (command : pystr) (additional_sensitive_names : list pystr)
    : py PreparedResource :=
  execution ← nfc "invalid_shell_command" command;
  safe_resource ← canonicalize_shell execution additional_sensitive_names;
  bytes ← canonical_json_tree safe_resource;
  resource ← decode_utf8 bytes;
  Ok {| resource := resource; execution := PStr execution |}.

Definition prepare_mcp_resource (server tool : pystr) (tool_input : pyval) : py PreparedResource :=
  bytes ← canonical_json_tree tool_input;
  normalized_input ← parse_json bytes;
  normalized_server ← nfc "invalid_mcp_name" server;
  normalized_tool ← nfc "invalid_mcp_name" tool;
  resource ← canonicalize_mcp normalized_server normalized_tool normalized_input;
  Ok {| resource := resource;
        execution := PDict [(u "server", PStr normalized_server); (u "tool", PStr normalized_tool);
                            (u "input", normalized_input)] |}.

(** ** The resource determines what is executed *)

(** The four ways to prepare a resource. *)
Inductive request :=
| RPath (path cwd : pystr)
| RUrl (value : pystr) (keys : list pystr)
| RShell (command : pystr) (names : list pystr)
| RMcp (server tool : pystr) (tool_input : pyval).

Definition prepare (r : request) : py PreparedResource :=
  match r with
  | RPath path cwd => prepare_path_resource path cwd
  | RUrl value keys => prepare_url_resource value keys
  | RShell command names => prepare_shell_resource command names
  | RMcp server tool input => prepare_mcp_resource server tool input
  end.

(** The bytes whose SHA-256 digest the resource contains (none for a path). *)
Definition digested (r : request) : py pybytes :=
  match r with
  | RPath _ _ => Ok []
  | RUrl value keys => x ← canonicalize_url value keys false; canonical_json_tree (url_execution x)
  | RShell command _ =>
      x ← nfc "invalid_shell_command" command;
      match utf8_encode x with Some b => Ok b | None => Raise ValueError end
  | RMcp _ _ input => canonical_json_tree input
  end.

Lemma canonical_dict_head d b t :
  canonical_json_tree (PDict d) = Ok b → utf8_encode t = Some b → head t = Some 123.
Proof.
  intros (w & t' & Hw & _ & Ht & _ & Hb & _)%canonical_json_tree_inv Ht'.
  assert (t' = t) as -> by (by eapply utf8_encode_inj). inversion Hw; subst. cbn [encode_canonical] in Ht.
  inv_ok. done.
Qed.

Lemma decode_canonical v b s :
  canonical_json_tree v = Ok b → decode_utf8 b = Ok s → utf8_encode s = Some b.
Proof.
  intros (t & Ht & Hd)%canonical_json_tree_text. unfold decode_utf8. rewrite Hd. intros [= ->]. done.
Qed.

Lemma canonical_hash_Ok v h : canonical_hash v = Ok h → ∃ b, canonical_json_tree v = Ok b ∧ h = bytes_hash b.
Proof. unfold canonical_hash. intros Hh. inv_ok. eexists. split; [eassumption|done]. Qed.

Lemma url_text_ascii s : Forall (λ c, url_char c = true) s → nfc_form s = s.
Proof.
  intros Hs. apply nfc_form_ascii. eapply Forall_impl; [exact Hs|]. cbn. intros c Hc.
  unfold url_char, always_safe, is_alnum, is_alpha, is_lower, is_upper, is_digit in Hc.
  rewrite !orb_true_iff, !andb_true_iff, !Z.leb_le in Hc.
  assert (∀ lit, forallb (λ x, (0 <=? x) && (x <? 128)) (u lit) = true → one_of lit c = true → 0 ≤ c < 128) as Hlit.
  { intros lit Hl Hin. pose proof (literal_subset lit _ Hl c Hin) as E.
    apply andb_true_iff in E as [? ?]. refl_bool. lia. }
  destruct Hc as [[[[?|?]|?]|?]|?]; [lia..| |]; (eapply Hlit; [|eassumption]); reflexivity.
Qed.

(** ** What each preparation returns *)
Lemma prepare_path_inv path cwd p : prepare (RPath path cwd) = Ok p →
  ∃ x, resource p = u "path:" ++ x ∧ execution p = PStr x.
Proof. cbn [prepare]. unfold prepare_path_resource. intros Hp. inv_ok. eauto. Qed.

Lemma canonicalize_url_ascii value keys b r : canonicalize_url value keys b = Ok r → nfc_form r = r.
Proof. intros (? & ? & ? & ? & ? & _ & Hu & _)%canonicalize_url_form. by apply url_text_ascii. Qed.

Lemma prepare_url_inv value keys p : prepare (RUrl value keys) = Ok p →
  ∃ x diagnostic b c, execution p = PStr x ∧ nfc_form x = x ∧ digested (RUrl value keys) = Ok b ∧
    canonical_json_tree (url_execution x) = Ok b ∧ utf8_encode (resource p) = Some c ∧
    canonical_json_tree (PDict [(u "executionHash", PStr (bytes_hash b)); (u "url", PStr diagnostic)]) = Ok c.
Proof.
  cbn [prepare digested]. unfold prepare_url_resource. intros Hp. inv_ok.
  match goal with E : canonical_hash _ = Ok _ |- _ => apply canonical_hash_Ok in E as (b & Hb & ->) end.
  eexists _, _, b, _. split_and!; [reflexivity|by eapply canonicalize_url_ascii| |done| |eassumption].
  - rewrite Hx. done.
  - by eapply decode_canonical.
Qed.

Lemma prepare_shell_inv command names p : prepare (RShell command names) = Ok p →
  ∃ x b tokens c, execution p = PStr x ∧ digested (RShell command names) = Ok b ∧
    utf8_encode x = Some b ∧ utf8_encode (resource p) = Some c ∧
    canonical_json_tree (PDict [(u "commandHash", PStr (bytes_hash b)); (u "tokens", PList tokens)]) = Ok c.
Proof.
  cbn [prepare digested]. unfold prepare_shell_resource. intros Hp. inv_ok. rewrite Hx.
  unfold canonicalize_shell in Hx0. inv_ok.
  match goal with E : nfc _ x = Ok ?y |- _ => pose proof (nfc_idem _ "invalid_shell_command" _ _ Hx) end.
  same_call. cbn [mbind result_bind]. destruct (utf8_encode _) as [b|] eqn:Hb; [|done]. inv_ok.
  eexists _, b, _, _. split_and!; [reflexivity|reflexivity|done| |eassumption].
  by eapply decode_canonical.
Qed.

Lemma prepare_mcp_inv server tool i p : prepare (RMcp server tool i) = Ok p →
  ∃ s t b, digested (RMcp server tool i) = Ok b ∧ MCP_NAME s = true ∧ MCP_NAME t = true ∧
    resource p = u "mcp:" ++ s ++ u "/" ++ t ++ u "#" ++ bytes_hash b ∧
    execution p = PDict [(u "server", PStr s); (u "tool", PStr t); (u "input", canon i)] ∧
    canonical_json_tree i = Ok b.
Proof.
  cbn [prepare digested]. unfold prepare_mcp_resource. intros Hp. inv_ok. rename x into b.
  assert (x0 = canon i) as ->.
  { pose proof (canonical_json_tree_round_trip i b Hx). congruence. }
  unfold canonicalize_mcp in Hx3. inv_ok.
  match goal with E : canonical_hash _ = Ok _ |- _ => apply canonical_hash_Ok in E as (b' & Hb' & ->) end.
  rewrite (canonical_json_tree_stable i b Hx) in Hb'. injection Hb' as <-.
  repeat match goal with E : nfc _ ?s = Ok ?t, E' : nfc _ ?t = Ok ?t' |- _ =>
    assert (t' = t) as -> by (pose proof (nfc_idem _ "invalid_mcp_name" _ _ E); congruence); clear E' end.
  eexists _, _, b. split_and!; try reflexivity; done.
Qed.

(** The documents whose canonical bytes are resources. *)
Lemma same_document d e b c s :
  document d → document e → canonical_json_tree (PDict d) = Ok b → canonical_json_tree (PDict e) = Ok c →
  utf8_encode s = Some b → utf8_encode s = Some c → ∀ k, canon <$> assoc k d = canon <$> assoc k e.
Proof.
  intros Hd He Hb Hc Hs Hs' k. rewrite Hs in Hs'. injection Hs' as <-.
  apply canon_field_eq; [done|done|]. by eapply canonical_json_tree_canon.
Qed.

Lemma bytes_hash_normal b : nfc_form (bytes_hash b) = bytes_hash b.
Proof.
  apply nfc_form_ascii, Forall_app. split; [by repeat constructor; lia|].
  eapply Forall_impl; [apply sha256_hexdigest_spec|]. unfold is_hex_digit. intros c ?. lia.
Qed.

Lemma bytes_hash_eq b c : bytes_hash b = bytes_hash c → b = c ∨ (b ≠ c ∧ sha256_hexdigest b = sha256_hexdigest c).
Proof.
  unfold bytes_hash. intros E%app_inv_head. destruct (decide (b = c)); auto.
Qed.

(** A hash under a literal key of two documents with the same text. *)
Lemma same_hash_field d e b c s k x y :
  document d → document e → canonical_json_tree (PDict d) = Ok b → canonical_json_tree (PDict e) = Ok c →
  utf8_encode s = Some b → utf8_encode s = Some c →
  assoc (u k) d = Some (PStr (bytes_hash x)) → assoc (u k) e = Some (PStr (bytes_hash y)) →
  x = y ∨ (x ≠ y ∧ sha256_hexdigest x = sha256_hexdigest y).
Proof.
  intros Hd He Hb Hc Hs Hs' Hx Hy. pose proof (same_document _ _ _ _ _ Hd He Hb Hc Hs Hs' (u k)) as E.
  rewrite Hx, Hy in E. injection E as E. rewrite !bytes_hash_normal in E. by apply bytes_hash_eq.
Qed.

Lemma url_execution_inj x y b :
  nfc_form x = x → nfc_form y = y → canonical_json_tree (url_execution x) = Ok b →
  canonical_json_tree (url_execution y) = Ok b → x = y.
Proof.
  intros Hx Hy Hb Hc. pose proof (canonical_json_tree_canon _ _ _ Hb Hc) as E.
  apply (canon_field_eq _ _ (u "url")) in E; [|solve_document..].
  change (Some (PStr (nfc_form x)) = Some (PStr (nfc_form y))) in E. congruence.
Qed.


(** The first character of a resource tells a path, a tool and a JSON text apart. *)
Definition resource_tag (r : request) : Z :=
  match r with RPath _ _ => 112 | RMcp _ _ _ => 109 | _ => 123 end.

Lemma resource_head r p : prepare r = Ok p → head (resource p) = Some (resource_tag r).
Proof.
  destruct r as [pa ca|v k|c n|s t i].
  - by intros (x & -> & _)%prepare_path_inv.
  - intros (x & dg & b & r & _ & _ & _ & _ & Hr & Hj)%prepare_url_inv. by eapply canonical_dict_head.
  - intros (x & b & tk & r & _ & _ & _ & Hr & Hj)%prepare_shell_inv. by eapply canonical_dict_head.
  - by intros (s' & t' & b & _ & _ & _ & -> & _)%prepare_mcp_inv.
Qed.

(** The conclusion for two requests. *)
Definition bound (a b : request) (p q : PreparedResource) : Prop :=
  execution p = execution q ∨
  ∃ x y, digested a = Ok x ∧ digested b = Ok y ∧ x ≠ y ∧ sha256_hexdigest x = sha256_hexdigest y.

Lemma url_document h x : document [(u "executionHash", PStr h); (u "url", PStr x)].
Proof. solve_document. Qed.

Lemma shell_document h l : document [(u "commandHash", PStr h); (u "tokens", PList l)].
Proof. solve_document. Qed.

Lemma url_bound v k v' k' p q :
  prepare (RUrl v k) = Ok p → prepare (RUrl v' k') = Ok q → resource p = resource q →
  bound (RUrl v k) (RUrl v' k') p q.
Proof.
  intros (x & dg & b & r & Hx & Hn & Hd & Hb & Hr & Hj)%prepare_url_inv.
  intros (x' & dg' & b' & r' & Hx' & Hn' & Hd' & Hb' & Hr' & Hj')%prepare_url_inv E. rewrite <-E in Hr'.
  destruct (same_hash_field _ _ _ _ _ "executionHash" b b' (url_document _ _) (url_document _ _)
    Hj Hj' Hr Hr' eq_refl eq_refl) as [<-|[? ?]]; [left|right; by eexists _, _].
  rewrite Hx, Hx'. f_equal. by eapply url_execution_inj.
Qed.

Lemma shell_bound c n c' n' p q :
  prepare (RShell c n) = Ok p → prepare (RShell c' n') = Ok q → resource p = resource q →
  bound (RShell c n) (RShell c' n') p q.
Proof.
  intros (x & b & tk & r & Hx & Hd & Hb & Hr & Hj)%prepare_shell_inv.
  intros (x' & b' & tk' & r' & Hx' & Hd' & Hb' & Hr' & Hj')%prepare_shell_inv E. rewrite <-E in Hr'.
  destruct (same_hash_field _ _ _ _ _ "commandHash" b b' (shell_document _ _) (shell_document _ _)
    Hj Hj' Hr Hr' eq_refl eq_refl) as [<-|[? ?]]; [left|right; by eexists _, _].
  rewrite Hx, Hx'. f_equal. by eapply utf8_encode_inj.
Qed.

Lemma url_shell_distinct v k c n p q :
  prepare (RUrl v k) = Ok p → prepare (RShell c n) = Ok q → resource p = resource q → False.
Proof.
  intros (x & dg & b & r & _ & _ & _ & _ & Hr & Hj)%prepare_url_inv.
  intros (x' & b' & tk & r' & _ & _ & _ & Hr' & Hj')%prepare_shell_inv E. rewrite <-E in Hr'.
  pose proof (same_document _ _ _ _ _ (url_document _ _) (shell_document _ _) Hj Hj' Hr Hr' (u "url")) as F.
  discriminate F.
Qed.

Lemma mcp_bound s t i s' t' i' p q :
  prepare (RMcp s t i) = Ok p → prepare (RMcp s' t' i') = Ok q → resource p = resource q →
  bound (RMcp s t i) (RMcp s' t' i') p q.
Proof.
  intros (sv & tl & b & Hd & Hsv & Htl & -> & Hx & Hb)%prepare_mcp_inv.
  intros (sv' & tl' & b' & Hd' & Hsv' & Htl' & -> & Hx' & Hb')%prepare_mcp_inv E%app_inv_head.
  apply split_at_inj in E as [-> E]; [|by eapply mcp_name_chars..].
  apply split_at_inj in E as [-> E]; [|by eapply mcp_name_chars..].
  apply bytes_hash_eq in E as [<-|[? ?]]; [left|right; by eexists _, _].
  rewrite Hx, Hx'. by rewrite (canonical_json_tree_canon i i' b).
Qed.

(** C39: The resource determines the execution.  Two requests of any kind whose resource
    texts are equal execute the same value (the path, the full URL, the command, or
    the tool with its input), or SHA-256 collides on the two values. *)
Theorem prepared_resource_binds a b p q :
  prepare a = Ok p → prepare b = Ok q → resource p = resource q →
  execution p = execution q ∨
  ∃ x y, digested a = Ok x ∧ digested b = Ok y ∧ x ≠ y ∧ sha256_hexdigest x = sha256_hexdigest y.
Proof.
  intros Hp Hq E. fold (bound a b p q).
  pose proof (resource_head _ _ Hp) as Ha. pose proof (resource_head _ _ Hq) as Hb. rewrite E, Hb in Ha.
  destruct a as [pa ca|v k|c n|s t i], b as [pb cb|v' k'|c' n'|s' t' i']; try discriminate Ha.
  - left. apply prepare_path_inv in Hp as (x & Hr & ->), Hq as (y & Hr' & ->). f_equal.
    rewrite Hr, Hr' in E. by apply app_inv_head in E.
  - by apply url_bound.
  - by destruct (url_shell_distinct _ _ _ _ _ _ Hp Hq).
  - by destruct (url_shell_distinct _ _ _ _ _ _ Hq Hp).
  - by apply shell_bound.
  - by apply mcp_bound.
Qed.
End resources.

(** ** Examples *)
Definition plain_prepare := prepare (H := plain_unicode) (H0 := plain_url).
Definition prepared_mcp : PreparedResource :=
  match plain_prepare (RMcp (u "files") (u "read") (PDict [(u "n", PInt 1)])) with
  | Ok p => p
  | Raise _ => {| resource := []; execution := PNone |}
  end.

Lemma prepared_resource_binds_witness :
  execution prepared_mcp = execution prepared_mcp ∨
  ∃ x y, digested (H := plain_unicode) (H0 := plain_url) (RMcp (u "files") (u "read") (PDict [(u "n", PInt 1)])) = Ok x ∧
    digested (H := plain_unicode) (H0 := plain_url)
      (RMcp (u "files") (u "read") (PDict [(u "n", PDec (DFinite false 10 (-1)))])) = Ok y ∧
    x ≠ y ∧ sha256_hexdigest x = sha256_hexdigest y.
Proof.
  apply (prepared_resource_binds (H := plain_unicode) (H0 := plain_url)); [vm_compute; reflexivity..|reflexivity].
Defined.
