(* ===== verification/Scope.v ===== *)
(** * Targets and scopes

    Models the end of [_canonicalize.py]: the hash that binds a target to its
    resource, and the client and authoritative scope hashes of an action. *)

From stdpp Require Import base list list_numbers numbers strings sets.
From S2P Require Import Prelude PyString Errors Sha256 PyValue Decimal Unicode Interfaces CanonicalJson.
From S2P Require Import JsonRoundTrip CanonicalFacts Resources Shell.
Open Scope Z_scope.

(** [_required_mapping]: a [Mapping], returned as it is. *)
Definition required_mapping (value : option pyval) (code : string) : py pyval :=
  match value with Some (PDict d) => Ok (PDict d) | _ => cerr code end.

Section scope.
Context `{UnicodeData}.

Definition required_string (value : pyval) (field : string) (code : string) : py pystr :=
  match get value field with
  | Some (PStr ((_ :: _) as item)) => nfc code item
  | _ => cerr code
  end.

(** ** Targets *)
Definition resource_document (kind service resource : pystr) : pyval :=
  PDict [(u "preimageType", PStr (u "palonexus.resource")); (u "preimageVersion", PStr (u "1"));
         (u "kind", PStr kind); (u "service", PStr service); (u "resource", PStr resource)].

Definition resource_hash_input (target : pyval) : py (pystr * pystr * pystr) :=
  let code := "invalid_target_resource" in
  value ← required_mapping (Some target) code;
  kind ← required_string value "kind" code;
  service ← required_string value "service" code;
  resource ← required_string value "resource" code;
  Ok (kind, service, resource).

Definition resource_hash (v : pystr * pystr * pystr) : py pystr :=
  canonical_hash (resource_document v.1.1 v.1.2 v.2).

Definition computed_resource_hash (target : pyval) : py pystr :=
  v ← resource_hash_input target; resource_hash v.

Definition target_document (kind service resource hash : pystr) : pyval :=
  PDict [(u "kind", PStr kind); (u "service", PStr service); (u "resource", PStr resource);
         (u "resourceHash", PStr hash)].

Definition build_target (kind service : pystr) (prepared : PreparedResource) : py pyval :=
  kind ← nfc "invalid_target_resource" kind;
  service ← nfc "invalid_target_resource" service;
  resource ← nfc "invalid_target_resource" (resource prepared);
  let target := PDict [(u "kind", PStr kind); (u "service", PStr service); (u "resource", PStr resource)] in
  hash ← computed_resource_hash target;
  Ok (target_document kind service resource hash).

Definition validated_target (target : pyval) : py pyval :=
  '(kind, service, resource) ← resource_hash_input target;
  expected ← resource_hash (kind, service, resource);
  raise_if (negb (py_eqb (opt_val (get target "resourceHash")) (PStr expected)))
    (CanonicalizationError "resource_hash_mismatch");;
  Ok (target_document kind service resource expected).

(** ** Scopes *)
Record client_scope := {
  adapter_id : pystr; adapter_version : pystr; task_id : pystr; session_id : pystr;
  action_name : pystr; target_kind : pystr; target_service : pystr; target_hash : pystr;
  side_effect : pystr;
}.

(** The dict [client_scope_input] returns. *)
Definition client_scope_document (s : client_scope) : pyval :=
  PDict [(u "scopeType", PStr (u "client")); (u "scopeVersion", PStr (u "1"));
         (u "adapter", PDict [(u "id", PStr (adapter_id s)); (u "version", PStr (adapter_version s))]);
         (u "task", PDict [(u "taskId", PStr (task_id s)); (u "sessionId", PStr (session_id s))]);
         (u "action", PStr (action_name s));
         (u "target", PDict [(u "kind", PStr (target_kind s)); (u "service", PStr (target_service s));
                             (u "resourceHash", PStr (target_hash s))]);
         (u "sideEffect", PStr (side_effect s))].

Definition client_scope_input (action_request : pyval) : py client_scope :=
  let code := "invalid_client_scope" in
  action ← required_mapping (Some action_request) code;
  adapter ← required_mapping (get action "adapter") code;
  task ← required_mapping (get action "task") code;
  mapping ← required_mapping (get action "target") code;
  target ← validated_target mapping;
  adapter_id ← required_string adapter "id" code;
  adapter_version ← required_string adapter "version" code;
  task_id ← required_string task "taskId" code;
  session_id ← required_string task "sessionId" code;
  action_name ← required_string action "action" code;
  target_kind ← required_string target "kind" code;
  target_service ← required_string target "service" code;
  target_hash ← required_string target "resourceHash" code;
  side_effect ← required_string action "sideEffect" code;
  Ok {| adapter_id := adapter_id; adapter_version := adapter_version; task_id := task_id;
        session_id := session_id; action_name := action_name; target_kind := target_kind;
        target_service := target_service; target_hash := target_hash; side_effect := side_effect |}.

Record trusted_scope := {
  tenant_id : pystr; actor_id : pystr; client_id : pystr;
  agent_id : option pystr; delegation_id : option pystr;
}.

Definition trusted_document (t : trusted_scope) : pyval :=
  PDict ([(u "tenantId", PStr (tenant_id t)); (u "actorId", PStr (actor_id t));
          (u "clientId", PStr (client_id t))]
         ++ from_option (λ x, [(u "agentId", PStr x)]) [] (agent_id t)
         ++ from_option (λ x, [(u "delegationId", PStr x)]) [] (delegation_id t)).

Definition TRUSTED_FIELDS : list pystr :=
  u <$> ["tenantId"; "actorId"; "agentId"; "delegationId"; "clientId"]%string.

(** [if field in trusted: result[field] = _required_string(trusted, field)]. *)
Definition optional_string (value : pyval) (field : string) (code : string) : py (option pystr) :=
  if has_key value field then Some <$> required_string value field code else Ok None.

Definition trusted_scope_input (trusted_context : pyval) : py trusted_scope :=
  let code := "invalid_authoritative_scope" in
  match trusted_context with
  | PDict d =>
      raise_if (existsb (λ p, negb (str_in p.1 TRUSTED_FIELDS)) d) (CanonicalizationError code);;
      tenant ← required_string trusted_context "tenantId" code;
      actor ← required_string trusted_context "actorId" code;
      client ← required_string trusted_context "clientId" code;
      agent ← optional_string trusted_context "agentId" code;
      delegation ← optional_string trusted_context "delegationId" code;
      Ok {| tenant_id := tenant; actor_id := actor; client_id := client; agent_id := agent;
            delegation_id := delegation |}
  | _ => cerr code
  end.

Definition authoritative_scope_document (s : client_scope * trusted_scope) : pyval :=
  PDict [(u "scopeType", PStr (u "authoritative")); (u "scopeVersion", PStr (u "1"));
         (u "clientScope", client_scope_document s.1); (u "trusted", trusted_document s.2)].

Definition authoritative_scope_input (action_request trusted_context : pyval)
    : py (client_scope * trusted_scope) :=
  client ← client_scope_input action_request;
  trusted ← trusted_scope_input trusted_context;
  Ok (client, trusted).

Definition client_scope_hash (action_request : pyval) : py pystr :=
  s ← client_scope_input action_request; canonical_hash (client_scope_document s).

Definition authoritative_scope_hash (action_request trusted_context : pyval) : py pystr :=
  s ← authoritative_scope_input action_request trusted_context;
  canonical_hash (authoritative_scope_document s).

(** ** Normal documents *)
Abbreviation normal := (λ s, nfc_form s = s).

Lemma required_string_normal v f code s : required_string v f code = Ok s → normal s.
Proof.
  unfold required_string. destruct (get v f) as [[| | | | | |[|c l]| |]|]; try done. apply nfc_normal.
Qed.

Definition normal_client (s : client_scope) : Prop :=
  Forall normal [adapter_id s; adapter_version s; task_id s; session_id s; action_name s; target_kind s;
                 target_service s; target_hash s; side_effect s].
Definition normal_trusted (t : trusted_scope) : Prop :=
  Forall normal [tenant_id t; actor_id t; client_id t] ∧
  from_option normal True (agent_id t) ∧ from_option normal True (delegation_id t).

Lemma client_scope_normal a s : client_scope_input a = Ok s → normal_client s.
Proof.
  unfold client_scope_input. intros Hs. inv_ok. unfold normal_client. cbn.
  repeat constructor; by eapply required_string_normal.
Qed.

Lemma trusted_scope_normal c t : trusted_scope_input c = Ok t → normal_trusted t.
Proof.
  unfold trusted_scope_input. intros Ht. destruct c; try done. inv_ok. unfold normal_trusted. cbn.
  split; [repeat constructor; by eapply required_string_normal|].
  unfold optional_string in *.
  split; match goal with E : (if has_key ?v ?k then _ else _) = Ok ?o |- from_option _ _ ?o =>
    destruct (has_key v k); inv_ok; cbn; [by eapply required_string_normal|done] end.
Qed.

Lemma client_document (s : client_scope) d : client_scope_document s = PDict d → document d.
Proof. unfold client_scope_document. intros [= <-]. solve_document. Qed.

Lemma trusted_fields_document t d : trusted_document t = PDict d → document d.
Proof. unfold trusted_document. intros [= <-]. destruct t as [? ? ? [|] [|]]; solve_document. Qed.

(** The value under a literal key of two documents with the same canonical form. *)
Lemma canon_get_eq d e k x y :
  document d → document e → canon (PDict d) = canon (PDict e) →
  assoc (u k) d = Some x → assoc (u k) e = Some y → canon x = canon y.
Proof.
  intros Hd He E Hx Hy. apply (canon_field_eq _ _ (u k)) in E; [|done..].
  rewrite Hx, Hy in E. by injection E.
Qed.

Lemma canon_get_str d e k x y :
  document d → document e → canon (PDict d) = canon (PDict e) →
  assoc (u k) d = Some (PStr x) → assoc (u k) e = Some (PStr y) → normal x → normal y → x = y.
Proof. intros. apply canon_str_inj; [done|done|]. by apply (canon_get_eq d e k). Qed.

(** [literal_field k E]: the value under the key [k] of documents with the same canonical form. *)
Ltac literal_field k E :=
  eapply (canon_get_str _ _ k); [| |exact E|reflexivity|reflexivity|done|done]; solve_document.
Ltac literal_object k E :=
  let F := fresh "E" in
  eassert (canon _ = canon _) as F by
    (eapply (canon_get_eq _ _ k); [| |exact E|reflexivity|reflexivity]; solve_document).

#[local] Arguments canon : simpl never.

(** The fields of a scope are those of its canonical form. *)
Lemma client_scope_inj s s' :
  normal_client s → normal_client s' →
  canon (client_scope_document s) = canon (client_scope_document s') → s = s'.
Proof.
  unfold normal_client. rewrite !Forall_cons. intros (?&?&?&?&?&?&?&?&?&_) (?&?&?&?&?&?&?&?&?&_) E.
  destruct s as [ai av ti si an tk ts th se], s' as [ai' av' ti' si' an' tk' ts' th' se']; cbn in *.
  unfold client_scope_document in E. cbn in E.
  literal_object "adapter" E. literal_object "task" E. literal_object "target" E.
  f_equal; [literal_field "id" E0|literal_field "version" E0|literal_field "taskId" E1
    |literal_field "sessionId" E1|literal_field "action" E|literal_field "kind" E2
    |literal_field "service" E2|literal_field "resourceHash" E2|literal_field "sideEffect" E].
Qed.

Lemma optional_field d e k x y :
  document d → document e → canon (PDict d) = canon (PDict e) →
  assoc (u k) d = PStr <$> x → assoc (u k) e = PStr <$> y →
  from_option normal True x → from_option normal True y → x = y.
Proof.
  intros Hd He E Hx Hy Nx Ny. apply (canon_field_eq _ _ (u k)) in E; [|done..]. rewrite Hx, Hy in E.
  destruct x, y; cbn in *; try done. injection E as E. congruence.
Qed.

Lemma trusted_scope_inj t t' :
  normal_trusted t → normal_trusted t' → canon (trusted_document t) = canon (trusted_document t') → t = t'.
Proof.
  unfold normal_trusted. rewrite !Forall_cons. intros ((?&?&?&_)&?&?) ((?&?&?&_)&?&?) E.
  assert (agent_id t = agent_id t' ∧ delegation_id t = delegation_id t') as [Ea Ed].
  { split; [eapply (optional_field _ _ "agentId")|eapply (optional_field _ _ "delegationId")];
      try exact E; try done; try (by apply (trusted_fields_document t));
      try (by apply (trusted_fields_document t')); [destruct t as [? ? ? [|] [|]]|destruct t' as [? ? ? [|] [|]]
        |destruct t as [? ? ? [|] [|]]|destruct t' as [? ? ? [|] [|]]]; reflexivity. }
  pose proof (trusted_fields_document t _ eq_refl) as Dt.
  pose proof (trusted_fields_document t' _ eq_refl) as Dt'.
  pose proof (λ k x y, canon_get_str _ _ k x y Dt Dt' E) as Hfield.
  destruct t as [tn ac cl ag dl], t' as [tn' ac' cl' ag' dl']; cbn in Ea, Ed; subst.
  f_equal; [apply (Hfield "tenantId")|apply (Hfield "actorId")|apply (Hfield "clientId")];
    try reflexivity; done.
Qed.

(** ** Hashes bind what was hashed *)

(** The three hashes, what they are computed from and the document they digest. *)
Inductive hashed :=
| HTarget (target : pyval)
| HClient (action_request : pyval)
| HAuthoritative (action_request trusted_context : pyval).
Inductive preimage :=
| PTarget (v : pystr * pystr * pystr)
| PClient (s : client_scope)
| PAuthoritative (s : client_scope * trusted_scope).

Definition hash_of (x : hashed) : py pystr :=
  match x with
  | HTarget t => computed_resource_hash t
  | HClient a => client_scope_hash a
  | HAuthoritative a c => authoritative_scope_hash a c
  end.
Definition preimage_of (x : hashed) : py preimage :=
  match x with
  | HTarget t => PTarget <$> resource_hash_input t
  | HClient a => PClient <$> client_scope_input a
  | HAuthoritative a c => PAuthoritative <$> authoritative_scope_input a c
  end.
Definition preimage_document (p : preimage) : pyval :=
  match p with
  | PTarget v => resource_document v.1.1 v.1.2 v.2
  | PClient s => client_scope_document s
  | PAuthoritative s => authoritative_scope_document s
  end.

Lemma hash_of_inv x h : hash_of x = Ok h →
  ∃ p, preimage_of x = Ok p ∧ canonical_hash (preimage_document p) = Ok h.
Proof.
  destruct x as [t|a|a c]; cbn [hash_of preimage_of].
  - unfold computed_resource_hash, resource_hash. intros (v & -> & Hh)%bind_Ok_iff. by exists (PTarget v).
  - unfold client_scope_hash. intros (v & -> & Hh)%bind_Ok_iff. by exists (PClient v).
  - unfold authoritative_scope_hash. intros (v & -> & Hh)%bind_Ok_iff. by exists (PAuthoritative v).
Qed.

Definition normal_preimage (p : preimage) : Prop :=
  match p with
  | PTarget v => Forall normal [v.1.1; v.1.2; v.2]
  | PClient s => normal_client s
  | PAuthoritative s => normal_client s.1 ∧ normal_trusted s.2
  end.

Lemma preimage_normal x p : preimage_of x = Ok p → normal_preimage p.
Proof.
  destruct x as [t|a|a c]; cbn [preimage_of]; intros Hp; inv_ok; cbn [normal_preimage].
  - unfold resource_hash_input in Hx. inv_ok. repeat constructor; by eapply required_string_normal.
  - by eapply client_scope_normal.
  - unfold authoritative_scope_input in Hx. inv_ok. split; [by eapply client_scope_normal|by eapply trusted_scope_normal].
Qed.

(** The three kinds of documents have different discriminators. *)
Lemma preimage_fields p : ∃ d, preimage_document p = PDict d ∧ document d ∧
  assoc (u "scopeType") d = match p with
    | PTarget _ => None
    | PClient _ => Some (PStr (u "client"))
    | PAuthoritative _ => Some (PStr (u "authoritative"))
    end.
Proof.
  destruct p as [v|s|s]; eexists; (split; [reflexivity|]); (split; [solve_document|reflexivity]).
Qed.

Lemma preimage_inj p q : normal_preimage p → normal_preimage q →
  canon (preimage_document p) = canon (preimage_document q) → p = q.
Proof.
  intros Np Nq E. destruct (preimage_fields p) as (d & Hd & Dd & Td), (preimage_fields q) as (e & He & De & Te).
  pose proof E as F. rewrite Hd, He in F. apply (canon_field_eq _ _ (u "scopeType")) in F; [|done..].
  rewrite Td, Te in F. clear d e Hd He Dd De Td Te.
  assert (nfc_form (u "client") = u "client") as N1 by (by apply nfc_literal).
  assert (nfc_form (u "authoritative") = u "authoritative") as N2 by (by apply nfc_literal).
  destruct p as [[[k s] r]|s|[s t]], q as [[[k' s'] r']|s'|[s' t']]; try discriminate F;
    try (injection F as F; rewrite N1, N2 in F; discriminate F); cbn [preimage_document normal_preimage fst snd] in *.
  - rewrite !Forall_cons in Np, Nq. destruct Np as (?&?&?&_), Nq as (?&?&?&_). do 2 f_equal; [f_equal|].
    + literal_field "kind" E.
    + literal_field "service" E.
    + literal_field "resource" E.
  - f_equal. by apply client_scope_inj.
  - unfold authoritative_scope_document in E. cbn [fst snd] in E.
    literal_object "clientScope" E. literal_object "trusted" E. destruct Np, Nq. do 2 f_equal.
    + by apply client_scope_inj.
    + by apply trusted_scope_inj.
Qed.

(** Equal hashes come from equal inputs, or from a collision. *)
Lemma hash_of_binds x y h :
  hash_of x = Ok h → hash_of y = Ok h →
  ∃ p q, preimage_of x = Ok p ∧ preimage_of y = Ok q ∧
    (p = q ∨ hash_collision (preimage_document p) (preimage_document q)).
Proof.
  intros (p & Hp & Hh)%hash_of_inv (q & Hq & Hh')%hash_of_inv. exists p, q. split_and!; [done|done|].
  destruct (canonical_hash_eq _ _ _ Hh Hh') as [E|]; [left|by right].
  apply preimage_inj; [by eapply preimage_normal..|].
  apply canonical_hash_Ok in Hh as (b & Hb & _). apply (canonical_json_tree_canon _ _ b); [done|].
  cbn in E. by rewrite <-E.
Qed.

(** C26: Scope hashes bind.  If two hashes are equal, whether of a target, of a client
    scope or of an authoritative scope, they were computed from the same kind of
    input with the same (normalized) fields, or SHA-256 collides on the two. *)
Theorem scope_hash_binds x y h :
  hash_of x = Ok h → hash_of y = Ok h →
  ∃ p q, preimage_of x = Ok p ∧ preimage_of y = Ok q ∧
    (p = q ∨ hash_collision (preimage_document p) (preimage_document q)).
Proof. apply hash_of_binds. Qed.

(** ** Targets *)
Lemma get_target k s r h :
  get (target_document k s r h) "kind" = Some (PStr k) ∧
  get (target_document k s r h) "service" = Some (PStr s) ∧
  get (target_document k s r h) "resource" = Some (PStr r) ∧
  get (target_document k s r h) "resourceHash" = Some (PStr h).
Proof. done. Qed.

Lemma required_string_stable v f code s :
  get v f = Some (PStr s) → s ≠ [] → nfc "invalid_target_resource" s = Ok s → required_string v f code = Ok s.
Proof.
  intros Hg Hs Hn. unfold required_string. rewrite Hg. destruct s; [done|]. by eapply nfc_idem.
Qed.

Lemma required_string_inv v f code s : required_string v f code = Ok s →
  ∃ t, get v f = Some (PStr t) ∧ t ≠ [] ∧ nfc code t = Ok s.
Proof.
  unfold required_string. destruct (get v f) as [[| | | | | |[|c l]| |]|]; try done. eauto.
Qed.

Lemma validated_target_inv t w : validated_target t = Ok w →
  ∃ k s r h, w = target_document k s r h ∧ resource_hash_input t = Ok (k, s, r) ∧
    canonical_hash (resource_document k s r) = Ok h ∧ get t "resourceHash" = Some (PStr h).
Proof.
  unfold validated_target. intros Hw. apply bind_Ok_iff in Hw as ([[k s] r] & Hi & Hw). inv_ok.
  match goal with E : py_eqb _ _ = true |- _ => apply py_eqb_str in E; rename E into Eh end.
  exists k, s, r, x. split_and!; try done. unfold opt_val in Eh. destruct (get t "resourceHash"); cbn in Eh; congruence.
Qed.

Lemma build_target_inv kind service prepared t : build_target kind service prepared = Ok t →
  ∃ k s r h, t = target_document k s r h ∧ resource_hash_input t = Ok (k, s, r) ∧
    canonical_hash (resource_document k s r) = Ok h.
Proof.
  unfold build_target. intros (k & Hk & Ht)%bind_Ok_iff.
  apply bind_Ok_iff in Ht as (s & Hs & (r & Hr & Ht)%bind_Ok_iff).
  apply bind_Ok_iff in Ht as (h & Hh & [= <-]).
  unfold computed_resource_hash in Hh. apply bind_Ok_iff in Hh as ([[k0 s0] r0] & Hi & Hh).
  exists k, s, r, h. unfold resource_hash_input in *. cbn [required_mapping mbind result_bind] in Hi. inv_ok.
  repeat match goal with E : required_string _ _ _ = Ok _ |- _ =>
    apply required_string_inv in E as (? & [= <-] & ? & ?) end.
  repeat match goal with A : nfc "invalid_target_resource" ?a = Ok ?b, B : nfc _ ?b = Ok ?c |- _ =>
    assert (c = b) as -> by (pose proof (nfc_idem _ "invalid_target_resource" _ _ A); congruence); clear B end.
  split_and!; [done| |done]. destruct (get_target k s r h) as (Gk & Gs & Gr & _).
  rewrite (eq_refl : required_mapping (Some (target_document k s r h)) "invalid_target_resource"
    = Ok (target_document k s r h)). cbn [mbind result_bind].
  rewrite (required_string_stable _ _ _ _ Gk), (required_string_stable _ _ _ _ Gs),
    (required_string_stable _ _ _ _ Gr) by eauto using nfc_idem. done.
Qed.

Lemma target_hash_eq t t' v v' h :
  resource_hash_input t = Ok v → resource_hash_input t' = Ok v' →
  canonical_hash (preimage_document (PTarget v)) = Ok h →
  canonical_hash (preimage_document (PTarget v')) = Ok h →
  v' = v ∨ hash_collision (preimage_document (PTarget v)) (preimage_document (PTarget v')).
Proof.
  intros Hv Hv' Hh Hh'. destruct (canonical_hash_eq _ _ _ Hh Hh') as [E|]; [left|by right].
  assert (PTarget v' = PTarget v) as [= ->]; [|done].
  apply preimage_inj; [apply (preimage_normal (HTarget t')); cbn [preimage_of]; by rewrite Hv'
    |apply (preimage_normal (HTarget t)); cbn [preimage_of]; by rewrite Hv|].
  apply canonical_hash_Ok in Hh as (b & Hb & _). apply (canonical_json_tree_canon _ _ b); [|done].
  rewrite <-Hb. symmetry. exact E.
Qed.

(** Targets are tamper-evident.  A target that [build_target] made is validated to
    itself; and any other target that carries its hash and is accepted has the same
    kind, service and resource after normalization, or SHA-256 collides on the two. *)
Theorem built_target_validates kind service prepared t :
  build_target kind service prepared = Ok t →
  validated_target t = Ok t ∧
  ∀ t' w, get t' "resourceHash" = get t "resourceHash" → validated_target t' = Ok w →
    w = t ∨ ∃ v v', resource_hash_input t = Ok v ∧ resource_hash_input t' = Ok v' ∧
      hash_collision (preimage_document (PTarget v)) (preimage_document (PTarget v')).
Proof.
  intros (k & s & r & h & -> & Hi & Hh)%build_target_inv. split.
  - unfold validated_target. rewrite Hi. cbn [mbind result_bind]. unfold resource_hash. cbn [fst snd].
    rewrite Hh. cbn [mbind result_bind]. destruct (get_target k s r h) as (_ & _ & _ & ->).
    change (opt_val (Some (PStr h))) with (PStr h). by rewrite (proj2 (py_eqb_str _ _) eq_refl).
  - intros t' w Hget (k' & s' & r' & h' & -> & Hv & Hw & Hgh)%validated_target_inv.
    destruct (get_target k s r h) as (_ & _ & _ & Hgt). rewrite Hgt, Hgh in Hget. injection Hget as ->.
    destruct (target_hash_eq _ _ _ _ _ Hi Hv Hh Hw) as [[= -> -> ->]|]; [by left|right].
    by exists (k, s, r), (k', s', r').
Qed.
End scope.

(** ** Examples *)
Definition sample_target : pyval :=
  match build_target (H := plain_unicode) (u "tool") (u "files") {| resource := u "path:/a"; execution := PNone |} with
  | Ok t => t
  | Raise _ => PNone
  end.
Definition sample_action : pyval :=
  PDict [(u "adapter", PDict [(u "id", PStr (u "a")); (u "version", PStr (u "1"))]);
         (u "task", PDict [(u "taskId", PStr (u "t")); (u "sessionId", PStr (u "s"))]);
         (u "action", PStr (u "read")); (u "target", sample_target); (u "sideEffect", PStr (u "none"))].
Definition sample_hash : pystr :=
  match client_scope_hash (H := plain_unicode) sample_action with Ok h => h | Raise _ => [] end.

Lemma built_target_validates_witness :
  validated_target (H := plain_unicode) sample_target = Ok sample_target.
Proof.
  apply (built_target_validates (H := plain_unicode) (u "tool") (u "files")
    {| resource := u "path:/a"; execution := PNone |}). vm_compute. reflexivity.
Defined.

Lemma scope_hash_binds_witness :
  ∃ p q, preimage_of (H := plain_unicode) (HClient sample_action) = Ok p ∧
    preimage_of (H := plain_unicode) (HClient sample_action) = Ok q ∧
    (p = q ∨ hash_collision (H := palonexus_canonicalizer (H := plain_unicode)) (preimage_document p)
      (preimage_document q)).
Proof.
  apply (scope_hash_binds (H := plain_unicode) _ _ sample_hash); vm_compute; reflexivity.
Defined.
