(* ===== verification/Calm.v ===== *)
(** * Computations that raise only exceptions

    [except Exception] catches everything but the exceptions that end a process or
    cancel a task.  The validators, the wire types and the canonicalizer raise no
    such exception, so a handler around them catches every failure. *)

From stdpp Require Import base list list_numbers numbers strings.
From S2P Require Import Prelude PyString Regex Errors Timestamp PyValue Schemas Decimal Unicode.
From S2P Require Import Structure StructureFacts Conformance Wire WireSound WireProtocol.
From S2P Require Import Interfaces CanonicalJson CanonicalFacts JsonScan WireText WireTextFacts Approvals Models.
From S2P Require Import PyUrl CanonicalPath Shell Resources CanonicalUrl Scope.
Open Scope Z_scope.

Definition no_interrupt {A} (m : py A) : Prop := ∀ e, m = Raise e → is_exception e = true.

Section calm.
Context {A B : Type}.

Lemma calm_Ok (a : A) : no_interrupt (Ok a). Proof. by intros e. Qed.
Lemma calm_Raise e : is_exception e = true → no_interrupt (Raise (A := A) e).
Proof. intros He e' [= <-]. done. Qed.
Lemma calm_bind (m : py A) (f : A → py B) : no_interrupt m → (∀ a, no_interrupt (f a)) → no_interrupt (m ≫= f).
Proof. intros Hm Hf e [He|(a & _ & He)]%bind_Raise_iff; [by apply Hm|by eapply Hf]. Qed.
Lemma calm_fmap (f : A → B) (m : py A) : no_interrupt m → no_interrupt (f <$> m).
Proof. intros Hm e. destruct m as [a|x]; [done|]. intros [= <-]. by apply Hm. Qed.
Lemma calm_structural (m : py A) : structural_only m → no_interrupt m.
Proof. intros Hm e He. by destruct (Hm e He) as [message ->]. Qed.
Lemma calm_craises (m : py A) : craises m → no_interrupt m.
Proof. intros Hm e He. by destruct (Hm e He) as [code ->]. Qed.
Lemma calm_except p e (m : py A) : is_exception e = true → no_interrupt m → no_interrupt (except_raise p e m).
Proof. intros He Hm e'. destruct m as [a|x]; [done|]. cbn. intros [= <-]. destruct (p x); [done|by apply Hm]. Qed.
(** A handler that catches every failure. *)
Lemma except_raise_calm e' e (m : py A) : no_interrupt m → except_raise is_exception e' m = Raise e → e = e'.
Proof. intros Hm. destruct m as [a|x]; [done|]. cbn. rewrite (Hm x eq_refl). by intros [= <-]. Qed.
End calm.

Lemma calm_raise_if c e : is_exception e = true → no_interrupt (raise_if c e).
Proof. intros He. destruct c; [by apply calm_Raise|apply calm_Ok]. Qed.

Create HintDb calm.
#[export] Hint Resolve calm_Ok : calm.
#[export] Hint Extern 2 (no_interrupt (raise_if _ _)) => apply calm_raise_if; reflexivity : calm.
#[export] Hint Extern 2 (no_interrupt (Raise _)) => apply calm_Raise; reflexivity : calm.

Lemma calm_for_each {A} (f : A → py ()) xs : (∀ x, no_interrupt (f x)) → no_interrupt (for_each f xs).
Proof. intros Hf. induction xs as [|x xs IH]; cbn; [apply calm_Ok|]. by apply calm_bind; [|intros ?]. Qed.

(** Opens binds and conditionals until only known computations are left. *)
Ltac solve_calm :=
  repeat first
    [ solve [auto with calm] | progress cbn beta iota zeta
    | apply calm_bind; [|intros ?] | apply calm_fmap | apply calm_for_each; intros ?
    | match goal with |- no_interrupt (match ?x with _ => _ end) => destruct x end ].

(** ** Structural validation *)
Lemma calm_pointer v tokens : no_interrupt (follow_pointer v tokens).
Proof. revert v. induction tokens as [|t tokens IH]; intros v; cbn; solve_calm. Qed.
#[export] Hint Resolve calm_pointer : calm.
Lemma calm_resolve root ref : no_interrupt (resolve_ref root ref).
Proof. unfold resolve_ref, schema_pointer. solve_calm. Qed.
Lemma calm_memory v : no_interrupt (validate_memory_limits v).
Proof.
  pose proof (memory_limits_outcome v) as Ho. unfold StructureFacts.outcome in Ho.
  destruct (within_limits v); [rewrite Ho; apply calm_Ok|]. destruct Ho as [message ->]. by apply calm_Raise.
Qed.
#[export] Hint Resolve calm_resolve calm_memory : calm.

Section step.
Variable rec : pyval → pyval → pyval → pystr → py ().
Hypothesis rec_calm : ∀ root schema v path, no_interrupt (rec root schema v path).
Variables (root schema value : pyval) (path : pystr).
#[local] Hint Resolve rec_calm : calm.

Lemma calm_matches branch : no_interrupt (matches_branch rec root value path branch).
Proof.
  unfold matches_branch. destruct (rec _ _ _ _) as [x|e] eqn:E; [apply calm_Ok|]. apply rec_calm in E.
  destruct e; try apply calm_Ok; by apply calm_Raise.
Qed.
#[local] Hint Resolve calm_matches : calm.
Lemma calm_branch branch : no_interrupt (branch_matches rec root value path branch).
Proof. unfold branch_matches. solve_calm. Qed.
#[local] Hint Resolve calm_branch : calm.
Lemma calm_any branches : no_interrupt (any_branch rec root value path branches).
Proof. induction branches as [|b bs IH]; cbn; [solve_calm|]. unfold orM. solve_calm. Qed.
Lemma calm_count branches : no_interrupt (count_branches rec root value path branches).
Proof. induction branches as [|b bs IH]; cbn; solve_calm. Qed.
Lemma calm_items items index elements : no_interrupt (validate_items rec root path items index elements).
Proof. revert index. induction elements as [|x xs IH]; intros index; cbn; solve_calm. Qed.
#[local] Hint Resolve calm_any calm_count calm_items : calm.

Lemma calm_step : no_interrupt (validate_step rec root schema value path).
Proof.
  unfold validate_step, validate_ref, validate_type, validate_literals, validate_branches, validate_object,
    validate_members, validate_array, validate_string, validate_number, re_search, num_lt.
  solve_calm.
Qed.
End step.

Lemma calm_validate fuel root schema v path : no_interrupt (validate fuel root schema v path).
Proof. revert root schema v path. induction fuel as [|fuel IH]; intros; cbn; [by apply calm_Raise|by apply calm_step]. Qed.
#[export] Hint Resolve calm_validate : calm.

Lemma calm_document kind v : no_interrupt (validate_document kind v).
Proof. unfold validate_document. solve_calm. Qed.
Lemma calm_fragment kind pointer v : no_interrupt (validate_fragment kind pointer v).
Proof. unfold validate_fragment, schema_pointer. solve_calm. Qed.
#[export] Hint Resolve calm_document calm_fragment : calm.

(** ** Wire types *)
Lemma calm_to_json_value v : no_interrupt (to_json_value v).
Proof.
  induction v as [| |b|z|f|d|s|l IH|d IH] using pyval_ind'; cbn [to_json_value]; try (solve [solve_calm]).
  - apply calm_bind; [auto with calm|intros _]. apply calm_bind; [|intros; apply calm_Ok].
    induction IH as [|v l Hv _ IH]; [apply calm_Ok|]. solve_calm.
  - apply calm_bind; [auto with calm|intros _]. apply calm_bind; [|intros; apply calm_Ok].
    induction IH as [|[k v] d Hv _ IH]; [apply calm_Ok|]. solve_calm.
Qed.
#[export] Hint Resolve calm_to_json_value : calm.

(** Induction that reaches the attributes of a DTO. *)
Lemma attr_ind' (P : attr → Prop) :
  (∀ s, P (AStr s)) → (∀ z, P (AInt z)) → (∀ v, P (ARaw v)) →
  (∀ c attributes, Forall (λ f : string * string * option attr, ∀ x, f.2 = Some x → P x) attributes →
     P (ADto c attributes)) → ∀ a, P a.
Proof.
  intros Hs Hz Hv Hd. fix IH 1. intros [s|z|v|c attributes]; [apply Hs|apply Hz|apply Hv|].
  apply Hd. induction attributes as [|[f [x|]] rest IHr]; constructor; [|exact IHr| |exact IHr].
  - intros y [= <-]. apply IH.
  - intros y [=].
Qed.

Lemma calm_to_json a : no_interrupt (to_json a).
Proof.
  induction a as [s|z|v|c attributes Ha] using attr_ind'; cbn [to_json];
    [apply calm_Ok..|apply calm_to_json_value|].
  apply calm_bind; [|intros result; unfold validate_result; solve_calm].
  induction Ha as [|[[name wire_name] [x|]] rest Hx _ IHr]; [apply calm_Ok| |exact IHr].
  specialize (Hx x eq_refl).
  assert (no_interrupt (y ← to_json x; r ← (fix go (attributes : list (string * string * option attr)) : py (list (pystr * pyval)) :=
                  match attributes with
                  | [] => Ok []
                  | (_, _, None) :: rest => go rest
                  | (_, _, Some (ARaw PNone)) :: rest => go rest
                  | (_, wire_name, Some value) :: rest =>
                      x ← to_json value; r ← go rest; Ok ((u wire_name, x) :: r)
                  end) rest; Ok ((u wire_name, y) :: r))) as Hb by solve_calm.
  destruct x as [s|z|[]|c' more]; first [exact Hb|exact IHr].
Qed.
Lemma calm_to_dict d : no_interrupt (to_dict d).
Proof. apply calm_to_json. Qed.
#[export] Hint Resolve calm_to_dict : calm.

Lemma calm_validate_structural v : no_interrupt (validate_structural v).
Proof. unfold validate_structural. solve_calm. Qed.
Lemma calm_str_of a : no_interrupt (str_of a).
Proof. unfold str_of. solve_calm. Qed.
Lemma calm_wire_string kind pointer s : no_interrupt (wire (WireString kind pointer) s).
Proof. unfold wire. cbn [convert]. unfold wire_string. solve_calm. Qed.
#[export] Hint Resolve calm_validate_structural calm_str_of calm_wire_string : calm.

(** ** Texts *)
Lemma calm_strict_loads document : no_interrupt (strict_loads_json document).
Proof.
  intros e He. pose proof (strict_loads_json_spec document) as Hs. rewrite He in Hs. by destruct Hs as [message ->].
Qed.
#[export] Hint Resolve calm_strict_loads : calm.

Lemma calm_encode v : no_interrupt (encode_json_value v).
Proof.
  induction v as [| |b|z|f|d|s|l IH|d IH] using pyval_ind'; cbn [encode_json_value]; try (solve [solve_calm]).
  - unfold encode_decimal. destruct d; cbn zeta; solve_calm.
  - apply calm_bind; [|intros; apply calm_Ok]. induction IH as [|v l Hv _ IH]; [apply calm_Ok|]. solve_calm.
  - apply calm_bind; [|intros; apply calm_Ok]. induction IH as [|[k v] d Hv _ IH]; [apply calm_Ok|]. solve_calm.
Qed.
#[export] Hint Resolve calm_encode : calm.

Lemma calm_to_json_bytes d : no_interrupt (to_json_bytes d).
Proof. unfold to_json_bytes. solve_calm. Qed.
Lemma calm_parse_text c document : c ∈ DOCUMENT_CLASSES → no_interrupt (parse_text_with c document).
Proof.
  intros Hc e He. pose proof (parse_text_outcome c document Hc) as Ho. rewrite He in Ho. by destruct Ho as [message ->].
Qed.
#[export] Hint Resolve calm_to_json_bytes : calm.

(** ** Scopes *)
Section scope.
Context `{UnicodeData}.

Lemma calm_nfc code s : no_interrupt (nfc code s).
Proof. apply calm_craises, nfc_craises. Qed.
Lemma calm_canonical_hash v : no_interrupt (canonical_hash v).
Proof. apply calm_bind; [apply calm_craises, canonical_json_tree_craises|intros; apply calm_Ok]. Qed.
#[local] Hint Resolve calm_nfc calm_canonical_hash : calm.

Lemma calm_required_string v field code : no_interrupt (required_string v field code).
Proof. unfold required_string, cerr. solve_calm. Qed.
Lemma calm_required_mapping v code : no_interrupt (required_mapping v code).
Proof. unfold required_mapping, cerr. solve_calm. Qed.
#[local] Hint Resolve calm_required_string calm_required_mapping : calm.

Lemma calm_client_scope_hash v : no_interrupt (client_scope_hash v).
Proof.
  unfold client_scope_hash, client_scope_input, validated_target, resource_hash_input, resource_hash. solve_calm.
Qed.
End scope.
#[export] Hint Resolve calm_client_scope_hash : calm.
