(* ===== verification/Envelope.v ===== *)
(** * Sealed executions

    Models [python/src/palonexus/protocol.py]: prepared targets and actions, which
    carry the value to be executed in a sealed envelope, and the builder that
    prepares, authorizes and resumes them.  The objects live in a [world]: an
    envelope has the attributes of the object and its [_ExecutionState], as in the
    dictionaries [_TARGET_STATES] and [_ACTION_STATES].  The locks make every access
    to a state atomic.  What an operation draws from [secrets.token_bytes], from the
    clock and for the generator of identifiers is an argument. *)

From stdpp Require Import base list list_numbers numbers strings gmap.
From S2P Require Import Prelude PyString Sha256 Regex Errors Timestamp PyValue Schemas Decimal Unicode.
From S2P Require Import Structure Wire Identifiers TaskScope Interfaces CanonicalJson JsonRoundTrip.
From S2P Require Import Approvals Models PyUrl Shell Resources CanonicalPath CanonicalUrl Scope.
Open Scope Z_scope.

Definition invalid : exn := model_validation_error.

(** ** HMAC-SHA-256 ([hmac.digest(key, message, "sha256")]) *)
Definition hmac_block (key : pybytes) : pybytes :=
  let key := if (64 <? Z.of_nat (length key)) then sha256 key else key in
  key ++ replicate (64 - length key) 0.
Definition hmac_digest (key message : pybytes) : pybytes :=
  let pad (b : Z) := Z.lxor b <$> hmac_block key in
  sha256 (pad 92 ++ sha256 (pad 54 ++ message)).

(** ** Execution states *)
Definition execution_hash (kind : pystr) (buffer : pybytes) : pybytes :=
  sha256 (u "palonexus.execution.v1" ++ [0] ++ kind ++ [0] ++ buffer).

Definition make_seal (key domain nonce metadata execution_digest : pybytes) : pybytes :=
  hmac_digest key (domain ++ [0] ++ nonce ++ [0] ++ metadata ++ [0] ++ execution_digest).

Record execution_state := ExecutionState {
  es_key : pybytes;
  es_kind : pystr;
  es_buffer : pybytes;
  es_nonce : pybytes;
  es_metadata : pybytes;
  es_execution_digest : pybytes;
  es_seal : pybytes;
  es_closed : bool;
}.

Definition new_execution_state (key : pybytes) (kind : pystr) (buffer nonce metadata domain : pybytes)
    : execution_state :=
  let digest := execution_hash kind buffer in
  ExecutionState key kind buffer nonce metadata digest (make_seal key domain nonce metadata digest) false.

Definition verify (s : execution_state) (key domain metadata : pybytes) (require_open : bool) : py () :=
  raise_if (negb (bool_decide (key = es_key s))) invalid;;
  let expected := make_seal key domain (es_nonce s) metadata (es_execution_digest s) in
  raise_if (negb (bool_decide (metadata = es_metadata s))) invalid;;
  raise_if (negb (bool_decide (expected = es_seal s))) invalid;;
  if require_open then
    raise_if (es_closed s) invalid;;
    raise_if (negb (bool_decide (execution_hash (es_kind s) (es_buffer s) = es_execution_digest s))) invalid
  else Ok ().

(** [close()]: the buffer is wiped. *)
Definition close_state (s : execution_state) : execution_state :=
  if es_closed s then s
  else ExecutionState (es_key s) (es_kind s) [] (es_nonce s) (es_metadata s) (es_execution_digest s)
         (es_seal s) true.

(** ** Prepared objects *)
Inductive prepared :=
| PreparedTarget (target : action_target) (resource_hash : pystr) (target_nonce : pybytes)
| PreparedAction (request : attr) (client_scope_hash : pystr) (target_nonce : pybytes).

Definition domain (o : prepared) : pybytes :=
  match o with
  | PreparedTarget _ _ _ => u "palonexus.prepared-target.v1"
  | PreparedAction _ _ _ => u "palonexus.prepared-action.v1"
  end.

Record envelope := Envelope { object : prepared; estate : execution_state }.

(** The objects, by identity, and the generator of identifiers. *)
Record world := World { next_id : nat; envelopes : gmap nat envelope; identifiers : generator }.

(** ** Operations on the world

    An operation returns or raises; what it changed before it raised stays. *)
Definition op (A : Type) : Type := world → py A * world.

#[global] Instance op_ret : MRet op := λ A a w, (Ok a, w).
#[global] Instance op_bind : MBind op := λ A B f m w,
  match m w with (Ok a, w) => f a w | (Raise e, w) => (Raise e, w) end.

Definition lift {A} (m : py A) : op A := λ w, (m, w).
Definition op_except {A} (p : exn → bool) (e' : exn) (m : op A) : op A := λ w,
  let '(r, w) := m w in (except_raise p e' r, w).

Definition envelope_of (id : nat) : op envelope := λ w,
  match envelopes w !! id with Some e => (Ok e, w) | None => (Raise invalid, w) end.

Definition add_envelope (e : envelope) : op nat := λ w,
  (Ok (next_id w), World (S (next_id w)) (<[next_id w := e]> (envelopes w)) (identifiers w)).

Definition close (id : nat) : op () := λ w,
  match envelopes w !! id with
  | Some e => (Ok (), World (next_id w)
                        (<[id := Envelope (object e) (close_state (estate e))]> (envelopes w)) (identifiers w))
  | None => (Raise invalid, w)
  end.

(** [_new_id(kind)]. *)
Definition new_id (kind : string) (o : observation) : op pystr := λ w,
  let '(r, g) := new kind o (identifiers w) in
  (except_raise is_exception invalid r, World (next_id w) (envelopes w) g).

Section envelopes.
Context `{UnicodeData} `{UrlData}.

(** [_metadata()]. *)
Definition metadata (o : prepared) : py pybytes :=
  match o with
  | PreparedTarget target resource_hash _ =>
      canonical_json_tree (target_document (at_kind target) (at_service target) (at_resource target) resource_hash)
  | PreparedAction request client_scope_hash target_nonce =>
      d ← to_dict request;
      canonical_json_tree (PDict [(u "request", d); (u "clientScopeHash", PStr client_scope_hash);
                                  (u "targetNonce", PStr (hexdigest target_nonce))])
  end.

(** [_verify_for(key, require_open=...)]. *)
Definition verify_for (id : nat) (key : pybytes) (require_open : bool) : op execution_state :=
  e ← envelope_of id;
  m ← lift (metadata (object e));
  lift (verify (estate e) key (domain (object e)) m require_open);;
  mret (estate e).

(** ** The values that are executed *)
Definition encode_execution (value : pyval) : py (pystr * pybytes) :=
  match value with
  | PNone => Ok (u "none", [])
  | PStr s => match utf8_encode s with Some b => Ok (u "text", b) | None => Raise ValueError end
  | v => b ← canonical_json_tree v; Ok (u "json", b)
  end.

Definition decode_execution (kind : pystr) (buffer : pybytes) : py pyval :=
  if str_eqb kind (u "none") then Ok PNone
  else if str_eqb kind (u "text") then
    match utf8_decode buffer with Some s => Ok (PStr s) | None => Raise ValueError end
  else if str_eqb kind (u "json") then parse_json buffer
  else Raise invalid.

Definition consume (id : nat) : op pyval :=
  e ← envelope_of id;
  verify_for id (es_key (estate e)) true;;
  value ← lift (decode_execution (es_kind (estate e)) (es_buffer (estate e)));
  close id;;
  mret value.

(** The properties [target], [resource_hash], [request] and [client_scope_hash]. *)
Definition target_of (id : nat) : op (action_target * pystr) :=
  e ← envelope_of id;
  verify_for id (es_key (estate e)) false;;
  lift (match object e with
        | PreparedTarget target resource_hash _ => Ok (target, resource_hash)
        | _ => Raise AttributeError
        end).

Definition request_of (id : nat) : op (attr * pystr) :=
  e ← envelope_of id;
  verify_for id (es_key (estate e)) false;;
  lift (match object e with
        | PreparedAction request client_scope_hash _ => Ok (request, client_scope_hash)
        | _ => Raise AttributeError
        end).

(** [_PreparedTarget(...)] and [_PreparedAction(...)]. *)
Definition new_envelope (key : pybytes) (o : prepared) (kind : pystr) (buffer nonce : pybytes) : op nat :=
  m ← lift (metadata o);
  add_envelope (Envelope o (new_execution_state key kind buffer nonce m (domain o))).

(** ** The builder *)
Record builder := Builder { b_adapter : attr; b_seal_key : pybytes }.

(** [ActionRequestBuilder(...)]; [entropy] is the result of
    [secrets.token_bytes(32)], [None] if it raises. *)
Definition make_builder (adapter_id adapter_version host_version : pystr) (entropy : option pybytes)
    : py builder :=
  adapter ← except_raise is_argument_error invalid
    (adapter ← wire_adapter adapter_id adapter_version host_version;
     validate_structural adapter;;
     Ok adapter);
  match entropy with Some key => Ok (Builder adapter key) | None => Raise RuntimeError end.

(** The text under a key of a validated target. *)
Definition text_item (v : pyval) (k : string) : py pystr :=
  match get v k with Some (PStr s) => Ok s | Some _ => Raise TypeError | None => Raise KeyError end.

(** [except (TypeError, ValueError, CanonicalizationError)]. *)
Definition is_target_error (e : exn) : bool :=
  match e with TypeError => true | _ => is_value_error e end.

Definition prepared_target (b : builder) (kind service : pystr) (prepared : PreparedResource)
    (nonce : pybytes) : op nat :=
  op_except is_target_error invalid
    (document ← lift (build_target kind service prepared);
     canonical ← lift (validated_target document);
     kind ← lift (text_item canonical "kind");
     service ← lift (text_item canonical "service");
     resource ← lift (text_item canonical "resource");
     target ← lift (make_action_target kind service resource);
     resource_hash ← lift (text_item canonical "resourceHash");
     '(execution_kind, buffer) ← lift (encode_execution (execution prepared));
     new_envelope (b_seal_key b) (PreparedTarget target resource_hash nonce) execution_kind buffer nonce).

Definition prepare_path_target (b : builder) (service path cwd : pystr) (nonce : pybytes) : op nat :=
  prepared ← lift (prepare_path_resource path cwd);
  prepared_target b (u "local-action") service prepared nonce.

Definition prepare_url_target (b : builder) (service value : pystr) (sensitive_query_keys : list pystr)
    (nonce : pybytes) : op nat :=
  prepared ← lift (prepare_url_resource value sensitive_query_keys);
  prepared_target b (u "local-action") service prepared nonce.

Definition prepare_shell_target (b : builder) (service command : pystr) (names : list pystr)
    (nonce : pybytes) : op nat :=
  prepared ← lift (prepare_shell_resource command names);
  prepared_target b (u "local-action") service prepared nonce.

Definition prepare_mcp_target (b : builder) (server tool : pystr) (tool_input : pyval) (nonce : pybytes)
    : op nat :=
  prepared ← lift (prepare_mcp_resource server tool tool_input);
  prepared_target b (u "mcp-tool") server prepared nonce.

Definition prepare_generic_target (b : builder) (target : action_target) (nonce : pybytes) : op nat :=
  op_except is_argument_error invalid
    (checked ← lift (make_action_target (at_kind target) (at_service target) (at_resource target));
     resource ← lift (nfc "invalid_target_resource" (at_resource checked));
     prepared_target b (at_kind checked) (at_service checked)
       {| resource := resource; execution := PNone |} nonce).

(** [isinstance(value, _PreparedTarget)] and [isinstance(value, _PreparedAction)]. *)
Definition is_target (o : prepared) : bool := match o with PreparedTarget _ _ _ => true | _ => false end.
Definition is_action (o : prepared) : bool := match o with PreparedAction _ _ _ => true | _ => false end.

Definition checked_target (b : builder) (id : nat) : op nat :=
  e ← envelope_of id;
  lift (raise_if (negb (is_target (object e))) invalid);;
  verify_for id (b_seal_key b) true;;
  mret id.

(** ** New intents *)

(** [value if value is not None else self._new_id(kind)]. *)
Definition supplied_or_new (value : option pystr) (kind : string) (o : observation) : op pystr :=
  match value with Some s => mret s | None => new_id kind o end.

(** [value.split("_", 1)[-1]]. *)
Definition after_prefix (value : pystr) : pystr :=
  match partition 95 value with Some (_, rest) => rest | None => value end.

Definition generated_value (supplied : option pystr) (value : pystr) : list pystr :=
  match supplied with Some _ => [] | None => [value] end.

(** What one call draws for identifiers: an observation per kind. *)
Record id_observations := IdObservations {
  obs_action : observation; obs_correlation : observation;
  obs_request : observation; obs_idempotency : observation
}.

Definition new_intent (b : builder) (action : pystr) (target : nat) (side_effect : pystr)
    (task_context : option task_context) (action_id correlation_id causation_id : option pystr)
    (o : id_observations) : op action_request :=
  checked ← checked_target b target;
  match task_context with
  | None => lift (Raise invalid)
  | Some bound =>
      op_except is_argument_error invalid
        (task ← lift (make_task_context (TaskScope.task_id bound) (TaskScope.session_id bound));
         action_value ← supplied_or_new action_id "action" (obs_action o);
         correlation ← supplied_or_new correlation_id "correlation" (obs_correlation o);
         request ← new_id "request" (obs_request o);
         idempotency ← new_id "idempotency" (obs_idempotency o);
         let generated :=
           generated_value action_id action_value ++ generated_value correlation_id correlation
           ++ [request; idempotency] in
         lift (raise_if (negb (bool_decide (NoDup (after_prefix <$> generated)))) invalid);;
         '(target, _) ← target_of checked;
         lift (make_action_request (ActionRequest action target task side_effect correlation idempotency
           (Some action_value) (Some request) causation_id None)))
  end.

(** ** Requests *)

(** [_timestamp(lambda: datetime.now(UTC))], for the time that the clock gives. *)
Definition render_now (now : datetime * Z) : pystr :=
  strftime now.1 ++ (if now.2 =? 0 then [] else u "." ++ pad_digits 6 now.2) ++ u "Z".

Definition safe_text (value : option pystr) : py (option attr) :=
  except_raise is_target_error invalid (wire_or_none SafeText value).

(** The optional texts of [build]. *)
Record context_texts := ContextTexts {
  ct_cwd : option pystr; ct_repository : option pystr;
  ct_tool_name : option pystr; ct_safe_display : option pystr
}.

Definition wire_context (c : context_texts) : py attr :=
  cwd ← safe_text (ct_cwd c);
  repository ← safe_text (ct_repository c);
  tool_name ← safe_text (ct_tool_name c);
  safe_display ← safe_text (ct_safe_display c);
  Ok (make ActionContext [cwd; repository; tool_name; safe_display; None]).

(** The end of [build]: the execution moves from the target to a new action.  The
    state is verified again under its lock. *)
Definition transfer (b : builder) (target : nat) (request : attr) (client_scope_hash : pystr)
    (nonce : pybytes) : op nat :=
  verify_for target (b_seal_key b) true;;
  state ← verify_for target (b_seal_key b) true;
  e ← envelope_of target;
  close target;;
  match object e with
  | PreparedTarget _ _ target_nonce =>
      new_envelope (b_seal_key b) (PreparedAction request client_scope_hash target_nonce)
        (es_kind state) (es_buffer state) nonce
  | _ => lift (Raise AttributeError)
  end.

Definition build (b : builder) (intent : action_request) (prepared : option nat) (texts : context_texts)
    (now : datetime * Z) (target_nonce nonce : pybytes) : op nat :=
  op_except is_argument_error invalid
    (checked ← lift (make_action_request intent);
     match ar_action_id checked, ar_request_id checked with
     | Some action_id, Some request_id =>
         target ← match prepared with
                  | None => prepare_generic_target b (ar_target checked) target_nonce
                  | Some id => checked_target b id
                  end;
         '(t, resource_hash) ← target_of target;
         lift (raise_if (negb (bool_decide (t = ar_target checked))) invalid);;
         canonical ← lift (validated_target
                             (target_document (at_kind t) (at_service t) (at_resource t) resource_hash));
         kind ← lift (text_item canonical "kind");
         service ← lift (text_item canonical "service");
         resource ← lift (text_item canonical "resource");
         hash ← lift (text_item canonical "resourceHash");
         context ← lift (wire_context texts);
         request ← lift (wire_action checked action_id request_id (render_now now) hash (b_adapter b) context
                           (ActionTarget kind service resource));
         lift (validate_structural request);;
         document ← lift (to_dict request);
         scope_hash ← lift (client_scope_hash document);
         transfer b target request scope_hash nonce
     | _, _ => lift (Raise invalid)
     end).

(** ** Resuming *)

(** [==] of attributes: strings by their text, JSON values as in Python, objects of
    one class by their attributes. *)
Definition scalar_value (a : attr) : pyval :=
  match a with AStr s => PStr s | AInt z => PInt z | ARaw v => v | ADto _ _ => PAbsent end.
Fixpoint attr_eqb (a b : attr) {struct a} : bool :=
  match a, b with
  | ADto c l, ADto c' m =>
      bool_decide (class_name c = class_name c') &&
      (fix go (l m : list (string * string * option attr)) : bool :=
         match l, m with
         | [], [] => true
         | (_, _, x) :: l', (_, _, y) :: m' =>
             match x, y with
             | None, None => true
             | Some x, Some y => attr_eqb x y
             | _, _ => false
             end && go l' m'
         | _, _ => false
         end) l m
  | ADto _ _, _ | _, ADto _ _ => false
  | _, _ => py_eqb (scalar_value a) (scalar_value b)
  end.
Definition same_attribute (name : string) (a b : attr) : bool :=
  match attribute name a, attribute name b with
  | Some x, Some y => attr_eqb x y
  | None, None => true
  | _, _ => false
  end.

(** An attribute passed as an identifier to an error. *)
Definition identifier_text (name : string) (v : attr) : option pystr :=
  match attribute name v with Some (AStr s) | Some (ARaw (PStr s)) => Some s | _ => None end.

Definition scope_mismatch (request : attr) (decision_id : pystr) : exn :=
  PaloNexusError (sdk_error_init CApprovalScopeMismatch (identifier_text "request_id" request)
    (Some decision_id) (identifier_text "correlation_id" request)).

(** The attributes that a resumed attempt shares with the original one. *)
Definition RESUME_ATTRIBUTES : list string :=
  ["action_id"; "correlation_id"; "task"; "adapter"; "action"; "target"; "side_effect"]%string.

(** The request of the resumed attempt, from that of the current one. *)
Definition resumed_request (checked : attr) (request_id idempotency_key : pystr) (now : datetime * Z)
    (prior_decision_id approval_id : pystr) : py attr :=
  request_id ← wire RequestID request_id;
  idempotency_key ← wire AuthorizationIdempotencyKey idempotency_key;
  occurred_at ← wire RFC3339Timestamp (render_now now);
  causation_id ← wire CausationID prior_decision_id;
  resume_from_approval_id ← wire ApprovalID approval_id;
  let same name := attribute name checked in
  Ok (make Wire.ActionRequest
        [same "schema_version"; same "action_id"; request_id; same "correlation_id"; idempotency_key;
         same "adapter"; same "task"; same "action"; same "target"; same "side_effect"; occurred_at;
         same "context"; causation_id; resume_from_approval_id; None]%string).

(** The observations and random bytes of [_prepare_resume]. *)
Record resume_observations := ResumeObservations {
  ro_request : observation; ro_idempotency : observation; ro_now : datetime * Z; ro_nonce : pybytes
}.

Definition prepare_resume (b : builder) (original current : nat) (prior_decision_id approval_id : pystr)
    (o : resume_observations) : op nat :=
  e ← envelope_of original;
  e' ← envelope_of current;
  lift (raise_if (negb (is_action (object e)) || negb (is_action (object e')) || (current =? original)%nat) invalid);;
  verify_for original (b_seal_key b) true;;
  verify_for current (b_seal_key b) true;;
  op_except is_argument_error invalid
    (lift (wire DecisionID prior_decision_id);;
     lift (wire ApprovalID approval_id);;
     '(prior, original_scope) ← request_of original;
     '(checked, current_scope) ← request_of current;
     lift (raise_if (negb (forallb (λ name, same_attribute name checked prior) RESUME_ATTRIBUTES)
                     || negb (str_eqb current_scope original_scope)
                     || same_attribute "request_id" checked prior
                     || same_attribute "idempotency_key" checked prior)
             (scope_mismatch prior prior_decision_id));;
     request_id ← new_id "request" (ro_request o);
     idempotency_key ← new_id "idempotency" (ro_idempotency o);
     resumed ← lift (resumed_request checked request_id idempotency_key (ro_now o) prior_decision_id approval_id);
     lift (validate_structural resumed);;
     lift (raise_if (same_attribute "request_id" resumed prior || same_attribute "request_id" resumed checked
                     || same_attribute "idempotency_key" resumed prior
                     || same_attribute "idempotency_key" resumed checked) invalid);;
     document ← lift (to_dict resumed);
     scope_hash ← lift (client_scope_hash document);
     lift (raise_if (negb (str_eqb scope_hash original_scope)) (scope_mismatch resumed prior_decision_id));;
     verify_for current (b_seal_key b) true;;
     state ← verify_for current (b_seal_key b) true;
     lift (match object e' with
           | PreparedAction _ _ target_nonce => Ok target_nonce
           | _ => Raise AttributeError
           end) ≫= λ target_nonce,
     op_except is_exception invalid
       (new_envelope (b_seal_key b) (PreparedAction resumed scope_hash target_nonce)
          (es_kind state) (es_buffer state) (ro_nonce o))).

Definition commit_resume (b : builder) (original current resumed : nat) : op () :=
  e ← envelope_of original;
  e' ← envelope_of current;
  e'' ← envelope_of resumed;
  lift (raise_if (negb (is_action (object e)) || negb (is_action (object e')) || negb (is_action (object e''))) invalid);;
  verify_for original (b_seal_key b) true;;
  verify_for current (b_seal_key b) true;;
  verify_for resumed (b_seal_key b) true;;
  op_except is_argument_error invalid
    ('(r, resumed_scope) ← request_of resumed;
     '(p, original_scope) ← request_of original;
     '(_, current_scope) ← request_of current;
     lift (raise_if (negb (forallb (λ name, same_attribute name r p) ["action_id"; "correlation_id"; "task"]%string)
                     || negb (str_eqb resumed_scope original_scope)
                     || negb (str_eqb current_scope original_scope)) invalid);;
     verify_for original (b_seal_key b) true;;
     verify_for current (b_seal_key b) true;;
     verify_for resumed (b_seal_key b) true;;
     close original;;
     close current).

(** [try: m except BaseException: cleanup; raise]. *)
Definition on_error {A} (m : op A) (cleanup : op ()) : op A := λ w,
  match m w with
  | (Ok a, w) => (Ok a, w)
  | (Raise e, w) => match cleanup w with (Ok _, w) => (Raise e, w) | (Raise e', w) => (Raise e', w) end
  end.

(** [resume]: a candidate that cannot be committed is closed. *)
Definition resume (b : builder) (original current : nat) (prior_decision_id approval_id : pystr)
    (o : resume_observations) : op nat :=
  resumed ← prepare_resume b original current prior_decision_id approval_id o;
  on_error (commit_resume b original current resumed;; mret resumed) (close resumed).

(** [_restore_original_for_resume]: the authorization half of a stored action. *)
Definition restore_original_for_resume (b : builder) (request_document : pyval) (scope_hash : pystr)
    (target_nonce nonce : pybytes) : op nat :=
  op_except (λ e, is_argument_error e || bool_decide (e = KeyError)) invalid
    (lift (match request_document with PDict _ => Ok () | _ => Raise TypeError end);;
     request ← lift (parse_action request_document);
     lift (validate_structural request);;
     document ← lift (to_dict request);
     lift (raise_if (negb match attribute "adapter" request with
                          | Some adapter => attr_eqb adapter (b_adapter b) | None => false end
                     || bool_decide (is_Some (given (attribute "resume_from_approval_id" request)))) ValueError);;
     computed ← lift (client_scope_hash document);
     lift (raise_if (negb (str_eqb computed scope_hash)) ValueError);;
     target ← lift (match attribute "target" request with Some t => Ok t | None => Raise AttributeError end);
     target_document ← lift (to_dict target);
     canonical ← lift (validated_target target_document);
     hash ← lift (text_item canonical "resourceHash");
     expected ← lift (str_of (attribute "resource_hash" target));
     lift (raise_if (negb (str_eqb hash expected)) ValueError);;
     kind ← lift (str_of (attribute "kind" target));
     new_envelope (b_seal_key b) (PreparedAction request scope_hash target_nonce) kind [] nonce).

End envelopes.
