(* ===== verification/Executions.v ===== *)
(** * Executions happen at most once

    A program prepares targets, builds actions from them, resumes actions after an
    approval and consumes envelopes, in any order and from any number of threads.
    Whatever it does, the value that was prepared for a target is handed out at
    most once, and it is the value that was prepared. *)

From stdpp Require Import base list list_numbers numbers strings gmap.
From S2P Require Import Prelude PyString Sha256 Regex Errors Timestamp PyValue Schemas Decimal Unicode.
From S2P Require Import Structure Wire Identifiers TaskScope Interfaces CanonicalJson JsonRoundTrip.
From S2P Require Import CanonicalFacts.
From S2P Require Import Approvals Models PyUrl Shell Resources CanonicalPath CanonicalUrl Scope Envelope.
Open Scope Z_scope.

(** ** Reasoning about operations

    [wp m w Q R]: in the world [w] the operation returns into [Q] or raises into
    [R]. *)
Definition wp {A} (m : op A) (w : world) (Q : A → world → Prop) (R : world → Prop) : Prop :=
  match m w with (Ok a, w') => Q a w' | (Raise _, w') => R w' end.

Lemma wp_bind {A B} (m : op A) (f : A → op B) w Q R :
  wp m w (λ a w', wp (f a) w' Q R) R → wp (m ≫= f) w Q R.
Proof. unfold wp, mbind, op_bind. by destruct (m w) as [[a|e] w']. Qed.

Lemma wp_mono {A} (m : op A) w (Q Q' : A → world → Prop) (R R' : world → Prop) :
  wp m w Q R → (∀ a w', Q a w' → Q' a w') → (∀ w', R w' → R' w') → wp m w Q' R'.
Proof. unfold wp. destruct (m w) as [[a|e] w']; auto. Qed.

Lemma wp_lift {A} (m : py A) w Q R : (∀ a, m = Ok a → Q a w) → R w → wp (lift m) w Q R.
Proof. unfold wp, lift. destruct m; auto. Qed.

Lemma wp_ret {A} (a : A) w Q R : Q a w → wp (mret a) w Q R.
Proof. done. Qed.

Lemma wp_except {A} p e (m : op A) w Q R : wp m w Q R → wp (op_except p e m) w Q R.
Proof. unfold wp, op_except. destruct (m w) as [[a|e'] w']; [done|]. cbn. by destruct (p e'). Qed.

Lemma wp_envelope_of id w Q R :
  (∀ e, envelopes w !! id = Some e → Q e w) → R w → wp (envelope_of id) w Q R.
Proof. unfold wp, envelope_of. destruct (envelopes w !! id); auto. Qed.

Lemma wp_new_id kind o w Q R :
  (∀ s g, Q s (World (next_id w) (envelopes w) g)) → (∀ g, R (World (next_id w) (envelopes w) g)) →
  wp (new_id kind o) w Q R.
Proof.
  intros HQ HR. unfold wp, new_id. destruct (new kind o (identifiers w)) as [[s|e] g]; cbn; [apply HQ|apply HR].
Qed.

(** The world with one more envelope, and with one closed. *)
Definition added (e : envelope) (w : world) : world :=
  World (S (next_id w)) (<[next_id w := e]> (envelopes w)) (identifiers w).
Definition with_closed (id : nat) (e : envelope) (w : world) : world :=
  World (next_id w) (<[id := Envelope (object e) (close_state (estate e))]> (envelopes w)) (identifiers w).

Lemma wp_close id w Q R :
  (∀ e, envelopes w !! id = Some e → Q () (with_closed id e w)) → (envelopes w !! id = None → R w) →
  wp (close id) w Q R.
Proof. intros HQ HR. unfold wp, close. destruct (envelopes w !! id) as [e|]; [by apply HQ|by apply HR]. Qed.

Section facts.
Context `{UnicodeData} `{UrlData}.

Lemma verify_open s key d m : verify s key d m true = Ok () →
  es_closed s = false ∧ execution_hash (es_kind s) (es_buffer s) = es_execution_digest s ∧
  m = es_metadata s ∧ key = es_key s.
Proof. unfold verify. intros Hv. inv_ok. by refl_bool. Qed.

Lemma wp_verify_for id key require_open w Q R :
  (∀ e, envelopes w !! id = Some e → (require_open = true → es_closed (estate e) = false) → Q (estate e) w) →
  R w → wp (verify_for id key require_open) w Q R.
Proof.
  intros HQ HR. unfold verify_for. apply wp_bind, wp_envelope_of; [|done]. intros e He.
  apply wp_bind, wp_lift; [|done]. intros m _. apply wp_bind, wp_lift; [|done]. intros [] Hv.
  apply wp_ret, HQ; [done|]. intros ->. by apply verify_open in Hv as [? _].
Qed.

Lemma wp_new_envelope key o kind buffer nonce w Q R :
  (∀ m, Q (next_id w) (added (Envelope o (new_execution_state key kind buffer nonce m (domain o))) w)) →
  R w → wp (new_envelope key o kind buffer nonce) w Q R.
Proof. intros HQ HR. unfold new_envelope. apply wp_bind, wp_lift; [|done]. intros m _. apply HQ. Qed.

Lemma wp_target_of id w Q R :
  (∀ r, Q r w) → R w → wp (target_of id) w Q R.
Proof.
  intros HQ HR. unfold target_of. apply wp_bind, wp_envelope_of; [|done]. intros e _.
  apply wp_bind, wp_verify_for; [|done]. intros _ _ _. by apply wp_lift.
Qed.

Lemma wp_request_of id w Q R :
  (∀ e r h n, envelopes w !! id = Some e → object e = PreparedAction r h n → Q (r, h) w) → R w →
  wp (request_of id) w Q R.
Proof.
  intros HQ HR. unfold request_of. apply wp_bind, wp_envelope_of; [|done]. intros e He.
  apply wp_bind, wp_verify_for; [|done]. intros _ _ _. apply wp_lift; [|done]. intros [r h].
  destruct (object e) as [|r' h' n] eqn:E; [done|]. intros [= -> ->]. by eapply HQ.
Qed.

End facts.

(** Symbolic execution of an operation. *)
Ltac wp_step :=
  cbv beta iota zeta;
  lazymatch goal with
  | |- wp (_ ≫= _) _ _ _ => apply wp_bind
  | |- wp (op_except _ _ _) _ _ _ => apply wp_except
  | |- wp (lift _) _ _ _ => apply wp_lift; [intros ? ?|try assumption]
  | |- wp (mret _) _ _ _ => apply wp_ret
  | |- wp (envelope_of _) _ _ _ => apply wp_envelope_of; [intros ? ?|try assumption]
  | |- wp (verify_for _ _ _) _ _ _ => apply wp_verify_for; [intros ? ? ?|try assumption]
  | |- wp (target_of _) _ _ _ => apply wp_target_of; [intros ?|try assumption]
  | |- wp (request_of _) _ _ _ => apply wp_request_of; [intros ? ? ? ? ? ?|try assumption]
  | |- wp (let '(_, _) := ?p in _) _ _ _ => destruct p
  end.

(** ** Attributes of parsed objects *)

(** An attribute of an object that [_from_dict] made is the result of a conversion
    of the class. *)
Lemma convert_attribute cls fs v d name x :
  convert (Nested cls fs) v = Ok d → attribute name d = Some x →
  ∃ f y, f ∈ fs ∧ attribute_name f = name ∧ convert (conversion f) y = Ok x.
Proof.
  cbn [convert]. intros (attrs & Hgo & Hd)%bind_Ok_iff. inv_ok. revert attrs Hgo.
  induction fs as [|[[[a n] o] c] fs IH]; intros attrs Hgo Hx; [inv_ok; done|].
  apply bind_Ok_iff in Hgo as (z & Hr & (rest & Hrest & Hgo)%bind_Ok_iff). inv_ok.
  unfold attribute in Hx. cbn [list_find fst snd] in Hx. case_decide as Hn; cbn in Hx.
  - subst. unfold read_member in Hr. destruct (o && _); inv_ok; [done|].
    eexists (name, n, o, c), _. split; [by left|]. split; [done|]. done.
  - destruct (IH rest Hrest) as (g & y & Hg & ? & ?); [|exists g, y; split; [by right|done]].
    unfold attribute. by destruct (list_find _ _) as [[i f]|].
Qed.

(** The kind of a parsed target is not the kind of an execution. *)
Lemma parsed_target_kind v r t kind :
  parse_action v = Ok r → attribute "target" r = Some t → str_of (attribute "kind" t) = Ok kind →
  kind ∈ u "None" :: TargetKinds.
Proof.
  unfold parse_action, parse_with, from_dict, nested. intros (d & _ & Hr)%bind_Ok_iff Ht Hk.
  destruct (convert_attribute _ _ _ _ _ _ Hr Ht) as (f & y & Hf & Hn & Hc).
  assert (conversion f = nested Wire.ActionTarget) as Hcf.
  { apply list_elem_of_In in Hf. cbn in Hf. by repeat destruct Hf as [<-|Hf]. }
  rewrite Hcf in Hc. unfold nested in Hc.
  destruct (attribute "kind" t) as [k|] eqn:Ek; [|cbn in Hk; inv_ok; by left].
  destruct (convert_attribute _ _ _ _ _ _ Hc Ek) as (g & z & Hg & Hm & Hz).
  assert (conversion g = TargetKind) as Hcg.
  { apply list_elem_of_In in Hg. cbn in Hg. by repeat destruct Hg as [<-|Hg]. }
  rewrite Hcg in Hz. cbn [convert TargetKind] in Hz. unfold wire_enum in Hz.
  destruct z; try done. case_bool_decide as Hin; [|done]. inv_ok. cbn in Hk. inv_ok. by right.
Qed.

Section programs.
Context `{UnicodeData} `{UrlData}.

(** ** Programs *)

(** The target an envelope comes from. *)
Definition lineage (o : prepared) : pybytes :=
  match o with PreparedTarget _ _ n | PreparedAction _ _ n => n end.

(** A world with what a program has done in it: the resume candidates that are not
    committed yet, with the original and the current action they were prepared
    from; the values that were consumed, by target; and the values that were
    prepared, by target. *)
Record system := System {
  sworld : world;
  candidates : list (nat * nat * nat);
  executed : list (pybytes * pyval);
  prepared_values : list (pybytes * pyval);
}.

Definition private (cands : list (nat * nat * nat)) (id : nat) : Prop := id ∈ cands.*2.
#[global] Instance private_dec cands id : Decision (private cands id).
Proof. unfold private. apply _. Defined.

(** A nonce that was not drawn before. *)
Definition fresh_nonce (s : system) (n : pybytes) : Prop :=
  (n ∉ (executed s).*1) ∧ (n ∉ (prepared_values s).*1) ∧
  ∀ id e, envelopes (sworld s) !! id = Some e → lineage (object e) ≠ n.

(** The four ways to prepare a target with a value to execute. *)
Definition prepare_target (b : builder) (service : pystr) (r : request) (nonce : pybytes) : op nat :=
  match r with
  | RPath path cwd => prepare_path_target b service path cwd nonce
  | RUrl value keys => prepare_url_target b service value keys nonce
  | RShell command names => prepare_shell_target b service command names nonce
  | RMcp server tool input => prepare_mcp_target b server tool input nonce
  end.

Definition logged (nonce : pybytes) (r : py PreparedResource) : list (pybytes * pyval) :=
  match r with Ok p => [(nonce, execution p)] | Raise _ => [] end.

Definition lineage_of (id : nat) (w : world) : pybytes :=
  from_option (λ e, lineage (object e)) [] (envelopes w !! id).

Definition without (id : nat) (cands : list (nat * nat * nat)) : list (nat * nat * nat) :=
  filter (λ t, t.2 ≠ id) cands.

(** One operation of a program.  Envelopes that are still private to a resume are
    not used by other operations; nonces are fresh. *)
Inductive step (b : builder) (s : system) : system → Prop :=
| step_prepare service r nonce x w :
    fresh_nonce s nonce → prepare_target b service r nonce (sworld s) = (x, w) →
    step b s (System w (candidates s) (executed s) (prepared_values s ++ logged nonce (prepare r)))
| step_generic target nonce x w :
    fresh_nonce s nonce → prepare_generic_target b target nonce (sworld s) = (x, w) →
    step b s (System w (candidates s) (executed s) (prepared_values s ++ [(nonce, PNone)]))
| step_new action target side_effect task action_id correlation_id causation_id o x w :
    new_intent b action target side_effect task action_id correlation_id causation_id o (sworld s) = (x, w) →
    step b s (System w (candidates s) (executed s) (prepared_values s))
| step_build intent target texts now target_nonce nonce x w :
    fresh_nonce s target_nonce → build b intent target texts now target_nonce nonce (sworld s) = (x, w) →
    step b s (System w (candidates s) (executed s) (prepared_values s ++ [(target_nonce, PNone)]))
| step_restore document scope_hash target_nonce nonce x w :
    fresh_nonce s target_nonce →
    restore_original_for_resume b document scope_hash target_nonce nonce (sworld s) = (x, w) →
    step b s (System w (candidates s) (executed s) (prepared_values s))
| step_prepare_resume original current decision_id approval_id o x w :
    ¬ private (candidates s) original → ¬ private (candidates s) current →
    prepare_resume b original current decision_id approval_id o (sworld s) = (x, w) →
    step b s (System w (candidates s ++ match x with Ok id => [(original, current, id)] | Raise _ => [] end)
                (executed s) (prepared_values s))
| step_commit original current id x w :
    (original, current, id) ∈ candidates s →
    on_error (commit_resume b original current id) (close id) (sworld s) = (x, w) →
    step b s (System w (without id (candidates s)) (executed s) (prepared_values s))
| step_discard original current id x w :
    (original, current, id) ∈ candidates s → close id (sworld s) = (x, w) →
    step b s (System w (without id (candidates s)) (executed s) (prepared_values s))
| step_consume id x w :
    ¬ private (candidates s) id → consume id (sworld s) = (x, w) →
    step b s (System w (candidates s)
                (executed s ++ match x with Ok v => [(lineage_of id (sworld s), v)] | Raise _ => [] end)
                (prepared_values s))
| step_close id x w :
    ¬ private (candidates s) id → close id (sworld s) = (x, w) →
    step b s (System w (candidates s) (executed s) (prepared_values s)).

Inductive reachable (b : builder) : system → Prop :=
| reachable_start g : reachable b (System (World 0 ∅ g) [] [] [])
| reachable_next s s' : reachable b s → step b s s' → reachable b s'.

(** ** The invariant *)

(** What [consume] delivers for a prepared value. *)
Definition delivered (v : pyval) : pyval :=
  match v with PNone => PNone | PStr s => PStr s | v => canon v end.

Lemma decode_encode v kind b :
  encode_execution v = Ok (kind, b) → decode_execution kind b = Ok (delivered v).
Proof.
  destruct v; cbn [encode_execution]; intros Hv; inv_ok; try done;
    try (by apply canonical_json_tree_round_trip).
  destruct (utf8_encode s) as [b'|] eqn:E; inv_ok. unfold decode_execution.
  change (str_eqb (u "text") (u "none")) with false. change (str_eqb (u "text") (u "text")) with true.
  cbv iota. by rewrite (utf8_decode_encode _ _ E).
Qed.

(** The contents of an open envelope: a value that was prepared for its target, or
    nothing that can be decoded. *)
Definition contents_ok (values : list (pybytes * pyval)) (e : envelope) : Prop :=
  (∃ v, (lineage (object e), v) ∈ values ∧
        encode_execution v = Ok (es_kind (estate e), es_buffer (estate e))) ∨
  (∀ b, decode_execution (es_kind (estate e)) b = Raise invalid).

Definition is_open (e : envelope) : Prop := es_closed (estate e) = false.

Record invariant (cands : list (nat * nat * nat)) (spent values : list (pybytes * pyval)) (w : world) : Prop := {
  i_ids id e : envelopes w !! id = Some e → (id < next_id w)%nat;
  i_unique id id' e e' :
    envelopes w !! id = Some e → envelopes w !! id' = Some e' → is_open e → is_open e' →
    ¬ private cands id → ¬ private cands id' → lineage (object e) = lineage (object e') → id = id';
  i_spent n id e :
    n ∈ spent.*1 → envelopes w !! id = Some e → is_open e → lineage (object e) = n → private cands id;
  i_candidates o c x : (o, c, x) ∈ cands → ¬ private cands c ∧
    ∃ e e', envelopes w !! c = Some e ∧ envelopes w !! x = Some e' ∧ is_action (object e') = true ∧
      lineage (object e) = lineage (object e');
  i_contents id e : envelopes w !! id = Some e → is_open e → contents_ok values e;
  i_executed n v : (n, v) ∈ spent → ∃ v', (n, v') ∈ values ∧ v = delivered v';
  i_once : NoDup spent.*1;
  i_prepared : NoDup values.*1;
}.

Section preservation.
Context (cands : list (nat * nat * nat)) (spent values : list (pybytes * pyval)).
Abbreviation inv := (invariant cands spent values).

Lemma invariant_generator w g : inv w → inv (World (next_id w) (envelopes w) g).
Proof. by intros []. Qed.

Lemma close_not_open e : ¬ is_open (Envelope (object e) (close_state (estate e))).
Proof. unfold is_open, close_state. cbn. by destruct (es_closed (estate e)) eqn:E; rewrite ?E. Qed.

(** An open envelope of the world in which [id] is closed was open before. *)
Lemma lookup_closed id e w id' e' :
  envelopes w !! id = Some e → envelopes (with_closed id e w) !! id' = Some e' →
  (∃ e0, envelopes w !! id' = Some e0 ∧ object e0 = object e') ∧
  (is_open e' → id' ≠ id ∧ envelopes w !! id' = Some e').
Proof.
  intros He. cbn. rewrite lookup_insert_Some. intros [[<- <-]|[Hne He']].
  - split; [by exists e|]. by intros ?%close_not_open.
  - split; [by exists e'|]. auto.
Qed.

Lemma invariant_close id e w : inv w → envelopes w !! id = Some e → inv (with_closed id e w).
Proof.
  intros [Hids Huniq Hspent Hc Hcont Hex Honce Hprep] He.
  pose proof (λ i e', lookup_closed id e w i e' He) as Hl. split; [..|done|done|done].
  - intros i e' [(e0 & H' & _) _]%Hl. by apply (Hids _ _ H').
  - intros i j e1 e2 [_ H1]%Hl [_ H2]%Hl O1 O2. destruct (H1 O1) as [_ ?], (H2 O2) as [_ ?]. by eapply Huniq.
  - intros n i e' Hn [_ H']%Hl O. destruct (H' O) as [_ ?]. by eapply Hspent.
  - intros o c x (Hp & e1 & e2 & L1 & L2 & Ha & Hlin)%Hc. split; [done|].
    assert (∀ i e', envelopes w !! i = Some e' →
      ∃ e'', envelopes (with_closed id e w) !! i = Some e'' ∧ object e'' = object e') as Hk.
    { intros i e' Hi. cbn. destruct (decide (i = id)) as [->|Hne].
      - rewrite lookup_insert_eq. eexists. split; [done|]. cbn. congruence.
      - rewrite lookup_insert_ne by done. by exists e'. }
    destruct (Hk _ _ L1) as (f1 & ? & Ho1), (Hk _ _ L2) as (f2 & ? & Ho2).
    exists f1, f2. rewrite Ho1, Ho2. done.
  - intros i e' [_ H']%Hl O. destruct (H' O) as [_ ?]. by eapply Hcont.
Qed.

(** A new envelope of a target that has no other open one. *)
Lemma invariant_add e w :
  inv w → (∀ id e', envelopes w !! id = Some e' → is_open e' → lineage (object e') = lineage (object e) → private cands id) →
  lineage (object e) ∉ spent.*1 → contents_ok values e → inv (added e w).
Proof.
  intros [Hids Huniq Hspent Hc Hcont Hex Honce Hprep] Hfree Hn Hok.
  assert (envelopes w !! next_id w = None) as Hnew.
  { destruct (envelopes w !! next_id w) as [e'|] eqn:E; [|done]. apply Hids in E. lia. }
  split; [..|done|done|done]; cbn.
  - intros i e'. rewrite lookup_insert_Some. intros [[<- _]|[_ H'%Hids]]; lia.
  - intros i j e1 e2. rewrite !lookup_insert_Some.
    intros [[<- <-]|[_ H1]] [[<- <-]|[_ H2]] O1 O2 P1 P2 Hlin; [done|..|by eapply Huniq].
    + by destruct P2; eapply Hfree.
    + by destruct P1; eapply Hfree.
  - intros n i e' Hin. rewrite lookup_insert_Some. intros [[<- <-]|[_ H']] O Hlin; [|by eapply Hspent].
    by destruct Hn; rewrite Hlin.
  - intros o c x (Hp & e1 & e2 & L1 & L2 & Ha & Hlin)%Hc. split; [done|]. exists e1, e2.
    rewrite !lookup_insert_ne by congruence. done.
  - intros i e'. rewrite lookup_insert_Some. intros [[<- <-]|[_ H']] O; [done|by eapply Hcont].
Qed.

End preservation.

(** ** Every operation keeps the invariant *)
Definition unused (n : pybytes) (w : world) : Prop :=
  ∀ id e, envelopes w !! id = Some e → lineage (object e) ≠ n.

Section operations.
Context (cands : list (nat * nat * nat)) (spent values : list (pybytes * pyval)) (b : builder).
Abbreviation inv := (invariant cands spent values).

Lemma prepared_target_ok kind service p nonce w :
  inv w → unused nonce w → nonce ∉ spent.*1 → (nonce, execution p) ∈ values →
  wp (prepared_target b kind service p nonce) w (λ _, inv) inv.
Proof.
  intros Hw Hn Hs Hv. unfold prepared_target. repeat wp_step.
  apply wp_new_envelope; [|done]. intros m. apply invariant_add; [done| |done|].
  - intros id e' He' _ Hl. by destruct (Hn id e').
  - left. eexists. split; [exact Hv|]. done.
Qed.

Lemma prepare_target_ok service r nonce w :
  inv w → unused nonce w → nonce ∉ spent.*1 →
  (∀ p, prepare r = Ok p → (nonce, execution p) ∈ values) →
  wp (prepare_target b service r nonce) w (λ _, inv) inv.
Proof.
  intros Hw Hn Hs Hv. destruct r; cbn [prepare_target];
    unfold prepare_path_target, prepare_url_target, prepare_shell_target, prepare_mcp_target;
    repeat wp_step; apply prepared_target_ok; auto.
Qed.

Lemma prepare_generic_target_ok target nonce w :
  inv w → unused nonce w → nonce ∉ spent.*1 → (nonce, PNone) ∈ values →
  wp (prepare_generic_target b target nonce) w (λ _, inv) inv.
Proof.
  intros Hw Hn Hs Hv. unfold prepare_generic_target. repeat wp_step. by apply prepared_target_ok.
Qed.

Lemma new_id_ok kind o w : inv w → wp (new_id kind o) w (λ _, inv) inv.
Proof. intros Hw. apply wp_new_id; intros; by apply invariant_generator. Qed.

Lemma supplied_or_new_ok value kind o w : inv w → wp (supplied_or_new value kind o) w (λ _, inv) inv.
Proof. intros Hw. destruct value; [done|by apply new_id_ok]. Qed.

Lemma checked_target_ok id w : inv w → wp (checked_target b id) w (λ _, inv) inv.
Proof. intros Hw. unfold checked_target. by repeat wp_step. Qed.

Lemma new_intent_ok action target side_effect task action_id correlation_id causation_id o w :
  inv w → wp (new_intent b action target side_effect task action_id correlation_id causation_id o) w (λ _, inv) inv.
Proof.
  intros Hw. unfold new_intent. wp_step. eapply wp_mono; [by apply checked_target_ok| |done].
  intros checked w1 Hw1. destruct task as [t|]; [|by repeat wp_step]. repeat wp_step.
  eapply wp_mono; [by apply supplied_or_new_ok| |done]. intros v1 w2 Hw2. wp_step.
  eapply wp_mono; [by apply supplied_or_new_ok| |done]. intros v2 w3 Hw3. wp_step.
  eapply wp_mono; [by apply new_id_ok| |done]. intros v3 w4 Hw4. wp_step.
  eapply wp_mono; [by apply new_id_ok| |done]. intros v4 w5 Hw5. by repeat wp_step.
Qed.

(** Candidates are actions, so a target is never private. *)
Lemma target_public w id e t h n :
  inv w → envelopes w !! id = Some e → object e = PreparedTarget t h n → ¬ private cands id.
Proof.
  intros Hw He Ho ([[o c] x] & -> & Hin)%list_elem_of_fmap.
  destruct (i_candidates _ _ _ _ Hw _ _ _ Hin) as (_ & e1 & e2 & _ & He2 & Ha & _). cbn in He.
  rewrite He in He2. injection He2 as <-. by rewrite Ho in Ha.
Qed.

(** The envelope that takes over the contents of an open one that is closed. *)
Lemma invariant_transfer w id e o st :
  inv w → envelopes w !! id = Some e → is_open e → ¬ private cands id →
  lineage o = lineage (object e) → es_kind st = es_kind (estate e) → es_buffer st = es_buffer (estate e) →
  inv (added (Envelope o st) (with_closed id e w)).
Proof.
  intros Hw He Ho Hp Hl Hk Hb. apply invariant_add; cbn [object]; [by apply invariant_close|..].
  - intros i e' Hi O Hl'. destruct (lookup_closed id e w i e' He Hi) as [_ [Hne Hi']]; [done|].
    destruct (decide (private cands i)) as [|Hp']; [done|]. destruct Hne.
    apply (i_unique _ _ _ _ Hw i id e' e); [done..|congruence].
  - intros Hs. apply Hp. by apply (i_spent _ _ _ _ Hw (lineage o) id e).
  - destruct (i_contents _ _ _ _ Hw id e He Ho) as [(v & Hv & Henc)|Hd].
    + left. exists v. cbn. by rewrite Hl, Hk, Hb.
    + right. cbn. by rewrite Hk.
Qed.

Lemma transfer_ok target request scope_hash nonce w :
  inv w → wp (transfer b target request scope_hash nonce) w (λ _, inv) inv.
Proof.
  intros Hw. unfold transfer. repeat wp_step. apply wp_close; [|done]. intros env' Henv. same_call.
  match goal with |- context [with_closed target ?e w] => rename e into env end.
  destruct (object env) as [t h n|] eqn:Eo; [|repeat wp_step; by apply invariant_close].
  apply wp_new_envelope; [|by apply invariant_close]. intros m.
  apply invariant_transfer; [done|done|unfold is_open; auto|by eapply target_public|by rewrite Eo|done|done].
Qed.

Lemma build_ok intent target texts now target_nonce nonce w :
  inv w → unused target_nonce w → target_nonce ∉ spent.*1 → (target_nonce, PNone) ∈ values →
  wp (build b intent target texts now target_nonce nonce) w (λ _, inv) inv.
Proof.
  intros Hw Hn Hs Hv. unfold build. repeat wp_step.
  destruct (ar_action_id a), (ar_request_id a); try by repeat wp_step. wp_step.
  eapply wp_mono with (Q := λ _, inv) (R := inv);
    [destruct target; [by apply checked_target_ok|by apply prepare_generic_target_ok]| |done].
  intros id w' Hw'. repeat wp_step. by apply transfer_ok.
Qed.

Lemma restore_original_ok document scope_hash target_nonce nonce w :
  inv w → unused target_nonce w → target_nonce ∉ spent.*1 →
  wp (restore_original_for_resume b document scope_hash target_nonce nonce) w (λ _, inv) inv.
Proof.
  intros Hw Hn Hs. unfold restore_original_for_resume. repeat wp_step.
  apply wp_new_envelope; [|done]. intros m. apply invariant_add; [done| |done|].
  - intros id e' He' _ Hl. by destruct (Hn id e').
  - right. intros bs. cbn.
    match goal with Ht : (match attribute "target" ?r with _ => _ end) = Ok ?t |- _ =>
      destruct (attribute "target" r) as [t'|] eqn:Et; [|done]; injection Ht as -> end.
    match goal with Hp : parse_action _ = Ok _, Hk : str_of (attribute "kind" _) = Ok _ |- _ =>
      pose proof (parsed_target_kind _ _ _ _ Hp Et Hk) as Hin end.
    apply list_elem_of_In in Hin. cbn in Hin. by repeat destruct Hin as [<-|Hin].
Qed.

Lemma close_ok id w : inv w → wp (close id) w (λ _, inv) inv.
Proof. intros Hw. apply wp_close; [|done]. intros e He. by apply invariant_close. Qed.

End operations.

(** A candidate is private, so it may share the lineage of the current action. *)
Lemma invariant_candidate cands spent values w original current e o st :
  invariant cands spent values w → envelopes w !! current = Some e → is_open e → ¬ private cands current →
  is_action o = true → lineage o = lineage (object e) →
  es_kind st = es_kind (estate e) → es_buffer st = es_buffer (estate e) →
  invariant (cands ++ [(original, current, next_id w)]) spent values (added (Envelope o st) w).
Proof.
  intros [Hids Huniq Hspent Hc Hcont Hex Honce Hprep] He Ho Hp Ha Hl Hk Hb.
  assert (∀ id, private (cands ++ [(original, current, next_id w)]) id ↔ private cands id ∨ id = next_id w) as Hpr.
  { intros id. unfold private. rewrite fmap_app, elem_of_app. cbn. by rewrite list_elem_of_singleton. }
  assert (current < next_id w)%nat as Hcur by by apply (Hids _ _ He).
  split; [..|done|done|done]; cbn.
  - intros i e'. rewrite lookup_insert_Some. intros [[<- _]|[_ H'%Hids]]; lia.
  - intros i j e1 e2. rewrite !lookup_insert_Some, !Hpr.
    intros [[<- <-]|[_ H1]] [[<- <-]|[_ H2]] O1 O2 P1 P2 Hlin; [done|tauto|tauto|]. apply (Huniq i j e1 e2); tauto.
  - intros n i e' Hin. rewrite lookup_insert_Some, Hpr. intros [[<- <-]|[_ H']] O Hlin; [by right|].
    left. by eapply Hspent.
  - intros o' c x. rewrite elem_of_app, list_elem_of_singleton, Hpr. intros [Hin|[= -> -> ->]].
    + destruct (Hc _ _ _ Hin) as (Hp' & e1 & e2 & L1 & L2 & Ha' & Hlin).
      pose proof (Hids _ _ L1). pose proof (Hids _ _ L2). split; [intros [?| ->]; [done|lia]|].
      exists e1, e2. rewrite !lookup_insert_ne by lia. done.
    + split; [intros [?| ->]; [done|lia]|]. exists e, (Envelope o st).
      rewrite lookup_insert_eq, lookup_insert_ne by lia. done.
  - intros i e'. rewrite lookup_insert_Some. intros [[<- <-]|[_ H']] O; [|by eapply Hcont].
    destruct (Hcont current e He Ho) as [(v & Hv & Henc)|Hd]; [left; exists v|right]; cbn; rewrite ?Hl, ?Hk, ?Hb; done.
Qed.

Lemma prepare_resume_ok cands spent values b original current decision_id approval_id o w :
  invariant cands spent values w → ¬ private cands current →
  wp (prepare_resume b original current decision_id approval_id o) w
    (λ id w', invariant (cands ++ [(original, current, id)]) spent values w') (invariant cands spent values).
Proof.
  intros Hw Hp. unfold prepare_resume. repeat wp_step.
  apply wp_new_id; [intros s1 g1|intros; by apply invariant_generator]. wp_step.
  apply wp_new_id; [intros s2 g2|intros; by apply (invariant_generator cands spent values w)].
  assert (invariant cands spent values (World (next_id w) (envelopes w) g2)) as Hw' by by apply invariant_generator.
  cbn [next_id envelopes] in *. repeat wp_step. apply wp_new_envelope; [|done]. intros m. cbn [envelopes] in *. same_call.
  match goal with
  | He : envelopes w !! current = Some ?e, Ho : object ?e = PreparedAction _ _ _, Hm : match object ?e with _ => _ end = Ok _ |- _ =>
      rewrite Ho in Hm; injection Hm as <-; eapply (invariant_candidate _ _ _ _ _ _ e); [done|exact He|..];
      try rewrite Ho; unfold is_open; auto
  end.
Qed.

Lemma private_without cands x id : private (without x cands) id ↔ private cands id ∧ id ≠ x.
Proof.
  unfold private, without. rewrite !list_elem_of_fmap. setoid_rewrite list_elem_of_filter. naive_solver.
Qed.

(** The candidate [x] is not private any more: it is closed, or it is the only open
    envelope of a target that was not executed. *)
Lemma invariant_release cands spent values w x :
  invariant cands spent values w →
  (∀ e, envelopes w !! x = Some e → is_open e →
     (lineage (object e) ∉ spent.*1) ∧
     ∀ id e', envelopes w !! id = Some e' → is_open e' → ¬ private cands id → lineage (object e) ≠ lineage (object e')) →
  invariant (without x cands) spent values w.
Proof.
  intros [Hids Huniq Hspent Hc Hcont Hex Honce Hprep] Hx. split; [done|..|done|done|done|done].
  - intros i j e1 e2 H1 H2 O1 O2. rewrite !private_without. intros P1 P2 Hlin.
    destruct (decide (i = x)) as [->|Hi], (decide (j = x)) as [->|Hj]; [done|..|apply (Huniq i j e1 e2); tauto].
    + destruct (Hx _ H1 O1) as [_ Hf]. edestruct Hf; [exact H2|done|tauto|done].
    + destruct (Hx _ H2 O2) as [_ Hf]. edestruct Hf; [exact H1|done|tauto|done].
  - intros n i e Hn He O Hlin. apply private_without. split; [by eapply Hspent|]. intros ->.
    destruct (Hx _ He O) as [[] _]. by rewrite Hlin.
  - intros o c y [_ Hin]%list_elem_of_filter. destruct (Hc _ _ _ Hin) as (Hp & Hrest).
    split; [|done]. rewrite private_without. tauto.
Qed.

Lemma close_released cands spent values w x :
  invariant cands spent values w →
  wp (close x) w (λ _, invariant (without x cands) spent values) (λ w', w' = w ∧ envelopes w !! x = None).
Proof.
  intros Hw. unfold wp, close. destruct (envelopes w !! x) as [e|] eqn:He; [|done].
  apply (invariant_release _ _ _ (with_closed x e w)); [by apply invariant_close|].
  intros e'. cbn. rewrite lookup_insert_eq. intros [= <-] []%close_not_open.
Qed.

Lemma commit_resume_ok cands spent values b original current x w :
  invariant cands spent values w → (original, current, x) ∈ cands →
  wp (commit_resume b original current x) w
    (λ _, invariant (without x cands) spent values) (invariant cands spent values).
Proof.
  intros Hw Hin. unfold commit_resume. repeat wp_step.
  apply wp_close; [|done]. intros eo Heo. apply wp_close; [|intros _; by apply invariant_close]. intros ec Hec.
  destruct (i_candidates _ _ _ _ Hw _ _ _ Hin) as (Hp & c & c' & Hc & Hc' & _ & Hlin).
  assert (is_open c) as Hoc.
  { match goal with Hl : envelopes w !! current = Some ?e, Ho : true = true → es_closed (estate ?e) = false |- _ =>
      assert (c = e) as -> by congruence; exact (Ho eq_refl) end. }
  set (w1 := with_closed original eo w) in *. set (w2 := with_closed current ec w1).
  assert (invariant cands spent values w1) as Hw1 by by apply invariant_close.
  assert (∀ i e, envelopes w2 !! i = Some e → is_open e → envelopes w !! i = Some e ∧ i ≠ current) as Hback.
  { intros i y Hi O. destruct (lookup_closed current ec w1 i y Hec Hi) as [_ [Hne Hi1]]; [done|].
    destruct (lookup_closed original eo w i y) as [_ [_ Hi0]]; done. }
  apply (invariant_release cands spent values w2); [by apply invariant_close|].
  intros y Hy O. destruct (Hback _ _ Hy O) as [Hy' _]. assert (y = c') as -> by congruence. split.
  - intros Hs. apply Hp. by apply (i_spent _ _ _ _ Hw (lineage (object c')) current c).
  - intros i z Hi O' Hp' Hl. destruct (Hback _ _ Hi O') as [Hi' Hne]. destruct Hne.
    apply (i_unique _ _ _ _ Hw i current z c); [done..|congruence].
Qed.

Lemma consume_ok cands spent values w id :
  invariant cands spent values w → ¬ private cands id →
  wp (consume id) w (λ v, invariant cands (spent ++ [(lineage_of id w, v)]) values) (invariant cands spent values).
Proof.
  intros Hw Hp. unfold consume. repeat wp_step. apply wp_close; [|done]. intros env Henv.
  repeat match goal with Hl : envelopes w !! id = Some ?x |- _ =>
    lazymatch x with env => fail | _ => assert (x = env) as -> by congruence; clear Hl end end.
  rename env into e, Henv into He.
  match goal with H : decode_execution _ _ = Ok ?v |- _ => rename H into Hd; rename v into value end.
  match goal with H : true = true → _ |- _ => rename H into Ho end. specialize (Ho eq_refl).
  assert (lineage_of id w = lineage (object e)) as -> by (unfold lineage_of; by rewrite He).
  pose proof Hw as [Hids Huniq Hspent Hc Hcont Hex Honce Hprep].
  assert (lineage (object e) ∉ spent.*1) as Hnew.
  { intros Hs. apply Hp. by apply (Hspent (lineage (object e)) id e). }
  destruct (invariant_close cands spent values id e w Hw He) as [Hids' Huniq' Hspent' Hc' Hcont' _ _ _].
  apply wp_ret. split; [done|done| |done|done| | |done].
  - intros n i e'. rewrite fmap_app, elem_of_app. cbn. rewrite list_elem_of_singleton.
    intros [Hn| ->] Hi O Hlin; [by eapply Hspent'|].
    destruct (lookup_closed id e w i e' He Hi) as [_ [Hne Hi']]; [done|].
    destruct (decide (private cands i)) as [|Hp']; [done|]. destruct Hne. by apply (Huniq i id e' e).
  - intros n v. rewrite elem_of_app, list_elem_of_singleton. intros [Hin|[= -> ->]]; [by apply Hex|].
    destruct (Hcont id e He Ho) as [(v & Hv & Henc)|Hr]; [|rewrite Hr in Hd; done].
    exists v. split; [done|]. apply decode_encode in Henc. congruence.
  - rewrite fmap_app. apply list.NoDup_app. split; [done|]. cbn. split; [|apply NoDup_singleton].
    intros n Hn. rewrite list_elem_of_singleton. by intros ->.
Qed.

Lemma wp_result {A} (m : op A) w x w' P : wp m w (λ _, P) P → m w = (x, w') → P w'.
Proof. unfold wp. intros Hm E. rewrite E in Hm. by destruct x. Qed.

Lemma invariant_values cands spent values more w :
  invariant cands spent values w → NoDup (values ++ more).*1 → invariant cands spent (values ++ more) w.
Proof.
  intros [Hids Huniq Hspent Hc Hcont Hex Honce Hprep] Hnd. split; [done..| | |done|done].
  - intros id e He O. destruct (Hcont id e He O) as [(v & Hv & Henc)|Hr]; [left|by right].
    exists v. rewrite elem_of_app. auto.
  - intros n v (v' & ? & ?)%Hex. exists v'. rewrite elem_of_app. auto.
Qed.

Definition system_invariant (s : system) : Prop :=
  invariant (candidates s) (executed s) (prepared_values s) (sworld s).

Lemma invariant_log s n v :
  system_invariant s → fresh_nonce s n →
  invariant (candidates s) (executed s) (prepared_values s ++ [(n, v)]) (sworld s).
Proof.
  intros Hs (_ & Hn & _). apply invariant_values; [done|]. rewrite fmap_app. apply list.NoDup_app.
  split; [apply (i_prepared _ _ _ _ Hs)|]. cbn. split; [|apply NoDup_singleton].
  intros m Hm. rewrite list_elem_of_singleton. by intros ->.
Qed.

Lemma execution_step_invariant b s s' : system_invariant s → step b s s' → system_invariant s'.
Proof.
  intros Hs Hstep. unfold system_invariant.
  destruct Hstep as [service r nonce x w Hf E|target nonce x w Hf E|action target se task aid cid kid o x w E
    |intent target texts now tn nonce x w Hf E|document h tn nonce x w Hf E|original current d a o x w Ho Hc E
    |original current id x w Hin E|original current id x w Hin E|id x w Hp E|id x w Hp E]; cbn.
  - pose proof Hf as (Hf1 & _ & Hf3). revert E. apply wp_result. destruct (prepare r) as [p|e] eqn:Er; cbn.
    + apply prepare_target_ok; [by apply invariant_log|done|done|]. intros p'. rewrite Er. intros [= <-].
      rewrite elem_of_app, list_elem_of_singleton. auto.
    + rewrite app_nil_r. apply prepare_target_ok; [done..|]. intros p'. by rewrite Er.
  - pose proof Hf as (Hf1 & _ & Hf3). revert E. apply wp_result. apply prepare_generic_target_ok; [by apply invariant_log|done|done|].
    rewrite elem_of_app, list_elem_of_singleton. auto.
  - revert E. by apply wp_result, new_intent_ok.
  - pose proof Hf as (Hf1 & _ & Hf3). revert E. apply wp_result, build_ok; [by apply invariant_log|done|done|].
    rewrite elem_of_app, list_elem_of_singleton. auto.
  - destruct Hf as (Hf1 & _ & Hf3). revert E. by apply wp_result, restore_original_ok.
  - pose proof (prepare_resume_ok _ _ _ b original current d a o _ Hs Hc) as Hwp. unfold wp in Hwp. rewrite E in Hwp.
    destruct x; [done|]. by rewrite app_nil_r.
  - pose proof (commit_resume_ok _ _ _ b original current id _ Hs Hin) as Hwp. unfold wp in Hwp. unfold on_error in E.
    destruct (commit_resume b original current id (sworld s)) as [[[]|e] w1]; [by injection E as <- <-|].
    pose proof (close_released _ _ _ _ id Hwp) as Hwp'. unfold wp in Hwp'.
    destruct (close id w1) as [[[]|e'] w2]; injection E as <- <-; [done|]. destruct Hwp' as [-> Hnone].
    destruct (i_candidates _ _ _ _ Hwp _ _ _ Hin) as (_ & ? & ? & _ & ? & _). congruence.
  - pose proof (close_released _ _ _ _ id Hs) as Hwp. unfold wp in Hwp. rewrite E in Hwp. destruct x; [done|].
    destruct Hwp as [-> Hnone]. destruct (i_candidates _ _ _ _ Hs _ _ _ Hin) as (_ & ? & ? & _ & ? & _). congruence.
  - pose proof (consume_ok _ _ _ _ id Hs Hp) as Hwp. unfold wp in Hwp. rewrite E in Hwp. destruct x; [done|].
    by rewrite app_nil_r.
  - revert E. by apply wp_result, close_ok.
Qed.

Lemma executions_invariant b s : reachable b s → system_invariant s.
Proof.
  induction 1; [|by eapply execution_step_invariant]. split; cbn; try (intros; by (rewrite lookup_empty in * || apply elem_of_nil in H1)).
  all: try apply NoDup_nil_2; intros; exfalso; by eapply not_elem_of_nil.
Qed.

(** C2: Executions happen at most once.  Whatever a program does with a builder, in
    any order, the envelopes of a target hand out its value at most once, also
    across resumed actions, and the value handed out is the one that was prepared
    for the target: text as it was, other values in canonical form. *)
Theorem executed_at_most_once b s :
  reachable b s →
  NoDup (executed s).*1 ∧
  ∀ n v, (n, v) ∈ executed s → ∃ value, (n, value) ∈ prepared_values s ∧ v = delivered value ∧
    ∀ value', (n, value') ∈ prepared_values s → value' = value.
Proof.
  intros Hs%executions_invariant. split; [apply (i_once _ _ _ _ Hs)|].
  intros n v (value & Hin & ->)%(i_executed _ _ _ _ Hs). exists value. split; [done|]. split; [done|].
  intros value' Hin'. pose proof (i_prepared _ _ _ _ Hs) as Hnd.
  apply (elem_assoc _ _ _ Hnd) in Hin. apply (elem_assoc _ _ _ Hnd) in Hin'. congruence.
Qed.

End programs.
