(* ===== verification/Retry.v ===== *)
(** * Bounded retries

    Models [python/src/palonexus/retry.py]: the policy that decides whether a call of
    the authorization transport may be retried, and after what delay.  The random
    source and the clock are arguments, for what they return in this call. *)

From stdpp Require Import base list list_numbers numbers strings.
From Stdlib Require Import SpecFloat.
From S2P Require Import Prelude PyString Errors Timestamp PyValue Schemas Structure Wire.
From S2P Require Import PyFloat Approvals Models PyUrl.
Open Scope Z_scope.

(** ** Numbers of any type *)

(** A Python object where a number is expected.  An object of another type has the
    outcomes of its [__index__] and [__float__]. *)
Inductive number :=
| NBool (b : bool)
| NInt (z : Z)
| NFloat (f : float)
| NObject (index : py Z) (as_float : py float).

(** [operator.index] and [float], where a [bool] is refused before. *)
Definition number_index (n : number) : py Z :=
  match n with
  | NBool _ => Raise ValueError
  | NInt z => Ok z
  | NFloat _ => Raise TypeError
  | NObject i _ => i
  end.
Definition number_float (n : number) : py float :=
  match n with
  | NBool _ => Raise ValueError
  | NInt z => if isfinite (of_int z) then Ok (of_int z) else Raise OverflowError
  | NFloat f => Ok f
  | NObject _ f => f
  end.

(** [except (KeyboardInterrupt, SystemExit, asyncio.CancelledError): raise]. *)
Definition reraised (e : exn) : bool :=
  match e with KeyboardInterrupt | SystemExit | AsyncCancelledError => true | _ => false end.

(** Any other exception is a failed normalization, [None]. *)
Definition normalized {A} (m : py A) : py (option A) :=
  match m with
  | Ok a => Ok (Some a)
  | Raise e => if reraised e then Raise e else Ok None
  end.

Definition normalize_index (raw : number) : py (option Z) := normalized (number_index raw).
Definition normalize_float (raw : number) : py (option float) := normalized (number_float raw).
Definition random_value (source : py number) : py (option float) :=
  raw ← normalized source;
  match raw with Some raw => normalize_float raw | None => Ok None end.

(** ** Data *)
Inductive retry_failure :=
| CONNECTION | TIMEOUT | UNAVAILABLE | RATE_LIMITED | VALIDATION | AUTHENTICATION | DENIED
| IDEMPOTENCY_CONFLICT | PERMANENT.

Inductive completion_state := NOT_EXECUTED | AUTHORIZATION_AMBIGUOUS | APPLICATION_AMBIGUOUS.

Inductive retry_reason :=
| RETRY_SCHEDULED | NON_RETRYABLE | ATTEMPTS_EXHAUSTED | ELAPSED_EXHAUSTED | DEADLINE_EXCEEDED | CANCELLED_CALL
| IDEMPOTENCY_REQUIRED | AMBIGUOUS_APPLICATION | INVALID_INPUT | INVALID_RANDOMNESS.

#[global] Instance completion_state_eq_dec : EqDecision completion_state.
Proof. solve_decision. Defined.
#[global] Instance retry_reason_eq_dec : EqDecision retry_reason.
Proof. solve_decision. Defined.

Record retry_decision := RetryDecision {
  should_retry : bool;
  delay : option float;
  reason : retry_reason;
}.

(** [RetryDecision(...)] with its [__post_init__]. *)
Definition make_retry_decision (should_retry : bool) (delay : option float) (reason : retry_reason)
    : py retry_decision :=
  let scheduled := bool_decide (reason = RETRY_SCHEDULED) in
  let valid_retry :=
    should_retry && scheduled && match delay with Some d => isfinite d && fle fzero d | None => false end in
  let valid_stop := negb should_retry && bool_decide (delay = None) && negb scheduled in
  raise_if (negb (valid_retry || valid_stop)) ValueError;;
  Ok (RetryDecision should_retry delay reason).

Definition RETRYABLE_FAILURES (f : retry_failure) : bool :=
  match f with CONNECTION | TIMEOUT | UNAVAILABLE | RATE_LIMITED => true | _ => false end.
Definition SIDE_EFFECTS : list pystr := u <$> ["read_only"; "write"; "destructive"; "external"].

Definition stop (reason : retry_reason) : py retry_decision := make_retry_decision false None reason.

Record retry_policy := RetryPolicy {
  max_attempts : Z;
  max_elapsed : float;
  initial_delay : float;
  max_delay : float;
  multiplier : float;
  jitter_fraction : float;
  max_retry_after : float;
}.

(** ** The policy *)
Definition fone : float := of_int 1.

(** The tests of [_initialize] on the normalized values. *)
Definition policy_valid (p : retry_policy) : bool :=
  forallb isfinite [max_elapsed p; initial_delay p; max_delay p; multiplier p; jitter_fraction p; max_retry_after p]
  && negb (max_attempts p <? 1) && negb (100 <? max_attempts p)
  && negb (fle (max_elapsed p) fzero) && negb (flt (initial_delay p) fzero)
  && negb (fle (max_delay p) fzero) && negb (flt (max_delay p) (initial_delay p))
  && negb (flt (multiplier p) fone)
  && (fle fzero (jitter_fraction p) && fle (jitter_fraction p) fone)
  && negb (flt (max_retry_after p) fzero).

(** [_initialize]: [None] is the result [False]. *)
Definition initialize (attempts elapsed initial maximum mult jitter after : number) (random_callable : bool)
    : py (option retry_policy) :=
  attempts ← normalize_index attempts;
  elapsed ← normalize_float elapsed;
  initial ← normalize_float initial;
  maximum ← normalize_float maximum;
  mult ← normalize_float mult;
  jitter ← normalize_float jitter;
  after ← normalize_float after;
  Ok (match attempts, elapsed, initial, maximum, mult, jitter, after with
      | Some attempts, Some elapsed, Some initial, Some maximum, Some mult, Some jitter, Some after =>
          let p := RetryPolicy attempts elapsed initial maximum mult jitter after in
          if policy_valid p && random_callable then Some p else None
      | _, _, _, _, _, _, _ => None
      end).

(** [RetryPolicy(...)]. *)
Definition make_retry_policy (attempts elapsed initial maximum mult jitter after : number) : py retry_policy :=
  p ← initialize attempts elapsed initial maximum mult jitter after true;
  match p with Some p => Ok p | None => Raise RetryPolicyError end.

(** The [pow] of the C library, on a float and an integer that is a float. *)
Class FloatPow := { c_pow : float → Z → float }.

(** [x ** n] for a finite [x] that is at least 1: a result that is out of range
    raises. *)
Definition py_pow `{FloatPow} (x : float) (n : Z) : py float :=
  if n =? 0 then Ok fone
  else match c_pow x n with S754_infinity _ => Raise OverflowError | r => Ok r end.

(** An aware or naive [datetime]: the wall time, the microsecond and, if it is
    aware, the offset from UTC in microseconds. *)
Record moment := Moment { wall : datetime; microsecond : Z; utcoffset : option Z }.

(** [email.utils.parsedate_to_datetime], which raises on text that is not a date. *)
Class EmailDates := { parsedate_to_datetime : pystr → py moment }.

(** [value.astimezone(UTC)] as microseconds since the epoch. *)
Definition utc_microseconds (m : moment) (offset : Z) : py Z :=
  let t := wall m in
  let seconds := (toordinal t - UNIX_EPOCH_ORDINAL) * 86400 + dt_hour t * 3600 + dt_minute t * 60 + dt_second t in
  let value := seconds * 1000000 + microsecond m - offset in
  if (MIN_TIMESTAMP * 1000000 <=? value) && (value <? (MAX_TIMESTAMP + 1) * 1000000)
  then Ok value else Raise OverflowError.

(** [try: m except Exception: return None]. *)
Definition or_none {A} (m : py (option A)) : py (option A) :=
  match m with
  | Ok a => Ok a
  | Raise e => if is_exception e then Ok None else Raise e
  end.

Section policy.
Context `{FloatPow} `{EmailDates}.
Variable p : retry_policy.

Definition backoff (attempt : Z) (source : py number) : py (option float) :=
  or_none
    (let exponent := Z.min (attempt - 1) 1024 in
     power ← py_pow (multiplier p) exponent;
     let base := py_min (max_delay p) (fmul (initial_delay p) power) in
     random ← random_value source;
     match random with
     | None => Ok None
     | Some r =>
         if negb (isfinite r) || negb (fle fzero r && fle r fone) then Ok None
         else
           let factor := fadd fone (fmul (fsub (fmul (of_int 2) r) fone) (jitter_fraction p)) in
           Ok (Some (py_max fzero (py_min (max_delay p) (fmul base factor))))
     end).

(** [_retry_after]; [clock] is [datetime.now(UTC)]. *)
Definition retry_after (value : option pystr) (now : option moment) (clock : moment) : py (option float) :=
  match value with
  | None => Ok None
  | Some value =>
      if bool_decide (value = []) || (128 <? Z.of_nat (length value)) || negb (str_eqb value (strip value))
         || existsb (λ c, (c <? 32) || (c =? 127)) value
      then Ok None
      else if forallb is_digit value then
        if 12 <? Z.of_nat (length value) then Ok (Some (max_retry_after p))
        else Ok (Some (py_min (of_int (int_of_digits value)) (max_retry_after p)))
      else
        or_none
          (parsed ← parsedate_to_datetime value;
           match utcoffset parsed with
           | None => Ok None
           | Some offset =>
               let current := default clock now in
               match utcoffset current with
               | None => Ok None
               | Some current_offset =>
                   parsed ← utc_microseconds parsed offset;
                   current ← utc_microseconds current current_offset;
                   let seconds := true_divide (parsed - current) 1000000 in
                   if negb (isfinite seconds) then Ok None
                   else Ok (Some (py_min (py_max fzero seconds) (max_retry_after p)))
               end
           end)
  end.

(** The arguments of a call, and what it observes. *)
Record retry_call := RetryCall {
  attempt : number;
  elapsed : number;
  side_effect : pystr;
  failure : retry_failure;
  completion : option completion_state;
  authorization_idempotency_key : option pystr;
  retry_after_header : option pystr;
  now_given : option moment;
  cancelled : bool;
  deadline_remaining : option number;
  clock : moment;
  random_source : py number;
}.

(** The idempotency key of an operation that changes something. *)
Definition valid_key (key : option pystr) : bool :=
  match key with Some s => is_Ok (wire AuthorizationIdempotencyKey s) | None => false end.

(** The test of the arguments, from their normal forms. *)
Definition valid_input (c : retry_call) (attempt : Z) (elapsed : float) (deadline : option float) : bool :=
  (1 <=? attempt) && isfinite elapsed && fle fzero elapsed && str_in (side_effect c) SIDE_EFFECTS
  && match deadline with Some d => isfinite d | None => true end.

(** The tests on the delay, at the end of [authorization_retry]. *)
Definition scheduled (delay elapsed : float) (deadline : option float) : py retry_decision :=
  let remaining_elapsed := fsub (max_elapsed p) elapsed in
  if negb (isfinite delay && fle fzero delay) then stop INVALID_RANDOMNESS
  else if fle remaining_elapsed fzero || fle remaining_elapsed delay then stop ELAPSED_EXHAUSTED
  else if match deadline with Some d => fle d fzero || fle d delay | None => false end
  then stop DEADLINE_EXCEEDED
  else make_retry_decision true (Some delay) RETRY_SCHEDULED.

Definition decided (c : retry_call) (attempt : Z) (elapsed : float) (deadline : option float)
    : py retry_decision :=
  let read_only := str_eqb (side_effect c) (u "read_only") in
  if negb (valid_input c attempt elapsed deadline) then stop INVALID_INPUT
  else if cancelled c then stop CANCELLED_CALL
  else if bool_decide (completion c = None) && negb read_only then stop AMBIGUOUS_APPLICATION
  else if bool_decide (completion c = Some APPLICATION_AMBIGUOUS) then stop AMBIGUOUS_APPLICATION
  else if negb (RETRYABLE_FAILURES (failure c)) then stop NON_RETRYABLE
  else if max_attempts p <=? attempt then stop ATTEMPTS_EXHAUSTED
  else if negb read_only && negb (valid_key (authorization_idempotency_key c)) then stop IDEMPOTENCY_REQUIRED
  else
    after ← retry_after (retry_after_header c) (now_given c) (clock c);
    delay ← match after with Some d => Ok (Some d) | None => backoff attempt (random_source c) end;
    match delay with
    | None => stop INVALID_RANDOMNESS
    | Some delay => scheduled delay elapsed deadline
    end.

(** [None if deadline_remaining is None else _normalize_float(deadline_remaining)];
    the outer [None] is a failure. *)
Definition normalize_deadline (d : option number) : py (option (option float)) :=
  match d with
  | None => Ok (Some None)
  | Some d => option_map Some <$> normalize_float d
  end.

Definition authorization_retry (c : retry_call) : py retry_decision :=
  attempt ← normalize_index (attempt c);
  elapsed ← normalize_float (elapsed c);
  deadline ← normalize_deadline (deadline_remaining c);
  match attempt, elapsed, deadline with
  | Some attempt, Some elapsed, Some deadline => decided c attempt elapsed deadline
  | _, _, _ => Raise RetryPolicyError
  end.

(** ** What a decision guarantees *)

(** The call may be retried after [r] seconds. *)
Definition permitted (c : retry_call) (r : float) : Prop :=
  cancelled c = false ∧ RETRYABLE_FAILURES (failure c) = true ∧ completion c ≠ Some APPLICATION_AMBIGUOUS ∧
  (side_effect c ≠ u "read_only" →
     completion c ≠ None ∧ ∃ key v, authorization_idempotency_key c = Some key ∧
       wire AuthorizationIdempotencyKey key = Ok v) ∧
  (∃ a, number_index (attempt c) = Ok a ∧ 1 ≤ a < max_attempts p) ∧
  isfinite r = true ∧ fle fzero r = true ∧ (fle r (max_delay p) = true ∨ fle r (max_retry_after p) = true) ∧
  (∃ t, number_float (elapsed c) = Ok t ∧ fle fzero t = true ∧ flt r (fsub (max_elapsed p) t) = true) ∧
  (∀ d, deadline_remaining c = Some d → ∃ x, number_float d = Ok x ∧ flt r x = true).

(** The exceptions that a call lets through. *)
Definition lets_through (e : exn) : bool := bool_decide (e = RetryPolicyError) || negb (is_exception e).

Lemma reraised_through e : reraised e = true → lets_through e = true.
Proof. by destruct e. Qed.
Lemma interrupt_through e : is_exception e = false → lets_through e = true.
Proof. by destruct e. Qed.

Lemma stop_Ok r : r ≠ RETRY_SCHEDULED → stop r = Ok (RetryDecision false None r).
Proof. by destruct r. Qed.

Lemma normalized_cases {A} (m : py A) :
  match normalized m with
  | Ok (Some a) => m = Ok a
  | Ok None => True
  | Raise e => reraised e = true
  end.
Proof. unfold normalized. destruct m as [a|e]; [done|]. by destruct (reraised e) eqn:E. Qed.

Lemma policy_valid_facts : policy_valid p = true →
  isfinite (max_delay p) = true ∧ isfinite (max_retry_after p) = true ∧ isfinite (max_elapsed p) = true ∧
  flt fzero (max_delay p) = true ∧ max_attempts p ≤ 100.
Proof.
  unfold policy_valid. cbn [forallb]. intros Hp.
  rewrite !andb_true_iff, !negb_true_iff in Hp. destruct_and!. refl_bool. repeat split; try done; try lia.
  apply fle_total; auto using isfinite_isnan.
Qed.

Lemma policy_attempts : policy_valid p = true → 1 ≤ max_attempts p ≤ 100.
Proof.
  unfold policy_valid. intros Hp. rewrite !andb_true_iff, !negb_true_iff in Hp. destruct_and!. refl_bool. lia.
Qed.

Lemma backoff_bounded a source r :
  policy_valid p = true → backoff a source = Ok (Some r) → fle r (max_delay p) = true.
Proof.
  intros (Hm & _ & _ & Hpos & _)%policy_valid_facts. unfold backoff, or_none.
  match goal with |- match ?m with _ => _ end = _ → _ => destruct m as [[d|]|e] eqn:E; [|done|by destruct (is_exception e)] end.
  intros [= <-]. inv_ok. case_match; [|done]. case_match; [done|]. simplify_eq/=.
  unfold py_max. case_match; [by apply py_min_le|by apply flt_fle].
Qed.

Lemma retry_after_bounded value now clk r :
  policy_valid p = true → retry_after value now clk = Ok (Some r) → isfinite r = true → fle r (max_retry_after p) = true.
Proof.
  intros (_ & Hm & _)%policy_valid_facts. unfold retry_after. destruct value as [value|]; [|done].
  case_match; [done|]. case_match.
  { case_match; intros [= <-]; [by apply fle_refl|by apply py_min_le_r]. }
  unfold or_none.
  match goal with |- match ?m with _ => _ end = _ → _ => destruct m as [[d|]|e] eqn:E; [|done|by destruct (is_exception e)] end.
  intros [= <-]. inv_ok. repeat (case_match; try done). inv_ok. case_match; [done|]. simplify_eq/=. by apply py_min_le_r.
Qed.

Lemma or_none_raises {A} (m : py (option A)) e : or_none m = Raise e → is_exception e = false.
Proof. unfold or_none. destruct m as [a|e']; [done|]. destruct (is_exception e') eqn:E; [done|]. by intros [= <-]. Qed.

Lemma retry_after_raises value now clk e : retry_after value now clk = Raise e → is_exception e = false.
Proof.
  unfold retry_after. destruct value; [|done]. case_match; [done|]. case_match; [by case_match|]. apply or_none_raises.
Qed.

(** What a result says. *)
Definition sound (c : retry_call) (result : py retry_decision) : Prop :=
  match result with
  | Ok (RetryDecision true d _) => ∃ r, d = Some r ∧ permitted c r
  | Ok (RetryDecision false d reason) => d = None ∧ reason ≠ RETRY_SCHEDULED
  | Raise e => lets_through e = true
  end.

Lemma stop_sound c r : r ≠ RETRY_SCHEDULED → sound c (stop r).
Proof. intros Hr. by rewrite stop_Ok. Qed.

Lemma normalize_deadline_cases d :
  match normalize_deadline d with
  | Ok (Some None) => d = None
  | Ok (Some (Some x)) => ∃ n, d = Some n ∧ number_float n = Ok x
  | Ok None => True
  | Raise e => reraised e = true
  end.
Proof.
  destruct d as [n|]; [|done]. cbn. pose proof (normalized_cases (number_float n)) as Hn.
  unfold normalize_float. destruct (normalized _) as [[x|]|e]; naive_solver.
Qed.

Lemma scheduled_sound c delay elapsed deadline :
  policy_valid p = true → isfinite elapsed = true → match deadline with Some d => isfinite d = true | None => True end →
  (isfinite delay = true → fle fzero delay = true → flt delay (fsub (max_elapsed p) elapsed) = true →
   match deadline with Some d => flt delay d = true | None => True end → permitted c delay) →
  sound c (scheduled delay elapsed deadline).
Proof.
  intros (_ & _ & He & _)%policy_valid_facts Ht Hd Hsound. unfold scheduled.
  destruct (isfinite delay && fle fzero delay) eqn:Ev; cbn [negb]; [|by apply stop_sound].
  pose proof Ev as [Hf Hz]%andb_true_iff.
  destruct (fle _ fzero || fle _ delay) eqn:Ee; [by apply stop_sound|].
  apply orb_false_iff in Ee as [_ Ee].
  assert (flt delay (fsub (max_elapsed p) elapsed) = true) as Hlt
    by (apply fle_total; auto using fsub_not_nan, isfinite_isnan).
  destruct deadline as [d|].
  - destruct (fle d fzero || fle d delay) eqn:El; [by apply stop_sound|]. apply orb_false_iff in El as [_ El].
    unfold make_retry_decision. cbn. rewrite Ev. cbn. exists delay. split; [done|]. apply Hsound; try done.
    apply fle_total; auto using isfinite_isnan.
  - unfold make_retry_decision. cbn. rewrite Ev. cbn. exists delay. split; [done|]. by apply Hsound.
Qed.

Lemma decided_sound c a t d :
  policy_valid p = true → number_index (attempt c) = Ok a → number_float (elapsed c) = Ok t →
  match d with Some x => ∃ n, deadline_remaining c = Some n ∧ number_float n = Ok x | None => deadline_remaining c = None end →
  sound c (decided c a t d).
Proof.
  intros Hp Ha Ht Hd. unfold decided.
  destruct (valid_input c a t d) eqn:Hv; cbn [negb]; [|by apply stop_sound].
  unfold valid_input in Hv. rewrite !andb_true_iff in Hv. destruct Hv as ((((Ha1 & Htf) & Ht0) & _) & Hdf). refl_bool.
  destruct (cancelled c) eqn:Hc; [by apply stop_sound|].
  destruct (bool_decide (completion c = None) && _) eqn:Hn; [by apply stop_sound|].
  destruct (bool_decide (completion c = Some _)) eqn:Happ; [by apply stop_sound|]. refl_bool.
  destruct (RETRYABLE_FAILURES (failure c)) eqn:Hf; cbn [negb]; [|by apply stop_sound].
  destruct (max_attempts p <=? a) eqn:Hm; [by apply stop_sound|]. refl_bool.
  destruct (negb (str_eqb _ _) && negb (valid_key _)) eqn:Hk; [by apply stop_sound|].
  assert (∀ r, isfinite r = true → fle fzero r = true →
    (fle r (max_delay p) = true ∨ fle r (max_retry_after p) = true) →
    flt r (fsub (max_elapsed p) t) = true → match d with Some x => flt r x = true | None => True end →
    permitted c r) as Hperm.
  { intros r Hr Hr0 Hb He Hdl. unfold permitted. do 3 (split; [done|]). split.
    - intros Hside. assert (str_eqb (side_effect c) (u "read_only") = false) as Hs by (by apply bool_decide_eq_false).
      rewrite Hs in Hn, Hk. cbn in Hk. rewrite andb_true_r in Hn. apply negb_false_iff in Hk. refl_bool. split; [done|].
      unfold valid_key in Hk. destruct (authorization_idempotency_key c) as [key|]; [|done].
      destruct (wire _ key) as [v|] eqn:E; [|done]. eauto.
    - split; [eauto|]. do 3 (split; [done|]). split; [eauto|]. intros n Hn'. destruct d as [x|]; [|congruence].
      destruct Hd as (n' & Hn'' & Hx). rewrite Hn' in Hn''. injection Hn'' as ->. eauto. }
  destruct (retry_after _ _ _) as [[r|]|e] eqn:Er; cbn.
  - apply scheduled_sound; try done; [by destruct d|]. intros. apply Hperm; eauto using retry_after_bounded.
  - destruct (backoff _ _) as [[r|]|e] eqn:Eb; cbn; [|by apply stop_sound|].
    + apply scheduled_sound; try done; [by destruct d|]. intros. apply Hperm; eauto using backoff_bounded.
    + by eapply interrupt_through, or_none_raises.
  - by eapply interrupt_through, retry_after_raises.
Qed.

Lemma authorization_retry_sound c : policy_valid p = true → sound c (authorization_retry c).
Proof.
  intros Hp. unfold authorization_retry, normalize_index.
  pose proof (normalized_cases (number_index (attempt c))) as Ha. destruct (normalized _) as [a|e]; cbn;
    [|by apply reraised_through].
  pose proof (normalized_cases (number_float (elapsed c))) as Ht. fold (normalize_float (elapsed c)) in Ht.
  destruct (normalize_float _) as [t|e]; cbn; [|by apply reraised_through].
  pose proof (normalize_deadline_cases (deadline_remaining c)) as Hd.
  destruct (normalize_deadline _) as [d|e]; cbn; [|by apply reraised_through].
  destruct a as [a|], t as [t|], d as [d|]; try done. by apply decided_sound.
Qed.

(** C31: Retries are bounded.  A call is retried only if it was not cancelled, its
    failure is a transient one, no application work may have run, an operation
    with side effects carries a valid idempotency key, attempts are left (at most
    99 retries under a valid policy), and the delay is finite, not negative,
    within the maximum of the policy or of [Retry-After], and less than what
    remains of the elapsed budget and of the deadline.  In all other cases the
    decision stops without a delay; nothing is raised but [RetryPolicyError] and
    the exceptions that must pass. *)
Theorem retries_are_bounded c :
  policy_valid p = true → max_attempts p ≤ 100 ∧ sound c (authorization_retry c).
Proof. intros Hp. split; [by apply policy_valid_facts|by apply authorization_retry_sound]. Qed.

End policy.

(** ** A backoff that overflows *)

(** The power of a positive float, correctly rounded. *)
Definition exact_pow (x : float) (n : Z) : float :=
  match x with
  | S754_finite s m e => binary_normalize 53 1024 (Zpos m ^ n) (e * n) false
  | x => x
  end.
#[local] Instance exact_float_pow : FloatPow := {| c_pow := exact_pow |}.
#[local] Instance no_email_dates : EmailDates := {| parsedate_to_datetime := λ _, Raise ValueError |}.

Definition steep_policy : py retry_policy :=
  make_retry_policy (NInt 5) (NInt 10) (NInt 1) (NInt 2) (NInt (10 ^ 200)) (NInt 0) (NInt 5).
Definition epoch : moment := Moment (Datetime 1970 1 1 0 0 0) 0 (Some 0).

(** The attempt with this number could not connect. *)
Definition unconnected (n : Z) (source : py number) : retry_call :=
  RetryCall (NInt n) (NInt 0) (u "read_only") CONNECTION (Some NOT_EXECUTED) None None None false None epoch source.

(** A steep backoff stops the retries.  The policy with the multiplier 1e200 is
    accepted and caps every delay at 2 seconds, but from the third attempt on the
    power of the multiplier is out of range: [**] raises before the cap applies,
    and the decision is to stop for invalid randomness, whatever the random source
    returns.  The second attempt is retried after the capped delay. *)
Theorem steep_backoff_stops : ∃ p, steep_policy = Ok p ∧
  (∀ source, authorization_retry p (unconnected 3 source) = Ok (RetryDecision false None INVALID_RANDOMNESS)) ∧
  authorization_retry p (unconnected 2 (Ok (NInt 0))) = Ok (RetryDecision true (Some (of_int 2)) RETRY_SCHEDULED).
Proof.
  eexists. split; [vm_compute; reflexivity|]. split; [intros source|]; vm_compute; reflexivity.
Qed.

(** The second attempt is permitted a retry. *)
Lemma retries_are_bounded_witness : ∃ p, steep_policy = Ok p ∧ policy_valid p = true ∧
  sound p (unconnected 2 (Ok (NInt 0))) (authorization_retry p (unconnected 2 (Ok (NInt 0)))).
Proof.
  eexists. split; [vm_compute; reflexivity|]. split; [vm_compute; reflexivity|].
  refine (proj2 (retries_are_bounded _ (unconnected 2 (Ok (NInt 0))) _)). vm_compute. reflexivity.
Defined.
