(* ===== verification/Credentials.v ===== *)
(** * Credentials

    Models [python/src/palonexus/credentials.py]: bearer tokens that are erased when
    they are closed, and their acquisition from a provider that is not trusted.  A
    provider's answer, the clocks and the cancellation callback are arguments, for
    what they return or raise in the call.  An operation on a [Credential] object
    returns the object as it is afterwards. *)

From stdpp Require Import base list list_numbers numbers strings.
From S2P Require Import Prelude PyString Errors Timestamp PyFloat Calm Retry.
Open Scope Z_scope.

(** ** [Credential] *)
Definition MAX_TOKEN_BYTES : Z := 8192.

(** The token buffer, the expiry in microseconds since the epoch, and whether the
    buffer was erased. *)
Record credential := Credential { token : pybytes; expires_at : Z; closed : bool }.

Definition all_ascii (s : pystr) : bool := forallb (λ c, (0 <=? c) && (c <? 128)) s.

(** [_seal_token]; an argument of another type is [None].  A [tzinfo] always gives an
    offset. *)
Definition seal_token (raw : option pystr) (expiry : option moment) : option (pybytes * Z) :=
  match raw, expiry with
  | Some raw, Some expiry =>
      if negb (all_ascii raw) || bool_decide (raw = []) || (MAX_TOKEN_BYTES <? Z.of_nat (length raw))
         || existsb (λ b, (b <=? 32) || (127 <=? b)) raw
      then None
      else match utcoffset expiry with
           | None => None
           | Some offset =>
               match utc_microseconds expiry offset with Ok t => Some (raw, t) | Raise _ => None end
           end
  | _, _ => None
  end.

(** [Credential(token, expires_at=...)]. *)
Definition make_credential (raw : option pystr) (expiry : option moment) : py credential :=
  match seal_token raw expiry with
  | None => Raise (bare_error CAuthenticationFailed)
  | Some (buffer, t) => Ok (Credential buffer t false)
  end.

(** [close]: the buffer is overwritten. *)
Definition close_credential (c : credential) : credential :=
  if closed c then c else Credential (replicate (length (token c)) 0) (expires_at c) true.

(** [try: m except Exception: default]. *)
Definition or_default {A} (d : A) (m : py A) : py A :=
  match m with Ok a => Ok a | Raise e => if is_exception e then Ok d else Raise e end.

(** [authorization_header]; [now] is the wall clock in microseconds. *)
Definition authorization_header (now : py Z) (c : credential) : py pystr * credential :=
  match or_default true (if closed c then Ok true else t ← now; Ok (expires_at c <=? t)) with
  | Raise e => (Raise e, c)
  | Ok true => (Raise (bare_error CAuthenticationFailed), close_credential c)
  | Ok false =>
      let value := if all_ascii (token c) then token c else [] in
      if bool_decide (value = []) then (Raise (bare_error CAuthenticationFailed), close_credential c)
      else (Ok (u "Bearer " ++ value), c)
  end.

(** [__enter__] and [__exit__]. *)
Definition enter (c : credential) : py () := raise_if (closed c) (bare_error CAuthenticationFailed).
Definition exit_credential (c : credential) : credential := close_credential c.

(** ** Acquisition *)

(** The exceptions of the module. *)
Inductive acquisition_error :=
| CredentialUnavailable
| CredentialAcquisitionCancelled
| InvalidCredentialDeadline
| Other (e : exn).

(** [_AcquisitionRequest(deadline=..., cancelled=...)]: the deadline and whether it
    is invalid. *)
Definition acquisition_request (deadline : option number) : py (option float * bool) :=
  match deadline with
  | None => Ok (None, false)
  | Some (NBool _) => Ok (None, true)
  | Some n =>
      match number_float n with
      | Ok d => Ok (Some d, negb (isfinite d))
      | Raise e => if reraised e then Raise e else Ok (None, true)
      end
  end.

(** What a call of the cancellation callback and of the monotonic clock give; there
    may be no callback. *)
Record signals := Signals { callback : option (py bool); monotonic : py float }.

(** [_CancellationBoundary.requested]. *)
Definition requested (callback : option (py bool)) : py bool :=
  match callback with None => Ok false | Some m => or_default true m end.

(** [_AcquisitionRequest.cancelled]. *)
Definition acquisition_cancelled (deadline : option float) (s : signals) : py bool :=
  or_default true
    (b ← requested (callback s);
     if (b : bool) then Ok true
     else match deadline with
          | None => Ok false
          | Some d => now ← monotonic s; Ok (fle d now)
          end).

(** A value that untrusted code returned. *)
Inductive provided :=
| PCredential (c : credential)
| PAwaitable
| POther.

(** [_CredentialOutcome]: a value, a failure, or a cancellation by either class. *)
Inductive outcome :=
| Value (v : provided)
| Failed
| CancelledAsyncio
| CancelledConcurrent.

(** The [except] clauses of the provider boundaries. *)
Definition boundary (m : py outcome) : py outcome :=
  match m with
  | Ok o => Ok o
  | Raise AsyncCancelledError => Ok CancelledAsyncio
  | Raise CancelledError => Ok CancelledConcurrent
  | Raise e => if is_exception e then Ok Failed else Raise e
  end.

(** [_SyncProviderBoundary.invoke]. *)
Definition invoke (answer : py provided) : py outcome :=
  boundary (v ← answer; Ok (match v with PAwaitable => Failed | v => Value v end)).

(** [_CredentialOutcome.current]; [now] is the wall clock. *)
Definition current (o : outcome) (now : py Z) : py bool :=
  match o with
  | Value (PCredential c) => or_default false (if closed c then Ok false else t ← now; Ok (t <? expires_at c))
  | _ => Ok false
  end.

(** The credential of an outcome, and it after [_CredentialOutcome.close]. *)
Definition held (o : outcome) : option credential :=
  match o with Value (PCredential c) => Some c | _ => None end.
Definition close_outcome (o : outcome) : option credential := close_credential <$> held o.

(** What one acquisition observes: the signals before and after the provider's
    answer, the answer, and the wall clock at the end. *)
Record acquisition := Acquisition {
  before : signals;
  answer : py provided;
  after : signals;
  wall_clock : py Z;
}.

(** The tests on an outcome, shared by both functions: the error or the credential,
    and the credential of the provider as it is then. *)
Definition settle (deadline : option float) (a : acquisition) (o : outcome)
    : result acquisition_error credential * option credential :=
  match acquisition_cancelled deadline (after a) with
  | Raise e => (Raise (Other e), held o)
  | Ok true => (Raise CredentialAcquisitionCancelled, close_outcome o)
  | Ok false =>
      match current o (wall_clock a) with
      | Raise e => (Raise (Other e), held o)
      | Ok false => (Raise CredentialUnavailable, close_outcome o)
      | Ok true =>
          match held o with
          | Some c => (Ok c, Some c)
          | None => (Raise CredentialUnavailable, None)
          end
      end
  end.

(** The beginning of both functions: the deadline, if the provider is to be called. *)
Definition begin_acquisition (deadline : option number) (s : signals) : result acquisition_error (option float) :=
  match acquisition_request deadline with
  | Raise e => Raise (Other e)
  | Ok (_, true) => Raise InvalidCredentialDeadline
  | Ok (d, false) =>
      match acquisition_cancelled d s with
      | Raise e => Raise (Other e)
      | Ok true => Raise CredentialAcquisitionCancelled
      | Ok false => Ok d
      end
  end.

Definition acquire_credential (deadline : option number) (a : acquisition)
    : result acquisition_error credential * option credential :=
  match begin_acquisition deadline (before a) with
  | Raise e => (Raise e, None)
  | Ok d =>
      match invoke (answer a) with
      | Raise e => (Raise (Other e), None)
      | Ok CancelledAsyncio => (Raise (Other AsyncCancelledError), None)
      | Ok CancelledConcurrent => (Raise (Other CancelledError), None)
      | Ok o => settle d a o
      end
  end.

(** ** Asynchronous acquisition *)

(** [_AsyncProviderBoundary.invoke]: the call of the provider, and what the awaitable
    that it returned gives. *)
Definition invoke_async (call awaited : py provided) : py outcome :=
  boundary
    (pending ← call;
     match pending with
     | PAwaitable => v ← awaited; Ok (Value v)
     | _ => Ok Failed
     end).

(** The credential that the boundary closed itself: a value that is not awaitable. *)
Definition closed_by_boundary (call : py provided) : option credential :=
  match call with Ok (PCredential c) => Some (close_credential c) | _ => None end.

(** The credential of the provider once the outcome is closed. *)
Definition close_both (call : py provided) (o : outcome) : option credential :=
  match closed_by_boundary call with Some c => Some c | None => close_outcome o end.

(** [_drain_provider_task], the callback that the event loop runs when a detached
    task is done: the credential of the provider as it is afterwards. *)
Definition drain_provider_task (task : py outcome) : option credential :=
  match task with Ok o => close_outcome o | Raise _ => None end.

(** What the event loop does to the task that awaits the provider: it may be
    cancelled while it waits, or it may be cancelling when the answer is there. *)
Inductive task_state := Undisturbed | CancelledWaiting | Cancelling.

(** The result, the credential of the provider as it is when the function is left,
    and the provider's task if it is left behind: cancelled, and with
    [_drain_provider_task] as its callback.  [awaited] is what the provider's
    awaitable gives in the end, after the cancellation in that case. *)
Definition acquire_credential_async (deadline : option number) (a : acquisition) (awaited : py provided)
    (task : task_state) : (result acquisition_error credential * option credential) * option (py outcome) :=
  match begin_acquisition deadline (before a) with
  | Raise e => ((Raise e, None), None)
  | Ok d =>
      let o := invoke_async (answer a) awaited in
      match task, o with
      | CancelledWaiting, _ =>
          ((Raise (Other AsyncCancelledError), closed_by_boundary (answer a)), Some o)
      | _, Raise e => ((Raise (Other e), None), None)
      | _, Ok CancelledAsyncio => ((Raise (Other AsyncCancelledError), None), None)
      | _, Ok CancelledConcurrent => ((Raise (Other CancelledError), None), None)
      | Cancelling, Ok o => ((Raise (Other AsyncCancelledError), close_both (answer a) o), None)
      | Undisturbed, Ok Failed =>
          ((fst (settle d a Failed), closed_by_boundary (answer a)), None)
      | Undisturbed, Ok v => (settle d a v, None)
      end
  end.

(** ** Lemmas *)

(** A credential is erased, or its token can stand in a header. *)
Definition erased (c : credential) : Prop := closed c = true ∧ Forall (λ b, b = 0) (token c).
Definition sealed (c : credential) : Prop :=
  closed c = false ∧ token c ≠ [] ∧ Z.of_nat (length (token c)) ≤ MAX_TOKEN_BYTES ∧
  Forall (λ b, 33 ≤ b ≤ 126) (token c).
Definition credential_wf (c : credential) : Prop := erased c ∨ sealed c.

Lemma make_credential_sealed raw expiry c : make_credential raw expiry = Ok c → sealed c.
Proof.
  unfold make_credential, seal_token. destruct raw as [raw|], expiry as [expiry|]; try done.
  destruct (_ || _) eqn:E; [done|]. destruct (utcoffset expiry); [|done].
  destruct (utc_microseconds _ _); [|done]. intros [= <-].
  rewrite !orb_false_iff in E. destruct E as (((_ & Hn) & Hl) & Hb). refl_bool.
  split_and!; [done|done|done|]. cbn. apply Forall_forall. intros b Hin.
  destruct (decide (33 ≤ b ≤ 126)); [done|]. enough (existsb (λ b, (b <=? 32) || (127 <=? b)) raw = true) by congruence.
  apply existsb_exists. exists b. split; [by apply list_elem_of_In|]. destruct (b <=? 32) eqn:E; [done|]. refl_bool.
  cbn. apply Z.leb_le. lia.
Qed.

Lemma close_erased c : credential_wf c → erased (close_credential c).
Proof.
  intros [[Hc Hz]|[Hc _]]; unfold close_credential; rewrite Hc; [done|]. split; [done|]. by apply Forall_replicate.
Qed.

Lemma sealed_ascii c : sealed c → all_ascii (token c) = true.
Proof.
  intros (_ & _ & _ & Hb). apply forallb_Forall. eapply Forall_impl; [done|]. cbn. intros b ?.
  rewrite (proj2 (Z.leb_le 0 b)), (proj2 (Z.ltb_lt b 128)) by lia. done.
Qed.

(** A header is the token of a credential that has not expired. *)
Lemma authorization_header_Ok now c h c' :
  credential_wf c → authorization_header now c = (Ok h, c') →
  c' = c ∧ sealed c ∧ h = u "Bearer " ++ token c ∧ ∃ t, now = Ok t ∧ t < expires_at c.
Proof.
  intros [[Hc _]|Hs]; unfold authorization_header; [by rewrite Hc|]. pose proof Hs as (Hc & Hn & _). rewrite Hc.
  rewrite (sealed_ascii c Hs). destruct now as [t|e]; cbn; [|by destruct (is_exception e)].
  destruct (expires_at c <=? t) eqn:E; [done|]. refl_bool. rewrite bool_decide_eq_false_2 by done.
  intros [= <- <-]. split_and!; eauto.
Qed.

Definition provided_wf (m : py provided) : Prop := ∀ c, m = Ok (PCredential c) → credential_wf c.

(** The callback and the clocks raise no exception that passes every handler. *)
Definition calm_signals (s : signals) : Prop :=
  (∀ m, callback s = Some m → no_interrupt m) ∧ no_interrupt (monotonic s).
Definition calm (a : acquisition) : Prop :=
  calm_signals (before a) ∧ calm_signals (after a) ∧ no_interrupt (wall_clock a).

(** What an acquisition leaves behind: a current credential, or an erased one. *)
Definition settled (handed : option credential) (wall : py Z)
    (x : result acquisition_error credential * option credential) : Prop :=
  match x with
  | (Ok c, remains) => handed = Some c ∧ remains = Some c ∧ sealed c ∧ ∃ t, wall = Ok t ∧ t < expires_at c
  | (Raise _, remains) => is_Some handed → ∃ c, remains = Some c ∧ erased c
  end.

Lemma or_default_calm {A} (d : A) m : no_interrupt m → is_Ok (or_default d m) = true.
Proof. intros Hm. destruct m as [a|e]; [done|]. cbn. by rewrite (Hm e eq_refl). Qed.

Lemma acquisition_cancelled_calm d s : calm_signals s → is_Ok (acquisition_cancelled d s) = true.
Proof.
  intros [Hc Hm]. unfold acquisition_cancelled. apply or_default_calm, calm_bind.
  - unfold requested. destruct (callback s) as [m|]; [|done]. intros e He.
    pose proof (or_default_calm true m (Hc m eq_refl)) as Ho. by rewrite He in Ho.
  - intros []; [done|]. destruct d; [|done]. apply calm_bind; [done|by intros ? ?].
Qed.

Lemma current_calm o w : no_interrupt w → is_Ok (current o w) = true.
Proof.
  intros Hw. destruct o as [[c| |]| | |]; try done. apply or_default_calm. destruct (closed c); [done|].
  apply calm_bind; [done|by intros ? ?].
Qed.

Lemma close_outcome_erased o :
  (∀ c, held o = Some c → credential_wf c) → is_Some (held o) → ∃ c, close_outcome o = Some c ∧ erased c.
Proof. intros Hw [c Hc]. unfold close_outcome. rewrite Hc. cbn. eauto using close_erased. Qed.

Lemma settle_settled d a o :
  calm a → (∀ c, held o = Some c → credential_wf c) → settled (held o) (wall_clock a) (settle d a o).
Proof.
  intros (_ & Ha & Hwc) Hw. unfold settle.
  pose proof (acquisition_cancelled_calm d _ Ha). pose proof (current_calm o _ Hwc).
  destruct (acquisition_cancelled d (after a)) as [[]|e]; [exact (close_outcome_erased o Hw)| |done].
  destruct (current o (wall_clock a)) as [[]|e] eqn:E; [|exact (close_outcome_erased o Hw)|done].
  destruct o as [[c| |]| | |]; try done. cbn in *. destruct (Hw c eq_refl) as [[Hc _]|Hs]; [by rewrite Hc in E|].
  pose proof Hs as (Hc & _). rewrite Hc in E. destruct (wall_clock a) as [t|e]; cbn in E; [|by destruct (is_exception e)].
  injection E as E. refl_bool. split_and!; eauto.
Qed.

(** The credential that the provider hands out in the call. *)
Definition handed_out (m : py provided) : option credential :=
  match m with Ok (PCredential c) => Some c | _ => None end.

Lemma invoke_cases (m : py provided) :
  match invoke m with
  | Ok (Value v) => m = Ok v
  | Ok _ | Raise _ => handed_out m = None
  end.
Proof. destruct m as [[c| |]|e]; try done. unfold invoke, boundary. cbn. by destruct e. Qed.

Lemma acquire_settled deadline a :
  calm a → provided_wf (answer a) →
  match begin_acquisition deadline (before a) with
  | Ok _ => settled (handed_out (answer a)) (wall_clock a) (acquire_credential deadline a)
  | Raise e => acquire_credential deadline a = (Raise e, None)
  end.
Proof.
  intros Hcalm Hw. unfold acquire_credential. destruct (begin_acquisition _ _) as [d|e]; [|done].
  pose proof (invoke_cases (answer a)) as Hi.
  destruct (invoke (answer a)) as [[v| | |]|e]; try (rewrite Hi; by intros []).
  - rewrite Hi in *. assert (handed_out (Ok v) = held (Value v)) as -> by (by destruct v).
    apply settle_settled; [done|]. intros c Hc. apply Hw. destruct v; try done. by injection Hc as ->.
  - rewrite Hi. by apply (settle_settled d a Failed).
Qed.

(** The same for the asynchronous function, where the awaited value counts. *)
Definition handed_async (call awaited : py provided) : option credential :=
  match call with Ok PAwaitable => handed_out awaited | m => handed_out m end.

(** The boundary closes a credential that it was given directly; any other one is
    in the outcome. *)
Lemma handed_async_cases call awaited c :
  provided_wf call → provided_wf awaited → handed_async call awaited = Some c →
  credential_wf c ∧
  (closed_by_boundary call = Some (close_credential c) ∧ invoke_async call awaited = Ok Failed ∨
   closed_by_boundary call = None ∧ invoke_async call awaited = Ok (Value (PCredential c))).
Proof.
  intros Hc Ha Hh. destruct call as [[c'| |]|e]; try done; cbn in Hh.
  - injection Hh as ->. split; [by apply Hc|by left].
  - destruct awaited as [[c'| |]|e]; try done. injection Hh as ->. split; [by apply Ha|by right].
Qed.

(** The function and the callback of the task it leaves behind erase each
    credential that they do not return. *)
Lemma acquire_async_settled deadline a awaited task :
  calm a → provided_wf (answer a) → provided_wf awaited →
  match begin_acquisition deadline (before a) with
  | Ok _ =>
      let '(acquired, detached) := acquire_credential_async deadline a awaited task in
      match detached with
      | None => settled (handed_async (answer a) awaited) (wall_clock a) acquired
      | Some t =>
          task = CancelledWaiting ∧ acquired.1 = Raise (Other AsyncCancelledError) ∧
          ∀ c, handed_async (answer a) awaited = Some c →
            erased (close_credential c) ∧
            (acquired.2 = Some (close_credential c) ∨ drain_provider_task t = Some (close_credential c))
      end
  | Raise e => acquire_credential_async deadline a awaited task = ((Raise e, None), None)
  end.
Proof.
  intros Hcalm Hw Hwa. unfold acquire_credential_async. destruct (begin_acquisition _ _) as [d|e]; [|done].
  cbn zeta. pose proof (λ c, handed_async_cases _ _ c Hw Hwa) as Hh. destruct task.
  - destruct (invoke_async (answer a) awaited) as [[v| | |]|e] eqn:Ei;
      try (intros [c Hc]; destruct (Hh c Hc) as [_ [[_ ?]|[_ ?]]]; done).
    + assert (handed_async (answer a) awaited = held (Value v)) as ->.
      { destruct (answer a) as [[c| |]|e]; try done; cbn in Ei; [|by destruct e].
        destruct awaited as [w|e]; [|by destruct e]. injection Ei as ->. by destruct v. }
      apply settle_settled; [done|]. intros c Hc. destruct v as [c'| |]; try done. injection Hc as ->.
      destruct (answer a) as [[?| |]|e]; try done; cbn in Ei; [|by destruct e].
      destruct awaited as [w|e]; [|by destruct e]. injection Ei as ->. by apply Hwa.
    + pose proof (settle_settled d a Failed Hcalm) as Hs. destruct (settle d a Failed) as [[c|e] r]; cbn.
      * by destruct Hs as [? _].
      * intros [c Hc]. destruct (Hh c Hc) as [Hcw [[Hb _]|[_ ?]]]; [|done].
        exists (close_credential c). split; [done|by apply close_erased].
  - split_and!; [done..|]. intros c Hc. destruct (Hh c Hc) as [Hcw [[Hb _]|[_ Hi]]].
    + split; [by apply close_erased|by left].
    + rewrite Hi. split; [by apply close_erased|by right].
  - destruct (invoke_async (answer a) awaited) as [[v| | |]|e] eqn:Ei;
      intros [c Hc]; destruct (Hh c Hc) as [Hcw [[Hb ?]|[Hb ?]]]; simplify_eq;
      exists (close_credential c); unfold close_both; rewrite Hb; split; [done| |done|];
      by apply close_erased.
Qed.
