(* ===== verification/HttpMessages.v ===== *)
(** * Messages of the HTTP transport

    Models the parts of [python/src/palonexus/transports/http.py] that prepare an
    attempt and interpret what came back: the timeouts, the attempt, the headers and
    the body of a response, the decision or the error in it, and the failures of the
    network.  The [httpx] library is represented by what it reports: the values of a
    header, the chunks of a body, the class of an exception. *)

From stdpp Require Import base list list_numbers numbers strings.
From S2P Require Import Prelude PyString Errors Timestamp PyValue Schemas Decimal Unicode.
From S2P Require Import Structure Wire Interfaces CanonicalJson JsonScan WireText Approvals Models.
From S2P Require Import PyFloat PyUrl CanonicalPath Shell Resources CanonicalUrl Scope Envelope Retry Credentials.
Open Scope Z_scope.

(** ** Timeouts *)
Definition MAX_TIMEOUT_SECONDS : float := of_int 60.

(** [_normalize_timeout]. *)
Definition normalize_timeout (value : number) : py (option float) :=
  match value with
  | NBool _ => Ok None
  | _ =>
      match number_float value with
      | Ok f => Ok (if negb (isfinite f) || fle f fzero || flt MAX_TIMEOUT_SECONDS f then None else Some f)
      | Raise TypeError | Raise OverflowError => Ok None
      | Raise e => if is_value_error e then Ok None else Raise e
      end
  end.

Record timeouts := Timeouts { t_connect : float; t_read : float; t_write : float; t_pool : float }.

(** [TransportTimeouts(...)]. *)
Definition make_timeouts (connect read write pool : number) : py timeouts :=
  c ← normalize_timeout connect;
  r ← normalize_timeout read;
  w ← normalize_timeout write;
  p ← normalize_timeout pool;
  match c, r, w, p with
  | Some c, Some r, Some w, Some p => Ok (Timeouts c r w p)
  | _, _, _, _ => Raise (bare_error CInvalidRequest)
  end.

(** [_request_timeout]. *)
Definition request_timeout (t : timeouts) (remaining : option float) : py timeouts :=
  match remaining with
  | None => Ok t
  | Some rest =>
      raise_if (negb (isfinite rest) || fle rest fzero) (bare_error CInvalidRequest);;
      Ok (Timeouts (py_min (t_connect t) rest) (py_min (t_read t) rest)
                   (py_min (t_write t) rest) (py_min (t_pool t) rest))
  end.

(** [_normalize_deadline]. *)
Definition normalize_deadline (deadline : option number) : py (option float) :=
  match deadline with
  | None => Ok None
  | Some n =>
      except_raise is_exception (bare_error CInvalidRequest)
        (f ← number_float n; raise_if (negb (isfinite f)) ValueError;; Ok (Some f))
  end.

(** ** Attempts *)
Record attempt := Attempt {
  att_request : attr;
  att_body : pybytes;
  att_client_scope_hash : pystr;
  att_request_id : pystr;
  att_correlation_id : pystr;
  att_action_id : pystr;
  att_idempotency_key : pystr;
  att_side_effect : pystr;
}.

(** [hmac.compare_digest] of two strings, which must be ASCII. *)
Definition compare_digest (a b : pystr) : py bool :=
  raise_if (negb (all_ascii a && all_ascii b)) TypeError;; Ok (str_eqb a b).

(** The errors with the identifiers of the request. *)
Definition request_error_of (c : sdk_class) (request : attr) : exn :=
  PaloNexusError (sdk_error_init c (identifier_text "request_id" request) None
                    (identifier_text "correlation_id" request)).
Definition invalid_decision (request : attr) : exn := request_error_of CInvalidDecision request.
Definition unavailable (request : attr) : exn := request_error_of CAuthorizationUnavailable request.

Section attempt.
Context `{UnicodeData}.

(** [_prepare_attempt]; a hash that is not a [str] is [None]. *)
Definition prepare_attempt (request : attr) (scope_hash : option pystr) : py attempt :=
  except_raise is_exception (bare_error CInvalidRequest)
    (raise_if (negb (is_instance Wire.ActionRequest request)) TypeError;;
     validate_structural request;;
     body ← to_json_bytes request;
     document ← to_dict request;
     canonical ← client_scope_hash document;
     supplied ← match scope_hash with Some s => Ok s | None => Raise TypeError end;
     wire SHA256Digest supplied;;
     same ← compare_digest canonical supplied;
     raise_if (negb same) ValueError;;
     request_id ← str_of (attribute "request_id" request);
     correlation_id ← str_of (attribute "correlation_id" request);
     action_id ← str_of (attribute "action_id" request);
     idempotency_key ← str_of (attribute "idempotency_key" request);
     side_effect ← str_of (attribute "side_effect" request);
     Ok (Attempt request body canonical request_id correlation_id action_id idempotency_key side_effect)).
End attempt.

(** ** Timestamps *)

(** [time.strptime(base, "%Y-%m-%dT%H:%M:%S")], where [%S] goes up to 61. *)
Definition strptime (base : pystr) : option datetime :=
  let second := int_of_digits (slice 17 19 base) in
  let t s := Datetime (int_of_digits (slice 0 4 base)) (int_of_digits (slice 5 7 base))
               (int_of_digits (slice 8 10 base)) (int_of_digits (slice 11 13 base))
               (int_of_digits (slice 14 16 base)) s in
  if valid_datetime (t 0) && (0 <=? second) && (second <=? 61) then Some (t second) else None.

(** [_parse_rfc3339]. *)
Definition transport_timestamp (s : pystr) : py timestamp :=
  match ('(base, fraction, zone) ← rfc3339_match s;
         parsed ← strptime base;
         offset ← zone_offset zone;
         Some ((toordinal parsed - UNIX_EPOCH_ORDINAL) * 86400
               + dt_hour parsed * 3600 + dt_minute parsed * 60 + dt_second parsed - offset, fraction)) with
  | Some t => Ok t
  | None => Raise ValueError
  end.

(** ** Bodies *)

(** [_parse_decision]. *)
Definition parse_decision_body (body : pybytes) (a : attempt) : py attr :=
  except_raise is_exception (invalid_decision (att_request a))
    (decision ← parse_decision_json (SBytes body);
     server ← str_of (attribute "server_time" decision);
     server_time ← transport_timestamp server;
     expires ← str_of (attribute "expires_at" decision);
     expires_at ← transport_timestamp expires;
     raise_if (timestamp_order expires_at server_time <=? 0) ValueError;;
     request_id ← str_of (attribute "request_id" decision);
     same_request ← compare_digest request_id (att_request_id a);
     raise_if (negb same_request) ValueError;;
     correlation_id ← str_of (attribute "correlation_id" decision);
     same_correlation ← compare_digest correlation_id (att_correlation_id a);
     raise_if (negb same_correlation) ValueError;;
     scope_hash ← str_of (attribute "client_scope_hash" decision);
     same_scope ← compare_digest scope_hash (att_client_scope_hash a);
     raise_if (negb same_scope) ValueError;;
     authoritative ← str_of (attribute "authoritative_scope_hash" decision);
     wire SHA256Digest authoritative;;
     Ok decision).

(** An identifier of an error, if it has one, is that of the attempt. *)
Definition same_identifier (value : attr) (name : string) (expected : pystr) : py () :=
  match given (attribute name value) with
  | None => Ok ()
  | Some _ =>
      s ← str_of (attribute name value);
      same ← compare_digest s expected;
      raise_if (negb same) ValueError
  end.

(** [_ERROR_TYPES[ProtocolErrorCode(code)]]. *)
Definition error_class (code : pystr) : option sdk_class :=
  head (filter (λ c, u (error_code c) = code)
    [CInvalidRequest; CMissingIdentity; CUnsupportedProtocol; CAuthenticationFailed;
     CAuthorizationUnavailable; CInvalidDecision; CIdempotencyConflict; CApprovalExpired;
     CApprovalScopeMismatch; CCredentialRevoked; CPolicyDenied]).

(** [PaloNexusError.from_protocol]. *)
Definition error_from_protocol (value : attr) : py sdk_error :=
  c ← except_raise (λ e, is_value_error e || bool_decide (e ∈ [AttributeError; KeyError; TypeError]))
        (bare_error CModelValidationError)
        (validate_structural value;;
         code ← str_of (attribute "code" value);
         match error_class code with Some c => Ok c | None => Raise ValueError end);
  Ok (sdk_error_init c (identifier_text "request_id" value) (identifier_text "decision_id" value)
        (identifier_text "correlation_id" value)).

(** [value.retryable is mapped.retryable]. *)
Definition same_retryable (value : attr) (b : bool) : bool :=
  match attribute "retryable" value with Some (ARaw (PBool b')) => Bool.eqb b b' | _ => false end.

(** [_parse_protocol_error]; [None] where it returns [None]. *)
Definition parse_protocol_error (body : pybytes) (a : attempt) : py (option sdk_error) :=
  or_default None
    (value ← parse_error_json (SBytes body);
     same_identifier value "action_id" (att_action_id a);;
     same_identifier value "request_id" (att_request_id a);;
     same_identifier value "correlation_id" (att_correlation_id a);;
     mapped ← error_from_protocol value;
     message ← str_of (attribute "safe_message" value);
     raise_if (negb (str_eqb message (u (canonical_message (err_class mapped))))
               || negb (same_retryable value (default_retryable (err_class mapped)))) ValueError;;
     Ok (Some mapped)).

(** ** Responses *)

(** A response of [httpx]: the status, the values of each header, the chunks of its
    body, and the exception that ends them early. *)
Record response := Response {
  res_status : Z;
  res_header : string → list pystr;
  res_chunks : list pybytes;
  res_broken : option exn;
}.

Record http_response := HttpResponse {
  http_status : Z;
  http_body : pybytes;
  http_retry_after : option pystr;
}.

(** Why a request got no response.  The subclasses of [httpx.RequestError] that the
    transport tells apart: *)
Inductive request_error :=
| ConnectTimeout | ReadTimeout | WriteTimeout | PoolTimeout
| ConnectError | ReadError | WriteError | CloseError
| OtherRequestError.

Inductive send_error :=
| TransientResponse (status : Z)
| RuntimeDeadlineExpired
| RuntimeClosed
| DecodingError
| RequestError (e : request_error)
| Raised (e : exn).

Definition TRANSIENT_STATUS (s : Z) : bool :=
  (s =? 408) || (s =? 425) || (s =? 429) || ((500 <=? s) && (s <? 600)).
Definition REDIRECT_STATUS (s : Z) : bool := (300 <=? s) && (s <=? 308).

(** [_header_value]. *)
Definition header_value (values : list pystr) (maximum : Z) : option pystr :=
  match values with
  | [value] =>
      if bool_decide (value = []) || (maximum <? Z.of_nat (length value)) || negb (str_eqb value (strip value))
         || existsb (λ c, (c <? 32) || (c =? 127)) value
      then None else Some value
  | _ => None
  end.

Section responses.
Context `{UrlData}.

(** The test of the parts of a media type. *)
Definition json_content (parts : list pystr) : bool :=
  match parts with
  | [t] => str_eqb t (u "application/json")
  | [t; p] => str_eqb t (u "application/json") && (str_eqb p (u "charset=utf-8") || str_eqb p (u "charset=" ++ [34] ++ u "utf-8" ++ [34]))
  | _ => false
  end.

(** The test of a declared length. *)
Definition length_allowed (value : pystr) (maximum : Z) : bool :=
  negb (bool_decide (value = [])) && forallb is_digit value && (Z.of_nat (length value) <=? 12)
  && (int_of_digits value <=? maximum).

(** [_validate_response_headers]. *)
Definition validate_response_headers (r : response) (maximum : Z) : py (option pystr) :=
  content_type ← match res_header r "content-type" with [t] => Ok t | _ => Raise ValueError end;
  raise_if (negb (json_content ((λ p, str_lower (strip p)) <$> split_on 59 content_type))) ValueError;;
  match res_header r "content-encoding" with
  | [] => Ok ()
  | [e] => raise_if (negb (str_eqb (str_lower (strip e)) (u "identity"))) ValueError
  | _ => Raise ValueError
  end;;
  match res_header r "content-length" with
  | [] => Ok ()
  | [value] => raise_if (negb (length_allowed value maximum)) ValueError
  | _ => Raise ValueError
  end;;
  Ok (header_value (res_header r "retry-after") 128).

(** The loop over the chunks. *)
Fixpoint read_chunks (maximum : Z) (body : pybytes) (chunks : list pybytes) (broken : option exn) : py pybytes :=
  match chunks with
  | [] => match broken with Some e => Raise e | None => Ok body end
  | chunk :: chunks =>
      raise_if (maximum <? Z.of_nat (length body + length chunk)) ValueError;;
      read_chunks maximum (body ++ chunk) chunks broken
  end.

(** [_read_response_async]. *)
Definition read_response (r : response) (maximum : Z) : result send_error http_response :=
  match (retry_after ← validate_response_headers r maximum;
         body ← read_chunks maximum [] (res_chunks r) (res_broken r);
         Ok (HttpResponse (res_status r) body retry_after)) with
  | Ok x => Ok x
  | Raise e =>
      if negb (is_exception e) then Raise (Raised e)
      else if TRANSIENT_STATUS (res_status r) then Raise (TransientResponse (res_status r))
      else Raise (Raised ValueError)
  end.
End responses.

(** ** Results *)
Record retryable_failure := RetryableFailure {
  rf_failure : retry_failure;
  rf_completion : completion_state;
  rf_retry_after : option pystr;
}.

Inductive http_result :=
| Decided (decision : attr)
| Refused (e : sdk_error)
| Retryable (f : retryable_failure).

(** The failure that a transient status stands for. *)
Definition transient_failure (status : Z) : retry_failure :=
  if status =? 408 then TIMEOUT else if status =? 429 then RATE_LIMITED else UNAVAILABLE.

(** [_response_result]; an error that it returns is raised by its caller. *)
Definition response_result (r : http_response) (a : attempt) : py http_result :=
  if http_status r =? 200 then Decided <$> parse_decision_body (http_body r) a
  else if REDIRECT_STATUS (http_status r) then Raise (invalid_decision (att_request a))
  else
    protocol_error ← parse_protocol_error (http_body r) a;
    match protocol_error with
    | Some e =>
        if bool_decide (err_class e = CAuthorizationUnavailable)
        then Ok (Retryable (RetryableFailure UNAVAILABLE AUTHORIZATION_AMBIGUOUS (http_retry_after r)))
        else Ok (Refused e)
    | None =>
        if TRANSIENT_STATUS (http_status r)
        then Ok (Retryable (RetryableFailure (transient_failure (http_status r)) AUTHORIZATION_AMBIGUOUS
                              (http_retry_after r)))
        else Raise (invalid_decision (att_request a))
    end.

(** [_exception_failure]. *)
Definition exception_failure (e : request_error) : retryable_failure :=
  RetryableFailure
    match e with
    | ConnectTimeout | ReadTimeout | WriteTimeout | PoolTimeout => TIMEOUT
    | ConnectError | ReadError | WriteError | CloseError => CONNECTION
    | OtherRequestError => UNAVAILABLE
    end
    match e with
    | ConnectError | ConnectTimeout | PoolTimeout => NOT_EXECUTED
    | _ => AUTHORIZATION_AMBIGUOUS
    end None.

(** [_status_failure]. *)
Definition status_failure (status : Z) : retryable_failure :=
  RetryableFailure (transient_failure status) AUTHORIZATION_AMBIGUOUS None.

(** [_cancel_requested]; without a callback the call gives [Ok false]. *)
Definition cancel_requested (callback : py bool) : py bool := or_default true callback.
