(* ===== verification/Transport.v ===== *)
(** * The HTTP transport

    Models the transports of [python/src/palonexus/transports/http.py]: the header
    with the credential, one exchange with the server under a deadline and a
    cancellation callback, and the loop of [decide], synchronous and asynchronous.
    What the callback, the clocks, the network and the random source give is recorded
    in the [round] of the loop that observes it; a run over a list of rounds gives the
    requests that were sent and the outcome, or no outcome if the loop goes on. *)

From stdpp Require Import base list list_numbers numbers strings.
From S2P Require Import Prelude PyString Errors Timestamp PyValue Schemas Decimal Unicode.
From S2P Require Import Structure Wire Interfaces CanonicalJson JsonScan WireText Approvals Models.
From S2P Require Import PyFloat PyUrl CanonicalPath Shell Resources CanonicalUrl Scope Envelope Retry Credentials.
From S2P Require Import HttpMessages.
Open Scope Z_scope.

(** [HTTPTransportConfig], as far as the transports read it. *)
Record config := Config {
  cfg_endpoint : pystr;
  cfg_max_response_bytes : Z;
  cfg_timeouts : timeouts;
}.

(** ** Authorization headers *)

(** The identifiers of the attempt in an error. *)
Definition attempt_error (c : sdk_class) (a : attempt) : exn :=
  PaloNexusError (sdk_error_init c (Some (att_request_id a)) None (Some (att_correlation_id a))).

(** [_sync_authorization_header] and [_async_authorization_header], from the result of
    the acquisition: the header, and the credential as it is afterwards.  [now] is
    the wall clock; [cancelled] the exception of the transport. *)
Definition authorization_header_of (cancelled : exn) (a : attempt)
    (acquired : result acquisition_error credential * option credential) (now : py Z)
    : py pystr * option credential :=
  match acquired with
  | (Raise CredentialUnavailable, c) => (Raise (attempt_error CAuthenticationFailed a), c)
  | (Raise InvalidCredentialDeadline, c) => (Raise (attempt_error CInvalidRequest a), c)
  | (Raise CredentialAcquisitionCancelled, c) => (Raise cancelled, c)
  | (Raise (Other e), c) => (Raise e, c)
  | (Ok credential, _) =>
      let '(header, c) := authorization_header now credential in
      (match header with
       | Ok h => Ok h
       | Raise e => if bool_decide (e = bare_error CAuthenticationFailed)
                    then Raise (attempt_error CAuthenticationFailed a) else Raise e
       end, Some (close_credential c))
  end.

Definition sync_authorization_header (a : attempt) (deadline : option float) (o : acquisition) (now : py Z)
    : py pystr * option credential :=
  authorization_header_of CancelledError a (acquire_credential (NFloat <$> deadline) o) now.
Definition async_authorization_header (a : attempt) (deadline : option float) (o : acquisition)
    (awaited : py provided) (task : task_state) (now : py Z)
    : (py pystr * option credential) * option (py outcome) :=
  let '(acquired, detached) := acquire_credential_async (NFloat <$> deadline) o awaited task in
  (authorization_header_of AsyncCancelledError a acquired now, detached).

(** ** One exchange *)

(** A request as [_send_async_client] builds it. *)
Record sent := Sent {
  sent_method : string;
  sent_endpoint : pystr;
  sent_headers : list (string * pystr);
  sent_body : pybytes;
  sent_timeout : timeouts;
}.

Definition outbound (cfg : config) (a : attempt) (header : pystr) (timeout : timeouts) : sent :=
  Sent "POST" (cfg_endpoint cfg)
    [("Accept", u "application/json"); ("Accept-Encoding", u "identity"); ("Authorization", header);
     ("Content-Type", u "application/json"); ("Idempotency-Key", att_idempotency_key a);
     ("X-PaloNexus-Protocol-Version", u "1")]%string
    (att_body a) timeout.

(** What the network gives to a request. *)
Definition exchange : Type := result send_error response.

Section exchange.
Context `{UrlData}.

(** [_send_async_client]. *)
Definition received (cfg : config) (x : exchange) : result send_error http_response :=
  match x with
  | Ok r => read_response r (cfg_max_response_bytes cfg)
  | Raise e => Raise e
  end.

(** One pass of the waiting loops: the callback, the clock, and the operation, which
    may still run, have ended, or have been cancelled by the closing runtime. *)
Inductive progress := Running | Ended (x : exchange) | CancelledByClose (closed : bool).
Record wait := Wait { w_callback : py bool; w_now : float; w_progress : progress }.

(** The loop of [_AsyncNetworkRuntime.run]. *)
Fixpoint run_loop (cfg : config) (wall_deadline : option float) (waits : list wait)
    : option (result send_error http_response) :=
  match waits with
  | [] => None
  | w :: waits =>
      match cancel_requested (w_callback w) with
      | Raise e => Some (Raise (Raised e))
      | Ok true => Some (Raise (Raised CancelledError))
      | Ok false =>
          if match wall_deadline with Some d => fle d (w_now w) | None => false end
          then Some (Raise RuntimeDeadlineExpired)
          else match w_progress w with
               | Running => run_loop cfg wall_deadline waits
               | Ended x => Some (received cfg x)
               | CancelledByClose true => Some (Raise RuntimeClosed)
               | CancelledByClose false => Some (Raise (Raised CancelledError))
               end
      end
  end.

(** [_await_with_controls]: the operation is looked at before the controls. *)
Fixpoint await_loop (cfg : config) (wall_deadline : option float) (waits : list wait)
    : option (result send_error http_response) :=
  match waits with
  | [] => None
  | w :: waits =>
      match w_progress w with
      | Ended x => Some (received cfg x)
      | CancelledByClose _ => Some (Raise (Raised AsyncCancelledError))
      | Running =>
          match cancel_requested (w_callback w) with
          | Raise e => Some (Raise (Raised e))
          | Ok true => Some (Raise (Raised AsyncCancelledError))
          | Ok false =>
              if match wall_deadline with Some d => fle (fsub d (w_now w)) fzero | None => false end
              then Some (Raise (Raised AsyncCancelledError))
              else await_loop cfg wall_deadline waits
          end
      end
  end.

(** ** Rounds *)

(** What one round of the loop observes, in this order: whether the transport is
    closed, the callback and the clock; the clock when the exchange begins, whether
    the runtime is closed, the passes of the waiting loop; the callback and the clock
    after the response; the clock, the callback, the wall clock and the random source
    for the retry; and the callback during the pause. *)
Record round := Round {
  rd_closed : bool;
  rd_callback : py bool;
  rd_now : float;
  rd_started : float;
  rd_runtime_closed : bool;
  rd_waits : list wait;
  rd_callback_after : py bool;
  rd_now_after : float;
  rd_now_retry : float;
  rd_callback_retry : py bool;
  rd_wall : moment;
  rd_random : py number;
  rd_pause : list (py bool);
}.

(** The two transports: the exception of a cancellation, whether a request is sent at
    all, the exchange and the pause. *)
Record flavour := Flavour {
  cancelled_error : exn;
  starts : round → bool;
  perform : config → round → option float → option (result send_error http_response);
  pause : round → float → option (py ());
}.

(** [remaining] seconds from the clock reading [now]. *)
Definition wall_deadline_of (now : float) (remaining : option float) : option float :=
  (λ r, fadd now r) <$> remaining.

Definition sync_perform (cfg : config) (r : round) (remaining : option float)
    : option (result send_error http_response) :=
  if rd_runtime_closed r then Some (Raise RuntimeClosed)
  else run_loop cfg (wall_deadline_of (rd_started r) remaining) (rd_waits r).
Definition async_perform (cfg : config) (r : round) (remaining : option float)
    : option (result send_error http_response) :=
  await_loop cfg (wall_deadline_of (rd_started r) remaining) (rd_waits r).

Definition SLEEP_QUANTUM_SECONDS : float := SpecFloat.SFdiv 53 1024 (of_int 5) (of_int 100).

(** [_sync_sleep] with [time.sleep]. *)
Fixpoint sync_sleep (remaining : float) (callbacks : list (py bool)) : option (py ()) :=
  if negb (flt fzero remaining) then Some (Ok ())
  else match callbacks with
       | [] => None
       | c :: callbacks =>
           match cancel_requested c with
           | Raise e => Some (Raise e)
           | Ok true => Some (Raise CancelledError)
           | Ok false => sync_sleep (fsub remaining (py_min remaining SLEEP_QUANTUM_SECONDS)) callbacks
           end
       end.

(** [_async_sleep]: the callback before and after the pause. *)
Definition async_sleep (callbacks : list (py bool)) : option (py ()) :=
  match callbacks with
  | before :: after :: _ =>
      Some (b ← cancel_requested before;
            raise_if b AsyncCancelledError;;
            b ← cancel_requested after;
            raise_if b AsyncCancelledError)
  | _ => None
  end.

Definition sync_flavour : flavour :=
  Flavour CancelledError (λ r, negb (rd_runtime_closed r)) sync_perform (λ r delay, sync_sleep delay (rd_pause r)).
Definition async_flavour : flavour :=
  Flavour AsyncCancelledError (λ _, true) async_perform (λ r _, async_sleep (rd_pause r)).

(** ** The loop *)
Section decide.
Context `{UnicodeData} `{FloatPow} `{EmailDates}.
Variables (fl : flavour) (cfg : config) (policy : retry_policy).

(** Whether the deadline has come. *)
Definition expired (deadline : option float) (now : float) : bool :=
  match deadline with Some d => fle d now | None => false end.
Definition time_left (deadline : option float) (now : float) : option float :=
  (λ d, fsub d now) <$> deadline.

(** [_ensure_open], the callback and the deadline, in this order. *)
Definition may_proceed (request : attr) (closed : bool) (callback : py bool) (deadline : option float)
    (now : float) : py () :=
  raise_if closed (unavailable request);;
  b ← cancel_requested callback;
  raise_if b (cancelled_error fl);;
  raise_if (expired deadline now) (cancelled_error fl).

(** The body of the [try] statement after the exchange, and its handlers. *)
Definition interpret (request : attr) (a : attempt) (r : round) (deadline : option float)
    (x : result send_error http_response) : py http_result :=
  match x with
  | Ok response =>
      b ← cancel_requested (rd_callback_after r);
      raise_if b (cancelled_error fl);;
      raise_if (expired deadline (rd_now_after r)) (cancelled_error fl);;
      response_result response a
  | Raise (TransientResponse status) => Ok (Retryable (status_failure status))
  | Raise RuntimeDeadlineExpired => Raise (cancelled_error fl)
  | Raise RuntimeClosed => Raise (unavailable request)
  | Raise DecodingError => Raise (invalid_decision request)
  | Raise (RequestError e) => Ok (Retryable (exception_failure e))
  | Raise (Raised e) => Raise (if is_value_error e then invalid_decision request else e)
  end.

(** The call of [authorization_retry]. *)
Definition retry_request (a : attempt) (r : round) (start : float) (deadline : option float) (n : Z)
    (f : retryable_failure) (cancelled : bool) : retry_call :=
  RetryCall (NInt n) (NFloat (py_max fzero (fsub (rd_now_retry r) start))) (att_side_effect a)
    (rf_failure f) (Some (rf_completion f)) (Some (att_idempotency_key a)) (rf_retry_after f) None
    cancelled (NFloat <$> time_left deadline (rd_now_retry r)) (rd_wall r) (rd_random r).

(** The end of a round after a failure: the pause, or the error. *)
Definition after_failure (request : attr) (a : attempt) (r : round) (start : float) (deadline : option float)
    (n : Z) (f : retryable_failure) : option (py ()) :=
  match cancel_requested (rd_callback_retry r) with
  | Raise e => Some (Raise e)
  | Ok cancelled =>
      match authorization_retry policy (retry_request a r start deadline n f cancelled) with
      | Ok (RetryDecision true (Some delay) _) => pause fl r delay
      | Ok _ => Some (Raise (unavailable request))
      | Raise e => Some (Raise e)
      end
  end.

Fixpoint decide_loop (request : attr) (a : attempt) (header : pystr) (start : float) (deadline : option float)
    (n : Z) (rounds : list round) : list sent * option (py attr) :=
  match rounds with
  | [] => ([], None)
  | r :: rounds =>
      let remaining := time_left deadline (rd_now r) in
      match (may_proceed request (rd_closed r) (rd_callback r) deadline (rd_now r);;
             request_timeout (cfg_timeouts cfg) remaining) with
      | Raise e => ([], Some (Raise e))
      | Ok timeout =>
          let s := if starts fl r then [outbound cfg a header timeout] else [] in
          match perform fl cfg r remaining with
          | None => (s, None)
          | Some x =>
              match interpret request a r deadline x with
              | Raise e => (s, Some (Raise e))
              | Ok (Decided d) => (s, Some (Ok d))
              | Ok (Refused e) => (s, Some (Raise (PaloNexusError e)))
              | Ok (Retryable f) =>
                  match after_failure request a r start deadline n f with
                  | None => (s, None)
                  | Some (Raise e) => (s, Some (Raise e))
                  | Some (Ok ()) =>
                      let '(more, result) := decide_loop request a header start deadline (n + 1) rounds in
                      (s ++ more, result)
                  end
              end
          end
      end
  end.

(** What [decide] observes before its loop. *)
Record opening := Opening {
  op_closed : bool;
  op_callback : py bool;
  op_start : float;
}.

(** [decide]; [authorize] gives the header for the attempt and the deadline. *)
Definition decide_with (request : attr) (scope_hash : option pystr) (deadline : option number) (o : opening)
    (authorize : attempt → option float → py pystr) (rounds : list round) : list sent * option (py attr) :=
  match (a ← prepare_attempt request scope_hash;
         d ← normalize_deadline deadline;
         may_proceed request (op_closed o) (op_callback o) d (op_start o);;
         header ← authorize a d;
         Ok (a, d, header)) with
  | Raise e => ([], Some (Raise e))
  | Ok (a, d, header) => decide_loop request a header (op_start o) d 1 rounds
  end.
End decide.

(** [HTTPAuthorizationTransport.decide] and [AsyncHTTPAuthorizationTransport.decide]. *)
Definition decide_sync `{UnicodeData} `{FloatPow} `{EmailDates} (cfg : config) (policy : retry_policy)
    (request : attr) (scope_hash : option pystr) (deadline : option number) (o : opening)
    (credentials : acquisition) (wall : py Z) (rounds : list round) : list sent * option (py attr) :=
  decide_with sync_flavour cfg policy request scope_hash deadline o
    (λ a d, (sync_authorization_header a d credentials wall).1) rounds.
Definition decide_async `{UnicodeData} `{FloatPow} `{EmailDates} (cfg : config) (policy : retry_policy)
    (request : attr) (scope_hash : option pystr) (deadline : option number) (o : opening)
    (credentials : acquisition) (awaited : py provided) (task : task_state) (wall : py Z) (rounds : list round)
    : list sent * option (py attr) :=
  decide_with async_flavour cfg policy request scope_hash deadline o
    (λ a d, (async_authorization_header a d credentials awaited task wall).1.1) rounds.
End exchange.
