(* ===== verification/TransportFacts.v ===== *)
(** * What the HTTP transport guarantees

    Whatever the callback, the clocks and the network do, [decide] sends the same
    request at most as often as the policy allows, returns only a decision that is
    bound to the attempt, and raises only safe errors; it ends when the exchanges and
    the pauses end; both transports behave in the same way. *)

From stdpp Require Import base list list_numbers numbers strings.
From S2P Require Import Prelude PyString Errors Timestamp PyValue Schemas Decimal Unicode.
From S2P Require Import Structure StructureFacts Conformance Wire WireSound WireProtocol Interfaces CanonicalJson JsonScan WireText WireTextFacts.
From S2P Require Import Approvals Models PyFloat PyUrl CanonicalPath Shell Resources CanonicalUrl Scope Envelope.
From S2P Require Import Calm Retry Credentials HttpMessages Transport.
Open Scope Z_scope.

(** ** Decisions *)

(** The decision [d] answers the attempt [a]: it is the content of a conforming
    document, names the request, its correlation and its scope, and expires after
    the time of the server. *)
Definition answers (a : attempt) (d : attr) : Prop :=
  (∃ body v, strict_loads_json (SBytes body) = Ok v ∧ json_document v = true ∧
     valid_document AuthorizationDecision v = true ∧ parse_with AuthorizationDecision v = Ok d) ∧
  str_of (attribute "request_id" d) = Ok (att_request_id a) ∧
  str_of (attribute "correlation_id" d) = Ok (att_correlation_id a) ∧
  str_of (attribute "client_scope_hash" d) = Ok (att_client_scope_hash a) ∧
  ∃ server expires s e, str_of (attribute "server_time" d) = Ok server ∧ transport_timestamp server = Ok s ∧
    str_of (attribute "expires_at" d) = Ok expires ∧ transport_timestamp expires = Ok e ∧ 0 < timestamp_order e s.

Lemma compare_digest_true a b : compare_digest a b = Ok true → a = b.
Proof. unfold compare_digest. intros Hc. inv_ok. by apply str_eqb_eq. Qed.

Lemma decision_is_document : AuthorizationDecision ∈ DOCUMENT_CLASSES.
Proof. unfold DOCUMENT_CLASSES. in_list. Qed.

Lemma parse_decision_body_answers body a d : parse_decision_body body a = Ok d → answers a d.
Proof.
  unfold parse_decision_body. intros Hd%except_raise_Ok. inv_ok. refl_bool.
  repeat match goal with E : compare_digest _ _ = Ok true |- _ => apply compare_digest_true in E; subst end.
  pose proof (parse_text_outcome AuthorizationDecision (SBytes body) decision_is_document) as Ho.
  unfold parse_decision_json in Hx. rewrite Hx in Ho. unfold answers. split; [eauto|]. eauto 12.
Qed.

Lemma response_result_decided r a d : response_result r a = Ok (Decided d) → answers a d.
Proof.
  unfold response_result. destruct (_ =? 200).
  - destruct (parse_decision_body _ _) as [d'|] eqn:E; [|done]. intros [= <-]. by eapply parse_decision_body_answers.
  - destruct (REDIRECT_STATUS _); [done|]. destruct (parse_protocol_error _ _) as [[e|]|]; cbn; [..|done].
    + by destruct (bool_decide _).
    + by destruct (TRANSIENT_STATUS _).
Qed.

(** ** Timeouts *)
Definition timeouts_le (t t' : timeouts) : Prop :=
  fle (t_connect t) (t_connect t') = true ∧ fle (t_read t) (t_read t') = true ∧
  fle (t_write t) (t_write t') = true ∧ fle (t_pool t) (t_pool t') = true.
Definition timeouts_finite (t : timeouts) : Prop :=
  isfinite (t_connect t) = true ∧ isfinite (t_read t) = true ∧ isfinite (t_write t) = true ∧ isfinite (t_pool t) = true.

(** Timeouts that [TransportTimeouts] accepts are positive and at most a minute. *)
Lemma make_timeouts_finite c r w p t : make_timeouts c r w p = Ok t → timeouts_finite t.
Proof.
  assert (∀ n f, normalize_timeout n = Ok (Some f) → isfinite f = true) as Hn.
  { intros n f. unfold normalize_timeout. destruct n; [done|..];
      (destruct (number_float _) as [g|[]] eqn:E; try done; destruct (_ || _) eqn:Eo; try done;
       intros [= <-]; rewrite !orb_false_iff in Eo; by destruct Eo as [[Eo%negb_false_iff _] _]). }
  unfold make_timeouts. intros Ht. inv_ok. repeat case_match; try done. injection Ht as <-.
  split_and!; eapply Hn; eauto.
Qed.

Lemma py_min_finite a b : isfinite a = true → isfinite b = true → isfinite (py_min a b) = true.
Proof. unfold py_min. by destruct (flt b a). Qed.

Lemma request_timeout_bounds t remaining t' :
  timeouts_finite t → request_timeout t remaining = Ok t' →
  timeouts_le t' t ∧ ∀ rest, remaining = Some rest → timeouts_le t' (Timeouts rest rest rest rest).
Proof.
  intros (H1 & H2 & H3 & H4). unfold request_timeout. destruct remaining as [rest|].
  - intros ([] & Hr%raise_if_Ok_iff & [= <-])%bind_Ok_iff. apply orb_false_iff in Hr as [Hr%negb_false_iff _]. split.
    + split_and!; by apply py_min_le.
    + intros ? [= <-]. split_and!; apply py_min_le_r; auto using py_min_finite.
  - intros [= <-]. split; [|done]. split_and!; by apply fle_refl.
Qed.

(** ** Parsers that raise only exceptions *)
Lemma calm_timestamp s : no_interrupt (transport_timestamp s).
Proof. unfold transport_timestamp. solve_calm. Qed.
Lemma calm_compare a b : no_interrupt (compare_digest a b).
Proof. unfold compare_digest. solve_calm. Qed.
Lemma calm_digest s : no_interrupt (wire SHA256Digest s).
Proof. apply calm_wire_string. Qed.
#[export] Hint Resolve calm_timestamp calm_compare calm_digest : calm.

Lemma parse_decision_body_raises body a e :
  parse_decision_body body a = Raise e → e = invalid_decision (att_request a).
Proof.
  apply except_raise_calm. apply calm_bind; [by apply calm_parse_text, decision_is_document|intros d]. solve_calm.
Qed.

Lemma error_is_document : ProtocolError ∈ DOCUMENT_CLASSES.
Proof. unfold DOCUMENT_CLASSES. in_list. Qed.

Lemma calm_same_identifier value name expected : no_interrupt (same_identifier value name expected).
Proof. unfold same_identifier. solve_calm. Qed.
#[export] Hint Resolve calm_same_identifier : calm.

Lemma error_from_protocol_wf value e : error_from_protocol value = Ok e → sdk_error_wf e.
Proof. intros (c & _ & [= <-])%bind_Ok_iff. apply sdk_error_init_wf. Qed.

Lemma or_default_total {A} (Q : A → Prop) (m : py (option A)) :
  no_interrupt m → (∀ e, m = Ok (Some e) → Q e) → ∃ o, or_default None m = Ok o ∧ ∀ e, o = Some e → Q e.
Proof.
  intros Hm HQ. destruct m as [o|x]; cbn; [|rewrite (Hm x eq_refl); by exists None].
  exists o. split; [done|]. intros e ->. by apply HQ.
Qed.

Lemma parse_protocol_error_total body a :
  ∃ o, parse_protocol_error body a = Ok o ∧ ∀ e, o = Some e → sdk_error_wf e.
Proof.
  unfold parse_protocol_error. apply or_default_total.
  - apply calm_bind; [by apply calm_parse_text, error_is_document|intros value]. solve_calm.
    apply calm_except; [done|]. solve_calm.
  - intros e He. inv_ok. by eapply error_from_protocol_wf.
Qed.

(** ** The loop *)
Section loop.
Context `{UrlData} `{UnicodeData} `{FloatPow} `{EmailDates}.
Variables (fl : flavour) (cfg : config) (policy : retry_policy).

(** A request of the attempt that is sent in the round [r]: the transport is open and the
    caller does not cancel, the clock of the round is before the deadline, and no
    timeout goes beyond what is left at that time. *)
Definition sent_for (a : attempt) (header : pystr) (deadline : option float) (r : round) (s : sent) : Prop :=
  ∃ timeout, s = outbound cfg a header timeout ∧ rd_closed r = false ∧ cancel_requested (rd_callback r) = Ok false ∧
    timeouts_le timeout (cfg_timeouts cfg) ∧
    ∀ d, deadline = Some d →
      let left := fsub d (rd_now r) in fle d (rd_now r) = false ∧ timeouts_le timeout (Timeouts left left left left).

(** The requests [sends] are those of some of the rounds, one for each, in order. *)
Definition sent_in (a : attempt) (header : pystr) (deadline : option float) (rounds : list round) (sends : list sent)
    : Prop :=
  ∃ rs, rs `sublist_of` rounds ∧ Forall2 (sent_for a header deadline) rs sends.

Lemma may_proceed_Ok request closed callback deadline now :
  may_proceed fl request closed callback deadline now = Ok () →
  closed = false ∧ cancel_requested callback = Ok false ∧ expired deadline now = false.
Proof.
  unfold may_proceed.
  intros ([] & Hc%raise_if_Ok_iff & (b & Hb & ([] & Hb'%raise_if_Ok_iff & He%raise_if_Ok_iff)%bind_Ok_iff)%bind_Ok_iff)%bind_Ok_iff.
  by subst b.
Qed.

Lemma round_sent a header request r deadline timeout :
  timeouts_finite (cfg_timeouts cfg) →
  (may_proceed fl request (rd_closed r) (rd_callback r) deadline (rd_now r);;
   request_timeout (cfg_timeouts cfg) (time_left deadline (rd_now r))) = Ok timeout →
  sent_for a header deadline r (outbound cfg a header timeout).
Proof.
  intros Hf ([] & (Hc & Hb & He)%may_proceed_Ok & Ht)%bind_Ok_iff. exists timeout.
  destruct (request_timeout_bounds _ _ _ Hf Ht) as [Hl Hd]. split_and!; [done..|].
  intros d ->. split; [done|by apply Hd].
Qed.

Lemma sent_in_nil a header deadline rounds : sent_in a header deadline rounds [].
Proof. exists []. split; [apply sublist_nil_l|constructor]. Qed.

Lemma sent_in_cons a header deadline r rounds s sends :
  (∀ x, x ∈ s → sent_for a header deadline r x) → (length s ≤ 1)%nat →
  sent_in a header deadline rounds sends → sent_in a header deadline (r :: rounds) (s ++ sends).
Proof.
  intros Hs Hl (rs & Hrs & Hall). destruct s as [|x [|y s]]; [|..|cbn in Hl; lia].
  - exists rs. split; [by apply sublist_cons|done].
  - exists (r :: rs). split; [by apply sublist_skip|]. constructor; [|done]. apply Hs. by apply list_elem_of_singleton.
Qed.

(** A pause means that the policy permits another attempt. *)
Lemma after_failure_Ok request a r start deadline n f :
  policy_valid policy = true → after_failure fl policy request a r start deadline n f = Some (Ok ()) →
  n < max_attempts policy.
Proof.
  intros Hp. unfold after_failure. destruct (cancel_requested _) as [c|]; [|done].
  pose proof (authorization_retry_sound policy (retry_request a r start deadline n f c) Hp) as Hs.
  destruct (authorization_retry _ _) as [[[] [delay|] reason]|]; try done.
  intros _. destruct Hs as (r' & _ & Hs). destruct Hs as (_ & _ & _ & _ & (k & Hk & Hn) & _).
  cbn in Hk. injection Hk as <-. lia.
Qed.

Lemma interpret_decided request a r deadline x d :
  interpret fl request a r deadline x = Ok (Decided d) → answers a d.
Proof.
  destruct x as [response|[]]; cbn; try done. intros Hd. inv_ok. by eapply response_result_decided.
Qed.

Lemma decide_loop_spec request a header start deadline n rounds sends result :
  policy_valid policy = true → timeouts_finite (cfg_timeouts cfg) → n ≤ max_attempts policy →
  decide_loop fl cfg policy request a header start deadline n rounds = (sends, result) →
  Z.of_nat (length sends) ≤ max_attempts policy - n + 1 ∧ sent_in a header deadline rounds sends ∧
  ∀ d, result = Some (Ok d) → answers a d.
Proof.
  intros Hp Hf. revert n sends result. induction rounds as [|r rounds IH]; intros n sends result Hn Hd; cbn in Hd.
  { simplify_eq. cbn. split_and!; [lia|apply sent_in_nil|done]. }
  destruct (may_proceed _ _ _ _ _ _ ≫= _) as [timeout|e] eqn:Em; [|simplify_eq; cbn; split_and!; [lia|apply sent_in_nil|done]].
  set (s := if starts fl r then _ else _) in Hd.
  assert ((∀ x, x ∈ s → sent_for a header deadline r x) ∧ (length s ≤ 1)%nat) as [Hs Hl].
  { unfold s. destruct (starts fl r); cbn; split; try lia; intros x; [|by rewrite elem_of_nil].
    intros ->%list_elem_of_singleton. by eapply round_sent. }
  clearbody s. assert (sent_in a header deadline (r :: rounds) s) as Hin.
  { rewrite <-(app_nil_r s). by apply sent_in_cons, sent_in_nil. }
  assert (Z.of_nat (length s) ≤ max_attempts policy - n + 1) by lia.
  destruct (perform _ _ _ _) as [x|]; [|by simplify_eq].
  destruct (interpret _ _ _ _ _ _) as [[d|e|f]|e] eqn:Ei; [|by simplify_eq| |by simplify_eq].
  { simplify_eq. split_and!; [done..|]. intros d' [= <-]. by eapply interpret_decided. }
  destruct (after_failure _ _ _ _ _ _ _ _ _) as [[[]|e]|] eqn:Ea; [|by simplify_eq..].
  apply after_failure_Ok in Ea; [|done].
  destruct (decide_loop _ _ _ _ _ _ _ _ _ rounds) as [more res] eqn:El. simplify_eq.
  destruct (IH (n + 1) _ _ ltac:(lia) El) as (Hl' & Hs' & Hr). rewrite length_app.
  split_and!; [lia|by apply sent_in_cons|done].
Qed.

(** The attempt that is prepared from a request. *)
Lemma prepare_attempt_Ok request hash a :
  prepare_attempt request hash = Ok a →
  att_request a = request ∧ is_instance Wire.ActionRequest request = true ∧
  to_json_bytes request = Ok (att_body a) ∧
  (∃ document, to_dict request = Ok document ∧ client_scope_hash document = Ok (att_client_scope_hash a)) ∧
  hash = Some (att_client_scope_hash a) ∧
  str_of (attribute "request_id" request) = Ok (att_request_id a) ∧
  str_of (attribute "correlation_id" request) = Ok (att_correlation_id a) ∧
  str_of (attribute "idempotency_key" request) = Ok (att_idempotency_key a).
Proof.
  unfold prepare_attempt. intros Ha%except_raise_Ok. inv_ok. refl_bool.
  destruct hash as [supplied|]; [|done]. inv_ok.
  repeat match goal with E : compare_digest _ _ = Ok true |- _ => apply compare_digest_true in E; subst end.
  cbn. split_and!; eauto.
Qed.

(** The attempt carries the content, the identifiers and the scope of the request. *)
Definition attempt_of (request : attr) (hash : option pystr) (a : attempt) : Prop :=
  is_instance Wire.ActionRequest request = true ∧ to_json_bytes request = Ok (att_body a) ∧
  (∃ document, to_dict request = Ok document ∧ client_scope_hash document = Ok (att_client_scope_hash a)) ∧
  hash = Some (att_client_scope_hash a) ∧
  str_of (attribute "request_id" request) = Ok (att_request_id a) ∧
  str_of (attribute "correlation_id" request) = Ok (att_correlation_id a) ∧
  str_of (attribute "idempotency_key" request) = Ok (att_idempotency_key a).

(** C5: The transport keeps its contract.  Whatever the callback, the clocks and the
    server do, [decide] sends at most [max_attempts] requests; each of them is the
    same POST to the configured endpoint with the canonical bytes of the action
    request and its idempotency key.  Each belongs to a round of its own, in order:
    in that round the transport is open, the callback does not cancel, the clock is
    before the deadline, and the timeouts are within the configured ones and the
    time that is left by that clock.  A decision that it returns
    was parsed from a conforming document, names the request, its correlation and the
    client scope that was recomputed from the request, and expires after the time of
    the server. *)
Theorem transport_contract request hash deadline o authorize rounds sends result :
  policy_valid policy = true → timeouts_finite (cfg_timeouts cfg) →
  decide_with fl cfg policy request hash deadline o authorize rounds = (sends, result) →
  Z.of_nat (length sends) ≤ max_attempts policy ∧
  (sends = [] ∧ (∀ d, result ≠ Some (Ok d)) ∨
   ∃ a d header, attempt_of request hash a ∧ normalize_deadline deadline = Ok d ∧ authorize a d = Ok header ∧
     sent_in a header d rounds sends ∧ ∀ decision, result = Some (Ok decision) → answers a decision).
Proof.
  intros Hp Hf. unfold decide_with.
  pose proof (policy_attempts policy Hp) as [Hmax _].
  destruct (_ ≫= _) as [[[a d] header]|e] eqn:E; [|intros [= <- <-]; split; [cbn; lia|by left]].
  apply bind_Ok_iff in E as (a' & Ha & (d' & Hd & ([] & _ & (h & Hh & [= -> -> ->])%bind_Ok_iff)%bind_Ok_iff)%bind_Ok_iff).
  intros Hl. destruct (decide_loop_spec _ _ _ _ _ 1 _ _ _ Hp Hf Hmax Hl) as (Hlen & Hs & Hr).
  split; [lia|]. right. exists a, d, header. apply prepare_attempt_Ok in Ha as (_ & Ha). auto.
Qed.

(** ** Termination *)

(** The exchange and the pause of a round end. *)
Definition round_ends (r : round) : Prop :=
  (∀ remaining, perform fl cfg r remaining ≠ None) ∧
  ∀ delay, isfinite delay = true → (fle delay (max_delay policy) = true ∨ fle delay (max_retry_after policy) = true) →
    pause fl r delay ≠ None.

Lemma after_failure_ends request a r start deadline n f :
  policy_valid policy = true → round_ends r → after_failure fl policy request a r start deadline n f ≠ None.
Proof.
  intros Hp [_ Hr]. unfold after_failure. destruct (cancel_requested _) as [c|]; [|done].
  pose proof (authorization_retry_sound policy (retry_request a r start deadline n f c) Hp) as Hs.
  destruct (authorization_retry _ _) as [[[] [delay|] reason]|]; try done.
  destruct Hs as (r' & [= <-] & _ & _ & _ & _ & _ & Hd & _ & Hb & _). by apply Hr.
Qed.

Lemma decide_loop_ends request a header start deadline n rounds :
  policy_valid policy = true → Forall round_ends rounds → n ≤ max_attempts policy →
  max_attempts policy < n + Z.of_nat (length rounds) →
  (decide_loop fl cfg policy request a header start deadline n rounds).2 ≠ None.
Proof.
  intros Hp Hr. revert n. induction Hr as [|r rounds Hr _ IH]; intros n Hn Hl; [cbn in Hl; lia|]. cbn in *.
  destruct (may_proceed _ _ _ _ _ _ ≫= _); [|done]. destruct (perform _ _ _ _) as [x|] eqn:E; [|by apply Hr in E].
  destruct (interpret _ _ _ _ _ _) as [[d|e|f]|e]; [done..| |done].
  pose proof (after_failure_ends request a r start deadline n f Hp Hr).
  destruct (after_failure _ _ _ _ _ _ _ _ _) as [[[]|e]|] eqn:Ea; [|done..].
  apply after_failure_Ok in Ea; [|done]. specialize (IH (n + 1) ltac:(lia) ltac:(lia)).
  by destruct (decide_loop _ _ _ _ _ _ _ _ _ rounds).
Qed.

(** C28: The transport ends.  If the exchanges and the permitted pauses end, [decide]
    returns or raises within [max_attempts] rounds, and at most 100 of them are
    needed under a valid policy. *)
Theorem transport_ends request hash deadline o authorize rounds :
  policy_valid policy = true → max_attempts policy ≤ Z.of_nat (length rounds) → Forall round_ends rounds →
  max_attempts policy ≤ 100 ∧ ∃ r, (decide_with fl cfg policy request hash deadline o authorize rounds).2 = Some r.
Proof.
  intros Hp Hl Hr. split; [by apply policy_valid_facts|]. unfold decide_with.
  pose proof (policy_attempts policy Hp) as [Hmax _].
  destruct (_ ≫= _) as [[[a d] header]|e]; [|cbn; eauto].
  pose proof (decide_loop_ends request a header (op_start o) d 1 rounds Hp Hr Hmax ltac:(lia)).
  destruct (_.2) eqn:E; [eauto|done].
Qed.

(** ** Errors *)

(** An SDK error with valid identifiers only, or the cancellation of the transport. *)
Definition safe_error (e : exn) : Prop := (∃ s, e = PaloNexusError s ∧ sdk_error_wf s) ∨ e = cancelled_error fl.

Lemma request_error_safe c request : safe_error (request_error_of c request).
Proof. left. eexists. split; [done|]. apply sdk_error_init_wf. Qed.
Lemma bare_error_safe c : safe_error (bare_error c).
Proof. left. eexists. split; [done|]. apply sdk_error_init_wf. Qed.

(** The observations of a round raise nothing that handlers do not catch. *)
Record calm_round (r : round) : Prop := {
  calm_callback : no_interrupt (rd_callback r);
  calm_callback_after : no_interrupt (rd_callback_after r);
  calm_callback_retry : no_interrupt (rd_callback_retry r);
  calm_random : ∀ e, random_value (rd_random r) ≠ Raise e;
  calm_perform : ∀ remaining e, perform fl cfg r remaining = Some (Raise (Raised e)) →
    is_value_error e = true ∨ e = cancelled_error fl;
  calm_pause : ∀ delay e, pause fl r delay = Some (Raise e) → e = cancelled_error fl;
}.

Lemma cancel_requested_calm c e : no_interrupt c → cancel_requested c ≠ Raise e.
Proof. intros Hc He. pose proof (or_default_calm true c Hc) as Ho. unfold cancel_requested in He. by rewrite He in Ho. Qed.

Lemma may_proceed_safe request closed callback deadline now e :
  no_interrupt callback → may_proceed fl request closed callback deadline now = Raise e → safe_error e.
Proof.
  intros Hc. unfold may_proceed. destruct closed; [intros [= <-]; apply request_error_safe|].
  destruct (cancel_requested callback) as [[]|] eqn:E; cbn; [intros [= <-]; by right| |by apply cancel_requested_calm in E].
  destruct (expired _ _); [|done]. intros [= <-]. by right.
Qed.

Lemma response_result_safe response a :
  match response_result response a with
  | Ok (Refused e) => sdk_error_wf e
  | Ok _ => True
  | Raise e => safe_error e
  end.
Proof.
  unfold response_result. destruct (_ =? 200).
  - destruct (parse_decision_body _ _) as [d|e] eqn:E; [done|].
    apply parse_decision_body_raises in E as ->. apply request_error_safe.
  - destruct (REDIRECT_STATUS _); [apply request_error_safe|].
    destruct (parse_protocol_error_total (http_body response) a) as (o & -> & Ho). cbn. destruct o as [e|].
    + destruct (bool_decide _); [done|by apply Ho].
    + destruct (TRANSIENT_STATUS _); [done|apply request_error_safe].
Qed.

Lemma interpret_safe request a r deadline remaining x :
  calm_round r → perform fl cfg r remaining = Some x →
  match interpret fl request a r deadline x with
  | Ok (Refused e) => sdk_error_wf e
  | Ok _ => True
  | Raise e => safe_error e
  end.
Proof.
  intros Hr Hx. destruct x as [response|[]]; cbn; try done; try apply request_error_safe; [|by right|].
  - destruct (cancel_requested _) as [[]|] eqn:E; cbn; [by right| |by apply cancel_requested_calm in E; [|apply Hr]].
    destruct (expired _ _); cbn; [by right|]. apply (response_result_safe response a).
  - destruct (is_value_error e) eqn:E; [apply request_error_safe|].
    destruct (calm_perform r Hr _ _ Hx) as [?| ->]; [congruence|by right].
Qed.

Lemma request_timeout_safe t remaining e : request_timeout t remaining = Raise e → safe_error e.
Proof.
  unfold request_timeout. destruct remaining as [rest|]; [|done].
  destruct (_ || _); [|done]. intros [= <-]. apply bare_error_safe.
Qed.


(** The policy raises nothing in such a round. *)
Hypothesis dates_calm : ∀ s, no_interrupt (parsedate_to_datetime s).

Lemma or_none_calm {A} (m : py (option A)) e : no_interrupt m → or_none m ≠ Raise e.
Proof. intros Hm. unfold or_none. destruct m as [o|x]; [done|]. by rewrite (Hm x eq_refl). Qed.

Lemma calm_utc m offset : no_interrupt (utc_microseconds m offset).
Proof. unfold utc_microseconds. solve_calm. Qed.
#[local] Hint Resolve calm_utc : calm.

Lemma retry_after_calm value now clk e : retry_after policy value now clk ≠ Raise e.
Proof.
  unfold retry_after. destruct value as [value|]; [|done]. do 2 (case_match; [try done; by case_match|]).
  apply or_none_calm. solve_calm.
Qed.

Lemma backoff_calm n source e : (∀ e, random_value source ≠ Raise e) → backoff policy n source ≠ Raise e.
Proof.
  intros Hs. apply or_none_calm. apply calm_bind; [unfold py_pow; solve_calm|intros power].
  apply calm_bind; [|intros; solve_calm]. intros x Hx. by apply Hs in Hx.
Qed.

Lemma stop_not_raised reason e : reason ≠ RETRY_SCHEDULED → stop reason ≠ Raise e.
Proof. intros Hr. by rewrite stop_Ok. Qed.

Lemma scheduled_not_raised delay elapsed deadline e : scheduled policy delay elapsed deadline ≠ Raise e.
Proof.
  unfold scheduled. destruct (isfinite delay && fle fzero delay) eqn:E; cbn [negb]; [|by apply stop_not_raised].
  destruct (_ || _); [by apply stop_not_raised|]. case_match; [by apply stop_not_raised|].
  unfold make_retry_decision. cbn. by rewrite E.
Qed.

Lemma authorization_retry_calm a r start deadline n f c e :
  (∀ e, random_value (rd_random r) ≠ Raise e) →
  authorization_retry policy (retry_request a r start deadline n f c) ≠ Raise e.
Proof.
  intros Hr. unfold authorization_retry.
  assert (∃ d, Retry.normalize_deadline (deadline_remaining (retry_request a r start deadline n f c)) = Ok (Some d)) as [d Hd].
  { cbn. destruct deadline; cbn; eauto. }
  rewrite Hd. cbn. unfold decided. repeat (case_match; [by apply stop_not_raised|]).
  destruct (retry_after _ _ _ _) as [[x|]|x] eqn:Ea; cbn; [apply scheduled_not_raised| |by apply retry_after_calm in Ea].
  destruct (backoff _ _ _) as [[x|]|x] eqn:Eb; cbn; [apply scheduled_not_raised|by apply stop_not_raised|].
  by apply backoff_calm in Eb.
Qed.

Lemma after_failure_safe request a r start deadline n f e :
  calm_round r → after_failure fl policy request a r start deadline n f = Some (Raise e) → safe_error e.
Proof.
  intros Hr. unfold after_failure.
  destruct (cancel_requested _) as [c|x] eqn:Ec; [|by apply cancel_requested_calm in Ec; [|apply Hr]].
  destruct (authorization_retry _ _) as [[[] [delay|] reason]|x] eqn:Ea.
  1: intros Hp; right; by eapply (calm_pause r Hr).
  1-3: intros [= <-]; apply request_error_safe.
  by apply authorization_retry_calm in Ea; [|apply Hr].
Qed.

Lemma decide_loop_safe request a header start deadline n rounds e :
  Forall calm_round rounds →
  (decide_loop fl cfg policy request a header start deadline n rounds).2 = Some (Raise e) → safe_error e.
Proof.
  intros Hr. revert n. induction Hr as [|r rounds Hr _ IH]; intros n; cbn; [done|].
  destruct (may_proceed _ _ _ _ _ _ ≫= _) as [timeout|x] eqn:Em; cbn.
  - destruct (perform _ _ _ _) as [x|] eqn:Ex; [|done].
    pose proof (interpret_safe request a r deadline _ x Hr Ex) as Hi.
    destruct (interpret _ _ _ _ _ _) as [[d|s|f]|x']; [done|by intros [= <-]; left; eauto| |by intros [= <-]].
    destruct (after_failure _ _ _ _ _ _ _ _ _) as [[[]|x']|] eqn:Ea; [|intros [= <-]; by eapply after_failure_safe|done].
    specialize (IH (n + 1)). by destruct (decide_loop _ _ _ _ _ _ _ _ _ rounds).
  - intros [= <-]. apply bind_Raise_iff in Em as [Em|(? & _ & Em)]; [|by eapply request_timeout_safe].
    eapply may_proceed_safe; [apply Hr|done].
Qed.

(** The transport fails closed.  When the callbacks, the random source and the
    network raise nothing but exceptions that the code expects, every error of
    [decide] is an SDK error that carries only identifiers of valid syntax, or the
    cancellation; no error of the network, of a parser or of the retry policy leaves
    it. *)
Theorem transport_fails_closed request hash deadline o authorize rounds e :
  no_interrupt (op_callback o) → (∀ n, deadline = Some n → no_interrupt (number_float n)) →
  (∀ a d x, authorize a d = Raise x → safe_error x) → Forall calm_round rounds →
  (decide_with fl cfg policy request hash deadline o authorize rounds).2 = Some (Raise e) → safe_error e.
Proof.
  intros Ho Hd Ha Hr. unfold decide_with.
  destruct (_ ≫= _) as [[[a d] header]|x] eqn:E; [by apply decide_loop_safe|]. intros [= <-].
  apply bind_Raise_iff in E as [E|(a & _ & E)].
  { apply except_raise_calm in E as ->; [apply bare_error_safe|]. solve_calm. }
  apply bind_Raise_iff in E as [E|(d & _ & E)].
  { destruct deadline as [n|]; [|done]. apply except_raise_calm in E as ->; [apply bare_error_safe|].
    apply calm_bind; [by apply Hd|intros ?]. solve_calm. }
  apply bind_Raise_iff in E as [E|([] & _ & E)]; [by eapply may_proceed_safe|].
  apply bind_Raise_iff in E as [E|(h & _ & E)]; [by eapply Ha|done].
Qed.
End loop.

(** ** Credentials *)

(** What a call for a header leaves: an erased credential, and a header only from a
    current one. *)
Definition header_settled (handed : option credential) (now : py Z) (x : py pystr * option credential) : Prop :=
  (∀ c, handed = Some c → ∃ c', x.2 = Some c' ∧ erased c') ∧
  ∀ h, x.1 = Ok h → ∃ c t, handed = Some c ∧ sealed c ∧ h = u "Bearer " ++ token c ∧ now = Ok t ∧ t < expires_at c.

Lemma authorization_header_closed now c : sealed c → erased (close_credential (authorization_header now c).2).
Proof.
  intros Hs. pose proof (close_erased c (or_intror Hs)) as He.
  unfold authorization_header. destruct (or_default _ _) as [[]|]; cbn; [|case_match; cbn|]; try done;
    apply close_erased; by left.
Qed.

Lemma header_of_settled cancelled a handed wall acquired now :
  settled handed wall acquired → header_settled handed now (authorization_header_of cancelled a acquired now).
Proof.
  destruct acquired as [[c|e] remains]; cbn.
  - intros (-> & -> & Hs & _). pose proof (authorization_header_closed now c Hs) as Hc.
    destruct (authorization_header now c) as [header c'] eqn:Eh. cbn in Hc. split; cbn.
    + intros c0 [= <-]. eauto.
    + intros h Hh. destruct header as [h'|x]; [|by destruct (bool_decide _)]. injection Hh as <-.
      apply authorization_header_Ok in Eh as (_ & _ & -> & t & Ht & Hlt); [|by right]. eauto 8.
  - intros He. split; [|by destruct e]. intros c ->. destruct (He ltac:(eauto)) as (c' & -> & Hc'). destruct e; cbn; eauto.
Qed.

(** The same for the asynchronous function.  If its task is cancelled while it waits
    for the provider, it leaves the provider's task [t] behind with the callback
    [drain_provider_task], and raises at once. *)
Definition async_header_settled (handed : option credential) (now : py Z) (task : task_state)
    (x : (py pystr * option credential) * option (py outcome)) : Prop :=
  match x.2 with
  | None => header_settled handed now x.1
  | Some t =>
      task = CancelledWaiting ∧ x.1.1 = Raise AsyncCancelledError ∧
      ∀ c, handed = Some c → ∃ c', erased c' ∧ (x.1.2 = Some c' ∨ drain_provider_task t = Some c')
  end.

(** C23: Credentials do not outlive their use.  When the clocks and the callback raise
    nothing that passes every handler, each credential that a provider hands out is
    closed and its token overwritten before the function for the header is left.  The
    one exception is a task that is cancelled while it waits for an asynchronous
    provider: it raises at once, and a credential that the provider's task still
    gives is closed and overwritten by the callback of that task.  A header is made
    only from the token of a credential that had not expired when it was made, and
    contains no control character or space after the scheme. *)
Theorem credentials_are_erased a deadline o awaited task now :
  calm o → provided_wf (answer o) → provided_wf awaited →
  is_Ok (begin_acquisition (NFloat <$> deadline) (before o)) = true →
  header_settled (handed_out (answer o)) now (sync_authorization_header a deadline o now) ∧
  async_header_settled (handed_async (answer o) awaited) now task
    (async_authorization_header a deadline o awaited task now).
Proof.
  intros Hc Hw Hwa Hb.
  pose proof (acquire_settled (NFloat <$> deadline) o Hc Hw) as Hs.
  pose proof (acquire_async_settled (NFloat <$> deadline) o awaited task Hc Hw Hwa) as Ha.
  destruct (begin_acquisition _ _); [|done]. split; [by eapply header_of_settled|].
  unfold async_authorization_header, async_header_settled.
  destruct (acquire_credential_async _ _ _ _) as [acquired [t|]]; cbn [fst snd]; [|by eapply header_of_settled].
  destruct Ha as (-> & He & Ha), acquired as [r remains]. cbn in He. subst r. split_and!; [done..|].
  intros c Hh. destruct (Ha c Hh) as [? [E|E]]; eexists; eauto.
Qed.

(** ** The two transports *)
Section agree.
Context `{UrlData} `{UnicodeData} `{FloatPow} `{EmailDates}.
Variables (cfg : config) (policy : retry_policy).

(** Nobody cancels the call: the callbacks return [False], and the runtime neither
    closes nor cancels the operation. *)
Definition quiet_wait (w : wait) : Prop :=
  w_callback w = Ok false ∧ w_progress w ≠ CancelledByClose true ∧ w_progress w ≠ CancelledByClose false ∧
  w_progress w ≠ Ended (Raise RuntimeDeadlineExpired).
Record quiet_round (r : round) : Prop := {
  quiet_callback : rd_callback r = Ok false;
  quiet_runtime : rd_runtime_closed r = false;
  quiet_waits : Forall quiet_wait (rd_waits r);
  quiet_callback_after : rd_callback_after r = Ok false;
  quiet_pause : Forall (λ c, c = Ok false) (rd_pause r);
  quiet_pause_length : (2 ≤ length (rd_pause r))%nat;
}.

Lemma received_not_expired x : x ≠ Raise RuntimeDeadlineExpired → received cfg x ≠ Raise RuntimeDeadlineExpired.
Proof.
  destruct x as [response|e]; cbn; [|congruence]. intros _. unfold read_response. case_match; [done|].
  by repeat case_match.
Qed.

Lemma loops_agree waits :
  Forall quiet_wait waits →
  run_loop cfg None waits = await_loop cfg None waits ∧ run_loop cfg None waits ≠ Some (Raise RuntimeDeadlineExpired).
Proof.
  induction 1 as [|w waits (Hc & Ht & Hf & Hd) _ IH]; [done|]. cbn. rewrite Hc. cbn.
  destruct (w_progress w) as [|x|[]] eqn:E; [done| |done|done]. split; [done|].
  intros [= Hx]. revert Hx. apply received_not_expired. congruence.
Qed.

Lemma sleep_quiet delay callbacks :
  Forall (λ c, c = Ok false) callbacks → sync_sleep delay callbacks = None ∨ sync_sleep delay callbacks = Some (Ok ()).
Proof.
  intros Hc. revert delay. induction Hc as [|c callbacks -> _ IH]; intros delay; cbn; destruct (negb _); auto.
Qed.

Lemma async_sleep_quiet callbacks :
  Forall (λ c, c = Ok false) callbacks → (2 ≤ length callbacks)%nat → async_sleep callbacks = Some (Ok ()).
Proof. destruct 1 as [|? ? -> [|? ? -> _]]; cbn; [lia|lia|done]. Qed.

Lemma interpret_agree request a r x :
  quiet_round r → x ≠ Raise RuntimeDeadlineExpired →
  interpret sync_flavour request a r None x = interpret async_flavour request a r None x.
Proof. intros Hr Hx. destruct x as [response|[]]; try done. cbn. by rewrite (quiet_callback_after r Hr). Qed.

Lemma after_failure_agree request a r start n f :
  quiet_round r →
  after_failure sync_flavour policy request a r start None n f = None ∨
  after_failure sync_flavour policy request a r start None n f
  = after_failure async_flavour policy request a r start None n f.
Proof.
  intros Hr. unfold after_failure. destruct (cancel_requested _) as [c|e]; [|by right].
  destruct (authorization_retry _ _) as [[[] [delay|] reason]|e]; [|by right..]. cbn [pause sync_flavour async_flavour].
  rewrite (async_sleep_quiet _ (quiet_pause r Hr) (quiet_pause_length r Hr)).
  destruct (sleep_quiet delay _ (quiet_pause r Hr)) as [->| ->]; auto.
Qed.

Lemma decide_loop_agree request a header start n rounds sends result :
  Forall quiet_round rounds →
  decide_loop sync_flavour cfg policy request a header start None n rounds = (sends, Some result) →
  decide_loop async_flavour cfg policy request a header start None n rounds = (sends, Some result).
Proof.
  intros Hr. revert n sends. induction Hr as [|r rounds Hr _ IH]; intros n sends; cbn [decide_loop]; [done|].
  unfold may_proceed. rewrite (quiet_callback r Hr). cbn [cancel_requested or_default time_left fmap option_fmap option_map expired].
  destruct (_ ≫= _) as [timeout|e]; [|done].
  cbn [starts perform sync_flavour async_flavour]. unfold sync_perform, async_perform. rewrite (quiet_runtime r Hr).
  cbn [wall_deadline_of fmap option_fmap option_map negb].
  destruct (loops_agree (rd_waits r) (quiet_waits r Hr)) as [<- Hx].
  destruct (run_loop cfg None (rd_waits r)) as [x|]; [|done].
  rewrite <-(interpret_agree request a r x Hr) by congruence.
  destruct (interpret _ _ _ _ _ _) as [[d|e|f]|e]; [done..| |done].
  destruct (after_failure_agree request a r start n f Hr) as [->| ->]; [done|].
  destruct (after_failure async_flavour _ _ _ _ _ _ _ _) as [[[]|e]|]; [|done..].
  destruct (decide_loop sync_flavour _ _ _ _ _ _ _ _ rounds) as [more res] eqn:El.
  intros [= <- ->]. by rewrite (IH _ _ El).
Qed.

(** The asynchronous provider returns an awaitable of what the other one returns. *)
Definition awaiting (o : acquisition) : acquisition :=
  Acquisition (before o) (Ok PAwaitable) (after o) (wall_clock o).
Definition quiet_signals (s : signals) : Prop := callback s = None ∨ callback s = Some (Ok false).

Lemma not_cancelled s : quiet_signals s → acquisition_cancelled None s = Ok false.
Proof. unfold acquisition_cancelled. by intros [-> | ->]. Qed.

Lemma headers_agree a o now :
  quiet_signals (before o) → quiet_signals (after o) → answer o ≠ Ok PAwaitable →
  (async_authorization_header a None (awaiting o) (answer o) Undisturbed now).1.1
  = (sync_authorization_header a None o now).1.
Proof.
  intros Hb Ha Hp. unfold async_authorization_header, sync_authorization_header.
  unfold acquire_credential_async, acquire_credential, begin_acquisition. cbn.
  rewrite (not_cancelled _ Hb). unfold invoke_async, invoke. cbn.
  assert (∀ v, (authorization_header_of AsyncCancelledError a (settle None (awaiting o) v) now).1
               = (authorization_header_of CancelledError a (settle None o v) now).1) as Hs.
  { intros v. unfold settle. cbn. rewrite (not_cancelled _ Ha).
    destruct (current v (wall_clock o)) as [[]|e]; [|done..]. by destruct (held v). }
  destruct (answer o) as [[c| |]|e]; [apply Hs|done|apply Hs|].
  assert (∀ x, (authorization_header_of AsyncCancelledError a ((settle None (awaiting o) Failed).1, x) now).1
    = (authorization_header_of CancelledError a (settle None o Failed) now).1) as Hf.
  { intros x. rewrite <-Hs. by destruct (settle None (awaiting o) Failed) as [[c|[]] remains]; cbn; try destruct (authorization_header now c). }
  destruct e; try apply Hf; done.
Qed.

(** C24: The asynchronous transport is equivalent to the synchronous one.  On a call
    that has no deadline and that nobody cancels, where the provider gives the same
    answer directly or through an awaitable and the server behaves in the same way,
    the asynchronous [decide] sends the same requests and ends with the same decision
    or the same error as the synchronous one. *)
Theorem transports_agree request hash o credentials wall rounds sends result :
  op_callback o = Ok false → quiet_signals (before credentials) → quiet_signals (after credentials) →
  answer credentials ≠ Ok PAwaitable → Forall quiet_round rounds →
  decide_sync cfg policy request hash None o credentials wall rounds = (sends, Some result) →
  decide_async cfg policy request hash None o (awaiting credentials) (answer credentials) Undisturbed wall rounds
  = (sends, Some result).
Proof.
  intros Ho Hb Ha Hp Hr. unfold decide_sync, decide_async, decide_with.
  destruct (prepare_attempt request hash) as [a|e]; cbn [mbind result_bind]; [|done]. cbn [normalize_deadline mbind result_bind].
  unfold may_proceed. rewrite Ho. cbn [cancel_requested or_default expired]. rewrite (headers_agree _ _ _ Hb Ha Hp).
  destruct (_ ≫= _) as [[[a' d] header]|e] eqn:E; [|done].
  apply bind_Ok_iff in E as ([] & _ & (h & _ & [= <- <- <-])%bind_Ok_iff). by apply decide_loop_agree.
Qed.
End agree.

(** ** Timestamps *)
Lemma valid_second y m d h mi s :
  valid_datetime (Datetime y m d h mi s) = true →
  valid_datetime (Datetime y m d h mi 0) && (0 <=? s) && (s <=? 61) = true.
Proof.
  unfold valid_datetime. cbn. intros [[Hv Hs]%andb_true_iff Hm]%andb_true_iff. rewrite Hv, Hs. cbn.
  refl_bool. apply Z.leb_le. lia.
Qed.

(** What the parser of the client accepts, the one of the transport accepts with the
    same value. *)
Lemma timestamps_agree s t : parse_timestamp (PStr s) = Ok t → transport_timestamp s = Ok t.
Proof.
  cbn. unfold rfc3339_value, transport_timestamp.
  destruct (rfc3339_match s) as [[[base fraction] zone]|]; cbn; [|done].
  unfold fromisoformat, strptime. destruct (valid_datetime _) eqn:E; [|done]. apply valid_second in E. by rewrite E.
Qed.
