(* ===== verification/Client.v ===== *)
(** * The authorization client

    Models [python/src/palonexus/client.py] apart from its life cycle, which is in
    [Lifecycle]: decisions and approvals that transports return are validated and
    bound to the request, approvals are polled, and an approved action is resumed.
    What a transport answers to a call (a value or an exception) is an argument of
    the operation that calls it; [opened] tells whether the client is open when the
    operation begins. *)

From stdpp Require Import base list list_numbers numbers strings gmap.
From S2P Require Import Prelude PyString Sha256 Regex Errors Timestamp PyValue Schemas Decimal Unicode.
From S2P Require Import Structure Wire Identifiers TaskScope Interfaces CanonicalJson JsonRoundTrip.
From S2P Require Import Approvals Models PyUrl Shell Resources CanonicalPath CanonicalUrl Scope Envelope.
From S2P Require Import PyFloat.
Open Scope Z_scope.

(** ** Decisions *)
Inductive decision_outcome := ALLOW | DENY | APPROVAL_REQUIRED.
#[global] Instance decision_outcome_eq_dec : EqDecision decision_outcome.
Proof. solve_decision. Defined.

Definition decision_outcome_of (s : pystr) : py decision_outcome :=
  if str_eqb s (u "allow") then Ok ALLOW
  else if str_eqb s (u "deny") then Ok DENY
  else if str_eqb s (u "approval_required") then Ok APPROVAL_REQUIRED
  else Raise ValueError.

Record decision := Decision {
  dec_request_id : pystr;
  dec_decision_id : pystr;
  dec_correlation_id : pystr;
  dec_outcome : decision_outcome;
  dec_reason_code : pystr;
  dec_client_scope_hash : pystr;
  dec_authoritative_scope_hash : pystr;
  dec_policy_revision : pystr;
  dec_server_time : pystr;
  dec_expires_at : pystr;
  dec_audit_ref : pystr;
  dec_approval_id : option pystr;
  dec_approval_status : option pystr;
  dec_approval_expires_at : option pystr;
}.

(** Whether the instant [left] is not after the instant [right]. *)
Definition not_after (left right : py timestamp) : py bool :=
  l ← left; r ← right; Ok (timestamp_order l r <=? 0).

(** [AuthorizationDecision._from_protocol]. *)
Definition decision_from_protocol (value : attr) : py decision :=
  validate_structural value;;
  let approval := given (attribute "approval" value) in
  text ← str_of (attribute "outcome" value);
  outcome ← decision_outcome_of text;
  match outcome, approval with
  | APPROVAL_REQUIRED, Some summary =>
      status ← str_of (attribute "status" summary);
      raise_if (negb (str_eqb status (u "pending"))) ValueError;;
      late ← not_after (attribute_timestamp summary "expires_at") (attribute_timestamp value "server_time");
      raise_if late ValueError
  | APPROVAL_REQUIRED, None => Raise ValueError
  | _, Some _ => Raise ValueError
  | _, None => Ok ()
  end;;
  late ← not_after (attribute_timestamp value "expires_at") (attribute_timestamp value "server_time");
  raise_if late ValueError;;
  request_id ← str_of (attribute "request_id" value);
  decision_id ← str_of (attribute "decision_id" value);
  correlation_id ← str_of (attribute "correlation_id" value);
  reason_code ← str_of (attribute "reason_code" value);
  client_scope_hash ← str_of (attribute "client_scope_hash" value);
  authoritative_scope_hash ← str_of (attribute "authoritative_scope_hash" value);
  policy_revision ← str_of (attribute "policy_revision" value);
  server_time ← str_of (attribute "server_time" value);
  expires_at ← str_of (attribute "expires_at" value);
  audit_ref ← str_of (attribute "audit_ref" value);
  let of_approval name := match approval with
                          | Some summary => Some <$> str_of (attribute name summary)
                          | None => Ok None
                          end in
  approval_id ← of_approval "approval_id"%string;
  approval_status ← of_approval "status"%string;
  approval_expires_at ← of_approval "expires_at"%string;
  Ok (Decision request_id decision_id correlation_id outcome reason_code client_scope_hash
        authoritative_scope_hash policy_revision server_time expires_at audit_ref approval_id
        approval_status approval_expires_at).

(** [_public_decision]. *)
Definition public_decision (value request : attr) (client_scope_hash : pystr) : py decision :=
  except_raise is_exception
    (PaloNexusError (sdk_error_init CInvalidDecision (identifier_text "request_id" request) None
                       (identifier_text "correlation_id" request)))
    (raise_if (negb (is_instance AuthorizationDecision value)) TypeError;;
     d ← decision_from_protocol value;
     request_id ← str_of (attribute "request_id" request);
     correlation_id ← str_of (attribute "correlation_id" request);
     raise_if (negb (str_eqb (dec_request_id d) request_id)
               || negb (str_eqb (dec_correlation_id d) correlation_id)
               || negb (str_eqb (dec_client_scope_hash d) client_scope_hash)) ValueError;;
     Ok d).

(** The error with the identifiers of a decision. *)
Definition decision_error (c : sdk_class) (d : decision) : exn :=
  PaloNexusError (sdk_error_init c (Some (dec_request_id d)) (Some (dec_decision_id d))
                    (Some (dec_correlation_id d))).

Definition require_allow (d : decision) : py decision :=
  match dec_outcome d with
  | ALLOW => Ok d
  | APPROVAL_REQUIRED => Raise (decision_error CApprovalRequired d)
  | DENY => Raise (decision_error CPolicyDenied d)
  end.

(** ** Operations on one attempt *)

(** [_begin_operation(request)]. *)
Definition begin_operation (opened : bool) (request : option attr) : py () :=
  raise_if (negb opened)
    (PaloNexusError (sdk_error_init CAuthorizationUnavailable
       (request ≫= identifier_text "request_id") None (request ≫= identifier_text "correlation_id"))).

Section client.
Context `{UnicodeData} `{UrlData}.

(** [_attempt_parts]. *)
Definition attempt_parts (attempt : nat) : op (attr * pystr) :=
  op_except is_exception (bare_error CInvalidRequest)
    ('(request, scope_hash) ← request_of attempt;
     lift (raise_if (negb (is_instance Wire.ActionRequest request)) TypeError);;
     mret (request, scope_hash)).

(** [transport] is the call of the transport: it answers or raises, and the objects may
    be different afterwards. *)
Definition decide_through (opened : bool) (attempt : nat) (transport : op attr) : op decision :=
  '(request, scope_hash) ← attempt_parts attempt;
  lift (begin_operation opened (Some request));;
  value ← transport;
  lift (public_decision value request scope_hash).

Definition authorize_through (opened : bool) (attempt : nat) (transport : op attr) : op decision :=
  d ← decide_through opened attempt transport; lift (require_allow d).

(** With a transport that only answers. *)
Definition decide (opened : bool) (attempt : nat) (answer : py attr) : op decision :=
  decide_through opened attempt (lift answer).
Definition authorize (opened : bool) (attempt : nat) (answer : py attr) : op decision :=
  authorize_through opened attempt (lift answer).

(** ** Approvals *)
Context `{Canonicalizer}.

(** [_bind_approval]. *)
Definition bind_approval (record : approval) (request : attr) (d : decision) : py () :=
  action_id ← str_of (attribute "action_id" request);
  correlation_id ← str_of (attribute "correlation_id" request);
  raise_if (negb (bool_decide (Some (apr_approval_id record) = dec_approval_id d))
            || negb (str_eqb (apr_action_id record) action_id)
            || negb (str_eqb (apr_correlation_id record) correlation_id)
            || negb (str_eqb (apr_authorization_decision_id record) (dec_decision_id d))
            || negb (str_eqb (apr_authoritative_scope_hash record) (dec_authoritative_scope_hash d))
            || negb (str_eqb (apr_creation_audit_ref record) (dec_audit_ref d))
            || negb (bool_decide (Some (apr_expires_at record) = dec_approval_expires_at d)))
    (PaloNexusError (sdk_error_init CApprovalScopeMismatch (identifier_text "request_id" request)
       (Some (dec_decision_id d)) (identifier_text "correlation_id" request))).

(** [approvals] tells whether the client has an approval transport. *)
Definition request_approval_through (opened approvals : bool) (attempt : nat) (d : decision) (transport : op attr)
    : op approval :=
  '(request, scope_hash) ← attempt_parts attempt;
  request_id ← lift (str_of (attribute "request_id" request));
  correlation_id ← lift (str_of (attribute "correlation_id" request));
  lift (raise_if (negb (bool_decide (dec_outcome d = APPROVAL_REQUIRED))
                  || bool_decide (dec_approval_id d = None)
                  || negb (str_eqb (dec_request_id d) request_id)
                  || negb (str_eqb (dec_correlation_id d) correlation_id)
                  || negb (str_eqb (dec_client_scope_hash d) scope_hash))
          (PaloNexusError (sdk_error_init CApprovalScopeMismatch (identifier_text "request_id" request)
             (Some (dec_decision_id d)) (identifier_text "correlation_id" request))));;
  lift (begin_operation opened (Some request));;
  lift (raise_if (negb approvals) (bare_error CAuthorizationUnavailable));;
  value ← transport;
  record ← lift (approval_from_protocol value);
  lift (bind_approval record request d);;
  mret record.
Definition request_approval (opened approvals : bool) (attempt : nat) (d : decision) (answer : py attr)
    : op approval := request_approval_through opened approvals attempt d (lift answer).

Definition get_approval (opened approvals : bool) (approval_id : pystr) (expected : approval)
    (answer : py attr) : py approval :=
  except_raise is_target_error (bare_error CInvalidRequest) (wire ApprovalID approval_id);;
  begin_operation opened None;;
  raise_if (negb approvals) (bare_error CAuthorizationUnavailable);;
  value ← answer;
  record ← approval_from_protocol value;
  raise_if (negb (str_eqb (apr_approval_id record) approval_id)) (bare_error CInvalidDecision);;
  validate_transition expected record;;
  Ok record.

Definition get_approval_through (opened approvals : bool) (approval_id : pystr) (expected : approval)
    (transport : op attr) : op approval :=
  lift (except_raise is_target_error (bare_error CInvalidRequest) (wire ApprovalID approval_id));;
  lift (begin_operation opened None);;
  lift (raise_if (negb approvals) (bare_error CAuthorizationUnavailable));;
  value ← transport;
  record ← lift (approval_from_protocol value);
  lift (raise_if (negb (str_eqb (apr_approval_id record) approval_id)) (bare_error CInvalidDecision));;
  lift (validate_transition expected record);;
  mret record.

(** ** Polling *)

(** [isinstance(value, (int, float))] without [bool], and finite; [math.isfinite]
    raises on an integer that no float can hold. *)
Definition finite_number (value : pyval) : py float :=
  match value with
  | PInt z => if isfinite (of_int z) then Ok (of_int z) else Raise OverflowError
  | PFloat f => if isfinite f then Ok f else Raise (bare_error CInvalidRequest)
  | _ => Raise (bare_error CInvalidRequest)
  end.

Definition poll_parameters (deadline interval : pyval) : py (float * float) :=
  d ← finite_number deadline;
  i ← finite_number interval;
  raise_if (fle i fzero || flt (of_int 60) i) (bare_error CInvalidRequest);;
  Ok (d, i).

(** What one round of the loop observes: the answer of [cancelled()], the time
    before the request, the answer to it, and the time after it. *)
Record poll := Poll {
  p_cancelled : py bool;
  p_now : float;
  p_opened : bool;
  p_answer : py attr;
  p_after : float;
}.

(** The loop of [wait_for_approval]; [None] if it goes on after these rounds. *)
Fixpoint wait_loop (approvals : bool) (approval_id : pystr) (deadline : float) (observed : approval)
    (polls : list poll) : option (py approval) :=
  match polls with
  | [] => None
  | p :: polls =>
      match p_cancelled p with
      | Raise e => Some (Raise e)
      | Ok true => Some (Raise CancelledError)
      | Ok false =>
          if fle deadline (p_now p) then Some (Raise (bare_error CAuthorizationUnavailable))
          else match get_approval (p_opened p) approvals approval_id observed (p_answer p) with
               | Raise e => Some (Raise e)
               | Ok record =>
                   if negb (bool_decide (apr_status record = PENDING)) then Some (Ok record)
                   else if fle (fsub deadline (p_after p)) fzero
                   then Some (Raise (bare_error CAuthorizationUnavailable))
                   else wait_loop approvals approval_id deadline record polls
               end
      end
  end.

Definition wait_for_approval (approvals : bool) (a : approval) (deadline interval : pyval)
    (polls : list poll) : option (py approval) :=
  match poll_parameters deadline interval with
  | Raise e => Some (Raise e)
  | Ok (d, _) => wait_loop approvals (apr_approval_id a) d a polls
  end.

(** ** Resuming *)

(** [_trusted_now(clock)], for what the clock returns. *)
Definition trusted_now (clock : py pyval) : py pystr :=
  except_raise (λ e, match e with KeyboardInterrupt | SystemExit | CancelledError => false | _ => true end)
    (bare_error CInvalidDecision)
    (value ← clock;
     parse_timestamp value;;
     match value with PStr s => Ok s | _ => Raise ValueError end).

(** The comparisons at the start of [_require_resumable]. *)
Definition linked (request : attr) (scope_hash : pystr) (prior : decision) (a : approval) : py () :=
  request_id ← str_of (attribute "request_id" request);
  correlation_id ← str_of (attribute "correlation_id" request);
  action_id ← str_of (attribute "action_id" request);
  raise_if (negb (bool_decide (dec_outcome prior = APPROVAL_REQUIRED))
            || negb (bool_decide (dec_approval_id prior = Some (apr_approval_id a)))
            || negb (str_eqb (dec_request_id prior) request_id)
            || negb (str_eqb (dec_correlation_id prior) correlation_id)
            || negb (str_eqb (dec_client_scope_hash prior) scope_hash)
            || negb (str_eqb (dec_authoritative_scope_hash prior) (apr_authoritative_scope_hash a))
            || negb (str_eqb (dec_decision_id prior) (apr_authorization_decision_id a))
            || negb (str_eqb (dec_audit_ref prior) (apr_creation_audit_ref a))
            || negb (bool_decide (dec_approval_expires_at prior = Some (apr_expires_at a)))
            || negb (str_eqb (apr_action_id a) action_id)
            || negb (str_eqb (apr_correlation_id a) correlation_id)) ValueError.

(** The part of [_require_resumable] that depends on the status. *)
Definition require_approved (prior : decision) (a : approval) (now : pystr) : py () :=
  match apr_status a with
  | APPROVED =>
      '(now, decided, expires) ← except_raise is_target_error (decision_error CInvalidDecision prior)
        (now ← parse_timestamp (PStr now);
         decided ← parse_timestamp (from_option PStr PNone (apr_decided_at a));
         expires ← parse_timestamp (PStr (apr_expires_at a));
         Ok (now, decided, expires));
      raise_if (0 <? timestamp_order decided now) (decision_error CInvalidDecision prior);;
      raise_if (0 <=? timestamp_order now expires) (decision_error CApprovalExpired prior)
  | EXPIRED => Raise (decision_error CApprovalExpired prior)
  | PENDING => Raise (decision_error CApprovalRequired prior)
  | _ => Raise (decision_error CPolicyDenied prior)
  end.

Definition require_resumable (original : nat) (prior : decision) (a : approval) (now : pystr) : op () :=
  op_except is_exception (bare_error CApprovalScopeMismatch)
    ('(request, scope_hash) ← request_of original;
     lift (linked request scope_hash prior a));;
  lift (require_approved prior a now).

(** [try: m finally: candidate.close()] unless [m] committed the candidate; an
    exception of [close] is dropped. *)
Definition unless_committed (m : op nat) (candidate : nat) : op nat := λ w,
  match m w with
  | (Ok id, w) => (Ok id, w)
  | (Raise e, w) => (Raise e, (close candidate w).2)
  end.

(** [try: m finally: id.close()], an exception of [close] being dropped. *)
Definition finally_close (m : op nat) (id : nat) : op nat := λ w,
  let '(r, w) := m w in (r, (close id w).2).

Definition resume_through (opened : bool) (b : builder) (original current : nat) (prior : decision)
    (a : approval) (clock : py pyval) (o : resume_observations) (transport : op attr) : op nat :=
  now ← lift (trusted_now clock);
  require_resumable original prior a now;;
  candidate ← prepare_resume b original current (dec_decision_id prior) (apr_approval_id a) o;
  unless_committed
    (fresh ← authorize_through opened candidate transport;
     lift (raise_if (negb (str_eqb (dec_authoritative_scope_hash fresh) (apr_authoritative_scope_hash a)))
             (decision_error CApprovalScopeMismatch fresh));;
     commit_resume b original current candidate;;
     mret candidate) candidate.
Definition resume_action (opened : bool) (b : builder) (original current : nat) (prior : decision)
    (a : approval) (clock : py pyval) (o : resume_observations) (answer : py attr) : op nat :=
  resume_through opened b original current prior a clock o (lift answer).

(** The start of [resume_checkpoint]: the original action that the checkpoint describes,
    the prior decision and the pending approval. *)
Definition restore_checkpoint (b : builder) (original_request : pyval) (scope_hash : pystr)
    (prior_decision pending_approval : pyval) (target_nonce nonce : pybytes) : op (nat * decision * approval) :=
  lift (raise_if (negb (match prior_decision, pending_approval with PDict _, PDict _ => true | _, _ => false end))
          (bare_error CApprovalScopeMismatch));;
  original ← op_except is_exception (bare_error CApprovalScopeMismatch)
    (restore_original_for_resume b original_request scope_hash target_nonce nonce);
  '(prior, expected) ← on_error
    (lift (except_raise is_exception (bare_error CApprovalScopeMismatch)
             (prior ← parse_decision prior_decision;
              prior ← decision_from_protocol prior;
              expected ← parse_approval pending_approval;
              expected ← approval_from_protocol expected;
              Ok (prior, expected)))) (close original);
  mret (original, prior, expected).

(** [resume_checkpoint]; [approval_transport] is the call of the approval transport
    and [transport] that of the authorization transport, and [still_open] tells whether
    the client is open when the second is called. *)
Definition resume_checkpoint (opened still_open approvals : bool) (b : builder) (current : nat)
    (original_request : pyval) (scope_hash : pystr) (prior_decision pending_approval : pyval)
    (target_nonce nonce : pybytes) (clock : py pyval) (o : resume_observations)
    (approval_transport transport : op attr) : op nat :=
  '(original, prior, expected) ← restore_checkpoint b original_request scope_hash prior_decision pending_approval
                                   target_nonce nonce;
  finally_close
    (a ← get_approval_through opened approvals (apr_approval_id expected) expected approval_transport;
     resume_through still_open b original current prior a clock o transport) original.

End client.
