(* ===== verification/ClientFacts.v ===== *)
(** * What the client guarantees

    A decision that the client returns is bound to the request that was sent; an
    approval that it waits for is decided and bound to the one that was created; and
    an action is resumed entirely or not at all. *)

From stdpp Require Import base list list_numbers numbers strings gmap.
From S2P Require Import Prelude PyString Sha256 Regex Errors Timestamp PyValue Schemas Decimal Unicode.
From S2P Require Import Structure Wire Identifiers TaskScope Interfaces CanonicalJson JsonRoundTrip.
From S2P Require Import Approvals Models PyUrl Shell Resources CanonicalPath CanonicalUrl Scope Envelope.
From S2P Require Import PyFloat Executions Client.
Open Scope Z_scope.

(** A decision expires after it was made. *)
Definition decision_wf (d : decision) : Prop :=
  ∃ server expires, rfc3339_value (dec_server_time d) = Some server ∧
    rfc3339_value (dec_expires_at d) = Some expires ∧ 0 < timestamp_order expires server.

Lemma decision_from_protocol_wf v d : decision_from_protocol v = Ok d → decision_wf d ∧ ∃ doc, to_dict v = Ok doc.
Proof.
  unfold decision_from_protocol. intros Hv.
  apply bind_Ok_iff in Hv as ([] & Hs & Hv). split.
  - apply bind_Ok_iff in Hv as (text & _ & Hv). apply bind_Ok_iff in Hv as (outcome & _ & Hv).
    apply bind_Ok_iff in Hv as ([] & _ & Hv). apply bind_Ok_iff in Hv as (late & Hl & Hv).
    unfold not_after in Hl. inv_ok. refl_bool.
    repeat match goal with H : attribute_timestamp _ _ = Ok _ |- _ => apply attribute_timestamp_Ok in H as (? & ? & ?) end.
    same_call. eexists _, _. eauto.
  - unfold validate_structural in Hs. destruct v; inv_ok. eauto.
Qed.

(** The text of an outcome on the wire. *)
Definition outcome_text (o : decision_outcome) : pystr :=
  match o with ALLOW => u "allow" | DENY => u "deny" | APPROVAL_REQUIRED => u "approval_required" end.

(** The document [value] says what the decision [d] says, field by field. *)
Definition says (value : attr) (d : decision) : Prop :=
  str_of (attribute "outcome" value) = Ok (outcome_text (dec_outcome d)) ∧
  Forall (λ '(name, text), str_of (attribute name value) = Ok text)
    [("request_id", dec_request_id d); ("decision_id", dec_decision_id d); ("correlation_id", dec_correlation_id d);
     ("reason_code", dec_reason_code d); ("client_scope_hash", dec_client_scope_hash d);
     ("authoritative_scope_hash", dec_authoritative_scope_hash d); ("policy_revision", dec_policy_revision d);
     ("server_time", dec_server_time d); ("expires_at", dec_expires_at d); ("audit_ref", dec_audit_ref d)]%string ∧
  Forall (λ '(name, text), match given (attribute "approval" value) with
                           | None => text = None
                           | Some summary => ∃ s, str_of (attribute name summary) = Ok s ∧ text = Some s
                           end)
    [("approval_id", dec_approval_id d); ("status", dec_approval_status d); ("expires_at", dec_approval_expires_at d)]%string.

Lemma decision_outcome_of_text text o : decision_outcome_of text = Ok o → text = outcome_text o.
Proof.
  unfold decision_outcome_of. repeat (destruct (str_eqb _ _) eqn:E; [intros [= <-]; by apply str_eqb_eq in E|clear E]). done.
Qed.

Lemma decision_from_protocol_says v d : decision_from_protocol v = Ok d → says v d.
Proof.
  unfold decision_from_protocol. intros Hv.
  apply bind_Ok_iff in Hv as ([] & _ & Hv). apply bind_Ok_iff in Hv as (text & Ht & Hv).
  apply bind_Ok_iff in Hv as (outcome & Ho%decision_outcome_of_text & Hv). subst text.
  apply bind_Ok_iff in Hv as ([] & _ & Hv). apply bind_Ok_iff in Hv as (late & _ & Hv).
  apply bind_Ok_iff in Hv as ([] & _ & Hv). repeat (apply bind_Ok_iff in Hv as (? & ? & Hv)). injection Hv as <-.
  split_and!; [done|repeat constructor; done|].
  destruct (given (attribute "approval" v)) as [summary|];
    repeat match goal with
    | H : @fmap _ _ _ _ Some _ = Ok _ |- _ => apply fmap_Ok_iff in H as (? & ? & <-)
    | H : Ok None = Ok _ |- _ => injection H as <-
    end; repeat constructor; eauto.
Qed.

Lemma public_decision_bound value request h d :
  public_decision value request h = Ok d →
  is_instance AuthorizationDecision value = true ∧ says value d ∧ (∃ doc, to_dict value = Ok doc) ∧ decision_wf d ∧
  str_of (attribute "request_id" request) = Ok (dec_request_id d) ∧
  str_of (attribute "correlation_id" request) = Ok (dec_correlation_id d) ∧ dec_client_scope_hash d = h.
Proof.
  unfold public_decision. intros Hd%except_raise_Ok. inv_ok. refl_bool.
  match goal with H : decision_from_protocol _ = Ok _ |- _ =>
    pose proof (decision_from_protocol_says _ _ H); apply decision_from_protocol_wf in H as [? ?] end.
  repeat match goal with H : str_eqb _ _ = true |- _ => apply str_eqb_eq in H; subst end. auto 10.
Qed.

Section facts.
Context `{UnicodeData} `{UrlData} `{Canonicalizer}.

Lemma wp_attempt_parts id w Q R :
  (∀ e r h n, envelopes w !! id = Some e → object e = PreparedAction r h n → Q (r, h) w) → R w →
  wp (attempt_parts id) w Q R.
Proof. intros HQ HR. unfold attempt_parts. repeat wp_step. by eapply HQ. Qed.

(** The request that an envelope carries. *)
Definition carries (w : world) (id : nat) (request : attr) (scope_hash : pystr) : Prop :=
  ∃ e n, envelopes w !! id = Some e ∧ object e = PreparedAction request scope_hash n.

(** The decision [d] is what the transport answered for an attempt, and allows it. *)
Definition allows (w : world) (attempt : nat) (answer : py attr) (d : decision) : Prop :=
  dec_outcome d = ALLOW ∧ decision_wf d ∧
  ∃ request scope_hash value doc,
    carries w attempt request scope_hash ∧ answer = Ok value ∧
    is_instance AuthorizationDecision value = true ∧ to_dict value = Ok doc ∧ says value d ∧
    str_of (attribute "request_id" request) = Ok (dec_request_id d) ∧
    str_of (attribute "correlation_id" request) = Ok (dec_correlation_id d) ∧
    dec_client_scope_hash d = scope_hash.

Lemma wp_authorize opened attempt answer w Q R :
  (∀ d, opened = true → allows w attempt answer d → Q d w) → R w →
  wp (authorize opened attempt answer) w Q R.
Proof.
  intros HQ HR. unfold authorize, authorize_through, decide_through. repeat wp_step. apply wp_attempt_parts; [|done].
  intros e r h n He Ho. repeat wp_step. unfold begin_operation in *. inv_ok. apply HQ; [done|].
  match goal with H : public_decision _ _ _ = Ok _ |- _ => apply public_decision_bound in H as (? & ? & [? ?] & ? & ? & ? & ?) end.
  unfold require_allow in *. destruct (dec_outcome _) eqn:Eo; inv_ok.
  split; [done|]. split; [done|]. eexists _, _, _, _. split; [by exists e, n|]. by split; [done|]; eauto 10.
Qed.

(** C20: An allow is bound to its request.  [authorize] returns only a decision that
    says, field by field, what the document says that the transport answered while
    the client was open; that document is an instance of the wire class which
    conforms to the schema and its outcome is [allow]; the decision has not expired
    at the time of the server, and names the request, the correlation and the client scope that
    the sealed attempt carries.  It never changes the attempt. *)
Theorem authorization_is_bound opened attempt answer w r w' :
  authorize opened attempt answer w = (r, w') →
  w' = w ∧ ∀ d, r = Ok d → opened = true ∧ allows w attempt answer d.
Proof.
  intros E. assert (wp (authorize opened attempt answer) w
    (λ d w', w' = w ∧ opened = true ∧ allows w attempt answer d) (λ w', w' = w)) as Hwp.
  { apply wp_authorize; [|done]. auto. }
  unfold wp in Hwp. rewrite E in Hwp. destruct r as [d|e]; [|done]. destruct Hwp as (-> & Hd).
  split; [done|]. by intros d' [= <-].
Qed.

(** ** Polling *)
Lemma get_approval_Ok opened approvals id expected answer a :
  get_approval opened approvals id expected answer = Ok a →
  approval_wf a ∧ validate_transition expected a = Ok () ∧ apr_approval_id a = id.
Proof.
  unfold get_approval. intros Ha. inv_ok. split; [by eapply approval_from_protocol_wf|]. split; [done|].
  refl_bool. by apply str_eqb_eq.
Qed.

Lemma wait_loop_Ok approvals id deadline observed polls a :
  wait_loop approvals id deadline observed polls = Some (Ok a) →
  apr_status a ≠ PENDING ∧ approval_wf a ∧ approval_binding a = approval_binding observed.
Proof.
  revert observed. induction polls as [|p polls IH]; intros observed; cbn; [done|].
  destruct (p_cancelled p) as [[]|]; [done| |done]. destruct (fle deadline (p_now p)); [done|].
  destruct (get_approval _ _ _ _ _) as [r|] eqn:E; [|done].
  apply get_approval_Ok in E as (Hwf & [Hb _]%validate_transition_spec & _).
  case_bool_decide as Hp; cbn.
  - destruct (fle _ fzero); [done|]. intros (? & ? & ->)%IH. auto.
  - intros [= <-]. auto.
Qed.

(** Waiting for an approval.  What [wait_for_approval] returns is a decided
    record in good order (approved, denied or cancelled inside of its lifetime,
    expired after it) that has the binding of the record it waits for: the same
    approval, action, scope, requester, decision and times.  It never returns a
    pending record, and it ends at the first round that begins at the deadline. *)
Theorem waits_for_decided_approval approvals a deadline interval polls :
  (∀ r, wait_for_approval approvals a deadline interval polls = Some (Ok r) →
     apr_status r ≠ PENDING ∧ approval_wf r ∧ approval_binding r = approval_binding a) ∧
  (∀ d i p, poll_parameters deadline interval = Ok (d, i) → p ∈ polls → fle d (p_now p) = true →
     ∃ r, wait_for_approval approvals a deadline interval polls = Some r).
Proof.
  unfold wait_for_approval. destruct (poll_parameters deadline interval) as [[d i]|e]; [|naive_solver]. split.
  - intros r. apply wait_loop_Ok.
  - intros d' i' p [= <- <-] Hp Hd. clear i. revert a.
    cut (∀ id a, ∃ r, wait_loop approvals id d a polls = Some r); [auto|].
    induction polls as [|q polls IH]; [by apply elem_of_nil in Hp|]. intros id a. cbn.
    destruct (p_cancelled q) as [[]|]; [by eauto| |by eauto].
    apply elem_of_cons in Hp as [->|Hp]; [rewrite Hd; by eauto|].
    destruct (fle d (p_now q)); [by eauto|]. destruct (get_approval _ _ _ _ _) as [r|]; [|by eauto].
    case_bool_decide; cbn; [|by eauto]. destruct (fle _ fzero); [by eauto|]. by apply IH.
Qed.

(** ** Resuming *)

(** The approval was given and has not expired at the trusted time. *)
Definition approved_at (a : approval) (now : pystr) : Prop :=
  apr_status a = APPROVED ∧
  ∃ t text d e, rfc3339_value now = Some t ∧ apr_decided_at a = Some text ∧ rfc3339_value text = Some d ∧
    rfc3339_value (apr_expires_at a) = Some e ∧ timestamp_order d t ≤ 0 ∧ timestamp_order t e < 0.

Lemma require_approved_Ok prior a now : require_approved prior a now = Ok () → approved_at a now.
Proof.
  unfold require_approved. destruct (apr_status a) eqn:Es; try done. intros Ha. inv_ok.
  match goal with H : except_raise _ _ _ = Ok _ |- _ => apply except_raise_Ok in H end. inv_ok.
  repeat match goal with H : parse_timestamp _ = Ok _ |- _ => apply parse_timestamp_Ok in H as (? & ? & ?) end.
  refl_bool. destruct (apr_decided_at a) as [text|] eqn:Ed; simplify_eq/=. split; [done|]. eexists _, _, _, _. eauto 10.
Qed.

Lemma wp_require_resumable original prior a now w Q R :
  (∀ request h, carries w original request h → linked request h prior a = Ok () → approved_at a now → Q () w) →
  R w → wp (require_resumable original prior a now) w Q R.
Proof.
  intros HQ HR. unfold require_resumable. repeat wp_step.
  repeat match goal with u : () |- _ => destruct u end.
  eapply HQ; [by eexists _, _|done|by eapply require_approved_Ok].
Qed.

(** The candidate that [prepare_resume] adds to the world. *)
Record candidate_of (w : world) (original current : nat) (e : envelope) : Prop := {
  cand_attributes : ∃ prior checked resumed h n n' eo ec,
    envelopes w !! original = Some eo ∧ is_open eo ∧ object eo = PreparedAction prior h n' ∧
    envelopes w !! current = Some ec ∧ is_open ec ∧ object ec = PreparedAction checked h n ∧
    object e = PreparedAction resumed h n ∧
    es_kind (estate e) = es_kind (estate ec) ∧ es_buffer (estate e) = es_buffer (estate ec) ∧
    Forall (λ name, same_attribute name checked prior = true ∧ attribute name resumed = attribute name checked)
      RESUME_ATTRIBUTES ∧
    ∃ document, to_dict resumed = Ok document ∧ client_scope_hash document = Ok h;
  cand_open : is_open e;
  cand_distinct : original ≠ current;
}.

Lemma resumed_attributes checked rid key now d a r :
  resumed_request checked rid key now d a = Ok r →
  Forall (λ name, attribute name r = attribute name checked) RESUME_ATTRIBUTES.
Proof.
  unfold resumed_request. intros Hr. inv_ok. unfold RESUME_ATTRIBUTES.
  repeat (apply Forall_cons_2; [reflexivity|]). apply Forall_nil_2.
Qed.

Lemma wp_prepare_resume b original current d a o w :
  wp (prepare_resume b original current d a o) w
    (λ id w', id = next_id w ∧ ∃ e g, candidate_of w original current e ∧
       w' = added e (World (next_id w) (envelopes w) g))
    (λ w', ∃ g, w' = World (next_id w) (envelopes w) g).
Proof.
  assert (∃ g, w = World (next_id w) (envelopes w) g) as Hw by (exists (identifiers w); by destruct w).
  unfold prepare_resume. repeat wp_step.
  apply wp_new_id; [intros s1 g1|intros g; by exists g]. wp_step.
  apply wp_new_id; [intros s2 g2|intros g; by exists g].
  assert (∃ g, World (next_id w) (envelopes w) g2 = World (next_id w) (envelopes w) g) as Hw' by by exists g2.
  cbn [next_id envelopes] in *. repeat wp_step. apply wp_new_envelope; [|done]. intros m. cbn [envelopes] in *. same_call.
  split; [done|]. eexists _, g2. split; [|reflexivity].
  match goal with Ho : object ?e = PreparedAction _ _ _, Hm : match object ?e with _ => _ end = Ok _ |- _ =>
    rewrite Ho in Hm; injection Hm as <- end.
  inv_ok. refl_bool. repeat match goal with H : str_eqb _ _ = true |- _ => apply str_eqb_eq in H; subst end.
  match goal with H : resumed_request _ _ _ _ _ _ = Ok _ |- _ => pose proof (resumed_attributes _ _ _ _ _ _ _ H) as Hattr end.
  match goal with H : forallb _ RESUME_ATTRIBUTES = true |- _ => apply forallb_Forall in H; rename H into Hsame end.
  split.
  - eexists _, _, _, _, _, _, _, _. unfold is_open.
    repeat (split; [by eauto|]). split; [|by eauto].
    apply Forall_and. split; [|done]. exact Hsame.
  - done.
  - match goal with H : (current =? original)%nat = false |- _ => apply Nat.eqb_neq in H; congruence end.
Qed.

Lemma wp_commit_resume b original current x w :
  original ≠ current →
  wp (commit_resume b original current x) w
    (λ _ w', ∃ eo ec, envelopes w !! original = Some eo ∧ envelopes w !! current = Some ec ∧
       w' = with_closed current ec (with_closed original eo w))
    (λ w', w' = w).
Proof.
  intros Hne. unfold commit_resume.
  assert (∀ w', w = w' → w' = w) as Hrefl by done. repeat wp_step; try done.
  apply wp_close; [|done]. intros eo Heo. apply wp_close.
  - intros ec Hec. exists eo, ec. split; [done|]. split; [|done]. cbn in Hec. by rewrite lookup_insert_ne in Hec.
  - cbn. rewrite lookup_insert_ne by done. intros Hn. congruence.
Qed.

(** Object identities are below the next one. *)
Definition ids_below (w : world) : Prop := ∀ id e, envelopes w !! id = Some e → (id < next_id w)%nat.

(** A resumed action: the original and the current action are closed, the new one
    is open and was allowed afresh for the scope that was approved. *)
Definition resumed (w w' : world) (original current id : nat) (a : approval) (answer : py attr) : Prop :=
  id = next_id w ∧ ∃ e fresh,
    candidate_of w original current e ∧ envelopes w' !! id = Some e ∧
    (∃ eo ec, envelopes w' !! original = Some eo ∧ ¬ is_open eo ∧ envelopes w' !! current = Some ec ∧ ¬ is_open ec) ∧
    allows w' id answer fresh ∧ dec_authoritative_scope_hash fresh = apr_authoritative_scope_hash a.

(** Nothing happened: all envelopes are as before, and new ones are closed. *)
Definition unchanged (w w' : world) : Prop :=
  (∀ id e, envelopes w !! id = Some e → envelopes w' !! id = Some e) ∧
  ∀ id e, envelopes w' !! id = Some e → envelopes w !! id = None → ¬ is_open e.

Lemma unchanged_generator w g : unchanged w (World (next_id w) (envelopes w) g).
Proof. split; cbn; [done|]. intros id e Hs Hn. congruence. Qed.

Lemma discarded_unchanged w e g :
  ids_below w → unchanged w (close (next_id w) (added e (World (next_id w) (envelopes w) g))).2.
Proof.
  intros Hw. assert (envelopes w !! next_id w = None) as Hn.
  { destruct (envelopes w !! next_id w) eqn:E; [|done]. apply Hw in E. lia. }
  unfold close, added. cbn. rewrite lookup_insert_eq. split; cbn; intros id e'.
  - intros Hid. rewrite !lookup_insert_ne; [done|congruence..].
  - rewrite !lookup_insert_Some. intros [[<- <-]|[? [[<- <-]|[? ?]]]]; [intros _; apply close_not_open|done|congruence].
Qed.

(** The world after the candidate [e] was allowed and committed. *)
Lemma committed_resumed w e g original current a answer fresh eo ec :
  let w1 := added e (World (next_id w) (envelopes w) g) in
  ids_below w → candidate_of w original current e →
  envelopes w1 !! original = Some eo → envelopes w1 !! current = Some ec →
  allows w1 (next_id w) answer fresh → dec_authoritative_scope_hash fresh = apr_authoritative_scope_hash a →
  resumed w (with_closed current ec (with_closed original eo w1)) original current (next_id w) a answer.
Proof.
  intros w1 Hw Hcand Ho Hc (Hallow & Hwf & request & h & value & doc & (e' & n & He' & Hobj) & Hrest) Hh.
  pose proof Hcand as [(p & k & q & h' & n1 & n2 & eo' & ec' & Heo & _ & _ & Hec & _) _ Hne].
  pose proof (Hw _ _ Heo) as Hlo. pose proof (Hw _ _ Hec) as Hlc.
  assert (∀ x y z, envelopes (with_closed current x (with_closed original y w1)) !! next_id w = Some z ↔
            envelopes w1 !! next_id w = Some z) as Hkeep.
  { intros x y z. cbn. by rewrite !lookup_insert_ne by lia. }
  split; [done|]. exists e, fresh. split; [done|]. split; [|split; [|split; [|done]]].
  - apply Hkeep. cbn. by rewrite lookup_insert_eq.
  - cbn. do 2 eexists. rewrite lookup_insert_ne, !lookup_insert_eq by done.
    repeat split; apply close_not_open.
  - split; [done|]. split; [done|]. exists request, h, value, doc. split; [|done]. exists e', n. by rewrite Hkeep.
Qed.

(** C4: Resuming is all or nothing.  If [resume] returns, the approval was approved
    and unexpired at the trusted time and linked to the original request and the
    prior decision; the sealed request that is returned has the action, task,
    adapter, target, side effect and client scope of the original one and the
    execution of the current one; the document that the transport answered for it
    has the outcome [allow] and the scope that was approved; and the original and the current action are closed.  If it
    raises, all actions are as they were and the candidate is closed. *)
Theorem resume_all_or_nothing opened b original current prior a clock o answer w r w' :
  ids_below w →
  resume_action opened b original current prior a clock o answer w = (r, w') →
  match r with
  | Ok id =>
      (∃ now, trusted_now clock = Ok now ∧ approved_at a now) ∧
      (∃ request h, carries w original request h ∧ linked request h prior a = Ok ()) ∧
      resumed w w' original current id a answer
  | Raise _ => unchanged w w'
  end.
Proof.
  intros Hids E.
  assert (wp (resume_action opened b original current prior a clock o answer) w
    (λ id w', (∃ now, trusted_now clock = Ok now ∧ approved_at a now) ∧
      (∃ request h, carries w original request h ∧ linked request h prior a = Ok ()) ∧
      resumed w w' original current id a answer) (unchanged w)) as Hwp; [|unfold wp in Hwp; by rewrite E in Hwp].
  assert (unchanged w w) as Hsame by (split; [done|]; intros; congruence).
  unfold resume_action, resume_through. repeat wp_step. apply wp_require_resumable; [|done].
  intros request h Hcar Hlink Happ. wp_step.
  eapply wp_mono; [apply wp_prepare_resume| |intros ? [g ->]; apply unchanged_generator].
  intros id w1 (-> & e & g & Hcand & ->). set (w1 := added e _).
  assert (envelopes w1 !! next_id w = Some e) as Hid by (cbn; by rewrite lookup_insert_eq).
  assert (wp (fresh ← authorize_through opened (next_id w) (lift answer);
     lift (raise_if (negb (str_eqb (dec_authoritative_scope_hash fresh) (apr_authoritative_scope_hash a)))
             (decision_error CApprovalScopeMismatch fresh));;
     commit_resume b original current (next_id w);; mret (next_id w)) w1
    (λ id w', resumed w w' original current id a answer) (λ w', w' = w1)) as Hbody.
  { wp_step. apply (wp_authorize opened _ answer); [|done]. intros fresh _ Hallow. repeat wp_step; [|done].
    eapply wp_mono; [apply wp_commit_resume; by destruct Hcand| |done].
    intros _ w2 (eo & ec & Heo & Hec & ->). apply wp_ret. inv_ok. refl_bool.
    match goal with H : str_eqb _ _ = true |- _ => apply str_eqb_eq in H end. by apply committed_resumed with (fresh := fresh). }
  unfold wp, unless_committed. unfold wp in Hbody.
  match type of Hbody with match ?x with _ => _ end => destruct x as [[id|e'] w2] end; [by eauto 10|].
  rewrite Hbody. by apply discarded_unchanged.
Qed.

End facts.
