(* ===== verification/ClientExamples.v ===== *)
(** * A client, step by step

    A target is prepared, an action is built from it and consumed; another action
    waits for an approval and is resumed.  The steps instantiate the theorems on
    executions and on the client. *)

From stdpp Require Import base list list_numbers numbers strings gmap.
From S2P Require Import Prelude PyString Sha256 Regex Errors Timestamp PyValue Schemas Decimal Unicode.
From S2P Require Import Structure Wire Identifiers TaskScope Interfaces CanonicalJson CanonicalFacts.
From S2P Require Import Approvals Models PyUrl Shell Resources CanonicalPath CanonicalUrl Scope Envelope.
From S2P Require Import PyFloat Executions Client ClientFacts.
Open Scope Z_scope.

#[local] Existing Instance plain_unicode.
#[local] Existing Instance plain_url.

(** ** Building and consuming an action *)
Definition value_or {A} (d : A) (r : py A) : A := match r with Ok a => a | Raise _ => d end.
Definition example_builder : builder :=
  value_or (Builder (ARaw PNone) []) (make_builder (u "example") (u "1.0.0") (u "3.12.0") (Some (replicate 32 7))).
Definition zeros (n : nat) : string := String.string_of_list_ascii (replicate n (Ascii.ascii_of_nat 48)).
Definition identifier (prefix : string) : pystr := u (prefix ++ zeros 26)%string.
Definition example_task : task_context := TaskContext (identifier "task_") (identifier "session_").
Definition example_observation : observation := Observation 1 1700000000000000000 (Some (replicate 10 5)).
Definition example_ids : id_observations :=
  IdObservations example_observation example_observation example_observation example_observation.
Definition no_texts : context_texts := ContextTexts None None None None.
Definition nonce (n : Z) : pybytes := replicate 16 n.
Definition file_request : request := RPath (u "reports/../data.csv") (u "/srv").

Definition empty_world : world := World 0 ∅ (new_generator 1).

(** ** One action: prepare a target, build the action, consume it *)
Definition world_0 : world := World 0 ∅ (new_generator 1).
Definition prepared_1 := prepare_target example_builder (u "files") file_request (nonce 1) world_0.
Definition intent_2 :=
  new_intent example_builder (u "file:read") 0 (u "read_only") (Some example_task) None None None
    example_ids prepared_1.2.
Definition no_intent : action_request :=
  ActionRequest [] (ActionTarget [] [] []) example_task [] [] [] None None None None.
Definition example_intent : action_request := value_or no_intent intent_2.1.
Definition built_3 :=
  build example_builder example_intent (Some 0%nat) no_texts (Datetime 2026 1 1 0 0 0, 0) (nonce 2) (nonce 3)
    intent_2.2.
Definition consumed_4 := consume 1 built_3.2.

Definition data_path : pyval := PStr (u "/srv/data.csv").

(** The value is delivered once. *)
Lemma consumed_once : consumed_4.1 = Ok data_path ∧ (consume 1 consumed_4.2).1 = Raise invalid.
Proof. vm_compute. done. Qed.

(** What the program has done after each step. *)
Definition system_0 : system := System world_0 [] [] [].
Definition system_1 : system := System prepared_1.2 [] [] ([] ++ logged (nonce 1) (prepare file_request)).
Definition system_2 : system := System intent_2.2 [] [] (prepared_values system_1).
Definition system_3 : system := System built_3.2 [] [] (prepared_values system_2 ++ [(nonce 2, PNone)]).
Definition example_system : system :=
  System consumed_4.2 [] ([] ++ [(lineage_of 1 built_3.2, data_path)]) (prepared_values system_3).

(** No envelope comes from the target with this nonce. *)
Definition unused_nonce (n : pybytes) (w : world) : bool :=
  bool_decide (map_Forall (λ _ e, lineage (object e) ≠ n) (envelopes w)).

Lemma fresh_checked w cands spent values n :
  unused_nonce n w = true → bool_decide (n ∈ spent.*1) = false → bool_decide (n ∈ values.*1) = false →
  fresh_nonce (System w cands spent values) n.
Proof.
  intros Hw%bool_decide_eq_true Hs%bool_decide_eq_false Hv%bool_decide_eq_false.
  split; [done|]. split; [done|]. intros id e He. exact (Hw id e He).
Qed.

Lemma example_fresh : fresh_nonce system_0 (nonce 1) ∧ fresh_nonce system_2 (nonce 2).
Proof. split; apply fresh_checked; vm_compute; reflexivity. Qed.

Lemma prepared_1_step : prepare_target example_builder (u "files") file_request (nonce 1) world_0
  = (prepared_1.1, prepared_1.2).
Proof. unfold prepared_1. apply surjective_pairing. Qed.
Lemma intent_2_step :
  new_intent example_builder (u "file:read") 0 (u "read_only") (Some example_task) None None None example_ids
    prepared_1.2 = (intent_2.1, intent_2.2).
Proof. unfold intent_2. apply surjective_pairing. Qed.
Lemma built_3_step :
  build example_builder example_intent (Some 0%nat) no_texts (Datetime 2026 1 1 0 0 0, 0) (nonce 2) (nonce 3)
    intent_2.2 = (built_3.1, built_3.2).
Proof. unfold built_3. apply surjective_pairing. Qed.
Lemma consumed_4_step : consume 1 built_3.2 = (Ok data_path, consumed_4.2).
Proof. rewrite <-(proj1 consumed_once). unfold consumed_4. apply surjective_pairing. Qed.

Opaque prepared_1 intent_2 built_3 consumed_4.

Lemma example_system_reachable : reachable example_builder example_system.
Proof.
  destruct example_fresh as [F1 F2].
  apply (reachable_next _ system_3), (step_consume example_builder system_3 1 _ _ (not_elem_of_nil 1%nat) consumed_4_step).
  apply (reachable_next _ system_2), (step_build _ system_2 _ _ _ _ _ _ _ _ F2 built_3_step).
  apply (reachable_next _ system_1), (step_new _ system_1 _ _ _ _ _ _ _ _ _ _ intent_2_step).
  apply (reachable_next _ system_0), (step_prepare _ system_0 _ _ _ _ _ F1 prepared_1_step).
  apply reachable_start.
Qed.

Lemma executed_at_most_once_witness :
  reachable example_builder example_system ∧ NoDup (executed example_system).*1 ∧
  ∃ value, (lineage_of 1 built_3.2, value) ∈ prepared_values example_system ∧ data_path = delivered value.
Proof.
  pose proof (executed_at_most_once example_builder example_system example_system_reachable) as [Hnd Hv].
  split; [exact example_system_reachable|]. split; [exact Hnd|].
  destruct (Hv (lineage_of 1 built_3.2) data_path) as (value & Hin & Hd & _); [apply list_elem_of_singleton; reflexivity|].
  exists value. split; [exact Hin|exact Hd].
Defined.

(** ** An action that is resumed after its approval *)

(** An action for the file, with the given correlation. *)
Definition build_action (n : Z) : op nat :=
  target ← prepare_target example_builder (u "files") file_request (nonce n);
  intent ← new_intent example_builder (u "file:read") target (u "read_only") (Some example_task)
             (Some (identifier "act_")) (Some (identifier "corr_")) None example_ids;
  build example_builder intent (Some target) no_texts (Datetime 2026 1 1 0 0 0, 0) (nonce (n + 1)) (nonce (n + 2)).

(** The original action has identity 1 and the current one identity 3. *)
Definition two_actions : world := ((build_action 1;; build_action 4) world_0).2.
Definition text_of (a : option attr) : pystr := value_or [] (str_of a).
Definition original_request : attr * pystr := value_or (ARaw PNone, []) (request_of 1 two_actions).1.

Definition approved_scope_hash : pystr := u ("sha256:" ++ zeros 64)%string.

Definition prior_decision : decision :=
  Decision (text_of (attribute "request_id" original_request.1)) (identifier "dec_") (identifier "corr_")
    APPROVAL_REQUIRED (u "approval_required") original_request.2 approved_scope_hash (u "policy_1")
    (u "2026-01-01T00:00:01Z") (u "2026-01-01T01:00:00Z") (identifier "audit_") (Some (identifier "apr_"))
    (Some (u "pending")) (Some (u "2026-01-01T00:30:00Z")).

Definition approved_record : approval :=
  Approval (identifier "act_") (identifier "apr_") (identifier "dec_") approved_scope_hash (identifier "corr_")
    (identifier "audit_") (Some (u "2026-01-01T00:10:00Z")) (u "2026-01-01T00:30:00Z") (u "null")
    (u "2026-01-01T00:00:02Z") (u "alice") None None None None None APPROVED.

Definition resume_draws : resume_observations :=
  ResumeObservations example_observation example_observation (Datetime 2026 1 1 0 11 0, 0) (nonce 9).

Definition text (k : string) (s : pystr) : pystr * pyval := (u k, PStr s).

(** The answer of a transport that allows a request. *)
Definition allow_answer (request_id correlation_id scope_hash : pystr) : py attr :=
  parse_decision (PDict
    [text "schemaVersion" (u "1"); text "requestId" request_id; text "decisionId" (identifier "dec_");
     text "correlationId" correlation_id; text "outcome" (u "allow");
     text "reasonCode" (u "policy_allowed"); text "displayReason" (u "The action is authorized.");
     text "clientScopeHash" scope_hash; text "authoritativeScopeHash" approved_scope_hash;
     text "policyRevision" (u "policy_1"); text "serverTime" (u "2026-01-01T00:11:00Z");
     text "expiresAt" (u "2026-01-01T00:12:00Z"); text "auditRef" (identifier "audit_");
     (u "cache", PDict [(u "cacheable", PBool false)])]).

(** The candidate has the next request identifier. *)
Definition next_request_id : pystr := value_or [] (new "request" example_observation (identifiers two_actions)).1.
Definition fresh_answer : py attr := allow_answer next_request_id (identifier "corr_") original_request.2.

Definition resumed_5 :=
  resume_action true example_builder 1 3 prior_decision approved_record (Ok (PStr (u "2026-01-01T00:11:00Z")))
    resume_draws fresh_answer two_actions.

Definition ids_checked (w : world) : bool :=
  bool_decide (map_Forall (λ id _, id < next_id w)%nat (envelopes w)).

Lemma ids_checked_below w : ids_checked w = true → ids_below w.
Proof. intros Hw%bool_decide_eq_true id e He. exact (Hw id e He). Qed.

Lemma example_resumes : ids_checked two_actions = true ∧ resumed_5.1 = Ok 4%nat.
Proof. vm_compute. done. Qed.

Lemma resumed_5_step :
  resume_action true example_builder 1 3 prior_decision approved_record (Ok (PStr (u "2026-01-01T00:11:00Z")))
    resume_draws fresh_answer two_actions = (Ok 4%nat, resumed_5.2).
Proof. rewrite <-(proj2 example_resumes). unfold resumed_5. apply surjective_pairing. Qed.

Lemma two_actions_below : ids_below two_actions.
Proof. exact (ids_checked_below _ (proj1 example_resumes)). Qed.

Opaque two_actions resumed_5 fresh_answer prior_decision.

Lemma resume_all_or_nothing_witness :
  ids_below two_actions ∧ resumed two_actions resumed_5.2 1 3 4 approved_record fresh_answer.
Proof.
  pose proof (resume_all_or_nothing _ _ _ _ _ _ _ _ _ _ _ _ two_actions_below resumed_5_step) as (_ & _ & Hr).
  split; [exact two_actions_below|exact Hr].
Defined.

(** ** An action that is allowed *)
Definition built_request : attr * pystr := value_or (ARaw PNone, []) (request_of 1 built_3.2).1.
Definition built_answer : py attr :=
  allow_answer (text_of (attribute "request_id" built_request.1))
    (text_of (attribute "correlation_id" built_request.1)) built_request.2.
Definition allowed_4 := authorize true 1 built_answer built_3.2.

Lemma example_allowed : is_Ok allowed_4.1 = true.
Proof. vm_compute. done. Qed.

Lemma allowed_4_step : authorize true 1 built_answer built_3.2 = (allowed_4.1, allowed_4.2).
Proof. unfold allowed_4. apply surjective_pairing. Qed.

Opaque built_answer allowed_4.

Lemma authorization_is_bound_witness : ∃ d, allowed_4.1 = Ok d ∧ allows built_3.2 1 built_answer d.
Proof.
  pose proof (authorization_is_bound _ _ _ _ _ _ allowed_4_step) as [_ Hd].
  pose proof example_allowed as Ho. destruct (allowed_4.1) as [d|e]; [|discriminate Ho].
  exists d. split; [reflexivity|exact (proj2 (Hd d eq_refl))].
Defined.

(** ** An approval that is waited for *)
Definition approval_document (status : string) (fields : list (pystr * pyval)) : pyval :=
  PDict ([text "schemaVersion" (u "1"); text "approvalId" (identifier "apr_"); text "actionId" (identifier "act_");
          text "correlationId" (identifier "corr_"); text "authoritativeScopeHash" approved_scope_hash;
          text "status" (u status); text "requestedAt" (u "2026-01-01T00:00:02Z");
          text "expiresAt" (u "2026-01-01T00:30:00Z"); text "requesterRef" (u "subject:requester-42");
          text "authorizationDecisionId" (identifier "dec_"); text "creationAuditRef" (identifier "audit_")]
         ++ fields).
Definition pending_answer : py attr := parse_approval (approval_document "pending" []).
Definition approved_answer : py attr :=
  parse_approval (approval_document "approved"
    [text "reviewerRef" (u "subject:reviewer-7"); text "decidedAt" (u "2026-01-01T00:10:00Z");
     text "resolutionAuditRef" (identifier "audit_"); text "resolutionDecisionId" (identifier "dec_");
     text "resolutionReasonCode" (u "approved"); text "resolutionIdempotencyKey" (identifier "approval_")]).
Definition pending_record : approval := value_or approved_record (v ← pending_answer; approval_from_protocol v).

(** Two rounds, at the times 1 and 2; the approval is still pending in the first. *)
Definition first_poll : poll := Poll (Ok false) (of_int 1) true pending_answer (of_int 1).
Definition second_poll : poll := Poll (Ok false) (of_int 2) true approved_answer (of_int 2).
Definition example_polls : list poll := [first_poll; second_poll].
Definition waited (deadline : Z) : option (py approval) :=
  wait_for_approval true pending_record (PInt deadline) (PInt 1) example_polls.

Lemma example_waited :
  is_Ok <$> waited 10 = Some true ∧ poll_parameters (PInt 2) (PInt 1) = Ok (of_int 2, of_int 1) ∧
  fle (of_int 2) (p_now second_poll) = true.
Proof. vm_compute. done. Qed.

Lemma waits_for_decided_approval_witness :
  (∃ r, waited 10 = Some (Ok r) ∧ apr_status r ≠ PENDING) ∧ (∃ r, waited 2 = Some r).
Proof.
  pose proof example_waited as (Ho & Hp & Hl). split.
  - pose proof (waits_for_decided_approval true pending_record (PInt 10) (PInt 1) example_polls) as [Hr _].
    fold (waited 10) in Hr. destruct (waited 10) as [[r|e]|]; [|discriminate Ho|discriminate Ho].
    exists r. split; [reflexivity|]. exact (proj1 (Hr r eq_refl)).
  - refine (proj2 (waits_for_decided_approval true pending_record (PInt 2) (PInt 1) example_polls) _ _ second_poll Hp _ Hl).
    apply list_elem_of_further, list_elem_of_here.
Defined.
