(* ===== verification/AsyncClient.v ===== *)
(** * The asynchronous authorization client

    Models the operations of [AsyncAuthorizationClient] ([async_client.py]); how they
    interleave with [aclose] is in [AsyncLifecycle].  An operation works on the client,
    on the context of the task that runs it and on the objects of the builder.  Where
    it awaits a transport, the transport answers or raises (the cancellation of the
    task is one of the exceptions), and the other tasks may have changed the client
    and the objects in the meantime. *)

From stdpp Require Import base list list_numbers numbers strings gmap.
From S2P Require Import Prelude PyString Sha256 Regex Errors Timestamp PyValue Schemas Decimal Unicode.
From S2P Require Import Structure Wire Identifiers TaskScope Interfaces CanonicalJson JsonRoundTrip CanonicalFacts.
From S2P Require Import Approvals Models PyUrl Shell Resources CanonicalPath CanonicalUrl Scope Effects Envelope.
From S2P Require Import PyFloat Lifecycle AsyncLifecycle Client ClientExamples.
Open Scope Z_scope.

Record aworld := AWorld { aw_client : aclient; aw_task : task; aw_objects : world }.

(** What the builder and its objects do. *)
Definition objects {A} (m : op A) : eff aworld A := λ w,
  let '(r, o) := m (aw_objects w) in (r, AWorld (aw_client w) (aw_task w) o).

Definition cleanup (m : op ()) (w : aworld) : aworld := (objects m w).2.

(** What awaiting a transport comes to: its answer, and what the other tasks do to the
    client and to the objects meanwhile. *)
Record reply := Reply { answer : py attr; meanwhile : aclient → aclient; elsewhere : world → world }.

Definition await_reply (a : reply) : eff aworld attr := λ w,
  (answer a, AWorld (meanwhile a (aw_client w)) (aw_task w) (elsewhere a (aw_objects w))).

Definition is_open (c : aclient) : bool := bool_decide (a_state c = OPEN).

(** [_begin_operation(request)] and [_ACTIVE_CLIENTS.set(...)]. *)
Definition enter (request : option attr) : eff aworld () := λ w,
  match abegin_operation (aw_client w) with
  | Some c => (Ok (), AWorld c (set_active (aw_task w)) (aw_objects w))
  | None => (Raise (PaloNexusError (sdk_error_init CAuthorizationUnavailable
                (request ≫= identifier_text "request_id") None (request ≫= identifier_text "correlation_id"))), w)
  end.

(** [_ACTIVE_CLIENTS.reset(token)] and [_end_operation()]. *)
Definition leave (w : aworld) : aworld :=
  AWorld (aend_operation (aw_client w)) (default (aw_task w) (reset_active (aw_task w))) (aw_objects w).

Definition in_operation {A} (request : option attr) (body : eff aworld A) : eff aworld A :=
  enter request;; finally body leave.

Section client.
Context `{UnicodeData} `{UrlData}.

Definition adecide (attempt : nat) (a : reply) : eff aworld decision :=
  '(request, scope_hash) ← objects (attempt_parts attempt);
  in_operation (Some request)
    (value ← await_reply a; Effects.run (public_decision value request scope_hash)).

Definition aauthorize (attempt : nat) (a : reply) : eff aworld decision :=
  d ← adecide attempt a; Effects.run (require_allow d).

Context `{Canonicalizer}.

(** [approvals] tells whether the client has an approval transport. *)
Definition arequest_approval (approvals : bool) (attempt : nat) (d : decision) (a : reply) : eff aworld approval :=
  '(request, scope_hash) ← objects (attempt_parts attempt);
  request_id ← Effects.run (str_of (attribute "request_id" request));
  correlation_id ← Effects.run (str_of (attribute "correlation_id" request));
  Effects.run (raise_if (negb (bool_decide (dec_outcome d = APPROVAL_REQUIRED))
                         || bool_decide (dec_approval_id d = None)
                         || negb (str_eqb (dec_request_id d) request_id)
                         || negb (str_eqb (dec_correlation_id d) correlation_id)
                         || negb (str_eqb (dec_client_scope_hash d) scope_hash))
    (PaloNexusError (sdk_error_init CApprovalScopeMismatch (identifier_text "request_id" request)
       (Some (dec_decision_id d)) (identifier_text "correlation_id" request))));;
  in_operation (Some request)
    (Effects.run (raise_if (negb approvals) (bare_error CAuthorizationUnavailable));;
     value ← await_reply a;
     record ← Effects.run (approval_from_protocol value);
     Effects.run (bind_approval record request d);;
     mret record).

Definition aget_approval (approvals : bool) (approval_id : pystr) (expected : approval) (a : reply)
    : eff aworld approval :=
  Effects.run (except_raise is_target_error (bare_error CInvalidRequest) (wire ApprovalID approval_id));;
  in_operation None
    (Effects.run (raise_if (negb approvals) (bare_error CAuthorizationUnavailable));;
     value ← await_reply a;
     record ← Effects.run (approval_from_protocol value);
     Effects.run (raise_if (negb (str_eqb (apr_approval_id record) approval_id)) (bare_error CInvalidDecision));;
     Effects.run (validate_transition expected record);;
     mret record).

(** ** Polling *)

(** What one round of the loop observes: the answer of [cancelled()], the time before
    the request, the reply to it, the time after it, and what awaiting the sleep
    comes to. *)
Record apoll := APoll {
  ap_cancelled : py bool;
  ap_now : float;
  ap_reply : reply;
  ap_after : float;
  ap_sleep : py ();
  ap_meanwhile : aclient → aclient;
  ap_elsewhere : world → world;
}.

Definition await_sleep (p : apoll) : eff aworld () := λ w,
  (ap_sleep p, AWorld (ap_meanwhile p (aw_client w)) (aw_task w) (ap_elsewhere p (aw_objects w))).

(** One round: the approval to return, or the one to go on with. *)
Definition await_round (approvals : bool) (approval_id : pystr) (deadline : float) (observed : approval)
    (p : apoll) : eff aworld (approval + approval) :=
  stop ← Effects.run (ap_cancelled p);
  Effects.run (raise_if stop AsyncCancelledError);;
  Effects.run (raise_if (fle deadline (ap_now p)) (bare_error CAuthorizationUnavailable));;
  record ← aget_approval approvals approval_id observed (ap_reply p);
  if negb (bool_decide (apr_status record = PENDING)) then mret (inl record)
  else
    Effects.run (raise_if (fle (fsub deadline (ap_after p)) fzero) (bare_error CAuthorizationUnavailable));;
    await_sleep p;;
    mret (inr record).

(** The loop of [wait_for_approval]; [None] if it goes on after these rounds. *)
Fixpoint await_rounds (approvals : bool) (approval_id : pystr) (deadline : float) (observed : approval)
    (polls : list apoll) (w : aworld) : option (py approval * aworld) :=
  match polls with
  | [] => None
  | p :: polls =>
      match await_round approvals approval_id deadline observed p w with
      | (Raise e, w) => Some (Raise e, w)
      | (Ok (inl record), w) => Some (Ok record, w)
      | (Ok (inr record), w) => await_rounds approvals approval_id deadline record polls w
      end
  end.

Definition await_approval (approvals : bool) (a : approval) (deadline interval : pyval) (polls : list apoll)
    (w : aworld) : option (py approval * aworld) :=
  match poll_parameters deadline interval with
  | Raise e => Some (Raise e, w)
  | Ok (d, _) => await_rounds approvals (apr_approval_id a) d a polls w
  end.

(** ** Resuming *)
Definition aresume (b : builder) (original current : nat) (prior : decision) (a : approval) (clock : py pyval)
    (o : resume_observations) (r : reply) : eff aworld nat :=
  now ← Effects.run (trusted_now clock);
  objects (require_resumable original prior a now);;
  candidate ← objects (prepare_resume b original current (dec_decision_id prior) (apr_approval_id a) o);
  Effects.on_error
    (fresh ← aauthorize candidate r;
     Effects.run (raise_if (negb (str_eqb (dec_authoritative_scope_hash fresh) (apr_authoritative_scope_hash a)))
                    (decision_error CApprovalScopeMismatch fresh));;
     objects (commit_resume b original current candidate);;
     mret candidate) (cleanup (close candidate)).

(** [resume_checkpoint]; [approval_reply] is that of the approval transport. *)
Definition aresume_checkpoint (approvals : bool) (b : builder) (current : nat)
    (original_request : pyval) (scope_hash : pystr) (prior_decision pending_approval : pyval)
    (target_nonce nonce : pybytes) (clock : py pyval) (o : resume_observations)
    (approval_reply r : reply) : eff aworld nat :=
  '(original, prior, expected) ← objects
    (restore_checkpoint b original_request scope_hash prior_decision pending_approval target_nonce nonce);
  finally
    (a ← aget_approval approvals (apr_approval_id expected) expected approval_reply;
     aresume b original current prior a clock o r) (cleanup (close original)).


(** ** The operations and those of the synchronous client *)

(** The client after an operation during whose await it changed by [f]. *)
Definition bracket (f : aclient → aclient) (c : aclient) : aclient :=
  match abegin_operation c with Some c => aend_operation (f c) | None => c end.

(** The client after an operation that awaits [a] at most once. *)
Definition operated (a : reply) (c c' : aclient) : Prop :=
  c' = c ∨ c' = bracket id c ∨ c' = bracket (meanwhile a) c.

(** The call of a transport that answers [a], for a client that is not asynchronous:
    other threads change the objects as the other tasks do. *)
Definition call (a : reply) : op attr := λ o, (answer a, elsewhere a o).

(** The asynchronous operation [m], which awaits [a], does what [m'] does with such a
    call: it returns or raises the same and leaves the same objects, it restores the
    context of its task, and it ends the operation it began. *)
Definition simulates {A} (a : reply) (m : eff aworld A) (m' : bool → op attr → op A) : Prop := ∀ w r w',
  m w = (r, w') →
  m' (is_open (aw_client w)) (call a) (aw_objects w) = (r, aw_objects w') ∧ aw_task w' = aw_task w ∧
  operated a (aw_client w) (aw_client w').

Lemma begin_open opened request :
  begin_operation opened request = if opened then Ok () else begin_operation false request.
Proof. by destruct opened. Qed.

Lemma abegin_open c :
  abegin_operation c = if is_open c then Some (AClient OPEN (S (a_active c)) (a_close_failure c) (a_close_task c)) else None.
Proof. unfold abegin_operation, is_open. by destruct (a_state c). Qed.

(** An operation that awaits [a] unless [before] raises, and does nothing else to the
    world. *)
Lemma in_operation_simulates {A} (a : reply) request (before : py ()) (k : attr → py A)
    (body : eff aworld A) (m' : bool → op attr → op A) :
  (∀ w, body w = match before with
                 | Raise e => (Raise e, w)
                 | Ok _ => (answer a ≫= k, (await_reply a w).2)
                 end) →
  (∀ opened o, m' opened (call a) o =
     match begin_operation opened request;; before with
     | Raise e => (Raise e, o)
     | Ok _ => (answer a ≫= k, elsewhere a o)
     end) →
  simulates a (in_operation request body) m'.
Proof.
  intros Hbody Hm [c [i ts wt] o] r w'. rewrite Hm, begin_open.
  unfold in_operation, enter, finally, operated, bracket. unfold mbind at 1, eff_bind.
  cbn [aw_client aw_task aw_objects]. rewrite abegin_open.
  destruct (is_open c) eqn:Eo; [rewrite Hbody|by intros [= <- <-]; cbn; auto].
  by destruct before as [[]|e]; intros [= <- <-]; cbn; auto.
Qed.

Lemma simulates_bind {A B} (a : reply) (m : op A) (k : A → eff aworld B) (k' : bool → op attr → A → op B) :
  (∀ x, simulates a (k x) (λ opened t, k' opened t x)) →
  simulates a (x ← objects m; k x) (λ opened t, x ← m; k' opened t x).
Proof.
  intros Hk [c tk o] r w'. unfold mbind, eff_bind, op_bind, objects. cbn [aw_client aw_task aw_objects].
  destruct (m o) as [[x|e] o1]; [apply (Hk x (AWorld c tk o1))|]. intros [= <- <-]. unfold operated. auto.
Qed.

Lemma simulates_run {A B} (a : reply) (m : py A) (k : A → eff aworld B) (k' : bool → op attr → A → op B) :
  (∀ x, simulates a (k x) (λ opened t, k' opened t x)) →
  simulates a (x ← Effects.run m; k x) (λ opened t, x ← lift m; k' opened t x).
Proof. intros Hk [c tk o] r w'. exact (simulates_bind a (lift m) k k' Hk (AWorld c tk o) r w'). Qed.

(** Cases on the results of the steps of an operation. *)
Ltac by_results :=
  cbv [mbind result_bind eff_bind op_bind mret eff_ret op_ret Effects.run await_reply call lift]; cbn [fst snd];
  repeat match goal with |- context [match ?r with Ok _ => _ | Raise _ => _ end] => destruct r end; reflexivity.

Lemma adecide_simulates attempt a : simulates a (adecide attempt a) (λ opened, decide_through opened attempt).
Proof.
  apply simulates_bind. intros [request scope_hash].
  apply (in_operation_simulates a (Some request) (Ok ()) (λ value, public_decision value request scope_hash)).
  - intros w. by_results.
  - intros opened o. by_results.
Qed.

Lemma aauthorize_simulates attempt a : simulates a (aauthorize attempt a) (λ opened, authorize_through opened attempt).
Proof.
  intros w r w'. unfold aauthorize, authorize_through, mbind, eff_bind, op_bind, Effects.run, lift.
  destruct (adecide attempt a w) as [[d|e] w1] eqn:E; apply adecide_simulates in E as [E E']; rewrite E;
    by intros [= <- <-].
Qed.

Lemma arequest_approval_simulates approvals attempt d a :
  simulates a (arequest_approval approvals attempt d a)
    (λ opened, request_approval_through opened approvals attempt d).
Proof.
  apply simulates_bind. intros [request scope_hash]. do 3 (apply simulates_run; intros ?).
  apply (in_operation_simulates a (Some request)
    (raise_if (negb approvals) (bare_error CAuthorizationUnavailable))
    (λ value, record ← approval_from_protocol value; bind_approval record request d;; Ok record)).
  - intros w. by_results.
  - intros opened o. by_results.
Qed.

Lemma aget_approval_simulates approvals approval_id expected a :
  simulates a (aget_approval approvals approval_id expected a)
    (λ opened, get_approval_through opened approvals approval_id expected).
Proof.
  apply simulates_run. intros _.
  apply (in_operation_simulates a None (raise_if (negb approvals) (bare_error CAuthorizationUnavailable))
    (λ value, record ← approval_from_protocol value;
              raise_if (negb (str_eqb (apr_approval_id record) approval_id)) (bare_error CInvalidDecision);;
              validate_transition expected record;;
              Ok record)).
  - intros w1. by_results.
  - intros opened o. by_results.
Qed.

Lemma aresume_simulates b original current prior a clock o r :
  simulates r (aresume b original current prior a clock o r)
    (λ opened, resume_through opened b original current prior a clock o).
Proof.
  apply simulates_run. intros now. apply simulates_bind. intros _. apply simulates_bind. intros candidate w res w'.
  unfold Effects.on_error, unless_committed, cleanup. unfold mbind, eff_bind, op_bind.
  destruct (aauthorize candidate r w) as [[fresh|e] w1] eqn:E; apply aauthorize_simulates in E as (E & Et & Ec); rewrite E.
  - unfold Effects.run, lift. destruct (raise_if _ _); unfold objects;
      [destruct (commit_resume _ _ _ _ _) as [[]]|]; [..|destruct (close candidate (aw_objects w1)) eqn:Ecl];
      try destruct (close candidate _) eqn:Ecl; intros [= <- <-]; cbn; rewrite ?Ecl; done.
  - unfold objects. destruct (close candidate (aw_objects w1)) eqn:Ecl. intros [= <- <-]. cbn. by rewrite ?Ecl.
Qed.

Lemma aresume_checkpoint_simulates approvals b current original_request scope_hash prior_decision pending_approval
    target_nonce nonce clock o ar rr w r w' :
  aresume_checkpoint approvals b current original_request scope_hash prior_decision pending_approval
    target_nonce nonce clock o ar rr w = (r, w') →
  ∃ c, operated ar (aw_client w) c ∧
    resume_checkpoint (is_open (aw_client w)) (is_open c) approvals b current original_request scope_hash
      prior_decision pending_approval target_nonce nonce clock o (call ar) (call rr) (aw_objects w)
      = (r, aw_objects w') ∧
    aw_task w' = aw_task w ∧ operated rr c (aw_client w').
Proof.
  unfold aresume_checkpoint, resume_checkpoint, finally, finally_close, cleanup.
  unfold mbind, eff_bind, op_bind. unfold objects at 1.
  destruct (restore_checkpoint _ _ _ _ _ _ _ (aw_objects w)) as [[[[original prior] expected]|e] o1];
    [|intros [= <- <-]; exists (aw_client w); unfold operated; auto].
  destruct (aget_approval _ _ _ _ _) as [[a|e] w1] eqn:E; apply aget_approval_simulates in E as (E & Et & Ec);
    cbn [aw_client aw_task aw_objects] in *; rewrite E.
  - destruct (aresume _ _ _ _ _ _ _ _ w1) as [res w2] eqn:E2; apply aresume_simulates in E2 as (E2 & Et2 & Ec2).
    intros [= <- <-]. exists (aw_client w1). split; [done|]. rewrite E2. unfold objects.
    destruct (close original (aw_objects w2)). cbn. by rewrite Et2.
  - intros [= <- <-]. exists (aw_client w1). split; [done|]. unfold objects.
    destruct (close original (aw_objects w1)). cbn. unfold operated. auto.
Qed.

(** *** Polling *)

(** The rounds that the synchronous client would observe. *)
Fixpoint rounds (polls : list apoll) (c : aclient) : list poll :=
  match polls with
  | [] => []
  | p :: polls =>
      Poll (ap_cancelled p) (ap_now p) (is_open c) (answer (ap_reply p)) (ap_after p)
      :: rounds polls (ap_meanwhile p (bracket (meanwhile (ap_reply p)) c))
  end.

(** The same outcome, but for the class with which a client reports that [cancelled()]
    was true. *)
Definition same_outcome {A} (r r' : py A) : Prop :=
  r = r' ∨ (r = Raise AsyncCancelledError ∧ r' = Raise CancelledError).

(** The world after an operation that awaited [a] and did nothing else, and after one
    that may have ended before. *)
Definition awaited (a : reply) (w : aworld) : aworld :=
  AWorld (bracket (meanwhile a) (aw_client w)) (aw_task w) (elsewhere a (aw_objects w)).
Definition attempted (a : reply) (w w' : aworld) : Prop :=
  w' = w ∨ w' = AWorld (bracket id (aw_client w)) (aw_task w) (aw_objects w) ∨ w' = awaited a w.

(** The world after a round that ended with its sleep, and after rounds of which the
    last may have ended before. *)
Definition slept (w : aworld) (p : apoll) : aworld :=
  let w := awaited (ap_reply p) w in
  AWorld (ap_meanwhile p (aw_client w)) (aw_task w) (ap_elsewhere p (aw_objects w)).
Definition polled (polls : list apoll) (w w' : aworld) : Prop :=
  w' = w ∨ ∃ before p rest, polls = before ++ p :: rest ∧
    let w1 := foldl slept w before in w' = slept w1 p ∨ attempted (ap_reply p) w1 w'.

Lemma in_operation_world {A} (a : reply) request (before : py ()) (k : attr → py A) (body : eff aworld A) w r w' :
  (∀ w, body w = match before with
                 | Raise e => (Raise e, w)
                 | Ok _ => (answer a ≫= k, (await_reply a w).2)
                 end) →
  in_operation request body w = (r, w') →
  r = (begin_operation (is_open (aw_client w)) request;; before;; answer a ≫= k) ∧ attempted a w w' ∧
  (∀ x, r = Ok x → w' = awaited a w).
Proof.
  intros Hbody. destruct w as [c [i ts wt] o]. rewrite begin_open.
  unfold in_operation, enter, finally, attempted, awaited, bracket. unfold mbind at 1, eff_bind.
  cbn [aw_client aw_task aw_objects]. rewrite abegin_open.
  destruct (is_open c) eqn:Eo; [rewrite Hbody|intros [= <- <-]; cbn; split_and!; [done|by left|done]].
  by destruct before as [[]|e]; intros [= <- <-]; cbn; split_and!; auto.
Qed.

Lemma aget_approval_world approvals approval_id expected a w r w' :
  aget_approval approvals approval_id expected a w = (r, w') →
  r = get_approval (is_open (aw_client w)) approvals approval_id expected (answer a) ∧ attempted a w w' ∧
  (∀ x, r = Ok x → w' = awaited a w).
Proof.
  unfold aget_approval, get_approval. unfold mbind at 1, eff_bind at 1, Effects.run at 1.
  destruct (except_raise _ _ _) as [v|e]; [|intros [= <- <-]; split_and!; [done|by left|done]].
  intros E. apply (in_operation_world a None (raise_if (negb approvals) (bare_error CAuthorizationUnavailable))
    (λ value, record ← approval_from_protocol value;
              raise_if (negb (str_eqb (apr_approval_id record) approval_id)) (bare_error CInvalidDecision);;
              validate_transition expected record;;
              Ok record)) in E; [exact E|].
  intros w2. by_results.
Qed.

Lemma run_bind {A B} (m : py A) (k : A → eff aworld B) w :
  (Effects.run m ≫= k) w = match m with Ok x => k x w | Raise e => (Raise e, w) end.
Proof. done. Qed.

Lemma await_round_world approvals approval_id deadline observed p w polls :
  let '(r, w') := await_round approvals approval_id deadline observed p w in
  let looped := wait_loop approvals approval_id deadline observed (rounds (p :: polls) (aw_client w)) in
  match r with
  | Raise e => attempted (ap_reply p) w w' ∧ (∃ r', looped = Some r' ∧ same_outcome (Raise e) r') ∨
               w' = slept w p ∧ ap_sleep p = Raise e
  | Ok (inl record) => attempted (ap_reply p) w w' ∧ looped = Some (Ok record)
  | Ok (inr record) =>
      w' = slept w p ∧ looped = wait_loop approvals approval_id deadline record (rounds polls (aw_client w'))
  end.
Proof.
  cbn [rounds wait_loop p_cancelled p_now p_opened p_answer p_after]. unfold await_round, same_outcome.
  assert (attempted (ap_reply p) w w) as Hw by by left.
  rewrite run_bind. destruct (ap_cancelled p) as [[]|e]; [cbn; left; split; [done|]; eexists; split; [done|by right]| |cbn; eauto 8].
  rewrite run_bind. cbn [raise_if]. rewrite run_bind.
  destruct (fle deadline (ap_now p)); cbn [raise_if]; [eauto 8|]. unfold mbind at 1, eff_bind at 1.
  destruct (aget_approval _ _ _ _ w) as [r w1] eqn:E. apply aget_approval_world in E as (Er & Ha & Hok).
  rewrite <-Er. destruct r as [record|e]; [|eauto 8]. destruct (negb _); [cbn; eauto|]. rewrite run_bind.
  destruct (fle (fsub deadline (ap_after p)) fzero); cbn [raise_if]; [eauto 8|].
  unfold mbind, eff_bind, await_sleep. rewrite (Hok record eq_refl). by destruct (ap_sleep p) as [[]|e]; cbn; auto.
Qed.

Lemma polled_cons p polls w w' : polled polls (slept w p) w' → polled (p :: polls) w w'.
Proof.
  intros [->|(before & q & rest & -> & Hq)]; right; [by exists [], p, polls; split; [|left]|].
  by exists (p :: before), q, rest.
Qed.

Lemma await_rounds_world approvals approval_id deadline polls observed w :
  let looped := wait_loop approvals approval_id deadline observed (rounds polls (aw_client w)) in
  match await_rounds approvals approval_id deadline observed polls w with
  | Some (r, w') => polled polls w w' ∧
      ((∃ r', looped = Some r' ∧ same_outcome r r') ∨ ∃ p e, p ∈ polls ∧ ap_sleep p = Raise e ∧ r = Raise e)
  | None => looped = None
  end.
Proof.
  revert observed w. induction polls as [|p polls IH]; intros observed w; [done|]. cbn [await_rounds].
  pose proof (await_round_world approvals approval_id deadline observed p w polls) as H2.
  assert (∀ w', attempted (ap_reply p) w w' → polled (p :: polls) w w') as Hp.
  { intros w' Ha. right. exists [], p, polls. split; [done|by right]. }
  destruct (await_round _ _ _ _ _ _) as [[[record|record]|e] w1].
  - destruct H2 as [Ha ->]. split; [by apply Hp|left]. eexists. split; [done|by left].
  - destruct H2 as [-> ->]. specialize (IH record (slept w p)). destruct (await_rounds _ _ _ _ _ _) as [[r w']|]; [|done].
    destruct IH as [Hq [?|(q & e & Hin & ? & ?)]]; (split; [by apply polled_cons|]); [by left|].
    right. exists q, e. split; [by apply elem_of_cons; right|done].
  - destruct H2 as [[Ha ?]|[-> Hs]]; [split; [by apply Hp|by left]|]. split.
    + right. exists [], p, polls. split; [done|by left].
    + right. exists p, e. split; [by apply elem_of_cons; left|done].
Qed.

(** C25: The asynchronous client does what the synchronous one does.  Whatever the transports
    answer or raise (cancellation included) and however other tasks change the client
    and the objects of the builder meanwhile, each operation returns or raises exactly
    what the operation of [AuthorizationClient] does with transports that answer the
    same and during which the objects change in the same way, and leaves the same
    objects; it restores the task's [_ACTIVE_CLIENTS] and ends what it began.  Polling
    returns or raises what the synchronous loop does with the same observations, but
    for the class of the exception when [cancelled()] is true and unless a sleep
    raises, which it passes on; it leaves the client and the objects as the other tasks
    do in its rounds. *)
Theorem async_client_agrees approvals attempt d approval_id expected b original current prior a clock o r :
  simulates r (adecide attempt r) (λ opened, decide_through opened attempt) ∧
  simulates r (aauthorize attempt r) (λ opened, authorize_through opened attempt) ∧
  simulates r (arequest_approval approvals attempt d r)
    (λ opened, request_approval_through opened approvals attempt d) ∧
  simulates r (aget_approval approvals approval_id expected r)
    (λ opened, get_approval_through opened approvals approval_id expected) ∧
  simulates r (aresume b original current prior a clock o r)
    (λ opened, resume_through opened b original current prior a clock o) ∧
  (∀ request scope_hash prior_decision pending_approval target_nonce nonce ar w res w',
     aresume_checkpoint approvals b current request scope_hash prior_decision pending_approval
       target_nonce nonce clock o ar r w = (res, w') →
     ∃ c, operated ar (aw_client w) c ∧
       resume_checkpoint (is_open (aw_client w)) (is_open c) approvals b current request scope_hash
         prior_decision pending_approval target_nonce nonce clock o (call ar) (call r) (aw_objects w)
         = (res, aw_objects w') ∧
       aw_task w' = aw_task w ∧ operated r c (aw_client w')) ∧
  (∀ deadline interval polls w,
     let waited := wait_for_approval approvals a deadline interval (rounds polls (aw_client w)) in
     match await_approval approvals a deadline interval polls w with
     | Some (res, w') => polled polls w w' ∧
         ((∃ res', waited = Some res' ∧ same_outcome res res') ∨
          ∃ p e, p ∈ polls ∧ ap_sleep p = Raise e ∧ res = Raise e)
     | None => waited = None
     end).
Proof.
  split; [apply adecide_simulates|]. split; [apply aauthorize_simulates|].
  split; [apply arequest_approval_simulates|]. split; [apply aget_approval_simulates|].
  split; [apply aresume_simulates|]. split; [intros *; apply aresume_checkpoint_simulates|].
  intros deadline interval polls w. unfold await_approval, wait_for_approval.
  destruct (poll_parameters deadline interval) as [[dl i]|e]; [apply await_rounds_world|].
  split; [by left|left]. eexists. split; [done|by left].
Qed.

End client.

(** ** An example

    An action is resumed, and while the transport is awaited another task begins to
    close the client. *)
#[local] Existing Instance plain_unicode.
#[local] Existing Instance plain_url.

Definition closing_reply : reply := Reply fresh_answer (λ c, (aclose (Some 1%nat) false c).1) id.
Definition resume_clock : py pyval := Ok (PStr (u "2026-01-01T00:11:00Z")).
Definition async_world : aworld := AWorld new_aclient (Task false [] false) two_actions.
Definition async_resumed :=
  aresume example_builder 1 3 prior_decision approved_record resume_clock resume_draws closing_reply async_world.

Lemma async_resumes :
  async_resumed.1 = Ok 4%nat ∧ aw_client async_resumed.2 = AClient CLOSING 0 false (Some Created).
Proof. vm_compute. done. Qed.

Lemma async_client_agrees_witness :
  (async_resumed.1 = Ok 4%nat ∧ aw_client async_resumed.2 = AClient CLOSING 0 false (Some Created)) ∧
  resume_action (is_open (aw_client async_world)) example_builder 1 3 prior_decision approved_record resume_clock
    resume_draws (answer closing_reply) (aw_objects async_world) = (async_resumed.1, aw_objects async_resumed.2) ∧
  aw_task async_resumed.2 = aw_task async_world.
Proof.
  destruct (async_client_agrees true 1 prior_decision (identifier "apr_") approved_record example_builder 1 3
    prior_decision approved_record resume_clock resume_draws closing_reply) as (_ & _ & _ & _ & H & _).
  destruct (H async_world async_resumed.1 async_resumed.2 (surjective_pairing _)) as (E & Et & _).
  split; [exact async_resumes|]. split; [exact E|exact Et].
Defined.
