(* ===== verification/TransportExamples.v ===== *)
(** * A call of the transport, step by step

    A request is sent to a server that cannot be reached at first and then answers
    with a decision.  The run instantiates the theorems on the transports. *)

From stdpp Require Import base list list_numbers numbers strings.
From S2P Require Import Prelude PyString Errors Timestamp PyValue Schemas Decimal Unicode.
From S2P Require Import Structure Wire WireProtocol WireExamples Interfaces CanonicalJson CanonicalFacts JsonScan WireText WireTextFacts.
From S2P Require Import Approvals Models PyFloat PyUrl CanonicalPath Shell Resources CanonicalUrl Scope Envelope.
From S2P Require Import Calm Retry Credentials HttpMessages Transport TransportFacts Client.
Open Scope Z_scope.

#[local] Existing Instance plain_unicode.
#[local] Existing Instance plain_url.
#[local] Existing Instance exact_float_pow.
#[local] Existing Instance no_email_dates.

Definition value_of {A} (d : A) (m : py A) : A := match m with Ok a => a | Raise _ => d end.

(** ** The request *)
Definition action_document : pyval :=
  PDict [entry "schemaVersion" "1"; entry "actionId" (identifier "act_"); entry "requestId" (identifier "req_");
         entry "correlationId" (identifier "corr_"); entry "idempotencyKey" (identifier "authz_");
         (u "adapter", PDict [entry "id" "example"; entry "version" "1.0.0"; entry "hostVersion" "3.12.0"]);
         (u "task", PDict [entry "taskId" (identifier "task_"); entry "sessionId" (identifier "session_")]);
         entry "action" "tool:invoke"; (u "target", sample_target); entry "sideEffect" "write";
         entry "occurredAt" "2026-01-01T00:00:00Z"; (u "context", PDict [])].
Definition example_request : attr := value_of (ARaw PNone) (parse_action action_document).
Definition example_hash : pystr := Eval vm_compute in value_of [] (client_scope_hash action_document).

(** ** The server *)
Definition decision_document (expires : string) : pyval :=
  PDict [entry "schemaVersion" "1"; entry "requestId" (identifier "req_"); entry "decisionId" (identifier "dec_");
         entry "correlationId" (identifier "corr_"); entry "outcome" "allow"; entry "reasonCode" "allowed";
         entry "displayReason" "Allowed."; (u "clientScopeHash", PStr example_hash);
         entry "authoritativeScopeHash" digest; entry "policyRevision" "policy_1";
         entry "serverTime" "2026-01-01T00:00:01Z"; entry "expiresAt" expires;
         entry "auditRef" (identifier "audit_"); (u "cache", PDict [(u "cacheable", PBool false)])].
Definition decision_body (expires : string) : pybytes := value_of [] (encode_json_value (decision_document expires)).

Definition json_headers (name : string) : list pystr :=
  if bool_decide (name = "content-type"%string) then [u "application/json"] else [].
Definition decision_response (expires : string) : response :=
  Response 200 json_headers [decision_body expires] None.

Definition example_config : config :=
  Config (u "https://decisions.example/v1/authorization/decisions") 65536
    (Timeouts (of_int 3) (of_int 5) (of_int 5) (of_int 3)).
Definition example_policy : retry_policy :=
  RetryPolicy 3 (of_int 30) (of_int 1) (of_int 2) (of_int 2) fzero (of_int 5).

(** One round, in which the server gives [x]. *)
Definition example_round (x : exchange) : round :=
  Round false (Ok false) (of_int 100) (of_int 100) false [Wait (Ok false) (of_int 100) (Ended x)]
    (Ok false) (of_int 100) (of_int 101) (Ok false) epoch (Ok (NFloat fzero)) (replicate 60 (Ok false)).
Definition example_rounds : list round :=
  [example_round (Raise (RequestError ConnectError)); example_round (Ok (decision_response "2026-01-01T01:00:00Z"));
   example_round (Raise DecodingError)].
Definition example_opening : opening := Opening false (Ok false) (of_int 100).

Definition example_credential : credential := Credential (u "secret") 1000 false.
Definition example_acquisition : acquisition :=
  Acquisition (Signals None (Ok (of_int 100))) (Ok (PCredential example_credential)) (Signals None (Ok (of_int 100))) (Ok 10).

Definition example_run : list sent * option (py attr) :=
  decide_sync example_config example_policy example_request (Some example_hash) None example_opening
    example_acquisition (Ok 10) example_rounds.

(** The run ends with a decision after two requests, the sleeping included. *)
Definition ended_with_decision (run : list sent * option (py attr)) (n : nat) : bool :=
  match run with (sends, Some (Ok _)) => (length sends =? n)%nat | _ => false end.
Lemma example_run_ends : ended_with_decision example_run 2 = true.
Proof. vm_compute. reflexivity. Qed.
Lemma example_run_inv : ∃ sends d, example_run = (sends, Some (Ok d)) ∧ length sends = 2%nat.
Proof.
  pose proof example_run_ends as H. destruct example_run as [sends [[d|e]|]]; [|discriminate H..].
  exists sends, d. split; [reflexivity|]. by apply Nat.eqb_eq.
Qed.

Lemma example_run_eq :
  decide_with sync_flavour example_config example_policy example_request (Some example_hash) None example_opening
    (λ a d, (sync_authorization_header a d example_acquisition (Ok 10)).1) example_rounds = example_run.
Proof. unfold example_run, decide_sync. reflexivity. Qed.
Lemma example_sync_eq :
  decide_sync example_config example_policy example_request (Some example_hash) None example_opening
    example_acquisition (Ok 10) example_rounds = example_run.
Proof. unfold example_run. reflexivity. Qed.

Lemma example_policy_valid : policy_valid example_policy = true.
Proof. vm_compute. reflexivity. Qed.
Lemma example_timeouts_finite : timeouts_finite (cfg_timeouts example_config).
Proof. vm_compute. done. Qed.

Opaque example_run example_request decide_with.

Lemma transport_contract_witness : ∃ sends d a, example_run = (sends, Some (Ok d)) ∧ length sends = 2%nat ∧ answers a d.
Proof.
  destruct example_run_inv as (sends & d & E & Hl). exists sends, d.
  destruct (transport_contract sync_flavour example_config example_policy _ _ _ _ _ _ _ _
    example_policy_valid example_timeouts_finite (eq_trans example_run_eq E)) as [_ [[_ H]|(a & d' & h & _ & _ & _ & _ & H)]].
  - destruct (H d eq_refl).
  - exists a. split; [exact E|]. split; [exact Hl|]. apply H. reflexivity.
Defined.

(** The exchanges and the pauses of the asynchronous transport end. *)
Lemma example_rounds_end : Forall (round_ends async_flavour example_config example_policy) example_rounds.
Proof. repeat constructor; cbn; intros; discriminate. Qed.

Lemma transport_ends_witness : ∃ r,
  (decide_with async_flavour example_config example_policy example_request (Some example_hash) None example_opening
     (λ _ _, Ok (u "Bearer secret")) example_rounds).2 = Some r.
Proof.
  exact (proj2 (transport_ends async_flavour example_config example_policy example_request (Some example_hash) None
    example_opening (λ _ _, Ok (u "Bearer secret")) example_rounds example_policy_valid ltac:(vm_compute; done)
    example_rounds_end)).
Defined.

Lemma example_rounds_quiet : Forall quiet_round example_rounds.
Proof. repeat constructor; cbn; try discriminate; try lia. Qed.

Lemma transports_agree_witness : ∃ sends result,
  decide_async example_config example_policy example_request (Some example_hash) None example_opening
    (awaiting example_acquisition) (answer example_acquisition) Undisturbed (Ok 10) example_rounds = (sends, Some result) ∧
  length sends = 2%nat.
Proof.
  destruct example_run_inv as (sends & d & E & Hl). exists sends, (Ok d). split; [|exact Hl].
  apply (transports_agree example_config example_policy example_request (Some example_hash) example_opening
    example_acquisition (Ok 10) example_rounds);
    [reflexivity|left; reflexivity|left; reflexivity|discriminate|exact example_rounds_quiet|exact (eq_trans example_sync_eq E)].
Defined.

(** ** Errors *)

(** A response that is not a decision. *)
Definition broken_rounds : list round := [example_round (Ok (Response 200 json_headers [u "{}"] None))].
Definition broken_run : option (py attr) :=
  (decide_with async_flavour example_config example_policy example_request (Some example_hash) None example_opening
     (λ _ _, Ok (u "Bearer secret")) broken_rounds).2.
Definition raised (o : option (py attr)) : option exn := match o with Some (Raise e) => Some e | _ => None end.
Definition raised_is (o : option (py attr)) (e : exn) : bool := bool_decide (raised o = Some e).
Lemma broken_run_raises : raised_is broken_run (invalid_decision example_request) = true.
Proof. vm_compute. reflexivity. Qed.

Lemma broken_rounds_calm : Forall (calm_round async_flavour example_config) broken_rounds.
Proof.
  repeat constructor; cbn; intros; discriminate.
Qed.

Lemma transport_fails_closed_witness : safe_error async_flavour (invalid_decision example_request).
Proof.
  apply (transport_fails_closed async_flavour example_config example_policy) with
    (request := example_request) (hash := Some example_hash) (deadline := None) (o := example_opening)
    (authorize := λ _ _, Ok (u "Bearer secret")) (rounds := broken_rounds).
  - intros s e. cbn. intros [= <-]. reflexivity.
  - intros e. cbn. discriminate.
  - discriminate.
  - intros a d x. discriminate.
  - exact broken_rounds_calm.
  - pose proof broken_run_raises as H. apply bool_decide_eq_true in H. fold broken_run.
    destruct broken_run as [[d|e]|]; cbn in H; congruence.
Defined.

(** ** Credentials *)
Lemma credentials_are_erased_witness : ∃ c,
  (sync_authorization_header (Attempt example_request [] [] [] [] [] [] []) None example_acquisition (Ok 10)).2 = Some c ∧
  erased c.
Proof.
  assert (calm example_acquisition) as Hc by (repeat split; intros ?; discriminate).
  assert (provided_wf (answer example_acquisition)) as Hw.
  { intros c [= <-]. right. split; [reflexivity|]. split; [discriminate|]. split; [vm_compute; discriminate|].
    change (token _) with [115; 101; 99; 114; 101; 116]. repeat (apply Forall_cons_2; [lia|]). apply Forall_nil_2. }
  destruct (credentials_are_erased (Attempt example_request [] [] [] [] [] [] []) None example_acquisition
    (answer example_acquisition) Undisturbed (Ok 10) Hc Hw Hw eq_refl) as [[H _] _].
  exact (H example_credential eq_refl).
Defined.

(** ** Leap seconds *)
Definition example_attempt : attempt :=
  value_of (Attempt example_request [] [] [] [] [] [] []) (prepare_attempt example_request (Some example_hash)).
(** Whether the transport returns the decision that expires then, and whether the
    client accepts it. *)
Definition passes (expires : string) : bool * bool :=
  let m := parse_decision_body (decision_body expires) example_attempt in
  (is_Ok m, is_Ok (d ← m; public_decision d example_request example_hash)).

(** Leap seconds pass the transport.  [_parse_rfc3339] of the transport accepts the
    second 60 of a timestamp, contrary to its comment on [strptime], while the client
    refuses it: a decision that expires in a leap second is returned by the transport
    and then rejected as invalid by the client.  One second earlier both accept it. *)
Theorem leap_seconds_pass_the_transport :
  passes "2026-12-31T23:59:60Z" = (true, false) ∧ passes "2026-12-31T23:59:59Z" = (true, true) ∧
  transport_timestamp (u "2026-12-31T23:59:61Z") = Ok (1798761601, []).
Proof. vm_compute. done. Qed.
