(* ===== verification/Validation.v ===== *)
(** * Reference validation of protocol documents

    Models [protocol/reference/validate.py]: timestamps of documents, the bound
    on extension numbers, the cross-field invariants of action, decision,
    approval and error documents, the approval state machine and the check of a
    resumed action. *)

From stdpp Require Import base list list_numbers numbers strings.
From Stdlib Require Import QArith_base SpecFloat.
From S2P Require Import Prelude PyString Errors Timestamp PyValue Interfaces.
Open Scope Z_scope.

(** [any(p(x) for x in xs)] and [all(p(x) for x in xs)] where [p] may raise. *)
Fixpoint anyM {A} (p : A → py bool) (xs : list A) : py bool :=
  match xs with [] => Ok false | x :: xs' => p x <||> anyM p xs' end.
Fixpoint allM {A} (p : A → py bool) (xs : list A) : py bool :=
  match xs with [] => Ok true | x :: xs' => p x <&&> allM p xs' end.

(** [_parse_rfc3339]. *)
Definition parse_rfc3339 (value : pyval) : py timestamp :=
  match value with
  | PStr s => match rfc3339_value s with
              | Some t => Ok t
              | None => Raise (ProtocolValidationError "timestamp_invalid")
              end
  | _ => Raise (ProtocolValidationError "timestamp_invalid")
  end.

(** [a[k] != b[k]]. *)
Definition field_differs (a b : pyval) (k : string) : py bool :=
  x ← getitem a k; y ← getitem b k; Ok (negb (py_eqb x y)).
(** [a.get(k) != b.get(k)]. *)
Definition get_differs (a b : pyval) (k : string) : bool :=
  negb (py_eqb (opt_val (get a k)) (opt_val (get b k))).

(** ** [_validate_extension_numbers]

    Two work lists, last in first out: the containers still to be searched for
    an ["extensions"] key, then the values found under such keys. *)
Fixpoint value_size (v : pyval) : nat :=
  match v with
  | PList l => S (list_sum (value_size <$> l))
  | PDict d => S ((fix go (d : list (pystr * pyval)) : nat :=
                     match d with [] => O | (_, x) :: d' => (value_size x + go d')%nat end) d)
  | _ => 1
  end.

Definition is_container (v : pyval) : bool :=
  match v with PDict _ | PList _ => true | _ => false end.

Definition push_items (d : list (pystr * pyval)) (containers extension_values : list pyval)
    : list pyval * list pyval :=
  foldl (λ '(cs, es) '(key, child),
           if decide (key = u "extensions") then (cs, child :: es)
           else if is_container child then (child :: cs, es) else (cs, es))
        (containers, extension_values) d.

Fixpoint collect_extensions (fuel : nat) (containers extension_values : list pyval)
    : option (list pyval) :=
  match fuel with
  | O => None
  | S fuel =>
      match containers with
      | [] => Some extension_values
      | PDict d :: rest =>
          let '(cs, es) := push_items d rest extension_values in
          collect_extensions fuel cs es
      | PList l :: rest => collect_extensions fuel (rev l ++ rest) extension_values
      | _ :: rest => collect_extensions fuel rest extension_values
      end
  end.

(** [1e308] as a binary64 number. *)
Definition EXTENSION_NUMBER_LIMIT : Q := inject_Z (5010420900022432 * 2 ^ 971).

Definition extension_number_invalid (v : pyval) : bool :=
  match v with
  | PInt _ | PFloat _ =>
      match num_of v with
      | Some (XFin q) =>
          negb (Qle_bool (- EXTENSION_NUMBER_LIMIT) q && Qle_bool q EXTENSION_NUMBER_LIMIT)
      | _ => true
      end
  | _ => false
  end.

Fixpoint check_extensions (fuel : nat) (extension_values : list pyval) : option bool :=
  match fuel with
  | O => None
  | S fuel =>
      match extension_values with
      | [] => Some true
      | PDict d :: rest => check_extensions fuel (rev d.*2 ++ rest)
      | PList l :: rest => check_extensions fuel (rev l ++ rest)
      | v :: rest => if extension_number_invalid v then Some false else check_extensions fuel rest
      end
  end.

Definition validate_extension_numbers (document : pyval) : py () :=
  let fuel := S (value_size document) in
  match collect_extensions fuel [document] [] with
  | Some es => match check_extensions fuel es with
               | Some true => Ok ()
               | _ => Raise (ProtocolValidationError "extension_number_invalid")
               end
  | None => Raise (ProtocolValidationError "extension_number_invalid")
  end.

Section validation.
Context `{Canonicalizer, SchemaValidator}.

(** [_validate_structure]. *)
Definition validate_structure (kind : doc_kind) (document : pyval) : py () :=
  match iter_errors kind document with
  | SchemaOk => Ok ()
  | SchemaErrors => Raise (ProtocolValidationError "schema_invalid")
  | SchemaRecursion => Raise (ProtocolValidationError "schema_nesting_exceeded")
  end.

Definition require_dict (document : pyval) : py () :=
  raise_if (negb (is_dict document)) (ProtocolValidationError "schema_invalid").

Definition field_timestamp (document : pyval) (k : string) : py timestamp :=
  x ← getitem document k; parse_rfc3339 x.

Definition validate_action_document (document : pyval) : py () :=
  require_dict document;;
  validate_structure KAction document;;
  field_timestamp document "occurredAt";;
  validate_extension_numbers document.

Definition validate_decision_document (document : pyval) : py () :=
  require_dict document;;
  validate_structure KDecision document;;
  server_time ← field_timestamp document "serverTime";
  expires_at ← field_timestamp document "expiresAt";
  (if has_key document "approval" then
     approval ← getitem document "approval";
     field_timestamp approval "expiresAt";; Ok ()
   else Ok ());;
  raise_if (timestamp_order expires_at server_time <=? 0)
    (ProtocolValidationError "decision_expiry_order");;
  validate_extension_numbers document.

(** [_validate_approval_structure_and_timestamps]. *)
Definition approval_structure_and_timestamps (document : pyval)
    : py (timestamp * timestamp * option timestamp) :=
  require_dict document;;
  validate_structure KApproval document;;
  requested_at ← field_timestamp document "requestedAt";
  expires_at ← field_timestamp document "expiresAt";
  status ← getitem document "status";
  decided_at ← (if negb (eq_lit status "pending")
                then Some <$> field_timestamp document "decidedAt" else Ok None);
  validate_extension_numbers document;;
  Ok (requested_at, expires_at, decided_at).

Definition validate_approval_document (document : pyval) : py () :=
  '(requested_at, expires_at, decided_at) ← approval_structure_and_timestamps document;
  raise_if (timestamp_order expires_at requested_at <=? 0)
    (ProtocolValidationError "approval_expiry_order");;
  status ← getitem document "status";
  match decided_at with
  | None => Ok ()
  | Some decided =>
      if eq_lit status "expired" then
        raise_if (timestamp_order decided expires_at <? 0)
          (ProtocolValidationError "approval_expiry_order")
      else
        raise_if ((timestamp_order decided requested_at <? 0)
                  || (0 <=? timestamp_order decided expires_at))
          (ProtocolValidationError "approval_expired")
  end.

(** [ERROR_SAFE_MESSAGES]; it agrees with the messages of the SDK classes. *)
Definition ERROR_SAFE_MESSAGES (code : pyval) : option string :=
  match code with
  | PStr s =>
      (λ c, canonical_message c) <$>
        head (filter (λ c, u (error_code c) = s)
          [CInvalidRequest; CMissingIdentity; CUnsupportedProtocol; CAuthenticationFailed;
           CAuthorizationUnavailable; CInvalidDecision; CIdempotencyConflict; CApprovalExpired;
           CApprovalScopeMismatch; CCredentialRevoked; CPolicyDenied])
  | _ => None
  end.

Definition validate_error_document (document : pyval) : py () :=
  require_dict document;;
  validate_structure KErrorDoc document;;
  safe_message ← getitem document "safeMessage";
  code ← getitem document "code";
  message ← (match ERROR_SAFE_MESSAGES code with Some m => Ok m | None => Raise KeyError end);
  raise_if (negb (eq_lit safe_message message)) (ProtocolValidationError "schema_invalid");;
  validate_extension_numbers document.

(** ** The approval state machine *)
Definition APPROVAL_IMMUTABLE_FIELDS : list string :=
  ["schemaVersion"; "approvalId"; "actionId"; "correlationId"; "authoritativeScopeHash";
   "requestedAt"; "expiresAt"; "requesterRef"; "authorizationDecisionId"; "creationAuditRef"].
Definition APPROVAL_TERMINAL_IDENTITY_FIELDS : list string :=
  ["status"; "resolutionDecisionId"; "resolutionReasonCode"; "resolutionIdempotencyKey"].
Definition APPROVAL_CREATION_IDENTITY_FIELDS : list string :=
  ["schemaVersion"; "authorizationDecisionId"; "actionId"; "correlationId";
   "authoritativeScopeHash"; "requesterRef"].

Definition approval_state_digest (document : pyval) : py pystr :=
  validate_approval_document document;;
  canonical_hash document.

Definition resolve_duplicate_approval_creation (existing proposed : pyval) : py pyval :=
  validate_approval_document existing;;
  validate_approval_document proposed;;
  es ← getitem existing "status";
  ps ← getitem proposed "status";
  raise_if (negb (eq_lit es "pending") || negb (eq_lit ps "pending"))
    (ProtocolValidationError "idempotency_conflict");;
  same_creation ←
    (allM (λ k, negb <$> field_differs existing proposed k) APPROVAL_CREATION_IDENTITY_FIELDS
     <&&> Ok (negb (get_differs existing proposed "extensions")));
  raise_if (negb same_creation) (ProtocolValidationError "idempotency_conflict");;
  Ok existing.

Inductive outcome := Applied | Idempotent.

Definition validate_approval_transition (current proposed : pyval)
    (expected_state_digest : pystr) (now : pystr) : py outcome :=
  validate_approval_document current;;
  approval_structure_and_timestamps proposed;;
  changed ← (anyM (field_differs current proposed) APPROVAL_IMMUTABLE_FIELDS
             <||> Ok (get_differs current proposed "extensions"));
  raise_if changed (ProtocolValidationError "idempotency_conflict");;
  digest ← approval_state_digest current;
  raise_if (negb (str_eqb expected_state_digest digest))
    (ProtocolValidationError "idempotency_conflict");;
  current_status ← getitem current "status";
  if negb (eq_lit current_status "pending") then
    let same_terminal_identity :=
      forallb (λ k, negb (get_differs current proposed k)) APPROVAL_TERMINAL_IDENTITY_FIELDS
      && negb (get_differs current proposed "reviewerRef") in
    if same_terminal_identity then Ok Idempotent
    else
      match validate_approval_document proposed with
      | Ok _ | Raise (ProtocolValidationError _) =>
          Raise (ProtocolValidationError "idempotency_conflict")
      | Raise e => Raise e
      end
  else
    validate_approval_document proposed;;
    if py_eqb current proposed then Ok Idempotent
    else
      status ← getitem proposed "status";
      raise_if (eq_lit status "pending") (ProtocolValidationError "idempotency_conflict");;
      trusted_now ← parse_rfc3339 (PStr now);
      decided_at ← field_timestamp proposed "decidedAt";
      expires_at ← field_timestamp proposed "expiresAt";
      raise_if (0 <? timestamp_order decided_at trusted_now)
        (ProtocolValidationError "invalid_decision");;
      (if eq_lit status "expired" then
         raise_if (timestamp_order trusted_now expires_at <? 0)
           (ProtocolValidationError "invalid_decision")
       else
         raise_if (0 <=? timestamp_order trusted_now expires_at)
           (ProtocolValidationError "approval_expired"));;
      Ok Applied.

End validation.
