(* ===== verification/ValidationFacts.v ===== *)
(** * Properties of document validation

    The two work lists of [_validate_extension_numbers] compute the recursive
    definition of a document whose extension numbers are in range, and the
    approval transitions that are accepted are those of the approval state
    machine. *)

From stdpp Require Import base list list_numbers numbers strings sets.
From Stdlib Require Import QArith_base SpecFloat.
From S2P Require Import Prelude PyString Errors Timestamp PyValue Interfaces Validation.
Open Scope Z_scope.

(** ** Extension numbers *)

(** Every number inside an extension value is finite and in range. *)
Fixpoint extension_ok (v : pyval) : bool :=
  match v with
  | PList l => forallb extension_ok l
  | PDict d => forallb (λ p, extension_ok p.2) d
  | v => negb (extension_number_invalid v)
  end.

(** Every extension of the document is: the outermost ["extensions"] members. *)
Fixpoint extensions_ok (v : pyval) : bool :=
  match v with
  | PList l => forallb extensions_ok l
  | PDict d => forallb (λ p, if decide (p.1 = u "extensions") then extension_ok p.2 else extensions_ok p.2) d
  | _ => true
  end.

Definition size_all (l : list pyval) : nat := list_sum (value_size <$> l).

Lemma size_all_app a b : size_all (a ++ b) = (size_all a + size_all b)%nat.
Proof. unfold size_all. by rewrite fmap_app, list_sum_app. Qed.

Lemma size_all_cons x a : size_all (x :: a) = (value_size x + size_all a)%nat.
Proof. done. Qed.

Lemma size_all_rev a : size_all (rev a) = size_all a.
Proof.
  induction a as [|x a IH]; [done|]. cbn [rev]. rewrite size_all_app, IH, !size_all_cons.
  unfold size_all at 2. cbn. lia.
Qed.

Lemma value_size_dict d : value_size (PDict d) = S (size_all d.*2).
Proof. cbn. f_equal. unfold size_all. induction d as [|[k x] d IH]; [done|]. cbn. by rewrite IH. Qed.

Lemma value_size_pos v : (1 <= value_size v)%nat.
Proof. destruct v; cbn; lia. Qed.

Lemma forallb_rev {A} (f : A → bool) l : forallb f (rev l) = forallb f l.
Proof. induction l as [|x l IH]; [done|]. cbn. rewrite forallb_app, IH. cbn. by rewrite andb_true_r, andb_comm. Qed.

Lemma forallb_map {A B} (f : B → bool) (g : A → B) l : forallb f (g <$> l) = forallb (λ x, f (g x)) l.
Proof. induction l as [|x l IH]; [done|]. cbn. by rewrite IH. Qed.

(** The second loop, with enough fuel. *)
Lemma check_extensions_spec fuel : ∀ es, (size_all es < fuel)%nat →
  check_extensions fuel es = Some (forallb extension_ok es).
Proof.
  induction fuel as [|fuel IH]; intros es Hf; [lia|]. destruct es as [|v es]; [done|].
  rewrite size_all_cons in Hf.
  pose proof (value_size_pos v). cbn [check_extensions forallb].
  destruct v as [| |b|z|f|c|s|l|d]; try (rewrite IH by lia; done).
  - cbn [extension_ok]. destruct (extension_number_invalid (PInt z)); [done|]. by rewrite IH by lia.
  - cbn [extension_ok]. destruct (extension_number_invalid (PFloat f)); [done|]. by rewrite IH by lia.
  - rewrite IH, forallb_app, forallb_rev; [done|]. rewrite size_all_app, size_all_rev.
    cbn [value_size] in Hf. fold (size_all l) in Hf. lia.
  - rewrite IH, forallb_app, forallb_rev, forallb_map; [done|]. rewrite size_all_app, size_all_rev.
    rewrite value_size_dict in Hf. lia.
Qed.

(** What remains to be checked, over both lists. *)
Definition pending_ok (cs es : list pyval) : bool := forallb extensions_ok cs && forallb extension_ok es.

Lemma push_items_spec d : ∀ cs es cs' es',
  push_items d cs es = (cs', es') →
  pending_ok cs' es' = pending_ok cs es
    && forallb (λ p, if decide (p.1 = u "extensions") then extension_ok p.2 else extensions_ok p.2) d ∧
  (size_all cs' + size_all es' <= size_all cs + size_all es + size_all d.*2)%nat ∧
  (size_all es <= size_all es')%nat.
Proof.
  unfold push_items, pending_ok. induction d as [|[k x] d IH]; intros cs es cs' es' E; cbn in E.
  - injection E as <- <-. rewrite andb_true_r. split_and!; [done|lia|lia].
  - cbn [fmap list_fmap forallb fst snd]. rewrite size_all_cons.
    destruct (decide (k = u "extensions")); [|destruct (is_container x) eqn:Ec];
      apply IH in E as (E & Hle & Hes); rewrite E; cbn [forallb]; try rewrite size_all_cons in Hle;
      try rewrite size_all_cons in Hes.
    + split_and!; [by destruct (extension_ok x), (forallb extensions_ok cs), (forallb extension_ok es)|lia|lia].
    + split_and!; [by destruct (extensions_ok x), (forallb extensions_ok cs), (forallb extension_ok es)|lia|lia].
    + split_and!; [|lia|lia]. by destruct x; try done; rewrite ?andb_true_r.
Qed.

(** The first loop finds the extensions of the outermost members. *)
Lemma collect_extensions_spec fuel : ∀ cs es, (size_all cs < fuel)%nat →
  ∃ es', collect_extensions fuel cs es = Some es' ∧ forallb extension_ok es' = pending_ok cs es ∧
    (size_all es' <= size_all cs + size_all es)%nat.
Proof.
  induction fuel as [|fuel IH]; intros cs es Hf; [lia|].
  destruct cs as [|v cs]; [exists es; by split_and!|]. rewrite size_all_cons in Hf.
  assert (∀ cs' es1, (size_all cs' < fuel)%nat →
    (size_all cs' + size_all es1 <= size_all (v :: cs) + size_all es)%nat →
    pending_ok cs' es1 = pending_ok (v :: cs) es →
    ∃ es', collect_extensions fuel cs' es1 = Some es' ∧ forallb extension_ok es' = pending_ok (v :: cs) es ∧
      (size_all es' <= size_all (v :: cs) + size_all es)%nat) as Hstep.
  { intros cs' es1 Hcs Hle Hok. destruct (IH cs' es1 Hcs) as (es' & ? & ? & ?). exists es'.
    split_and!; [done|congruence|lia]. }
  pose proof (value_size_pos v). unfold pending_ok in *. cbn [collect_extensions forallb].
  destruct v as [| |b|z|f|c|s|l|d]; try (apply Hstep; [lia|rewrite size_all_cons; lia|done]).
  - cbn [value_size] in Hf. fold (size_all l) in Hf.
    apply Hstep; rewrite ?size_all_cons, ?size_all_app, ?size_all_rev; cbn [value_size]; fold (size_all l);
      [lia|lia|]. rewrite forallb_app, forallb_rev. done.
  - destruct (push_items d cs es) as [cs' es'] eqn:E. apply push_items_spec in E as (E & Hle & Hes).
    rewrite value_size_dict in Hf. apply Hstep; [lia|rewrite size_all_cons, value_size_dict; lia|].
    unfold pending_ok in E. rewrite E. cbn [extensions_ok forallb].
    by rewrite andb_comm, andb_assoc.
Qed.

(** The two work lists compute the recursive definition.  A document passes
    [_validate_extension_numbers] exactly when every number inside its outermost
    ["extensions"] members is finite and within [1e308]; the loops end. *)
Theorem extension_numbers_exact document :
  validate_extension_numbers document
  = if extensions_ok document then Ok () else Raise (ProtocolValidationError "extension_number_invalid").
Proof.
  unfold validate_extension_numbers.
  assert (size_all [document] = value_size document) as Hsize by (unfold size_all; cbn; lia).
  destruct (collect_extensions_spec (S (value_size document)) [document] []) as (es & -> & Hok & Hle); [lia|].
  rewrite check_extensions_spec by (cbn in Hle; lia). rewrite Hok. unfold pending_ok. cbn.
  rewrite !andb_true_r. by destruct (extensions_ok document).
Qed.

Example extension_numbers_example :
  validate_extension_numbers (PDict [(u "n", PFloat S754_nan); (u "x", PList [PDict [(u "extensions",
    PDict [(u "a", PInt (10 ^ 309))])]])]) = Raise (ProtocolValidationError "extension_number_invalid").
Proof. reflexivity. Qed.

(** ** The approval state machine *)
Definition same_field (a b : pyval) (k : string) : Prop :=
  ∃ x y, get a k = Some x ∧ get b k = Some y ∧ py_eqb x y = true.

Lemma anyM_false {A} (p : A → py bool) xs : anyM p xs = Ok false → Forall (λ x, p x = Ok false) xs.
Proof. induction xs as [|x xs IH]; cbn; [done|]. intros Hx. inv_ok. constructor; auto. Qed.

Lemma field_differs_false_iff a b k : field_differs a b k = Ok false ↔ same_field a b k.
Proof.
  unfold field_differs, same_field. split.
  - intros Hd. inv_ok. rewrite !getitem_Ok in *. eauto.
  - intros (x & y & Hx & Hy & E). rewrite <-getitem_Ok in Hx, Hy. rewrite Hx, Hy. cbn. by rewrite E.
Qed.

Section approvals.
Context `{Canonicalizer, SchemaValidator}.

(** The times of an approval record; a pending one has not been decided. *)
Lemma approval_structure_inv doc r e d :
  approval_structure_and_timestamps doc = Ok (r, e, d) →
  field_timestamp doc "requestedAt" = Ok r ∧ field_timestamp doc "expiresAt" = Ok e ∧
  ∃ s, get doc "status" = Some s ∧
    (if eq_lit s "pending" then d = None else ∃ t, field_timestamp doc "decidedAt" = Ok t ∧ d = Some t).
Proof.
  unfold approval_structure_and_timestamps. intros Hd. inv_ok.
  match goal with E : getitem doc "status" = Ok ?s |- _ => apply getitem_Ok in E; rename s into s end.
  split_and!; [done|done|]. eexists. split; [eassumption|].
  destruct (eq_lit _ "pending"); cbn [negb] in *; inv_ok; [done|eauto].
Qed.

Lemma validate_approval_inv doc : validate_approval_document doc = Ok () →
  ∃ r e d s, approval_structure_and_timestamps doc = Ok (r, e, d) ∧ get doc "status" = Some s ∧
    0 < timestamp_order e r ∧
    match d with
    | None => True
    | Some t => if eq_lit s "expired" then 0 ≤ timestamp_order t e
                else 0 ≤ timestamp_order t r ∧ timestamp_order t e < 0
    end.
Proof.
  unfold validate_approval_document. intros Hd. apply bind_Ok_iff in Hd as ([[r e] d] & Hs & Hd). inv_ok.
  match goal with E : getitem doc "status" = Ok ?s |- _ => apply getitem_Ok in E; exists r, e, d, s end.
  refl_bool. split_and!; [done|done|lia|]. destruct d as [t|]; [|done].
  destruct (eq_lit _ "expired"); inv_ok; refl_bool; [done|]. lia.
Qed.

(** The step of the machine: a pending approval is decided in time, by a decision that
    is not in the future, or it expires. *)
Definition approval_decided (current proposed : pyval) (now : pystr) : Prop :=
  ∃ s t r e d, get current "status" = Some (PStr (u "pending")) ∧
    get proposed "status" = Some s ∧ s ≠ PStr (u "pending") ∧ rfc3339_value now = Some t ∧
    approval_structure_and_timestamps proposed = Ok (r, e, Some d) ∧
    timestamp_order d t ≤ 0 ∧ 0 < timestamp_order e r ∧
    if eq_lit s "expired" then 0 ≤ timestamp_order d e ∧ 0 ≤ timestamp_order t e
    else 0 ≤ timestamp_order d r ∧ timestamp_order d e < 0 ∧ timestamp_order t e < 0.

Lemma terminal_status current proposed s r e d :
  get current "status" = Some s → approval_structure_and_timestamps proposed = Ok (r, e, d) →
  forallb (λ k, negb (get_differs current proposed k)) APPROVAL_TERMINAL_IDENTITY_FIELDS = true →
  same_field current proposed "status".
Proof.
  intros Hs (_ & _ & s' & Hs' & _)%approval_structure_inv Hall. cbn [forallb APPROVAL_TERMINAL_IDENTITY_FIELDS] in Hall.
  apply andb_true_iff in Hall as [Hd _]. unfold get_differs in Hd. rewrite Hs, Hs' in Hd.
  rewrite negb_involutive in Hd. by exists s, s'.
Qed.

(** The branch of a pending approval. *)
Lemma pending_transition current proposed now r e d o :
  get current "status" = Some (PStr (u "pending")) →
  approval_structure_and_timestamps proposed = Ok (r, e, d) →
  (validate_approval_document proposed;;
   if py_eqb current proposed then Ok Idempotent
   else
     status ← getitem proposed "status";
     raise_if (eq_lit status "pending") (ProtocolValidationError "idempotency_conflict");;
     trusted_now ← parse_rfc3339 (PStr now);
     decided_at ← field_timestamp proposed "decidedAt";
     expires_at ← field_timestamp proposed "expiresAt";
     raise_if (0 <? timestamp_order decided_at trusted_now) (ProtocolValidationError "invalid_decision");;
     (if eq_lit status "expired" then
        raise_if (timestamp_order trusted_now expires_at <? 0) (ProtocolValidationError "invalid_decision")
      else
        raise_if (0 <=? timestamp_order trusted_now expires_at) (ProtocolValidationError "approval_expired"));;
     Ok Applied) = Ok o →
  match o with
  | Applied => approval_decided current proposed now
  | Idempotent => same_field current proposed "status"
  end.
Proof.
  intros Hcur Hprop Ht. inv_ok. destruct (py_eqb current proposed) eqn:E.
  { injection Ht as <-. destruct (py_eqb_get _ _ "status" _ E Hcur) as (y & Hy & Heq). by eexists _, y. }
  inv_ok. cbn [parse_rfc3339] in *. destruct (rfc3339_value now) as [t|] eqn:Hnow; [|done]. inv_ok.
  destruct (validate_approval_inv _ Hx) as (r' & e' & d' & s & Hs & Hst & Her & Hd).
  destruct (approval_structure_inv _ _ _ _ Hprop) as (_ & He & s' & Hs' & Hdec).
  rewrite Hprop in Hs. injection Hs as <- <- <-. rewrite !getitem_Ok in *. same_call.
  match goal with E : eq_lit _ "pending" = false |- _ => rewrite E in Hdec; rename E into Hnp end.
  destruct Hdec as (dt & Hdt & ->). same_call. refl_bool.
  exists s', x1, r, e, dt. split_and!; try done; [by intros ->|].
  destruct (eq_lit _ "expired"); inv_ok; refl_bool; [lia|]. destruct Hd. lia.
Qed.

(** C36: Accepted approval transitions follow the state machine.  The caller knew the
    digest of the current record and the immutable fields are unchanged.  The
    transition is applied only to a pending approval, and decides it inside its
    lifetime or expires it after it; everything else that is accepted leaves the
    status as it is. *)
Theorem approval_transition_sound current proposed digest now o :
  validate_approval_transition current proposed digest now = Ok o →
  approval_state_digest current = Ok digest ∧
  Forall (same_field current proposed) APPROVAL_IMMUTABLE_FIELDS ∧
  match o with
  | Applied => approval_decided current proposed now
  | Idempotent => same_field current proposed "status"
  end.
Proof.
  unfold validate_approval_transition. intros Ht. inv_ok.
  match goal with E : str_eqb _ _ = true |- _ => apply str_eqb_eq in E; subst end.
  match goal with E : anyM _ _ = Ok false |- _ => apply anyM_false in E as Hsame end.
  match goal with E : getitem current "status" = Ok ?x |- _ => apply getitem_Ok in E as Hcur; rename x into s end.
  match goal with E : approval_structure_and_timestamps proposed = Ok ?x |- _ =>
    destruct x as [[r e] d]; rename E into Hprop end.
  split_and!; [done|eapply Forall_impl; [exact Hsame|]; intros k; apply field_differs_false_iff|].
  destruct (eq_lit s "pending") eqn:Es; cbn [negb] in Ht.
  - apply eq_lit_iff in Es as ->. by eapply pending_transition.
  - match type of Ht with (if ?c then _ else _) = _ => destruct c eqn:Ec end.
    + injection Ht as <-. apply andb_true_iff in Ec as [Ec _]. by eapply terminal_status.
    + by destruct (validate_approval_document proposed) as [|[]].
Qed.
End approvals.
