(* ===== verification/Resume.v ===== *)
(** * Resuming an action after its approval

    Models [validate_resume_attempt] of [protocol/reference/validate.py]: the
    fresh authorization attempt that follows an approval must be linked to it
    and must have the scope that was approved. *)

From stdpp Require Import base list list_numbers numbers strings sets.
From S2P Require Import Prelude PyString Errors Timestamp PyValue Decimal Unicode Interfaces CanonicalJson.
From S2P Require Import CanonicalFacts Validation ValidationFacts Scope.
Open Scope Z_scope.

Definition RESUME_STABLE_FIELDS : list string :=
  ["actionId"; "correlationId"; "task"; "action"; "target"; "sideEffect"]%string.

(** [a[j] != b[k]], and [a.get(j) != b[k]]. *)
Definition items_differ (a : pyval) (j : string) (b : pyval) (k : string) : py bool :=
  x ← getitem a j; y ← getitem b k; Ok (negb (py_eqb x y)).
Definition get_item_differ (a : pyval) (j : string) (b : pyval) (k : string) : py bool :=
  y ← getitem b k; Ok (negb (py_eqb (opt_val (get a j)) y)).
Definition item_differs_str (s : pystr) (b : pyval) (k : string) : py bool :=
  y ← getitem b k; Ok (negb (py_eqb (PStr s) y)).

(** [except CanonicalizationError: raise ProtocolValidationError("approval_scope_mismatch")]. *)
Definition scope_error {A} (m : py A) : py A :=
  map_raise (λ e, match e with
                  | CanonicalizationError _ => ProtocolValidationError "approval_scope_mismatch"
                  | e => e
                  end) m.

Section resume.
Context `{UnicodeData, SchemaValidator}.

(** The link between the first attempt, its decision and the approval. *)
Definition link_broken (original_action prior_decision approval : pyval) : py bool :=
  (outcome ← getitem prior_decision "outcome"; Ok (negb (eq_lit outcome "approval_required")))
  <||> items_differ original_action "requestId" prior_decision "requestId"
  <||> items_differ approval "authorizationDecisionId" prior_decision "decisionId"
  <||> items_differ approval "creationAuditRef" prior_decision "auditRef"
  <||> (nested ← getitem prior_decision "approval"; items_differ approval "approvalId" nested "approvalId")
  <||> (nested ← getitem prior_decision "approval"; items_differ approval "expiresAt" nested "expiresAt").

Definition scope_broken (original_action prior_decision approval : pyval)
    (client_hash authoritative_hash : pystr) : py bool :=
  items_differ original_action "correlationId" prior_decision "correlationId"
  <||> items_differ approval "actionId" original_action "actionId"
  <||> items_differ approval "correlationId" original_action "correlationId"
  <||> item_differs_str client_hash prior_decision "clientScopeHash"
  <||> item_differs_str authoritative_hash prior_decision "authoritativeScopeHash"
  <||> items_differ approval "authoritativeScopeHash" prior_decision "authoritativeScopeHash".

(** The resumed attempt names its cause and the approval, and is a new request. *)
Definition attempt_broken (original_action prior_decision approval resumed_action : pyval) : py bool :=
  get_item_differ resumed_action "causationId" prior_decision "decisionId"
  <||> get_item_differ resumed_action "resumeFromApprovalId" approval "approvalId"
  <||> (negb <$> items_differ resumed_action "requestId" original_action "requestId")
  <||> (negb <$> items_differ resumed_action "idempotencyKey" original_action "idempotencyKey").

Definition scope_hashes (action trusted_context : pyval) : py (pystr * pystr) :=
  client ← client_scope_hash action;
  authoritative ← authoritative_scope_hash action trusted_context;
  Ok (client, authoritative).

Definition validate_resume_attempt (original_action prior_decision approval resumed_action : pyval)
    (trusted_context : pyval) (now : pystr) : py () :=
  validate_action_document original_action;;
  validate_decision_document prior_decision;;
  validate_approval_document approval;;
  validate_action_document resumed_action;;
  trusted_now ← parse_rfc3339 (PStr now);
  '(original_client, trusted_authoritative) ← scope_error (scope_hashes original_action trusted_context);
  '(resumed_client, resumed_authoritative) ← scope_error (scope_hashes resumed_action trusted_context);
  broken ← link_broken original_action prior_decision approval;
  raise_if broken (ProtocolValidationError "invalid_request");;
  broken ← scope_broken original_action prior_decision approval original_client trusted_authoritative;
  raise_if broken (ProtocolValidationError "approval_scope_mismatch");;
  status ← getitem approval "status";
  (if negb (eq_lit status "approved") then
     if eq_lit status "expired" then Raise (ProtocolValidationError "approval_expired")
     else Raise (ProtocolValidationError "policy_denied")
   else Ok ());;
  broken ← attempt_broken original_action prior_decision approval resumed_action;
  raise_if broken (ProtocolValidationError "invalid_request");;
  broken ← (anyM (λ k, items_differ resumed_action k original_action k) RESUME_STABLE_FIELDS
            <||> Ok (negb (str_eqb resumed_client original_client))
            <||> Ok (negb (str_eqb resumed_authoritative trusted_authoritative)));
  raise_if broken (ProtocolValidationError "approval_scope_mismatch");;
  decided_at ← field_timestamp approval "decidedAt";
  raise_if (0 <? timestamp_order decided_at trusted_now) (ProtocolValidationError "invalid_decision");;
  expires_at ← field_timestamp approval "expiresAt";
  raise_if (0 <=? timestamp_order trusted_now expires_at) (ProtocolValidationError "approval_expired").

(** ** What an accepted resume attempt guarantees *)
Lemma scope_error_Ok {A} (m : py A) a : scope_error m = Ok a ↔ m = Ok a.
Proof. apply map_raise_Ok_iff. Qed.

Lemma items_differ_false a j b k :
  items_differ a j b k = Ok false ↔ ∃ x y, get a j = Some x ∧ get b k = Some y ∧ py_eqb x y = true.
Proof.
  unfold items_differ. split.
  - intros Hd. inv_ok. rewrite !getitem_Ok in *. eauto.
  - intros (x & y & Hx & Hy & E). rewrite <-getitem_Ok in Hx, Hy. rewrite Hx, Hy. cbn. by rewrite E.
Qed.

Lemma require_approved status :
  (if negb (eq_lit status "approved") then
     if eq_lit status "expired" then Raise (ProtocolValidationError "approval_expired")
     else Raise (ProtocolValidationError "policy_denied")
   else Ok ()) = Ok () → status = PStr (u "approved").
Proof.
  destruct (eq_lit status "approved") eqn:E; [by apply eq_lit_iff in E|].
  by destruct (eq_lit status "expired").
Qed.

(** The approved scope: what the reviewer saw and the trusted identity. *)
Definition approved_scope (action trusted_context : pyval) (s : client_scope * trusted_scope) : Prop :=
  authoritative_scope_input action trusted_context = Ok s.

(** C14: A resumed action is the approved one.  When the resume attempt is accepted the
    approval is approved, was decided and has not expired at the trusted time, it
    is bound to the hash the first decision carries, and the resumed action has
    the scope of the original one under the trusted identity (adapter, task,
    action, target, side effect), or SHA-256 collides on the two scopes. *)
Theorem resume_is_approved original decision approval resumed trusted now :
  validate_resume_attempt original decision approval resumed trusted now = Ok () →
  get approval "status" = Some (PStr (u "approved")) ∧
  (∃ t d e, rfc3339_value now = Some t ∧ field_timestamp approval "decidedAt" = Ok d ∧
    field_timestamp approval "expiresAt" = Ok e ∧ timestamp_order d t ≤ 0 ∧ timestamp_order t e < 0) ∧
  ∃ h s s', authoritative_scope_hash original trusted = Ok h ∧
    get decision "authoritativeScopeHash" = Some (PStr h) ∧
    get approval "authoritativeScopeHash" = Some (PStr h) ∧
    approved_scope original trusted s ∧ approved_scope resumed trusted s' ∧
    (s = s' ∨ hash_collision (authoritative_scope_document s) (authoritative_scope_document s')).
Proof.
  unfold validate_resume_attempt. intros Hr. inv_ok.
  match type of Hr with match ?x with (_, _) => _ end = _ => destruct x as [oc oa] end. inv_ok.
  match type of Hr with match ?x with (_, _) => _ end = _ => destruct x as [rc ra] end. inv_ok.
  rewrite !scope_error_Ok in *. unfold scope_broken, item_differs_str in *. inv_ok.
  apply require_approved in Hx11 as ->.
  rewrite !getitem_Ok in *. refl_bool. split; [done|]. split.
  { cbn [parse_rfc3339] in Hx3. destruct (rfc3339_value now) as [t|]; [|done]. injection Hx3 as ->.
    eexists _, _, _. split_and!; done || lia. }
  unfold scope_hashes in Hx4, Hx5. inv_ok. apply str_eqb_eq in Hx15, Hx7; subst.
  match goal with E : get decision "authoritativeScopeHash" = Some ?v |- _ =>
    assert (v = PStr oa) as -> by (apply py_eqb_str_l; assumption) end.
  match goal with E : items_differ approval "authoritativeScopeHash" _ _ = Ok false |- _ =>
    apply items_differ_false in E as (a & y & Hga & Hgy & Heq) end.
  same_call. apply py_eqb_str in Heq; subst a.
  destruct (hash_of_binds (HAuthoritative original trusted) (HAuthoritative resumed trusted) oa)
    as (p & q & Hp & Hq & Hpq); [done|done|]. cbn [preimage_of] in Hp, Hq. inv_ok.
  exists oa. eexists _, _. split_and!; try done.
  destruct Hpq as [[= ->]|]; auto.
Qed.
End resume.
