(* ===== verification/Reconciliation.v ===== *)
(** * The reconciliation state machine

    Models [protocol/reference/reconciliation.py]: the validation of one
    durable reconciliation record, the compare-and-swap transitions between
    records, manual retry, recovery after a restart and the selection of the
    due prefix of an ordered batch. *)

From stdpp Require Import base list list_numbers numbers strings gmap sorting.
From S2P Require Import Prelude PyString Errors Timestamp PyValue Interfaces Validation.
Open Scope Z_scope.

(** ** Data supplied by the store and by the server *)
Record RecordPartition := { tenant_partition : pystr; owner_subject : pystr }.

Record TrustedStoreContext := {
  record_partitions : gmap pystr RecordPartition;
  authenticated_tenant : pystr;
  authenticated_subject : pystr;
  organization_retention_authority : option pystr;
}.

Record TrustedBatchCheckpoint := {
  batch_id : pystr;
  expected_next_sequence : Z;
  completed_prefix : gmap Z pystr;
}.

Record AuthenticatedServerReceipt := {
  receipt_id : pystr;
  reconciliation_id : pystr;
  evidence_hash : pystr;
  acknowledged_at : pystr;
  receipt_tenant_partition : pystr;
  receipt_client_id : pystr;
}.

Definition public_acknowledgement (r : AuthenticatedServerReceipt) : pyval :=
  PDict [(u "receiptId", PStr (receipt_id r)); (u "reconciliationId", PStr (reconciliation_id r));
         (u "evidenceHash", PStr (evidence_hash r));
         (u "acknowledgedAt", PStr (acknowledged_at r))].

Definition IMMUTABLE_EVIDENCE_FIELDS : list string :=
  ["schemaVersion"; "reconciliationId"; "actionId"; "requestId"; "decisionId"; "correlationId";
   "authorizationIdempotencyKey"; "clientId"; "action"; "targetKind"; "clientScopeHash";
   "authoritativeScopeHash"; "outcome"; "reasonCode"; "observedAt"; "batchId"; "batchSequence";
   "deliveryPolicy"; "extensions"].
Definition MANUAL_REASON : string := "attempt_limit_reached".

(** [state in _TERMINAL_STATES]. *)
Definition is_terminal_state (s : pyval) : bool :=
  eq_lit s "acknowledged" || eq_lit s "discarded".

Definition rerr {A} (code : string) : py A := Raise (ReconciliationError code).

(** [except ProtocolValidationError as exc: raise ReconciliationError(exc.code)]. *)
Definition as_reconciliation_error (e : exn) : exn :=
  match e with ProtocolValidationError code => ReconciliationError code | e => e end.

Definition parse_timestamp (value : pyval) : py timestamp :=
  map_raise as_reconciliation_error (parse_rfc3339 value).

Definition same_instant (left right : pyval) : py bool :=
  l ← parse_timestamp left; r ← parse_timestamp right; Ok (timestamp_order l r =? 0).

(** [_compare_timestamps(_parse_timestamp(l), _parse_timestamp(r)) < 0]. *)
Definition earlier (left right : pyval) : py bool :=
  l ← parse_timestamp left; r ← parse_timestamp right; Ok (timestamp_order l r <? 0).

(** The timestamp under a key that need not be there. *)
Definition optional_timestamp (document : pyval) (k : string) : py (option timestamp) :=
  if has_key document k then x ← getitem document k; Some <$> parse_timestamp x else Ok None.

(** [d[j] < d[k]] on [int] values. *)
Definition less_than (d : pyval) (j k : string) : py bool :=
  y ← get_int d k; x ← get_int d j; Ok (x <? y).

Definition evidence_body (document : pyval) : pyval :=
  PDict (omap (λ field, (λ x, (u field, x)) <$> get document field) IMMUTABLE_EVIDENCE_FIELDS).

(** [retry_delay_seconds]; the policy is a mapping of anything. *)
Definition retry_delay_seconds (attempt_count policy : pyval) : py Z :=
  match strict_int attempt_count with
  | None => rerr "retry_policy_invalid"
  | Some n =>
      raise_if (n <? 1) (ReconciliationError "retry_policy_invalid");;
      match get policy "baseDelaySeconds", get policy "maxDelaySeconds",
            get policy "maxAttempts", get policy "maxTotalAttempts" with
      | Some b, Some m, Some a, Some t =>
          match strict_int b, strict_int m, strict_int a, strict_int t with
          | Some base, Some maximum, Some max_attempts, Some max_total_attempts =>
              raise_if ((base <? 1) || (maximum <? base) || (3600 <? base) || (86400 <? maximum)
                        || (max_attempts <? 1) || (100 <? max_attempts)
                        || (max_total_attempts <? max_attempts) || (100 <? max_total_attempts)
                        || (max_total_attempts <? n))
                (ReconciliationError "retry_policy_invalid");;
              let exponent := Z.min (n - 1) 63 in
              Ok (Z.min (base * 2 ^ exponent) maximum)
          | _, _, _, _ => rerr "retry_policy_invalid"
          end
      | _, _, _, _ => rerr "retry_policy_invalid"
      end
  end.

Definition validated_retry_policy (attempt_count policy : pyval) : py (pyval * pyval) :=
  retry_delay_seconds attempt_count policy;; Ok (attempt_count, policy).

(** [next_attempt_at]. *)
Definition next_attempt_at (failed_at : pystr) (attempt_count policy : pyval) : py pystr :=
  '(attempt_count, policy) ← validated_retry_policy attempt_count policy;
  max_attempts ← get_int policy "maxAttempts";
  n ← as_int attempt_count;
  raise_if (max_attempts <=? n) (ReconciliationError "manual_intervention_required");;
  delay ← retry_delay_seconds attempt_count policy;
  add_seconds failed_at delay.

Section reconciliation.
Context `{Canonicalizer, SchemaValidator}.

Definition body_hash_unchecked (document : pyval) : py pystr :=
  map_raise (λ e, match e with
                  | CanonicalizationError _ => ReconciliationError "evidence_invalid"
                  | e => e end)
    (canonical_hash (evidence_body document)).

Definition validate_schema (document : pyval) : py () :=
  map_raise as_reconciliation_error
    (validate_structure KReconciliation document;; validate_extension_numbers document).

Definition validate_record_size (document : pyval) : py () :=
  match canonical_json document with
  | Ok _ => Ok ()
  | Raise (CanonicalizationError code) =>
      rerr (if bool_decide (code = "input_too_large") || bool_decide (code = "string_too_large")
            then "record_too_large" else "record_invalid")
  | Raise e => Raise e
  end.

(** [validate_reconciliation_document]. *)
Definition validate_reconciliation_document (document : pyval) : py () :=
  raise_if (negb (is_dict document)) (ReconciliationError "schema_invalid");;
  validate_record_size document;;
  validate_schema document;;
  observed ← getitem document "observedAt";
  observed_at ← parse_timestamp observed;
  last_attempt_at ← optional_timestamp document "lastAttemptAt";
  next_attempt_at ← optional_timestamp document "nextAttemptAt";
  acknowledged_at ← optional_timestamp document "acknowledgedAt";
  discarded_at ← optional_timestamp document "discardedAt";
  policy ← getitem document "deliveryPolicy";
  unordered ← (less_than policy "maxDelaySeconds" "baseDelaySeconds"
               <||> less_than policy "maxTotalAttempts" "maxAttempts");
  raise_if unordered (ReconciliationError "retry_policy_invalid");;
  attempt_count ← get_int document "attemptCount";
  max_total ← get_int policy "maxTotalAttempts";
  raise_if (max_total <? attempt_count) (ReconciliationError "attempt_limit_exceeded");;
  disposition ← getitem document "deliveryDisposition";
  max_attempts ← get_int policy "maxAttempts";
  raise_if (eq_lit disposition "automatic" && (max_attempts <? attempt_count))
    (ReconciliationError "automatic_attempt_limit_exceeded");;
  raise_if (eq_lit disposition "manual_intervention" && (attempt_count <? max_attempts))
    (ReconciliationError "manual_state_invalid");;
  state ← getitem document "state";
  raise_if (eq_lit disposition "automatic" && eq_lit state "pending"
            && (max_attempts <=? attempt_count))
    (ReconciliationError "manual_intervention_required");;
  raise_if (eq_lit state "retry_wait" && (max_attempts <=? attempt_count))
    (ReconciliationError "manual_intervention_required");;
  raise_if (Bool.eqb (attempt_count =? 0) (bool_decide (is_Some last_attempt_at)))
    (ReconciliationError "attempt_state_invalid");;
  raise_if (match last_attempt_at with
            | Some l => timestamp_order l observed_at <? 0 | None => false end)
    (ReconciliationError "timestamp_order_invalid");;
  raise_if (match next_attempt_at, last_attempt_at with
            | Some n, Some l => timestamp_order n l <=? 0 | _, _ => false end)
    (ReconciliationError "timestamp_order_invalid");;
  raise_if (match acknowledged_at, last_attempt_at with
            | Some a, Some l => timestamp_order a l <? 0 | _, _ => false end)
    (ReconciliationError "timestamp_order_invalid");;
  raise_if (match discarded_at with
            | Some d => timestamp_order d observed_at <? 0 | None => false end)
    (ReconciliationError "timestamp_order_invalid");;
  if eq_lit state "acknowledged" then
    acknowledgement ← getitem document "acknowledgement";
    ack_at ← getitem acknowledgement "acknowledgedAt";
    parse_timestamp ack_at;;
    bad ← (field_differs acknowledgement document "reconciliationId"
           <||> (h ← getitem acknowledgement "evidenceHash";
                 body ← body_hash_unchecked document;
                 Ok (negb (py_eqb h (PStr body))))
           <||> (d_at ← getitem document "acknowledgedAt";
                 negb <$> same_instant ack_at d_at));
    raise_if bad (ReconciliationError "acknowledgement_invalid")
  else Ok ().

Definition reconciliation_body_hash (document : pyval) : py pystr :=
  validate_reconciliation_document document;;
  body_hash_unchecked document.

Definition reconciliation_state_digest (document : pyval) : py pystr :=
  validate_reconciliation_document document;;
  map_raise (λ e, match e with
                  | CanonicalizationError _ => ReconciliationError "state_invalid"
                  | e => e end)
    (canonical_hash document).

(** ** Authority.  [None] is a context that is not a [TrustedStoreContext]. *)
Definition record_partition (document : pyval) (trusted_context : option TrustedStoreContext)
    : py RecordPartition :=
  match trusted_context with
  | None => rerr "trusted_context_required"
  | Some ctx =>
      rid ← getitem document "reconciliationId";
      found ← (match rid with
               | PStr s => Ok (record_partitions ctx !! s)
               | PList _ | PDict _ => Raise TypeError
               | _ => Ok None
               end);
      match found with
      | None => rerr "record_context_mismatch"
      | Some partition =>
          raise_if (negb (str_eqb (authenticated_tenant ctx) (tenant_partition partition)))
            (ReconciliationError "tenant_context_mismatch");;
          Ok partition
      end
  end.

(** [trusted_context.authenticated_subject == partition.owner_subject]. *)
Definition is_owner (trusted_context : option TrustedStoreContext) (p : RecordPartition) : bool :=
  match trusted_context with
  | Some ctx => str_eqb (authenticated_subject ctx) (owner_subject p)
  | None => false
  end.
(** [bool(trusted_context.organization_retention_authority)]. *)
Definition has_organization_authority (trusted_context : option TrustedStoreContext) : bool :=
  match trusted_context with
  | Some ctx => match organization_retention_authority ctx with
                | Some s => negb (bool_decide (s = [])) | None => false end
  | None => false
  end.

Definition require_owner_context (document : pyval)
    (trusted_context : option TrustedStoreContext) : py RecordPartition :=
  partition ← record_partition document trusted_context;
  raise_if (negb (is_owner trusted_context partition))
    (ReconciliationError "subject_context_mismatch");;
  Ok partition.

Definition require_user_or_organization_authority (document : pyval)
    (trusted_context : option TrustedStoreContext) (authority_type : pyval)
    (failure_code : string) : py RecordPartition :=
  partition ← record_partition document trusted_context;
  (if eq_lit authority_type "authenticated_user" then
     raise_if (negb (is_owner trusted_context partition)) (ReconciliationError failure_code)
   else if eq_lit authority_type "organization_retention_policy" then
     raise_if (negb (has_organization_authority trusted_context))
       (ReconciliationError failure_code)
   else rerr failure_code);;
  Ok partition.

Definition resolve_duplicate_reconciliation (existing proposed : pyval)
    (trusted_context : option TrustedStoreContext) : py pyval :=
  validate_reconciliation_document existing;;
  validate_reconciliation_document proposed;;
  require_owner_context existing trusted_context;;
  conflict ← (field_differs existing proposed "reconciliationId"
              <||> (a ← body_hash_unchecked existing; b ← body_hash_unchecked proposed;
                    Ok (negb (str_eqb a b))));
  raise_if conflict (ReconciliationError "idempotency_conflict");;
  Ok existing.

(** ** Transitions *)
Definition require_same_evidence (current proposed : pyval) : py () :=
  differs ← (field_differs current proposed "reconciliationId"
             <||> (a ← body_hash_unchecked current; b ← body_hash_unchecked proposed;
                   Ok (negb (str_eqb a b))));
  raise_if differs (ReconciliationError "transition_invalid").

(** [document.get(k)] where an absent key and [None] are the same. *)
Definition get_not_none (document : pyval) (k : string) : option pyval :=
  match get document k with Some PNone | None => None | Some x => Some x end.

Definition same_attempt_history (current proposed : pyval) : py bool :=
  same_last ← (match get_not_none current "lastAttemptAt", get_not_none proposed "lastAttemptAt" with
               | None, None => Ok true
               | Some c, Some p => same_instant c p
               | _, _ => Ok false
               end);
  ((negb <$> field_differs proposed current "attemptCount")
   <&&> Ok same_last
   <&&> (negb <$> field_differs proposed current "deliveryDisposition")
   <&&> Ok (negb (get_differs proposed current "manualReasonCode"))).

Definition require_same_attempt_history (current proposed : pyval) : py () :=
  same ← same_attempt_history current proposed;
  raise_if (negb same) (ReconciliationError "transition_history_invalid").

(** [document["attemptCount"] >= document["deliveryPolicy"][bound]]. *)
Definition attempts_reach (document : pyval) (bound : string) : py bool :=
  n ← get_int document "attemptCount";
  policy ← getitem document "deliveryPolicy";
  m ← get_int policy bound;
  Ok (m <=? n).

(** [now] is earlier than the timestamp under [k]. *)
Definition now_before (now : pystr) (document : pyval) (k : string) : py bool :=
  n ← parse_timestamp (PStr now); x ← getitem document k; t ← parse_timestamp x;
  Ok (timestamp_order n t <? 0).

(** [proposed["attemptCount"] != current["attemptCount"] + 1]. *)
Definition not_next_attempt (current proposed : pyval) : py bool :=
  p ← getitem proposed "attemptCount"; c ← get_int current "attemptCount";
  Ok (negb (py_eqb p (PInt (c + 1)))).

Definition validate_send_transition (current proposed : pyval) (now : pystr) : py () :=
  disposition ← getitem current "deliveryDisposition";
  raise_if (negb (eq_lit disposition "automatic")) (ReconciliationError "manual_retry_required");;
  exhausted ← attempts_reach current "maxAttempts";
  raise_if exhausted (ReconciliationError "attempt_limit_reached");;
  back ← (Ok (has_key current "lastAttemptAt") <&&> now_before now current "lastAttemptAt");
  raise_if back (ReconciliationError "timestamp_order_invalid");;
  state ← getitem current "state";
  early ← (Ok (eq_lit state "retry_wait") <&&> now_before now current "nextAttemptAt");
  raise_if early (ReconciliationError "retry_not_due");;
  wrong ← not_next_attempt current proposed;
  raise_if wrong (ReconciliationError "transition_invalid");;
  disposition' ← getitem proposed "deliveryDisposition";
  raise_if (negb (eq_lit disposition' "automatic") || has_key proposed "manualReasonCode")
    (ReconciliationError "transition_history_invalid");;
  last ← getitem proposed "lastAttemptAt";
  same ← same_instant last (PStr now);
  raise_if (negb same) (ReconciliationError "transition_invalid").

Definition validate_retry_transition (current proposed : pyval) (now : pystr) : py () :=
  exhausted ← attempts_reach current "maxAttempts";
  raise_if exhausted (ReconciliationError "manual_intervention_required");;
  back ← now_before now current "lastAttemptAt";
  raise_if back (ReconciliationError "timestamp_order_invalid");;
  require_same_attempt_history current proposed;;
  attempt_count ← getitem current "attemptCount";
  policy ← getitem current "deliveryPolicy";
  expected ← next_attempt_at now attempt_count policy;
  scheduled ← getitem proposed "nextAttemptAt";
  same ← same_instant scheduled (PStr expected);
  raise_if (negb same) (ReconciliationError "retry_schedule_invalid").

(** The proposed timestamp under [k] is later than [now]. *)
Definition after_now (proposed : pyval) (k : string) (now : pystr) : py bool :=
  x ← getitem proposed k; t ← parse_timestamp x; n ← parse_timestamp (PStr now);
  Ok (0 <? timestamp_order t n).

Definition validate_acknowledgement_transition (current proposed : pyval) (now : pystr)
    (server_receipt : option AuthenticatedServerReceipt) (partition : RecordPartition) : py () :=
  match server_receipt with
  | None => rerr "server_acknowledgement_required"
  | Some receipt =>
      acknowledgement ← getitem proposed "acknowledgement";
      raise_if (negb (py_eqb acknowledgement (public_acknowledgement receipt)))
        (ReconciliationError "acknowledgement_invalid");;
      mismatch ← (Ok (negb (str_eqb (receipt_tenant_partition receipt) (tenant_partition partition)))
                  <||> (c ← getitem current "clientId";
                        Ok (negb (py_eqb (PStr (receipt_client_id receipt)) c))));
      raise_if mismatch (ReconciliationError "receipt_context_mismatch");;
      require_same_attempt_history current proposed;;
      bad ← (field_differs acknowledgement current "reconciliationId"
             <||> (h ← getitem acknowledgement "evidenceHash";
                   body ← body_hash_unchecked current;
                   Ok (negb (py_eqb h (PStr body))))
             <||> (p ← getitem proposed "acknowledgedAt";
                   a ← getitem acknowledgement "acknowledgedAt";
                   negb <$> same_instant p a)
             <||> after_now proposed "acknowledgedAt" now);
      raise_if bad (ReconciliationError "acknowledgement_invalid")
  end.

Definition validate_discard_transition (current proposed : pyval) (now : pystr) : py () :=
  require_same_attempt_history current proposed;;
  back ← (Ok (has_key current "lastAttemptAt")
          <&&> (d ← getitem proposed "discardedAt"; l ← getitem current "lastAttemptAt";
                earlier d l));
  raise_if back (ReconciliationError "timestamp_order_invalid");;
  late ← after_now proposed "discardedAt" now;
  raise_if late (ReconciliationError "discard_authorization_invalid").

Definition validate_exhaustion_transition (current proposed : pyval) (now : pystr) : py () :=
  exhausted ← attempts_reach current "maxAttempts";
  raise_if (negb exhausted) (ReconciliationError "transition_invalid");;
  bad ← (field_differs proposed current "attemptCount"
         <||> (p ← getitem proposed "lastAttemptAt"; c ← getitem current "lastAttemptAt";
               negb <$> same_instant p c)
         <||> (d ← getitem proposed "deliveryDisposition";
               Ok (negb (eq_lit d "manual_intervention")))
         <||> Ok (negb (eq_lit (opt_val (get proposed "manualReasonCode")) MANUAL_REASON)));
  raise_if bad (ReconciliationError "transition_history_invalid");;
  back ← now_before now current "lastAttemptAt";
  raise_if back (ReconciliationError "timestamp_order_invalid").

(** The dispatch on [(current["state"], proposed["state"])]. *)
Definition validate_edge (current proposed : pyval) (now : pystr)
    (server_receipt : option AuthenticatedServerReceipt) (partition : RecordPartition) : py () :=
  from ← getitem current "state";
  to ← getitem proposed "state";
  if (eq_lit from "pending" || eq_lit from "retry_wait") && eq_lit to "sending" then
    validate_send_transition current proposed now
  else if eq_lit from "sending" && eq_lit to "retry_wait" then
    validate_retry_transition current proposed now
  else if eq_lit from "sending" && eq_lit to "pending" then
    disposition ← getitem proposed "deliveryDisposition";
    if eq_lit disposition "manual_intervention" then
      validate_exhaustion_transition current proposed now
    else
      back ← now_before now current "lastAttemptAt";
      raise_if back (ReconciliationError "timestamp_order_invalid");;
      require_same_attempt_history current proposed
  else if eq_lit from "sending" && eq_lit to "acknowledged" then
    validate_acknowledgement_transition current proposed now server_receipt partition
  else if eq_lit from "pending" && eq_lit to "discarded" then
    validate_discard_transition current proposed now
  else rerr "transition_invalid".

(** The authority that may see or make a discarded record. *)
Definition require_discard_authority (record discarded : pyval)
    (trusted_context : option TrustedStoreContext) : py RecordPartition :=
  discard ← getitem discarded "discard";
  authority_type ← getitem discard "authorityType";
  require_user_or_organization_authority record trusted_context authority_type
    "discard_authorization_required".

Definition require_digest (expected_state_digest : pystr) (current : pyval) : py () :=
  digest ← reconciliation_state_digest current;
  raise_if (negb (str_eqb expected_state_digest digest))
    (ReconciliationError "concurrent_transition").

Definition validate_reconciliation_transition (current proposed : pyval)
    (expected_state_digest : pystr) (now : pystr)
    (trusted_context : option TrustedStoreContext)
    (server_receipt : option AuthenticatedServerReceipt) : py outcome :=
  validate_reconciliation_document current;;
  partition ← record_partition current trusted_context;
  state ← getitem current "state";
  if is_terminal_state state then
    (if eq_lit state "discarded" then require_discard_authority current current trusted_context
     else require_owner_context current trusted_context);;
    require_digest expected_state_digest current;;
    if py_eqb current proposed then Ok Idempotent else rerr "terminal_state"
  else
    validate_reconciliation_document proposed;;
    discarding ← (Ok (eq_lit state "pending")
                  <&&> (to ← getitem proposed "state"; Ok (eq_lit to "discarded")));
    (if (discarding : bool) then require_discard_authority current proposed trusted_context
     else require_owner_context current trusted_context);;
    require_digest expected_state_digest current;;
    if py_eqb current proposed then Ok Idempotent
    else
      parse_timestamp (PStr now);;
      require_same_evidence current proposed;;
      validate_edge current proposed now server_receipt partition;;
      Ok Applied.

Definition validate_manual_retry_transition (current proposed : pyval)
    (expected_state_digest : pystr) (now : pystr)
    (trusted_context : option TrustedStoreContext) : py outcome :=
  validate_reconciliation_document current;;
  partition ← record_partition current trusted_context;
  raise_if (negb (is_owner trusted_context partition)
            && negb (has_organization_authority trusted_context))
    (ReconciliationError "manual_retry_authorization_required");;
  require_digest expected_state_digest current;;
  state ← getitem current "state";
  not_manual ← (Ok (negb (eq_lit state "pending"))
                <||> (d ← getitem current "deliveryDisposition";
                      Ok (negb (eq_lit d "manual_intervention"))));
  raise_if not_manual (ReconciliationError "manual_retry_required");;
  exhausted ← attempts_reach current "maxTotalAttempts";
  raise_if exhausted (ReconciliationError "attempt_limit_reached");;
  validate_reconciliation_document proposed;;
  require_same_evidence current proposed;;
  bad ← ((s ← getitem proposed "state"; Ok (negb (eq_lit s "sending")))
         <||> (d ← getitem proposed "deliveryDisposition";
               Ok (negb (eq_lit d "manual_intervention")))
         <||> Ok (get_differs proposed current "manualReasonCode")
         <||> not_next_attempt current proposed
         <||> (l ← getitem proposed "lastAttemptAt"; negb <$> same_instant l (PStr now)));
  raise_if bad (ReconciliationError "transition_history_invalid");;
  back ← (Ok (has_key current "lastAttemptAt") <&&> now_before now current "lastAttemptAt");
  raise_if back (ReconciliationError "timestamp_order_invalid");;
  Ok Applied.

(** The record [recover_after_restart] proposes. *)
Definition recovered_record (current : pyval) : py pyval :=
  disposition ← getitem current "deliveryDisposition";
  manual ← (Ok (eq_lit disposition "manual_intervention")
            <||> attempts_reach current "maxAttempts");
  let proposed := setitem current "state" (PStr (u "pending")) in
  Ok (if (manual : bool)
      then setitem (setitem proposed "deliveryDisposition" (PStr (u "manual_intervention")))
             "manualReasonCode" (PStr (u MANUAL_REASON))
      else proposed).

Definition recover_after_restart (current : pyval) (expected_state_digest : pystr)
    (now : pystr) (trusted_context : option TrustedStoreContext) : py pyval :=
  validate_reconciliation_document current;;
  require_owner_context current trusted_context;;
  require_digest expected_state_digest current;;
  state ← getitem current "state";
  raise_if (negb (eq_lit state "sending")) (ReconciliationError "transition_invalid");;
  proposed ← recovered_record current;
  validate_reconciliation_transition current proposed expected_state_digest now
    trusted_context None;;
  Ok proposed.

(** ** Ordered batches *)

(** The elements of a set display, up to [==]. *)
Fixpoint distinct (xs : list pyval) : list pyval :=
  match xs with
  | [] => []
  | x :: xs' => x :: filter (λ y, negb (py_eqb x y) = true) (distinct xs')
  end.

Fixpoint mapM_py {A B} (f : A → py B) (xs : list A) : py (list B) :=
  match xs with
  | [] => Ok []
  | x :: xs' => y ← f x; ys ← mapM_py f xs'; Ok (y :: ys)
  end.

Definition checkpoint_valid (c : TrustedBatchCheckpoint) : bool :=
  (0 <=? expected_next_sequence c)
  && forallb (λ p : Z * pystr, negb ((p.1 <? 0) || (expected_next_sequence c <=? p.1)))
       (map_to_list (completed_prefix c)).

Fixpoint select_due (records : list pyval) (trusted_now : timestamp) (limit : Z)
    (checkpoint : TrustedBatchCheckpoint) (active_seen : bool) (selected : list pyval)
    : py (list pyval) :=
  match records with
  | [] => Ok selected
  | record :: rest =>
      state ← getitem record "state";
      if is_terminal_state state then
        mismatch ← (Ok (active_seen || negb (eq_lit state "acknowledged"))
                    <||> (s ← get_int record "batchSequence";
                          Ok (expected_next_sequence checkpoint <=? s))
                    <||> (s ← get_int record "batchSequence";
                          rid ← getitem record "reconciliationId";
                          Ok (negb (py_eqb (from_option PStr PNone (completed_prefix checkpoint !! s))
                                      rid))));
        raise_if mismatch (ReconciliationError "batch_checkpoint_mismatch");;
        select_due rest trusted_now limit checkpoint active_seen selected
      else
        gap ← (Ok (negb active_seen)
               <&&> (s ← get_int record "batchSequence";
                     Ok (negb (s =? expected_next_sequence checkpoint))));
        raise_if gap (ReconciliationError "batch_checkpoint_mismatch");;
        disposition ← getitem record "deliveryDisposition";
        if eq_lit disposition "manual_intervention" then Ok selected
        else if eq_lit state "sending" then Ok selected
        else
          waiting ← (Ok (eq_lit state "retry_wait")
                     <&&> (n ← getitem record "nextAttemptAt"; t ← parse_timestamp n;
                           Ok (timestamp_order trusted_now t <? 0)));
          if (waiting : bool) then Ok selected
          else
            let selected := selected ++ [record] in
            if Z.of_nat (length selected) =? limit then Ok selected
            else select_due rest trusted_now limit checkpoint true selected
  end.

Definition ordered_batch_resume (records : list pyval) (now : pystr) (limit : pyval)
    (trusted_context : option TrustedStoreContext)
    (checkpoint : option TrustedBatchCheckpoint) : py (list pyval) :=
  match strict_int limit with
  | None => rerr "batch_invalid"
  | Some limit =>
      raise_if (limit <? 1) (ReconciliationError "batch_invalid");;
      raise_if (limit <? Z.of_nat (length records)) (ReconciliationError "batch_limit_exceeded");;
      match checkpoint with
      | None => rerr "batch_checkpoint_required"
      | Some checkpoint =>
          raise_if (negb (checkpoint_valid checkpoint))
            (ReconciliationError "batch_checkpoint_mismatch");;
          parse_timestamp (PStr now);;
          match records with
          | [] => Ok []
          | _ =>
              mapM_py (λ record, validate_reconciliation_document record;;
                         require_owner_context record trusted_context) records;;
              batch_ids ← distinct <$> mapM_py (λ r, getitem r "batchId") records;
              reconciliation_ids ← distinct <$> mapM_py (λ r, getitem r "reconciliationId") records;
              sequences ← mapM_py (λ r, get_int r "batchSequence") records;
              raise_if (negb (length batch_ids =? 1)%nat
                        || negb (existsb (py_eqb (PStr (batch_id checkpoint))) batch_ids)
                        || negb (length reconciliation_ids =? length records)%nat
                        || negb (bool_decide (NoDup sequences))
                        || negb (bool_decide (sequences = merge_sort Z.le sequences))
                        || negb (bool_decide (sequences =
                                   seqZ (default 0 (head sequences)) (Z.of_nat (length sequences)))))
                (ReconciliationError "batch_invalid");;
              trusted_now ← parse_timestamp (PStr now);
              select_due records trusted_now limit checkpoint false []
          end
      end
  end.

End reconciliation.
