(* ===== verification/Delivery.v ===== *)
(** * Delivery: what the reconciliation state machine guarantees

    An abstract view of a record (its state, its attempts, its retry policy and
    its times), the step relation on views that accepted transitions refine,
    and the consequences for every sequence of accepted transitions: terminal
    records stay, attempts are counted one by one and bounded by the policy
    that the first record fixed. *)

From stdpp Require Import base list list_numbers numbers strings gmap sorting.
From Stdlib Require Import QArith_base.
From S2P Require Import Prelude PyString Errors Timestamp PyValue Interfaces Validation Reconciliation.
Open Scope Z_scope.

Inductive rstate := Pending | Sending | RetryWait | Acknowledged | Discarded.
#[global] Instance rstate_eq_dec : EqDecision rstate.
Proof. solve_decision. Defined.

Definition rstate_name (s : rstate) : string :=
  match s with
  | Pending => "pending" | Sending => "sending" | RetryWait => "retry_wait"
  | Acknowledged => "acknowledged" | Discarded => "discarded"
  end.

Record rview := {
  v_state : rstate;
  v_attempts : Z;
  v_manual : bool;
  v_base : Z;
  v_cap : Z;
  v_max : Z;
  v_total : Z;
  v_last : option timestamp;
  v_next : option timestamp;
}.

(** The view of a document; the last argument lists what has been read. *)
Record views (d : pyval) (v : rview) : Prop := {
  views_state : get d "state" = Some (PStr (u (rstate_name (v_state v))));
  views_attempts : get_int d "attemptCount" = Ok (v_attempts v);
  views_manual : ∃ x, get d "deliveryDisposition" = Some x ∧
                      v_manual v = eq_lit x "manual_intervention";
  views_base : ∃ p, get d "deliveryPolicy" = Some p ∧ get_int p "baseDelaySeconds" = Ok (v_base v);
  views_cap : ∃ p, get d "deliveryPolicy" = Some p ∧ get_int p "maxDelaySeconds" = Ok (v_cap v);
  views_max : ∃ p, get d "deliveryPolicy" = Some p ∧ get_int p "maxAttempts" = Ok (v_max v);
  views_total : ∃ p, get d "deliveryPolicy" = Some p ∧ get_int p "maxTotalAttempts" = Ok (v_total v);
  views_last : optional_timestamp d "lastAttemptAt" = Ok (v_last v);
  views_next : optional_timestamp d "nextAttemptAt" = Ok (v_next v);
}.

(** What validation establishes about a view. *)
Record rview_wf (v : rview) : Prop := {
  wf_max : v_max v ≤ v_total v;
  wf_total : v_attempts v ≤ v_total v;
  wf_manual : v_manual v = true → v_max v ≤ v_attempts v;
  wf_wait : v_state v = RetryWait → v_attempts v < v_max v;
  wf_last : v_last v = None ↔ v_attempts v = 0;
  wf_next : ∀ n l, v_next v = Some n → v_last v = Some l → 0 < timestamp_order n l;
}.

(** ** The abstract step relation *)
Definition same_time (a b : option timestamp) : Prop :=
  match a, b with
  | None, None => True
  | Some a, Some b => timestamp_order a b = 0
  | _, _ => False
  end.
(** [t] is not before the recorded time, when there is one. *)
Definition not_before (t : timestamp) (a : option timestamp) : Prop :=
  match a with None => True | Some a => 0 ≤ timestamp_order t a end.

Record same_history (v w : rview) : Prop := {
  same_attempts : v_attempts w = v_attempts v;
  same_last : same_time (v_last v) (v_last w);
  same_manual : v_manual w = v_manual v;
}.

Inductive rstep (now : timestamp) (v w : rview) : Prop :=
| step_send :
    (v_state v = Pending ∨ v_state v = RetryWait) → v_state w = Sending →
    v_manual v = false → v_manual w = false →
    v_attempts v < v_max v → v_attempts w = v_attempts v + 1 →
    not_before now (v_last v) →
    (v_state v = RetryWait → ∃ t, v_next v = Some t ∧ 0 ≤ timestamp_order now t) →
    same_time (v_last w) (Some now) → rstep now v w
| step_manual_send :
    v_state v = Pending → v_state w = Sending →
    v_manual v = true → v_manual w = true →
    v_attempts v < v_total v → v_attempts w = v_attempts v + 1 →
    not_before now (v_last v) →
    same_time (v_last w) (Some now) → rstep now v w
| step_retry t :
    v_state v = Sending → v_state w = RetryWait → same_history v w →
    v_attempts v < v_max v → not_before now (v_last v) →
    v_next w = Some t → 1 ≤ v_attempts v →
    timestamp_order t (now.1 + Z.min (v_base v * 2 ^ (v_attempts v - 1)) (v_cap v), now.2) = 0 →
    rstep now v w
| step_release :
    v_state v = Sending → v_state w = Pending → same_history v w →
    not_before now (v_last v) → rstep now v w
| step_exhaust :
    v_state v = Sending → v_state w = Pending → v_manual w = true →
    v_max v ≤ v_attempts v → v_attempts w = v_attempts v →
    same_time (v_last w) (v_last v) → not_before now (v_last v) → rstep now v w
| step_acknowledge :
    v_state v = Sending → v_state w = Acknowledged → same_history v w → rstep now v w
| step_discard :
    v_state v = Pending → v_state w = Discarded → same_history v w → rstep now v w.

(** ** Lemmas *)
Lemma getitem_get d k x : getitem d k = Ok x → get d k = Some x.
Proof. apply getitem_Ok. Qed.

Lemma less_than_false d j k b :
  less_than d j k = Ok b → ∃ x y, get_int d j = Ok x ∧ get_int d k = Ok y ∧ (x <? y) = b.
Proof. unfold less_than. intros H. inv_ok. eauto. Qed.

Lemma eq_lit_state s s' :
  eq_lit (PStr (u (rstate_name s))) (rstate_name s') = bool_decide (s = s').
Proof. destruct s, s'; vm_compute; reflexivity. Qed.

(** A state read from a document that passed a test against a literal. *)
Lemma rstate_name_inj s s' : u (rstate_name s) = u (rstate_name s') → s = s'.
Proof. destruct s, s'; (reflexivity || (intros E; vm_compute in E; discriminate E)). Qed.

Section delivery.
Context `{Canonicalizer, SchemaValidator}.

(** A valid record whose state is known has a well-formed view. *)
Lemma validated_view d s :
  validate_reconciliation_document d = Ok () →
  get d "state" = Some (PStr (u (rstate_name s))) →
  ∃ v, views d v ∧ v_state v = s ∧ rview_wf v.
Proof.
  unfold validate_reconciliation_document. intros Hv Hs.
  apply getitem_Ok in Hs. inv_ok.
  repeat match goal with
  | H : less_than _ _ _ = Ok _ |- _ => apply less_than_false in H as (? & ? & ? & ? & ?)
  | H : getitem _ _ = Ok _ |- _ => apply getitem_get in H
  end.
  simplify_eq.
  match goal with
  | Hn : get_int d "attemptCount" = Ok ?n, Hl : optional_timestamp d "lastAttemptAt" = Ok ?l,
    Hn' : optional_timestamp d "nextAttemptAt" = Ok ?nx,
    Hd : get d "deliveryDisposition" = Some ?x,
    Hb : get_int _ "baseDelaySeconds" = Ok ?b, Hc : get_int _ "maxDelaySeconds" = Ok ?c,
    Hm : get_int _ "maxAttempts" = Ok ?m, Ht : get_int _ "maxTotalAttempts" = Ok ?t |- _ =>
      exists (Build_rview s n (eq_lit x "manual_intervention") b c m t l nx)
  end.
  split; [constructor; cbn; eauto|]. split; [done|].
  same_call. constructor; cbn.
  - by refl_bool.
  - by refl_bool.
  - intros Hm. rewrite Hm in *. cbn in *. by refl_bool.
  - intros ->. change "retry_wait" with (rstate_name RetryWait) in *.
    rewrite eq_lit_state, bool_decide_true, andb_true_l in * by done.
    by refl_bool.
  - match goal with H : eqb _ _ = false |- _ => apply eqb_false_iff in H end.
    destruct x4 as [t|]; [rewrite bool_decide_true in * by eauto|].
    + split; [done|]. intros ->. done.
    + rewrite bool_decide_false in * by (by intros []). destruct (x11 =? 0) eqn:E; [|done].
      by refl_bool.
  - intros n l -> ->. by refl_bool.
Qed.

Lemma optional_timestamp_get d k o x t :
  optional_timestamp d k = Ok o → get d k = Some x → parse_timestamp x = Ok t → o = Some t.
Proof.
  unfold optional_timestamp, has_key. intros Ho Hx Ht. rewrite Hx in Ho. inv_ok.
  apply getitem_get in Hx0. congruence.
Qed.

Lemma optional_timestamp_none d k o :
  optional_timestamp d k = Ok o → get d k = None → o = None.
Proof. unfold optional_timestamp, has_key. intros Ho Hx. rewrite Hx in Ho. by inv_ok. Qed.

Lemma optional_timestamp_cases d k o :
  optional_timestamp d k = Ok o →
  (o = None ∧ get_not_none d k = None) ∨
  (∃ t x, o = Some t ∧ get_not_none d k = Some x ∧ parse_timestamp x = Ok t).
Proof.
  unfold optional_timestamp, has_key, get_not_none. intros Ho.
  destruct (get d k) as [x|] eqn:E; [right|left; by inv_ok].
  inv_ok. apply getitem_get in Hx. simplify_eq. eexists _, x. destruct x; done.
Qed.

Lemma parse_timestamp_str s t : parse_timestamp (PStr s) = Ok t ↔ rfc3339_value s = Some t.
Proof.
  unfold parse_timestamp. rewrite map_raise_Ok_iff. cbn. destruct (rfc3339_value s); naive_solver.
Qed.

(** [now_before] saw a recorded time that is not later than [now]. *)
Lemma now_before_false now n d k o :
  rfc3339_value now = Some n → optional_timestamp d k = Ok o → now_before now d k = Ok false →
  ∃ t, o = Some t ∧ 0 ≤ timestamp_order n t.
Proof.
  unfold now_before. intros Hn Ho Hb. inv_ok.
  apply parse_timestamp_str in Hx. same_call. apply getitem_get in Hx0.
  eexists. split; [by eapply optional_timestamp_get|]. by refl_bool.
Qed.

Lemma not_before_optional now n d k o :
  rfc3339_value now = Some n → optional_timestamp d k = Ok o →
  (Ok (has_key d k) <&&> now_before now d k) = Ok false → not_before n o.
Proof.
  intros Hn Ho Hb. apply andM_false_iff in Hb as [Hk|[_ Hb]].
  - inv_ok. unfold optional_timestamp in Ho. rewrite Hk in Ho. by inv_ok.
  - by destruct (now_before_false now n d k o) as (t & -> & ?).
Qed.

Lemma same_instant_true a b s t :
  same_instant a b = Ok true → parse_timestamp a = Ok s → parse_timestamp b = Ok t →
  timestamp_order s t = 0.
Proof. unfold same_instant. intros Hs Ha Hb. inv_ok. same_call. by refl_bool. Qed.

Lemma field_differs_false a b k :
  field_differs a b k = Ok false →
  ∃ x y, get a k = Some x ∧ get b k = Some y ∧ py_eqb x y = true.
Proof.
  unfold field_differs. intros Hd. inv_ok.
  apply getitem_get in Hx, Hx0. eauto.
Qed.

Lemma views_attempts_eq c p v w :
  views c v → views p w → field_differs p c "attemptCount" = Ok false →
  v_attempts w = v_attempts v.
Proof.
  intros Vc Vp (x & y & Hx & Hy & E)%field_differs_false.
  destruct (proj1 (get_int_Ok _ _ _) (views_attempts _ _ Vp)) as (x' & Hx' & ?).
  destruct (proj1 (get_int_Ok _ _ _) (views_attempts _ _ Vc)) as (y' & Hy' & ?).
  same_call. by eapply py_eqb_int.
Qed.

Lemma views_manual_eq c p v w :
  views c v → views p w → field_differs p c "deliveryDisposition" = Ok false →
  v_manual w = v_manual v.
Proof.
  intros Vc Vp (x & y & Hx & Hy & E)%field_differs_false.
  destruct (views_manual _ _ Vp) as (x' & Hx' & ->).
  destruct (views_manual _ _ Vc) as (y' & Hy' & ->).
  same_call. by apply py_eqb_lit.
Qed.

Lemma same_instant_now x now b :
  same_instant x (PStr now) = Ok b → ∃ n, rfc3339_value now = Some n.
Proof.
  unfold same_instant. intros Hs. inv_ok. eexists. by apply parse_timestamp_str.
Qed.

(** An unchanged attempt history, in the views. *)
Lemma same_attempt_history_views c p v w :
  views c v → views p w → same_attempt_history c p = Ok true → same_history v w.
Proof.
  intros Vc Vp Hs. unfold same_attempt_history in Hs. inv_ok. constructor.
  - by eapply views_attempts_eq.
  - pose proof (views_last _ _ Vc) as Lc. pose proof (views_last _ _ Vp) as Lp.
    destruct (optional_timestamp_cases _ _ _ Lc) as [[-> Ec]|(s & x & -> & Ec & Hs)];
      destruct (optional_timestamp_cases _ _ _ Lp) as [[-> Ep]|(t & y & -> & Ep & Ht)];
      rewrite Ec, Ep in Hx; try done.
    by eapply same_instant_true.
  - by eapply views_manual_eq.
Qed.

(** The next attempt is the successor of the current one. *)
Lemma next_attempt_views c p v w :
  views c v → views p w → not_next_attempt c p = Ok false → v_attempts w = v_attempts v + 1.
Proof.
  intros Vc Vp Hn. unfold not_next_attempt in Hn. inv_ok. apply getitem_get in Hx.
  destruct (proj1 (get_int_Ok _ _ _) (views_attempts _ _ Vp)) as (x' & Hx' & ?).
  pose proof (views_attempts _ _ Vc). same_call. by eapply py_eqb_int.
Qed.

Lemma attempts_reach_views d v k b m :
  views d v → (∃ p, get d "deliveryPolicy" = Some p ∧ get_int p k = Ok m) →
  attempts_reach d k = Ok b → b = (m <=? v_attempts v).
Proof.
  intros V (p & Hp & Hm) Hb. unfold attempts_reach in Hb. inv_ok. apply getitem_get in Hx0.
  pose proof (views_attempts _ _ V). by same_call.
Qed.

(** A retry policy the schema of the record allows. *)
Record retry_policy (policy : pyval) (base maximum max_attempts max_total : Z) : Prop := {
  policy_base : get policy "baseDelaySeconds" = Some (PInt base);
  policy_maximum : get policy "maxDelaySeconds" = Some (PInt maximum);
  policy_attempts : get policy "maxAttempts" = Some (PInt max_attempts);
  policy_total : get policy "maxTotalAttempts" = Some (PInt max_total);
  policy_delays : 1 ≤ base ≤ maximum ∧ base ≤ 3600 ∧ maximum ≤ 86400;
  policy_bounds : 1 ≤ max_attempts ≤ max_total ∧ max_total ≤ 100;
}.

Lemma strict_int_Some v z : strict_int v = Some z ↔ v = PInt z.
Proof. destruct v; naive_solver. Qed.

(** Capping the exponent at 63 does not change the delay: the maximum is
    reached long before. *)
Lemma capped_delay base maximum k :
  1 ≤ k → 1 ≤ base → maximum ≤ 86400 →
  Z.min (base * 2 ^ Z.min (k - 1) 63) maximum = Z.min (base * 2 ^ (k - 1)) maximum.
Proof.
  intros Hk Hb Hm. destruct (Z.le_gt_cases (k - 1) 63) as [Hle|Hgt].
  - by rewrite (Z.min_l (k - 1)).
  - rewrite (Z.min_r (k - 1)) by lia.
    assert (2 ^ 63 < 2 ^ (k - 1)) by (apply Z.pow_lt_mono_r; lia).
    assert (86400 < 2 ^ 63) by (vm_compute; reflexivity). rewrite !Z.min_r by nia. done.
Qed.

Lemma retry_delay_spec n policy delay :
  retry_delay_seconds n policy = Ok delay ↔
  ∃ k base maximum max_attempts max_total,
    n = PInt k ∧ retry_policy policy base maximum max_attempts max_total ∧
    1 ≤ k ≤ max_total ∧ delay = Z.min (base * 2 ^ (k - 1)) maximum.
Proof.
  split.
  - unfold retry_delay_seconds. intros Hd. destruct (strict_int n) as [k|] eqn:En; [|done].
    destruct (get policy "baseDelaySeconds") as [b|] eqn:Eb; [|by inv_ok].
    destruct (get policy "maxDelaySeconds") as [m|] eqn:Em; [|by inv_ok].
    destruct (get policy "maxAttempts") as [a|] eqn:Ea; [|by inv_ok].
    destruct (get policy "maxTotalAttempts") as [t|] eqn:Et; [|by inv_ok].
    destruct (strict_int b) as [base|] eqn:Sb; [|by inv_ok].
    destruct (strict_int m) as [maximum|] eqn:Sm; [|by inv_ok].
    destruct (strict_int a) as [ma|] eqn:Sa; [|by inv_ok].
    destruct (strict_int t) as [mt|] eqn:St; [|by inv_ok].
    rewrite strict_int_Some in *. subst. inv_ok. refl_bool.
    exists k, base, maximum, ma, mt. rewrite capped_delay by lia.
    split_and!; [done|constructor; lia || done|lia..].
  - intros (k & b & m & a & t & -> & [Eb Em Ea Et [[??][??]] [[??]?]] & ? & ->).
    unfold retry_delay_seconds. rewrite Eb, Em, Ea, Et. cbn [strict_int].
    rewrite <-capped_delay by lia.
    repeat match goal with |- context [?x <? ?y] =>
      rewrite (proj2 (Z.ltb_ge x y)) by lia end. done.
Qed.

Lemma retry_delay_bounds n policy delay :
  retry_delay_seconds n policy = Ok delay → 1 ≤ delay ≤ 86400.
Proof.
  intros (k & b & m & a & t & -> & [_ _ _ _ ??] & ? & ->)%retry_delay_spec.
  assert (0 < 2 ^ (k - 1)) by (apply Z.pow_pos_nonneg; lia). nia.
Qed.

Lemma next_attempt_at_value now t n policy e :
  rfc3339_value now = Some t → next_attempt_at now n policy = Ok e →
  ∃ delay, retry_delay_seconds n policy = Ok delay ∧ rfc3339_value e = Some (t.1 + delay, t.2).
Proof.
  intros Ht Hn. unfold next_attempt_at, validated_retry_policy in Hn. inv_ok.
  destruct t. eexists. split; [eassumption|]. by eapply add_seconds_value.
Qed.

Lemma views_automatic d v x :
  views d v → get d "deliveryDisposition" = Some x → eq_lit x "automatic" = true →
  v_manual v = false.
Proof.
  intros V Hx ->%eq_lit_iff. destruct (views_manual _ _ V) as (y & Hy & ->). same_call. done.
Qed.

Lemma views_is_manual d v x b :
  views d v → get d "deliveryDisposition" = Some x → eq_lit x "manual_intervention" = b →
  v_manual v = b.
Proof. intros V Hx Hm. destruct (views_manual _ _ V) as (y & Hy & ->). by same_call. Qed.

Lemma views_last_now d v x now n :
  views d v → rfc3339_value now = Some n → get d "lastAttemptAt" = Some x →
  same_instant x (PStr now) = Ok true → same_time (v_last v) (Some n).
Proof.
  intros V Hn Hx Hs. pose proof Hs as Hs'. unfold same_instant in Hs'. inv_ok.
  apply parse_timestamp_str in Hx1. same_call.
  rewrite (optional_timestamp_get _ _ _ _ _ (views_last _ _ V) Hx Hx0). by refl_bool.
Qed.

Lemma views_state_is d v x : views d v → get d "state" = Some x → x = PStr (u (rstate_name (v_state v))).
Proof. intros V Hx. pose proof (views_state _ _ V). by same_call. Qed.

Lemma views_not_before d v now n :
  views d v → rfc3339_value now = Some n → now_before now d "lastAttemptAt" = Ok false →
  not_before n (v_last v).
Proof.
  intros V Hn Hb.
  by destruct (now_before_false _ _ _ _ _ Hn (views_last _ _ V) Hb) as (t & -> & ?).
Qed.

Lemma attempts_below d v :
  views d v → attempts_reach d "maxAttempts" = Ok false → v_attempts v < v_max v.
Proof.
  intros V Hb. pose proof (attempts_reach_views d v _ _ _ V (views_max _ _ V) Hb). refl_bool.
  by apply Z.leb_gt.
Qed.

(** ** Each transition refines an abstract step *)
Ltac open_transition := inv_ok;
  repeat match goal with H : getitem _ _ = Ok _ |- _ => apply getitem_get in H end.

Lemma send_step c p v w now n :
  views c v → views p w → rfc3339_value now = Some n →
  (v_state v = Pending ∨ v_state v = RetryWait) → v_state w = Sending →
  validate_send_transition c p now = Ok () → rstep n v w.
Proof.
  intros Vc Vp Hn Hs Hs' Hv. unfold validate_send_transition in Hv. open_transition.
  apply step_send; eauto using views_automatic, attempts_below, next_attempt_views,
    views_last_now, not_before_optional, views_last.
  intros Hw. rewrite (views_state_is c v x5), Hw in Hx6 by done.
  apply andM_false_iff in Hx6 as [?|[_ Hb]]; [done|].
  by apply (now_before_false _ _ _ _ _ Hn (views_next _ _ Vc)).
Qed.

Lemma require_same_history c p v w :
  views c v → views p w → require_same_attempt_history c p = Ok () → same_history v w.
Proof.
  intros Vc Vp Hv. unfold require_same_attempt_history in Hv. inv_ok.
  by eapply same_attempt_history_views.
Qed.

(** The delay of a record in terms of its view. *)
Lemma views_delay d v x policy delay :
  views d v → get d "attemptCount" = Some x → get d "deliveryPolicy" = Some policy →
  retry_delay_seconds x policy = Ok delay →
  1 ≤ v_attempts v ∧ delay = Z.min (v_base v * 2 ^ (v_attempts v - 1)) (v_cap v).
Proof.
  intros V Hx Hp (k & b & m & a & t & -> & P & ? & ->)%retry_delay_spec.
  destruct (views_base _ _ V) as (p & Hp' & (y & Hy & ?)%get_int_Ok). same_call.
  destruct (views_cap _ _ V) as (p2 & Hp2 & (z & Hz & ?)%get_int_Ok). same_call.
  destruct (proj1 (get_int_Ok _ _ _) (views_attempts _ _ V)) as (x' & Hx' & E). same_call.
  rewrite (policy_base _ _ _ _ _ P) in Hy. rewrite (policy_maximum _ _ _ _ _ P) in Hz.
  simplify_eq/=. lia.
Qed.

Lemma retry_step c p v w now n :
  views c v → views p w → rfc3339_value now = Some n →
  v_state v = Sending → v_state w = RetryWait →
  validate_retry_transition c p now = Ok () → rstep n v w.
Proof.
  intros Vc Vp Hn Hs Hs' Hv. unfold validate_retry_transition in Hv. open_transition.
  destruct (next_attempt_at_value _ _ _ _ _ Hn Hx6) as (delay & Hd & He).
  destruct (views_delay _ _ _ _ _ Vc Hx4 Hx5 Hd) as [? ->].
  apply parse_timestamp_str in He. pose proof Hx8 as Hx8'. unfold same_instant in Hx8'. inv_ok.
  eapply step_retry; eauto using require_same_history, attempts_below, views_not_before.
  - by eapply optional_timestamp_get; [apply (views_next _ _ Vp)|..].
  - same_call. by refl_bool.
Qed.

Lemma exhaust_step c p v w now n :
  views c v → views p w → rfc3339_value now = Some n →
  v_state v = Sending → v_state w = Pending →
  validate_exhaustion_transition c p now = Ok () → rstep n v w.
Proof.
  intros Vc Vp Hn Hs Hs' Hv. unfold validate_exhaustion_transition in Hv. open_transition.
  eapply step_exhaust; eauto using views_attempts_eq, views_is_manual, views_not_before.
  - pose proof (attempts_reach_views _ _ _ _ _ Vc (views_max _ _ Vc) Hx) as E. symmetry in E.
    by refl_bool.
  - pose proof Hx8 as Hi. unfold same_instant in Hi. inv_ok.
    rewrite (optional_timestamp_get _ _ _ _ _ (views_last _ _ Vp) Hx6 Hx5).
    rewrite (optional_timestamp_get _ _ _ _ _ (views_last _ _ Vc) Hx7 Hx9). by refl_bool.
Qed.

(** The states between which an edge leads, and the check it makes. *)
Inductive edge_check (c p : pyval) (now : pystr) (receipt : option AuthenticatedServerReceipt)
    (part : RecordPartition) : rstate → rstate → Prop :=
| edge_send s : (s = Pending ∨ s = RetryWait) →
    validate_send_transition c p now = Ok () → edge_check c p now receipt part s Sending
| edge_retry :
    validate_retry_transition c p now = Ok () → edge_check c p now receipt part Sending RetryWait
| edge_exhaust :
    validate_exhaustion_transition c p now = Ok () → edge_check c p now receipt part Sending Pending
| edge_release :
    now_before now c "lastAttemptAt" = Ok false → require_same_attempt_history c p = Ok () →
    edge_check c p now receipt part Sending Pending
| edge_acknowledge :
    validate_acknowledgement_transition c p now receipt part = Ok () →
    edge_check c p now receipt part Sending Acknowledged
| edge_discard :
    validate_discard_transition c p now = Ok () → edge_check c p now receipt part Pending Discarded.

Ltac next_case H E :=
  match type of H with (if ?b then _ else _) = _ => destruct b eqn:E end.

Lemma validate_edge_check c p now receipt part :
  validate_edge c p now receipt part = Ok () →
  ∃ s s', get c "state" = Some (PStr (u (rstate_name s))) ∧
    get p "state" = Some (PStr (u (rstate_name s'))) ∧ edge_check c p now receipt part s s'.
Proof.
  unfold validate_edge. intros Hv.
  apply bind_Ok_iff in Hv as (from & Hf & Hv). apply bind_Ok_iff in Hv as (to & Ht & Hv).
  apply getitem_get in Hf, Ht.
  next_case Hv E1.
  { apply andb_true_iff in E1 as [E1 E0]. apply eq_lit_iff in E0.
    apply orb_true_iff in E1. destruct E1 as [E1|E1]; apply eq_lit_iff in E1; subst;
      [exists Pending, Sending|exists RetryWait, Sending];
      (split_and!; [done|done|apply edge_send; auto]). }
  next_case Hv E2.
  { apply andb_true_iff in E2 as [Ef Et]. apply eq_lit_iff in Ef, Et. subst. exists Sending, RetryWait.
    split_and!; [done|done|by apply edge_retry]. }
  next_case Hv E3.
  { apply andb_true_iff in E3 as [Ef Et]. apply eq_lit_iff in Ef, Et. subst. exists Sending, Pending.
    split_and!; [done|done|]. inv_ok. destruct (eq_lit x _); inv_ok; [by apply edge_exhaust|].
    by apply edge_release. }
  next_case Hv E4.
  { apply andb_true_iff in E4 as [Ef Et]. apply eq_lit_iff in Ef, Et. subst. exists Sending, Acknowledged.
    split_and!; [done|done|by apply edge_acknowledge]. }
  next_case Hv E5; [|done].
  apply andb_true_iff in E5 as [Ef Et]. apply eq_lit_iff in Ef, Et. subst. exists Pending, Discarded.
  split_and!; [done|done|by apply edge_discard].
Qed.

Lemma edge_step c p v w now n receipt part :
  views c v → views p w → rfc3339_value now = Some n →
  edge_check c p now receipt part (v_state v) (v_state w) → rstep n v w.
Proof.
  intros Vc Vp Hn He. inversion He as [? Hs Hv E|Hv E|Hv E|Hb Hh E|Hv E|Hv E]; subst.
  - eapply send_step; eauto.
  - eapply retry_step; eauto.
  - eapply exhaust_step; eauto.
  - apply step_release; eauto using require_same_history, views_not_before.
  - unfold validate_acknowledgement_transition in Hv. destruct receipt; [|done]. inv_ok.
    apply step_acknowledge; eauto using require_same_history.
  - unfold validate_discard_transition in Hv. inv_ok.
    apply step_discard; eauto using require_same_history.
Qed.

(** ** The policy is part of the evidence, so a transition cannot change it *)
Definition same_policy (v w : rview) : Prop :=
  v_base w = v_base v ∧ v_cap w = v_cap v ∧ v_max w = v_max v ∧ v_total w = v_total v.

(** Two different evidence bodies with the same digest. *)
Definition evidence_collision (c p : pyval) : Prop :=
  hash_collision (evidence_body c) (evidence_body p).

Lemma body_hash_Ok d h :
  body_hash_unchecked d = Ok h → canonical_hash (evidence_body d) = Ok h.
Proof. unfold body_hash_unchecked. by rewrite map_raise_Ok_iff. Qed.

Lemma same_evidence_agree c p :
  require_same_evidence c p = Ok () →
  json_agree normalize (evidence_body c) (evidence_body p) ∨ evidence_collision c p.
Proof.
  unfold require_same_evidence. intros Hv. inv_ok.
  match goal with H : str_eqb _ _ = true |- _ => apply str_eqb_eq in H end. subst.
  eapply canonical_hash_agree; by apply body_hash_Ok.
Qed.
Lemma evidence_body_get d k : k ∈ IMMUTABLE_EVIDENCE_FIELDS → get (evidence_body d) k = get d k.
Proof.
  intros Hk. unfold evidence_body. cbn [get]. apply assoc_omap_fields; [done|].
  apply (bool_decide_unpack _). vm_compute. exact I.
Qed.

(** Agreement of the evidence fixes an integer of the policy. *)
Lemma same_evidence_policy c p k m m' :
  json_agree normalize (evidence_body c) (evidence_body p) →
  (∃ x, get c "deliveryPolicy" = Some x ∧ get_int x k = Ok m) →
  (∃ y, get p "deliveryPolicy" = Some y ∧ get_int y k = Ok m') → m' = m.
Proof.
  intros Ha (x & Hx & Hm) (y & Hy & Hm').
  assert ("deliveryPolicy" ∈ IMMUTABLE_EVIDENCE_FIELDS)
    by (apply (bool_decide_unpack _); vm_compute; exact I).
  rewrite <-evidence_body_get in Hx, Hy by done.
  symmetry. eapply json_agree_get_int; [eapply json_agree_get|..]; eauto.
Qed.

Lemma same_evidence_views c p v w :
  views c v → views p w → require_same_evidence c p = Ok () →
  same_policy v w ∨ evidence_collision c p.
Proof.
  intros Vc Vp [Ha|]%same_evidence_agree; [left|by right].
  split_and!; eapply same_evidence_policy; eauto using views_base, views_cap, views_max, views_total.
Qed.

(** ** Accepted transitions *)

(** Everything that was checked when a transition is applied. *)
Record applied_facts c p digest now ctx receipt (n : timestamp) (part : RecordPartition) : Prop := {
  applied_current : validate_reconciliation_document c = Ok ();
  applied_proposed : validate_reconciliation_document p = Ok ();
  applied_digest : require_digest digest c = Ok ();
  applied_now : rfc3339_value now = Some n;
  applied_partition : record_partition c ctx = Ok part;
  applied_authority : is_Ok (require_discard_authority c p ctx) = true ∨
    is_Ok (require_owner_context c ctx) = true;
  applied_evidence : require_same_evidence c p = Ok ();
  applied_edge : validate_edge c p now receipt part = Ok ();
}.

Lemma transition_applied c p digest now ctx receipt :
  validate_reconciliation_transition c p digest now ctx receipt = Ok Applied →
  ∃ n part, applied_facts c p digest now ctx receipt n part.
Proof.
  unfold validate_reconciliation_transition.
  intros ([] & Hc & Hv)%bind_Ok_iff. apply bind_Ok_iff in Hv as (part & Hpart & Hv).
  apply bind_Ok_iff in Hv as (state & Hs & Hv).
  destruct (is_terminal_state state); [inv_ok; by destruct (py_eqb c p)|].
  apply bind_Ok_iff in Hv as ([] & Hp & Hv). apply bind_Ok_iff in Hv as (disc & Hd & Hv).
  apply bind_Ok_iff in Hv as (auth & Ha & Hv). apply bind_Ok_iff in Hv as ([] & Hg & Hv).
  destruct (py_eqb c p); [done|]. apply bind_Ok_iff in Hv as (n & Hn & Hv).
  apply bind_Ok_iff in Hv as ([] & He & Hv). apply bind_Ok_iff in Hv as ([] & Hedge & _).
  apply parse_timestamp_str in Hn. exists n, part. constructor; try done.
  destruct disc; [left|right]; by rewrite Ha.
Qed.

Lemma transition_idempotent c p digest now ctx receipt :
  validate_reconciliation_transition c p digest now ctx receipt = Ok Idempotent →
  py_eqb c p = true.
Proof.
  unfold validate_reconciliation_transition. intros Hv. inv_ok.
  destruct (is_terminal_state _); inv_ok; destruct (py_eqb c p); inv_ok; done.
Qed.

Lemma transition_refines c p digest now ctx receipt n part :
  applied_facts c p digest now ctx receipt n part →
  ∃ v w, views c v ∧ views p w ∧ rview_wf v ∧ rview_wf w ∧
    rstep n v w ∧ (same_policy v w ∨ evidence_collision c p).
Proof.
  intros [Hc Hp _ Hn _ _ Hev He].
  destruct (validate_edge_check _ _ _ _ _ He) as (s & s' & Hs & Hs' & Hedge).
  destruct (validated_view c s) as (v & Vc & <- & Wv); [done..|].
  destruct (validated_view p s') as (w & Vp & <- & Ww); [done..|].
  exists v, w. split_and!; eauto using edge_step, same_evidence_views.
Qed.

Lemma manual_retry_refines c p digest now ctx :
  validate_manual_retry_transition c p digest now ctx = Ok Applied →
  ∃ n v w, rfc3339_value now = Some n ∧ views c v ∧ views p w ∧ rview_wf v ∧ rview_wf w ∧
    rstep n v w ∧ (same_policy v w ∨ evidence_collision c p).
Proof.
  unfold validate_manual_retry_transition. intros Hv. open_transition.
  apply eq_lit_iff in Hx4, Hx10. subst.
  destruct (validated_view c Pending) as (v & Vc & Sv & Wv); [done..|].
  destruct (validated_view p Sending) as (w & Vp & Sw & Ww); [done..|].
  destruct (same_instant_now _ _ _ Hx19) as [n Hn].
  exists n, v, w. split_and!; eauto using same_evidence_views.
  apply step_manual_send;
    eauto using views_is_manual, next_attempt_views, not_before_optional, views_last, views_last_now.
  pose proof (attempts_reach_views _ _ _ _ _ Vc (views_total _ _ Vc) Hx6) as E. symmetry in E.
  by refl_bool.
Qed.

(** A recovered record differs from the record it recovers. *)
Lemma recovered_differs c p :
  recovered_record c = Ok p → get c "state" = Some (PStr (u "sending")) → py_eqb c p = false.
Proof.
  intros Hp Hs. destruct (py_eqb c p) eqn:E; [|done].
  destruct (py_eqb_get _ _ _ _ E Hs) as (y & Hy & Heq). apply py_eqb_str_l in Heq. subst y.
  unfold recovered_record in Hp. inv_ok. assert (is_dict c = true) by (by destruct c).
  destruct x0; rewrite ?get_setitem_other, get_setitem_same in Hy by done; done.
Qed.

Lemma recover_inv c digest now ctx p :
  recover_after_restart c digest now ctx = Ok p →
  recovered_record c = Ok p ∧ get c "state" = Some (PStr (u "sending")) ∧
  validate_reconciliation_transition c p digest now ctx None = Ok Applied.
Proof.
  unfold recover_after_restart. intros Hr. inv_ok.
  match goal with H : eq_lit _ _ = true |- _ => apply eq_lit_iff in H; subst end.
  repeat match goal with H : getitem _ _ = Ok _ |- _ => apply getitem_get in H end.
  split_and!; [done..|]. destruct x5; [done|].
  apply transition_idempotent in Hx5. by rewrite (recovered_differs c p) in Hx5.
Qed.

(** ** Sequences of accepted transitions *)
Inductive accepted (c p : pyval) : Prop :=
| accept_transition digest now ctx receipt :
    validate_reconciliation_transition c p digest now ctx receipt = Ok Applied → accepted c p
| accept_manual_retry digest now ctx :
    validate_manual_retry_transition c p digest now ctx = Ok Applied → accepted c p
| accept_recovery digest now ctx :
    recover_after_restart c digest now ctx = Ok p → accepted c p.

Lemma accepted_refines c p :
  accepted c p → ∃ n v w, views c v ∧ views p w ∧ rview_wf v ∧ rview_wf w ∧
    rstep n v w ∧ (same_policy v w ∨ evidence_collision c p).
Proof.
  intros [digest now ctx receipt Ha|digest now ctx Ha|digest now ctx Ha].
  - apply transition_applied in Ha as (n & part & Ha%transition_refines). eauto.
  - apply manual_retry_refines in Ha as (n & v & w & ? & ?). eauto.
  - apply recover_inv in Ha as (_ & _ & Ha).
    apply transition_applied in Ha as (n & part & Ha%transition_refines). eauto.
Qed.

(** [sends d] is 1 for a record that is being sent. *)
Definition sends (d : pyval) : Z := if eq_lit (opt_val (get d "state")) "sending" then 1 else 0.

(** [delivers c ps]: the records [ps] follow [c], each accepted after the one
    before it. *)
Inductive delivers : pyval → list pyval → Prop :=
| delivers_nil c : delivers c []
| delivers_cons c p ps : accepted c p → delivers p ps → delivers c (p :: ps).

(** How many of the records are in state [sending]. *)
Definition sent (ps : list pyval) : Z := foldr (λ p n, sends p + n) 0 ps.

(** The record after the last transition. *)
Definition latest (c : pyval) (ps : list pyval) : pyval := default c (last ps).
Lemma latest_cons c p ps : latest c (p :: ps) = latest p ps.
Proof. unfold latest. rewrite last_cons. by destruct (last ps). Qed.

Lemma views_unique d v w : views d v → views d w → v = w.
Proof.
  intros [S1 A1 (m1 & M1 & N1) (b1 & B1 & B1') (c1 & C1 & C1') (x1 & X1 & X1') (t1 & T1 & T1') L1 K1]
         [S2 A2 (m2 & M2 & N2) (b2 & B2 & B2') (c2 & C2 & C2') (x2 & X2 & X2') (t2 & T2 & T2') L2 K2].
  destruct v as [s1 ? ? ? ? ? ? ? ?], w as [s2 ? ? ? ? ? ? ? ?]. cbn in *. simplify_eq.
  f_equal; try congruence. apply rstate_name_inj. congruence.
Qed.

Lemma sends_views d v : views d v → sends d = if decide (v_state v = Sending) then 1 else 0.
Proof.
  intros V. unfold sends. rewrite (views_state _ _ V).
  change (opt_val (Some ?x)) with x.
  change "sending" with (rstate_name Sending). rewrite eq_lit_state.
  case_bool_decide; by case_decide.
Qed.

(** A step counts exactly the records that are being sent. *)
Lemma rstep_attempts n v w :
  rstep n v w → v_attempts w = v_attempts v + if decide (v_state w = Sending) then 1 else 0.
Proof.
  destruct 1; match goal with H : v_state w = _ |- _ => rewrite H end;
    try match goal with H : same_history _ _ |- _ => destruct H end;
    first [rewrite decide_True by done | rewrite decide_False by done]; lia.
Qed.

(** C1: An accepted transition is a step of the delivery machine.  Whenever
    [validate_reconciliation_transition] answers "applied", the two records have
    well-formed views, the caller knew the digest of the current record and acted
    inside its tenant partition, the views are related by one of the steps of
    [rstep] (a send that is due and below the automatic limit, a retry scheduled
    exactly one backoff delay after [now], a release, an exhaustion, an
    acknowledgement or a discard), and the retry policy is unchanged unless two
    different evidence bodies collide under SHA-256. *)
Theorem transition_refines_step c p digest now ctx receipt :
  validate_reconciliation_transition c p digest now ctx receipt = Ok Applied →
  ∃ n v w part, rfc3339_value now = Some n ∧ views c v ∧ views p w ∧ rview_wf v ∧ rview_wf w ∧
    rstep n v w ∧ record_partition c ctx = Ok part ∧
    reconciliation_state_digest c = Ok digest ∧
    (same_policy v w ∨ evidence_collision c p).
Proof.
  intros (n & part & Ha)%transition_applied.
  destruct (transition_refines _ _ _ _ _ _ _ _ Ha) as (v & w & ? & ? & ? & ? & ? & ?).
  destruct Ha. unfold require_digest in *. inv_ok.
  match goal with H : str_eqb _ _ = true |- _ => apply str_eqb_eq in H; subst end.
  exists n, v, w, part. auto 10.
Qed.

(** C19: At-least-once delivery is bounded.  Along every sequence of accepted
    transitions (automatic ones, manual retries and recoveries after a restart,
    in any order and interleaving) the attempt counter counts exactly the records
    that were being sent, and it never exceeds the total the policy of the first
    record allows; the only way out is a SHA-256 collision between the evidence
    bodies of two consecutive records of the sequence. *)
Theorem delivery_bounded c ps v :
  delivers c ps → views c v → rview_wf v →
  (∃ w, views (latest c ps) w ∧ rview_wf w ∧ same_policy v w ∧
        v_attempts w = v_attempts v + sent ps ∧ v_attempts v + sent ps ≤ v_total v) ∨
  (∃ i x y, (c :: ps) !! i = Some x ∧ (c :: ps) !! S i = Some y ∧ evidence_collision x y).
Proof.
  intros Hd. revert v. induction Hd as [c|c p ps Ha Hd IH]; intros v Vc Wv.
  { left. exists v. unfold same_policy. pose proof (wf_total _ Wv). cbn. split_and!; try done; lia. }
  destruct (accepted_refines _ _ Ha) as (n & v' & w & Vc' & Vp & _ & Ww & Hs & [Hp|]);
    [|right; by exists 0%nat, c, p].
  rewrite (views_unique _ _ _ Vc' Vc) in *. clear Vc' v'.
  destruct (IH w Vp Ww) as [(z & Vz & Wz & Hz & Ez & Hle)|(i & x & y & ? & ? & ?)];
    [left|right; by exists (S i), x, y].
  exists z. rewrite latest_cons. cbn [sent foldr]. fold (sent ps).
  rewrite (sends_views _ _ Vp). pose proof (rstep_attempts _ _ _ Hs).
  unfold same_policy in *. destruct Hp as (?&?&?&?), Hz as (?&?&?&?).
  split_and!; try done; congruence || lia.
Qed.

(** Terminal records are final: no transition, manual retry or recovery is
    ever accepted from an acknowledged or discarded record. *)
Theorem terminal_absorbing c p s :
  is_terminal_state s = true → get c "state" = Some s → ~ accepted c p.
Proof.
  intros Ht Hs (n & v & w & Vc & _ & _ & _ & Hstep & _)%accepted_refines.
  rewrite (views_state_is _ _ _ Vc Hs) in Ht. unfold is_terminal_state in Ht.
  change "acknowledged" with (rstate_name Acknowledged) in Ht.
  change "discarded" with (rstate_name Discarded) in Ht. rewrite !eq_lit_state in Ht.
  destruct Hstep as [[E|E]|E|? E|E|E|E|E]; rewrite E in Ht; done.
Qed.
End delivery.

(** ** Ordered batches

    The contract of [ordered_batch_resume]: the records it returns are the
    maximal due run of the batch that starts at the checkpoint. *)

(** What a record of a batch may be. *)

(** Already delivered, and known to the checkpoint. *)
Definition completed (checkpoint : TrustedBatchCheckpoint) (r : pyval) : Prop :=
  get r "state" = Some (PStr (u "acknowledged")) ∧
  ∃ s rid, get_int r "batchSequence" = Ok s ∧ s < expected_next_sequence checkpoint ∧
    get r "reconciliationId" = Some (PStr rid) ∧ completed_prefix checkpoint !! s = Some rid.

(** The first timestamp is earlier than the scheduled attempt of the record. *)
Definition waits (now : timestamp) (r : pyval) : Prop :=
  get r "state" = Some (PStr (u "retry_wait")) ∧
  ∃ n t, get r "nextAttemptAt" = Some n ∧ parse_timestamp n = Ok t ∧ timestamp_order now t < 0.

(** Not terminal, but delivery has to stop here. *)
Definition blocked (now : timestamp) (r : pyval) : Prop :=
  get r "deliveryDisposition" = Some (PStr (u "manual_intervention")) ∨
  get r "state" = Some (PStr (u "sending")) ∨ waits now r.

Definition terminal (r : pyval) : Prop :=
  ∃ s, get r "state" = Some s ∧ is_terminal_state s = true.

Definition deliverable (now : timestamp) (r : pyval) : Prop := ¬ terminal r ∧ ¬ blocked now r.

(** The run [mid] of due records between the completed and the remaining ones. *)
Record due_run (now : timestamp) (checkpoint : TrustedBatchCheckpoint) (seen : bool)
    (pre mid post : list pyval) : Prop := {
  run_pre : Forall (completed checkpoint) pre;
  run_seen : seen = true → pre = [];
  run_mid : Forall (deliverable now) mid;
  run_first : seen = false → ∀ r, head (mid ++ post) = Some r →
    get_int r "batchSequence" = Ok (expected_next_sequence checkpoint);
  run_stop : ∀ r, head post = Some r → ¬ terminal r ∧ blocked now r;
}.

Section batch.
Context `{Canonicalizer, SchemaValidator}.

(** A record with an owner has a string as its identifier. *)
Definition identified (r : pyval) : Prop := ∃ rid, get r "reconciliationId" = Some (PStr rid).

Lemma owner_identified r ctx part : require_owner_context r ctx = Ok part → identified r.
Proof.
  unfold require_owner_context, record_partition. intros Ho. destruct ctx; [|done]. inv_ok.
  apply getitem_get in Hx1. destruct x1; [|done].
  destruct x; try done. eexists; eauto.
Qed.

Lemma completed_spec cp r state :
  identified r → getitem r "state" = Ok state → eq_lit state "acknowledged" = true →
  (s ← get_int r "batchSequence"; Ok (expected_next_sequence cp <=? s)) = Ok false →
  (s ← get_int r "batchSequence"; rid ← getitem r "reconciliationId";
   Ok (negb (py_eqb (from_option PStr PNone (completed_prefix cp !! s)) rid))) = Ok false →
  completed cp r.
Proof.
  intros [rid Hrid] Hs ->%eq_lit_iff Hlt Hid. inv_ok.
  repeat match goal with H : getitem _ _ = Ok _ |- _ => apply getitem_get in H end.
  same_call. split; [done|]. refl_bool. apply py_eqb_str in Hid.
  destruct (completed_prefix cp !! _) as [rid'|] eqn:E; [|done]. naive_solver.
Qed.

Lemma not_terminal r state :
  getitem r "state" = Ok state → is_terminal_state state = false → ¬ terminal r.
Proof. intros Hs%getitem_get Hn (s & Hs' & Ht). congruence. Qed.

(** Reading a literal where the test against it failed. *)
Lemma get_not_lit r k x s :
  getitem r k = Ok x → eq_lit x s = false → get r k ≠ Some (PStr (u s)).
Proof.
  intros Hk%getitem_get Hx Hk'. rewrite Hk in Hk'. injection Hk' as ->.
  by rewrite (proj2 (eq_lit_iff _ _) eq_refl) in Hx.
Qed.

Lemma waits_spec now r state b :
  getitem r "state" = Ok state →
  (Ok (eq_lit state "retry_wait")
   <&&> (n ← getitem r "nextAttemptAt"; t ← parse_timestamp n;
         Ok (timestamp_order now t <? 0))) = Ok b →
  if b then waits now r else ¬ waits now r.
Proof.
  intros Hs Hw. destruct b.
  - inv_ok. refl_bool. apply eq_lit_iff in Hw. subst. apply getitem_get in Hs, Hx.
    split; [done|]. eauto.
  - apply andM_false_iff in Hw as [Hw|[_ Hw]].
    + injection Hw as Hw. intros [Hs' _]. by eapply get_not_lit.
    + inv_ok. refl_bool. apply getitem_get in Hx. intros (_ & n & t & Hn & Ht & ?).
      same_call. lia.
Qed.

(** Delivery stops at the first record. *)
Lemma due_run_stop now cp seen r records :
  (seen = false → get_int r "batchSequence" = Ok (expected_next_sequence cp)) →
  ¬ terminal r → blocked now r → due_run now cp seen [] [] (r :: records).
Proof. intros. constructor; [done..| |]; intros; simplify_eq/=; auto. Qed.

(** The first record is due, and so is the run after it. *)
Lemma due_run_take now cp seen r mid post :
  (seen = false → get_int r "batchSequence" = Ok (expected_next_sequence cp)) →
  deliverable now r → due_run now cp true [] mid post → due_run now cp seen [] (r :: mid) post.
Proof. intros ? ? []. constructor; auto. intros; simplify_eq/=; auto. Qed.

Lemma select_due_spec now limit cp records : ∀ seen selected res,
  Forall identified records →
  Z.of_nat (length selected) + Z.of_nat (length records) ≤ limit →
  select_due records now limit cp seen selected = Ok res →
  ∃ pre mid post, records = pre ++ mid ++ post ∧ res = selected ++ mid ∧
    due_run now cp seen pre mid post.
Proof.
  induction records as [|r records IH]; intros seen selected res Hid Hlen Hsel;
    cbn [select_due] in Hsel.
  { inv_ok. exists [], [], []. split_and!; [done|by rewrite app_nil_r|by constructor]. }
  apply Forall_cons in Hid as [Hr Hid]. cbn [length] in Hlen.
  apply bind_Ok_iff in Hsel as (state & Hstate & Hsel).
  destruct (is_terminal_state state) eqn:Et.
  - apply bind_Ok_iff in Hsel as (mismatch & Hm & Hsel).
    apply bind_Ok_iff in Hsel as (? & ->%raise_if_Ok_iff & Hsel).
    apply orM_false_iff in Hm as [[Hseen Hlt]%orM_false_iff Hrid].
    injection Hseen as Hseen. apply orb_false_iff in Hseen as [-> Hack%negb_false_iff].
    assert (completed cp r) as Hc by (by eapply completed_spec).
    destruct (IH false selected res Hid) as (pre & mid & post & -> & -> & [? ? ? ? ?]); [lia|done|].
    exists (r :: pre), mid, post. split_and!; [done..|]. constructor; auto; done.
  - apply bind_Ok_iff in Hsel as (gap & Hgap & Hsel).
    apply bind_Ok_iff in Hsel as (? & ->%raise_if_Ok_iff & Hsel).
    apply bind_Ok_iff in Hsel as (disp & Hdisp & Hsel).
    assert (Hfirst : seen = false → get_int r "batchSequence" = Ok (expected_next_sequence cp)).
    { intros ->. apply andM_false_iff in Hgap as [?|[_ Hs]]; [done|]. inv_ok. refl_bool. by subst. }
    pose proof (not_terminal _ _ Hstate Et) as Hnt.
    assert (Hstop : blocked now r → (Ok selected : py _) = Ok res → ∃ pre mid post,
      r :: records = pre ++ mid ++ post ∧ res = selected ++ mid ∧ due_run now cp seen pre mid post).
    { intros Hb [= ->]. exists [], [], (r :: records).
      split_and!; [done|by rewrite app_nil_r|by apply due_run_stop]. }
    destruct (eq_lit disp "manual_intervention") eqn:Em.
    { apply Hstop; [|done]. left. apply eq_lit_iff in Em. subst. by apply getitem_get. }
    destruct (eq_lit state "sending") eqn:Es.
    { apply Hstop; [|done]. right; left. apply eq_lit_iff in Es. subst. by apply getitem_get. }
    apply bind_Ok_iff in Hsel as (wait & Hwait%waits_spec & Hsel); [|done].
    destruct wait; [by apply Hstop; [do 2 right|]|].
    assert (deliverable now r) as Hdel.
    { split; [done|]. intros [?|[?|?]]; [by eapply get_not_lit in Em|by eapply get_not_lit in Es|done]. }
    destruct (_ =? limit) eqn:El.
    + inv_ok. refl_bool. rewrite length_app in El. cbn in El.
      assert (records = []) as -> by (apply length_zero_iff_nil; lia).
      exists [], [r], []. split_and!; [done..|]. apply due_run_take; [done..|by constructor].
    + destruct (IH true (selected ++ [r]) res Hid) as (pre & mid & post & -> & -> & Hrun);
        [rewrite length_app; cbn; lia|done|].
      pose proof (run_seen _ _ _ _ _ _ Hrun eq_refl); subst pre.
      exists [], (r :: mid), post. split_and!; [done|by rewrite <-app_assoc|by apply due_run_take].
Qed.

Lemma mapM_py_Forall {A B} (f : A → py B) (P : A → Prop) xs ys :
  (∀ x y, f x = Ok y → P x) → mapM_py f xs = Ok ys → Forall P xs.
Proof.
  intros Hf. revert ys. induction xs as [|x xs IH]; cbn; intros ys Hm; [done|]. inv_ok.
  constructor; eauto.
Qed.

Lemma mapM_py_length {A B} (f : A → py B) xs ys :
  mapM_py f xs = Ok ys → length xs = length ys.
Proof.
  revert ys. induction xs as [|x xs IH]; cbn; intros ys Hm; inv_ok; [done|]. cbn. f_equal. auto.
Qed.

Lemma due_run_nil n cp : due_run n cp false [] [] [].
Proof. by constructor. Qed.

(** A batch resumes in order.  When [ordered_batch_resume] returns, the batch
    is a completed prefix, then the selected records, then the rest; every record
    of the prefix is acknowledged below the checkpoint under the identifier the
    checkpoint stores; the first record after the prefix is the one the
    checkpoint expects; every selected record is due; and the selection stops only
    at the end of the batch or at a record that is in flight, not yet due or
    handed to an operator.  The sequence numbers of the whole batch are
    consecutive, so no delivery is reordered or skipped. *)
Theorem batch_resume_contract records now limit ctx checkpoint selected :
  ordered_batch_resume records now limit ctx (Some checkpoint) = Ok selected →
  ∃ n pre post first, rfc3339_value now = Some n ∧ records = pre ++ selected ++ post ∧
    due_run n checkpoint false pre selected post ∧
    mapM_py (λ r, get_int r "batchSequence") records
      = Ok (seqZ first (Z.of_nat (length records))) ∧
    (∀ m, limit = PInt m → Z.of_nat (length selected) ≤ m).
Proof.
  unfold ordered_batch_resume. intros Hr. destruct (strict_int limit) as [m|] eqn:El; [|done].
  apply strict_int_Some in El as ->.
  apply bind_Ok_iff in Hr as (? & Hm%raise_if_Ok_iff & Hr).
  apply bind_Ok_iff in Hr as (? & Hlen%raise_if_Ok_iff & Hr). refl_bool.
  apply bind_Ok_iff in Hr as (? & Hcp%raise_if_Ok_iff & Hr).
  apply bind_Ok_iff in Hr as (n & Hn%parse_timestamp_str & Hr).
  destruct records as [|r records'].
  { inv_ok. exists n, [], [], 0. split_and!; [done|done|apply due_run_nil|done|].
    intros ? [= <-]. cbn. lia. }
  remember (r :: records') as records.
  apply bind_Ok_iff in Hr as (? & Hval & Hr). apply bind_Ok_iff in Hr as (bids & _ & Hr).
  apply bind_Ok_iff in Hr as (rids & _ & Hr). apply bind_Ok_iff in Hr as (seqs & Hseq & Hr).
  apply bind_Ok_iff in Hr as (? & [_ Hseqs]%raise_if_Ok_iff%orb_false_iff & Hr).
  apply bind_Ok_iff in Hr as (n' & Hn'%parse_timestamp_str & Hr). same_call.
  apply negb_false_iff, bool_decide_eq_true in Hseqs.
  apply (mapM_py_Forall _ identified) in Hval;
    [|intros ? ? ?; inv_ok; by eapply owner_identified].
  destruct (select_due_spec n' m checkpoint records false [] selected Hval Hlen Hr) as (pre & mid & post & Hrec & -> & Hrun).
  exists n', pre, post, (default 0 (head seqs)). split_and!; [done..| |].
  - rewrite Hseq, (mapM_py_length _ _ _ Hseq). by f_equal.
  - intros ? [= <-]. rewrite Hrec in Hlen. rewrite !length_app in Hlen. cbn. lia.
Qed.
End batch.
