(* ===== verification/DeliveryExamples.v ===== *)
(** * An approval and a delivery, step by step

    One action that needs approval, its approval record while pending, approved
    and expired, and the resumed attempt; and one reconciliation record that is
    sent, retried and handed to an operator.  They instantiate the theorems on
    approvals, on resuming and on deliveries. *)

From stdpp Require Import base list list_numbers numbers strings gmap.
From S2P Require Import Prelude PyString Errors Timestamp PyValue Decimal Unicode Interfaces CanonicalJson CanonicalFacts Scope Validation ValidationFacts Resume.
From S2P Require Import Reconciliation Delivery.
Open Scope Z_scope.

(** A validator that finds no errors. *)
Definition open_schema : SchemaValidator := {| iter_errors := λ _ _, SchemaOk |}.
#[local] Existing Instance plain_unicode.
#[local] Existing Instance open_schema.

Definition text (k v : string) : pystr * pyval := (u k, PStr (u v)).

Definition first_action : pyval :=
  PDict [text "actionId" "act_1"; text "requestId" "req_1"; text "idempotencyKey" "authz_1";
         text "correlationId" "corr_1"; text "occurredAt" "2026-01-01T00:00:00Z";
         (u "adapter", PDict [text "id" "a"; text "version" "1"]);
         (u "task", PDict [text "taskId" "t"; text "sessionId" "s"]);
         text "action" "read"; (u "target", sample_target); text "sideEffect" "none"].
Definition identity : pyval :=
  PDict [text "tenantId" "tenant"; text "actorId" "alice"; text "clientId" "client"].

Definition hash_or_empty (r : py pystr) : pystr := match r with Ok h => h | Raise _ => [] end.
Definition first_client_hash : pystr := hash_or_empty (client_scope_hash first_action).
Definition first_scope_hash : pystr := hash_or_empty (authoritative_scope_hash first_action identity).

Definition first_decision : pyval :=
  PDict [text "outcome" "approval_required"; text "decisionId" "dec_1"; text "requestId" "req_1";
         text "correlationId" "corr_1"; text "auditRef" "audit_1";
         (u "clientScopeHash", PStr first_client_hash); (u "authoritativeScopeHash", PStr first_scope_hash);
         text "serverTime" "2026-01-01T00:00:01Z"; text "expiresAt" "2026-01-01T01:00:00Z";
         (u "approval", PDict [text "approvalId" "apr_1"; text "expiresAt" "2026-01-01T00:30:00Z"])].

Definition approval_record (status : string) (more : list (pystr * pyval)) : pyval :=
  PDict ([text "schemaVersion" "1"; text "approvalId" "apr_1"; text "actionId" "act_1";
          text "correlationId" "corr_1"; (u "authoritativeScopeHash", PStr first_scope_hash);
          text "requestedAt" "2026-01-01T00:00:02Z"; text "expiresAt" "2026-01-01T00:30:00Z";
          text "requesterRef" "alice"; text "authorizationDecisionId" "dec_1";
          text "creationAuditRef" "audit_1"; text "status" status] ++ more).
Definition pending_approval : pyval := approval_record "pending" [].
Definition approved_approval : pyval := approval_record "approved" [text "decidedAt" "2026-01-01T00:10:00Z"].
Definition pending_digest : pystr := hash_or_empty (approval_state_digest pending_approval).

Definition resumed_action : pyval :=
  PDict [text "actionId" "act_1"; text "requestId" "req_2"; text "idempotencyKey" "authz_2";
         text "correlationId" "corr_1"; text "occurredAt" "2026-01-01T00:11:00Z";
         text "causationId" "dec_1"; text "resumeFromApprovalId" "apr_1";
         (u "adapter", PDict [text "id" "a"; text "version" "1"]);
         (u "task", PDict [text "taskId" "t"; text "sessionId" "s"]);
         text "action" "read"; (u "target", sample_target); text "sideEffect" "none"].

(** Deciding after the approval expired is refused. *)
Example late_decision_refused :
  validate_approval_transition pending_approval approved_approval pending_digest (u "2026-01-01T00:30:00Z")
  = Raise (ProtocolValidationError "approval_expired").
Proof. vm_compute. reflexivity. Qed.

Lemma approval_transition_sound_witness :
  approval_decided pending_approval approved_approval (u "2026-01-01T00:10:05Z").
Proof.
  destruct (approval_transition_sound pending_approval approved_approval pending_digest
    (u "2026-01-01T00:10:05Z") Applied) as (_ & _ & Hd); [vm_compute; reflexivity|exact Hd].
Defined.

Lemma resume_is_approved_witness :
  get approved_approval "status" = Some (PStr (u "approved")).
Proof.
  destruct (resume_is_approved first_action first_decision approved_approval resumed_action identity
    (u "2026-01-01T00:12:00Z")) as (Hs & _); [vm_compute; reflexivity|exact Hs].
Defined.

(** ** A delivery, step by step

    One reconciliation record that is sent, scheduled for a retry, sent again and
    handed to an operator, with a concrete canonicalizer; it instantiates the
    theorems on transitions, deliveries and batches. *)

Definition example_canonicalizer : Canonicalizer := palonexus_canonicalizer (H := plain_unicode).
(** A validator that finds no errors. *)
Definition lenient_schema : SchemaValidator := {| iter_errors := λ _ _, SchemaOk |}.
#[local] Existing Instance example_canonicalizer.
#[local] Existing Instance lenient_schema.

Definition str (s : string) : pyval := PStr (u s).

Definition example_policy : pyval :=
  PDict [(u "baseDelaySeconds", PInt 5); (u "maxDelaySeconds", PInt 60);
         (u "maxAttempts", PInt 2); (u "maxTotalAttempts", PInt 3)].

Definition example_record (state : string) (attempts : Z) (more : list (pystr * pyval)) : pyval :=
  PDict ([(u "reconciliationId", str "rec_1"); (u "clientId", str "client_1");
          (u "batchId", str "batch_1"); (u "batchSequence", PInt 7);
          (u "observedAt", str "2026-01-01T00:00:00Z"); (u "deliveryPolicy", example_policy);
          (u "state", str state); (u "attemptCount", PInt attempts)] ++ more).

Definition automatic : pystr * pyval := (u "deliveryDisposition", str "automatic").
Definition manual : list (pystr * pyval) :=
  [(u "deliveryDisposition", str "manual_intervention"); (u "manualReasonCode", str "attempt_limit_reached")].
Definition last (s : string) : pystr * pyval := (u "lastAttemptAt", str s).
Definition next (s : string) : pystr * pyval := (u "nextAttemptAt", str s).

Definition record0 := example_record "pending" 0 [automatic].
Definition record1 := example_record "sending" 1 [automatic; last "2026-01-01T00:00:10Z"].
Definition record2 :=
  example_record "retry_wait" 1 [automatic; last "2026-01-01T00:00:10Z"; next "2026-01-01T00:00:17Z"].
Definition record3 := example_record "sending" 2 [automatic; last "2026-01-01T00:00:17Z"].
Definition record4 := example_record "pending" 2 (last "2026-01-01T00:00:17Z" :: manual).

Definition example_context : option TrustedStoreContext := Some {|
  record_partitions := {[ u "rec_1" := {| tenant_partition := u "tenant"; owner_subject := u "alice" |} ]};
  authenticated_tenant := u "tenant";
  authenticated_subject := u "alice";
  organization_retention_authority := None;
|}.

Definition digest_of (d : pyval) : pystr :=
  match canonical_hash d with Ok h => h | Raise _ => [] end.

Definition try_transition (c p : pyval) (now : string) : py outcome :=
  validate_reconciliation_transition c p (digest_of c) (u now) example_context None.

Lemma send_applied : try_transition record0 record1 "2026-01-01T00:00:10Z" = Ok Applied.
Proof. vm_compute. reflexivity. Qed.
Lemma retry_applied : try_transition record1 record2 "2026-01-01T00:00:12Z" = Ok Applied.
Proof. vm_compute. reflexivity. Qed.
Lemma resend_applied : try_transition record2 record3 "2026-01-01T00:00:17Z" = Ok Applied.
Proof. vm_compute. reflexivity. Qed.

(** One second early, the retry is refused. *)
Example retry_not_due :
  try_transition record2 record3 "2026-01-01T00:00:16Z" = Raise (ReconciliationError "retry_not_due").
Proof. vm_compute. reflexivity. Qed.

(** A restart during the second attempt hands the record to an operator. *)
Example recovered_to_operator :
  recover_after_restart record3 (digest_of record3) (u "2026-01-01T00:01:00Z") example_context
  = Ok (setitem (setitem (setitem record3 "state" (str "pending")) "deliveryDisposition"
          (str "manual_intervention")) "manualReasonCode" (str "attempt_limit_reached")).
Proof. vm_compute. reflexivity. Qed.

Lemma transition_refines_step_witness :
  ∃ n v w part, rfc3339_value (u "2026-01-01T00:00:12Z") = Some n ∧ views record1 v ∧
    views record2 w ∧ rview_wf v ∧ rview_wf w ∧ rstep n v w ∧
    record_partition record1 example_context = Ok part ∧
    reconciliation_state_digest record1 = Ok (digest_of record1) ∧
    (same_policy v w ∨ evidence_collision record1 record2).
Proof.
  exact (transition_refines_step record1 record2 (digest_of record1) (u "2026-01-01T00:00:12Z")
    example_context None retry_applied).
Defined.

Definition view0 : rview := {|
  v_state := Pending; v_attempts := 0; v_manual := false; v_base := 5; v_cap := 60;
  v_max := 2; v_total := 3; v_last := None; v_next := None |}.

Lemma views0 : views record0 view0.
Proof. constructor; try (vm_compute; reflexivity); eexists; split; vm_compute; reflexivity. Qed.
Lemma view0_wf : rview_wf view0.
Proof. by constructor. Qed.

Lemma accepted_transition c p now : try_transition c p now = Ok Applied → accepted c p.
Proof. apply (accept_transition c p (digest_of c) (u now) example_context None). Qed.

Definition example_records : list pyval := [record1; record2; record3].

Lemma example_delivery : delivers record0 example_records.
Proof.
  apply delivers_cons; [exact (accepted_transition _ _ _ send_applied)|].
  apply delivers_cons; [exact (accepted_transition _ _ _ retry_applied)|].
  apply delivers_cons; [exact (accepted_transition _ _ _ resend_applied)|].
  apply delivers_nil.
Qed.

Lemma delivery_bounded_witness :
  sent example_records = 2 ∧
  ((∃ w, views record3 w ∧ rview_wf w ∧ same_policy view0 w ∧
         v_attempts w = v_attempts view0 + sent example_records ∧
         v_attempts view0 + sent example_records ≤ v_total view0) ∨
   (∃ i x y, (record0 :: example_records) !! i = Some x ∧
             (record0 :: example_records) !! S i = Some y ∧ evidence_collision x y)).
Proof.
  split; [vm_compute; reflexivity|].
  exact (delivery_bounded record0 example_records view0 example_delivery views0 view0_wf).
Defined.

Lemma terminal_absorbing_witness :
  ~ accepted (example_record "acknowledged" 1 [automatic]) record0.
Proof.
  apply (terminal_absorbing _ _ (str "acknowledged")); [vm_compute; reflexivity|vm_compute; reflexivity].
Defined.

(** A batch of one record that is due. *)
Definition example_checkpoint : TrustedBatchCheckpoint :=
  {| batch_id := u "batch_1"; expected_next_sequence := 7; completed_prefix := ∅ |}.

Lemma batch_resume_contract_witness :
  ∃ n pre post first, rfc3339_value (u "2026-01-01T00:00:17Z") = Some n ∧
    [record2] = pre ++ [record2] ++ post ∧ due_run n example_checkpoint false pre [record2] post ∧
    mapM_py (λ r, get_int r "batchSequence") [record2] = Ok (seqZ first 1) ∧
    (∀ m, PInt 4 = PInt m → 1 ≤ m).
Proof.
  apply (batch_resume_contract [record2] (u "2026-01-01T00:00:17Z") (PInt 4) example_context
    example_checkpoint [record2]). vm_compute. reflexivity.
Defined.
