(* ===== verification/Did.v ===== *)
(** * Decentralized identifiers

    Models [python/src/palonexus/identity/did.py]: base58, [did:key] identifiers of
    Ed25519 keys, signing through a key store, and verification.  The package
    [cryptography] enters as [Ed25519], with its documented behaviour as
    [Ed25519Laws]; what the key store does in a call is an argument of the call.
    The first part has digits of integers in a base: [int.from_bytes] and
    [int.to_bytes] are the base 256, and the loop of [divmod] that writes a number
    in base 58 is [divmod_digits]. *)

From stdpp Require Import base list list_numbers numbers strings.
From S2P Require Import Prelude PyString Errors PyValue Calm.
Open Scope Z_scope.

(** ** Numbers in a base *)
Definition digits_value (base : Z) (ds : list Z) : Z := foldl (λ n d, n * base + d) 0 ds.

(** [n] in [width] digits. *)
Fixpoint fixed_digits (base : Z) (width : nat) (n : Z) : list Z :=
  match width with
  | O => []
  | S w => fixed_digits base w (n / base) ++ [n mod base]
  end.

(** [while n: n, d = divmod(n, base); ds = [d] + ds]. *)
Fixpoint divmod_digits (base : Z) (fuel : nat) (n : Z) (ds : list Z) : list Z :=
  match fuel with
  | O => ds
  | S fuel => if n =? 0 then ds else divmod_digits base fuel (n / base) (n mod base :: ds)
  end.

(** [int.from_bytes(value, "big")], [number.to_bytes(length, "big")] and
    [math.ceil(number.bit_length() / 8)]. *)
Definition int_from_bytes : pybytes → Z := digits_value 256.
Definition int_to_bytes (length : nat) (number : Z) : pybytes := fixed_digits 256 length number.
Definition bit_length (n : Z) : Z := if n =? 0 then 0 else Z.log2 (Z.abs n) + 1.
Definition byte_length (n : Z) : nat := Z.to_nat ((bit_length n + 7) / 8).

Definition is_byte (b : Z) : Prop := 0 ≤ b < 256.

(** How often [c] occurs at the start: [len(s) - len(s.lstrip(c))]. *)
Definition leading (c : Z) (s : list Z) : nat := length (span (λ x, x =? c) s).1.

Section radix.
Variable base : Z.
Hypothesis base_large : 1 < base.
Implicit Types (ds : list Z) (n : Z).

Definition digit (d : Z) : Prop := 0 ≤ d < base.

Lemma digits_value_app ds d : digits_value base (ds ++ [d]) = digits_value base ds * base + d.
Proof. unfold digits_value. by rewrite foldl_app. Qed.

Lemma length_fixed_digits w n : length (fixed_digits base w n) = w.
Proof. revert n. induction w as [|w IH]; intros n; cbn; [done|]. rewrite length_app, IH. cbn. lia. Qed.

Lemma fixed_digits_digit w n : Forall digit (fixed_digits base w n).
Proof.
  revert n. induction w as [|w IH]; intros n; cbn; [constructor|].
  apply Forall_app. split; [done|]. repeat constructor; apply Z.mod_pos_bound; lia.
Qed.

Lemma digits_value_fixed w n : 0 ≤ n < base ^ Z.of_nat w → digits_value base (fixed_digits base w n) = n.
Proof.
  revert n. induction w as [|w IH]; intros n Hn; [cbn in *; lia|].
  cbn [fixed_digits]. rewrite digits_value_app. rewrite Nat2Z.inj_succ, Z.pow_succ_r in Hn by lia.
  rewrite IH; [pose proof (Z.div_mod n base); lia|].
  split; [apply Z.div_pos; lia|]. apply Z.div_lt_upper_bound; lia.
Qed.

Lemma fixed_digits_value ds : Forall digit ds → fixed_digits base (length ds) (digits_value base ds) = ds.
Proof.
  induction ds as [|d ds IH] using rev_ind; [done|]. intros [Hds Hd]%Forall_app. rewrite Forall_singleton in Hd. unfold digit in Hd.
  rewrite length_app, Nat.add_comm. cbn [length Nat.add fixed_digits].
  rewrite digits_value_app. rewrite Z.div_add_l, (Z.div_small d), Z.add_0_r, IH by first [done|lia].
  f_equal. rewrite Z.add_comm, Z.mod_add by lia. by rewrite Z.mod_small.
Qed.

Lemma digits_value_bounds ds : Forall digit ds → 0 ≤ digits_value base ds < base ^ Z.of_nat (length ds).
Proof.
  induction ds as [|d ds IH] using rev_ind; [cbn; lia|]. intros [Hds Hd]%Forall_app. rewrite Forall_singleton in Hd. unfold digit in Hd.
  rewrite digits_value_app, length_app, Nat.add_comm. cbn [length Nat.add].
  rewrite Nat2Z.inj_succ, Z.pow_succ_r by lia. specialize (IH Hds). nia.
Qed.

Lemma digits_value_lead d ds :
  Forall digit (d :: ds) → d ≠ 0 → base ^ Z.of_nat (length ds) ≤ digits_value base (d :: ds).
Proof.
  intros [Hd Hds]%Forall_cons_1 Hd0. unfold digit in Hd. induction ds as [|x ds IH] using rev_ind; [cbn; lia|].
  apply Forall_app in Hds as [Hds Hx]. rewrite Forall_singleton in Hx. unfold digit in Hx.
  change (d :: ds ++ [x]) with ((d :: ds) ++ [x]). rewrite digits_value_app, length_app, Nat.add_comm.
  cbn [length Nat.add]. rewrite Nat2Z.inj_succ, Z.pow_succ_r by lia. specialize (IH Hds). nia.
Qed.

(** [w] digits suffice for [n] and fewer do not. *)
Definition fits (w : nat) (n : Z) : Prop :=
  0 ≤ n < base ^ Z.of_nat w ∧ ((0 < w)%nat → base ^ (Z.of_nat w - 1) ≤ n).

Lemma fits_digits ds : Forall digit ds → head ds ≠ Some 0 → fits (length ds) (digits_value base ds).
Proof.
  intros Hds Hh. split; [by apply digits_value_bounds|]. destruct ds as [|d ds]; [cbn; lia|]. intros _.
  cbn [length]. replace (Z.of_nat (S (length ds)) - 1) with (Z.of_nat (length ds)) by lia.
  apply digits_value_lead; [done|]. cbn in Hh. congruence.
Qed.

Lemma fits_zero w : fits w 0 → w = O.
Proof. destruct w as [|w]; [done|]. intros [_ H]. pose proof (Z.pow_pos_nonneg base (Z.of_nat (S w) - 1)). lia. Qed.

Lemma fits_div w n : fits (S w) n → fits w (n / base).
Proof.
  intros [Hn Hl]. specialize (Hl ltac:(lia)). rewrite Nat2Z.inj_succ, Z.pow_succ_r in Hn by lia.
  replace (Z.of_nat (S w) - 1) with (Z.of_nat w) in Hl by lia. repeat split.
  - apply Z.div_pos; lia.
  - apply Z.div_lt_upper_bound; lia.
  - intros Hw. apply Z.div_le_lower_bound; [lia|]. rewrite <-Z.pow_succ_r by lia.
    by replace (Z.succ (Z.of_nat w - 1)) with (Z.of_nat w) by lia.
Qed.

Lemma divmod_digits_fixed fuel w n ds :
  fits w n → (w ≤ fuel)%nat → divmod_digits base fuel n ds = fixed_digits base w n ++ ds.
Proof.
  revert w n ds. induction fuel as [|fuel IH]; intros [|w] n ds Hn Hf; [done|lia|..]; cbn [divmod_digits].
  - destruct Hn as [Hn _]. cbn in Hn. replace n with 0 by lia. done.
  - destruct (n =? 0) eqn:E; refl_bool; [subst; by apply fits_zero in Hn|].
    rewrite (IH w) by (apply fits_div || lia; done). cbn [fixed_digits]. by rewrite <-app_assoc.
Qed.

Lemma fits_unique w w' n : fits w n → fits w' n → w = w'.
Proof.
  assert (∀ w w', fits w n → fits w' n → (w ≤ w')%nat) as H; [|intros; apply Nat.le_antisymm; eauto].
  intros v v' [Hn Hl] [Hn' Hl']. destruct (Nat.le_gt_cases v v'); [done|]. specialize (Hl ltac:(lia)).
  pose proof (Z.pow_le_mono_r base (Z.of_nat v') (Z.of_nat v - 1)). lia.
Qed.

Lemma fits_exists fuel n : 0 ≤ n < base ^ Z.of_nat fuel → ∃ w, (w ≤ fuel)%nat ∧ fits w n.
Proof.
  induction fuel as [|fuel IH]; intros Hn; [exists O; cbn in Hn; split; [done|]; split; [cbn; lia|lia]|].
  destruct (Z.lt_ge_cases n (base ^ Z.of_nat fuel)) as [Hlt|Hge].
  - destruct IH as (w & Hw & Hf); [lia|]. exists w. split; [lia|done].
  - exists (S fuel). split; [done|]. split; [done|]. intros _. by replace (Z.of_nat (S fuel) - 1) with (Z.of_nat fuel) by lia.
Qed.

Lemma digits_value_zeros k ds : digits_value base (replicate k 0 ++ ds) = digits_value base ds.
Proof. unfold digits_value. rewrite foldl_app. f_equal. by induction k. Qed.

Lemma digits_value_nonzero ds : Forall digit ds → head ds ≠ Some 0 → digits_value base ds = 0 → ds = [].
Proof.
  intros Hds Hh H0. destruct ds as [|d ds]; [done|]. pose proof (digits_value_lead d ds Hds).
  pose proof (Z.pow_pos_nonneg base (Z.of_nat (length ds))). cbn in Hh. assert (d ≠ 0) by congruence. lia.
Qed.

Lemma fixed_digits_head w n : fits w n → head (fixed_digits base w n) ≠ Some 0.
Proof.
  intros Hf. destruct (fixed_digits base w n) as [|d ds] eqn:E; [done|]. intros [= ->].
  pose proof (length_fixed_digits w n) as Hl. pose proof (fixed_digits_digit w n) as Hd. destruct Hf as [Hn Hlow].
  pose proof (digits_value_fixed w n Hn) as Hv. rewrite E in *. cbn [length] in Hl.
  change (0 :: ds) with (replicate 1 0 ++ ds) in Hv. rewrite digits_value_zeros in Hv.
  apply Forall_cons_1 in Hd as [_ Hd]. pose proof (digits_value_bounds ds Hd).
  specialize (Hlow ltac:(lia)). replace (Z.of_nat w - 1) with (Z.of_nat (length ds)) in Hlow by lia. lia.
Qed.
End radix.
Arguments digit base d /.

Lemma byte_length_fits n : 0 ≤ n → fits 256 (byte_length n) n.
Proof.
  intros Hn. unfold fits, byte_length, bit_length. destruct (n =? 0) eqn:E; refl_bool; [subst; change (Z.to_nat ((0 + 7) / 8)) with O; split; [cbn; lia|lia]|].
  rewrite Z.abs_eq by lia. pose proof (Z.log2_spec n ltac:(lia)) as [Hl Hh]. pose proof (Z.log2_nonneg n).
  pose proof (Z.div_pos (Z.log2 n + 1 + 7) 8). rewrite Z2Nat.id by lia.
  set (k := (Z.log2 n + 1 + 7) / 8) in *.
  assert (8 * k - 8 < Z.log2 n + 1 ≤ 8 * k) as [Hk1 Hk2].
  { subst k. pose proof (Z.div_mod (Z.log2 n + 1 + 7) 8). pose proof (Z.mod_pos_bound (Z.log2 n + 1 + 7) 8). lia. }
  split; [split; [lia|]|intros _].
  - change (256 ^ k) with ((2 ^ 8) ^ k). rewrite <-Z.pow_mul_r by lia. eapply Z.lt_le_trans; [exact Hh|]. apply Z.pow_le_mono_r; lia.
  - change (256 ^ (k - 1)) with ((2 ^ 8) ^ (k - 1)). rewrite <-Z.pow_mul_r by lia.
    eapply Z.le_trans; [|exact Hl]. apply Z.pow_le_mono_r; lia.
Qed.

Lemma int_to_from_bytes b : Forall is_byte b → head b ≠ Some 0 →
  int_to_bytes (byte_length (int_from_bytes b)) (int_from_bytes b) = b.
Proof.
  intros Hb Hh. unfold int_to_bytes, int_from_bytes.
  pose proof (digits_value_bounds 256 ltac:(lia) b Hb) as Hn.
  rewrite (fits_unique 256 ltac:(lia) _ (length b) (digits_value 256 b)); [by apply fixed_digits_value|..].
  - apply byte_length_fits. lia.
  - by apply fits_digits.
Qed.

Lemma int_to_bytes_bytes w n : Forall is_byte (int_to_bytes w n).
Proof. by apply fixed_digits_digit. Qed.

(** The split at the leading [c]s. *)
Lemma leading_split c s : ∃ r, s = replicate (leading c s) c ++ r ∧ head r ≠ Some c.
Proof.
  unfold leading. induction s as [|x s (r & IH & Hr)]; cbn; [by exists []|].
  destruct (x =? c) eqn:E; refl_bool; cbn; [|exists (x :: s); split; [done|cbn; congruence]].
  subst. destruct (span _ s) as [a b]. cbn in *. exists r. split; [by f_equal|done].
Qed.

Lemma leading_replicate c k r : head r ≠ Some c → leading c (replicate k c ++ r) = k.
Proof.
  intros Hr. unfold leading. induction k as [|k IH]; cbn.
  - destruct r as [|x r]; [done|]. cbn in *. destruct (x =? c) eqn:E; refl_bool; [congruence|done].
  - rewrite Z.eqb_refl. destruct (span _ _). cbn in *. by f_equal.
Qed.

(** ** Failures *)

(** [_capture] and [_checked_capture]: control flow passes, every other failure
    becomes the opaque one. *)
Definition control_flow (e : exn) : bool :=
  match e with AsyncCancelledError | GeneratorExit | KeyboardInterrupt | SystemExit => true | _ => false end.
Definition capture {A} (operation : py A) : py A :=
  except_raise (λ e, negb (control_flow e)) IdentityVerificationFailed operation.

(** [try: ... except Exception: raise IdentityVerificationFailed()]. *)
Definition opaque {A} (m : py A) : py A := except_raise is_exception IdentityVerificationFailed m.

(** ** Base58 *)
Definition BASE58_ALPHABET : pystr := u "123456789ABCDEFGHJKLMNPQRSTUVWXYZabcdefghijkmnopqrstuvwxyz".
Definition base58_char (d : Z) : Z := nth (Z.to_nat d) BASE58_ALPHABET 0.
Definition base58_index (c : Z) : option Z := Z.of_nat ∘ fst <$> list_find (c =.) BASE58_ALPHABET.

Definition ED25519_MULTICODEC : pybytes := [237; 1].
Definition PUBLIC_KEY_BYTES : nat := 32.
Definition SIGNATURE_BYTES : nat := 64.
Definition MAX_MESSAGE_BYTES : Z := 1048576.
Definition MAX_DID_BYTES : Z := 256.

(** [_base58btc_encode]. *)
Definition base58btc_encode (value : pybytes) : pystr :=
  replicate (leading 0 value) 49 ++
  (base58_char <$> divmod_digits 58 (2 * length value) (int_from_bytes value) []).

(** [_base58btc_decode]. *)
Definition base58btc_decode (value : pystr) : py pybytes :=
  opaque
    (raise_if (bool_decide (value = []) || (MAX_DID_BYTES <? Z.of_nat (length value))) ValueError;;
     indices ← match mapM base58_index value with Some ds => Ok ds | None => Raise KeyError end;
     let number := digits_value 58 indices in
     let body := if number =? 0 then [] else int_to_bytes (byte_length number) number in
     let decoded := replicate (leading 49 value) 0 ++ body in
     raise_if (negb (str_eqb (base58btc_encode decoded) value)) ValueError;;
     Ok decoded).

(** ** Keys *)

(** [Ed25519PublicKey.from_public_bytes] (whether it accepts the bytes),
    [private_key.public_key().public_bytes_raw()], [private_key.sign] and
    [public_key.verify] (whether it accepts). *)
Class Ed25519 := {
  public_accepted : pybytes → bool;
  public_of : pybytes → pybytes;
  sign_with : pybytes → pybytes → pybytes;
  signature_valid : pybytes → pybytes → pybytes → bool;
}.

(** The documented behaviour: keys have 32 bytes and signatures 64, and what a key
    signs its public key verifies. *)
Class Ed25519Laws `{Ed25519} := {
  public_accepted_law seed : length seed = PUBLIC_KEY_BYTES → public_accepted (public_of seed) = true;
  public_bytes_law seed : length seed = PUBLIC_KEY_BYTES →
    length (public_of seed) = PUBLIC_KEY_BYTES ∧ Forall is_byte (public_of seed);
  signature_bytes_law seed message : length seed = PUBLIC_KEY_BYTES →
    length (sign_with seed message) = SIGNATURE_BYTES ∧ Forall is_byte (sign_with seed message);
  signature_law seed message : length seed = PUBLIC_KEY_BYTES →
    signature_valid (public_of seed) (sign_with seed message) message = true;
}.

(** [DidKey]. *)
Record did_key := DidKey { did : pystr; key_id : pystr; public_key : pybytes }.

(** [_did_from_public_bytes]. *)
Definition did_from_public_bytes (value : pybytes) : py (pystr * pystr) :=
  raise_if (negb (length value =? PUBLIC_KEY_BYTES)%nat) IdentityVerificationFailed;;
  let fingerprint := u "z" ++ base58btc_encode (ED25519_MULTICODEC ++ value) in
  let d := u "did:key:" ++ fingerprint in
  Ok (d, d ++ u "#" ++ fingerprint).

(** [value.encode("ascii")]. *)
Definition encode_ascii (s : pystr) : py pybytes :=
  raise_if (negb (forallb (λ c, (0 <=? c) && (c <? 128)) s)) ValueError;; Ok s.

Section did.
Context `{Ed25519}.

(** [_resolve_did_key]. *)
Definition resolve_did_key_unsafe (value : pyval) : py did_key :=
  opaque
    match value with
    | PStr d =>
        raise_if (negb (startswith (u "did:key:z") d) || bool_decide (35 ∈ d)) ValueError;;
        encoded ← encode_ascii d;
        raise_if (MAX_DID_BYTES <? Z.of_nat (length encoded)) ValueError;;
        let fingerprint := drop (length (u "did:key:")) d in
        decoded ← base58btc_decode (drop 1 fingerprint);
        raise_if (negb (startswith ED25519_MULTICODEC decoded)
                  || negb (length decoded =? length ED25519_MULTICODEC + PUBLIC_KEY_BYTES)%nat) ValueError;;
        let public_bytes := drop (length ED25519_MULTICODEC) decoded in
        raise_if (negb (public_accepted public_bytes)) ValueError;;
        '(canonical_did, canonical_key_id) ← did_from_public_bytes public_bytes;
        raise_if (negb (str_eqb canonical_did d)) ValueError;;
        Ok (DidKey canonical_did canonical_key_id public_bytes)
    | _ => Raise ValueError
    end.
Definition resolve_did_key (value : pyval) : py did_key := capture (resolve_did_key_unsafe value).

(** [DidKey(did=..., key_id=..., public_key=...)]; [None] is a value that is not
    [bytes]. *)
Definition validated_did_key_parts (d k : pyval) (public : option pybytes) : py did_key :=
  resolved ← resolve_did_key_unsafe d;
  raise_if (negb (bool_decide (k = PStr (key_id resolved)))
            || negb (bool_decide (public = Some (public_key resolved)))) IdentityVerificationFailed;;
  Ok resolved.
Definition make_did_key (d k : pyval) (public : option pybytes) : py did_key :=
  capture (validated_did_key_parts d k public).

(** ** Generating and signing *)

(** [_generate_ed25519_key] for the seed that the package generates and what
    [key_store.store] does; with the result, the buffer of the seed, or [None] once
    the store owns it. *)
Definition generate_ed25519_key_unsafe (seed : pybytes) (stored : py ()) : py did_key * option pybytes :=
  match stored with
  | Ok () =>
      (opaque ('(d, k) ← did_from_public_bytes (public_of seed);
               make_did_key (PStr d) (PStr k) (Some (public_of seed))), None)
  | Raise e => (opaque (Raise e), Some (replicate (length seed) 0))
  end.
Definition generate_ed25519_key (seed : pybytes) (stored : py ()) : py did_key * option pybytes :=
  let '(result, buffer) := generate_ed25519_key_unsafe seed stored in (capture result, buffer).

(** [_validate_message]; [None] is a value that is not [bytes]. *)
Definition validate_message (value : option pybytes) : py pybytes :=
  match value with
  | Some m => raise_if (MAX_MESSAGE_BYTES <? Z.of_nat (length m)) IdentityVerificationFailed;; Ok m
  | None => Raise IdentityVerificationFailed
  end.

(** [Ed25519PrivateKey.from_private_bytes]. *)
Definition from_private_bytes (private_bytes : pybytes) : py pybytes :=
  raise_if (negb (length private_bytes =? PUBLIC_KEY_BYTES)%nat) ValueError;; Ok private_bytes.

(** [_sign_ed25519]; [lease] is what loading the key and copying its bytes gives. *)
Definition sign_ed25519_unsafe (message : option pybytes) (lease : py pybytes) (expected_did : option pystr)
    : py pybytes :=
  opaque
    (validated_message ← validate_message message;
     private_bytes ← lease;
     private_key ← from_private_bytes private_bytes;
     match expected_did with
     | Some expected =>
         '(actual_did, _) ← did_from_public_bytes (public_of private_key);
         raise_if (negb (str_eqb actual_did expected)) ValueError
     | None => Ok ()
     end;;
     Ok (sign_with private_key validated_message)).
Definition sign_ed25519 (message : option pybytes) (lease : py pybytes) (expected_did : option pystr)
    : py pybytes := capture (sign_ed25519_unsafe message lease expected_did).

(** [DidKey.sign]. *)
Definition did_key_sign (k : did_key) (message : option pybytes) (lease : py pybytes) : py pybytes :=
  capture (sign_ed25519 message lease (Some (did k))).

(** [verify_ed25519]. *)
Definition verify_ed25519 (d : pyval) (message signature : option pybytes) : py bool :=
  match
    (k ← resolve_did_key_unsafe d;
     validated_message ← validate_message message;
     match signature with
     | Some s =>
         if negb (length s =? SIGNATURE_BYTES)%nat then Ok false
         else raise_if (negb (public_accepted (public_key k))) ValueError;;
              Ok (signature_valid (public_key k) s validated_message)
     | None => Ok false
     end)
  with
  | Ok b => Ok b
  | Raise e => if is_exception e then Ok false else Raise e
  end.
End did.

(** ** Base58 is canonical *)
Lemma base58_index_char d : 0 ≤ d < 58 → base58_index (base58_char d) = Some d.
Proof.
  intros Hd. assert (forallb (λ i, bool_decide (base58_index (base58_char (Z.of_nat i)) = Some (Z.of_nat i))) (seq 0 58) = true)
    as H by (vm_compute; reflexivity).
  apply (forallb_elem _ _ (Z.to_nat d)) in H; [|apply elem_of_seq; lia]. cbn beta in H. rewrite Z2Nat.id in H by lia. by refl_bool.
Qed.

Lemma base58_index_inv c d : base58_index c = Some d → 0 ≤ d < 58 ∧ base58_char d = c.
Proof.
  unfold base58_index. intros ([i x] & (Hi & Hx & _)%list_find_Some & Hd)%fmap_Some. cbn in *. subst.
  apply lookup_lt_Some in Hi as Hl. change (length BASE58_ALPHABET) with 58%nat in Hl. split; [lia|].
  unfold base58_char. rewrite Nat2Z.id. by apply nth_lookup_Some.
Qed.

Lemma base58_char_one d : 0 ≤ d < 58 → base58_char d = 49 → d = 0.
Proof. intros Hd E. apply base58_index_char in Hd. rewrite E in Hd. vm_compute in Hd. congruence. Qed.

Lemma mapM_index ds : Forall (λ d, 0 ≤ d < 58) ds → mapM base58_index (base58_char <$> ds) = Some ds.
Proof.
  intros Hds. apply mapM_Some. rewrite Forall2_fmap_l. induction Hds; constructor; [by apply base58_index_char|done].
Qed.

(** The leading zeros of the value and the digits of the rest. *)
Lemma base58btc_encode_shape b : Forall is_byte b → ∃ k r w n,
  b = replicate k 0 ++ r ∧ head r ≠ Some 0 ∧ n = int_from_bytes r ∧ fits 58 w n ∧
  base58btc_encode b = base58_char <$> (replicate k 0 ++ fixed_digits 58 w n) ∧ (w ≤ 2 * length b)%nat.
Proof.
  intros Hb. destruct (leading_split 0 b) as (r & Hr & Hh). exists (leading 0 b), r.
  assert (int_from_bytes b = int_from_bytes r) as Hv.
  { rewrite Hr at 1. apply digits_value_zeros. }
  pose proof (digits_value_bounds 256 ltac:(lia) b Hb) as Hn. change (digits_value 256) with int_from_bytes in Hn.
  destruct (fits_exists 58 (2 * length b) (int_from_bytes b)) as (w & Hw & Hf).
  { split; [lia|]. eapply Z.lt_le_trans; [apply Hn|]. rewrite Nat2Z.inj_mul, Z.pow_mul_r by lia.
    apply Z.pow_le_mono_l. split; [lia|]. by vm_compute. }
  exists w, (int_from_bytes b). split_and!; [done..| |done]. unfold base58btc_encode.
  rewrite (divmod_digits_fixed 58 ltac:(lia) _ w) by done. rewrite app_nil_r, fmap_app. f_equal.
  by rewrite fmap_replicate.
Qed.

Lemma base58_encoded_head w n : fits 58 w n → head (base58_char <$> fixed_digits 58 w n) ≠ Some 49.
Proof.
  intros Hf. pose proof (fixed_digits_digit 58 ltac:(lia) w n) as Hd.
  pose proof (fixed_digits_head 58 ltac:(lia) w n Hf) as Hh.
  destruct (fixed_digits 58 w n) as [|d ds]; [done|]. cbn in *. intros [= E].
  apply Forall_cons_1 in Hd as [Hd _]. apply base58_char_one in E; [congruence|done].
Qed.

Lemma base58btc_decode_encode b :
  Forall is_byte b → b ≠ [] → Z.of_nat (length (base58btc_encode b)) ≤ MAX_DID_BYTES →
  base58btc_decode (base58btc_encode b) = Ok b.
Proof.
  intros Hb Hne Hl. destruct (base58btc_encode_shape b Hb) as (k & r & w & n & Hbr & Hh & Hn & Hf & He & _).
  assert (Forall is_byte r) as Hr by (rewrite Hbr in Hb; by apply Forall_app in Hb as [_ ?]).
  assert (base58btc_encode b ≠ []) as Hne'.
  { rewrite He. intros [Hk Hw]%fmap_nil_inv%app_nil. destruct k; [|done]. cbn in Hbr. subst r.
    destruct w as [|w]; [|cbn in Hw; by apply app_nil in Hw as [_ ?]]. destruct Hf as [Hf _]. cbn in Hf.
    apply Hne. apply (digits_value_nonzero 256); [lia|done..|]. change (digits_value 256) with int_from_bytes. lia. }
  unfold base58btc_decode. rewrite bool_decide_false by done. cbn [orb]. rewrite (proj2 (Z.ltb_ge _ _)) by done.
  cbn [raise_if mbind result_bind]. rewrite He at 1. rewrite mapM_index; cbn [mbind result_bind].
  2:{ apply Forall_app. split; [apply Forall_replicate; lia|apply (fixed_digits_digit 58); lia]. }
  rewrite digits_value_zeros, digits_value_fixed by (lia || apply Hf).
  assert (leading 49 (base58btc_encode b) = k) as ->.
  { rewrite He, fmap_app, fmap_replicate. change (base58_char 0) with 49. by apply leading_replicate, base58_encoded_head. }
  assert ((if n =? 0 then [] else int_to_bytes (byte_length n) n) = r) as ->.
  { destruct (n =? 0) eqn:E; refl_bool; [|subst n; by apply int_to_from_bytes].
    symmetry. apply (digits_value_nonzero 256); [lia|done..|]. by rewrite <-E, Hn. }
  rewrite <-Hbr, str_eqb_refl. done.
Qed.

Lemma base58btc_decode_inv s b : base58btc_decode s = Ok b →
  Forall is_byte b ∧ base58btc_encode b = s ∧ s ≠ [] ∧ Z.of_nat (length s) ≤ MAX_DID_BYTES.
Proof.
  unfold base58btc_decode, opaque. rewrite except_raise_Ok. intros H. inv_ok. refl_bool.
  rewrite str_eqb_eq in Hx1. split_and!; [|done..]. apply Forall_app. split; [apply Forall_replicate; by vm_compute|].
  destruct (_ =? 0); [done|apply int_to_bytes_bytes].
Qed.

(** ** Identifiers of keys *)
Definition fingerprint_of (public : pybytes) : pystr := u "z" ++ base58btc_encode (ED25519_MULTICODEC ++ public).
Definition did_of (public : pybytes) : pystr := u "did:key:" ++ fingerprint_of public.
Definition key_of (public : pybytes) : did_key :=
  DidKey (did_of public) (did_of public ++ u "#" ++ fingerprint_of public) public.

Lemma did_from_public_bytes_Ok public r : did_from_public_bytes public = Ok r ↔
  length public = PUBLIC_KEY_BYTES ∧ r = (did (key_of public), key_id (key_of public)).
Proof.
  unfold did_from_public_bytes. destruct (length public =? PUBLIC_KEY_BYTES)%nat eqn:E; cbn.
  - apply Nat.eqb_eq in E. naive_solver.
  - apply Nat.eqb_neq in E. naive_solver.
Qed.

Lemma BASE58_ASCII c : c ∈ BASE58_ALPHABET → 0 < c < 128 ∧ c ≠ 35.
Proof.
  assert (forallb (λ c, (0 <? c) && (c <? 128) && negb (c =? 35)) BASE58_ALPHABET = true) as H by (vm_compute; reflexivity).
  intros Hc. apply (forallb_elem _ _ _ H) in Hc. inv_ok. refl_bool. lia.
Qed.

Lemma base58btc_encode_ascii b : Forall is_byte b → Forall (λ c, 0 < c < 128 ∧ c ≠ 35) (base58btc_encode b).
Proof.
  intros Hb. destruct (base58btc_encode_shape b Hb) as (k & r & w & n & _ & _ & _ & Hf & -> & _).
  apply Forall_fmap, Forall_app. split; [apply Forall_replicate; by vm_compute|].
  eapply Forall_impl; [apply (fixed_digits_digit 58); lia|]. intros d Hd. cbn in Hd. cbn [compose].
  apply BASE58_ASCII. unfold base58_char. apply list_elem_of_In, nth_In. change (length BASE58_ALPHABET) with 58%nat. lia.
Qed.

Lemma base58btc_encode_length b : Forall is_byte b → (length (base58btc_encode b) ≤ 3 * length b)%nat.
Proof.
  intros Hb. destruct (base58btc_encode_shape b Hb) as (k & r & w & n & Hbr & _ & _ & _ & He & Hw).
  rewrite He, length_fmap, length_app, length_replicate, length_fixed_digits.
  assert (k ≤ length b)%nat; [|lia]. rewrite Hbr, length_app, length_replicate. lia.
Qed.

Section did_facts.
Context `{Ed25519}.

(** A key in good order: the bytes are those of a public key. *)
Definition public_wf (public : pybytes) : Prop :=
  length public = PUBLIC_KEY_BYTES ∧ Forall is_byte public ∧ public_accepted public = true.

Lemma multicodec_bytes public : Forall is_byte public → Forall is_byte (ED25519_MULTICODEC ++ public).
Proof. intros Hb. apply Forall_app. split; [|done]. repeat constructor; by vm_compute. Qed.

Lemma resolve_did_of public : public_wf public → resolve_did_key_unsafe (PStr (did_of public)) = Ok (key_of public).
Proof.
  intros (Hl & Hb & Ha). pose proof (multicodec_bytes public Hb) as Hm.
  pose proof (base58btc_encode_ascii _ Hm) as Hascii. pose proof (base58btc_encode_length _ Hm) as Hlen.
  assert (length (ED25519_MULTICODEC ++ public) = 34%nat) as Hl34 by (rewrite length_app, Hl; done).
  assert (Forall (λ c, 0 < c < 128 ∧ c ≠ 35) (did_of public)) as Hd.
  { unfold did_of, fingerprint_of. rewrite !Forall_app. split_and!; [repeat constructor; by vm_compute..|done]. }
  unfold resolve_did_key_unsafe. unfold did_of at 1, fingerprint_of at 1.
  change (startswith (u "did:key:z") _) with (startswith (u "did:key:z") (u "did:key:z" ++ base58btc_encode (ED25519_MULTICODEC ++ public))).
  rewrite startswith_app. cbn [negb orb]. rewrite bool_decide_false.
  2:{ intros Hin. rewrite Forall_forall in Hd. by destruct (Hd 35 Hin). }
  cbn [raise_if mbind result_bind]. unfold encode_ascii.
  assert (forallb (λ c, (0 <=? c) && (c <? 128)) (did_of public) = true) as ->.
  { apply forallb_Forall. eapply Forall_impl; [exact Hd|]. cbn. intros c [Hc _]. apply andb_true_iff. split; refl_bool; lia. }
  cbn [negb raise_if mbind result_bind]. rewrite (proj2 (Z.ltb_ge _ _)).
  2:{ unfold did_of, fingerprint_of. rewrite !length_app. change (length (u "did:key:")) with 8%nat.
      change (length (u "z")) with 1%nat. unfold MAX_DID_BYTES. lia. }
  cbn [raise_if mbind result_bind]. change (drop 1 (drop (length (u "did:key:")) (did_of public)))
    with (base58btc_encode (ED25519_MULTICODEC ++ public)).
  rewrite base58btc_decode_encode; [|done|done|unfold MAX_DID_BYTES; lia].
  cbn [mbind result_bind]. rewrite startswith_app, Hl34. cbn [negb orb raise_if mbind result_bind].
  change (drop (length ED25519_MULTICODEC) (ED25519_MULTICODEC ++ public)) with public. rewrite Ha.
  cbn [negb raise_if mbind result_bind]. rewrite (proj2 (did_from_public_bytes_Ok public _) (conj Hl eq_refl)).
  cbn. by rewrite str_eqb_refl.
Qed.

Lemma resolve_did_key_inv value k : resolve_did_key_unsafe value = Ok k →
  public_wf (public_key k) ∧ k = key_of (public_key k) ∧ value = PStr (did k).
Proof.
  unfold resolve_did_key_unsafe, opaque. rewrite except_raise_Ok. destruct value as [| | | | | |d| |]; try done.
  intros H0. inv_ok. rename select (did_from_public_bytes _ = _) into Hd.
  apply did_from_public_bytes_Ok in Hd as [Hl ->]. cbn in H0. inv_ok. rename select (base58btc_decode _ = _) into Hb.
  apply base58btc_decode_inv in Hb as (Hb & _). cbn. rename select (str_eqb _ _ = true) into E. apply str_eqb_eq in E.
  split; [split; [done|split; [by apply Forall_drop|done]]|]. split; [done|]. by rewrite <-E.
Qed.

Lemma resolve_did_key_Ok value k :
  resolve_did_key value = Ok k ↔ public_wf (public_key k) ∧ k = key_of (public_key k) ∧ value = PStr (did k).
Proof.
  unfold resolve_did_key, capture. rewrite except_raise_Ok. split; [apply resolve_did_key_inv|].
  intros (Hw & Hk & ->). rewrite Hk. by apply resolve_did_of.
Qed.

(** ** Only the opaque failure leaves *)
Lemma capture_raises {A} (m : py A) e :
  capture m = Raise e → e = IdentityVerificationFailed ∨ control_flow e = true.
Proof.
  unfold capture, except_raise. destruct m as [a|x]; [done|]. intros [= <-]. destruct (control_flow x) eqn:Hx; auto.
Qed.
Lemma opaque_calm {A} (m : py A) e : no_interrupt m → opaque m = Raise e → e = IdentityVerificationFailed.
Proof. apply except_raise_calm. Qed.
Lemma calm_opaque {A} (m : py A) : no_interrupt m → no_interrupt (opaque m).
Proof. intros Hm e He. by apply opaque_calm in He as ->. Qed.
Lemma calm_decode58 s : no_interrupt (base58btc_decode s).
Proof. apply calm_opaque. solve_calm. Qed.
Lemma calm_did_from value : no_interrupt (did_from_public_bytes value).
Proof. unfold did_from_public_bytes. solve_calm. Qed.
#[local] Hint Resolve calm_decode58 calm_did_from : calm.
Lemma resolve_unsafe_raises value e : resolve_did_key_unsafe value = Raise e → e = IdentityVerificationFailed.
Proof. apply opaque_calm. unfold encode_ascii. solve_calm. Qed.

Lemma did_of_inj p q : public_wf p → public_wf q → did_of p = did_of q → p = q.
Proof. intros Hp%resolve_did_of Hq%resolve_did_of E. rewrite E, Hq in Hp. unfold key_of in Hp. congruence. Qed.

(** C35: Key identifiers are canonical.  [resolve_did_key] accepts exactly the
    identifiers that are made from the bytes of a public key, and gives that key; a
    key has one identifier and an identifier one key.  Every other value, of any
    type, is refused with the opaque failure. *)
Theorem did_keys_are_canonical value :
  match resolve_did_key value with
  | Ok k => public_wf (public_key k) ∧ k = key_of (public_key k) ∧ value = PStr (did k) ∧
            ∀ public, public_wf public → did_of public = did k → public = public_key k
  | Raise e => e = IdentityVerificationFailed ∧ ∀ public, public_wf public → value ≠ PStr (did_of public)
  end.
Proof.
  destruct (resolve_did_key value) as [k|e] eqn:E.
  - apply resolve_did_key_Ok in E as (Hw & Hk & Hv). split_and!; [done..|].
    intros q Hq Hd. apply did_of_inj; [done..|]. by rewrite Hd, Hk at 1.
  - split.
    + unfold resolve_did_key, capture in E. destruct (resolve_did_key_unsafe value) as [k|x] eqn:Ex; [done|].
      apply resolve_unsafe_raises in Ex as ->. by injection E.
    + intros q Hq ->. unfold resolve_did_key in E. by rewrite (resolve_did_of q Hq) in E.
Qed.

(** ** Signatures *)
Context `{!Ed25519Laws}.

Lemma public_of_wf seed : length seed = PUBLIC_KEY_BYTES → public_wf (public_of seed).
Proof. intros Hl. destruct (public_bytes_law seed Hl). split_and!; [done..|]. by apply public_accepted_law. Qed.

Lemma verify_signed seed m : length seed = PUBLIC_KEY_BYTES → Z.of_nat (length m) ≤ MAX_MESSAGE_BYTES →
  verify_ed25519 (PStr (did_of (public_of seed))) (Some m) (Some (sign_with seed m)) = Ok true.
Proof.
  intros Hs Hm. pose proof (public_of_wf seed Hs) as Hw. unfold verify_ed25519. rewrite (resolve_did_of _ Hw).
  cbn [mbind result_bind validate_message]. rewrite (proj2 (Z.ltb_ge _ _) Hm). cbn [raise_if mbind result_bind].
  destruct (signature_bytes_law seed m Hs) as [-> _]. cbn [Nat.eqb negb]. cbn [public_key key_of].
  destruct Hw as (_ & _ & ->). cbn. by rewrite signature_law.
Qed.

Lemma sign_ed25519_Ok message lease d s : sign_ed25519 message lease d = Ok s →
  ∃ m seed, message = Some m ∧ Z.of_nat (length m) ≤ MAX_MESSAGE_BYTES ∧ lease = Ok seed ∧
    length seed = PUBLIC_KEY_BYTES ∧ s = sign_with seed m ∧ (∀ x, d = Some x → x = did_of (public_of seed)).
Proof.
  unfold sign_ed25519, sign_ed25519_unsafe, capture, opaque. rewrite !except_raise_Ok. destruct message as [m|]; [|done]. cbn [validate_message].
  unfold from_private_bytes. intros E. inv_ok. rename select (Nat.eqb _ _ = true) into Hl. apply Nat.eqb_eq in Hl.
  refl_bool. eexists _, _. split_and!; [done..|]. intros expected ->. inv_ok.
  rename select (did_from_public_bytes _ = _) into Hd. apply did_from_public_bytes_Ok in Hd as [_ ->].
  cbn in *. inv_ok. by rename select (str_eqb _ _ = true) into Es; apply str_eqb_eq in Es.
Qed.

(** Signatures bind identifiers.  A signature that is made for an identifier was
    made with a seed from the key store whose public key has that identifier, of a
    message within the limit, and verifies under the identifier.  With such a seed
    and message signing succeeds. *)
Theorem signatures_bind_dids message lease d :
  match sign_ed25519 message lease (Some d) with
  | Ok s => verify_ed25519 (PStr d) message (Some s) = Ok true ∧
            ∃ seed, lease = Ok seed ∧ length seed = PUBLIC_KEY_BYTES ∧ d = did_of (public_of seed)
  | Raise _ => ∀ m seed, message = Some m → Z.of_nat (length m) ≤ MAX_MESSAGE_BYTES → lease = Ok seed →
                 length seed = PUBLIC_KEY_BYTES → d ≠ did_of (public_of seed)
  end.
Proof.
  destruct (sign_ed25519 message lease (Some d)) as [s|e] eqn:E.
  - apply sign_ed25519_Ok in E as (m & seed & -> & Hm & -> & Hs & -> & Hd). rewrite (Hd d eq_refl).
    split; [by apply verify_signed|eauto].
  - intros m seed -> Hm -> Hs ->. unfold sign_ed25519, sign_ed25519_unsafe in E. cbn [validate_message mbind result_bind] in E.
    rewrite (proj2 (Z.ltb_ge _ _) Hm) in E. unfold from_private_bytes in E. cbn [raise_if mbind result_bind] in E.
    rewrite Hs, Nat.eqb_refl in E. cbn [negb raise_if mbind result_bind] in E.
    destruct (public_bytes_law seed Hs) as [Hl _].
    rewrite (proj2 (did_from_public_bytes_Ok _ _) (conj Hl eq_refl)) in E. cbn in E. by rewrite str_eqb_refl in E.
Qed.
End did_facts.
