(* ===== verification/Jwt.v ===== *)
(** * Compact signed tokens

    Models the first half of [python/src/palonexus/identity/vc.py]: strings and
    timestamps, bounded JSON, base64url, and the tokens (JWT) that carry credentials:
    a header and a payload in canonical JSON, signed by the key of the issuer. *)

From stdpp Require Import base list list_numbers numbers strings.
From Stdlib Require Import SpecFloat.
From S2P Require Import Prelude PyString Errors Timestamp PyValue Decimal Unicode PyFloat.
From S2P Require Import CanonicalJson JsonScan WireText Retry Did.
Open Scope Z_scope.

Definition MAX_TOKEN_BYTES : Z := 65536.
Definition MAX_SEGMENT_BYTES : Z := 49152.
Definition MAX_JSON_DEPTH : Z := 16.
Definition MAX_JSON_ITEMS : Z := 512.
Definition MAX_TEXT_BYTES : Z := 8192.
Definition MAX_SCOPE_ITEMS : Z := 128.

Definition failed : exn := IdentityVerificationFailed.

(** ** Strings *)

(** [_valid_string]. *)
Definition valid_string (allow_empty : bool) (value : pyval) : py pystr :=
  opaque
    match value with
    | PStr s =>
        raise_if (bool_decide (s = []) && negb allow_empty) ValueError;;
        match utf8_encode s with
        | Some encoded =>
            raise_if ((MAX_TEXT_BYTES <? Z.of_nat (length encoded)) || bool_decide (0 ∈ s)) ValueError;; Ok s
        | None => Raise ValueError
        end
    | _ => Raise ValueError
    end.
Definition string_value : pyval → py pystr := valid_string false.

(** [_validated_string_tuple]. *)
Definition validated_string_tuple (allow_empty : bool) (value : pyval) : py (list pystr) :=
  opaque
    match value with
    | PList l =>
        raise_if (MAX_SCOPE_ITEMS <? Z.of_nat (length l)) ValueError;;
        result ← sequence_py (string_value <$> l);
        raise_if ((bool_decide (result = []) && negb allow_empty) || negb (bool_decide (NoDup result))) ValueError;;
        Ok result
    | _ => Raise ValueError
    end.

(** ** Timestamps *)

(** A timestamp as callers pass it: a number or a text, or a [datetime]. *)
Inductive stamp := SValue (v : pyval) | SDatetime (m : moment).

(** The parts of a finite float: [modf] with the fraction in units of [2 ^ -k]. *)
Definition float_parts (f : float) : Z * Z * Z :=
  match f with
  | S754_finite s m e =>
      if 0 <=? e then (signed s (Zpos m * 2 ^ e), 0, 1)
      else (signed s (Zpos m / 2 ^ (- e)), signed s (Zpos m mod 2 ^ (- e)), 2 ^ (- e))
  | _ => (0, 0, 1)
  end.
(** [n / d] to the nearest integer, ties to even. *)
Definition round_half_even (n d : Z) : Z :=
  let q := n / d in
  let r := 2 * (n - q * d) in
  if r <? d then q else if d <? r then q + 1 else if Z.even q then q else q + 1.
(** The product of the fraction with 1e6 is a float. *)
Definition microseconds_of (f : float) : Z :=
  let '(whole, part, unit) := float_parts f in
  let '(product, product_part, product_unit) := float_parts (fmul (true_divide part (Z.to_pos unit)) (of_int 1000000)) in
  whole * 1000000 + round_half_even (product * product_unit + product_part) product_unit.

(** [datetime.fromtimestamp(number, UTC)] in microseconds since the epoch. *)
Definition in_calendar (microseconds : Z) : py Z :=
  raise_if (negb ((MIN_TIMESTAMP * 1000000 <=? microseconds) && (microseconds <? (MAX_TIMESTAMP + 1) * 1000000)))
    ValueError;;
  Ok microseconds.

(** [datetime.fromisoformat] of a text that [_RFC3339] matches; digits of the
    fraction after the sixth are dropped. *)
Definition iso_microseconds (base fraction zone : pystr) : py Z :=
  match fromisoformat base with
  | Some t =>
      let hour := int_of_digits (slice 1 3 zone) in
      let minute := int_of_digits (slice 4 6 zone) in
      let offset := if str_eqb zone (u "Z") then 0
                    else (if bool_decide (head zone = Some 45) then -1 else 1) * (hour * 3600 + minute * 60) in
      raise_if (86400 <=? Z.abs offset) ValueError;;
      utc_microseconds (Moment t (int_of_digits (take 6 (fraction ++ u "000000"))) (Some 0)) (offset * 1000000)
  | None => Raise ValueError
  end.

(** [normalized.timestamp()] if it is integral.  A quotient that is exact is not
    rounded; another one is the nearest float, which may be integral as well. *)
Definition whole_seconds (microseconds : Z) : py Z :=
  if microseconds mod 1000000 =? 0 then Ok (microseconds / 1000000)
  else let '(whole, part, _) := float_parts (true_divide microseconds 1000000) in
       raise_if (negb (part =? 0)) ValueError;; Ok whole.

(** [_timestamp]. *)
Definition timestamp_of (value : stamp) : py Z :=
  opaque
    (microseconds ←
       match value with
       | SValue (PInt z) => in_calendar (z * 1000000)
       | SValue (PFloat f) => raise_if (negb (isfinite f)) ValueError;; in_calendar (microseconds_of f)
       | SValue (PStr s) =>
           text ← string_value (PStr s);
           match rfc3339_match text with
           | Some (base, fraction, zone) => iso_microseconds base fraction zone
           | None => Raise ValueError
           end
       | SDatetime m => match utcoffset m with Some o => utc_microseconds m o | None => Raise ValueError end
       | _ => Raise ValueError
       end;
     whole_seconds microseconds).

(** [_trusted_now]; a [datetime] in UTC with whole seconds is their number. *)
Definition trusted_now (value : stamp) : py Z :=
  timestamp ← timestamp_of value;
  opaque (microseconds ← in_calendar (timestamp * 1000000); Ok (microseconds / 1000000)).

(** ** JSON *)

(** The loops of [_inspect_json] over a list and over a dict, with the counter. *)
Definition inspect_items (inspect : pyval → Z → py (pyval * Z)) : list pyval → Z → py (list pyval * Z) :=
  fix go l counter :=
    match l with
    | [] => Ok ([], counter)
    | item :: l =>
        '(item, counter) ← inspect item counter;
        '(items, counter) ← go l counter;
        Ok (item :: items, counter)
    end.
Definition inspect_members (inspect : pyval → Z → py (pyval * Z))
    : list (pystr * pyval) → Z → py (list (pystr * pyval) * Z) :=
  fix go d counter :=
    match d with
    | [] => Ok ([], counter)
    | (key, item) :: d =>
        validated_key ← string_value (PStr key);
        '(item, counter) ← inspect item counter;
        '(output, counter) ← go d counter;
        Ok ((validated_key, item) :: output, counter)
    end.

(** [_inspect_json]. *)
Fixpoint inspect_json (value : pyval) (depth counter : Z) : py (pyval * Z) :=
  let counter := counter + 1 in
  raise_if ((MAX_JSON_ITEMS <? counter) || (MAX_JSON_DEPTH <? depth)) failed;;
  match value with
  | PNone | PBool _ | PInt _ => Ok (value, counter)
  | PStr _ => valid_string true value;; Ok (value, counter)
  | PFloat f => raise_if (negb (isfinite f)) failed;; Ok (value, counter)
  | PList l =>
      '(items, counter) ← inspect_items (λ item, inspect_json item (depth + 1)) l counter;
      Ok (PList items, counter)
  | PDict d =>
      '(output, counter) ← inspect_members (λ item, inspect_json item (depth + 1)) d counter;
      Ok (PDict output, counter)
  | PDec _ | PAbsent => Raise failed
  end.
Definition inspected (value : pyval) : py pyval := '(v, _) ← inspect_json value 0 0; Ok v.

(** The hook [reject_duplicates]. *)
Fixpoint reject_duplicates (result pairs : list (pystr * pyval)) : py (list (pystr * pyval)) :=
  match pairs with
  | [] => Ok result
  | (key, item) :: pairs =>
      raise_if (bool_decide (key ∈ result.*1)) ValueError;;
      reject_duplicates (result ++ [(key, item)]) pairs
  end.

(** [float(token)] of a JSON number. *)
Definition float_of_parts (negative : bool) (ip fp : pystr) (e : option Z) : float :=
  let coef := int_of_digits (ip ++ fp) in
  let exp := default 0 e - Z.of_nat (length fp) in
  let magnitude := if 0 <=? exp then of_int (coef * 10 ^ exp) else true_divide coef (Z.to_pos (10 ^ (- exp))) in
  if negative then SFopp magnitude else magnitude.
Definition jwt_number (negative : bool) (ip fp : pystr) (e : option Z) : py pyval :=
  match fp, e with
  | [], None => PInt <$> parse_int negative ip
  | _, _ => Ok (PFloat (float_of_parts negative ip fp e))
  end.

#[local] Instance jwt_hooks : JsonHooks := {|
  decode_error := ValueError;
  make_constant := λ _, Raise ValueError;
  make_number := jwt_number;
  make_object := reject_duplicates [];
|}.

(** [_json_loads]. *)
Definition jwt_json_loads (value : pybytes) : py (list (pystr * pyval)) :=
  opaque
    (text ← match utf8_decode value with Some text => Ok text | None => Raise ValueError end;
     loaded ← json_loads text;
     v ← inspected loaded;
     match v with PDict d => Ok d | _ => Raise ValueError end).

(** ** Base64url *)
Definition BASE64URL_ALPHABET : pystr :=
  u "ABCDEFGHIJKLMNOPQRSTUVWXYZabcdefghijklmnopqrstuvwxyz0123456789-_".
Definition base64_char (d : Z) : Z := nth (Z.to_nat d) BASE64URL_ALPHABET 0.
Definition base64_index (c : Z) : option Z := Z.of_nat ∘ fst <$> list_find (c =.) BASE64URL_ALPHABET.

(** [base64.urlsafe_b64encode] without the padding, as sextets. *)
Fixpoint sextets (value : pybytes) : list Z :=
  match value with
  | [] => []
  | [a] => [a / 4; a mod 4 * 16]
  | [a; b] => [a / 4; a mod 4 * 16 + b / 16; b mod 16 * 4]
  | a :: b :: c :: r => a / 4 :: a mod 4 * 16 + b / 16 :: b mod 16 * 4 + c / 64 :: c mod 64 :: sextets r
  end.
(** [base64.b64decode] of padded sextets; [None] is a [binascii.Error]. *)
Fixpoint octets (ds : list Z) : option pybytes :=
  match ds with
  | [] => Some []
  | [_] => None
  | [a; b] => Some [a * 4 + b / 16]
  | [a; b; c] => Some [a * 4 + b / 16; b mod 16 * 16 + c / 4]
  | a :: b :: c :: d :: r =>
      bytes ← octets r; Some (a * 4 + b / 16 :: b mod 16 * 16 + c / 4 :: c mod 4 * 64 + d :: bytes)
  end.

(** [_b64encode] and [_b64decode]. *)
Definition b64encode (value : pybytes) : pystr := base64_char <$> sextets value.
Definition b64decode (value : pystr) : py pybytes :=
  opaque
    (raise_if (bool_decide (value = []) || (MAX_SEGMENT_BYTES <? Z.of_nat (length value)) || bool_decide (61 ∈ value))
       ValueError;;
     indices ← match mapM base64_index value with Some ds => Ok ds | None => Raise ValueError end;
     decoded ← match octets indices with Some b => Ok b | None => Raise ValueError end;
     raise_if (negb (str_eqb (b64encode decoded) value)) ValueError;;
     Ok decoded).

(** ** Tokens *)
Section jwt.
Context `{UnicodeData} `{Ed25519}.

Definition jwt_header (kid : pystr) : pyval :=
  PDict [(u "alg", PStr (u "EdDSA")); (u "kid", PStr kid); (u "typ", PStr (u "JWT"))].

(** [_encode_jwt]; [lease] is the key that the store gives. *)
Definition encode_jwt (payload : pyval) (lease : py pybytes) (issuer : pystr) : py pystr :=
  resolved ← resolve_did_key (PStr issuer);
  inspected_payload ← inspected payload;
  raise_if (negb (is_dict inspected_payload)) failed;;
  header_bytes ← canonical_json_tree (jwt_header (key_id resolved));
  payload_bytes ← canonical_json_tree inspected_payload;
  let signing_input := b64encode header_bytes ++ u "." ++ b64encode payload_bytes in
  signature ← sign_ed25519 (Some signing_input) lease (Some issuer);
  let token := signing_input ++ u "." ++ b64encode signature in
  raise_if (MAX_TOKEN_BYTES <? Z.of_nat (length token)) failed;;
  Ok token.

(** [header.keys() == names]. *)
Definition keys_are {A} (d : list (pystr * A)) (names : list string) : bool :=
  (length d =? length names)%nat && forallb (λ k, bool_decide (u k ∈ d.*1)) names.

(** [_decode_verified_jwt]. *)
Definition decode_verified_jwt (token : pyval) : py (list (pystr * pyval)) :=
  opaque
    match token with
    | PStr t =>
        encoded ← encode_ascii t;
        raise_if (MAX_TOKEN_BYTES <? Z.of_nat (length encoded)) ValueError;;
        match split_on 46 t with
        | [encoded_header; encoded_payload; encoded_signature] =>
            header_bytes ← b64decode encoded_header;
            header ← jwt_json_loads header_bytes;
            payload_bytes ← b64decode encoded_payload;
            payload ← jwt_json_loads payload_bytes;
            canonical_header ← canonical_json_tree (PDict header);
            raise_if (negb (bool_decide (canonical_header = header_bytes))) ValueError;;
            canonical_payload ← canonical_json_tree (PDict payload);
            raise_if (negb (bool_decide (canonical_payload = payload_bytes))) ValueError;;
            signature ← b64decode encoded_signature;
            raise_if (negb (keys_are header ["alg"; "kid"; "typ"]%string)
                      || negb (py_eqb (opt_val (assoc (u "alg") header)) (PStr (u "EdDSA")))
                      || negb (py_eqb (opt_val (assoc (u "typ") header)) (PStr (u "JWT")))) ValueError;;
            issuer ← string_value (opt_val (assoc (u "iss") payload));
            resolved ← resolve_did_key (PStr issuer);
            raise_if (negb (py_eqb (opt_val (assoc (u "kid") header)) (PStr (key_id resolved)))) ValueError;;
            verified ← verify_ed25519 (PStr issuer) (Some (encoded_header ++ u "." ++ encoded_payload)) (Some signature);
            raise_if (negb verified) ValueError;;
            Ok payload
        | _ => Raise ValueError
        end
    | _ => Raise ValueError
    end.

End jwt.
