(* ===== verification/JwtFacts.v ===== *)
(** * Tokens are canonical

    A value of strings, integers, lists and objects that is written as canonical
    JSON is read back by the decoder of tokens, with its members in order.  A token
    is read back to the payload that was signed, and a payload that is read was
    signed by the key of its issuer. *)

From stdpp Require Import base list list_numbers numbers strings.
From Stdlib Require Import Sorted.
From S2P Require Import Prelude PyString Errors Timestamp PyValue Decimal Unicode PyFloat Interfaces CanonicalJson JsonScan JsonScanFacts WireText WireTextFacts.
From S2P Require Import JsonRoundTrip CanonicalFacts CanonicalPath Calm Retry Did Jwt.
Open Scope Z_scope.

Fixpoint sorted_json (v : pyval) : pyval :=
  match v with
  | PList l => PList (sorted_json <$> l)
  | PDict d => PDict (sort_fields ((λ p, (p.1, sorted_json p.2)) <$> d))
  | v => v
  end.

(** Strings, integers, constants, lists and objects. *)
Fixpoint plain_json (v : pyval) : bool :=
  match v with
  | PNone | PBool _ | PInt _ | PStr _ => true
  | PList l => forallb plain_json l
  | PDict d => forallb (λ p, plain_json p.2) d
  | PFloat _ | PDec _ | PAbsent => false
  end.

Lemma sorted_dict_perm d :
  sort_fields ((λ p : pystr * pyval, (p.1, sorted_json p.2)) <$> d) ≡ₚ (λ p, (p.1, sorted_json p.2)) <$> d.
Proof. apply sort_fields_perm. Qed.
Lemma sorted_dict_eq d :
  sort_fields ((λ p : pystr * pyval, (p.1, sorted_json p.2)) <$> d) = (λ p, (p.1, sorted_json p.2)) <$> sort_fields d.
Proof. apply sort_fields_fmap. Qed.
Lemma sorted_keys d : ((λ p : pystr * pyval, (p.1, sorted_json p.2)) <$> d).*1 = d.*1.
Proof. by rewrite <-list_fmap_compose. Qed.

Lemma Forall_sort_fields {A} (P : pystr * A → Prop) d : Forall P (sort_fields d) ↔ Forall P d.
Proof. by rewrite sort_fields_perm. Qed.

Section sorted_json.
Context `{UnicodeData}.

Lemma snapped_sorted v : snapped v → snapped (sorted_json v).
Proof.
  induction v as [| |b|z|f|d|s|l IH|d IH] using pyval_ind'; intros Hs; cbn [sorted_json]; try done.
  - inversion Hs as [| | | | | |? Hl|]; subst. constructor. apply Forall_fmap.
    rewrite Forall_forall in *. intros x Hx. apply IH; auto.
  - inversion Hs as [| | | | | | |? Hn Hk Hd]; subst. rewrite Forall_forall in IH, Hd. constructor.
    + rewrite sorted_dict_perm. by rewrite sorted_keys.
    + rewrite sorted_dict_perm. by apply Forall_fmap.
    + rewrite sorted_dict_perm. apply Forall_fmap, Forall_forall. intros p Hp. cbn. auto.
Qed.

Lemma limits_sorted v : ∀ rest, limits rest v → limits rest (sorted_json v).
Proof.
  induction v as [| |b|z|f|d|s|l IH|d IH] using pyval_ind'; intros rest Hl; cbn [sorted_json]; try done.
  - destruct rest as [|rest]; [done|]. destruct Hl as [Hn Hl]. split; [by rewrite length_fmap|]. apply Forall_fmap.
    rewrite Forall_forall in *. intros x Hx. apply IH; auto.
  - destruct rest as [|rest]; [done|]. destruct Hl as [Hn Hl]. rewrite Forall_forall in IH, Hl. split.
    + rewrite sorted_dict_perm. by rewrite length_fmap.
    + rewrite sorted_dict_perm. apply Forall_fmap, Forall_forall. intros p Hp. cbn. auto.
Qed.

Lemma cost_sorted v : cost (sorted_json v) = cost v.
Proof.
  induction v as [| |b|z|f|d|s|l IH|d IH] using pyval_ind'; cbn [sorted_json cost]; try done.
  - do 2 f_equal. rewrite <-list_fmap_compose. apply list_fmap_ext. intros i x Hx%list_elem_of_lookup_2.
    rewrite Forall_forall in IH. cbn. by rewrite IH.
  - f_equal. rewrite (Zsum_perm _ _ (fmap_Permutation _ _ _ (sorted_dict_perm d))).
    rewrite <-list_fmap_compose. f_equal. apply list_fmap_ext.
    intros i p Hp%list_elem_of_lookup_2. rewrite Forall_forall in IH. cbn. by rewrite IH.
Qed.

Lemma plain_present d : forallb (λ p : pystr * pyval, plain_json p.2) d = true → present is_absent d = d.
Proof.
  unfold present. induction d as [|[k x] d IH]; [done|]. cbn [forallb snd]. intros [Hx Hd]%andb_true_iff.
  rewrite filter_cons, decide_True, IH; [done|done|]. by destruct x.
Qed.

Lemma plain_sorted v : plain_json (sorted_json v) = plain_json v.
Proof.
  induction v as [| |b|z|f|d|s|l IH|d IH] using pyval_ind'; cbn [sorted_json plain_json]; try done.
  - rewrite forallb_fmap. induction IH as [|x l Hx _ IHl]; cbn; [done|]. by rewrite Hx, IHl.
  - apply eq_true_iff_eq. rewrite !forallb_Forall, sorted_dict_perm, Forall_fmap. rewrite !Forall_forall.
    rewrite Forall_forall in IH. split; intros Hd p Hp; specialize (Hd p Hp); cbn in *; by rewrite IH in *.
Qed.

Lemma encode_sorted v : snapped v → plain_json v = true → encode_canonical (sorted_json v) = encode_canonical v.
Proof.
  induction v as [| |b|z|f|d|s|l IH|d IH] using pyval_ind'; intros Hs Hp; cbn [sorted_json]; try done.
  - inversion Hs as [| | | | | |? Hl|]; subst. cbn [encode_canonical]. cbn [plain_json] in Hp.
    assert (existsb is_absent (sorted_json <$> l) = existsb is_absent l) as ->.
    { clear. induction l as [|x l IHl]; cbn; [done|]. rewrite IHl. by destruct x. }
    assert (encode_canonical <$> (sorted_json <$> l) = encode_canonical <$> l) as ->; [|done].
    rewrite <-list_fmap_compose. apply list_fmap_ext. intros i x Hx%list_elem_of_lookup_2.
    rewrite Forall_forall in IH, Hl. cbn. apply IH; [done|auto|by eapply forallb_elem].
  - inversion Hs as [| | | | | | |? Hn Hk Hd]; subst. pose proof (snapped_sorted (PDict d) Hs) as Hs'.
    cbn [sorted_json] in Hs'. inversion Hs' as [| | | | | | |? Hn' Hk' _]; subst.
    rewrite !encode_dict_eq by done. do 2 f_equal. pose proof (plain_sorted (PDict d)) as Hp'.
    cbn [plain_json sorted_json] in Hp, Hp'. rewrite !plain_present by congruence.
    rewrite (sort_fields_id (sort_fields _)) by apply sort_fields_Sorted.
    rewrite sorted_dict_eq, <-list_fmap_compose. apply list_fmap_ext. intros i p Hi%list_elem_of_lookup_2.
    rewrite sort_fields_perm in Hi. rewrite Forall_forall in IH, Hd. cbn.
    rewrite IH; [|done|auto|by apply (forallb_elem _ _ _ Hp)]. done.
Qed.

(** The sorted value has the same bytes. *)
Lemma canonical_sorted w b : sized MAX_NESTING_DEPTH w → plain_json w = true → canonical_bytes w = Ok b →
  canonical_json_tree (sorted_json w) = Ok b.
Proof.
  intros (Hs & Hl & Hc) Hp Hb. unfold canonical_json_tree.
  rewrite (snapshot_tree_complete (sorted_json w) MAX_NESTING_DEPTH 0);
    [|by apply snapped_sorted|by apply limits_sorted|rewrite cost_sorted; lia].
  cbn [mbind result_bind]. unfold canonical_bytes in *. by rewrite encode_sorted.
Qed.

(** ** Reading *)
Lemma pop_zeros_length ds e r e' : pop_zeros ds e = (r, e') → Z.of_nat (length ds) + e = Z.of_nat (length r) + e'.
Proof.
  revert e. induction ds as [|d ds IH]; intros e; cbn [pop_zeros]; [by intros [= <- <-]|].
  destruct ds as [|d' ds]; [by intros [= <- <-]|]. destruct (d =? 48); [|by intros [= <- <-]].
  intros E%IH. cbn [length] in *. lia.
Qed.

Lemma int_text z t : decimal_text (dec_of_int z) = Ok t → ∃ negative ip,
  json_number t negative ip [] None ∧ jwt_number negative ip [] None = Ok (PInt z).
Proof.
  intros Ht. exists (z <? 0), (nat_text (Z.abs z)). destruct (nat_text_spec (Z.abs z)) as (Hd & Hi & Hh); [lia|].
  assert (t = (if z <? 0 then u "-" else []) ++ nat_text (Z.abs z) ∧ (length (nat_text (Z.abs z)) ≤ 436)%nat) as [-> Hlen].
  { unfold decimal_text, dec_of_int in Ht. rewrite N2Z.inj_abs_N in Ht. unfold nat_text.
    destruct (Z.abs z =? 0) eqn:E0; refl_bool.
    - injection Ht as <-. rewrite (proj2 (Z.ltb_ge z 0)) by lia. split; [done|cbn; lia].
    - destruct (pop_zeros _ _) as [r e] eqn:Ep. apply pop_zeros_length in Ep. inv_ok. apply Nat.ltb_ge in Hx. refl_bool.
      rewrite length_rev in Ep. unfold MAX_SIGNIFICANT_DIGITS, MAX_NORMALIZED_EXPONENT in *. split; [|lia].
      unfold format_f. cbn [Z.leb Z.compare Z.to_nat replicate]. rewrite app_nil_r, bool_decide_false; [done|].
      intros [Hin|Hin]%elem_of_app; [change (u "-") with [45] in Hin; destruct (z <? 0); [by apply elem_of_cons in Hin as [|?%elem_of_nil]|by apply elem_of_nil in Hin]|].
      pose proof (digits_are_digits (Z.abs z)) as Had. rewrite Forall_forall in Had. by specialize (Had 46 Hin). }
  split.
  - split; [|done|constructor|done]. cbn. by rewrite !app_nil_r.
  - cbn. unfold parse_int. rewrite (proj2 (Nat.ltb_ge _ _)) by (unfold MAX_STR_DIGITS; lia). cbn. rewrite Hi. unfold signed.
    destruct (z <? 0) eqn:E; refl_bool; do 2 f_equal; lia.
Qed.

Lemma reject_duplicates_Ok pairs : ∀ result, NoDup (result.*1 ++ pairs.*1) → reject_duplicates result pairs = Ok (result ++ pairs).
Proof.
  induction pairs as [|[k x] pairs IH]; intros result Hn; cbn; [by rewrite app_nil_r|].
  rewrite bool_decide_false; cbn.
  - rewrite IH; [by rewrite <-app_assoc|]. rewrite fmap_app. cbn. by rewrite <-app_assoc.
  - intros Hin. apply NoDup_app in Hn as (_ & Hd & _). apply (Hd k Hin). by left.
Qed.

#[local] Existing Instance jwt_hooks.

Lemma reads_sorted v : ∀ t, snapped v → plain_json v = true → encode_canonical v = Ok t → reads (Ok (sorted_json v)) t.
Proof.
  induction v as [| |b|z|f|d|s|l IH|d IH] using pyval_ind'; intros t Hs Hp Ht; try done.
  - injection Ht as <-. apply reads_none.
  - destruct b; injection Ht as <-; apply (reads_bool true) || apply (reads_bool false).
  - destruct (int_text z t Ht) as (negative & ip & Hn & Hz). cbn [sorted_json]. rewrite <-Hz.
    exact (reads_number _ _ _ _ _ Hn).
  - inversion Hs as [| | | | |? Hn| |]; subst. cbn [encode_canonical] in Ht. unfold json_string in Ht.
    pose proof Hn as Hn'. red in Hn'. rewrite Hn' in Ht. injection Ht as <-. apply reads_string. by apply normal_nonneg.
  - inversion Hs as [| | | | | |? Hl|]; subst. cbn [encode_canonical] in Ht. inv_ok.
    rename select (sequence_py _ = _) into Hq. apply sequence_py_Forall2, Forall2_fmap_l in Hq. cbn [sorted_json].
    change (Ok (PList ?x)) with (PList <$> Ok (E := exn) x). rewrite <-(sequence_py_Ok (sorted_json <$> l)).
    apply reads_list, Forall2_fmap_l, Forall2_fmap_l. cbn [plain_json] in Hp. rewrite forallb_Forall in Hp.
    eapply Forall2_impl_Forall_l; [apply (proj2 (Forall_and _ _) (conj IH (proj2 (Forall_and _ _) (conj Hl Hp))))|exact Hq|].
    intros v p (HIH & Hv & Hpv) Hvp _ _. by apply HIH.
  - inversion Hs as [| | | | | | |? Hn Hk Hd]; subst. destruct (encode_dict d t Hn Hk Ht) as (parts & -> & Hq).
    cbn [plain_json] in Hp. rewrite plain_present in Hq by done. cbn [sorted_json]. rewrite sorted_dict_eq.
    assert (Forall2 reads_field ((λ f, (f.1, Ok (sorted_json f.2))) <$> sort_fields d) parts) as Hr.
    { apply Forall2_fmap_l. rewrite forallb_Forall in Hp. rewrite <-Forall_sort_fields in IH; rewrite <-Forall_sort_fields in Hk; rewrite <-Forall_sort_fields in Hd; rewrite <-Forall_sort_fields in Hp.
      eapply Forall2_impl_Forall_l;
        [apply (proj2 (Forall_and _ _) (conj (proj2 (Forall_and _ _) (conj IH Hp)) (proj2 (Forall_and _ _) (conj Hk Hd))))|exact Hq|].
      intros [k v] p [[HIH Hpv] [Hkn Hv]] (x & Hx & ->) _ _. split; [by apply normal_nonneg|]. exists x. split; [by apply HIH|done]. }
    apply reads_dict in Hr; [|done]. rewrite <-list_fmap_compose in Hr.
    change (field_outcome ∘ _) with (Ok (E := exn) ∘ λ f : pystr * pyval, (f.1, sorted_json f.2)) in Hr.
    rewrite list_fmap_compose, sequence_py_Ok in Hr. cbn [mbind result_bind make_object jwt_hooks] in Hr.
    rewrite reject_duplicates_Ok in Hr; [done|]. cbn [app fmap list_fmap]. rewrite sorted_keys. by rewrite sort_fields_perm.
Qed.

(** Bytes of UTF-8. *)
Lemma utf8_encode_is_byte s b : utf8_encode s = Some b → Forall (λ x, 0 ≤ x < 256) b.
Proof.
  revert b. induction s as [|c s IH]; intros b Hb; [by injection Hb as <-|].
  apply utf8_encode_cons in Hb as (x & y & Hx & Hy & ->). apply Forall_app. split; [|by apply IH].
  unfold utf8_char in Hx. repeat case_match; simplify_eq; inv_ok; refl_bool; repeat constructor;
    Z.to_euclidean_division_equations; lia.
Qed.

(** Texts in normal form. *)
Fixpoint normal_json (v : pyval) : bool :=
  match v with
  | PStr s => bool_decide (nfc_form s = s)
  | PList l => forallb normal_json l
  | PDict d => forallb (λ p, bool_decide (nfc_form p.1 = p.1) && normal_json p.2) d
  | _ => true
  end.

Lemma snap_of_normal v : ∀ w, snap_of v w → normal_json v = true → w = v.
Proof.
  induction v as [| |b|z|f|d|s|l IH|d IH] using pyval_ind'; intros w Hw Hn; inversion Hw; subst; try done.
  - cbn in Hn. refl_bool. rename select (nfc _ _ = _) into Hs. apply nfc_Ok in Hs as (-> & _). by rewrite Hn.
  - f_equal. cbn in Hn. rename select (Forall2 _ _ _) into Hl. clear Hw.
    induction Hl as [|x y l m Hx Hl IHl]; [done|]. cbn in Hn. apply andb_true_iff in Hn as [? ?].
    apply Forall_cons in IH as [IHx IH]. f_equal; [by apply IHx|by apply IHl].
  - f_equal. cbn in Hn. rename select (Forall2 _ _ _) into Hl.
    rename select (NoDup _) into Hd. clear Hw Hd. induction Hl as [|[k x] [k' y] d e [Hk Hx] Hl IHl]; [done|].
    cbn in Hn. rewrite !andb_true_iff in Hn. destruct Hn as [[Hkn Hxn] Hn]. refl_bool.
    apply Forall_cons in IH as [IHx IH]. cbn in *. apply nfc_Ok in Hk as (-> & _). rewrite Hkn. f_equal; [f_equal; by apply IHx|].
    by apply IHl.
Qed.

(** What the decoder of tokens reads from canonical bytes. *)
Lemma canonical_json_read v b : canonical_json_tree v = Ok b → plain_json v = true → normal_json v = true →
  ∃ t, utf8_decode b = Some t ∧ json_loads t = Ok (sorted_json v) ∧ canonical_json_tree (sorted_json v) = Ok b ∧
       Forall (λ x, 0 ≤ x < 256) b ∧ b ≠ [].
Proof.
  intros Hb Hp Hn. destruct (canonical_json_tree_inv v b Hb) as (w & t & Hw & Hl & Ht & _ & Hu & Hlen & Hc).
  pose proof (snap_of_normal v w Hw Hn) as ->. pose proof (snap_of_snapped _ _ Hw) as Hs.
  pose proof (reads_sorted v t Hs Hp Ht) as Hr. exists t. split_and!.
  - by apply utf8_decode_encode.
  - by apply json_loads_reads.
  - apply canonical_sorted; [done|done|]. unfold canonical_bytes. rewrite Ht. cbn. rewrite Hu.
    by rewrite (proj2 (Z.ltb_ge _ _) Hlen).
  - by eapply utf8_encode_is_byte.
  - intros ->. destruct Hr as [(c & r & -> & _) _]. apply utf8_encode_cons in Hu as (x & y & Hx & _ & E).
    symmetry in E. apply app_nil in E as [-> _]. by apply utf8_char_nonempty in Hx.
Qed.
End sorted_json.

(** ** Tokens: what they bind, and that they are read back

    Base64url and the bounded JSON of tokens are canonical: a token is read back to
    the payload that was signed, and a payload that is read was signed by the key of
    its issuer. *)

(** ** Base64url *)
Lemma base64_index_char d : 0 ≤ d < 64 → base64_index (base64_char d) = Some d.
Proof.
  intros Hd. assert (forallb (λ i, bool_decide (base64_index (base64_char (Z.of_nat i)) = Some (Z.of_nat i))) (seq 0 64) = true)
    as H by (vm_compute; reflexivity).
  apply (forallb_elem _ _ (Z.to_nat d)) in H; [|apply elem_of_seq; lia]. cbn beta in H. rewrite Z2Nat.id in H by lia.
  by refl_bool.
Qed.

Lemma base64_char_elem d : 0 ≤ d < 64 → base64_char d ∈ BASE64URL_ALPHABET.
Proof.
  intros Hd. unfold base64_char. apply list_elem_of_In, nth_In. change (length BASE64URL_ALPHABET) with 64%nat. lia.
Qed.

Lemma BASE64_plain c : c ∈ BASE64URL_ALPHABET → 0 ≤ c < 128 ∧ c ≠ 46 ∧ c ≠ 61.
Proof.
  assert (forallb (λ c, (0 <=? c) && (c <? 128) && negb (c =? 46) && negb (c =? 61)) BASE64URL_ALPHABET = true) as H
    by (vm_compute; reflexivity).
  intros Hc. apply (forallb_elem _ _ _ H) in Hc. inv_ok. refl_bool. lia.
Qed.

(** Induction by groups of three bytes. *)
Lemma triples_ind (P : pybytes → Prop) :
  P [] → (∀ a, P [a]) → (∀ a b, P [a; b]) → (∀ a b c r, P r → P (a :: b :: c :: r)) → ∀ s, P s.
Proof.
  intros H0 H1 H2 H3 s. assert (∀ n s, length s ≤ n → P s)%nat as H; [|eauto].
  clear s. induction n as [|n IH]; intros [|a [|b [|c r]]] Hn; cbn in Hn; auto with lia.
Qed.

Lemma sextets_digits b : Forall is_byte b → Forall (λ d, 0 ≤ d < 64) (sextets b).
Proof.
  induction b as [|a|a b|a b c r IH] using triples_ind; cbn [sextets]; intros Hb;
    repeat match goal with H : Forall is_byte (_ :: _) |- _ => apply Forall_cons_1 in H as [? H] end; unfold is_byte in *.
  - constructor.
  - repeat constructor; Z.to_euclidean_division_equations; lia.
  - repeat constructor; Z.to_euclidean_division_equations; lia.
  - repeat (constructor; [Z.to_euclidean_division_equations; lia|]). auto.
Qed.

Lemma octets_sextets b : Forall is_byte b → octets (sextets b) = Some b.
Proof.
  induction b as [|a|a b|a b c r IH] using triples_ind; cbn [sextets octets]; intros Hb;
    repeat match goal with H : Forall is_byte (_ :: _) |- _ => apply Forall_cons_1 in H as [? H] end; unfold is_byte in *.
  - done.
  - do 2 f_equal. Z.to_euclidean_division_equations; lia.
  - repeat f_equal; Z.to_euclidean_division_equations; lia.
  - rewrite IH by done. cbn. repeat f_equal; Z.to_euclidean_division_equations; lia.
Qed.

Lemma b64encode_plain b : Forall is_byte b → Forall (λ c, 0 ≤ c < 128 ∧ c ≠ 46 ∧ c ≠ 61) (b64encode b).
Proof.
  intros Hb. apply Forall_fmap. eapply Forall_impl; [by apply sextets_digits|].
  intros d Hd. by apply BASE64_plain, base64_char_elem.
Qed.

Lemma sextets_nil b : sextets b = [] → b = [].
Proof. by destruct b as [|a [|b [|c r]]]. Qed.

Lemma b64decode_encode b :
  Forall is_byte b → b ≠ [] → Z.of_nat (length (b64encode b)) ≤ MAX_SEGMENT_BYTES → b64decode (b64encode b) = Ok b.
Proof.
  intros Hb Hne Hl. unfold b64decode. rewrite (bool_decide_false (b64encode b = [])).
  2:{ by intros ?%fmap_nil_inv%sextets_nil. }
  rewrite (proj2 (Z.ltb_ge _ _) Hl). rewrite bool_decide_false.
  2:{ intros Hin. pose proof (b64encode_plain b Hb) as Hp. rewrite Forall_forall in Hp. by destruct (Hp 61 Hin) as (_ & _ & ?). }
  cbn [orb raise_if mbind result_bind]. assert (mapM base64_index (b64encode b) = Some (sextets b)) as ->.
  { apply mapM_Some. unfold b64encode. rewrite Forall2_fmap_l. pose proof (sextets_digits b Hb) as Hd.
    induction Hd; constructor; [by apply base64_index_char|done]. }
  cbn [mbind result_bind]. rewrite octets_sextets by done. cbn [mbind result_bind]. by rewrite str_eqb_refl.
Qed.

Lemma b64decode_inv s b : b64decode s = Ok b → s = b64encode b ∧ s ≠ [] ∧ Z.of_nat (length s) ≤ MAX_SEGMENT_BYTES.
Proof.
  unfold b64decode, opaque. rewrite except_raise_Ok. intros H. inv_ok. refl_bool.
  rename select (str_eqb _ _ = true) into E. by apply str_eqb_eq in E as <-.
Qed.

(** ** Strings and times *)
Lemma valid_string_inv e v s : valid_string e v = Ok s →
  v = PStr s ∧ ∃ b, utf8_encode s = Some b ∧ Z.of_nat (length b) ≤ MAX_TEXT_BYTES ∧ 0 ∉ s.
Proof.
  unfold valid_string, opaque. rewrite except_raise_Ok. destruct v as [| | | | | |t| |]; try done.
  intros H. inv_ok. destruct (utf8_encode t) as [b|] eqn:E; [|done]. inv_ok. refl_bool. eauto 6.
Qed.

Lemma string_value_inv v s : string_value v = Ok s → v = PStr s ∧ s ≠ [].
Proof.
  intros Hs. split; [by apply valid_string_inv in Hs as [-> _]|]. unfold string_value, valid_string, opaque in Hs.
  rewrite except_raise_Ok in Hs. intros ->. destruct v as [| | | | | |t| |]; try done. inv_ok.
  destruct (utf8_encode t); [|done]. inv_ok. done.
Qed.

Lemma valid_string_again e v s : valid_string e v = Ok s → valid_string e (PStr s) = Ok s.
Proof. intros Hs. pose proof Hs as [-> _]%valid_string_inv. done. Qed.

Lemma in_calendar_Ok us r : in_calendar us = Ok r ↔ r = us ∧ MIN_TIMESTAMP * 1000000 ≤ us < (MAX_TIMESTAMP + 1) * 1000000.
Proof.
  unfold in_calendar. destruct (_ && _) eqn:E; cbn.
  - apply andb_true_iff in E as [? ?]. refl_bool. naive_solver.
  - split; [done|]. intros [_ ?]. apply andb_false_iff in E as [E|E]; refl_bool; lia.
Qed.

(** The seconds of an instant in the calendar are their own timestamp. *)
Lemma timestamp_of_int z : in_calendar (z * 1000000) = Ok (z * 1000000) → timestamp_of (SValue (PInt z)) = Ok z.
Proof.
  intros Hz. unfold timestamp_of. rewrite Hz. cbn [mbind result_bind]. unfold whole_seconds.
  rewrite Z.mod_mul, Z.div_mul by lia. done.
Qed.

(** ** Inspection *)

(** The number of values in a value, its depth, and whether its texts are in order. *)
Fixpoint json_nodes (v : pyval) : Z :=
  match v with
  | PList l => 1 + foldr Z.add 0 (json_nodes <$> l)
  | PDict d => 1 + foldr Z.add 0 ((λ p, json_nodes p.2) <$> d)
  | _ => 1
  end.
Fixpoint json_depth (v : pyval) : Z :=
  match v with
  | PList l => foldr Z.max 0 ((λ x, 1 + json_depth x) <$> l)
  | PDict d => foldr Z.max 0 ((λ p, 1 + json_depth p.2) <$> d)
  | _ => 0
  end.
Fixpoint json_texts (v : pyval) : bool :=
  match v with
  | PNone | PBool _ | PInt _ => true
  | PStr _ => is_Ok (valid_string true v)
  | PFloat f => isfinite f
  | PList l => forallb json_texts l
  | PDict d => forallb (λ p, is_Ok (string_value (PStr p.1)) && json_texts p.2) d
  | PDec _ | PAbsent => false
  end.
Definition inspectable (v : pyval) : Prop :=
  json_nodes v ≤ MAX_JSON_ITEMS ∧ json_depth v ≤ MAX_JSON_DEPTH ∧ json_texts v = true.

Lemma json_nodes_pos v : 1 ≤ json_nodes v.
Proof.
  induction v as [| |b|z|f|d|s|l IH|d IH] using pyval_ind'; cbn; try lia.
  - induction IH as [|x l Hx _ IHl]; cbn in *; lia.
  - induction IH as [|p d Hp _ IHd]; cbn in *; lia.
Qed.
Lemma json_depth_nonneg v : 0 ≤ json_depth v.
Proof. destruct v as [| |b|z|f|d|s|l|d]; cbn; try lia; [induction l|induction d]; cbn in *; lia. Qed.

(** Inspection returns the value, if its size, depth and texts allow. *)
Definition inspects (inspect : pyval → Z → py (pyval * Z)) (depth : Z) (v : pyval) : Prop :=
  ∀ counter r, 0 ≤ counter →
    inspect v counter = Ok r ↔ r = (v, counter + json_nodes v) ∧ counter + json_nodes v ≤ MAX_JSON_ITEMS ∧
      depth + json_depth v ≤ MAX_JSON_DEPTH ∧ json_texts v = true.

Lemma inspect_items_Ok inspect depth l : Forall (inspects inspect depth) l → ∀ counter r, 0 ≤ counter →
  inspect_items inspect l counter = Ok r ↔
  let n := foldr Z.add 0 (json_nodes <$> l) in
  r = (l, counter + n) ∧ (l = [] ∨ counter + n ≤ MAX_JSON_ITEMS) ∧
  Forall (λ x, depth + json_depth x ≤ MAX_JSON_DEPTH) l ∧ forallb json_texts l = true.
Proof.
  induction 1 as [|x l Hx _ IH]; intros counter r Hc; cbn [inspect_items foldr fmap list_fmap forallb].
  { rewrite Z.add_0_r. split; [intros [= <-]; auto|intros [-> _]; done]. }
  rewrite bind_Ok_iff. pose proof (json_nodes_pos x). split.
  - intros ([y c] & (Hy & Hcx & Hd & Ht)%Hx & Hr); [|done]. injection Hy as -> ->.
    apply bind_Ok_iff in Hr as ([ys c] & (Hys & Hn & Hds & Hts)%IH & [= <-]); [|lia]. injection Hys as -> ->.
    split_and!; [f_equal; lia| |by constructor|by rewrite Ht].
    right. destruct Hn as [->|?]; [cbn; lia|lia].
  - intros (-> & Hn & [Hd Hds]%Forall_cons & [Ht Hts]%andb_true_iff).
    assert (0 ≤ foldr Z.add 0 (json_nodes <$> l)) as Hl.
    { clear. induction l as [|y l IHl]; cbn; [lia|]. pose proof (json_nodes_pos y). lia. }
    exists (x, counter + json_nodes x). split; [apply Hx; [done|]; destruct Hn; [done|]; split_and!; [done|lia|done..]|].
    cbn. assert (inspect_items inspect l (counter + json_nodes x)
                 = Ok (l, counter + json_nodes x + foldr Z.add 0 (json_nodes <$> l))) as ->.
    { apply IH; [lia|]. split_and!; [done|right; destruct Hn; [done|lia]|done..]. }
    cbn. do 2 f_equal. lia.
Qed.

Lemma string_value_self k : is_Ok (string_value (PStr k)) = true ↔ string_value (PStr k) = Ok k.
Proof.
  split; [|by intros ->]. destruct (string_value (PStr k)) as [s|e] eqn:E; [|done]. intros _.
  by apply string_value_inv in E as [[= <-] _].
Qed.

Lemma inspect_members_Ok inspect depth d : Forall (λ p, inspects inspect depth p.2) d → ∀ counter r, 0 ≤ counter →
  inspect_members inspect d counter = Ok r ↔
  let n := foldr Z.add 0 ((λ p, json_nodes p.2) <$> d) in
  r = (d, counter + n) ∧ (d = [] ∨ counter + n ≤ MAX_JSON_ITEMS) ∧
  Forall (λ p, depth + json_depth p.2 ≤ MAX_JSON_DEPTH) d ∧
  forallb (λ p, is_Ok (string_value (PStr p.1)) && json_texts p.2) d = true.
Proof.
  induction 1 as [|[k x] d Hx _ IH]; intros counter r Hc; cbn [inspect_members foldr fmap list_fmap forallb fst snd] in *.
  { rewrite Z.add_0_r. split; [intros [= <-]; auto|intros [-> _]; done]. }
  rewrite bind_Ok_iff. pose proof (json_nodes_pos x). split.
  - intros (k' & Hk & Hr). pose proof Hk as [[= <-] _]%string_value_inv.
    apply bind_Ok_iff in Hr as ([y c] & (Hy & Hcx & Hd & Ht)%Hx & Hr); [|done]. injection Hy as -> ->.
    apply bind_Ok_iff in Hr as ([ys c] & (Hys & Hn & Hds & Hts)%IH & [= <-]); [|lia]. injection Hys as -> ->.
    split_and!; [f_equal; lia| |by constructor|by rewrite Hk, Ht].
    right. destruct Hn as [->|?]; [cbn; lia|lia].
  - intros (-> & Hn & [Hd Hds]%Forall_cons & [[Hk Ht]%andb_true_iff Hts]%andb_true_iff).
    apply string_value_self in Hk. exists k. split; [done|].
    assert (0 ≤ foldr Z.add 0 ((λ p : pystr * pyval, json_nodes p.2) <$> d)) as Hl.
    { clear. induction d as [|p d IHd]; cbn; [lia|]. pose proof (json_nodes_pos p.2). lia. }
    apply bind_Ok_iff. exists (x, counter + json_nodes x).
    split; [apply Hx; [done|]; destruct Hn; [done|]; split_and!; [done|lia|done..]|].
    apply bind_Ok_iff. eexists (d, _). split; [|done].
    replace (counter + (json_nodes x + _)) with (counter + json_nodes x + foldr Z.add 0 ((λ p : pystr * pyval, json_nodes p.2) <$> d)) by lia.
    apply IH; [lia|]. split_and!; [done|right; destruct Hn; [done|lia]|done..].
Qed.

Lemma depth_max {A} (f : A → Z) l depth bound :
  depth ≤ bound → (depth + foldr Z.max 0 ((λ x, 1 + f x) <$> l) ≤ bound ↔ Forall (λ x, depth + 1 + f x ≤ bound) l).
Proof.
  intros Hb. induction l as [|x l IH]; cbn; [split; [constructor|lia]|]. rewrite Forall_cons, <-IH. lia.
Qed.

Lemma inspect_json_deep v depth c r : MAX_JSON_DEPTH < depth → inspect_json v depth c ≠ Ok r.
Proof. intros Hd. destruct v; cbn; rewrite (proj2 (Z.ltb_lt _ _) Hd), orb_true_r; done. Qed.

Lemma inspect_json_Ok v : ∀ depth, inspects (λ v, inspect_json v depth) depth v.
Proof.
  induction v as [| |b|z|f|d|s|l IH|d IH] using pyval_ind'; intros depth counter r Hc;
    (destruct (Z.lt_ge_cases MAX_JSON_DEPTH depth) as [Hd|Hd];
     [split; [by intros ?%inspect_json_deep|];
      match goal with |- context [json_depth ?v] => pose proof (json_depth_nonneg v) end; intros (_ & _ & ? & _); lia|]);
    cbn [inspect_json]; rewrite (proj2 (Z.ltb_ge MAX_JSON_DEPTH _)) by lia; rewrite orb_false_r;
    (destruct (MAX_JSON_ITEMS <? counter + 1) eqn:E; refl_bool;
     [split; [done|]; match goal with |- context [json_nodes ?v] => pose proof (json_nodes_pos v) end; intros (_ & ? & _); lia|]);
    cbn [raise_if mbind result_bind json_nodes json_depth json_texts].
  - naive_solver.
  - split; [intros [= <-]; repeat split; lia|naive_solver].
  - split; [intros [= <-]; repeat split; lia|naive_solver].
  - split; [intros [= <-]; repeat split; lia|naive_solver].
  - destruct (isfinite f); cbn; [split; [intros [= <-]; repeat split; lia|naive_solver]|naive_solver].
  - naive_solver.
  - destruct (valid_string true (PStr s)); cbn; [split; [intros [= <-]; repeat split; lia|naive_solver]|naive_solver].
  - rewrite depth_max by lia. rewrite bind_Ok_iff. split.
    + intros ([items c] & (Hi & Hn & Hds & Ht)%(inspect_items_Ok _ (depth + 1)) & [= <-]);
        [|eapply Forall_impl; [exact IH|]; intros x Hx; apply Hx|lia].
      injection Hi as -> ->. split_and!; [f_equal; lia|destruct Hn; [subst; cbn; lia|lia]|done..].
    + intros (-> & Hn & Hds & Ht). eexists (l, _). split; [|do 2 f_equal; cbn; lia].
      apply (inspect_items_Ok _ (depth + 1)); [eapply Forall_impl; [exact IH|]; intros x Hx; apply Hx|lia|].
      split_and!; [f_equal; lia|right; lia|done..].
  - rewrite (depth_max (λ p : pystr * pyval, json_depth p.2)) by lia. rewrite bind_Ok_iff. split.
    + intros ([items c] & (Hi & Hn & Hds & Ht)%(inspect_members_Ok _ (depth + 1)) & [= <-]);
        [|eapply Forall_impl; [exact IH|]; intros x Hx; apply Hx|lia].
      injection Hi as -> ->. split_and!; [f_equal; lia|destruct Hn; [subst; cbn; lia|lia]|done..].
    + intros (-> & Hn & Hds & Ht). eexists (d, _). split; [|do 2 f_equal; cbn; lia].
      apply (inspect_members_Ok _ (depth + 1)); [eapply Forall_impl; [exact IH|]; intros x Hx; apply Hx|lia|].
      split_and!; [f_equal; lia|right; lia|done..].
Qed.

Lemma inspected_Ok v w : inspected v = Ok w ↔ w = v ∧ inspectable v.
Proof.
  unfold inspected, inspectable. rewrite bind_Ok_iff. split.
  - intros ([x c] & (Hx & Hn & Hd & Ht)%inspect_json_Ok & [= <-]); [|lia]. injection Hx as -> ->. split_and!; [done|lia..|done].
  - intros (-> & Hn & Hd & Ht). eexists (v, _). split; [|done]. apply inspect_json_Ok; [lia|]. split_and!; [done|lia..|done].
Qed.

(** ** Sorted payloads *)
Definition sorted_members (d : list (pystr * pyval)) : list (pystr * pyval) :=
  sort_fields ((λ p, (p.1, sorted_json p.2)) <$> d).

Lemma foldr_perm {A} (f : A → A → A) a l m :
  (∀ x y z, f x (f y z) = f y (f x z)) → l ≡ₚ m → foldr f a l = foldr f a m.
Proof. intros Hf. induction 1 as [|x l m _ IH|x y l|l m k _ IH1 _ IH2]; cbn; congruence. Qed.

Lemma json_nodes_sorted v : json_nodes (sorted_json v) = json_nodes v.
Proof.
  induction v as [| |b|z|f|d|s|l IH|d IH] using pyval_ind'; cbn [sorted_json json_nodes]; try done; f_equal.
  - rewrite <-list_fmap_compose. f_equal. apply list_fmap_ext. intros i x Hx%list_elem_of_lookup_2.
    rewrite Forall_forall in IH. by apply IH.
  - rewrite (foldr_perm Z.add 0 _ _ ltac:(lia) (fmap_Permutation _ _ _ (sorted_dict_perm d))), <-list_fmap_compose. f_equal.
    apply list_fmap_ext. intros i x Hx%list_elem_of_lookup_2. rewrite Forall_forall in IH. by apply IH.
Qed.

Lemma json_depth_sorted v : json_depth (sorted_json v) = json_depth v.
Proof.
  induction v as [| |b|z|f|d|s|l IH|d IH] using pyval_ind'; cbn [sorted_json json_depth]; try done.
  - rewrite <-list_fmap_compose. f_equal. apply list_fmap_ext. intros i x Hx%list_elem_of_lookup_2.
    rewrite Forall_forall in IH. cbn. by rewrite IH.
  - rewrite (foldr_perm Z.max 0 _ _ ltac:(lia) (fmap_Permutation _ _ _ (sorted_dict_perm d))), <-list_fmap_compose. f_equal.
    apply list_fmap_ext. intros i x Hx%list_elem_of_lookup_2. rewrite Forall_forall in IH. cbn. by rewrite IH.
Qed.

Lemma json_texts_sorted v : json_texts (sorted_json v) = json_texts v.
Proof.
  induction v as [| |b|z|f|d|s|l IH|d IH] using pyval_ind'; cbn [sorted_json json_texts]; try done.
  - rewrite forallb_fmap. induction IH as [|x l Hx _ IHl]; cbn; [done|]. by rewrite Hx, IHl.
  - apply eq_true_iff_eq. rewrite !forallb_Forall, sorted_dict_perm, Forall_fmap. rewrite !Forall_forall.
    rewrite Forall_forall in IH. split; intros Hd p Hp; specialize (Hd p Hp); cbn in *; by rewrite IH in *.
Qed.

Lemma inspectable_sorted v : inspectable (sorted_json v) ↔ inspectable v.
Proof. unfold inspectable. by rewrite json_nodes_sorted, json_depth_sorted, json_texts_sorted. Qed.

Lemma texts_plain v : json_texts v = true → no_float v = true → plain_json v = true.
Proof.
  induction v as [| |b|z|f|d|s|l IH|d IH] using pyval_ind'; cbn; try done.
  - rewrite !forallb_Forall, !Forall_forall. rewrite Forall_forall in IH. auto.
  - rewrite !forallb_Forall, !Forall_forall. rewrite Forall_forall in IH. intros Ht Hf p Hp.
    specialize (Ht p Hp). apply andb_true_iff in Ht as [_ ?]. auto.
Qed.

Lemma assoc_sorted k d : NoDup d.*1 → assoc k (sorted_members d) = sorted_json <$> assoc k d.
Proof.
  intros Hn. unfold sorted_members. destruct (assoc k d) as [x|] eqn:E; cbn.
  - apply elem_assoc; [rewrite sorted_dict_perm; by rewrite sorted_keys|]. rewrite sorted_dict_perm.
    apply list_elem_of_fmap. exists (k, x). split; [done|]. by apply assoc_elem.
  - destruct (assoc k (sort_fields _)) as [y|] eqn:Ey; [|done]. apply assoc_elem in Ey. rewrite sorted_dict_perm in Ey.
    apply list_elem_of_fmap in Ey as ([k' x] & [= -> ->] & Hx). by rewrite (elem_assoc k' d x Hn Hx) in E.
Qed.

Lemma split_on_inv c s parts : split_on c s = parts → s = join [c] parts.
Proof.
  intros <-. induction s as [|x s IH]; cbn; [done|]. destruct (x =? c) eqn:E; refl_bool.
  - subst. destruct (split_on c s) as [|w ws] eqn:Ew; [|by rewrite IH].
    destruct s; cbn in Ew; [done|]. destruct (_ =? _); [done|]. by destruct (split_on c s).
  - destruct (split_on c s) as [|w ws]; [by rewrite IH|]. rewrite IH. by destruct ws.
Qed.

Section jwt_facts.
Context `{UnicodeData} `{Ed25519}.
#[local] Existing Instance jwt_hooks.

(** ** What a token binds *)

(** The token [t] carries the payload in canonical form, signed with the key of its
    issuer. *)
Definition authenticated (t : pystr) (payload : list (pystr * pyval)) : Prop :=
  ∃ header payload_bytes signature public,
    t = header ++ u "." ++ b64encode payload_bytes ++ u "." ++ b64encode signature ∧
    canonical_json_tree (PDict payload) = Ok payload_bytes ∧ inspectable (PDict payload) ∧
    public_wf public ∧ assoc (u "iss") payload = Some (PStr (did_of public)) ∧
    signature_valid public signature (header ++ u "." ++ b64encode payload_bytes) = true.

Lemma verify_ed25519_true d m s : verify_ed25519 d (Some m) (Some s) = Ok true →
  ∃ public, public_wf public ∧ d = PStr (did_of public) ∧ signature_valid public s m = true.
Proof.
  unfold verify_ed25519. destruct (resolve_did_key_unsafe d) as [k|e] eqn:E; [|by cbn; destruct (is_exception e)].
  apply resolve_did_key_inv in E as (Hw & Hk & ->). cbn [mbind result_bind].
  destruct (validate_message (Some m)) as [m'|e] eqn:Em; [|by cbn; destruct (is_exception e)].
  cbn in Em. inv_ok. cbn [mbind result_bind]. destruct (negb _); [done|].
  destruct (public_accepted (public_key k)); cbn; [|done]. intros [= Hs].
  exists (public_key k). by rewrite Hk.
Qed.

Lemma jwt_json_loads_inspectable b d : jwt_json_loads b = Ok d → inspectable (PDict d).
Proof.
  unfold jwt_json_loads, opaque. rewrite except_raise_Ok. intros E. inv_ok.
  rename select (inspected _ = _) into Hi. apply inspected_Ok in Hi as [-> Hi]. by case_match; inv_ok.
Qed.

Lemma decode_verified_jwt_Ok token payload : decode_verified_jwt token = Ok payload →
  ∃ t, token = PStr t ∧ authenticated t payload.
Proof.
  unfold decode_verified_jwt, opaque. rewrite except_raise_Ok. destruct token as [| | | | | |t| |]; try done.
  intros E. exists t. split; [done|]. inv_ok.
  destruct (split_on 46 t) as [|eh [|ep [|es [|]]]] eqn:Et; try done. apply split_on_inv in Et. inv_ok. refl_bool.
  repeat match goal with Hd : b64decode _ = Ok _ |- _ => apply b64decode_inv in Hd as (-> & _ & _) end. subst.
  rename select (verify_ed25519 _ _ _ = _) into Hv. apply verify_ed25519_true in Hv as (public & Hw & [= ->] & Hs).
  rename select (string_value _ = _) into Hi. apply string_value_inv in Hi as [Hi _].
  eexists _, _, _, public. split_and!; [done|done|by eapply jwt_json_loads_inspectable|apply Hw..| |done].
  destruct (assoc (u "iss") _); [|done]. by cbn in Hi; subst.
Qed.

(** ** Tokens are read back *)
Lemma canonical_plain v b : canonical_json_tree v = Ok b → json_texts v = true → plain_json v = true.
Proof.
  intros Hb Ht. apply texts_plain; [done|]. destruct (canonical_json_tree_inv v b Hb) as (w & t & Hw & _).
  by eapply snap_of_no_float.
Qed.

Lemma jwt_json_loads_canonical d b : canonical_json_tree (PDict d) = Ok b → inspectable (PDict d) →
  normal_json (PDict d) = true → jwt_json_loads b = Ok (sorted_members d) ∧
  canonical_json_tree (PDict (sorted_members d)) = Ok b ∧ Forall is_byte b ∧ b ≠ [].
Proof.
  intros Hb Hi Hn. pose proof Hi as (_ & _ & Ht).
  destruct (canonical_json_read _ b Hb (canonical_plain _ _ Hb Ht) Hn) as (t & Ht' & Hl & Hc & Hbytes & Hne).
  split_and!; [|done|done|done]. unfold jwt_json_loads. rewrite Ht'. cbn [mbind result_bind]. rewrite Hl.
  cbn [mbind result_bind]. rewrite (proj2 (inspected_Ok _ (sorted_json (PDict d)))); [done|].
  split; [done|]. by apply inspectable_sorted.
Qed.

(** A segment of a token is decoded. *)
Lemma segment_read b (t : pystr) : Forall is_byte b → b ≠ [] → (length (b64encode b) ≤ length t)%nat →
  Z.of_nat (length t) ≤ MAX_SEGMENT_BYTES → b64decode (b64encode b) = Ok b.
Proof. intros. apply b64decode_encode; [done..|lia]. Qed.

(** A text of ASCII characters without NUL. *)
Definition ascii_text (s : pystr) : Prop := Forall (λ c, 0 < c < 128) s.

Lemma ascii_valid e s : ascii_text s → s ≠ [] → Z.of_nat (length s) ≤ MAX_TEXT_BYTES → valid_string e (PStr s) = Ok s.
Proof.
  intros Ha Hne Hl. unfold valid_string. rewrite (bool_decide_false (s = [])) by done. cbn [andb raise_if mbind result_bind].
  rewrite utf8_encode_ascii; [|eapply Forall_impl; [exact Ha|]; cbn; lia].
  rewrite (proj2 (Z.ltb_ge _ _) Hl), bool_decide_false; [done|].
  intros Hin. unfold ascii_text in Ha. rewrite Forall_forall in Ha. specialize (Ha 0 Hin). lia.
Qed.
Lemma ascii_normal s : ascii_text s → nfc_form s = s.
Proof. intros Ha. apply nfc_form_ascii. eapply Forall_impl; [exact Ha|]. cbn. lia. Qed.

Lemma fingerprint_ascii public : public_wf public →
  ascii_text (fingerprint_of public) ∧ (length (fingerprint_of public) ≤ 103)%nat.
Proof.
  intros (Hl & Hb & _). pose proof (base58btc_encode_ascii _ (multicodec_bytes public Hb)) as Ha.
  pose proof (base58btc_encode_length _ (multicodec_bytes public Hb)) as Hlen. unfold fingerprint_of.
  rewrite length_app in *. rewrite Hl in Hlen. change (length ED25519_MULTICODEC + PUBLIC_KEY_BYTES)%nat with 34%nat in Hlen.
  change (length (u "z")) with 1%nat. split; [|lia]. apply Forall_app. split; [repeat constructor|].
  eapply Forall_impl; [exact Ha|]. cbn. lia.
Qed.

Lemma key_id_ascii public : public_wf public →
  ascii_text (key_id (key_of public)) ∧ (length (key_id (key_of public)) ≤ 400)%nat.
Proof.
  intros (Hf & Hl)%fingerprint_ascii. cbn [key_id key_of]. unfold did_of. rewrite !length_app.
  change (length (u "did:key:")) with 8%nat. change (length (u "#")) with 1%nat. split; [|lia].
  unfold ascii_text. rewrite !Forall_app. split_and!; [by repeat constructor|done|by repeat constructor|done].
Qed.

Lemma header_ok public : public_wf public →
  inspectable (jwt_header (key_id (key_of public))) ∧ normal_json (jwt_header (key_id (key_of public))) = true.
Proof.
  intros Hw. destruct (key_id_ascii public Hw) as [Ha Hl]. set (kid := key_id (key_of public)) in *.
  assert (kid ≠ []) as Hne by done. split.
  - split_and!; [done|done|]. cbn [jwt_header json_texts forallb fst snd]. unfold string_value.
    rewrite !(ascii_valid _ kid) by (done || unfold MAX_TEXT_BYTES; lia). vm_compute. reflexivity.
  - cbn [jwt_header normal_json forallb fst snd]. rewrite !(ascii_normal kid) by done.
    rewrite !ascii_normal by (by repeat constructor). rewrite !bool_decide_true by done. done.
Qed.

Lemma header_read kid : let header := [(u "alg", PStr (u "EdDSA")); (u "kid", PStr kid); (u "typ", PStr (u "JWT"))] in
  sorted_members header = header ∧ keys_are header ["alg"; "kid"; "typ"]%string = true ∧
  assoc (u "alg") header = Some (PStr (u "EdDSA")) ∧ assoc (u "typ") header = Some (PStr (u "JWT")) ∧
  assoc (u "kid") header = Some (PStr kid).
Proof. split_and!; reflexivity. Qed.

Lemma did_ascii public : public_wf public →
  ascii_text (did_of public) ∧ did_of public ≠ [] ∧ Z.of_nat (length (did_of public)) ≤ MAX_TEXT_BYTES.
Proof.
  intros (Hf & Hl)%fingerprint_ascii. unfold did_of. rewrite length_app. change (length (u "did:key:")) with 8%nat.
  split_and!; [|done|unfold MAX_TEXT_BYTES; lia]. apply Forall_app. split; [by repeat constructor|done].
Qed.

(** The parts of a token. *)
Lemma encode_jwt_inv `{!Ed25519Laws} payload lease issuer token : encode_jwt (PDict payload) lease issuer = Ok token →
  ∃ seed hb pb, let public := public_of seed in let signing_input := b64encode hb ++ u "." ++ b64encode pb in
    length seed = PUBLIC_KEY_BYTES ∧ public_wf public ∧ issuer = did_of public ∧ inspectable (PDict payload) ∧
    canonical_json_tree (jwt_header (key_id (key_of public))) = Ok hb ∧ canonical_json_tree (PDict payload) = Ok pb ∧
    token = signing_input ++ u "." ++ b64encode (sign_with seed signing_input) ∧
    Z.of_nat (length signing_input) ≤ MAX_MESSAGE_BYTES ∧ Z.of_nat (length token) ≤ MAX_TOKEN_BYTES.
Proof.
  unfold encode_jwt. intros E. apply bind_Ok_iff in E as (k & Hk & E). apply resolve_did_key_Ok in Hk as (Hw & Hkey & [= ->]).
  apply bind_Ok_iff in E as (v & [-> Hi]%inspected_Ok & E). cbn [is_dict negb raise_if mbind result_bind] in E.
  apply bind_Ok_iff in E as (hb & Hh & E). apply bind_Ok_iff in E as (pb & Hp & E).
  apply bind_Ok_iff in E as (sg & Hs & E). apply bind_Ok_iff in E as ([] & Hl%raise_if_Ok_iff & [= <-]). refl_bool.
  apply sign_ed25519_Ok in Hs as (m & seed & [= <-] & Hm & -> & Hseed & -> & Hd). specialize (Hd _ eq_refl).
  assert (public_key k = public_of seed) as Hpk.
  { apply did_of_inj; [done|by apply public_of_wf|]. apply (f_equal did) in Hkey. cbn in Hkey. congruence. }
  exists seed, hb, pb. rewrite <-Hpk, <-Hkey. apply (f_equal did) in Hkey. cbn in Hkey. by split_and!.
Qed.

Lemma jwt_round_trip `{!Ed25519Laws} payload lease issuer token :
  encode_jwt (PDict payload) lease issuer = Ok token → assoc (u "iss") payload = Some (PStr issuer) →
  NoDup payload.*1 → normal_json (PDict payload) = true → Z.of_nat (length token) ≤ MAX_SEGMENT_BYTES →
  decode_verified_jwt (PStr token) = Ok (sorted_members payload).
Proof.
  intros (seed & hb & pb & Hseed & Hw & -> & Hi & Hh & Hp & -> & Hm & Hlt)%encode_jwt_inv Hiss Hnd Hn Hlen.
  cbn zeta in *. set (public := public_of seed) in *. set (input := b64encode hb ++ u "." ++ b64encode pb) in *.
  destruct (header_ok public Hw) as [Hhi Hhn].
  destruct (jwt_json_loads_canonical _ hb Hh Hhi Hhn) as (Lh & Ch & Bh & Nh).
  destruct (jwt_json_loads_canonical _ pb Hp Hi Hn) as (Lp & Cp & Bp & Np).
  destruct (signature_bytes_law seed input Hseed) as [Ls Bs]. assert (sign_with seed input ≠ []) as Ns by (intros En; by rewrite En in Ls).
  set (sg := sign_with seed input) in *.
  pose proof (b64encode_plain hb Bh) as Ah. pose proof (b64encode_plain pb Bp) as Ap. pose proof (b64encode_plain sg Bs) as As.
  assert (∀ s, Forall (λ c, 0 ≤ c < 128 ∧ c ≠ 46 ∧ c ≠ 61) s → 46 ∉ s) as Hdot.
  { intros s Hs Hin. rewrite Forall_forall in Hs. by destruct (Hs 46 Hin) as (_ & ? & _). }
  unfold decode_verified_jwt. unfold encode_ascii.
  assert (forallb (λ c, (0 <=? c) && (c <? 128)) (input ++ u "." ++ b64encode sg) = true) as ->.
  { apply forallb_Forall. unfold input. rewrite !Forall_app.
    split_and!; try (by repeat constructor); (eapply Forall_impl; [eassumption|]); cbn; intros c (Hc & _);
      apply andb_true_iff; split; refl_bool; lia. }
  cbn [negb raise_if mbind result_bind]. rewrite (proj2 (Z.ltb_ge _ _) Hlt). cbn [raise_if mbind result_bind].
  assert (split_on 46 (input ++ u "." ++ b64encode sg) = [b64encode hb; b64encode pb; b64encode sg]) as ->.
  { unfold input. change (u ".") with [46]. rewrite <-!app_assoc. cbn [app].
    rewrite !split_on_app, !split_on_none by auto. done. }
  assert (length (b64encode hb) ≤ length (input ++ u "." ++ b64encode sg) ∧
          length (b64encode pb) ≤ length (input ++ u "." ++ b64encode sg) ∧
          length (b64encode sg) ≤ length (input ++ u "." ++ b64encode sg))%nat as (L1 & L2 & L3).
  { unfold input. rewrite !length_app. lia. }
  rewrite !(segment_read _ _ Bh Nh L1 Hlen), !(segment_read _ _ Bp Np L2 Hlen), (segment_read _ _ Bs Ns L3 Hlen).
  cbn [mbind result_bind]. rewrite Lh. cbn [mbind result_bind]. rewrite Lp. cbn [mbind result_bind].
  rewrite Ch. cbn [mbind result_bind]. rewrite bool_decide_true by done. cbn [negb raise_if mbind result_bind].
  rewrite Cp. cbn [mbind result_bind]. rewrite bool_decide_true by done. cbn [negb raise_if mbind result_bind].
  destruct (header_read (key_id (key_of public))) as (-> & -> & -> & -> & ->).
  destruct (did_ascii public Hw) as (Da & Dn & Dl).
  rewrite (assoc_sorted _ _ Hnd), Hiss. cbn [fmap option_fmap option_map sorted_json opt_val]. unfold string_value.
  assert (resolve_did_key (PStr (did_of public)) = Ok (key_of public)) as Hr by (by apply resolve_did_key_Ok).
  rewrite (ascii_valid _ _ Da Dn Dl). cbn [negb orb raise_if mbind result_bind]. rewrite Hr.
  cbn [mbind result_bind key_id key_of].
  unfold opt_val. cbn [default from_option id]. rewrite !(proj2 (py_eqb_str _ _) eq_refl).
  cbn [negb orb raise_if mbind result_bind]. unfold public, sg. by rewrite verify_signed.
Qed.
End jwt_facts.
