(* ===== verification/Verifiable.v ===== *)
(** * Verifiable credentials, presentations and delegations

    Models the second half of [python/src/palonexus/identity/vc.py].  A revocation
    lookup is a function from identifiers to its answer; a replay store is a state
    with the operation [check_and_record].  The functions are the public ones, with
    the boundary that hides every failure but control flow. *)

From stdpp Require Import base list list_numbers numbers strings gmap.
From S2P Require Import Prelude PyString Errors Timestamp PyValue Decimal Unicode PyFloat.
From S2P Require Import CanonicalJson JsonScan WireText Retry Did Jwt.
Open Scope Z_scope.

Definition MAX_CREDENTIALS : Z := 16.
Definition MAX_DELEGATIONS : Z := 16.
Definition VC_CONTEXT : pyval := PList [PStr (u "https://www.w3.org/2018/credentials/v1")].
Definition VC_TYPE : pyval := PList [PStr (u "VerifiableCredential")].
Definition VP_TYPE : pyval := PList [PStr (u "VerifiablePresentation")].

(** ** Revocation and replay *)

(** [is_revoked]: [None] stands for an answer that is not a [bool]. *)
Definition revocation_lookup : Type := pystr → py (option bool).

(** [StaticRevocationLookup]. *)
Definition static_lookup (revoked_ids : list pystr) : revocation_lookup :=
  λ credential_id, Ok (Some (bool_decide (credential_id ∈ revoked_ids))).
Definition make_static_lookup (revoked_ids : pyval) : py revocation_lookup :=
  capture (static_lookup <$> validated_string_tuple true revoked_ids).

(** [MemoryReplayStore]: the expiry of each identifier in microseconds. *)
Record replay_store := ReplayStore { entries : gmap pystr Z; max_entries : Z }.

Definition make_replay_store (testing_only : bool) (max_entries : Z) : py replay_store :=
  raise_if (negb testing_only || negb ((1 <=? max_entries) && (max_entries <=? 100000))) failed;;
  Ok (ReplayStore ∅ max_entries).

Definition valid_replay_id (s : pystr) : bool :=
  (0 <? Z.of_nat (length s)) && (Z.of_nat (length s) <=? 256) && forallb (λ c, (33 <=? c) && (c <=? 126)) s.

(** A [datetime] in UTC. *)
Definition utc_of (m : moment) : option Z :=
  o ← utcoffset m; match utc_microseconds m o with Ok t => Some t | Raise _ => None end.

Definition check_and_record (s : replay_store) (replay_id : pystr) (expires_at now : moment) : bool * replay_store :=
  match valid_replay_id replay_id, utc_of expires_at, utc_of now with
  | true, Some expiry, Some now =>
      if expiry <=? now then (false, s)
      else
        let current := filter (λ p : pystr * Z, now < p.2) (entries s) in
        let s := ReplayStore current (max_entries s) in
        if bool_decide (is_Some (current !! replay_id)) then (false, s)
        else if max_entries s <=? Z.of_nat (size current) then (false, s)
        else (true, ReplayStore (<[replay_id := expiry]> current) (max_entries s))
  | _, _, _ => (false, s)
  end.

(** ** Frozen claims *)
Unset Elimination Schemes.
Inductive frozen :=
| FrozenObject (items : list (pystr * frozen))
| FrozenArray (items : list frozen)
| FrozenValue (v : pyval).
Set Elimination Schemes.

Fixpoint freeze_json (value : pyval) : frozen :=
  match value with
  | PDict d => FrozenObject (sort_fields ((λ p, (p.1, freeze_json p.2)) <$> d))
  | PList l => FrozenArray (freeze_json <$> l)
  | v => FrozenValue v
  end.
Fixpoint thaw_json (value : frozen) : pyval :=
  match value with
  | FrozenObject items => PDict ((λ p, (p.1, thaw_json p.2)) <$> items)
  | FrozenArray items => PList (thaw_json <$> items)
  | FrozenValue v => v
  end.

(** ** Verified values *)

(** Times are seconds since the epoch. *)
Record verified_credential := VerifiedCredential {
  vc_issuer : pystr;
  vc_subject : pystr;
  vc_audience : pystr;
  vc_credential_id : pystr;
  vc_issued_at : Z;
  vc_expires_at : Z;
  vc_frozen_claims : frozen;
}.
Record verified_presentation := VerifiedPresentation {
  vp_holder : pystr;
  vp_audience : pystr;
  vp_challenge : pystr;
  vp_presentation_id : pystr;
  vp_issued_at : Z;
  vp_expires_at : Z;
  vp_credentials : list verified_credential;
}.
Record verified_delegation := VerifiedDelegation {
  vd_issuer : pystr;
  vd_subject : pystr;
  vd_actor : pystr;
  vd_agent : pystr;
  vd_audience : pystr;
  vd_capabilities : list pystr;
  vd_resources : list pystr;
  vd_remaining_depth : Z;
  vd_expires_at : Z;
  vd_credential_ids : list pystr;
}.

(** [VerifiedCredential.claims]. *)
Definition vc_claims (c : verified_credential) : py (list (pystr * pyval)) :=
  match thaw_json (vc_frozen_claims c) with PDict d => Ok d | _ => Raise failed end.

Section verifiable.
Context `{UnicodeData} `{Ed25519}.

(** ** Credentials *)

(** [_registered_claims]: the claims and the two times. *)
Definition registered_claims (issuer subject audience credential_id : pyval) (issued_at expires_at : stamp)
    : py (list (pystr * pyval) * Z * Z) :=
  validated_issuer ← string_value issuer;
  resolve_did_key (PStr validated_issuer);;
  validated_subject ← string_value subject;
  validated_audience ← string_value audience;
  validated_id ← string_value credential_id;
  issued ← timestamp_of issued_at;
  expires ← timestamp_of expires_at;
  raise_if (expires <=? issued) failed;;
  in_calendar (issued * 1000000);;
  in_calendar (expires * 1000000);;
  Ok ([(u "aud", PStr validated_audience); (u "exp", PInt expires); (u "iat", PInt issued);
       (u "iss", PStr validated_issuer); (u "jti", PStr validated_id); (u "nbf", PInt issued);
       (u "sub", PStr validated_subject)], issued, expires).

(** [create_verifiable_credential]. *)
Definition unsafe_create_verifiable_credential (lease : py pybytes) (issuer subject audience credential_id : pyval)
    (issued_at expires_at : stamp) (claims : pyval) : py pystr :=
  opaque
    ('(registered, _, _) ← registered_claims issuer subject audience credential_id issued_at expires_at;
     inspected_claims ← match claims with PDict d => inspected (PDict d) | _ => Raise TypeError end;
     raise_if (has_key inspected_claims "id") ValueError;;
     match inspected_claims, issuer with
     | PDict custom, PStr issuer =>
         let subject_id := (u "id", opt_val (assoc (u "sub") registered)) in
         let vc := PDict [(u "@context", VC_CONTEXT); (u "credentialSubject", PDict (subject_id :: custom));
                          (u "id", opt_val (assoc (u "jti") registered));
                          (u "issuer", opt_val (assoc (u "iss") registered)); (u "type", VC_TYPE)] in
         encode_jwt (PDict (registered ++ [(u "vc", vc)])) lease issuer
     | _, _ => Raise ValueError
     end).
Definition create_verifiable_credential (lease : py pybytes) (issuer subject audience credential_id : pyval)
    (issued_at expires_at : stamp) (claims : pyval) : py pystr :=
  capture (unsafe_create_verifiable_credential lease issuer subject audience credential_id issued_at expires_at claims).

(** [_verify_times_and_binding]. *)
Definition verify_times_and_binding (payload : list (pystr * pyval)) (expected_audience : pyval) (now : stamp)
    : py (Z * Z) :=
  raise_if (negb (forallb (λ k, bool_decide (u k ∈ payload.*1)) ["aud"; "exp"; "iat"; "iss"; "jti"; "nbf"; "sub"]%string))
    failed;;
  let claim name := opt_val (assoc (u name) payload) in
  audience ← string_value (claim "aud"%string);
  expected ← string_value expected_audience;
  raise_if (negb (str_eqb audience expected)) failed;;
  issued_timestamp ← timestamp_of (SValue (claim "iat"%string));
  not_before ← timestamp_of (SValue (claim "nbf"%string));
  expires_timestamp ← timestamp_of (SValue (claim "exp"%string));
  current ← trusted_now now;
  raise_if (negb (not_before =? issued_timestamp) || (expires_timestamp <=? issued_timestamp)
            || (current <? not_before) || (expires_timestamp <=? current)) failed;;
  in_calendar (issued_timestamp * 1000000);;
  in_calendar (expires_timestamp * 1000000);;
  Ok (issued_timestamp, expires_timestamp).

(** [_check_revocation]. *)
Definition check_revocation (credential_id : pystr) (lookup : revocation_lookup) : py () :=
  opaque (revoked ← lookup credential_id;
          match revoked with Some false => Ok () | _ => Raise ValueError end).

(** [verify_verifiable_credential]. *)
Definition unsafe_verify_verifiable_credential (token expected_audience : pyval) (now : stamp) (lookup : revocation_lookup)
    : py verified_credential :=
  opaque
    (payload ← decode_verified_jwt token;
     '(issued, expires) ← verify_times_and_binding payload expected_audience now;
     let claim name := opt_val (assoc (u name) payload) in
     issuer ← string_value (claim "iss"%string);
     subject ← string_value (claim "sub"%string);
     credential_id ← string_value (claim "jti"%string);
     match claim "vc"%string with
     | PDict vc =>
         let member name := opt_val (assoc (u name) vc) in
         raise_if (negb (py_eqb (member "@context") VC_CONTEXT) || negb (py_eqb (member "type") VC_TYPE)
                   || negb (py_eqb (member "id") (PStr credential_id))
                   || negb (py_eqb (member "issuer") (PStr issuer)))%string ValueError;;
         match member "credentialSubject"%string with
         | PDict credential_subject =>
             raise_if (negb (py_eqb (opt_val (assoc (u "id") credential_subject)) (PStr subject))) ValueError;;
             let custom := filter (λ p : pystr * pyval, p.1 ≠ u "id") credential_subject in
             check_revocation credential_id lookup;;
             audience ← string_value (claim "aud"%string);
             Ok (VerifiedCredential issuer subject audience credential_id issued expires (freeze_json (PDict custom)))
         | _ => Raise ValueError
         end
     | _ => Raise ValueError
     end).
Definition verify_verifiable_credential (token expected_audience : pyval) (now : stamp) (lookup : revocation_lookup)
    : py verified_credential :=
  capture (unsafe_verify_verifiable_credential token expected_audience now lookup).

(** ** Presentations *)
Definition unsafe_create_verifiable_presentation (lease : py pybytes) (holder credentials audience challenge : pyval)
    (presentation_id : pyval) (issued_at expires_at : stamp) : py pystr :=
  opaque
    match credentials, holder with
    | PList l, PStr holder_did =>
        raise_if (bool_decide (l = []) || (MAX_CREDENTIALS <? Z.of_nat (length l))) ValueError;;
        values ← sequence_py (string_value <$> l);
        '(registered, _, _) ← registered_claims holder holder audience presentation_id issued_at expires_at;
        nonce ← string_value challenge;
        let vp := PDict [(u "@context", VC_CONTEXT); (u "type", VP_TYPE);
                         (u "verifiableCredential", PList (PStr <$> values))] in
        encode_jwt (PDict (registered ++ [(u "nonce", PStr nonce); (u "vp", vp)])) lease holder_did
    | _, _ => Raise ValueError
    end.
Definition create_verifiable_presentation (lease : py pybytes) (holder credentials audience challenge : pyval)
    (presentation_id : pyval) (issued_at expires_at : stamp) : py pystr :=
  capture (unsafe_create_verifiable_presentation lease holder credentials audience challenge presentation_id issued_at expires_at).

(** The earliest expiry. *)
Definition earliest (expiries : list Z) : Z :=
  match expiries with [] => 0 | e :: es => foldl Z.min e es end.

(** A [datetime] in UTC from its seconds. *)
Definition utc_datetime (seconds : Z) : moment :=
  Moment (default (Datetime 1970 1 1 0 0 0) (fromtimestamp seconds)) 0 (Some 0).

(** [_unsafe_verify_verifiable_presentation] up to the replay store: the presentation
    and the time to record. *)
Definition read_presentation (token expected_audience expected_challenge : pyval) (now : stamp)
    (lookup : revocation_lookup) : py (verified_presentation * Z) :=
  payload ← decode_verified_jwt token;
  '(issued, expires) ← verify_times_and_binding payload expected_audience now;
  let claim name := opt_val (assoc (u name) payload) in
  holder ← string_value (claim "iss"%string);
  raise_if (negb (py_eqb (claim "sub"%string) (PStr holder))) ValueError;;
  challenge ← string_value (claim "nonce"%string);
  expected ← string_value expected_challenge;
  raise_if (negb (str_eqb challenge expected)) ValueError;;
  presentation_id ← string_value (claim "jti"%string);
  match claim "vp"%string with
  | PDict vp =>
      let member name := opt_val (assoc (u name) vp) in
      raise_if (negb (py_eqb (member "@context") VC_CONTEXT) || negb (py_eqb (member "type") VP_TYPE))%string
        ValueError;;
      match member "verifiableCredential"%string with
      | PList items =>
          raise_if (bool_decide (items = []) || (MAX_CREDENTIALS <? Z.of_nat (length items))) ValueError;;
          credentials ← sequence_py
            ((λ item, s ← string_value item; verify_verifiable_credential (PStr s) expected_audience now lookup) <$> items);
          raise_if (earliest (vc_expires_at <$> credentials) <? expires) ValueError;;
          recorded_at ← trusted_now now;
          audience ← string_value (claim "aud"%string);
          Ok (VerifiedPresentation holder audience challenge presentation_id issued expires credentials, recorded_at)
      | _ => Raise ValueError
      end
  | _ => Raise ValueError
  end.

(** [verify_verifiable_presentation] with a [MemoryReplayStore].  The audience is read
    again after the recording, where it is as valid as before. *)
Definition unsafe_verify_verifiable_presentation (token expected_audience expected_challenge : pyval) (now : stamp)
    (lookup : revocation_lookup) (store : replay_store) : py verified_presentation * replay_store :=
  match read_presentation token expected_audience expected_challenge now lookup with
  | Raise e => (opaque (Raise e), store)
  | Ok (presentation, recorded_at) =>
      let '(recorded, store) := check_and_record store (vp_presentation_id presentation)
                                  (utc_datetime (vp_expires_at presentation)) (utc_datetime recorded_at) in
      (opaque (raise_if (negb recorded) ValueError;; Ok presentation), store)
  end.
Definition verify_verifiable_presentation (token expected_audience expected_challenge : pyval) (now : stamp)
    (lookup : revocation_lookup) (store : replay_store) : py verified_presentation * replay_store :=
  let '(result, store) :=
    unsafe_verify_verifiable_presentation token expected_audience expected_challenge now lookup store in
  (capture result, store).

(** ** Delegations *)
Definition unsafe_create_delegation (lease : py pybytes) (issuer subject audience credential_id actor agent : pyval)
    (capabilities resources : pyval) (remaining_depth : pyval) (issued_at expires_at : stamp) : py pystr :=
  opaque
    match remaining_depth with
    | PInt depth =>
        raise_if (negb ((0 <=? depth) && (depth <=? 16))) ValueError;;
        actor ← string_value actor;
        agent ← string_value agent;
        capabilities ← validated_string_tuple false capabilities;
        resources ← validated_string_tuple false resources;
        let delegation := PDict [(u "actor", PStr actor); (u "agent", PStr agent);
                                 (u "capabilities", PList (PStr <$> capabilities)); (u "remainingDepth", PInt depth);
                                 (u "resources", PList (PStr <$> resources))] in
        create_verifiable_credential lease issuer subject audience credential_id issued_at expires_at
          (PDict [(u "delegation", delegation)])
    | _ => Raise ValueError
    end.
Definition create_delegation (lease : py pybytes) (issuer subject audience credential_id actor agent : pyval)
    (capabilities resources : pyval) (remaining_depth : pyval) (issued_at expires_at : stamp) : py pystr :=
  capture (unsafe_create_delegation lease issuer subject audience credential_id actor agent
             capabilities resources remaining_depth issued_at expires_at).

(** What a link of a chain gives to the next one. *)
Record link := Link {
  ln_subject : pystr;
  ln_capabilities : list pystr;
  ln_resources : list pystr;
  ln_depth : Z;
  ln_expiry : Z;
}.

Definition subset (xs ys : list pystr) : bool := forallb (λ x, bool_decide (x ∈ ys)) xs.

(** The body of the loop over the credentials: [previous] is the link before, if
    there is one. *)
Definition check_link (actor_expected agent_expected : pystr) (seen : list pystr) (previous : option link)
    (c : verified_credential) : py link :=
  raise_if (match previous with Some p => negb (str_eqb (vc_issuer c) (ln_subject p)) | None => false end) ValueError;;
  raise_if (bool_decide (vc_subject c ∈ seen)) ValueError;;
  claims ← vc_claims c;
  match opt_val (assoc (u "delegation") claims) with
  | PDict delegation =>
      raise_if (negb (keys_are claims ["delegation"%string])) ValueError;;
      let member name := opt_val (assoc (u name) delegation) in
      actor ← string_value (member "actor"%string);
      agent ← string_value (member "agent"%string);
      capabilities ← validated_string_tuple false (member "capabilities"%string);
      resources ← validated_string_tuple false (member "resources"%string);
      match member "remainingDepth"%string with
      | PInt depth =>
          raise_if (negb ((0 <=? depth) && (depth <=? 16))) ValueError;;
          raise_if (negb (str_eqb actor actor_expected) || negb (str_eqb agent agent_expected)) ValueError;;
          raise_if (match previous with
                    | Some p => negb (subset capabilities (ln_capabilities p)) || negb (subset resources (ln_resources p))
                                || (ln_depth p <=? depth) || (ln_expiry p <? vc_expires_at c)
                    | None => false
                    end) ValueError;;
          Ok (Link (vc_subject c) capabilities resources depth (vc_expires_at c))
      | _ => Raise ValueError
      end
  | _ => Raise ValueError
  end.

Fixpoint check_links (actor agent : pystr) (seen : list pystr) (previous : option link)
    (credentials : list verified_credential) : py (option link) :=
  match credentials with
  | [] => Ok previous
  | c :: credentials =>
      l ← check_link actor agent seen previous c;
      check_links actor agent (vc_subject c :: seen) (Some l) credentials
  end.

(** [verify_delegation_chain]. *)
Definition unsafe_verify_delegation_chain (chain root_issuer expected_subject expected_actor expected_agent : pyval)
    (expected_audience required_capability required_resource : pyval) (now : stamp) (lookup : revocation_lookup)
    : py verified_delegation :=
  opaque
    match chain with
    | PList tokens =>
        raise_if (bool_decide (tokens = []) || (MAX_DELEGATIONS <? Z.of_nat (length tokens))) ValueError;;
        root ← string_value root_issuer;
        subject_expected ← string_value expected_subject;
        actor_expected ← string_value expected_actor;
        agent_expected ← string_value expected_agent;
        capability_required ← string_value required_capability;
        resource_required ← string_value required_resource;
        credentials ← sequence_py
          ((λ token, t ← string_value token; verify_verifiable_credential (PStr t) expected_audience now lookup) <$> tokens);
        raise_if (negb (bool_decide (vc_issuer <$> head credentials = Some root))) ValueError;;
        final ← check_links actor_expected agent_expected [root] None credentials;
        match final with
        | Some l =>
            raise_if (negb (str_eqb (ln_subject l) subject_expected)
                      || negb (bool_decide (capability_required ∈ ln_capabilities l))
                      || negb (bool_decide (resource_required ∈ ln_resources l))) ValueError;;
            audience ← string_value expected_audience;
            Ok (VerifiedDelegation root (ln_subject l) actor_expected agent_expected audience (ln_capabilities l)
                  (ln_resources l) (ln_depth l) (ln_expiry l) (vc_credential_id <$> credentials))
        | None => Raise ValueError
        end
    | _ => Raise ValueError
    end.
Definition verify_delegation_chain (chain root_issuer expected_subject expected_actor expected_agent : pyval)
    (expected_audience required_capability required_resource : pyval) (now : stamp) (lookup : revocation_lookup)
    : py verified_delegation :=
  capture (unsafe_verify_delegation_chain chain root_issuer expected_subject expected_actor expected_agent expected_audience
             required_capability required_resource now lookup).
End verifiable.
