(* ===== verification/VerifiableFacts.v ===== *)
(** * Verified credentials, presentations and delegations

    What [verify_verifiable_credential], [verify_verifiable_presentation] and
    [verify_delegation_chain] of [python/src/palonexus/identity/vc.py] promise of the
    values they return, that created credentials verify, and what leaves the public
    functions on failure. *)

From stdpp Require Import base list list_numbers numbers strings gmap sorting.
From S2P Require Import Prelude PyString Errors Timestamp PyValue Decimal Unicode PyFloat.
From S2P Require Import CanonicalJson JsonScan WireText Retry JsonRoundTrip Calm Did Jwt JwtFacts Verifiable.
Open Scope Z_scope.

(** ** Freezing and thawing *)
Lemma thaw_freeze v : thaw_json (freeze_json v) = sorted_json v.
Proof.
  induction v as [| |b|z|f|d|s|l IH|d IH] using pyval_ind'; cbn [freeze_json thaw_json sorted_json]; try done.
  - f_equal. rewrite <-list_fmap_compose. apply list_fmap_ext. intros i x Hx%list_elem_of_lookup_2.
    rewrite Forall_forall in IH. by apply IH.
  - f_equal. rewrite <-(sort_fields_fmap thaw_json). f_equal. rewrite <-list_fmap_compose. apply list_fmap_ext.
    intros i x Hx%list_elem_of_lookup_2. rewrite Forall_forall in IH. cbn. f_equal. by apply IH.
Qed.

Lemma vc_claims_frozen issuer subject audience i a b d :
  vc_claims (VerifiedCredential issuer subject audience i a b (freeze_json (PDict d))) = Ok (sorted_members d).
Proof. unfold vc_claims. cbn [vc_frozen_claims]. by rewrite thaw_freeze. Qed.

Section verifiable_facts.
Context `{UnicodeData} `{Ed25519}.

(** ** What a verified credential promises *)

(** The members of a payload that verification reads. *)
Definition claims_of (payload : list (pystr * pyval)) (name : string) : pyval := opt_val (assoc (u name) payload).

(** The window of validity contains the current time. *)
Definition current (now : stamp) (issued expires : Z) : Prop :=
  ∃ n, trusted_now now = Ok n ∧ issued ≤ n < expires.

Lemma opt_val_str o s : opt_val o = PStr s → o = Some (PStr s).
Proof. destruct o; cbn; congruence. Qed.

Lemma verify_times_and_binding_Ok payload audience now issued expires :
  verify_times_and_binding payload audience now = Ok (issued, expires) →
  (∃ a, assoc (u "aud") payload = Some (PStr a) ∧ audience = PStr a) ∧
  timestamp_of (SValue (claims_of payload "iat")) = Ok issued ∧
  timestamp_of (SValue (claims_of payload "exp")) = Ok expires ∧ current now issued expires ∧
  MIN_TIMESTAMP ≤ expires ≤ MAX_TIMESTAMP.
Proof.
  unfold verify_times_and_binding, claims_of. intros E. inv_ok. refl_bool.
  rename select (str_eqb _ _ = true) into Ha. apply str_eqb_eq in Ha as ->.
  repeat match goal with Hs : string_value _ = Ok _ |- _ => apply string_value_inv in Hs as [Hs _] end.
  rename select (in_calendar (expires * _) = _) into He. apply in_calendar_Ok in He as [-> He].
  split_and!; [eexists; split; [by apply opt_val_str|done]|done..| |lia|lia]. eexists. split; [done|lia].
Qed.

(** The token [t] states the credential [c] for the audience, and [c] is valid now. *)
Definition states_credential (t : pystr) (audience : pyval) (now : stamp) (lookup : revocation_lookup)
    (c : verified_credential) : Prop :=
  ∃ payload vc subject,
    decode_verified_jwt (PStr t) = Ok payload ∧ authenticated t payload ∧
    assoc (u "iss") payload = Some (PStr (vc_issuer c)) ∧ assoc (u "sub") payload = Some (PStr (vc_subject c)) ∧
    assoc (u "jti") payload = Some (PStr (vc_credential_id c)) ∧
    assoc (u "aud") payload = Some (PStr (vc_audience c)) ∧ audience = PStr (vc_audience c) ∧
    timestamp_of (SValue (claims_of payload "iat")) = Ok (vc_issued_at c) ∧
    timestamp_of (SValue (claims_of payload "exp")) = Ok (vc_expires_at c) ∧
    current now (vc_issued_at c) (vc_expires_at c) ∧ lookup (vc_credential_id c) = Ok (Some false) ∧
    assoc (u "vc") payload = Some (PDict vc) ∧ py_eqb (claims_of vc "type") VC_TYPE = true ∧ assoc (u "issuer") vc = Some (PStr (vc_issuer c)) ∧
    assoc (u "id") vc = Some (PStr (vc_credential_id c)) ∧
    assoc (u "credentialSubject") vc = Some (PDict subject) ∧ assoc (u "id") subject = Some (PStr (vc_subject c)) ∧
    vc_claims c = Ok (sorted_members (filter (λ p, p.1 ≠ u "id") subject)).

Lemma opt_val_Some o v : opt_val o = v → v ≠ PNone → o = Some v.
Proof. destruct o; cbn; congruence. Qed.
Lemma opt_val_dict o d : opt_val o = PDict d → o = Some (PDict d).
Proof. intros E. by apply opt_val_Some. Qed.
Lemma check_revocation_Ok i lookup : check_revocation i lookup = Ok () → lookup i = Ok (Some false).
Proof.
  unfold check_revocation, opaque. rewrite except_raise_Ok. intros E. inv_ok.
  by destruct x as [[]|].
Qed.

(** What the checks of a verifier say of the members of a payload. *)
Ltac read_claims :=
  repeat match goal with
  | Hs : string_value _ = Ok _ |- _ => apply string_value_inv in Hs as [Hs _]
  | Hs : opt_val _ = PStr _ |- _ => apply opt_val_str in Hs
  | Hs : opt_val _ = PDict _ |- _ => apply opt_val_dict in Hs
  | Hs : py_eqb _ (PStr _) = true |- _ => apply py_eqb_str in Hs
  | Hs : str_eqb _ _ = true |- _ => apply str_eqb_eq in Hs
  | Hs : check_revocation _ _ = _ |- _ => apply check_revocation_Ok in Hs
  end; simplify_eq.

Lemma verify_credential_Ok token audience now lookup c :
  verify_verifiable_credential token audience now lookup = Ok c →
  ∃ t, token = PStr t ∧ states_credential t audience now lookup c.
Proof.
  unfold verify_verifiable_credential, unsafe_verify_verifiable_credential, capture, opaque. rewrite !except_raise_Ok. intros E.
  apply bind_Ok_iff in E as (payload & Hp & E). pose proof Hp as (t & -> & Ha)%decode_verified_jwt_Ok. exists t. split; [done|].
  apply bind_Ok_iff in E as ([issued expires] & ((a & Haud & ->) & Hi & He & Hc & Hr)%verify_times_and_binding_Ok & E).
  inv_ok. destruct (opt_val (assoc (u "vc") payload)) as [| | | | | | | |vc] eqn:Ev; try done. inv_ok. refl_bool.
  destruct (opt_val (assoc (u "credentialSubject") vc)) as [| | | | | | | |subject] eqn:Es; try done. inv_ok. refl_bool.
  read_claims.
  exists payload, vc, subject. split_and!; try done. apply vc_claims_frozen.
Qed.

(** ** Delegation narrows authority *)

(** [l] is what the delegation credential [c] grants to the actor and the agent. *)
Definition grants (actor agent : pystr) (c : verified_credential) (l : link) : Prop :=
  ∃ delegation, vc_claims c = Ok [(u "delegation", PDict delegation)] ∧
    assoc (u "actor") delegation = Some (PStr actor) ∧ assoc (u "agent") delegation = Some (PStr agent) ∧
    assoc (u "capabilities") delegation = Some (PList (PStr <$> ln_capabilities l)) ∧
    assoc (u "resources") delegation = Some (PList (PStr <$> ln_resources l)) ∧
    assoc (u "remainingDepth") delegation = Some (PInt (ln_depth l)) ∧ 0 ≤ ln_depth l ≤ 16 ∧
    ln_subject l = vc_subject c ∧ ln_expiry l = vc_expires_at c.

(** [l] has no more authority than [p]. *)
Definition narrows (p l : link) : Prop :=
  ln_capabilities l ⊆ ln_capabilities p ∧ ln_resources l ⊆ ln_resources p ∧ ln_depth l < ln_depth p ∧
  ln_expiry l ≤ ln_expiry p.

#[global] Instance narrows_transitive : Transitive narrows.
Proof. intros p l m (C1 & R1 & ? & ?) (C2 & R2 & ? & ?). split_and!; [intros x Hx; by apply C1, C2|intros x Hx; by apply R1, R2|lia|lia]. Qed.

Lemma subset_iff xs ys : subset xs ys = true ↔ xs ⊆ ys.
Proof.
  unfold subset. rewrite forallb_Forall, Forall_forall. split; intros Hs x Hx; specialize (Hs x Hx).
  - by apply bool_decide_eq_true in Hs.
  - by apply bool_decide_eq_true.
Qed.

Lemma validated_string_tuple_Ok e v l : validated_string_tuple e v = Ok l → v = PList (PStr <$> l).
Proof.
  unfold validated_string_tuple, opaque. rewrite except_raise_Ok. destruct v as [| | | | | | |vs|]; try done.
  intros E. inv_ok. f_equal. rename select (sequence_py _ = _) into Hs. apply sequence_py_Forall2 in Hs.
  apply Forall2_fmap_l in Hs. clear - Hs. induction Hs as [|v s vs ss Hv _ IH]; [done|].
  apply string_value_inv in Hv as [-> _]. cbn. by f_equal.
Qed.

Lemma keys_one {A} (d : list (pystr * A)) name x :
  keys_are d [name] = true → assoc (u name) d = Some x → d = [(u name, x)].
Proof.
  unfold keys_are. intros [Hl _]%andb_true_iff Hx%assoc_elem. apply Nat.eqb_eq in Hl.
  destruct d as [|p [|]]; try done. by apply list_elem_of_singleton in Hx as <-.
Qed.

Lemma check_link_Ok actor agent seen previous c l : check_link actor agent seen previous c = Ok l →
  grants actor agent c l ∧ (vc_subject c ∉ seen) ∧
  match previous with Some p => vc_issuer c = ln_subject p ∧ narrows p l | None => True end.
Proof.
  unfold check_link. intros E. apply bind_Ok_iff in E as ([] & Hi%raise_if_Ok_iff & E).
  apply bind_Ok_iff in E as ([] & Hs%raise_if_Ok_iff & E). apply bind_Ok_iff in E as (claims & Hc & E).
  destruct (opt_val (assoc (u "delegation") claims)) as [| | | | | | | |delegation] eqn:Ed; try done.
  apply opt_val_dict in Ed. apply bind_Ok_iff in E as ([] & Hk%raise_if_Ok_iff%negb_false_iff & E).
  rewrite (keys_one _ _ _ Hk Ed) in Hc. clear Hk Ed claims.
  apply bind_Ok_iff in E as (a & [Ha%opt_val_str _]%string_value_inv & E).
  apply bind_Ok_iff in E as (g & [Hg%opt_val_str _]%string_value_inv & E).
  apply bind_Ok_iff in E as (cs & Hcs%validated_string_tuple_Ok & E).
  apply bind_Ok_iff in E as (rs & Hrs%validated_string_tuple_Ok & E).
  destruct (opt_val (assoc (u "remainingDepth") delegation)) as [| | |depth| | | | |] eqn:Ed; try done.
  inv_ok. refl_bool. rename select (str_eqb a _ = true) into Ea. rename select (str_eqb g _ = true) into Eg.
  apply str_eqb_eq in Ea as ->, Eg as ->. split; [|split; [done|]].
  - exists delegation. split_and!; try done; by apply opt_val_Some.
  - destruct previous as [p|]; [|done]. apply negb_false_iff, str_eqb_eq in Hi. rename select ((_ || _) = false) into Hn.
    rewrite !orb_false_iff, !negb_false_iff, !subset_iff in Hn. destruct Hn as (((? & ?) & ?) & ?). refl_bool. by split_and!.
Qed.

Lemma check_links_Ok actor agent cs : ∀ seen p final, check_links actor agent seen (Some p) cs = Ok final →
  ∃ ls, Forall2 (grants actor agent) cs ls ∧ Sorted narrows (p :: ls) ∧ final = last (p :: ls) ∧
    vc_issuer <$> cs = take (length cs) (ln_subject p :: (vc_subject <$> cs)) ∧
    NoDup (vc_subject <$> cs) ∧ (∀ s, s ∈ seen → s ∉ vc_subject <$> cs).
Proof.
  induction cs as [|c cs IH]; intros seen p final; cbn [check_links].
  - intros [= <-]. exists []. split_and!; [constructor|repeat constructor|done|done|constructor|set_solver].
  - intros (l & (Hg & Hs & Hi & Hn)%check_link_Ok & (ls & Hls & Hsort & -> & Hiss & Hnd & Hseen)%IH)%bind_Ok_iff.
    exists (l :: ls). destruct Hg as (dl & Hg). assert (ln_subject l = vc_subject c) as Hsub by apply Hg. rewrite Hsub in Hiss.
    split_and!; [by constructor; [exists dl|]|by constructor; [|constructor]|done|cbn; by f_equal| |].
    + cbn. constructor; [|done]. apply Hseen. set_solver.
    + intros s Hin. cbn. apply not_elem_of_cons. split; [set_solver|apply Hseen; set_solver].
Qed.

(** A chain that starts at the root. *)
Lemma check_chain_Ok actor agent root cs final : check_links actor agent [root] None cs = Ok (Some final) →
  vc_issuer <$> head cs = Some root →
  ∃ ls, Forall2 (grants actor agent) cs ls ∧ StronglySorted narrows ls ∧ last ls = Some final ∧
    vc_issuer <$> cs = take (length cs) (root :: (vc_subject <$> cs)) ∧ NoDup (root :: (vc_subject <$> cs)).
Proof.
  destruct cs as [|c cs]; [done|]. cbn [check_links head fmap option_fmap option_map]. intros E [= Hr].
  apply bind_Ok_iff in E as (l & (Hg & Hs & _)%check_link_Ok & (ls & Hls & Hsort & Hf & Hiss & Hnd & Hseen)%check_links_Ok).
  exists (l :: ls). assert (ln_subject l = vc_subject c) as Hsub by (destruct Hg as (? & Hg); apply Hg). rewrite Hsub in Hiss.
  split_and!; [by constructor|by apply Sorted_StronglySorted; [apply _|]|done|cbn; by f_equal|].
  cbn. constructor; [|constructor; [|done]].
  - apply not_elem_of_cons. split; [set_solver|]. apply Hseen. set_solver.
  - apply Hseen. set_solver.
Qed.

(** The last link has no more authority than any link, and every link takes a level of
    the depth. *)
Lemma narrows_last ls l : StronglySorted narrows ls → last ls = Some l →
  Forall (λ p, ln_capabilities l ⊆ ln_capabilities p ∧ ln_resources l ⊆ ln_resources p ∧ ln_expiry l ≤ ln_expiry p) ls ∧
  (∀ p, head ls = Some p → ln_depth l + Z.of_nat (length ls) ≤ ln_depth p + 1).
Proof.
  induction 1 as [|p ls Hs IH Hp]; [done|]. intros Hl. destruct ls as [|q ls].
  - injection Hl as ->. split; [by repeat constructor|]. intros ? [= ->]. cbn. lia.
  - destruct (IH Hl) as [Ha Hd]. split.
    + constructor; [|done]. change (last (q :: ls) = Some l) in Hl. apply last_Some_elem_of in Hl. rewrite Forall_forall in Hp. by destruct (Hp l Hl) as (? & ? & _ & ?).
    + intros ? [= ->]. specialize (Hd q eq_refl). apply Forall_cons_1 in Hp as [(_ & _ & ? & _) _]. rewrite length_cons. lia.
Qed.

Lemma granted_depths actor agent cs ls final : Forall2 (grants actor agent) cs ls → StronglySorted narrows ls →
  last ls = Some final → 0 ≤ ln_depth final ≤ 17 - Z.of_nat (length ls).
Proof.
  intros Hg Hs Hl. destruct (narrows_last ls final Hs Hl) as [_ Hd].
  assert (Forall (λ l, 0 ≤ ln_depth l ≤ 16) ls) as Hb.
  { clear - Hg. induction Hg as [|c l cs ls (? & Hc) _ IH]; [constructor|]. constructor; [apply Hc|done]. }
  rewrite Forall_forall in Hb. destruct ls as [|p ls]; [done|].
  specialize (Hd p eq_refl). pose proof (Hb p ltac:(set_solver)). pose proof (Hb final (last_Some_elem_of _ _ Hl)). lia.
Qed.

Lemma verify_credentials_Ok audience now lookup items cs :
  sequence_py ((λ item, t ← string_value item; verify_verifiable_credential (PStr t) audience now lookup) <$> items) = Ok cs →
  ∃ tokens, items = PStr <$> tokens ∧ Forall2 (λ t, states_credential t audience now lookup) tokens cs.
Proof.
  intros Hs%sequence_py_Forall2%Forall2_fmap_l. induction Hs as [|v c items cs Hv _ (ts & -> & IH)]; [by exists []|].
  unfold compose in Hv. apply bind_Ok_iff in Hv as (t & [-> _]%string_value_inv & (t' & [= <-] & Hc)%verify_credential_Ok).
  exists (t :: ts). split; [done|]. by constructor.
Qed.

(** C6: Delegation only narrows authority.  When [verify_delegation_chain] returns, the
    tokens are delegation credentials for the audience, authenticated, current and not
    revoked; the first is issued by the root and every other one by the subject of the
    one before, with no subject twice; each grants its actor and agent a subset of the
    capabilities and resources granted before, at a smaller depth and with no later
    expiry.  The authority returned is that of the last link, so it is within that of
    every link, and it has the capability and the resource required. *)
Theorem delegation_attenuates chain root subject actor agent audience capability resource now lookup d :
  verify_delegation_chain chain root subject actor agent audience capability resource now lookup = Ok d →
  ∃ tokens cs ls capability_required resource_required,
    chain = PList (PStr <$> tokens) ∧ 1 ≤ Z.of_nat (length tokens) ≤ MAX_DELEGATIONS ∧
    Forall2 (λ t, states_credential t audience now lookup) tokens cs ∧
    vc_issuer <$> cs = take (length cs) (vd_issuer d :: (vc_subject <$> cs)) ∧
    NoDup (vd_issuer d :: (vc_subject <$> cs)) ∧
    Forall2 (grants (vd_actor d) (vd_agent d)) cs ls ∧ StronglySorted narrows ls ∧
    last ls = Some (Link (vd_subject d) (vd_capabilities d) (vd_resources d) (vd_remaining_depth d) (vd_expires_at d)) ∧
    Forall (λ l, vd_capabilities d ⊆ ln_capabilities l ∧ vd_resources d ⊆ ln_resources l ∧ vd_expires_at d ≤ ln_expiry l) ls ∧
    0 ≤ vd_remaining_depth d ≤ 17 - Z.of_nat (length tokens) ∧
    root = PStr (vd_issuer d) ∧ subject = PStr (vd_subject d) ∧ actor = PStr (vd_actor d) ∧ agent = PStr (vd_agent d) ∧
    audience = PStr (vd_audience d) ∧ capability = PStr capability_required ∧ capability_required ∈ vd_capabilities d ∧
    resource = PStr resource_required ∧ resource_required ∈ vd_resources d ∧
    vd_credential_ids d = vc_credential_id <$> cs.
Proof.
  unfold verify_delegation_chain, unsafe_verify_delegation_chain, capture, opaque. rewrite !except_raise_Ok.
  destruct chain as [| | | | | | |items|]; try done. intros E.
  apply bind_Ok_iff in E as ([] & Hl%raise_if_Ok_iff & E). apply orb_false_iff in Hl as [Hne Hlen]. refl_bool.
  apply bind_Ok_iff in E as (r & [-> _]%string_value_inv & E). apply bind_Ok_iff in E as (s & [-> _]%string_value_inv & E).
  apply bind_Ok_iff in E as (a & [-> _]%string_value_inv & E). apply bind_Ok_iff in E as (g & [-> _]%string_value_inv & E).
  apply bind_Ok_iff in E as (cp & [-> _]%string_value_inv & E). apply bind_Ok_iff in E as (rs & [-> _]%string_value_inv & E).
  apply bind_Ok_iff in E as (cs & (ts & -> & Hcs)%verify_credentials_Ok & E).
  apply bind_Ok_iff in E as ([] & Hr%raise_if_Ok_iff%negb_false_iff%bool_decide_eq_true & E).
  apply bind_Ok_iff in E as ([final|] & Hf & E); [|done].
  destruct (check_chain_Ok _ _ _ _ _ Hf Hr) as (ls & Hg & Hs & Hlast & Hiss & Hnd).
  inv_ok. refl_bool. rename select (str_eqb _ _ = true) into Es. apply str_eqb_eq in Es as <-.
  rename select (string_value _ = _) into Ha. apply string_value_inv in Ha as [-> _].
  destruct (narrows_last ls final Hs Hlast) as [Hall _]. pose proof (granted_depths _ _ _ _ _ Hg Hs Hlast) as Hd. destruct final as [s cps rss dp ex]. rewrite length_fmap in Hlen.
  pose proof (Forall2_length _ _ _ Hcs) as Hl1. pose proof (Forall2_length _ _ _ Hg) as Hl2.
  exists ts, cs, ls, cp, rs. cbn in *. split_and!; try done; [by destruct ts; [|cbn; lia]|lia|lia].
Qed.

(** ** Presentations are accepted once *)
Lemma utc_datetime_of seconds : MIN_TIMESTAMP ≤ seconds ≤ MAX_TIMESTAMP →
  utc_of (utc_datetime seconds) = Some (seconds * 1000000).
Proof.
  intros Hs. unfold utc_of, utc_datetime. cbn. destruct (fromtimestamp seconds) as [t|] eqn:E.
  - apply fromtimestamp_spec in E as [_ E]. unfold utc_microseconds. cbn. rewrite E.
    replace (_ && _) with true; [f_equal; lia|]. symmetry. apply andb_true_iff. split; refl_bool; lia.
  - exfalso. unfold fromtimestamp in E.
    assert ((MIN_TIMESTAMP <=? seconds) && (seconds <=? MAX_TIMESTAMP) = true) as Hr by (apply andb_true_iff; split; refl_bool; lia).
    rewrite Hr in E. by destruct (ord2ymd _) as [[]].
Qed.

(** The entry of an identifier stays until its expiry. *)
Definition records (n : Z) (s s' : replay_store) : Prop :=
  ∃ i expires_at now, (∀ t, utc_of now = Some t → t ≤ n) ∧ s' = (check_and_record s i expires_at now).2.

Lemma check_and_record_keeps n s s' i expiry : records n s s' → n < expiry →
  entries s !! i = Some expiry → entries s' !! i = Some expiry.
Proof.
  intros (j & e & now & Hn & ->) Hlt Hi. unfold check_and_record. destruct (valid_replay_id j); [|done].
  destruct (utc_of e) as [t|]; [|done]. destruct (utc_of now) as [m|]; [|done]. specialize (Hn m eq_refl).
  destruct (t <=? m); [done|].
  assert (filter (λ p : pystr * Z, m < p.2) (entries s) !! i = Some expiry) as Hf.
  { apply map_lookup_filter_Some. cbn. split; [done|lia]. }
  case_bool_decide as Hd; [done|]. destruct (_ <=? _); [done|]. cbn. rewrite lookup_insert_ne; [done|].
  intros ->. apply Hd. cbn. by rewrite Hf.
Qed.

Lemma check_and_record_true s i expires_at now s' : check_and_record s i expires_at now = (true, s') →
  ∃ expiry n, utc_of expires_at = Some expiry ∧ utc_of now = Some n ∧ n < expiry ∧
    entries s' !! i = Some expiry ∧ (∀ e, entries s !! i = Some e → e ≤ n) ∧
    Z.of_nat (size (entries s')) ≤ max_entries s'.
Proof.
  unfold check_and_record. destruct (valid_replay_id i); [|done]. destruct (utc_of expires_at) as [t|]; [|done].
  destruct (utc_of now) as [m|]; [|done]. destruct (t <=? m) eqn:E; [done|]. refl_bool.
  case_bool_decide as Hd; [done|]. cbn [entries max_entries] in *. destruct (_ <=? _) eqn:Es; [done|]. intros [= <-]. refl_bool.
  exists t, m. split_and!; [done..|apply lookup_insert_eq| |].
  - intros e He. destruct (decide (e ≤ m)) as [|Hn]; [done|]. destruct Hd. exists e. apply map_lookup_filter_Some. cbn. split; [done|lia].
  - cbn. rewrite map_size_insert_None; [lia|]. by apply eq_None_not_Some.
Qed.

(** The token [t] with the payload states the presentation [q] for the audience and
    the challenge, and it and the credentials in it are valid at the time [n]. *)
Definition states_presentation (t : pystr) (payload : list (pystr * pyval)) (audience challenge : pyval) (now : stamp)
    (lookup : revocation_lookup) (q : verified_presentation) : Prop :=
  ∃ vp tokens,
    authenticated t payload ∧
    assoc (u "iss") payload = Some (PStr (vp_holder q)) ∧ assoc (u "sub") payload = Some (PStr (vp_holder q)) ∧
    assoc (u "jti") payload = Some (PStr (vp_presentation_id q)) ∧
    assoc (u "aud") payload = Some (PStr (vp_audience q)) ∧ audience = PStr (vp_audience q) ∧
    assoc (u "nonce") payload = Some (PStr (vp_challenge q)) ∧ challenge = PStr (vp_challenge q) ∧
    timestamp_of (SValue (claims_of payload "iat")) = Ok (vp_issued_at q) ∧
    timestamp_of (SValue (claims_of payload "exp")) = Ok (vp_expires_at q) ∧
    current now (vp_issued_at q) (vp_expires_at q) ∧
    assoc (u "vp") payload = Some (PDict vp) ∧ py_eqb (claims_of vp "type") VP_TYPE = true ∧
    assoc (u "verifiableCredential") vp = Some (PList (PStr <$> tokens)) ∧
    1 ≤ Z.of_nat (length tokens) ≤ MAX_CREDENTIALS ∧
    Forall2 (λ t, states_credential t audience now lookup) tokens (vp_credentials q) ∧
    Forall (λ c, vp_expires_at q ≤ vc_expires_at c) (vp_credentials q).

Lemma earliest_le es e : e ∈ es → earliest es ≤ e.
Proof.
  destruct es as [|x es]; [by intros ?%elem_of_nil|]. cbn. assert (foldl Z.min x es ≤ x ∧ Forall (λ y, foldl Z.min x es ≤ y) es) as [Hx Hes].
  { revert x. induction es as [|y es IH]; intros x; cbn; [split; [lia|constructor]|]. destruct (IH (Z.min x y)) as [Hm Hes].
    split; [lia|]. constructor; [lia|done]. }
  rewrite Forall_forall in Hes. intros [->|He]%elem_of_cons; [done|by apply Hes].
Qed.

Lemma read_presentation_Ok token audience challenge now lookup q n :
  read_presentation token audience challenge now lookup = Ok (q, n) →
  ∃ t payload, token = PStr t ∧ decode_verified_jwt token = Ok payload ∧ trusted_now now = Ok n ∧
    MIN_TIMESTAMP ≤ vp_expires_at q ≤ MAX_TIMESTAMP ∧ states_presentation t payload audience challenge now lookup q.
Proof.
  unfold read_presentation. intros E. apply bind_Ok_iff in E as (payload & Hp & E).
  pose proof Hp as (t & -> & Ha)%decode_verified_jwt_Ok. exists t, payload. split; [done|]. split; [done|].
  apply bind_Ok_iff in E as ([issued expires] & ((a & Haud & ->) & Hi & He & Hc & Hr)%verify_times_and_binding_Ok & E).
  inv_ok. destruct (opt_val (assoc (u "vp") payload)) as [| | | | | | | |vp] eqn:Ev; try done. inv_ok.
  destruct (opt_val (assoc (u "verifiableCredential") vp)) as [| | | | | | |items|] eqn:Ei; try done. inv_ok.
  refl_bool. rename select (sequence_py _ = _) into Hs. apply verify_credentials_Ok in Hs as (tokens & -> & Hcs).
  read_claims. split; [done|]. split; [done|]. exists vp, tokens. rename select (PStr <$> tokens ≠ []) into Hne. rewrite length_fmap in *.
  split_and!; try done; [by apply opt_val_Some|by destruct tokens; [|cbn; lia]|].
  apply Forall_forall. intros c Hin. etrans; [eassumption|]. apply earliest_le, list_elem_of_fmap. by exists c.
Qed.

Lemma verify_presentation_Ok token audience challenge now lookup s q s' :
  verify_verifiable_presentation token audience challenge now lookup s = (Ok q, s') →
  ∃ n, read_presentation token audience challenge now lookup = Ok (q, n) ∧
    check_and_record s (vp_presentation_id q) (utc_datetime (vp_expires_at q)) (utc_datetime n) = (true, s').
Proof.
  unfold verify_verifiable_presentation, unsafe_verify_verifiable_presentation. destruct (read_presentation _ _ _ _ _) as [[p n]|e] eqn:E.
  - destruct (check_and_record _ _ _ _) as [[] s1] eqn:Er; cbn; [|done]. intros [= -> ->]. eauto.
  - by intros [=].
Qed.

Lemma trusted_now_range now n : trusted_now now = Ok n → MIN_TIMESTAMP ≤ n ≤ MAX_TIMESTAMP.
Proof.
  unfold trusted_now, opaque. intros E. apply bind_Ok_iff in E as (z & _ & E). rewrite except_raise_Ok in E. inv_ok.
  rename select (in_calendar _ = _) into Hc. apply in_calendar_Ok in Hc as [-> Hc]. rewrite Z.div_mul by lia. lia.
Qed.

(** What is recorded with a presentation that is returned. *)
Lemma verify_presentation_records token audience challenge now lookup s q s' :
  verify_verifiable_presentation token audience challenge now lookup s = (Ok q, s') →
  ∃ t payload n, token = PStr t ∧ decode_verified_jwt token = Ok payload ∧ trusted_now now = Ok n ∧
    states_presentation t payload audience challenge now lookup q ∧ n < vp_expires_at q ∧
    entries s' !! vp_presentation_id q = Some (vp_expires_at q * 1000000) ∧
    (∀ e, entries s !! vp_presentation_id q = Some e → e ≤ n * 1000000) ∧
    Z.of_nat (size (entries s')) ≤ max_entries s'.
Proof.
  intros (n & (t & payload & -> & Hp & Hn & He & Hs)%read_presentation_Ok & Hr)%verify_presentation_Ok.
  apply check_and_record_true in Hr as (e & m & Hre & Hrn & Hlt & Hin & Hold & Hsize).
  rewrite utc_datetime_of in Hre by done. rewrite utc_datetime_of in Hrn by (by eapply trusted_now_range).
  simplify_eq. exists t, payload, n. split_and!; try done. lia.
Qed.

Lemma records_keep n s s' i expiry : rtc (records n) s s' → n < expiry → entries s !! i = Some expiry → entries s' !! i = Some expiry.
Proof. induction 1 as [|s1 s2 s3 Hs _ IH]; [done|]. intros. apply IH; [done|]. by eapply check_and_record_keeps. Qed.

(** C7: A presentation is accepted once.  The presentation that
    [verify_verifiable_presentation] returns is stated by the token, signed by its
    holder, for this audience and challenge, current, and holds one to sixteen
    credentials that are valid in their own right and expire no earlier.  Whatever other
    verifications and recordings, of any threads, the store sees before a later time, the
    identifier is not accepted again before the presentation expires, and the same token
    is never accepted again.  The store keeps to its size. *)
Theorem presentations_are_accepted_once token audience challenge now lookup s q s1 :
  verify_verifiable_presentation token audience challenge now lookup s = (Ok q, s1) →
  (∃ t payload, token = PStr t ∧ states_presentation t payload audience challenge now lookup q) ∧
  Z.of_nat (size (entries s1)) ≤ max_entries s1 ∧
  ∀ audience' challenge' now' lookup' n' s2, trusted_now now' = Ok n' → rtc (records (n' * 1000000)) s1 s2 →
    (∀ token' q' s3, verify_verifiable_presentation token' audience' challenge' now' lookup' s2 = (Ok q', s3) →
       vp_presentation_id q' = vp_presentation_id q → vp_expires_at q ≤ n') ∧
    (∀ q', (verify_verifiable_presentation token audience' challenge' now' lookup' s2).1 ≠ Ok q').
Proof.
  intros (t & payload & n & -> & Hp & Hn & Hs & Hlt & Hin & _ & Hsize)%verify_presentation_records.
  split; [by eexists _, _|]. split; [done|]. intros a' c' now' lookup' n' s2 Hn' Hrtc.
  assert (∀ token' q' s3, verify_verifiable_presentation token' a' c' now' lookup' s2 = (Ok q', s3) →
       vp_presentation_id q' = vp_presentation_id q → vp_expires_at q ≤ n') as Honce.
  { intros token' q' s3 (t' & payload' & m & -> & _ & Hm & _ & _ & _ & Hold & _)%verify_presentation_records Hid.
    destruct (decide (vp_expires_at q ≤ n')) as [|Hgt]; [done|]. rewrite Hm in Hn'. injection Hn' as ->.
    specialize (Hold (vp_expires_at q * 1000000)). rewrite Hid in Hold.
    rewrite (records_keep (n' * 1000000) s1 s2 _ (vp_expires_at q * 1000000)) in Hold by (done || lia). specialize (Hold eq_refl). lia. }
  split; [exact Honce|]. intros q' E. destruct (verify_verifiable_presentation (PStr t) a' c' now' lookup' s2) as [r s3] eqn:Ev.
  cbn in E. subst r. pose proof Ev as (t' & payload' & m & _ & Hp' & Hm & Hs' & Hlt' & _)%verify_presentation_records.
  rewrite Hp in Hp'. injection Hp' as <-. rewrite Hm in Hn'. injection Hn' as ->.
  destruct Hs as (? & ? & _ & _ & _ & Hj & _ & _ & _ & _ & _ & He & _).
  destruct Hs' as (? & ? & _ & _ & _ & Hj' & _ & _ & _ & _ & _ & He' & _).
  rewrite Hj in Hj'. rewrite He in He'. injection Hj' as Hid. injection He' as Hexp.
  specialize (Honce _ _ _ Ev (eq_sym Hid)). lia.
Qed.

(** ** Created credentials verify *)
Definition registered (issuer subject audience i : pystr) (issued expires : Z) : list (pystr * pyval) :=
  [(u "aud", PStr audience); (u "exp", PInt expires); (u "iat", PInt issued); (u "iss", PStr issuer);
   (u "jti", PStr i); (u "nbf", PInt issued); (u "sub", PStr subject)].

Lemma registered_claims_Ok issuer subject audience i issued_at expires_at r :
  registered_claims issuer subject audience i issued_at expires_at = Ok r →
  ∃ public s a j issued expires, public_wf public ∧ issuer = PStr (did_of public) ∧
    subject = PStr s ∧ audience = PStr a ∧ i = PStr j ∧ Forall (λ x, string_value (PStr x) = Ok x) [did_of public; s; a; j] ∧
    timestamp_of issued_at = Ok issued ∧ timestamp_of expires_at = Ok expires ∧ issued < expires ∧
    in_calendar (issued * 1000000) = Ok (issued * 1000000) ∧ in_calendar (expires * 1000000) = Ok (expires * 1000000) ∧
    r = (registered (did_of public) s a j issued expires, issued, expires).
Proof.
  unfold registered_claims. intros E. inv_ok. refl_bool.
  rename select (resolve_did_key _ = _) into Hk. apply resolve_did_key_Ok in Hk as (Hw & Hk & [= ->]).
  apply (f_equal did) in Hk. cbn in Hk. rewrite Hk in *.
  repeat match goal with
  | Hs : string_value ?v = Ok _ |- _ => is_var v; let E := fresh "E" in pose proof Hs as [E _]%string_value_inv; subst v
  | Hc : in_calendar _ = Ok _ |- _ => let E := fresh "E" in pose proof Hc as [E _]%in_calendar_Ok; progress subst
  end.
  eexists _, _, _, _, _, _. split_and!; try done. repeat constructor; done.
Qed.

(** The registered claims of a payload, and the checks they pass. *)
Lemma registered_assoc issuer s a i issued expires rest :
  let payload := registered issuer s a i issued expires ++ rest in
  assoc (u "iss") payload = Some (PStr issuer) ∧ assoc (u "sub") payload = Some (PStr s) ∧
  assoc (u "aud") payload = Some (PStr a) ∧ assoc (u "jti") payload = Some (PStr i) ∧
  assoc (u "iat") payload = Some (PInt issued) ∧ assoc (u "nbf") payload = Some (PInt issued) ∧
  assoc (u "exp") payload = Some (PInt expires) ∧
  forallb (λ k, bool_decide (u k ∈ payload.*1)) ["aud"; "exp"; "iat"; "iss"; "jti"; "nbf"; "sub"]%string = true.
Proof. split_and!; reflexivity. Qed.

Lemma verify_registered issuer s a i issued expires rest now :
  string_value (PStr a) = Ok a → issued < expires →
  in_calendar (issued * 1000000) = Ok (issued * 1000000) → in_calendar (expires * 1000000) = Ok (expires * 1000000) →
  current now issued expires →
  verify_times_and_binding (registered issuer s a i issued expires ++ rest) (PStr a) now = Ok (issued, expires).
Proof.
  intros Ha Hlt Hi He (n & Hn & Hw). unfold verify_times_and_binding.
  destruct (registered_assoc issuer s a i issued expires rest) as (_ & _ & -> & _ & -> & -> & -> & ->).
  unfold opt_val. cbn [default from_option id negb raise_if mbind result_bind]. rewrite Ha, !timestamp_of_int, Hn by done.
  cbn [mbind result_bind]. rewrite str_eqb_refl. cbn [negb raise_if mbind result_bind]. replace (_ || _) with false; [by rewrite Hi, He|].
  symmetry. rewrite !orb_false_iff, negb_false_iff. split_and!; refl_bool; lia.
Qed.

(** The payload of a credential. *)
Definition credential_claims (issuer s i : pystr) (subject : list (pystr * pyval)) : list (pystr * pyval) :=
  [(u "vc", PDict [(u "@context", VC_CONTEXT); (u "credentialSubject", PDict subject); (u "id", PStr i);
                   (u "issuer", PStr issuer); (u "type", VC_TYPE)])].

Lemma sorted_payload issuer s a i issued expires subject :
  sorted_members (registered issuer s a i issued expires ++ credential_claims issuer s i subject) =
  registered issuer s a i issued expires ++ credential_claims issuer s i (sorted_members subject).
Proof. reflexivity. Qed.
Lemma payload_keys issuer s a i issued expires subject :
  NoDup (registered issuer s a i issued expires ++ credential_claims issuer s i subject).*1.
Proof. apply (bool_decide_unpack _). vm_compute. exact I. Qed.

Lemma insert_filter {A} k (x : A) fs : filter (λ p, p.1 ≠ k) (insert_field (k, x) fs) = filter (λ p, p.1 ≠ k) fs.
Proof.
  induction fs as [|f fs IH]; cbn [insert_field].
  - by rewrite filter_cons_False by (cbn; auto).
  - destruct (str_leb _ _); [by rewrite filter_cons_False by (cbn; auto)|].
    rewrite !filter_cons. by rewrite IH.
Qed.
Lemma filter_all {A} (P : A → Prop) `{∀ x, Decision (P x)} l : Forall P l → filter P l = l.
Proof. induction 1; [done|]. rewrite filter_cons_True by done. by f_equal. Qed.
Lemma subject_custom s claims : u "id" ∉ claims.*1 →
  filter (λ p, p.1 ≠ u "id") (sorted_members ((u "id", s) :: claims)) = sorted_members claims.
Proof.
  intros Hk. unfold sorted_members. cbn [fmap list_fmap fst snd]. unfold sort_fields at 1. cbn [foldr]. rewrite insert_filter.
  apply filter_all. apply Forall_sort_fields, Forall_fmap, Forall_forall. intros p Hp Hi. apply Hk, list_elem_of_fmap. by exists p.
Qed.

Lemma sorted_members_idem d : sorted_members (sorted_members d) = sorted_members d.
Proof.
  assert (∀ v, sorted_json (sorted_json v) = sorted_json v) as Hv.
  { intros v. induction v as [| |b|z|f|e|s|l IH|e IH] using pyval_ind'; cbn [sorted_json]; try done; f_equal.
    - rewrite <-list_fmap_compose. apply list_fmap_ext. intros i x Hx%list_elem_of_lookup_2. rewrite Forall_forall in IH. by apply IH.
    - rewrite sorted_dict_eq, (sort_fields_id (sort_fields _)) by apply sort_fields_Sorted.
      rewrite sorted_dict_eq, <-list_fmap_compose. apply list_fmap_ext. intros i x Hx%list_elem_of_lookup_2.
      rewrite sort_fields_perm in Hx. rewrite Forall_forall in IH. cbn. f_equal. by apply IH. }
  specialize (Hv (PDict d)). by injection Hv.
Qed.

Lemma assoc_head {A} k (x : A) d : assoc k ((k, x) :: d) = Some x.
Proof. cbn. by rewrite decide_True. Qed.
Lemma assoc_None_elem {A} k (d : list (pystr * A)) x : assoc k d = None → (k, x) ∉ d.
Proof.
  induction d as [|[j y] d IH]; [by intros _ ?%elem_of_nil|]. cbn. destruct (decide _); [done|].
  intros Hn [[= -> ->]|Hin]%elem_of_cons; [done|by apply IH].
Qed.
Lemma opt_val_of v : opt_val (Some v) = v.
Proof. done. Qed.
Lemma credential_assoc issuer i subject :
  let vc := [(u "@context", VC_CONTEXT); (u "credentialSubject", PDict subject); (u "id", PStr i); (u "issuer", PStr issuer);
             (u "type", VC_TYPE)] in
  assoc (u "@context") vc = Some VC_CONTEXT ∧ assoc (u "type") vc = Some VC_TYPE ∧ assoc (u "id") vc = Some (PStr i) ∧
  assoc (u "issuer") vc = Some (PStr issuer) ∧ assoc (u "credentialSubject") vc = Some (PDict subject).
Proof. split_and!; reflexivity. Qed.

(** Verification of a payload that was created. *)
Lemma verify_created t issuer s a i issued expires claims now lookup :
  decode_verified_jwt (PStr t) = Ok (registered issuer s a i issued expires
                                     ++ credential_claims issuer s i (sorted_members ((u "id", PStr s) :: claims))) →
  Forall (λ x, string_value (PStr x) = Ok x) [issuer; s; a; i] → NoDup (u "id" :: claims.*1) → issued < expires →
  in_calendar (issued * 1000000) = Ok (issued * 1000000) → in_calendar (expires * 1000000) = Ok (expires * 1000000) →
  current now issued expires → lookup i = Ok (Some false) →
  verify_verifiable_credential (PStr t) (PStr a) now lookup =
  Ok (VerifiedCredential issuer s a i issued expires (freeze_json (PDict (sorted_members claims)))).
Proof.
  intros Hd Hv Hk Hlt Hi He Hc Hl. rewrite !Forall_cons in Hv. destruct Hv as (Vi & Vs & Va & Vj & _).
  unfold verify_verifiable_credential, unsafe_verify_verifiable_credential. rewrite Hd. cbn [mbind result_bind]. rewrite verify_registered by done.
  cbn [mbind result_bind]. set (subject := sorted_members ((u "id", PStr s) :: claims)).
  destruct (registered_assoc issuer s a i issued expires (credential_claims issuer s i subject)) as (-> & -> & -> & -> & _).
  change (assoc (u "vc") _) with (Some (PDict [(u "@context", VC_CONTEXT); (u "credentialSubject", PDict subject);
    (u "id", PStr i); (u "issuer", PStr issuer); (u "type", VC_TYPE)])).
  rewrite !opt_val_of, Vi, Vs, Va, Vj. cbn [mbind result_bind].
  destruct (credential_assoc issuer i subject) as (-> & -> & -> & -> & ->). rewrite !opt_val_of, !(proj2 (py_eqb_str _ _) eq_refl).
  change (py_eqb VC_CONTEXT VC_CONTEXT) with true. change (py_eqb VC_TYPE VC_TYPE) with true.
  cbn [negb orb raise_if mbind result_bind]. unfold subject. rewrite assoc_sorted by done.
  rewrite assoc_head. cbn [fmap option_fmap option_map sorted_json]. rewrite opt_val_of, (proj2 (py_eqb_str _ _) eq_refl).
  apply NoDup_cons in Hk as [Hk _]. rewrite subject_custom by done. cbn [negb raise_if mbind result_bind].
  unfold check_revocation. by rewrite Hl.
Qed.

Lemma created_refused t issuer s a i issued expires rest audience now lookup c :
  decode_verified_jwt (PStr t) = Ok (registered issuer s a i issued expires ++ rest) →
  in_calendar (issued * 1000000) = Ok (issued * 1000000) → in_calendar (expires * 1000000) = Ok (expires * 1000000) →
  verify_verifiable_credential (PStr t) audience now lookup = Ok c →
  audience = PStr a ∧ current now issued expires ∧ lookup i = Ok (Some false).
Proof.
  intros Hd Hi He (t' & [= <-] & payload & vc & subject & Hp & _ & _ & _ & Hj & Ha & -> & Hti & Hte & Hc & Hl & _)%verify_credential_Ok.
  assert (payload = registered issuer s a i issued expires ++ rest) as -> by congruence.
  destruct (registered_assoc issuer s a i issued expires rest) as (_ & _ & Ea & Ej & Ei & _ & Ee & _).
 unfold claims_of in *. rewrite Ei, opt_val_of, timestamp_of_int in Hti by done. rewrite Ee, opt_val_of, timestamp_of_int in Hte by done.
  rewrite Ea in Ha. rewrite Ej in Hj. simplify_eq. repeat split; congruence.
Qed.

Lemma created_normal public s a i issued expires subject : public_wf public →
  normal_json (PStr s) = true → normal_json (PStr a) = true → normal_json (PStr i) = true → normal_json (PDict subject) = true →
  normal_json (PDict (registered (did_of public) s a i issued expires ++ credential_claims (did_of public) s i subject)) = true.
Proof.
  intros (Ha & _)%did_ascii Hs Hau Hi Hsub. cbn [normal_json] in *. apply bool_decide_eq_true in Hs, Hau, Hi.
  unfold registered, credential_claims, VC_CONTEXT, VC_TYPE. cbn [app forallb fst snd normal_json].
  rewrite Hsub, Hs, Hau, Hi, (ascii_normal _ Ha). rewrite !ascii_normal by (by repeat constructor).
  by rewrite !bool_decide_true by done.
Qed.

(** What is signed. *)
Lemma create_credential_Ok lease issuer subject audience i issued_at expires_at claims token :
  create_verifiable_credential lease issuer subject audience i issued_at expires_at (PDict claims) = Ok token →
  ∃ public s a j issued expires, public_wf public ∧ issuer = PStr (did_of public) ∧
    subject = PStr s ∧ audience = PStr a ∧ i = PStr j ∧ Forall (λ x, string_value (PStr x) = Ok x) [did_of public; s; a; j] ∧
    timestamp_of issued_at = Ok issued ∧ timestamp_of expires_at = Ok expires ∧ issued < expires ∧
    in_calendar (issued * 1000000) = Ok (issued * 1000000) ∧ in_calendar (expires * 1000000) = Ok (expires * 1000000) ∧
    (u "id" ∉ claims.*1) ∧
    encode_jwt (PDict (registered (did_of public) s a j issued expires
                       ++ credential_claims (did_of public) s j ((u "id", PStr s) :: claims))) lease (did_of public) = Ok token.
Proof.
  unfold create_verifiable_credential, unsafe_create_verifiable_credential, capture, opaque. rewrite !except_raise_Ok. intros E.
  apply bind_Ok_iff in E as (r & (public & s & a & j & issued & expires & Hw & -> & -> & -> & -> & Hv & Hti & Hte & Hlt & Hi & He & ->)
    %registered_claims_Ok & E).
  apply bind_Ok_iff in E as (v & [-> Hins]%inspected_Ok & E). apply bind_Ok_iff in E as ([] & Hid%raise_if_Ok_iff & E).
  exists public, s, a, j, issued, expires. split_and!; try done.
  intros ([k x] & Hk & Hin)%list_elem_of_fmap. cbn in Hk. subst k. unfold has_key in Hid. cbn in Hid.
  destruct (assoc (u "id") claims) eqn:Ea; [done|]. by apply (assoc_None_elem _ _ _ Ea) in Hin.
Qed.

(** C12: Credentials are read back.  Let the texts of a credential be in normal form and
    its token no longer than a segment.  Then what [create_verifiable_credential] returns
    is verified for the audience it names, at a time within its window and while its
    identifier is not revoked, and only then; the issuer, the subject, the audience, the
    identifier and the two times are those it was created with, and so are the claims, in
    the order of their names. *)
Theorem credentials_round_trip `{!Ed25519Laws} lease issuer subject audience i issued_at expires_at claims token :
  create_verifiable_credential lease issuer subject audience i issued_at expires_at (PDict claims) = Ok token →
  NoDup claims.*1 → normal_json (PList [subject; audience; i; PDict claims]) = true →
  Z.of_nat (length token) ≤ MAX_SEGMENT_BYTES →
  ∃ c, issuer = PStr (vc_issuer c) ∧ subject = PStr (vc_subject c) ∧ audience = PStr (vc_audience c) ∧
    i = PStr (vc_credential_id c) ∧ timestamp_of issued_at = Ok (vc_issued_at c) ∧
    timestamp_of expires_at = Ok (vc_expires_at c) ∧ vc_claims c = Ok (sorted_members claims) ∧
    ∀ audience' now lookup c',
      verify_verifiable_credential (PStr token) audience' now lookup = Ok c' ↔
      c' = c ∧ audience' = audience ∧ current now (vc_issued_at c) (vc_expires_at c) ∧
      lookup (vc_credential_id c) = Ok (Some false).
Proof.
  intros (public & s & a & j & issued & expires & Hw & -> & -> & -> & -> & Hv & Hti & Hte & Hlt & Hi & He & Hid & E)
    %create_credential_Ok Hnd Hn Hlen.
  cbn [normal_json forallb] in Hn. rewrite !andb_true_iff in Hn. destruct Hn as (Ns & Na & Nj & Nc & _).
  apply jwt_round_trip in E; [|apply registered_assoc|apply payload_keys| |done].
  2: { apply created_normal; try done. cbn [normal_json forallb fst snd]. rewrite Nc, Ns.
       by rewrite ascii_normal, bool_decide_true by (done || by repeat constructor). }
  rewrite sorted_payload in E.
  exists (VerifiedCredential (did_of public) s a j issued expires (freeze_json (PDict (sorted_members claims)))).
  rewrite vc_claims_frozen, sorted_members_idem. split_and!; try done. cbn. intros audience' now lookup c'.
  assert (∀ now lookup, current now issued expires → lookup j = Ok (Some false) →
    verify_verifiable_credential (PStr token) (PStr a) now lookup =
    Ok (VerifiedCredential (did_of public) s a j issued expires (freeze_json (PDict (sorted_members claims))))) as Hok.
  { intros. apply verify_created; try done. by constructor. }
  split.
  - intros Hver. destruct (created_refused _ _ _ _ _ _ _ _ _ _ _ _ E Hi He Hver) as (-> & Hc & Hl).
    rewrite Hok in Hver by done. by injection Hver as <-.
  - intros (-> & -> & Hc & Hl). by apply Hok.
Qed.

(** ** Verdicts *)

(** C13: A credential that is returned is authentic.  [verify_verifiable_credential] of any
    values either returns a credential that the token states: signed with the key that its
    issuer names, for the audience expected, within its window, not revoked, with the
    claims of the signed payload about its subject; or raises the opaque failure, unless
    the revocation lookup raises control flow. *)
Theorem verified_credentials_are_authentic token audience now lookup :
  match verify_verifiable_credential token audience now lookup with
  | Ok c => ∃ t, token = PStr t ∧ states_credential t audience now lookup c
  | Raise e => e = failed ∨ control_flow e = true
  end.
Proof.
  destruct (verify_verifiable_credential token audience now lookup) as [c|e] eqn:E; [by apply verify_credential_Ok|].
  by apply capture_raises in E.
Qed.

Lemma check_and_record_false s i expires_at now s' : check_and_record s i expires_at now = (false, s') → entries s' ⊆ entries s.
Proof.
  unfold check_and_record. destruct (valid_replay_id i), (utc_of expires_at), (utc_of now); try (intros [= <-]; done).
  destruct (_ <=? _); [by intros [= <-]|]. case_bool_decide; [intros [= <-]; apply map_filter_subseteq|].
  destruct (_ <=? _); [intros [= <-]; apply map_filter_subseteq|done].
Qed.

(** Failures are opaque.  Whatever their arguments, the key store, the revocation
    lookup and the clock do, creating and verifying credentials, presentations and
    delegations raise nothing but [IdentityVerificationFailed] and control flow, and a
    presentation that is refused records nothing. *)
Theorem identity_failures_are_opaque e :
  (∀ lease issuer subject audience i issued expires claims,
     create_verifiable_credential lease issuer subject audience i issued expires claims = Raise e →
     e = failed ∨ control_flow e = true) ∧
  (∀ lease holder credentials audience challenge i issued expires,
     create_verifiable_presentation lease holder credentials audience challenge i issued expires = Raise e →
     e = failed ∨ control_flow e = true) ∧
  (∀ token audience challenge now lookup s s',
     verify_verifiable_presentation token audience challenge now lookup s = (Raise e, s') →
     (e = failed ∨ control_flow e = true) ∧ entries s' ⊆ entries s) ∧
  (∀ lease issuer subject audience i actor agent capabilities resources depth issued expires,
     create_delegation lease issuer subject audience i actor agent capabilities resources depth issued expires = Raise e →
     e = failed ∨ control_flow e = true) ∧
  (∀ chain root subject actor agent audience capability resource now lookup,
     verify_delegation_chain chain root subject actor agent audience capability resource now lookup = Raise e →
     e = failed ∨ control_flow e = true).
Proof.
  split_and!; try (intros; by eapply capture_raises). intros token audience challenge now lookup s s'.
  unfold verify_verifiable_presentation, unsafe_verify_verifiable_presentation. destruct (read_presentation _ _ _ _ _) as [[p n]|x];
    [|intros [Hx <-]%pair_equal_spec; split; [by eapply capture_raises|done]].
  destruct (check_and_record _ _ _ _) as [[] s1] eqn:E; [done|]. intros [Hx <-]%pair_equal_spec.
  split; [by eapply capture_raises|]. by eapply check_and_record_false.
Qed.
End verifiable_facts.
