(* ===== verification/IdentityExamples.v ===== *)
(** * Identity at concrete inputs

    A scheme of signatures that meets [Ed25519Laws], and the theorems on identities at
    concrete keys, credentials, presentations and delegations. *)

From stdpp Require Import base list list_numbers numbers strings gmap sorting.
From S2P Require Import Prelude PyString Errors Timestamp PyValue Decimal Unicode PyFloat.
From S2P Require Import CanonicalJson JsonScan WireText Retry Did Jwt JwtFacts Verifiable VerifiableFacts.
Open Scope Z_scope.

(** ** A scheme *)
Definition toy_public (seed : pybytes) : pybytes := (λ b, b mod 256) <$> seed.
Definition toy_sign (public message : pybytes) : pybytes :=
  public ++ replicate 30 0 ++ int_to_bytes 2 (foldr (λ b h, (h * 31 + b) mod 65521) 0 message).
#[local] Instance toy_ed25519 : Ed25519 := {|
  public_accepted := λ public, (length public =? PUBLIC_KEY_BYTES)%nat;
  public_of := toy_public;
  sign_with := λ seed message, toy_sign (toy_public seed) message;
  signature_valid := λ public signature message, str_eqb signature (toy_sign public message);
|}.
#[local] Instance toy_laws : Ed25519Laws.
Proof.
  assert (∀ seed, Forall is_byte (toy_public seed)) as Hb.
  { intros seed. apply Forall_fmap, Forall_forall. intros b _. unfold compose, is_byte. pose proof (Z.mod_pos_bound b 256). lia. }
  split; cbn; intros.
  - unfold toy_public. rewrite length_fmap. by apply Nat.eqb_eq.
  - split; [unfold toy_public; by rewrite length_fmap|done].
  - unfold toy_sign. split.
    + rewrite !length_app, length_replicate. unfold toy_public, int_to_bytes. rewrite length_fmap, length_fixed_digits.
      unfold PUBLIC_KEY_BYTES, SIGNATURE_BYTES in *. lia.
    + rewrite !Forall_app. split_and!; [done| |apply int_to_bytes_bytes]. apply Forall_replicate. unfold is_byte. lia.
  - apply str_eqb_refl.
Qed.
#[local] Existing Instance plain_unicode.

Definition seed_of (n : Z) : pybytes := replicate 32 n.
Definition did_at (n : Z) : pystr := did_of (toy_public (seed_of n)).

(** The witness of the theorem on signatures. *)
Lemma signatures_bind_dids_witness :
  is_Ok (sign_ed25519 (Some (u "message")) (Ok (seed_of 7)) (Some (did_at 7))) = true ∧
  match sign_ed25519 (Some (u "message")) (Ok (seed_of 7)) (Some (did_at 7)) with
  | Ok s => verify_ed25519 (PStr (did_at 7)) (Some (u "message")) (Some s) = Ok true ∧
            ∃ seed, Ok (seed_of 7) = Ok (E := exn) seed ∧ length seed = PUBLIC_KEY_BYTES ∧ did_at 7 = did_of (public_of seed)
  | Raise _ => ∀ m seed, Some (u "message") = Some m → Z.of_nat (length m) ≤ MAX_MESSAGE_BYTES → Ok (seed_of 7) = Ok (E := exn) seed →
                 length seed = PUBLIC_KEY_BYTES → did_at 7 ≠ did_of (public_of seed)
  end.
Proof. split; [vm_compute; reflexivity|]. apply (signatures_bind_dids (Some (u "message")) (Ok (seed_of 7)) (did_at 7)). Defined.

(** ** A credential *)
Definition sample_claims : list (pystr * pyval) := [(u "role", PStr (u "auditor")); (u "level", PInt 3)].
Definition sample_token : pystr :=
  u ("eyJhbGciOiJFZERTQSIsImtpZCI6ImRpZDprZXk6ejZNa2V2aDdiTVdXVWRhNDY4YkZqZkZHdER4TFhna0c4TDQ2YnNhWEV3SEQ5"
     ++ "WjNMI3o2TWtldmg3Yk1XV1VkYTQ2OGJGamZGR3REeExYZ2tHOEw0NmJzYVhFd0hEOVozTCIsInR5cCI6IkpXVCJ9.eyJhdWQiOiJ"
     ++ "1cm46dmVyaWZpZXIiLCJleHAiOjE3NTAwMzIwMDAsImlhdCI6MTc1MDAwMDAwMCwiaXNzIjoiZGlkOmtleTp6Nk1rZXZoN2JNV1d"
     ++ "VZGE0NjhiRmpmRkd0RHhMWGdrRzhMNDZic2FYRXdIRDlaM0wiLCJqdGkiOiJjcmVkLTEiLCJuYmYiOjE3NTAwMDAwMDAsInN1YiI"
     ++ "6ImRpZDprZXk6ejZNa2V6Y1FqZXlYNHZzSEVEcW1BeGFDQjZqNm1xeFRvUGp2QUhGQkpLS290dE4zIiwidmMiOnsiQGNvbnRleHQ"
     ++ "iOlsiaHR0cHM6Ly93d3cudzMub3JnLzIwMTgvY3JlZGVudGlhbHMvdjEiXSwiY3JlZGVudGlhbFN1YmplY3QiOnsiaWQiOiJkaWQ"
     ++ "6a2V5Ono2TWtlemNRamV5WDR2c0hFRHFtQXhhQ0I2ajZtcXhUb1BqdkFIRkJKS0tvdHROMyIsImxldmVsIjozLCJyb2xlIjoiYXV"
     ++ "kaXRvciJ9LCJpZCI6ImNyZWQtMSIsImlzc3VlciI6ImRpZDprZXk6ejZNa2V2aDdiTVdXVWRhNDY4YkZqZkZHdER4TFhna0c4TDQ"
     ++ "2YnNhWEV3SEQ5WjNMIiwidHlwZSI6WyJWZXJpZmlhYmxlQ3JlZGVudGlhbCJdfX0.BwcHBwcHBwcHBwcHBwcHBwcHBwcHBwcHBwc"
     ++ "HBwcHBwcAAAAAAAAAAAAAAAAAAAAAAAAAAAAAAAAAAAAAAAAD-A")%string.
Lemma sample_created :
  create_verifiable_credential (Ok (seed_of 7)) (PStr (did_at 7)) (PStr (did_at 8)) (PStr (u "urn:verifier"))
    (PStr (u "cred-1")) (SValue (PInt 1750000000)) (SValue (PStr (u "2025-06-16T00:00:00Z"))) (PDict sample_claims) = Ok sample_token.
Proof. vm_compute. reflexivity. Qed.

(** The credential is read back. *)
Lemma credentials_round_trip_witness : ∃ c, vc_claims c = Ok (sorted_members sample_claims) ∧
  vc_credential_id c = u "cred-1" ∧
  verify_verifiable_credential (PStr sample_token) (PStr (u "urn:verifier")) (SValue (PInt 1750000100)) (static_lookup []) = Ok c ∧
  verify_verifiable_credential (PStr sample_token) (PStr (u "urn:other")) (SValue (PInt 1750000100)) (static_lookup []) ≠ Ok c.
Proof.
  assert (NoDup sample_claims.*1) as Hk by (apply (bool_decide_unpack _); vm_compute; exact I).
  assert (normal_json (PList [PStr (did_at 8); PStr (u "urn:verifier"); PStr (u "cred-1"); PDict sample_claims]) = true) as Hn
    by (vm_compute; reflexivity).
  assert (Z.of_nat (length sample_token) ≤ MAX_SEGMENT_BYTES) as Hl by (vm_compute; discriminate).
  pose proof (credentials_round_trip (Ok (seed_of 7)) (PStr (did_at 7)) (PStr (did_at 8)) (PStr (u "urn:verifier")) (PStr (u "cred-1"))
    (SValue (PInt 1750000000)) (SValue (PStr (u "2025-06-16T00:00:00Z"))) sample_claims sample_token) as Hr.
  assert (timestamp_of (SValue (PInt 1750000000)) = Ok 1750000000) as Ti by (vm_compute; reflexivity).
  assert (timestamp_of (SValue (PStr (u "2025-06-16T00:00:00Z"))) = Ok 1750032000) as Te by (vm_compute; reflexivity).
  rewrite Ti, Te in Hr. specialize (Hr sample_created Hk Hn Hl). destruct Hr as (c & _ & _ & Ha & Hi & Hti & Hte & Hc & Hv).
  injection Ha as Ha. injection Hi as Hi. exists c. split_and!; [done..| |].
  - apply Hv. split_and!; [done..| |by rewrite <-Hi].
    injection Hti as <-. injection Hte as <-.
    exists 1750000100. split; [vm_compute; reflexivity|lia].
  - intros (_ & He & _)%Hv. vm_compute in He. congruence.
Defined.

(** ** A presentation *)
Definition sample_vp : pystr :=
  u ("eyJhbGciOiJFZERTQSIsImtpZCI6ImRpZDprZXk6ejZNa2V6Y1FqZXlYNHZzSEVEcW1BeGFDQjZqNm1xeFRvUGp2QUhGQkpLS290"
     ++ "dE4zI3o2TWtlemNRamV5WDR2c0hFRHFtQXhhQ0I2ajZtcXhUb1BqdkFIRkJKS0tvdHROMyIsInR5cCI6IkpXVCJ9.eyJhdWQiOiJ"
     ++ "1cm46dmVyaWZpZXIiLCJleHAiOjE3NTAwMTAwMDAsImlhdCI6MTc1MDAwMDAwMCwiaXNzIjoiZGlkOmtleTp6Nk1rZXpjUWpleVg"
     ++ "0dnNIRURxbUF4YUNCNmo2bXF4VG9QanZBSEZCSktLb3R0TjMiLCJqdGkiOiJ2cC0xIiwibmJmIjoxNzUwMDAwMDAwLCJub25jZSI"
     ++ "6Im5vbmNlLTEiLCJzdWIiOiJkaWQ6a2V5Ono2TWtlemNRamV5WDR2c0hFRHFtQXhhQ0I2ajZtcXhUb1BqdkFIRkJKS0tvdHROMyI"
     ++ "sInZwIjp7IkBjb250ZXh0IjpbImh0dHBzOi8vd3d3LnczLm9yZy8yMDE4L2NyZWRlbnRpYWxzL3YxIl0sInR5cGUiOlsiVmVyaWZ"
     ++ "pYWJsZVByZXNlbnRhdGlvbiJdLCJ2ZXJpZmlhYmxlQ3JlZGVudGlhbCI6WyJleUpoYkdjaU9pSkZaRVJUUVNJc0ltdHBaQ0k2SW1"
     ++ "ScFpEcHJaWGs2ZWpaTmEyVjJhRGRpVFZkWFZXUmhORFk0WWtacVprWkhkRVI0VEZobmEwYzRURFEyWW5OaFdFVjNTRVE1V2pOTUk"
     ++ "zbzJUV3RsZG1nM1lrMVhWMVZrWVRRMk9HSkdhbVpHUjNSRWVFeFlaMnRIT0V3ME5tSnpZVmhGZDBoRU9Wb3pUQ0lzSW5SNWNDSTZ"
     ++ "Ja3BYVkNKOS5leUpoZFdRaU9pSjFjbTQ2ZG1WeWFXWnBaWElpTENKbGVIQWlPakUzTlRBd016SXdNREFzSW1saGRDSTZNVGMxTUR"
     ++ "Bd01EQXdNQ3dpYVhOeklqb2laR2xrT210bGVUcDZOazFyWlhab04ySk5WMWRWWkdFME5qaGlSbXBtUmtkMFJIaE1XR2RyUnpoTU5"
     ++ "EWmljMkZZUlhkSVJEbGFNMHdpTENKcWRHa2lPaUpqY21Wa0xURWlMQ0p1WW1ZaU9qRTNOVEF3TURBd01EQXNJbk4xWWlJNkltUnB"
     ++ "aRHByWlhrNmVqWk5hMlY2WTFGcVpYbFlOSFp6U0VWRWNXMUJlR0ZEUWpacU5tMXhlRlJ2VUdwMlFVaEdRa3BMUzI5MGRFNHpJaXd"
     ++ "pZG1NaU9uc2lRR052Ym5SbGVIUWlPbHNpYUhSMGNITTZMeTkzZDNjdWR6TXViM0puTHpJd01UZ3ZZM0psWkdWdWRHbGhiSE12ZGp"
     ++ "FaVhTd2lZM0psWkdWdWRHbGhiRk4xWW1wbFkzUWlPbnNpYVdRaU9pSmthV1E2YTJWNU9ubzJUV3RsZW1OUmFtVjVXRFIyYzBoRlJ"
     ++ "IRnRRWGhoUTBJMmFqWnRjWGhVYjFCcWRrRklSa0pLUzB0dmRIUk9NeUlzSW14bGRtVnNJam96TENKeWIyeGxJam9pWVhWa2FYUnZ"
     ++ "jaUo5TENKcFpDSTZJbU55WldRdE1TSXNJbWx6YzNWbGNpSTZJbVJwWkRwclpYazZlalpOYTJWMmFEZGlUVmRYVldSaE5EWTRZa1p"
     ++ "xWmtaSGRFUjRURmhuYTBjNFREUTJZbk5oV0VWM1NFUTVXak5NSWl3aWRIbHdaU0k2V3lKV1pYSnBabWxoWW14bFEzSmxaR1Z1ZEd"
     ++ "saGJDSmRmWDAuQndjSEJ3Y0hCd2NIQndjSEJ3Y0hCd2NIQndjSEJ3Y0hCd2NIQndjSEJ3Y0FBQUFBQUFBQUFBQUFBQUFBQUFBQUF"
     ++ "BQUFBQUFBQUFBQUFBQUFBQUFELUEiXX19.CAgICAgICAgICAgICAgICAgICAgICAgICAgICAgICAgAAAAAAAAAAAAAAAAAAAAAAA"
     ++ "AAAAAAAAAAAAAAAADq_g")%string.
#[local] Notation present challenge now s :=
  (verify_verifiable_presentation (PStr sample_vp) (PStr (u "urn:verifier")) (PStr (u challenge)) (SValue (PInt now)) (static_lookup []) s).
Definition accepted {A} (r : py A * replay_store) : bool := is_Ok r.1.

(** It is accepted for its challenge only. *)
Example other_challenge_refused : accepted (present "nonce-2" 1750000100 (ReplayStore ∅ 10)) = false.
Proof. vm_compute. reflexivity. Qed.

Lemma presentations_are_accepted_once_witness : ∃ q s1,
  present "nonce-1" 1750000100 (ReplayStore ∅ 10) = (Ok q, s1) ∧
  ∀ s2 lookup q', rtc (records 1750000200000000) s1 s2 →
    (verify_verifiable_presentation (PStr sample_vp) (PStr (u "urn:verifier")) (PStr (u "nonce-1")) (SValue (PInt 1750000200)) lookup s2).1
    ≠ Ok q'.
Proof.
  assert (accepted (present "nonce-1" 1750000100 (ReplayStore ∅ 10)) = true) as Hok by (vm_compute; reflexivity).
  destruct (present "nonce-1" 1750000100 (ReplayStore ∅ 10)) as [[q|e] s1] eqn:E; [|done].
  exists q, s1. split; [reflexivity|]. intros s2 lookup q' Hrtc.
  destruct (presentations_are_accepted_once (PStr sample_vp) (PStr (u "urn:verifier")) (PStr (u "nonce-1")) (SValue (PInt 1750000100))
    (static_lookup []) (ReplayStore ∅ 10) q s1 E) as (_ & _ & Honce).
  destruct (Honce (PStr (u "urn:verifier")) (PStr (u "nonce-1")) (SValue (PInt 1750000200)) lookup 1750000200 s2) as [_ Hn];
    [vm_compute; reflexivity|exact Hrtc|exact (Hn q')].
Defined.

(** ** A chain of two delegations *)
Definition first_link : pystr :=
  u ("eyJhbGciOiJFZERTQSIsImtpZCI6ImRpZDprZXk6ejZNa2V2aDdiTVdXVWRhNDY4YkZqZkZHdER4TFhna0c4TDQ2YnNhWEV3SEQ5"
     ++ "WjNMI3o2TWtldmg3Yk1XV1VkYTQ2OGJGamZGR3REeExYZ2tHOEw0NmJzYVhFd0hEOVozTCIsInR5cCI6IkpXVCJ9.eyJhdWQiOiJ"
     ++ "1cm46dmVyaWZpZXIiLCJleHAiOjE3NTAwMjAwMDAsImlhdCI6MTc1MDAwMDAwMCwiaXNzIjoiZGlkOmtleTp6Nk1rZXZoN2JNV1d"
     ++ "VZGE0NjhiRmpmRkd0RHhMWGdrRzhMNDZic2FYRXdIRDlaM0wiLCJqdGkiOiJsaW5rLTEiLCJuYmYiOjE3NTAwMDAwMDAsInN1YiI"
     ++ "6ImRpZDprZXk6ejZNa2V6Y1FqZXlYNHZzSEVEcW1BeGFDQjZqNm1xeFRvUGp2QUhGQkpLS290dE4zIiwidmMiOnsiQGNvbnRleHQ"
     ++ "iOlsiaHR0cHM6Ly93d3cudzMub3JnLzIwMTgvY3JlZGVudGlhbHMvdjEiXSwiY3JlZGVudGlhbFN1YmplY3QiOnsiZGVsZWdhdGl"
     ++ "vbiI6eyJhY3RvciI6ImFsaWNlIiwiYWdlbnQiOiJhZ2VudC0xIiwiY2FwYWJpbGl0aWVzIjpbInJlYWQiLCJ3cml0ZSJdLCJyZW1"
     ++ "haW5pbmdEZXB0aCI6MiwicmVzb3VyY2VzIjpbImxlZGdlciIsIm1haWwiXX0sImlkIjoiZGlkOmtleTp6Nk1rZXpjUWpleVg0dnN"
     ++ "IRURxbUF4YUNCNmo2bXF4VG9QanZBSEZCSktLb3R0TjMifSwiaWQiOiJsaW5rLTEiLCJpc3N1ZXIiOiJkaWQ6a2V5Ono2TWtldmg"
     ++ "3Yk1XV1VkYTQ2OGJGamZGR3REeExYZ2tHOEw0NmJzYVhFd0hEOVozTCIsInR5cGUiOlsiVmVyaWZpYWJsZUNyZWRlbnRpYWwiXX1"
     ++ "9.BwcHBwcHBwcHBwcHBwcHBwcHBwcHBwcHBwcHBwcHBwcAAAAAAAAAAAAAAAAAAAAAAAAAAAAAAAAAAAAAAACTIg")%string.
Definition second_link : pystr :=
  u ("eyJhbGciOiJFZERTQSIsImtpZCI6ImRpZDprZXk6ejZNa2V6Y1FqZXlYNHZzSEVEcW1BeGFDQjZqNm1xeFRvUGp2QUhGQkpLS290"
     ++ "dE4zI3o2TWtlemNRamV5WDR2c0hFRHFtQXhhQ0I2ajZtcXhUb1BqdkFIRkJKS0tvdHROMyIsInR5cCI6IkpXVCJ9.eyJhdWQiOiJ"
     ++ "1cm46dmVyaWZpZXIiLCJleHAiOjE3NTAwMTAwMDAsImlhdCI6MTc1MDAwMDAwMCwiaXNzIjoiZGlkOmtleTp6Nk1rZXpjUWpleVg"
     ++ "0dnNIRURxbUF4YUNCNmo2bXF4VG9QanZBSEZCSktLb3R0TjMiLCJqdGkiOiJsaW5rLTIiLCJuYmYiOjE3NTAwMDAwMDAsInN1YiI"
     ++ "6ImRpZDprZXk6ejZNa2Y0WGhzeFNYZkVBV05LNkdjRnU3VHlWczIxQWZVVFJqaWd1cU1oTlFlRGdrIiwidmMiOnsiQGNvbnRleHQ"
     ++ "iOlsiaHR0cHM6Ly93d3cudzMub3JnLzIwMTgvY3JlZGVudGlhbHMvdjEiXSwiY3JlZGVudGlhbFN1YmplY3QiOnsiZGVsZWdhdGl"
     ++ "vbiI6eyJhY3RvciI6ImFsaWNlIiwiYWdlbnQiOiJhZ2VudC0xIiwiY2FwYWJpbGl0aWVzIjpbInJlYWQiXSwicmVtYWluaW5nRGV"
     ++ "wdGgiOjEsInJlc291cmNlcyI6WyJsZWRnZXIiXX0sImlkIjoiZGlkOmtleTp6Nk1rZjRYaHN4U1hmRUFXTks2R2NGdTdUeVZzMjF"
     ++ "BZlVUUmppZ3VxTWhOUWVEZ2sifSwiaWQiOiJsaW5rLTIiLCJpc3N1ZXIiOiJkaWQ6a2V5Ono2TWtlemNRamV5WDR2c0hFRHFtQXh"
     ++ "hQ0I2ajZtcXhUb1BqdkFIRkJKS0tvdHROMyIsInR5cGUiOlsiVmVyaWZpYWJsZUNyZWRlbnRpYWwiXX19.CAgICAgICAgICAgICA"
     ++ "gICAgICAgICAgICAgICAgICAgAAAAAAAAAAAAAAAAAAAAAAAAAAAAAAAAAAAAAAABo2g")%string.
#[local] Notation chain_verdict links capability :=
  (verify_delegation_chain (PList (PStr <$> links)) (PStr (did_at 7)) (PStr (did_at 9)) (PStr (u "alice")) (PStr (u "agent-1"))
    (PStr (u "urn:verifier")) (PStr (u capability)) (PStr (u "ledger")) (SValue (PInt 1750000100)) (static_lookup [])).

(** The second link alone does not start at the root. *)
Example headless_chain_refused : is_Ok (chain_verdict [second_link] "read") = false.
Proof. vm_compute. reflexivity. Qed.

Lemma delegation_attenuates_witness : ∃ d, chain_verdict [first_link; second_link] "read" = Ok d ∧
  ∃ ls, StronglySorted narrows ls ∧ length ls = 2%nat ∧
    Forall (λ l, vd_capabilities d ⊆ ln_capabilities l ∧ vd_resources d ⊆ ln_resources l ∧ vd_expires_at d ≤ ln_expiry l) ls.
Proof.
  assert (is_Ok (chain_verdict [first_link; second_link] "read") = true) as Hok by (vm_compute; reflexivity).
  destruct (chain_verdict [first_link; second_link] "read") as [d|e] eqn:E; [|done]. exists d. split; [reflexivity|].
  destruct (delegation_attenuates _ _ _ _ _ _ _ _ _ _ _ E)
    as (tokens & cs & ls & ? & ? & [= Ht] & _ & Hcs & _ & _ & Hg & Hs & _ & Hall & _).
  exists ls. split_and!; [done| |done].
  rewrite <-(Forall2_length _ _ _ Hg), <-(Forall2_length _ _ _ Hcs).
  apply (f_equal length) in Ht. rewrite length_fmap in Ht. exact (eq_sym Ht).
Defined.
