(* ===== verification/KeyStore.v ===== *)
(** * Key stores

    Models [python/src/palonexus/keystore.py]: the identifiers, the leases of loaded
    secrets, the store in memory ([EphemeralKeyStore]) and the mediator of a backend
    ([_ValidatedKeyStore]).  A [bytearray] is an address of [buffers], so that who holds
    which buffer, and what is erased, can be said; a lease is an address of [leases].  What
    [os.getpid()] gives, [None] when it raises, and whether memory for a copy can be had are
    arguments of a call. *)

From stdpp Require Import base list list_numbers numbers strings gmap fin_maps.
From S2P Require Import Prelude PyString Errors PyValue Effects.
Open Scope Z_scope.

Definition MAX_IDENTIFIER_LENGTH : Z := 128.
Definition MAX_SECRET_BYTES : Z := 65536.
Definition IDENTIFIER_EDGE_CHARS : pystr :=
  u "ABCDEFGHIJKLMNOPQRSTUVWXYZabcdefghijklmnopqrstuvwxyz0123456789".
Definition IDENTIFIER_CHARS : pystr := IDENTIFIER_EDGE_CHARS ++ u "._-".

(** [".." in value]. *)
Fixpoint double_dot (s : pystr) : bool :=
  match s with
  | 46 :: ((46 :: _) as s') => true
  | _ :: s' => double_dot s'
  | [] => false
  end.

(** [_validate_identifier]. *)
Definition valid_identifier (value : pyval) : option pystr :=
  match value with
  | PStr s =>
      match s, last s with
      | first :: _, Some final =>
          if (Z.of_nat (length s) <=? MAX_IDENTIFIER_LENGTH) && bool_decide (first ∈ IDENTIFIER_EDGE_CHARS)
             && bool_decide (final ∈ IDENTIFIER_EDGE_CHARS)
             && forallb (λ c, bool_decide (c ∈ IDENTIFIER_CHARS)) s && negb (double_dot s)
          then Some s else None
      | _, _ => None
      end
  | _ => None
  end.
Definition validate_identifier (value : pyval) : py pystr :=
  match valid_identifier value with Some s => Ok s | None => Raise (KeyStoreError InvalidKeyIdentifier) end.

(** The tenant and the key. *)
Definition reference : Type := pystr * pystr.
Definition reference_of (tenant_id key_id : pyval) : py reference :=
  tenant ← validate_identifier tenant_id;
  key ← validate_identifier key_id;
  Ok (tenant, key).

(** ** Memory and objects *)

(** [_SecretLease]. *)
Record lease := Lease { lease_buffer : nat; lease_closed : bool; owner_pid : Z }.

(** The buffers, every lease object, and the [EphemeralKeyStore]: its entries, the weak set
    of its leases, whether it is closed, and its process. *)
Record world := World {
  buffers : gmap nat pybytes;
  leases : gmap nat lease;
  entries : gmap reference nat;
  tracked : list nat;
  closed : bool;
  store_pid : Z;
}.
Definition set_buffers (f : gmap nat pybytes → gmap nat pybytes) (w : world) : world :=
  World (f (buffers w)) (leases w) (entries w) (tracked w) (closed w) (store_pid w).
Definition set_leases (f : gmap nat lease → gmap nat lease) (w : world) : world :=
  World (buffers w) (f (leases w)) (entries w) (tracked w) (closed w) (store_pid w).
Definition set_entries (f : gmap reference nat → gmap reference nat) (w : world) : world :=
  World (buffers w) (leases w) (f (entries w)) (tracked w) (closed w) (store_pid w).
Definition set_tracked (f : list nat → list nat) (w : world) : world :=
  World (buffers w) (leases w) (entries w) (f (tracked w)) (closed w) (store_pid w).

(** [_wipe]. *)
Definition zeros (b : pybytes) : pybytes := replicate (length b) 0.
Definition wipe (a : nat) (w : world) : world := set_buffers (alter zeros a) w.
Definition wipe_all (l : list nat) (w : world) : world := foldl (λ w a, wipe a w) w l.

(** [bytearray(source)]. *)
Definition new_buffer (b : pybytes) : eff world nat := λ w,
  let a := fresh (dom (buffers w)) in (Ok a, set_buffers (insert a b) w).
Definition contents (a : nat) : eff world pybytes := reading (λ w, default [] (buffers w !! a)).

(** ** Leases *)

(** [_invalidate]. *)
Definition invalidate (l : nat) (w : world) : world :=
  match leases w !! l with
  | Some x => set_leases (insert l (Lease (lease_buffer x) true (owner_pid x))) (wipe (lease_buffer x) w)
  | None => w
  end.
Definition invalidate_all (ls : list nat) (w : world) : world := foldl (λ w l, invalidate l w) w ls.

(** [_SecretLease(owned_buffer)]. *)
Definition new_lease (owned_buffer : nat) (getpid : option Z) : eff world nat := λ w,
  match getpid with
  | Some pid =>
      let l := fresh (dom (leases w)) in (Ok l, set_leases (insert l (Lease owned_buffer false pid)) w)
  | None => (Raise (KeyStoreError KeyStoreUnavailable), wipe owned_buffer w)
  end.

Definition owner_matches (x : lease) (getpid : option Z) : bool :=
  match getpid with Some pid => pid =? owner_pid x | None => false end.
Definition the_lease (l : nat) : eff world lease := λ w,
  match leases w !! l with Some x => (Ok x, w) | None => (Raise AttributeError, w) end.

(** [_SecretLease._require_open]. *)
Definition lease_require_open (l : nat) (getpid : option Z) : eff world () :=
  x ← the_lease l;
  if negb (owner_matches x getpid) then update (invalidate l);; raising (KeyStoreError KeyStoreClosed)
  else run (raise_if (lease_closed x) (KeyStoreError KeyStoreClosed)).

(** [_SecretLease.closed]. *)
Definition lease_is_closed (l : nat) (getpid : option Z) : eff world bool :=
  x ← the_lease l;
  (if negb (owner_matches x getpid) then update (invalidate l) else mret ());;
  x ← the_lease l;
  mret (lease_closed x).

(** [_SecretLease.copy_bytes]; [memory] is whether [bytes] can be made. *)
Definition copy_bytes (l : nat) (getpid : option Z) (memory : bool) : eff world pybytes :=
  lease_require_open l getpid;;
  x ← the_lease l;
  if memory then contents (lease_buffer x)
  else update (invalidate l);; raising (KeyStoreError KeyStoreUnavailable).

(** [_SecretLease.__enter__], [close] and [__exit__]. *)
Definition lease_enter (l : nat) (getpid : option Z) : eff world nat := lease_require_open l getpid;; mret l.
Definition lease_close (l : nat) (getpid : option Z) : eff world () :=
  x ← the_lease l;
  update (invalidate l);;
  run (raise_if (negb (owner_matches x getpid)) (KeyStoreError KeyStoreClosed)).

(** [_SecretLease.__del__], when the lease is collected. *)
Definition collect_lease (l : nat) (w : world) : world := set_tracked (filter (λ m, m ≠ l)) (invalidate l w).

(** ** The store in memory *)

(** The values of the entries. *)
Definition stored_buffers (w : world) : list nat := (map_to_list (entries w)).*2.

(** [_after_fork_child]. *)
Definition after_fork_child (current_pid : Z) (w : world) : world :=
  let inherited := stored_buffers w in
  let held := tracked w in
  invalidate_all held (wipe_all inherited (World (buffers w) (leases w) ∅ [] (closed w) current_pid)).

(** What a child process does first, where [os] has [register_at_fork]. *)
Definition clear_in_child (getpid : option Z) (w : world) : world := after_fork_child (default (-1) getpid) w.

(** [_clear_if_forked]. *)
Definition clear_if_forked (getpid : option Z) : eff world () := λ w,
  match getpid with
  | Some pid => (Ok (), if pid =? store_pid w then w else after_fork_child pid w)
  | None => (Raise (KeyStoreError KeyStoreUnavailable), w)
  end.
Definition require_open : eff world () := λ w, (raise_if (closed w) (KeyStoreError KeyStoreClosed), w).

(** [EphemeralKeyStore.close]: what is done when it is open, and also when the process
    cannot be told. *)
Definition erase_store (w : world) : world :=
  let values := stored_buffers w in
  let held := tracked w in
  invalidate_all held (wipe_all values (World (buffers w) (leases w) ∅ [] true (store_pid w))).
Definition close_store (getpid : option Z) (w : world) : world :=
  match clear_if_forked getpid w with
  | (Ok _, w) => if closed w then w else erase_store w
  | (Raise _, w) => erase_store w
  end.

(** [EphemeralKeyStore(testing_only=...)] in a memory; [registered] is whether the hook
    for child processes could be registered. *)
Definition new_store (testing_only : bool) (getpid : option Z) (registered : bool) : eff world () := λ w,
  if negb testing_only then (Raise (KeyStoreError KeyStoreUnavailable), w)
  else
    let w := World (buffers w) (leases w) ∅ [] false (-1) in
    match getpid with
    | Some pid =>
        let w := World (buffers w) (leases w) ∅ [] false pid in
        if registered then (Ok (), w)
        else (Raise (KeyStoreError KeyStoreUnavailable), close_store getpid w)
    | None => (Raise (KeyStoreError KeyStoreUnavailable), close_store getpid w)
    end.

(** [EphemeralKeyStore.closed] and [__enter__], with which the operations begin. *)
Definition store_is_closed (getpid : option Z) : eff world bool := clear_if_forked getpid;; reading closed.
Definition store_enter (getpid : option Z) : eff world () := clear_if_forked getpid;; require_open.

Definition secret_size (b : pybytes) : bool := (1 <=? Z.of_nat (length b)) && (Z.of_nat (length b) <=? MAX_SECRET_BYTES).

(** [EphemeralKeyStore.load]; the process is asked once for the store and once for the
    lease. *)
Definition load (tenant_id key_id : pyval) (getpid : option Z) (memory : bool) (getpid_again : option Z)
    : eff world nat :=
  ref ← run (reference_of tenant_id key_id);
  store_enter getpid;;
  stored ← reading (λ w, entries w !! ref);
  match stored with
  | None => raising (KeyStoreError KeyNotFound)
  | Some stored =>
      value ← contents stored;
      if negb (secret_size value) then
        update (set_entries (delete ref));; update (wipe stored);; raising (KeyStoreError KeyStoreCorrupt)
      else if negb memory then raising (KeyStoreError KeyStoreUnavailable)
      else
        loaded ← new_buffer value;
        excepting
          (l ← new_lease loaded getpid_again;
           update (set_tracked (cons l));;
           mret l)
          (update (wipe loaded);; raising (KeyStoreError KeyStoreUnavailable))
  end.

(** [_take_secret]: [None] is a value that is not a [bytearray]. *)
Definition take_secret (value : option nat) (memory : bool) : eff world nat :=
  match value with
  | None => raising (KeyStoreError InvalidKeyMaterial)
  | Some source =>
      finally
        (value ← contents source;
         if negb (secret_size value) then raising (KeyStoreError InvalidKeyMaterial)
         else if memory then new_buffer value
         else raising (KeyStoreError KeyStoreUnavailable))
        (wipe source)
  end.

(** What [store] does first: take the secret, and wipe it when the identifiers are not
    valid. *)
Definition prepare_store (tenant_id key_id : pyval) (value : option nat) (memory : bool)
    : eff world (nat * reference) :=
  owned ← take_secret value memory;
  ref ← on_error (run (reference_of tenant_id key_id)) (wipe owned);
  mret (owned, ref).

(** [EphemeralKeyStore.store]. *)
Definition store (tenant_id key_id : pyval) (value : option nat) (memory : bool) (getpid : option Z) : eff world () :=
  '(owned, ref) ← prepare_store tenant_id key_id value memory;
  on_error (store_enter getpid) (wipe owned);;
  previous ← reading (λ w, entries w !! ref);
  update (set_entries (insert ref owned));;
  update (from_option wipe id previous).

(** [EphemeralKeyStore.delete]. *)
Definition delete_key (tenant_id key_id : pyval) (getpid : option Z) : eff world () :=
  ref ← run (reference_of tenant_id key_id);
  store_enter getpid;;
  removed ← reading (λ w, entries w !! ref);
  match removed with
  | None => raising (KeyStoreError KeyNotFound)
  | Some removed => update (set_entries (delete ref));; update (wipe removed)
  end.

(** ** The mediator of a backend *)

(** What a method of a backend gives: a [bytearray], [None], an awaitable or another
    object. *)
Inductive backend_value := BBytearray (a : nat) | BNone | BAwaitable | BOther.
Record backend := Backend {
  load_method : reference → eff world backend_value;
  store_method : reference → nat → eff world backend_value;
  delete_method : reference → eff world backend_value;
}.
Inductive backend_status := NotFound | Corrupt | Unavailable | Invalid.

(** [_invoke_backend]. *)
Definition invoke_backend (method : eff world backend_value) : eff world (backend_value + backend_status) := λ w,
  match method w with
  | (Ok BAwaitable, w) => (Ok (inr Invalid), w)
  | (Ok v, w) => (Ok (inl v), w)
  | (Raise (KeyStoreError KeyNotFound), w) => (Ok (inr NotFound), w)
  | (Raise (KeyStoreError KeyStoreCorrupt), w) => (Ok (inr Corrupt), w)
  | (Raise e, w) => if is_exception e then (Ok (inr Unavailable), w) else (Raise e, w)
  end.

(** [_raise_backend_status]. *)
Definition backend_error (s : backend_status) : exn :=
  match s with
  | NotFound => KeyStoreError KeyNotFound
  | Corrupt | Invalid => KeyStoreError KeyStoreCorrupt
  | Unavailable => KeyStoreError KeyStoreUnavailable
  end.

(** [_take_backend_secret]. *)
Definition take_backend_secret (value : backend_value) (memory : bool) : eff world (option nat) :=
  match value with
  | BBytearray source =>
      finally
        (value ← contents source;
         if secret_size value && memory then (copied ← new_buffer value; mret (Some copied)) else mret None)
        (wipe source)
  | _ => mret None
  end.

(** [_ValidatedKeyStore]. *)
Record validated_store := ValidatedStore { methods : backend; validated_pid : Z }.

(** [_require_owner]. *)
Definition require_owner (v : validated_store) (getpid : option Z) : py () :=
  raise_if (negb (match getpid with Some pid => pid =? validated_pid v | None => false end))
    (KeyStoreError KeyStoreUnavailable).

(** [_ValidatedKeyStore.load]. *)
Definition validated_load (v : validated_store) (tenant_id key_id : pyval) (getpid : option Z) (memory : bool)
    (getpid_again : option Z) : eff world nat :=
  ref ← run (reference_of tenant_id key_id);
  run (require_owner v getpid);;
  outcome ← invoke_backend (load_method (methods v) ref);
  match outcome with
  | inr status => raising (backend_error status)
  | inl result =>
      secret ← take_backend_secret result memory;
      match secret with
      | None => raising (KeyStoreError KeyStoreCorrupt)
      | Some secret =>
          excepting (new_lease secret getpid_again)
            (update (wipe secret);; raising (KeyStoreError KeyStoreUnavailable))
      end
  end.

(** What [store] and [delete] require of the backend. *)
Definition no_result (outcome : backend_value + backend_status) : py () :=
  match outcome with
  | inr status => Raise (backend_error status)
  | inl BNone => Ok ()
  | inl _ => Raise (KeyStoreError KeyStoreCorrupt)
  end.

(** [_ValidatedKeyStore.store] and [delete]. *)
Definition validated_store_key (v : validated_store) (tenant_id key_id : pyval) (value : option nat) (memory : bool)
    (getpid : option Z) : eff world () :=
  '(owned, ref) ← prepare_store tenant_id key_id value memory;
  outcome ← finally (run (require_owner v getpid);; invoke_backend (store_method (methods v) ref owned)) (wipe owned);
  run (no_result outcome).
Definition validated_delete (v : validated_store) (tenant_id key_id : pyval) (getpid : option Z) : eff world () :=
  ref ← run (reference_of tenant_id key_id);
  run (require_owner v getpid);;
  outcome ← invoke_backend (delete_method (methods v) ref);
  run (no_result outcome).
