(* ===== verification/KeyStoreFacts.v ===== *)
(** * Key stores keep and erase secrets

    The store in memory of [python/src/palonexus/keystore.py] refines a map from
    references to secrets, and erases every buffer it gives up; the mediator hands a
    backend a buffer that it erases whatever the backend does. *)

From stdpp Require Import base list list_numbers numbers strings gmap fin_maps.
From S2P Require Import Prelude PyString Errors PyValue Effects KeyStore.
Open Scope Z_scope.

(** ** Erased buffers *)
Definition is_zero (b : pybytes) : Prop := Forall (λ x, x = 0) b.
Definition erased (w : world) (a : nat) : Prop := ∀ b, buffers w !! a = Some b → is_zero b.

Lemma zeros_zero b : is_zero (zeros b).
Proof. by apply Forall_replicate. Qed.
Lemma length_zeros b : length (zeros b) = length b.
Proof. apply length_replicate. Qed.

Lemma buffers_wipe a w c :
  buffers (wipe a w) !! c = if decide (c = a) then zeros <$> (buffers w !! a) else buffers w !! c.
Proof.
  unfold wipe. cbn. destruct (decide (c = a)) as [->|Hn]; [by rewrite lookup_alter_eq|by rewrite lookup_alter_ne].
Qed.
Lemma erased_wipe a w : erased (wipe a w) a.
Proof.
  intros b. rewrite buffers_wipe, decide_True by done. destruct (buffers w !! a); cbn; [|done].
  intros [= <-]. apply zeros_zero.
Qed.
Lemma erased_wipe_keeps a c w : erased w c → erased (wipe a w) c.
Proof.
  intros He b. rewrite buffers_wipe. destruct (decide (c = a)) as [->|]; [|apply He].
  destruct (buffers w !! a); cbn; [|done]. intros [= <-]. apply zeros_zero.
Qed.

(** The lengths and the sets of buffers stay. *)
Lemma wipe_length a w c b : buffers (wipe a w) !! c = Some b → ∃ b', buffers w !! c = Some b' ∧ length b' = length b.
Proof.
  rewrite buffers_wipe. destruct (decide (c = a)) as [->|]; [|eauto].
  intros (b' & Hb & ->)%fmap_Some. exists b'. split; [done|]. by rewrite length_zeros.
Qed.
Lemma dom_wipe a w : dom (buffers (wipe a w)) = dom (buffers w).
Proof. unfold wipe. cbn. apply dom_alter_L. Qed.

(** ** The invariant

    [held] are the buffers that callers, or an operation that has not ended, hold. *)
Record sound (held : gset nat) (w : world) : Prop := {
  entry_buffer r a : entries w !! r = Some a → ∃ b, buffers w !! a = Some b ∧ secret_size b = true;
  entries_inj r s a : entries w !! r = Some a → entries w !! s = Some a → r = s;
  leases_inj l m x y : leases w !! l = Some x → leases w !! m = Some y → lease_buffer x = lease_buffer y → l = m;
  lease_dom l x : leases w !! l = Some x → lease_buffer x ∈ dom (buffers w);
  entry_lease r a l x : entries w !! r = Some a → leases w !! l = Some x → lease_buffer x ≠ a;
  held_entry r a : entries w !! r = Some a → a ∉ held;
  held_lease l x : leases w !! l = Some x → lease_buffer x ∉ held;
  open_tracked l x : leases w !! l = Some x → lease_closed x = false → l ∈ tracked w;
  secrets_owned a : a ∈ held ∨ (∃ r, entries w !! r = Some a) ∨
    (∃ l x, leases w !! l = Some x ∧ lease_closed x = false ∧ lease_buffer x = a) ∨ erased w a;
  closed_empty : closed w = true → entries w = ∅;
  closed_leases l x : closed w = true → leases w !! l = Some x → lease_closed x = true;
  held_dom : held ⊆ dom (buffers w);
}.

Section invariant.
Implicit Types (w : world) (held : gset nat).

Lemma sound_wipe held w a : sound held w → sound held (wipe a w).
Proof.
  intros S. split; try apply S.
  - intros r c Hr. destruct (entry_buffer _ _ S r c Hr) as (b & Hb & Hs). rewrite buffers_wipe.
    destruct (decide (c = a)) as [->|]; [|eauto]. rewrite Hb. cbn. eexists. split; [done|]. unfold secret_size in *. by rewrite length_zeros.
  - intros l x Hl. rewrite dom_wipe. by apply (lease_dom _ _ S l).
  - intros c. destruct (secrets_owned _ _ S c) as [|[|[|He]]]; eauto using erased_wipe_keeps.
  - rewrite dom_wipe. apply S.
Qed.

Lemma sound_release held w a : sound held w → erased w a → sound (held ∖ {[a]}) w.
Proof.
  intros S He. split; try apply S.
  - intros r c Hr. pose proof (held_entry _ _ S r c Hr). set_solver.
  - intros l x Hl. pose proof (held_lease _ _ S l x Hl). set_solver.
  - intros c. destruct (decide (c = a)) as [->|]; [by right; right; right|].
    destruct (secrets_owned _ _ S c) as [|]; [left; set_solver|by right].
  - pose proof (held_dom _ _ S). set_solver.
Qed.

(** A new buffer is in the hands of the operation. *)
Lemma sound_new_buffer held w b : sound held w →
  let a := fresh (dom (buffers w)) in
  new_buffer b w = (Ok a, set_buffers (insert a b) w) ∧ (a ∉ dom (buffers w)) ∧ sound ({[a]} ∪ held) (set_buffers (insert a b) w).
Proof.
  intros S a. pose proof (is_fresh (dom (buffers w))) as Hf. fold a in Hf. split_and!; [done|done|].
  assert (∀ c x, buffers w !! c = Some x → c ≠ a) as Hne by (intros c x Hc ->; apply Hf, elem_of_dom; eauto).
  assert (∀ r c, entries w !! r = Some c → c ≠ a) as Hea by (intros r c (b' & Hb & _)%(entry_buffer _ _ S); eauto).
  assert (∀ l x, leases w !! l = Some x → lease_buffer x ≠ a) as Hla
    by (intros l x Hl%(lease_dom _ _ S) E; by rewrite E in Hl).
  split; cbn; try apply S.
  - intros r c Hr. destruct (entry_buffer _ _ S r c Hr) as (b' & Hb & Hs). exists b'. split; [|done].
    rewrite lookup_insert_ne; [done|]. intros ->. by apply (Hne _ _ Hb).
  - intros l x Hl. rewrite dom_insert_L. pose proof (lease_dom _ _ S l x Hl). set_solver.
  - intros r c Hr. pose proof (held_entry _ _ S r c Hr). pose proof (Hea r c Hr). set_solver.
  - intros l x Hl. pose proof (held_lease _ _ S l x Hl). pose proof (Hla l x Hl). set_solver.
  - intros c. destruct (decide (c = a)) as [->|Hc]; [left; set_solver|].
    destruct (secrets_owned _ _ S c) as [|[|[|He]]]; [left; set_solver|by right; left|by right; right; left|].
    right; right; right. intros x. cbn. rewrite lookup_insert_ne by done. apply He.
  - rewrite dom_insert_L. pose proof (held_dom _ _ S). set_solver.
Qed.

(** Closing a lease. *)
Lemma leases_invalidate l w m : leases (invalidate l w) !! m =
  if decide (m = l) then (λ x, Lease (lease_buffer x) true (owner_pid x)) <$> (leases w !! l) else leases w !! m.
Proof.
  unfold invalidate. destruct (leases w !! l) as [x|] eqn:E; cbn.
  - destruct (decide (m = l)) as [->|]; [by rewrite lookup_insert_eq|by rewrite lookup_insert_ne].
  - destruct (decide (m = l)) as [->|]; done.
Qed.
Lemma invalidate_rest l w :
  entries (invalidate l w) = entries w ∧ tracked (invalidate l w) = tracked w ∧ closed (invalidate l w) = closed w ∧
  store_pid (invalidate l w) = store_pid w.
Proof. unfold invalidate. by destruct (leases w !! l). Qed.
Lemma erased_invalidate l x w : leases w !! l = Some x → erased (invalidate l w) (lease_buffer x).
Proof. intros Hl. unfold invalidate. rewrite Hl. apply erased_wipe. Qed.
Lemma erased_invalidate_keeps l w a : erased w a → erased (invalidate l w) a.
Proof. intros He. unfold invalidate. destruct (leases w !! l); [|done]. by apply erased_wipe_keeps. Qed.

Lemma sound_invalidate held w l : sound held w → sound held (invalidate l w).
Proof.
  intros S. unfold invalidate. destruct (leases w !! l) as [y|] eqn:E; [|done].
  pose proof (sound_wipe held w (lease_buffer y) S) as S'. set (w' := wipe _ w) in *.
  assert (∀ m x, leases (set_leases (insert l (Lease (lease_buffer y) true (owner_pid y))) w') !! m = Some x →
    ∃ x', leases w !! m = Some x' ∧ lease_buffer x' = lease_buffer x ∧ (m ≠ l → x' = x) ∧ (m = l → lease_closed x = true)) as Hold.
  { intros m x. cbn. destruct (decide (m = l)) as [->|Hne].
    - rewrite lookup_insert_eq. intros [= <-]. exists y. by split_and!.
    - rewrite lookup_insert_ne by done. intros Hm. exists x. by split_and!. }
  split; try apply S'.
  - intros m n x z (x' & Hx & Ex & _)%Hold (z' & Hz & Ez & _)%Hold Heq. apply (leases_inj _ _ S m n x' z'); congruence.
  - intros m x (x' & Hx & <- & _)%Hold. by apply (lease_dom _ _ S' m x').
  - intros r a m x Hr (x' & Hx & <- & _)%Hold. by apply (entry_lease _ _ S r a m x').
  - intros m x (x' & Hx & <- & _)%Hold. by apply (held_lease _ _ S m x').
  - intros m x Hm Hc. destruct (Hold m x Hm) as (x' & Hx & _ & Hn & He). apply (open_tracked _ _ S m x); [|done].
    destruct (decide (m = l)) as [->|Hne]; [by rewrite He in Hc|]. by rewrite <-Hn.
  - intros a. destruct (decide (a = lease_buffer y)) as [->|Ha]; [right; right; right; apply erased_wipe|].
    destruct (secrets_owned _ _ S' a) as [|[|[(m & x & Hm & Hc & Hb)|]]]; [by left|by right; left| |by right; right; right].
    right; right; left. exists m, x. split_and!; [|done|done]. cbn. rewrite lookup_insert_ne; [done|].
    intros ->. cbn in Hm. rewrite E in Hm. by simplify_eq.
  - intros m x Hc Hm. destruct (Hold m x Hm) as (x' & Hx & _ & Hn & He). destruct (decide (m = l)) as [|Hne]; [by apply He|].
    apply (closed_leases _ _ S m x); [done|]. by rewrite <-Hn.
Qed.

(** Clearing the store: what a child process and [close] do. *)
Definition emptied (c : bool) (p : Z) (w : world) : world := World (buffers w) (leases w) ∅ [] c p.
Definition cleared (c : bool) (p : Z) (w : world) : world :=
  emptied c p (invalidate_all (tracked w) (wipe_all (stored_buffers w) w)).

Lemma wipe_all_emptied c p l w : wipe_all l (emptied c p w) = emptied c p (wipe_all l w).
Proof. revert w. induction l as [|a l IH]; intros w; [done|]. apply (IH (wipe a w)). Qed.
Lemma invalidate_emptied c p l w : invalidate l (emptied c p w) = emptied c p (invalidate l w).
Proof. unfold invalidate. cbn. by destruct (leases w !! l). Qed.
Lemma invalidate_all_emptied c p ls w : invalidate_all ls (emptied c p w) = emptied c p (invalidate_all ls w).
Proof. revert w. induction ls as [|l ls IH]; intros w; [done|]. cbn. rewrite invalidate_emptied. apply IH. Qed.

Lemma after_fork_child_cleared p w : after_fork_child p w = cleared (closed w) p w.
Proof. unfold after_fork_child, cleared. by rewrite <-invalidate_all_emptied, <-wipe_all_emptied. Qed.
Lemma erase_store_cleared w : erase_store w = cleared true (store_pid w) w.
Proof. unfold erase_store, cleared. by rewrite <-invalidate_all_emptied, <-wipe_all_emptied. Qed.

Lemma sound_wipe_all held l w : sound held w → sound held (wipe_all l w).
Proof. revert w. induction l as [|a l IH]; intros w S; [done|]. cbn. by apply IH, sound_wipe. Qed.
Lemma wipe_all_rest l w :
  leases (wipe_all l w) = leases w ∧ entries (wipe_all l w) = entries w ∧ tracked (wipe_all l w) = tracked w ∧
  closed (wipe_all l w) = closed w ∧ store_pid (wipe_all l w) = store_pid w.
Proof. revert w. induction l as [|a l IH]; intros w; [done|]. cbn. apply (IH (wipe a w)). Qed.
Lemma erased_wipe_all l w a : a ∈ l ∨ erased w a → erased (wipe_all l w) a.
Proof.
  revert w. induction l as [|c l IH]; intros w; [by intros [?%elem_of_nil|]|]. cbn. intros [[->|Hin]%elem_of_cons|He]; apply IH.
  - right. apply erased_wipe.
  - by left.
  - right. by apply erased_wipe_keeps.
Qed.

Lemma invalidate_all_cons l ls w : invalidate_all (l :: ls) w = invalidate_all ls (invalidate l w).
Proof. done. Qed.
Lemma sound_invalidate_all held ls w : sound held w → sound held (invalidate_all ls w).
Proof. revert w. induction ls as [|l ls IH]; intros w S; [done|]. rewrite invalidate_all_cons. by apply IH, sound_invalidate. Qed.
Lemma invalidate_all_rest ls w :
  entries (invalidate_all ls w) = entries w ∧ tracked (invalidate_all ls w) = tracked w ∧
  closed (invalidate_all ls w) = closed w ∧ store_pid (invalidate_all ls w) = store_pid w.
Proof.
  revert w. induction ls as [|l ls IH]; intros w; [done|]. rewrite invalidate_all_cons. destruct (IH (invalidate l w)) as (-> & -> & -> & ->).
  apply invalidate_rest.
Qed.
Lemma erased_invalidate_all ls w a : erased w a → erased (invalidate_all ls w) a.
Proof. revert w. induction ls as [|l ls IH]; intros w He; [done|]. rewrite invalidate_all_cons. by apply IH, erased_invalidate_keeps. Qed.
Lemma invalidate_all_closed ls w l x : l ∈ ls ∨ (∀ y, leases w !! l = Some y → lease_closed y = true) →
  leases (invalidate_all ls w) !! l = Some x → lease_closed x = true.
Proof.
  revert w. induction ls as [|m ls IH]; intros w; [intros [?%elem_of_nil|Hc] Hl; [done|by apply Hc]|]. rewrite invalidate_all_cons.
  intros Hl. apply IH. destruct Hl as [[->|Hin]%elem_of_cons|Hc]; [right|by left|right].
  - intros y. rewrite leases_invalidate, decide_True by done. intros (z & _ & ->)%fmap_Some. done.
  - intros y. rewrite leases_invalidate. destruct (decide _) as [->|]; [|apply Hc]. by intros (z & _ & ->)%fmap_Some.
Qed.

Lemma stored_buffers_elem w r a : entries w !! r = Some a → a ∈ stored_buffers w.
Proof. intros Hr. apply list_elem_of_fmap. exists (r, a). split; [done|]. by apply elem_of_map_to_list. Qed.

Lemma cleared_leases held c p w l x : sound held w → leases (cleared c p w) !! l = Some x → lease_closed x = true.
Proof.
  intros S. cbn. set (w1 := wipe_all _ w). intros Hx.
  destruct (wipe_all_rest (stored_buffers w) w) as (El & _ & Et & _). fold w1 in El, Et.
  apply (invalidate_all_closed (tracked w) w1 l x); [|done].
  destruct (decide (l ∈ tracked w)) as [|Hn]; [by left|right]. intros y Hy. rewrite El in Hy.
  destruct (lease_closed y) eqn:Ec; [done|]. by destruct Hn; apply (open_tracked _ _ S l y).
Qed.

Lemma sound_cleared held c p w : sound held w → sound held (cleared c p w).
Proof.
  intros S. pose proof (cleared_leases held c p w) as Hcl. unfold cleared in *. set (w1 := wipe_all _ w) in *.
  assert (sound held w1) as S1 by by apply sound_wipe_all.
  pose proof (sound_invalidate_all held (tracked w) w1 S1) as S2. set (w2 := invalidate_all _ w1) in *.
  split; cbn; try apply S2; try done.
  - intros l x Hl Hc. by rewrite (Hcl l x S Hl) in Hc.
  - intros a. destruct (secrets_owned _ _ S2 a) as [Hh|[(r & Hr)|[(l & x & Hl & Hc & Hb)|He]]]; [by left| | |by right; right; right].
    + right; right; right. apply erased_invalidate_all, erased_wipe_all. left. apply (stored_buffers_elem w r).
      destruct (invalidate_all_rest (tracked w) w1) as (E & _). destruct (wipe_all_rest (stored_buffers w) w) as (_ & E' & _).
      unfold w2 in Hr. rewrite E in Hr. unfold w1 in Hr. by rewrite E' in Hr.
    + by rewrite (Hcl l x S Hl) in Hc.
  - intros l x _ Hl. by apply (Hcl l x S).
Qed.
End invariant.

(** ** A vault

    What the store promises: a map from references to secrets that is empty in another
    process and once it is shut. *)
Record vault := Vault { secrets : gmap reference pybytes; shut : bool; process : Z }.

Definition enter_vault (getpid : option Z) : eff vault () := λ v,
  match getpid with
  | Some pid =>
      let v := if pid =? process v then v else Vault ∅ (shut v) pid in
      (raise_if (shut v) (KeyStoreError KeyStoreClosed), v)
  | None => (Raise (KeyStoreError KeyStoreUnavailable), v)
  end.
Definition take_value (value : option pybytes) (memory : bool) : py pybytes :=
  match value with
  | Some b =>
      if negb (secret_size b) then Raise (KeyStoreError InvalidKeyMaterial)
      else if memory then Ok b else Raise (KeyStoreError KeyStoreUnavailable)
  | None => Raise (KeyStoreError InvalidKeyMaterial)
  end.
Definition vault_store (tenant_id key_id : pyval) (value : option pybytes) (memory : bool) (getpid : option Z) : eff vault () :=
  b ← run (take_value value memory);
  ref ← run (reference_of tenant_id key_id);
  enter_vault getpid;;
  update (λ v, Vault (<[ref := b]> (secrets v)) (shut v) (process v)).
Definition vault_load (tenant_id key_id : pyval) (getpid : option Z) (memory : bool) (getpid_again : option Z)
    : eff vault pybytes :=
  ref ← run (reference_of tenant_id key_id);
  enter_vault getpid;;
  found ← reading (λ v, secrets v !! ref);
  match found with
  | None => raising (KeyStoreError KeyNotFound)
  | Some b =>
      match memory, getpid_again with
      | true, Some _ => mret b
      | _, _ => raising (KeyStoreError KeyStoreUnavailable)
      end
  end.
Definition vault_delete (tenant_id key_id : pyval) (getpid : option Z) : eff vault () :=
  ref ← run (reference_of tenant_id key_id);
  enter_vault getpid;;
  found ← reading (λ v, secrets v !! ref);
  match found with
  | None => raising (KeyStoreError KeyNotFound)
  | Some _ => update (λ v, Vault (delete ref (secrets v)) (shut v) (process v))
  end.
Definition vault_close (getpid : option Z) (v : vault) : vault :=
  match getpid with
  | Some pid => Vault ∅ true pid
  | None => Vault ∅ true (process v)
  end.

Definition vault_of (w : world) : vault := Vault (omap (λ a, buffers w !! a) (entries w)) (closed w) (store_pid w).

(** A run of the store agrees with one of the vault. *)
Definition agrees {A B} (inv : world → Prop) (R : A → B → world → Prop) (r : py A * world) (s : py B * vault) : Prop :=
  match r, s with
  | (Ok a, w), (Ok b, v) => v = vault_of w ∧ inv w ∧ R a b w
  | (Raise e, w), (Raise e', v) => e = e' ∧ v = vault_of w ∧ inv w
  | _, _ => False
  end.

Section refinement.
Implicit Types (w : world) (held : gset nat).

Lemma agrees_bind {A B C D} inv inv' (R : A → B → world → Prop) (R' : C → D → world → Prop)
    (m : eff world A) (n : eff vault B) (f : A → eff world C) (g : B → eff vault D) w v :
  agrees inv R (m w) (n v) → (∀ w1, inv w1 → inv' w1) →
  (∀ a b w1, inv w1 → R a b w1 → agrees inv' R' (f a w1) (g b (vault_of w1))) →
  agrees inv' R' ((m ≫= f) w) ((n ≫= g) v).
Proof.
  unfold agrees, mbind, eff_bind. destruct (m w) as [[a|e] w1], (n v) as [[b|e'] v1]; try done.
  - intros (-> & Hi & HR) _ H. by apply H.
  - intros (-> & -> & Hi) Hw _. auto.
Qed.
Lemma agrees_run {A} inv w (m : py A) : inv w → agrees inv (λ a b _, a = b) (run m w) (run m (vault_of w)).
Proof. intros Hi. unfold run. cbn. by destruct m. Qed.

Lemma vault_wipe w a : (∀ r, entries w !! r ≠ Some a) → vault_of (wipe a w) = vault_of w.
Proof.
  intros Hn. unfold vault_of. f_equal. apply map_eq. intros r. rewrite !lookup_omap. cbn.
  destruct (entries w !! r) as [c|] eqn:E; cbn; [|done]. rewrite lookup_alter_ne; [done|]. intros ->. by apply (Hn r).
Qed.
Lemma vault_cleared c p w : vault_of (cleared c p w) = Vault ∅ c p.
Proof. unfold vault_of. cbn. by rewrite omap_empty. Qed.
Lemma vault_lookup held w r : sound held w →
  secrets (vault_of w) !! r = a ← entries w !! r; buffers w !! a.
Proof. intros S. cbn. by rewrite lookup_omap. Qed.
Lemma vault_of_invalidate held w l : sound held w → vault_of (invalidate l w) = vault_of w.
Proof.
  intros S. unfold invalidate. destruct (leases w !! l) as [x|] eqn:E; [|done].
  change (vault_of (wipe (lease_buffer x) w) = vault_of w). apply vault_wipe. intros r Hr. by apply (entry_lease _ _ S r _ l x Hr E).
Qed.

(** Clearing leaves alone what callers hold, and what is erased stays erased. *)
Definition framed held w w1 : Prop := (∀ a, a ∈ held → buffers w1 !! a = buffers w !! a) ∧ (∀ a, erased w a → erased w1 a).

Lemma wipe_all_other l w a : a ∉ l → buffers (wipe_all l w) !! a = buffers w !! a.
Proof.
  revert w. induction l as [|c l IH]; intros w Hn; [done|]. apply not_elem_of_cons in Hn as [Hac Hn].
  change (wipe_all (c :: l) w) with (wipe_all l (wipe c w)). rewrite IH by done. by rewrite buffers_wipe, decide_False.
Qed.
Lemma invalidate_all_other held ls w a : sound held w → a ∈ held → buffers (invalidate_all ls w) !! a = buffers w !! a.
Proof.
  revert w. induction ls as [|l ls IH]; intros w S Ha; [done|]. rewrite invalidate_all_cons, IH; [|by apply sound_invalidate|done].
  unfold invalidate. destruct (leases w !! l) as [x|] eqn:E; [|done]. cbn. rewrite lookup_alter_ne; [done|].
  intros <-. by apply (held_lease _ _ S l x).
Qed.
Lemma framed_cleared held c p w : sound held w → framed held w (cleared c p w).
Proof.
  intros S. split.
  - intros a Ha. cbn. rewrite (invalidate_all_other held); [|by apply sound_wipe_all|done]. apply wipe_all_other.
    intros ([r a'] & -> & Hr%elem_of_map_to_list)%list_elem_of_fmap. by apply (held_entry _ _ S r a').
  - intros a He. change (erased (invalidate_all (tracked w) (wipe_all (stored_buffers w) w)) a).
    apply erased_invalidate_all, erased_wipe_all. by right.
Qed.

(** Entering the store. *)
Lemma enter_agrees held w getpid : sound held w →
  agrees (λ w1, sound held w1 ∧ framed held w w1) (λ _ _ w1, closed w1 = false)
    (store_enter getpid w) (enter_vault getpid (vault_of w)).
Proof.
  intros S. assert (framed held w w) as Hf by done.
  unfold store_enter, mbind, eff_bind, clear_if_forked, require_open, enter_vault. destruct getpid as [pid|]; [|done].
  cbn. destruct (pid =? store_pid w); cbn.
  - by destruct (closed w) eqn:Ec; cbn.
  - rewrite after_fork_child_cleared. pose proof (sound_cleared held (closed w) pid w S).
    pose proof (framed_cleared held (closed w) pid w S).
    rewrite <-(vault_cleared (closed w) pid w). by destruct (closed w) eqn:Ec; cbn.
Qed.

(** Taking the secret of a caller. *)
Definition given (value : option nat) (w : world) : option pybytes := (λ a, default [] (buffers w !! a)) <$> value.
Definition surrendered (value : option nat) (w : world) : Prop := ∀ a, value = Some a → erased w a.

Lemma held_not_entry held w a : sound held w → a ∈ held → ∀ r, entries w !! r ≠ Some a.
Proof. intros S Ha r Hr. by apply (held_entry _ _ S r a). Qed.

Lemma take_secret_agrees held w value memory : sound held w → (∀ a, value = Some a → a ∈ held) →
  match take_secret value memory w with
  | (Ok c, w') => take_value (given value w) memory = Ok (default [] (buffers w' !! c)) ∧ secret_size (default [] (buffers w' !! c)) = true ∧
      c ∈ dom (buffers w') ∧ (c ∉ held) ∧ sound ({[c]} ∪ held) w' ∧ surrendered value w' ∧ vault_of w' = vault_of w
  | (Raise e, w') => take_value (given value w) memory = Raise e ∧ sound held w' ∧ surrendered value w' ∧
      vault_of w' = vault_of w
  end.
Proof.
  intros S Hv. destruct value as [a|]; [|done]. specialize (Hv a eq_refl). cbn [given fmap option_fmap option_map from_option].
  assert (sound held (wipe a w) ∧ surrendered (Some a) (wipe a w) ∧ vault_of (wipe a w) = vault_of w) as Hw.
  { split_and!; [by apply sound_wipe|intros ? [= <-]; apply erased_wipe|].
    by apply vault_wipe, (held_not_entry held). }
  unfold take_secret, finally, mbind, eff_bind, contents, reading. cbn [take_value].
  destruct (secret_size (default [] (buffers w !! a))) eqn:Es; [|by cbn]. cbn [negb]. destruct memory; [|by cbn].
  destruct (sound_new_buffer held w (default [] (buffers w !! a)) S) as (-> & Hf & S'). set (c := fresh _) in *.
  set (w1 := set_buffers _ w) in *. destruct (decide (c = a)) as [Eca|Hne].
  { exfalso. rewrite Eca in Hf. destruct (buffers w !! a) eqn:E; [apply Hf, elem_of_dom; eauto|by vm_compute in Es]. }
  assert (buffers (wipe a w1) !! c = Some (default [] (buffers w !! a))) as Hc.
  { rewrite buffers_wipe, decide_False by done. unfold w1. cbn. by rewrite lookup_insert_eq. }
  rewrite Hc. cbn. split_and!; [done|done|apply elem_of_dom; eauto| | |intros ? [= <-]; apply erased_wipe|].
  - intros Hin. by apply Hf, (held_dom _ _ S).
  - by apply sound_wipe.
  - rewrite vault_wipe.
    + unfold vault_of, w1. cbn. f_equal. apply map_eq. intros r. rewrite !lookup_omap.
      destruct (entries w !! r) as [d|] eqn:E; cbn; [|done]. rewrite lookup_insert_ne; [done|]. intros <-.
      apply Hf, elem_of_dom. destruct (entry_buffer _ _ S r c E) as (b & -> & _). eauto.
    + apply (held_not_entry ({[c]} ∪ held)); [done|set_solver].
Qed.

(** Storing a secret that is in hand; what was stored under the reference is erased. *)
Lemma sound_insert_erased held w ref c : sound ({[c]} ∪ held) w → c ∉ held → secret_size (default [] (buffers w !! c)) = true →
  closed w = false → (∀ a, entries w !! ref = Some a → erased w a) → sound held (set_entries (insert ref c) w).
Proof.
  intros S Hc Hs Hcl He. pose proof (held_not_entry _ w c S ltac:(set_solver)) as Hne.
  assert (∃ b, buffers w !! c = Some b) as [b Hb] by (apply elem_of_dom, (held_dom _ _ S); set_solver).
  rewrite Hb in Hs. cbn in Hs.
  assert (∀ r a, entries (set_entries (insert ref c) w) !! r = Some a → (r = ref ∧ a = c) ∨ (r ≠ ref ∧ a ≠ c ∧ entries w !! r = Some a)) as Hold.
  { intros r a. cbn. destruct (decide (r = ref)) as [->|Hr]; [rewrite lookup_insert_eq; intros [= <-]; by left|].
    rewrite lookup_insert_ne by done. intros E. right. split_and!; [done| |done]. intros ->. by apply (Hne r). }
  split; try apply S.
  - intros r a [[-> ->]|(_ & _ & E)]%Hold; [eauto|by apply (entry_buffer _ _ S r)].
  - intros r r' a [[-> ->]|(Hr & Ha & E)]%Hold [[-> Ha']|(Hr' & Ha' & E')]%Hold; try done. by apply (entries_inj _ _ S r r' a).
  - intros r a l x [[-> ->]|(_ & _ & E)]%Hold Hl; [|by apply (entry_lease _ _ S r a l x)].
    intros Hx. apply (held_lease _ _ S l x Hl). set_solver.
  - intros r a [[-> ->]|(_ & _ & E)]%Hold; [done|]. pose proof (held_entry _ _ S r a E). set_solver.
  - intros l x Hl. pose proof (held_lease _ _ S l x Hl). set_solver.
  - intros a. destruct (decide (a = c)) as [->|Hac]; [right; left; exists ref; cbn; by rewrite lookup_insert_eq|].
    destruct (secrets_owned _ _ S a) as [|[(r & Hr)|[|]]]; [left; set_solver| |by right; right; left|by right; right; right].
    destruct (decide (r = ref)) as [->|Hrr]; [right; right; right; by apply He|].
    right; left. exists r. cbn. by rewrite lookup_insert_ne.
  - intros Ht. cbn in Ht. congruence.
  - pose proof (held_dom _ _ S). set_solver.
Qed.

Lemma sound_insert held w ref c : sound ({[c]} ∪ held) w → c ∉ held → secret_size (default [] (buffers w !! c)) = true →
  closed w = false → let w' := from_option wipe id (entries w !! ref) (set_entries (insert ref c) w) in
  sound held w' ∧ vault_of w' = Vault (<[ref := default [] (buffers w !! c)]> (secrets (vault_of w))) false (store_pid w).
Proof.
  intros S Hc Hs Hcl w'. pose proof (held_not_entry _ w c S ltac:(set_solver)) as Hne.
  assert (∃ b, buffers w !! c = Some b) as [b Hb] by (apply elem_of_dom, (held_dom _ _ S); set_solver).
  set (w0 := from_option wipe id (entries w !! ref) w).
  assert (w' = set_entries (insert ref c) w0) as -> by (unfold w', w0; by destruct (entries w !! ref)).
  assert (sound ({[c]} ∪ held) w0 ∧ buffers w0 !! c = Some b ∧ entries w0 = entries w ∧ closed w0 = false ∧
    store_pid w0 = store_pid w ∧ (∀ a, entries w !! ref = Some a → erased w0 a)) as (S0 & Hb0 & Ee & Ec & Ep & He).
  { unfold w0. destruct (entries w !! ref) as [a|] eqn:E; [|done]. cbn [from_option]. split_and!; try done; [by apply sound_wipe| |].
    - rewrite buffers_wipe, decide_False; [done|]. intros ->. by apply (Hne ref).
    - intros ? [= <-]. apply erased_wipe. }
  rewrite Hb in *. cbn [default from_option id] in *. split.
  - apply sound_insert_erased; [done|done|by rewrite Hb0|done|]. rewrite Ee. done.
  - unfold vault_of. cbn. rewrite Ec, Ep, Ee. f_equal. apply map_eq. intros r. rewrite lookup_omap.
    destruct (decide (r = ref)) as [->|Hr]; [by rewrite !lookup_insert_eq; cbn|]. rewrite !lookup_insert_ne, lookup_omap by done.
    destruct (entries w !! r) as [d|] eqn:E; cbn; [|done]. unfold w0. destruct (entries w !! ref) as [a|] eqn:Er; [|done].
    cbn [from_option]. rewrite buffers_wipe, decide_False; [done|]. intros ->. apply Hr. by eapply (entries_inj _ _ S).
Qed.

Lemma store_agrees held w tenant_id key_id value memory getpid : sound held w → (∀ a, value = Some a → a ∈ held) →
  agrees (λ w', sound held w' ∧ surrendered value w') (λ _ _ _, True)
    (store tenant_id key_id value memory getpid w)
    (vault_store tenant_id key_id (given value w) memory getpid (vault_of w)).
Proof.
  intros S Hv. pose proof (take_secret_agrees held w value memory S Hv) as Ht.
  unfold store, prepare_store, vault_store, mbind, eff_bind, run. destruct (take_secret value memory w) as [[c|e] w1].
  2: { destruct Ht as (-> & Hs & Hsur & <-). done. }
  destruct Ht as (-> & Hsz & Hd & Hc & Hs & Hsur & <-). set (b := default [] (buffers w1 !! c)) in *.
  assert (({[c]} ∪ held) ∖ {[c]} = held) as Hrel by set_solver.
  assert (∀ w2, sound ({[c]} ∪ held) w2 → surrendered value w2 →
    vault_of (wipe c w2) = vault_of w2 ∧ sound (held) (wipe c w2) ∧ surrendered value (wipe c w2)) as Hdrop.
  { intros w2 S2 Hsur2. split_and!; [apply vault_wipe, (held_not_entry ({[c]} ∪ held)); [done|set_solver]| |].
    - rewrite <-Hrel. apply sound_release; [by apply sound_wipe|apply erased_wipe].
    - intros a Ea. by apply erased_wipe_keeps, Hsur2. }
  unfold on_error. destruct (reference_of tenant_id key_id) as [ref|e].
  2: { destruct (Hdrop w1 Hs Hsur) as (Ev & ? & ?). unfold agrees. by rewrite Ev. }
  cbn [mret eff_ret]. pose proof (enter_agrees _ w1 getpid Hs) as He.
  destruct (store_enter getpid w1) as [[u1|e] w2], (enter_vault getpid (vault_of w1)) as [[u2|e'] v2]; try done.
  - destruct He as (-> & [S2 [Hf He]] & Hcl). cbn [reading update]. 
    destruct (sound_insert (held) w2 ref c S2 Hc) as [S3 Ev]; [rewrite Hf by set_solver; done|done|].
    cbn. rewrite Ev, Hcl, (Hf c) by set_solver. split_and!; [done|done| |done].
    intros a Ea. destruct (entries w2 !! ref); cbn; [apply erased_wipe_keeps|]; by apply He, Hsur.
  - destruct He as (-> & -> & S2 & [_ He]). destruct (Hdrop w2 S2) as (Ev & ? & ?); [intros a Ea; by apply He, Hsur|].
    unfold agrees. by rewrite Ev.
Qed.

(** Deleting. *)
Lemma sound_delete held w ref a : sound held w → entries w !! ref = Some a →
  let w' := wipe a (set_entries (delete ref) w) in
  sound held w' ∧ vault_of w' = Vault (delete ref (secrets (vault_of w))) (closed w) (store_pid w) ∧ erased w' a.
Proof.
  intros S Ha w'. assert (w' = set_entries (delete ref) (wipe a w)) as -> by done.
  pose proof (sound_wipe held w a S) as S0. set (w0 := wipe a w) in *. pose proof (erased_wipe a w : erased w0 a) as He.
  assert (∀ r c, entries (set_entries (delete ref) w0) !! r = Some c → r ≠ ref ∧ entries w !! r = Some c) as Hold.
  { intros r c. cbn. by intros [? ?]%lookup_delete_Some. }
  split_and!; [split; try apply S0| |done].
  - intros r c [_ E]%Hold. by apply (entry_buffer _ _ S0 r).
  - intros r r' c [_ E]%Hold [_ E']%Hold. by apply (entries_inj _ _ S r r' c).
  - intros r c l x [_ E]%Hold Hl. by apply (entry_lease _ _ S r c l x).
  - intros r c [_ E]%Hold. by apply (held_entry _ _ S r c).
  - intros c. destruct (secrets_owned _ _ S0 c) as [|[(r & Hr)|[|]]]; [by left| |by right; right; left|by right; right; right].
    destruct (decide (r = ref)) as [->|Hne]; [right; right; right; cbn in Hr; by simplify_eq|].
    right; left. exists r. cbn. by rewrite lookup_delete_ne.
  - intros Hc. cbn. rewrite (closed_empty _ _ S Hc). apply delete_empty.
  - unfold vault_of. cbn. f_equal. apply map_eq. intros r. rewrite lookup_omap.
    destruct (decide (r = ref)) as [->|Hr]; [by rewrite !lookup_delete_eq|]. rewrite !lookup_delete_ne, lookup_omap by done.
    destruct (entries w !! r) as [d|] eqn:E; cbn; [|done]. rewrite lookup_alter_ne; [done|]. intros <-. apply Hr. by eapply (entries_inj _ _ S).
Qed.

Lemma delete_agrees held w tenant_id key_id getpid : sound held w →
  agrees (sound held) (λ _ _ _, True) (delete_key tenant_id key_id getpid w) (vault_delete tenant_id key_id getpid (vault_of w)).
Proof.
  intros S. unfold delete_key, vault_delete. eapply agrees_bind; [by apply (agrees_run (sound held))|done|].
  intros ref _ w1 S1 <-. eapply agrees_bind; [by apply (enter_agrees held)|by intros ? []|].
  intros _ _ w2 [S2 _] Hcl. unfold mbind, eff_bind, reading. rewrite (vault_lookup held) by done.
  destruct (entries w2 !! ref) as [a|] eqn:E; cbn; [|done].
  destruct (entry_buffer _ _ S2 ref a E) as (b & Hb & _). rewrite Hb.
  destruct (sound_delete held w2 ref a S2 E) as (S3 & Ev & _). split_and!; [|done|done]. by rewrite Ev.
Qed.

(** Loading: the lease holds a copy. *)
Definition holds w (l : nat) (pid : Z) (b : pybytes) : Prop :=
  ∃ x, leases w !! l = Some x ∧ lease_closed x = false ∧ owner_pid x = pid ∧ buffers w !! lease_buffer x = Some b ∧
    ∀ r, entries w !! r ≠ Some (lease_buffer x).

Lemma sound_new_lease held w c pid : sound ({[c]} ∪ held) w → c ∉ held → closed w = false →
  let l := fresh (dom (leases w)) in
  sound held (set_tracked (cons l) (set_leases (insert l (Lease c false pid)) w)).
Proof.
  intros S Hc Hcl l. pose proof (is_fresh (dom (leases w)) : l ∉ dom (leases w)) as Hf.
  assert (∀ m x, <[l := Lease c false pid]> (leases w) !! m = Some x →
    (m = l ∧ x = Lease c false pid) ∨ (m ≠ l ∧ leases w !! m = Some x ∧ lease_buffer x ≠ c)) as Hold.
  { intros m x. destruct (decide (m = l)) as [->|Hm]; [rewrite lookup_insert_eq; intros [= <-]; by left|].
    rewrite lookup_insert_ne by done. intros E. right. split_and!; [done..|]. intros Ec.
    apply (held_lease _ _ S m x E). set_solver. }
  split; cbn; try apply S.
  - intros m n x y [[-> ->]|(Hm & Ex & Hx)]%Hold [[-> ->]|(Hn & Ey & Hy)]%Hold; cbn; try done.
    by apply (leases_inj _ _ S m n x y).
  - intros m x [[-> ->]|(Hm & Ex & _)]%Hold; cbn; [apply (held_dom _ _ S); set_solver|by apply (lease_dom _ _ S m x)].
  - intros r a m x Hr [[-> ->]|(Hm & Ex & _)]%Hold; [|by apply (entry_lease _ _ S r a m x)].
    cbn. intros ->. apply (held_entry _ _ S r a Hr). set_solver.
  - intros r a Hr. pose proof (held_entry _ _ S r a Hr). set_solver.
  - intros m x [[-> ->]|(Hm & Ex & _)]%Hold; cbn; [done|]. pose proof (held_lease _ _ S m x Ex). set_solver.
  - intros m x [[-> ->]|(Hm & Ex & _)]%Hold Ho; [set_solver|]. pose proof (open_tracked _ _ S m x Ex Ho). set_solver.
  - intros a. destruct (decide (a = c)) as [->|Ha].
    { right; right; left. exists l, (Lease c false pid). by rewrite lookup_insert_eq. }
    destruct (secrets_owned _ _ S a) as [|[|[(m & x & Hm & Ho & Hb)|]]]; [left; set_solver|by right; left| |by right; right; right].
    right; right; left. exists m, x. split_and!; [|done|done]. rewrite lookup_insert_ne; [done|].
    intros ->. apply Hf, elem_of_dom. eauto.
  - intros m x Ht. by rewrite Hcl in Ht.
  - pose proof (held_dom _ _ S). set_solver.
Qed.

Lemma load_agrees held w tenant_id key_id getpid memory getpid_again : sound held w →
  agrees (sound held) (λ l b w', ∃ pid, getpid_again = Some pid ∧ holds w' l pid b)
    (load tenant_id key_id getpid memory getpid_again w)
    (vault_load tenant_id key_id getpid memory getpid_again (vault_of w)).
Proof.
  intros S. unfold load, vault_load. eapply agrees_bind; [by apply (agrees_run (sound held))|done|].
  intros ref _ w1 S1 <-. eapply agrees_bind; [by apply (enter_agrees held)|by intros ? []|].
  intros _ _ w2 [S2 _] Hcl. unfold mbind, eff_bind, reading. rewrite (vault_lookup held) by done.
  destruct (entries w2 !! ref) as [a|] eqn:E; cbn [mbind option_bind]; [|done].
  destruct (entry_buffer _ _ S2 ref a E) as (b & Hb & Hs). unfold contents, reading. rewrite Hb. cbn [default from_option id].
  rewrite Hs. cbn [negb]. destruct memory; [|done]. cbn [negb].
  destruct (sound_new_buffer held w2 b S2) as (-> & Hf & S3). set (c := fresh _) in *. set (w3 := set_buffers _ w2) in *.
  assert (c ∉ held) as Hc by (intros Hin; by apply Hf, (held_dom _ _ S2)).
  assert (vault_of w3 = vault_of w2) as Ev.
  { unfold vault_of, w3. cbn. f_equal. apply map_eq. intros r. rewrite !lookup_omap.
    destruct (entries w2 !! r) as [d|] eqn:Ed; cbn; [|done]. rewrite lookup_insert_ne; [done|]. intros <-.
    apply Hf, elem_of_dom. destruct (entry_buffer _ _ S2 r c Ed) as (b' & -> & _). eauto. }
  unfold excepting, new_lease. destruct getpid_again as [pid|]; cbn -[vault_of].
  - split_and!; [by rewrite <-Ev|exact (sound_new_lease held w3 c pid S3 Hc Hcl)|].
    exists pid. split; [done|]. exists (Lease c false pid). cbn. rewrite !lookup_insert_eq. split_and!; [done..|].
    intros r Er. apply Hf, elem_of_dom. destruct (entry_buffer _ _ S2 r c Er) as (b' & -> & _). eauto.
  - assert (∀ r, entries w3 !! r ≠ Some c) as Hn.
    { intros r Er. apply Hf, elem_of_dom. destruct (entry_buffer _ _ S2 r c Er) as (b' & -> & _). eauto. }
    split_and!; [done|by rewrite !vault_wipe|].
    replace held with (({[c]} ∪ held) ∖ {[c]}) by set_solver.
    apply sound_release; [by do 2 apply sound_wipe|apply erased_wipe].
Qed.

End refinement.
