(* ===== verification/KeyStoreSession.v ===== *)
(** * Sessions with a key store

    Everything that callers, the collector and [os.fork] do to a store in memory, as a step
    relation.  A session shows the trace of a vault; every secret in memory has an owner;
    a lease keeps its secret. *)

From stdpp Require Import base list list_numbers numbers strings gmap fin_maps sets.
From S2P Require Import Prelude PyString Errors PyValue Effects KeyStore KeyStoreFacts.
Open Scope Z_scope.

(** What happens, with what is seen of it. *)
Inductive label :=
| LCaller
| LStore (tenant_id key_id : pyval) (value : option pybytes) (memory : bool) (getpid : option Z) (r : py ())
| LLoad (tenant_id key_id : pyval) (getpid : option Z) (memory : bool) (getpid_again : option Z) (r : py pybytes)
| LDelete (tenant_id key_id : pyval) (getpid : option Z) (r : py ())
| LIsClosed (getpid : option Z) (r : py bool)
| LClose (getpid : option Z)
| LFork (getpid : option Z)
| LCopy (l : nat) (getpid : option Z) (memory : bool) (r : py pybytes)
| LLeaseClosed (l : nat) (getpid : option Z) (r : py bool)
| LLeaseClose (l : nat) (getpid : option Z) (r : py ())
| LCollect (l : nat).

(** What a caller finds in the lease that is returned. *)
Definition lent (r : py nat) (w : world) : py pybytes :=
  l ← r; Ok (default [] (x ← leases w !! l; buffers w !! lease_buffer x)).

(** A session: the buffers that callers hold, and the memory. *)
Inductive step : gset nat * world → label → gset nat * world → Prop :=
| step_make h w b a w' : new_buffer b w = (Ok a, w') → step (h, w) LCaller ({[a]} ∪ h, w')
| step_write h w a b : a ∈ h → step (h, w) LCaller (h, set_buffers (insert a b) w)
| step_store h w t k value memory getpid r w' : (∀ a, value = Some a → a ∈ h) →
    store t k value memory getpid w = (r, w') → step (h, w) (LStore t k (given value w) memory getpid r) (h, w')
| step_load h w t k getpid memory getpid_again r w' : load t k getpid memory getpid_again w = (r, w') →
    step (h, w) (LLoad t k getpid memory getpid_again (lent r w')) (h, w')
| step_delete h w t k getpid r w' : delete_key t k getpid w = (r, w') → step (h, w) (LDelete t k getpid r) (h, w')
| step_is_closed h w getpid r w' : store_is_closed getpid w = (r, w') → step (h, w) (LIsClosed getpid r) (h, w')
| step_close h w getpid : step (h, w) (LClose getpid) (h, close_store getpid w)
| step_fork h w getpid : step (h, w) (LFork getpid) (h, clear_in_child getpid w)
| step_copy h w l getpid memory r w' : copy_bytes l getpid memory w = (r, w') → step (h, w) (LCopy l getpid memory r) (h, w')
| step_lease_closed h w l getpid r w' : lease_is_closed l getpid w = (r, w') → step (h, w) (LLeaseClosed l getpid r) (h, w')
| step_lease_close h w l getpid r w' : lease_close l getpid w = (r, w') → step (h, w) (LLeaseClose l getpid r) (h, w')
| step_collect h w l : step (h, w) (LCollect l) (h, collect_lease l w).

Inductive steps : gset nat * world → list label → gset nat * world → Prop :=
| steps_nil s : steps s [] s
| steps_cons s x s1 tr s' : step s x s1 → steps s1 tr s' → steps s (x :: tr) s'.

(** The vault's side of a label. *)
Definition vault_is_closed (getpid : option Z) : eff vault bool := λ v,
  match getpid with
  | Some pid => let v := if pid =? process v then v else Vault ∅ (shut v) pid in (Ok (shut v), v)
  | None => (Raise (KeyStoreError KeyStoreUnavailable), v)
  end.
Definition vault_step (v : vault) (x : label) (v' : vault) : Prop :=
  match x with
  | LCaller | LCopy _ _ _ _ | LLeaseClosed _ _ _ | LLeaseClose _ _ _ | LCollect _ => v' = v
  | LStore t k value memory getpid r => vault_store t k value memory getpid v = (r, v')
  | LLoad t k getpid memory getpid_again r => vault_load t k getpid memory getpid_again v = (r, v')
  | LDelete t k getpid r => vault_delete t k getpid v = (r, v')
  | LIsClosed getpid r => vault_is_closed getpid v = (r, v')
  | LClose getpid => v' = vault_close getpid v
  | LFork getpid => v' = Vault ∅ (shut v) (default (-1) getpid)
  end.
Inductive vault_steps : vault → list label → vault → Prop :=
| vault_nil v : vault_steps v [] v
| vault_cons v x v1 tr v' : vault_step v x v1 → vault_steps v1 tr v' → vault_steps v (x :: tr) v'.

(** ** The steps keep the invariant and are steps of the vault *)

Section steps.
Implicit Types (w : world) (held : gset nat).

Lemma agrees_Ok {A B} inv (R : A → B → world → Prop) r w' s : agrees inv R (r, w') s → inv w' ∧ s.2 = vault_of w' ∧
  match r, s.1 with Ok a, Ok b => R a b w' | Raise e, Raise e' => e = e' | _, _ => False end.
Proof. destruct r, s as [[]]; cbn; try done; intros (? & ? & ?); by split_and!. Qed.

(** The operations of a lease only close leases. *)
Definition closes l w w' : Prop := w' = w ∨ w' = invalidate l w.
Lemma closes_sound held l w w' : sound held w → closes l w w' → sound held w' ∧ vault_of w' = vault_of w.
Proof. intros S [->| ->]; [done|]. split; [by apply sound_invalidate|by eapply vault_of_invalidate]. Qed.
Lemma the_lease_state l w r w' : the_lease l w = (r, w') → w' = w.
Proof. unfold the_lease. destruct (leases w !! l); by intros [= _ <-]. Qed.
Lemma invalidate_twice l w : invalidate l (invalidate l w) = invalidate l w.
Proof.
  unfold invalidate. destruct (leases w !! l) as [x|] eqn:E; [|by rewrite E]. cbn. rewrite lookup_insert_eq. cbn.
  unfold set_leases, wipe, set_buffers. cbn. f_equal; [|by rewrite insert_insert_eq].
  apply map_eq. intros a. destruct (decide (a = lease_buffer x)) as [->|]; [|by rewrite !lookup_alter_ne].
  rewrite !lookup_alter_eq. destruct (buffers w !! lease_buffer x); [|done]. cbn. unfold zeros. by rewrite length_replicate.
Qed.

Lemma lease_require_open_closes l getpid w r w' : lease_require_open l getpid w = (r, w') → closes l w w'.
Proof.
  unfold lease_require_open, mbind, eff_bind, the_lease. destruct (leases w !! l) as [x|]; [|by intros [= _ <-]; left].
  destruct (owner_matches x getpid); cbn; intros [= _ <-]; [by left|by right].
Qed.
Lemma copy_bytes_closes l getpid memory w r w' : copy_bytes l getpid memory w = (r, w') → closes l w w'.
Proof.
  unfold copy_bytes. unfold mbind at 1, eff_bind at 1. destruct (lease_require_open l getpid w) as [[[]|e] w1] eqn:E.
  2: { intros [= _ <-]. by eapply lease_require_open_closes. }
  apply lease_require_open_closes in E. unfold mbind, eff_bind. destruct (the_lease l w1) as [[x|e] w2] eqn:El.
  all: apply the_lease_state in El as ->.
  2: by intros [= _ <-].
  destruct memory; cbn; intros [= _ <-]; [done|]. right. destruct E as [->| ->]; [done|apply invalidate_twice].
Qed.
Lemma lease_is_closed_closes l getpid w r w' : lease_is_closed l getpid w = (r, w') → closes l w w'.
Proof.
  unfold lease_is_closed, mbind, eff_bind. destruct (the_lease l w) as [[x|e] w1] eqn:El.
  all: apply the_lease_state in El as ->.
  2: by intros [= _ <-]; left.
  destruct (negb _); cbn; destruct (the_lease l _) as [[y|e] w2] eqn:El; apply the_lease_state in El as ->; intros [= _ <-]; first [by left|by right].
Qed.
Lemma lease_close_closes l getpid w r w' : lease_close l getpid w = (r, w') → closes l w w'.
Proof.
  unfold lease_close, mbind, eff_bind. destruct (the_lease l w) as [[x|e] w1] eqn:El.
  all: apply the_lease_state in El as ->; intros [= _ <-]; first [by left|by right].
Qed.

Lemma collect_sound held l w : sound held w → sound held (collect_lease l w) ∧ vault_of (collect_lease l w) = vault_of w.
Proof.
  intros S. split; [|exact (vault_of_invalidate held w l S)]. pose proof (sound_invalidate held w l S) as S'.
  split; try apply S'. cbn. intros m x Hm Ho. apply list_elem_of_filter. split; [|by apply (open_tracked _ _ S' m x)].
  intros ->. rewrite leases_invalidate, decide_True in Hm by done. apply fmap_Some in Hm as (y & _ & ->). done.
Qed.

Lemma close_store_sound held getpid w : sound held w →
  sound held (close_store getpid w) ∧ vault_of (close_store getpid w) = vault_close getpid (vault_of w).
Proof.
  intros S. unfold close_store, clear_if_forked, vault_close. destruct getpid as [pid|].
  2: { rewrite erase_store_cleared, vault_cleared. split; [by apply sound_cleared|done]. }
  set (w1 := if pid =? store_pid w then w else after_fork_child pid w).
  assert (sound held w1 ∧ store_pid w1 = pid) as [S1 Ep].
  { unfold w1. destruct (pid =? store_pid w) eqn:E; [refl_bool; done|]. rewrite after_fork_child_cleared. split; [by apply sound_cleared|done]. }
  destruct (closed w1) eqn:Ec.
  - split; [done|]. unfold vault_of. by rewrite (closed_empty _ _ S1 Ec), omap_empty, Ec, Ep.
  - rewrite erase_store_cleared, vault_cleared, Ep. split; [by apply sound_cleared|done].
Qed.

Lemma store_is_closed_agrees held getpid w : sound held w →
  agrees (sound held) (λ b b' _, b = b') (store_is_closed getpid w) (vault_is_closed getpid (vault_of w)).
Proof.
  intros S. unfold store_is_closed, mbind, eff_bind, clear_if_forked, vault_is_closed. destruct getpid as [pid|]; [|done].
  cbn. destruct (pid =? store_pid w); [done|]. rewrite after_fork_child_cleared. cbn [reading].
  pose proof (sound_cleared held (closed w) pid w S). rewrite <-(vault_cleared (closed w) pid w). done.
Qed.

Lemma sound_write held w a b : sound held w → a ∈ held → sound held (set_buffers (insert a b) w).
Proof.
  intros S Ha. split; cbn; try apply S.
  - intros r c Hr. rewrite lookup_insert_ne; [by apply (entry_buffer _ _ S r)|]. intros ->. by apply (held_entry _ _ S r c).
  - intros l x Hl. rewrite dom_insert_L. pose proof (lease_dom _ _ S l x Hl). set_solver.
  - intros c. destruct (decide (c = a)) as [->|Hc]; [by left|]. destruct (secrets_owned _ _ S c) as [|[|[|He]]]; [by left|by right; left|by right; right; left|].
    right; right; right. intros b'. cbn. rewrite lookup_insert_ne by done. apply He.
  - rewrite dom_insert_L. pose proof (held_dom _ _ S). set_solver.
Qed.
Lemma vault_write w a b : (∀ r, entries w !! r ≠ Some a) → vault_of (set_buffers (insert a b) w) = vault_of w.
Proof.
  intros Hn. unfold vault_of. cbn. f_equal. apply map_eq. intros r. rewrite !lookup_omap.
  destruct (entries w !! r) as [c|] eqn:E; cbn; [|done]. rewrite lookup_insert_ne; [done|]. intros ->. by apply (Hn r).
Qed.

Lemma step_sound s x s' : step s x s' → sound s.1 s.2 → sound s'.1 s'.2 ∧ vault_step (vault_of s.2) x (vault_of s'.2).
Proof.
  intros Hs S. destruct Hs; cbn [fst snd vault_step] in *.
  - destruct (sound_new_buffer h w b S) as (E & Hf & S'). rewrite E in H. injection H as <- <-. split; [done|].
    apply vault_write. intros r Hr. apply Hf, elem_of_dom. destruct (entry_buffer _ _ S r _ Hr) as (b' & -> & _). eauto.
  - split; [by apply sound_write|]. by apply vault_write, (held_not_entry h).
  - pose proof (store_agrees h w t k value memory getpid S H) as Ha. rewrite H0 in Ha. apply agrees_Ok in Ha as ([S' _] & Ev & Hr).
    split; [done|]. destruct (vault_store _ _ _ _ _ _) as [r' v']. cbn in *. subst v'. f_equal. destruct r as [[]|], r' as [[]|]; naive_solver.
  - pose proof (load_agrees h w t k getpid memory getpid_again S) as Ha. rewrite H in Ha. apply agrees_Ok in Ha as (S' & Ev & Hr).
    split; [done|]. destruct (vault_load _ _ _ _ _ _) as [r' v']. cbn in *. subst v'. f_equal.
    destruct r as [l|], r' as [b|]; cbn; [|done|done|by subst]. destruct Hr as (pid & -> & x & Hl & _ & _ & Hb & _). by rewrite Hl; cbn; rewrite Hb.
  - pose proof (delete_agrees h w t k getpid S) as Ha. rewrite H in Ha. apply agrees_Ok in Ha as (S' & Ev & Hr).
    split; [done|]. destruct (vault_delete _ _ _ _) as [r' v']. cbn in *. subst v'. f_equal. destruct r as [[]|], r' as [[]|]; naive_solver.
  - pose proof (store_is_closed_agrees h getpid w S) as Ha. rewrite H in Ha. apply agrees_Ok in Ha as (S' & Ev & Hr).
    split; [done|]. destruct (vault_is_closed _ _) as [r' v']. cbn in *. subst v'. f_equal. destruct r, r'; naive_solver.
  - by apply close_store_sound.
  - unfold clear_in_child. rewrite after_fork_child_cleared, vault_cleared. split; [by apply sound_cleared|done].
  - eapply closes_sound; [done|]. by eapply copy_bytes_closes.
  - eapply closes_sound; [done|]. by eapply lease_is_closed_closes.
  - eapply closes_sound; [done|]. by eapply lease_close_closes.
  - by apply collect_sound.
Qed.

Lemma steps_sound s tr s' : steps s tr s' → sound s.1 s.2 → sound s'.1 s'.2 ∧ vault_steps (vault_of s.2) tr (vault_of s'.2).
Proof.
  induction 1 as [s|s x s1 tr s' H1 _ IH]; intros S; [split; [done|constructor]|].
  destruct (step_sound s x s1 H1 S) as [S1 Hv]. destruct (IH S1) as [S' Hvs]. split; [done|]. by econstructor.
Qed.

(** A new store in an empty memory. *)
Definition opened (pid : Z) : world := (new_store true (Some pid) true (World ∅ ∅ ∅ [] true 0)).2.
Lemma opened_sound pid : sound ∅ (opened pid).
Proof. split; cbn; try done. intros a. by right; right; right. Qed.

(** Without open leases and entries only callers hold secrets. *)
Lemma closed_erased held w a b : sound held w → entries w = ∅ → (∀ l x, leases w !! l = Some x → lease_closed x = true) →
  buffers w !! a = Some b → a ∉ held → is_zero b.
Proof.
  intros S He Hl Hb Ha. destruct (secrets_owned _ _ S a) as [|[(r & Hr)|[(l & x & Hx & Hc & _)|Hz]]]; [done| | |by apply Hz].
  - by rewrite He in Hr.
  - by rewrite (Hl l x Hx) in Hc.
Qed.
Lemma close_store_cleared held getpid w : sound held w → closed (close_store getpid w) = true.
Proof.
  intros S. destruct (close_store_sound held getpid w S) as [_ E]. change (closed (close_store getpid w)) with (shut (vault_of (close_store getpid w))).
  rewrite E. by destruct getpid.
Qed.
End steps.

(** ** Leases keep their secrets *)

(** The steps that may take the secret of the lease [l] of process [pid]. *)
Definition same_process (pid : Z) (getpid : option Z) : bool := from_option (Z.eqb pid) true getpid.
Definition spares (pid : Z) (l : nat) (x : label) : bool :=
  match x with
  | LCaller => true
  | LStore _ _ _ _ getpid _ | LLoad _ _ getpid _ _ _ | LDelete _ _ getpid _ | LIsClosed getpid _ => same_process pid getpid
  | LClose _ | LFork _ => false
  | LCopy m getpid memory _ => negb (m =? l)%nat || (bool_decide (getpid = Some pid) && memory)
  | LLeaseClosed m getpid _ => negb (m =? l)%nat || bool_decide (getpid = Some pid)
  | LLeaseClose m _ _ | LCollect m => negb (m =? l)%nat
  end.

Section leases.
Implicit Types (w : world) (held : gset nat).

(** The lease [x] at [l] is as it was, and so is its buffer. *)
Definition keeps l (x : lease) w w' : Prop :=
  (leases w !! l = Some x → leases w' !! l = Some x) ∧ buffers w' !! lease_buffer x = buffers w !! lease_buffer x.

Lemma keeps_trans l x w1 w2 w3 : keeps l x w1 w2 → keeps l x w2 w3 → keeps l x w1 w3.
Proof. intros [H1 E1] [H2 E2]. split; [auto|congruence]. Qed.
Lemma keeps_wipe l x w a : lease_buffer x ≠ a → keeps l x w (wipe a w).
Proof. intros Hn. split; [done|]. by rewrite buffers_wipe, decide_False. Qed.
Lemma keeps_buffer l x w a b : lease_buffer x ≠ a → keeps l x w (set_buffers (insert a b) w).
Proof. intros Hn. split; [done|]. cbn. by rewrite lookup_insert_ne. Qed.
Lemma keeps_invalidate held l x w m : sound held w → leases w !! l = Some x → m ≠ l → keeps l x w (invalidate m w).
Proof.
  intros S Hl Hm. split; [rewrite leases_invalidate, decide_False by done; done|].
  unfold invalidate. destruct (leases w !! m) as [y|] eqn:E; [|done]. cbn. rewrite lookup_alter_ne; [done|].
  intros Eb. apply Hm. by apply (leases_inj _ _ S m l y x).
Qed.
Lemma clear_if_forked_same pid getpid w : store_pid w = pid → same_process pid getpid = true →
  ∃ r, clear_if_forked getpid w = (r, w).
Proof.
  intros Hp. unfold same_process, clear_if_forked. destruct getpid as [p|]; cbn; [|eauto].
  intros E. refl_bool. subst. rewrite Z.eqb_refl. eauto.
Qed.
Lemma store_enter_same pid getpid w : store_pid w = pid → same_process pid getpid = true →
  ∃ r, store_enter getpid w = (r, w).
Proof.
  intros Hp Hs. destruct (clear_if_forked_same pid getpid w Hp Hs) as [[[]|e] E]; unfold store_enter, mbind, eff_bind; rewrite E; [|eauto].
  unfold require_open. eauto.
Qed.
Lemma store_is_closed_same pid getpid w : store_pid w = pid → same_process pid getpid = true →
  ∃ r, store_is_closed getpid w = (r, w).
Proof.
  intros Hp Hs. destruct (clear_if_forked_same pid getpid w Hp Hs) as [[[]|e] E]; unfold store_is_closed, mbind, eff_bind; rewrite E; [|eauto].
  unfold reading. eauto.
Qed.

(** What a step changes: buffers other than that of [x], leases other than [l]. *)
Inductive apart l (x : lease) : world → world → Prop :=
| apart_refl w : apart l x w w
| apart_wipe w w' a : apart l x w w' → lease_buffer x ≠ a → apart l x w (wipe a w')
| apart_buffer w w' a b : apart l x w w' → lease_buffer x ≠ a → apart l x w (set_buffers (insert a b) w')
| apart_entries w w' f : apart l x w w' → apart l x w (set_entries f w')
| apart_tracked w w' f : apart l x w w' → apart l x w (set_tracked f w')
| apart_lease w w' m y : apart l x w w' → m ≠ l → apart l x w (set_leases (insert m y) w').

Lemma apart_keeps l x w w' : apart l x w w' → keeps l x w w' ∧ store_pid w' = store_pid w.
Proof.
  induction 1 as [w|w w' a H [IH <-] Hn|w w' a b H [IH <-] Hn|w w' f H [IH <-]|w w' f H [IH <-]|w w' m y H [IH <-] Hn];
    (split; [|done]); try (eapply keeps_trans; [exact IH|]).
  - done.
  - by apply keeps_wipe.
  - by apply keeps_buffer.
  - done.
  - done.
  - split; [|done]. cbn. by rewrite lookup_insert_ne.
Qed.
Hint Constructors apart : core.

Section apart.
Variables (held : gset nat) (w : world) (l : nat) (x : lease) (pid : Z).
Hypotheses (S : sound held w) (Hl : leases w !! l = Some x) (Hp : store_pid w = pid).

Lemma fresh_apart : lease_buffer x ≠ fresh (dom (buffers w)).
Proof. intros E. apply (is_fresh (dom (buffers w))). rewrite <-E. by apply (lease_dom _ _ S l). Qed.
Lemma held_apart a : a ∈ held → lease_buffer x ≠ a.
Proof. intros Ha <-. by apply (held_lease _ _ S l x). Qed.
Lemma entry_apart r a : entries w !! r = Some a → lease_buffer x ≠ a.
Proof. intros Hr. by apply (entry_lease _ _ S r a l x). Qed.
Hint Resolve fresh_apart held_apart entry_apart : core.

Lemma take_secret_apart value memory r w' : (∀ a, value = Some a → a ∈ held) → take_secret value memory w = (r, w') →
  apart l x w w' ∧ entries w' = entries w ∧ store_pid w' = pid ∧ (∀ c, r = Ok c → lease_buffer x ≠ c).
Proof.
  intros Hv. destruct value as [a|]; [|by intros [= <- <-]]. assert (lease_buffer x ≠ a) by auto.
  unfold take_secret, finally, mbind, eff_bind, contents, reading, new_buffer. destruct (negb _); [by intros [= <- <-]; eauto|].
  destruct memory; intros [= <- <-]; cbn [raising]; split_and!; auto. intros c [= <-]. auto.
Qed.
Lemma store_apart t k value memory getpid r w' : (∀ a, value = Some a → a ∈ held) → same_process pid getpid = true →
  store t k value memory getpid w = (r, w') → apart l x w w'.
Proof.
  intros Hv Hs. unfold store, prepare_store, mbind, eff_bind, run.
  destruct (take_secret value memory w) as [[c|e] w1] eqn:Et; destruct (take_secret_apart _ _ _ _ Hv Et) as (Ha & Ee & Ep & Hc).
  2: by intros [= _ <-]. specialize (Hc c eq_refl).
  unfold on_error. destruct (reference_of t k) as [ref|e]; [|intros [= _ <-]; auto].
  cbn [mret eff_ret]. destruct (store_enter_same pid getpid w1 Ep Hs) as [[[]|e] ->]; [|intros [= _ <-]; auto].
  cbn [reading update]. rewrite Ee. destruct (entries w !! ref) as [a|] eqn:E; intros [= _ <-]; cbn [from_option id]; eauto.
Qed.
Lemma load_apart t k getpid memory getpid_again r w' : same_process pid getpid = true →
  load t k getpid memory getpid_again w = (r, w') → apart l x w w'.
Proof.
  intros Hs. unfold load, mbind, eff_bind, run. destruct (reference_of t k) as [ref|e]; [|intros [= _ <-]; auto].
  destruct (store_enter_same pid getpid w Hp Hs) as [[[]|e] ->]; [|intros [= _ <-]; auto]. cbn [reading].
  destruct (entries w !! ref) as [a|] eqn:E; [|intros [= _ <-]; auto]. unfold contents, reading.
  destruct (negb _); [intros [= _ <-]; eauto|]. destruct memory; [|intros [= _ <-]; auto]. cbn [negb].
  unfold new_buffer, excepting, new_lease. destruct getpid_again as [p|]; intros [= _ <-]; [|eauto 10].
  apply apart_tracked, apart_lease; [auto|]. cbn. intros Em. apply (is_fresh (dom (leases w))). rewrite Em. apply elem_of_dom. eauto.
Qed.
Lemma delete_apart t k getpid r w' : same_process pid getpid = true → delete_key t k getpid w = (r, w') → apart l x w w'.
Proof.
  intros Hs. unfold delete_key, mbind, eff_bind, run. destruct (reference_of t k) as [ref|e]; [|intros [= _ <-]; auto].
  destruct (store_enter_same pid getpid w Hp Hs) as [[[]|e] ->]; [|intros [= _ <-]; auto]. cbn [reading].
  destruct (entries w !! ref) as [a|] eqn:E; intros [= _ <-]; eauto.
Qed.

Lemma closes_apart m w' : m ≠ l → closes m w w' → apart l x w w'.
Proof.
  intros Hm [->| ->]; [done|]. unfold invalidate. destruct (leases w !! m) as [y|] eqn:E; [|done].
  apply apart_lease; [|done]. apply apart_wipe; [done|]. intros Eb. apply Hm. by apply (leases_inj _ _ S m l y x).
Qed.

(** An open lease of this process is not closed by looking at it. *)
Hypotheses (Ho : owner_pid x = pid) (Hopen : lease_closed x = false).
Lemma copy_bytes_open : copy_bytes l (Some pid) true w = (Ok (default [] (buffers w !! lease_buffer x)), w).
Proof.
  unfold copy_bytes, lease_require_open, the_lease, mbind, eff_bind. rewrite Hl. unfold owner_matches.
  rewrite Ho, Z.eqb_refl. cbn. rewrite Hopen. cbn. by rewrite Hl.
Qed.
Lemma lease_is_closed_open : lease_is_closed l (Some pid) w = (Ok false, w).
Proof.
  unfold lease_is_closed, the_lease, mbind, eff_bind. rewrite Hl. unfold owner_matches. rewrite Ho, Z.eqb_refl. cbn. by rewrite Hl, Hopen.
Qed.

End apart.
Hint Resolve fresh_apart held_apart entry_apart store_apart load_apart delete_apart closes_apart : core.
Hint Resolve copy_bytes_closes lease_is_closed_closes lease_close_closes : core.

Lemma step_apart held w l x pid y h' w' : sound held w → leases w !! l = Some x → store_pid w = pid → owner_pid x = pid →
  lease_closed x = false → step (held, w) y (h', w') → spares pid l y = true → apart l x w w'.
Proof.
  intros S Hl Hp Ho Hopen Hs. inversion Hs; subst; cbn [spares]; intros Hsp.
  - destruct (sound_new_buffer _ _ b S) as (E & _). rewrite E in *. simplify_eq. eauto.
  - eauto.
  - eauto.
  - eauto.
  - eauto.
  - destruct (store_is_closed_same _ getpid w eq_refl Hsp) as [r' E]. assert (w' = w) as -> by congruence. auto.
  - done.
  - done.
  - destruct (decide (l0 = l)) as [->|Hn]; [|eauto].
    rewrite Nat.eqb_refl in Hsp. cbn in Hsp. apply andb_true_iff in Hsp as [Hg%bool_decide_eq_true ->].
    subst getpid. pose proof (copy_bytes_open w l x (store_pid w) Hl Ho Hopen). assert (w' = w) as -> by congruence. auto.
  - destruct (decide (l0 = l)) as [->|Hn]; [|eauto].
    rewrite Nat.eqb_refl in Hsp. cbn in Hsp. apply bool_decide_eq_true in Hsp.
    subst getpid. pose proof (lease_is_closed_open w l x (store_pid w) Hl Ho Hopen). assert (w' = w) as -> by congruence. auto.
  - destruct (decide (l0 = l)) as [->|Hn]; [by rewrite Nat.eqb_refl in Hsp|]. eauto.
  - destruct (decide (l0 = l)) as [->|Hn]; [by rewrite Nat.eqb_refl in Hsp|]. apply apart_tracked. eapply closes_apart; [done..|by right].
Qed.

Lemma steps_keep l x pid s tr s' : steps s tr s' → sound s.1 s.2 → leases s.2 !! l = Some x → lease_closed x = false →
  owner_pid x = pid → store_pid s.2 = pid → forallb (spares pid l) tr = true →
  leases s'.2 !! l = Some x ∧ buffers s'.2 !! lease_buffer x = buffers s.2 !! lease_buffer x.
Proof.
  induction 1 as [s|[h w] y [h1 w1] tr s' Hs _ IH]; intros S Hl Hc Ho Hp Hsp; [done|].
  apply andb_true_iff in Hsp as [Hy Htr]. cbn [fst snd] in *.
  destruct (apart_keeps _ _ _ _ (step_apart h w l x pid y h1 w1 S Hl Hp Ho Hc Hs Hy)) as [[Hk <-] Ep].
  apply IH; [by apply (step_sound _ _ _ Hs S)|by apply Hk|done|done|by rewrite Ep|done].
Qed.
End leases.

Lemma vault_load_process t k pid memory getpid_again v b v' :
  vault_load t k (Some pid) memory getpid_again v = (Ok b, v') → process v' = pid.
Proof.
  unfold vault_load. intros (ref & v1 & _ & (u & v2 & He & Hk)%eff_bind_Ok)%eff_bind_Ok.
  assert (process v2 = pid) as Hp.
  { unfold enter_vault in He. destruct (pid =? process v1) eqn:E; apply pair_equal_spec in He as [_ <-]; [by apply Z.eqb_eq in E|done]. }
  unfold mbind, eff_bind, reading in Hk. destruct (secrets v2 !! ref), memory, getpid_again; cbn in Hk; (discriminate Hk || injection Hk as _ <-; exact Hp).
Qed.

(** ** The claims *)

(** C9: A session with an [EphemeralKeyStore], whatever callers do with their own buffers and
    leases, whatever is collected and however the process forks, shows the results that a
    vault shows: a map from the valid references to the bytes last stored, empty after
    a deletion, in another process and once closed. *)
Theorem key_store_refines_vault pid tr h w :
  steps (∅, opened pid) tr (h, w) → vault_steps (Vault ∅ false pid) tr (vault_of w).
Proof. intros H. exact (proj2 (steps_sound _ _ _ H (opened_sound pid))). Qed.

(** C10: In every state of a session each buffer that is not zero is a caller's, the value of
    an entry or the buffer of an open lease; [store] leaves the caller's buffer zero whether
    it returns or raises; and [close] and a fork leave nothing but what callers hold. *)
Theorem secrets_have_owners pid tr h w :
  steps (∅, opened pid) tr (h, w) →
  (∀ a b, buffers w !! a = Some b → is_zero b ∨ a ∈ h ∨ (∃ r, entries w !! r = Some a) ∨
    ∃ l x, leases w !! l = Some x ∧ lease_closed x = false ∧ lease_buffer x = a) ∧
  (∀ t k a memory getpid b, a ∈ h → buffers (store t k (Some a) memory getpid w).2 !! a = Some b → is_zero b) ∧
  (∀ getpid a b, a ∉ h → buffers (close_store getpid w) !! a = Some b → is_zero b) ∧
  (∀ getpid a b, a ∉ h → buffers (clear_in_child getpid w) !! a = Some b → is_zero b).
Proof.
  intros Hs. destruct (steps_sound _ _ _ Hs (opened_sound pid)) as [S _]. cbn [fst snd] in S. split_and!.
  - intros a b Hb. destruct (secrets_owned _ _ S a) as [|[|[|He]]]; [by right; left|by right; right; left|by right; right; right|].
    left. by apply He.
  - intros t k a memory getpid b Ha. destruct (store t k (Some a) memory getpid w) as [r w'] eqn:E.
    pose proof (store_agrees h w t k (Some a) memory getpid S ltac:(by intros ? [= <-])) as Hag. rewrite E in Hag.
    apply agrees_Ok in Hag as ([_ He] & _). apply He. done.
  - intros getpid a b Ha Hb. destruct (close_store_sound h getpid w S) as [S' _].
    pose proof (close_store_cleared h getpid w S) as Hc. eapply (closed_erased h); [done| | |done|done].
    + by apply (closed_empty _ _ S').
    + intros l x Hl. by eapply (closed_leases _ _ S').
  - intros getpid a b Ha. unfold clear_in_child. rewrite after_fork_child_cleared. intros Hb.
    eapply (closed_erased h); [by apply sound_cleared| | |done|done]; [done|].
    intros l x Hl. by eapply cleared_leases.
Qed.

(** A lease that [load] returned keeps the bytes that were loaded, for as long as the
    store is not closed, the process does not change and the lease is not closed: deleting
    or replacing the key, other leases and the callers' buffers do not reach it. *)
Theorem leases_keep_their_secret pid tr h w t k l w1 tr' h' w' :
  steps (∅, opened pid) tr (h, w) →
  load t k (Some pid) true (Some pid) w = (Ok l, w1) →
  steps (h, w1) tr' (h', w') → forallb (spares pid l) tr' = true →
  ∃ b, vault_load t k (Some pid) true (Some pid) (vault_of w) = (Ok b, vault_of w1) ∧
    copy_bytes l (Some pid) true w' = (Ok b, w').
Proof.
  intros Hs Hload Hs' Hsp. destruct (steps_sound _ _ _ Hs (opened_sound pid)) as [S _]. cbn [fst snd] in S.
  pose proof (load_agrees h w t k (Some pid) true (Some pid) S) as Ha. rewrite Hload in Ha.
  apply agrees_Ok in Ha as (S1 & Ev & Hr). destruct (vault_load _ _ _ _ _ _) as [[b|] v] eqn:Hv; [|done]. cbn in Ev, Hr. subst v.
  destruct Hr as (p & [= <-] & x & Hl & Hc & Ho & Hb & _). exists b. split; [done|].
  pose proof (vault_load_process _ _ _ _ _ _ _ _ Hv : store_pid w1 = pid) as Hp1.
  destruct (steps_keep l x pid _ _ _ Hs' S1 Hl Hc Ho Hp1 Hsp) as [Hl' Hb']. cbn [snd] in *.
  rewrite (copy_bytes_open w' l x pid Hl' Ho Hc), Hb', Hb. done.
Qed.
