(* ===== verification/KeyStoreMediator.v ===== *)
(** * The mediator of a key store backend

    What [_ValidatedKeyStore] promises of a backend about which nothing is known: any
    function of the memory, any value, any exception. *)

From stdpp Require Import base list list_numbers numbers strings gmap fin_maps sets.
From S2P Require Import Prelude PyString Errors PyValue Effects KeyStore KeyStoreFacts.
Open Scope Z_scope.

(** Of the exceptions only those of the key store; [BaseException]s pass. *)
Definition key_store_failure {A} (r : py A) : Prop := ∀ e, r = Raise e → is_exception e = true → ∃ k, e = KeyStoreError k.

Section mediator.
Implicit Types (w : world).

Lemma failure_bind {A B} (m : eff world A) (f : A → eff world B) :
  (∀ w, key_store_failure (m w).1) → (∀ a w, key_store_failure (f a w).1) → ∀ w, key_store_failure ((m ≫= f) w).1.
Proof. intros Hm Hf w. unfold mbind, eff_bind. specialize (Hm w). destruct (m w) as [[a|e] w1]; [apply Hf|intros ? [= <-]; by apply Hm]. Qed.
Lemma failure_finally {A} (m : eff world A) c : (∀ w, key_store_failure (m w).1) → ∀ w, key_store_failure (finally m c w).1.
Proof. intros Hm w. unfold finally. specialize (Hm w). by destruct (m w). Qed.
Lemma failure_on_error {A} (m : eff world A) c : (∀ w, key_store_failure (m w).1) → ∀ w, key_store_failure (on_error m c w).1.
Proof. intros Hm w. unfold on_error. specialize (Hm w). by destruct (m w) as [[]]. Qed.
Lemma failure_excepting {A} (m h : eff world A) : (∀ w, key_store_failure (h w).1) → ∀ w, key_store_failure (excepting m h w).1.
Proof.
  intros Hh w. unfold excepting. destruct (m w) as [[a|e] w1]; [done|]. destruct (is_exception e) eqn:E; [apply Hh|].
  intros ? [= <-]. by rewrite E.
Qed.
Lemma failure_Ok {A} (a : A) : key_store_failure (Ok a).
Proof. done. Qed.
Lemma failure_Raise {A} k : key_store_failure (Raise (KeyStoreError k) : py A).
Proof. intros ? [= <-]. eauto. Qed.
Hint Resolve failure_bind failure_finally failure_on_error failure_excepting failure_Ok failure_Raise : core.

Lemma failure_raise_if c k : key_store_failure (raise_if c (KeyStoreError k)).
Proof. destruct c; cbn; auto. Qed.
Lemma failure_reference t k : key_store_failure (reference_of t k).
Proof.
  unfold reference_of, validate_identifier. destruct (valid_identifier t); cbn; [|auto]. destruct (valid_identifier k); cbn; auto.
Qed.
Lemma failure_take value memory w : key_store_failure (take_secret value memory w).1.
Proof.
  destruct value as [a|]; [|by cbn; auto]. apply failure_finally, failure_bind; [done|]. intros b w1.
  destruct (secret_size b); [destruct memory|]; cbn; auto.
Qed.
Lemma failure_prepare t k value memory w : key_store_failure (prepare_store t k value memory w).1.
Proof.
  apply failure_bind; [auto using failure_take|]. intros c w1. apply failure_bind; [|by cbn].
  apply failure_on_error. intros w2. apply failure_reference.
Qed.
Lemma failure_invoke m w : key_store_failure (invoke_backend m w).1.
Proof.
  unfold invoke_backend. destruct (m w) as [[[]|e] w1]; cbn; auto.
  assert (∀ f, is_exception f = false → key_store_failure (Raise f : py (backend_value + backend_status))) as Hb.
  { intros f Hf ? [= <-]. by rewrite Hf. }
  destruct e as [| | | | | | | |[]| | | | | | | | | | | | | | | |]; cbn; auto.
Qed.
Lemma failure_no_result o : key_store_failure (no_result o).
Proof. destruct o as [[]|[]]; cbn; auto. Qed.
Lemma failure_run {A} (m : py A) : key_store_failure m → ∀ w, key_store_failure (run m w).1.
Proof. done. Qed.
Hint Resolve failure_raise_if failure_reference failure_prepare failure_invoke failure_no_result failure_run : core.

Lemma failure_load v t k getpid memory getpid_again w : key_store_failure (validated_load v t k getpid memory getpid_again w).1.
Proof.
  apply failure_bind; [auto|]. intros ref w1. apply failure_bind; [apply failure_run, failure_raise_if|]. intros _ w2.
  apply failure_bind; [auto|]. intros [value|status] w3; [|by destruct status; cbn; auto]. apply failure_bind.
  - intros w4. destruct value; [|by cbn; auto..]. apply failure_finally, failure_bind; [done|]. intros b w5.
    by destruct (secret_size b && memory).
  - intros [c|] w4; [|by cbn; auto]. apply failure_excepting, failure_bind; [done|]. intros _ w5. apply failure_Raise.
Qed.
Lemma failure_store v t k value memory getpid w : key_store_failure (validated_store_key v t k value memory getpid w).1.
Proof.
  apply failure_bind; [auto|]. intros [c ref] w1. apply failure_bind; [|auto]. apply failure_finally, failure_bind; [|auto].
  apply failure_run, failure_raise_if.
Qed.
Lemma failure_delete v t k getpid w : key_store_failure (validated_delete v t k getpid w).1.
Proof.
  apply failure_bind; [auto|]. intros ref w1. apply failure_bind; [apply failure_run, failure_raise_if|]. intros _ w2.
  apply failure_bind; auto.
Qed.

(** What the backend is handed, and what is left of the caller's buffer. *)
Lemma take_secret_Ok a memory w c w1 : take_secret (Some a) memory w = (Ok c, w1) →
  ∃ b, buffers w !! a = Some b ∧ secret_size b = true ∧ (c ∉ dom (buffers w)) ∧ buffers w1 !! c = Some b ∧ erased w1 a.
Proof.
  unfold take_secret, finally, mbind, eff_bind, contents, reading. destruct (buffers w !! a) as [b|] eqn:E; cbn [default from_option id]; [|done].
  destruct (secret_size b) eqn:Es; [|done]. destruct memory; [|done]. intros [= <- <-].
  pose proof (is_fresh (dom (buffers w))) as Hf. exists b. split_and!; [done|done|done| |apply erased_wipe].
  rewrite buffers_wipe, decide_False; [by cbn; rewrite lookup_insert_eq|]. intros Ea. apply Hf. rewrite Ea. apply elem_of_dom. eauto.
Qed.
Lemma take_secret_erases a memory w r w1 : take_secret (Some a) memory w = (r, w1) → erased w1 a.
Proof. unfold take_secret, finally. case_match. intros [= _ <-]. apply erased_wipe. Qed.
Lemma prepare_store_Ok t k a memory w c ref w1 : prepare_store t k (Some a) memory w = (Ok (c, ref), w1) →
  reference_of t k = Ok ref ∧
  ∃ b, buffers w !! a = Some b ∧ secret_size b = true ∧ (c ∉ dom (buffers w)) ∧ buffers w1 !! c = Some b ∧ erased w1 a.
Proof.
  unfold prepare_store. intros (c' & w' & Ht & (ref' & w2 & Hr & Hk)%eff_bind_Ok)%eff_bind_Ok. injection Hk as -> -> ->.
  unfold on_error, run in Hr. destruct (reference_of t k); [|done]. injection Hr as -> ->. split; [done|]. by eapply take_secret_Ok.
Qed.
Lemma prepare_store_Raise t k a memory w e w1 : prepare_store t k (Some a) memory w = (Raise e, w1) → erased w1 a.
Proof.
  unfold prepare_store. intros [Ht|(c & w' & Ht & [Hr|(? & ? & _ & ?)]%eff_bind_Raise)]%eff_bind_Raise; [by eapply take_secret_erases| |done].
  unfold on_error, run in Hr. destruct (reference_of t k); [done|]. injection Hr as _ <-.
  apply erased_wipe_keeps. by eapply take_secret_erases.
Qed.
Lemma invoke_backend_Ok m w v w1 : invoke_backend m w = (Ok (inl v), w1) → m w = (Ok v, w1).
Proof.
  unfold invoke_backend. destruct (m w) as [[[]|e] w2]; try by intros [= <- <-].
  destruct e as [| | | | | | | |[]| | | | | | | | | | | | | | | |]; by intros [=].
Qed.
Lemma invoke_backend_spec m w : (invoke_backend m w).2 = (m w).2 ∧
  ((o ← (invoke_backend m w).1; no_result o) = Ok () ↔ (m w).1 = Ok BNone).
Proof.
  unfold invoke_backend. destruct (m w) as [[[]|e] w1]; cbn; [by split..|].
  destruct e as [| | | | | | | |[]| | | | | | | | | | | | | | | |]; by cbn.
Qed.
Lemma take_backend_secret_Ok v memory w c w1 : take_backend_secret v memory w = (Ok (Some c), w1) →
  ∃ a b, v = BBytearray a ∧ buffers w !! a = Some b ∧ secret_size b = true ∧ (c ∉ dom (buffers w)) ∧ buffers w1 !! c = Some b ∧ erased w1 a.
Proof.
  destruct v as [a| | |]; try done. unfold take_backend_secret, finally, mbind, eff_bind, contents, reading.
  destruct (buffers w !! a) as [b|] eqn:E; cbn [default from_option id]; [|done].
  destruct (secret_size b) eqn:Es; [|done]. destruct memory; [|done]. intros [= <- <-]. exists a, b.
  pose proof (is_fresh (dom (buffers w))) as Hf. split_and!; [done..| |apply erased_wipe].
  rewrite buffers_wipe, decide_False; [by cbn; rewrite lookup_insert_eq|]. intros Ea. apply Hf. rewrite Ea. apply elem_of_dom. eauto.
Qed.
Lemma require_owner_Ok v getpid u : require_owner v getpid = Ok u → getpid = Some (validated_pid v).
Proof.
  unfold require_owner. intros H. destruct getpid as [p|]; [|done]. destruct (p =? validated_pid v) eqn:E; [|done]. refl_bool. by subst.
Qed.
End mediator.

(** C34: Whatever a backend does, [_ValidatedKeyStore] raises no exception but those of the
    key store.  A lease it hands out is on a buffer of its own with the 1 to 65536 bytes
    that the backend returned, whose own buffer is erased.  [store] hands the backend a
    private copy of the secret when the caller's buffer is erased already, and erases the
    copy afterwards, however the backend ends; it returns if and only if the backend
    returned [None]. *)
Theorem backends_are_mediated v t k getpid memory getpid_again w :
  key_store_failure (validated_load v t k getpid memory getpid_again w).1 ∧
  key_store_failure (validated_delete v t k getpid w).1 ∧
  (∀ value, key_store_failure (validated_store_key v t k value memory getpid w).1) ∧
  (∀ l w', validated_load v t k getpid memory getpid_again w = (Ok l, w') →
    ∃ ref a w1 b c pid, reference_of t k = Ok ref ∧ getpid = Some (validated_pid v) ∧ getpid_again = Some pid ∧
      load_method (methods v) ref w = (Ok (BBytearray a), w1) ∧ buffers w1 !! a = Some b ∧ secret_size b = true ∧
      leases w' !! l = Some (Lease c false pid) ∧ (c ∉ dom (buffers w1)) ∧ buffers w' !! c = Some b ∧ erased w' a) ∧
  (∀ a r w', validated_store_key v t k (Some a) memory getpid w = (r, w') →
    (erased w' a ∧ ∃ e, r = Raise e) ∨
    ∃ ref b c w1 outcome w2, reference_of t k = Ok ref ∧ getpid = Some (validated_pid v) ∧
      buffers w !! a = Some b ∧ secret_size b = true ∧ (c ∉ dom (buffers w)) ∧ buffers w1 !! c = Some b ∧ erased w1 a ∧
      store_method (methods v) ref c w1 = (outcome, w2) ∧ erased w' c ∧ (r = Ok () ↔ outcome = Ok BNone)).
Proof.
  split_and!; [apply failure_load|apply failure_delete|intros value; apply failure_store| |].
  - unfold validated_load. intros l w' (ref & w0 & Hr & (u & w1 & Ho & (o & w2 & Hi & Hk)%eff_bind_Ok)%eff_bind_Ok)%eff_bind_Ok.
    injection Hr as Hr ->. injection Ho as Ho ->. apply require_owner_Ok in Ho. destruct o as [value|status]; [|done].
    apply invoke_backend_Ok in Hi. apply eff_bind_Ok in Hk as ([c|] & w3 & Ht & Hk); [|done].
    destruct (take_backend_secret_Ok _ _ _ _ _ Ht) as (a & b & -> & Hb & Hs & Hc & Hcb & He).
    unfold excepting, new_lease in Hk. destruct getpid_again as [pid|]; [|done]. injection Hk as <- <-.
    exists ref, a, w2, b, c, pid. split_and!; try done. cbn. by rewrite lookup_insert_eq.
  - intros a r w'. unfold validated_store_key. unfold mbind at 1, eff_bind at 1.
    destruct (prepare_store t k (Some a) memory w) as [[[c ref]|e] w1] eqn:Ep.
    2: { intros [= <- <-]. left. split; [by eapply prepare_store_Raise|eauto]. }
    apply prepare_store_Ok in Ep as (Hr & b & Hb & Hs & Hc & Hcb & He).
    unfold mbind, eff_bind, finally, run. destruct (require_owner v getpid) as [u|e] eqn:Ho.
    2: { intros [= <- <-]. left. split; [by apply erased_wipe_keeps|eauto]. }
    apply require_owner_Ok in Ho. destruct (invoke_backend_spec (store_method (methods v) ref c) w1) as [Es Ei].
    destruct (store_method (methods v) ref c w1) as [outcome w2] eqn:Em. cbn [fst snd] in *.
    destruct (invoke_backend _ w1) as [ro w3]. cbn [fst snd] in *. subst w3.
    intros Hk. right. exists ref, b, c, w1, outcome, w2.
    assert (r = o ← ro; no_result o) as -> by (destruct ro; by apply pair_equal_spec in Hk as [<- _]).
    assert (w' = wipe c w2) as -> by (destruct ro; by apply pair_equal_spec in Hk as [_ <-]). split_and!; try done. apply erased_wipe.
Qed.
