(* ===== verification/Custody.v ===== *)
(** * Keys in custody

    The key functions of [identity/did.py] over the key store of [keystore.py]: generating a
    key into an [EphemeralKeyStore] and signing through a lease.  The process does not change
    during a call.  A concrete session instantiates the theorems on key stores. *)

From stdpp Require Import base list list_numbers numbers strings gmap fin_maps sets.
From S2P Require Import Prelude PyString Errors PyValue Did IdentityExamples Effects KeyStore KeyStoreFacts KeyStoreSession.
Open Scope Z_scope.

(** [with key_store.load(...) as lease: lease.copy_bytes()]. *)
Definition leased_bytes (tenant_id key_id : pyval) (memory : bool) (getpid : option Z) : eff world pybytes :=
  l ← load tenant_id key_id getpid memory getpid;
  lease ← lease_enter l getpid;
  exiting (copy_bytes lease getpid memory) (lease_close l getpid).

Section custody.
Context `{Ed25519}.

(** [generate_ed25519_key]: the buffer of the seed is wiped unless the store has it. *)
Definition transfer_seed (seed : pybytes) (private_buffer : nat) (tenant_id key_id : pyval) (memory : bool) (getpid : option Z)
    : eff world did_key := λ w,
  let '(stored, w) := store tenant_id key_id (Some private_buffer) memory getpid w in
  let '(result, remaining) := generate_ed25519_key seed stored in
  (result, from_option (λ _, wipe private_buffer w) w remaining).
Definition generate_in_store (seed : pybytes) (tenant_id key_id : pyval) (memory : bool) (getpid : option Z)
    : eff world did_key :=
  private_buffer ← new_buffer seed;
  transfer_seed seed private_buffer tenant_id key_id memory getpid.

(** [DidKey.sign]: a message that is refused loads nothing. *)
Definition sign_in_store (k : did_key) (message : option pybytes) (tenant_id key_id : pyval) (memory : bool)
    (getpid : option Z) : eff world pybytes := λ w,
  match validate_message message with
  | Ok _ => let '(lease, w) := leased_bytes tenant_id key_id memory getpid w in (did_key_sign k message lease, w)
  | Raise e => (did_key_sign k message (Raise e), w)
  end.

(** ** The entry of a key through a session *)

(** The steps that leave the entry of a reference alone. *)
Definition leaves (pid : Z) (ref : reference) (x : label) : bool :=
  match x with
  | LStore t k _ _ getpid _ | LDelete t k getpid _ => same_process pid getpid && negb (bool_decide (reference_of t k = Ok ref))
  | LLoad _ _ getpid _ _ _ | LIsClosed getpid _ => same_process pid getpid
  | LClose _ | LFork _ => false
  | _ => true
  end.

(** The vault of the process [pid] is open and has [b] under [ref]. *)
Definition has (pid : Z) (ref : reference) (b : pybytes) (v : vault) : Prop :=
  secrets v !! ref = Some b ∧ shut v = false ∧ process v = pid.

Lemma enter_vault_has pid ref b getpid v r v' : has pid ref b v → same_process pid getpid = true →
  enter_vault getpid v = (r, v') → v' = v.
Proof.
  intros (_ & _ & Hp) Hs. unfold enter_vault. destruct getpid as [p|]; [|by intros [= _ <-]]. cbn in Hs. refl_bool. subst.
  rewrite Z.eqb_refl. by intros [= _ <-].
Qed.
Lemma vault_step_has pid ref b v x v' : has pid ref b v → leaves pid ref x = true → vault_step v x v' → has pid ref b v'.
Proof.
  intros Hh Hl. destruct x; cbn [leaves] in Hl; cbn [vault_step]; try done; try by intros ->.
  - apply andb_true_iff in Hl as [Hs Hr%negb_true_iff%bool_decide_eq_false]. unfold vault_store, mbind, eff_bind, run.
    destruct (take_value value memory); [|by intros [= _ <-]]. destruct (reference_of tenant_id key_id) as [ref'|]; [|by intros [= _ <-]].
    destruct (enter_vault getpid v) as [[u|] v1] eqn:E; apply (enter_vault_has pid ref b) in E as ->; try done; intros [= _ <-]; [|done].
    destruct Hh as (? & ? & ?). split; [|done]. cbn. rewrite lookup_insert_ne by congruence. done.
  - unfold vault_load, mbind, eff_bind, run. destruct (reference_of _ _) as [ref'|]; [|by intros [= _ <-]].
    destruct (enter_vault getpid v) as [[u|] v1] eqn:E; apply (enter_vault_has pid ref b) in E as ->; try done; [|by intros [= _ <-]].
    cbn [reading]. destruct (secrets v !! ref'), memory, getpid_again; by intros [= _ <-].
  - apply andb_true_iff in Hl as [Hs Hr%negb_true_iff%bool_decide_eq_false]. unfold vault_delete, mbind, eff_bind, run.
    destruct (reference_of tenant_id key_id) as [ref'|]; [|by intros [= _ <-]].
    destruct (enter_vault getpid v) as [[u|] v1] eqn:E; apply (enter_vault_has pid ref b) in E as ->; try done; [|by intros [= _ <-]].
    cbn [reading]. destruct (secrets v !! ref'); intros [= _ <-]; [|done].
    destruct Hh as (? & ? & ?). split; [|done]. cbn. rewrite lookup_delete_ne by congruence. done.
  - unfold vault_is_closed. destruct getpid as [p|]; [|by intros [= _ <-]]. cbn in Hl. refl_bool. destruct Hh as (? & ? & <-). subst.
    rewrite Z.eqb_refl. by intros [= _ <-].
Qed.
Lemma vault_steps_has pid ref b v tr v' : vault_steps v tr v' → forallb (leaves pid ref) tr = true → has pid ref b v → has pid ref b v'.
Proof.
  induction 1 as [v|v x v1 tr v' Hs _ IH]; intros Hl Hh; [done|]. apply andb_true_iff in Hl as [Hx Hl].
  apply IH; [done|]. by eapply vault_step_has.
Qed.

(** ** Signing *)

(** A load in the store's own process adds one lease. *)
Lemma load_leases t k pid w l w1 : store_pid w = pid → load t k (Some pid) true (Some pid) w = (Ok l, w1) →
  ∃ x, leases w1 = <[l := x]> (leases w) ∧ store_pid w1 = pid.
Proof.
  intros Hp. unfold load, mbind, eff_bind, run. destruct (reference_of t k) as [ref|e]; [|done].
  destruct (store_enter_same pid (Some pid) w Hp) as [[[]|e] ->]; [by cbn; rewrite Z.eqb_refl| |done]. cbn [reading].
  destruct (entries w !! ref) as [a|]; [|done]. unfold contents, reading. destruct (negb _); [done|]. intros [= <- <-]. cbn. eauto.
Qed.

Lemma leased_bytes_spec held w t k ref pid b : sound held w → reference_of t k = Ok ref → has pid ref b (vault_of w) →
  ∃ w', leased_bytes t k true (Some pid) w = (Ok b, w') ∧ sound held w' ∧ vault_of w' = vault_of w ∧
    ∀ m x, leases w' !! m = Some x → lease_closed x = false → leases w !! m = Some x.
Proof.
  intros S Hr (Hb & Hs & Hp). assert (vault_load t k (Some pid) true (Some pid) (vault_of w) = (Ok b, vault_of w)) as Hv.
  { unfold vault_load, mbind, eff_bind, run. rewrite Hr. unfold enter_vault. rewrite Hp, Z.eqb_refl, Hs. cbn -[vault_of].
    by rewrite Hb. }
  pose proof (load_agrees held w t k (Some pid) true (Some pid) S) as Ha. rewrite Hv in Ha. unfold leased_bytes, mbind, eff_bind.
  destruct (load t k (Some pid) true (Some pid) w) as [[l|e] w1] eqn:El; [|done]. cbn in Ha.
  destruct Ha as (Ev & S1 & p & [= <-] & x & Hl & Hc & Ho & Hbx & _).
  destruct (load_leases t k pid w l w1 Hp El) as (y & Hls & _).
  assert (lease_enter l (Some pid) w1 = (Ok l, w1)) as ->.
  { unfold lease_enter, lease_require_open, the_lease, mbind, eff_bind. rewrite Hl. unfold owner_matches. by rewrite Ho, Z.eqb_refl, Hc. }
  unfold exiting. rewrite (copy_bytes_open w1 l x pid Hl Ho Hc), Hbx. cbn [default from_option id].
  assert (lease_close l (Some pid) w1 = (Ok (), invalidate l w1)) as ->.
  { unfold lease_close, the_lease, mbind, eff_bind. rewrite Hl. unfold owner_matches. by rewrite Ho, Z.eqb_refl. }
  exists (invalidate l w1). split_and!; [done|by apply sound_invalidate|by rewrite (vault_of_invalidate held)|].
  intros m z. rewrite leases_invalidate, Hls. destruct (decide (m = l)) as [->|Hne]; [|by rewrite lookup_insert_ne].
  rewrite lookup_insert_eq. by intros [= <-].
Qed.

Context `{!Ed25519Laws}.

Lemma did_key_sign_Ok seed message : length seed = PUBLIC_KEY_BYTES → Z.of_nat (length message) ≤ MAX_MESSAGE_BYTES →
  did_key_sign (key_of (public_of seed)) (Some message) (Ok seed) = Ok (sign_with seed message).
Proof.
  intros Hs Hm. unfold did_key_sign, sign_ed25519, sign_ed25519_unsafe. cbn [validate_message].
  rewrite (proj2 (Z.ltb_ge _ _) Hm). unfold from_private_bytes. cbn [raise_if mbind result_bind].
  rewrite Hs, Nat.eqb_refl. cbn [negb raise_if mbind result_bind]. destruct (public_bytes_law seed Hs) as [Hl _].
  rewrite (proj2 (did_from_public_bytes_Ok _ _) (conj Hl eq_refl)). cbn. by rewrite str_eqb_refl.
Qed.
Lemma vault_store_has t k ref seed pid v v' : reference_of t k = Ok ref →
  vault_steps v [LCaller; LStore t k (Some seed) true (Some pid) (Ok ())] v' → has pid ref seed v'.
Proof.
  intros Hr Hv. inversion Hv as [|? ? v1 ? ? H1 Hv1]; subst. inversion Hv1 as [|? ? v2 ? ? H2 Hv2]; subst.
  inversion Hv2; subst. cbn in H2. unfold vault_store in H2. apply eff_bind_Ok in H2 as (b & v2 & Hb & H2).
  injection Hb as Hb ->. cbn in Hb. destruct (secret_size seed); [|done]. injection Hb as ->.
  apply eff_bind_Ok in H2 as (r & v3 & Hr' & H2). injection Hr' as Hr' ->. assert (r = ref) as -> by congruence.
  apply eff_bind_Ok in H2 as (u & v4 & He & H2). injection H2 as <-.
  assert (shut v4 = false ∧ process v4 = pid) as [Hs Hp].
  { unfold enter_vault in He. destruct (pid =? process v3) eqn:E; apply pair_equal_spec in He as [He <-].
    - apply Z.eqb_eq in E. by destruct (shut v3).
    - cbn in *. by destruct (shut v3). }
  split; [by cbn; rewrite lookup_insert_eq|done].
Qed.

(** What generating does to a session. *)
Lemma generate_steps h w seed t k memory getpid key w1 :
  generate_in_store seed t k memory getpid w = (Ok key, w1) →
  key = key_of (public_of seed) ∧
  ∃ a w0, steps (h, w) [LCaller; LStore t k (Some seed) memory getpid (Ok ())] ({[a]} ∪ h, w1) ∧
    new_buffer seed w = (Ok a, w0).
Proof.
  intros (a & w0 & Hn & Hg)%eff_bind_Ok. unfold transfer_seed in Hg.
  destruct (store t k (Some a) memory getpid w0) as [[[]|e] w2] eqn:Es; [|by cbn in Hg; destruct (is_exception e)].
  cbn [generate_ed25519_key generate_ed25519_key_unsafe from_option] in Hg. apply pair_equal_spec in Hg as [Hk ->].
  split.
  - unfold capture, opaque in Hk. rewrite !except_raise_Ok in Hk. inv_ok. apply did_from_public_bytes_Ok in Hx as [_ ->].
    unfold make_did_key, validated_did_key_parts, capture in Hk. rewrite except_raise_Ok in Hk. inv_ok.
    rename select (resolve_did_key_unsafe _ = _) into Hd. apply resolve_did_key_inv in Hd as (_ & -> & _).
    apply bool_decide_eq_true in Hx1. congruence.
  - exists a, w0. split; [|done]. apply steps_cons with ({[a]} ∪ h, w0); [by econstructor|].
    assert (Some seed = given (Some a) w0) as ->.
    { injection Hn as <- <-. cbn. by rewrite lookup_insert_eq. }
    econstructor; [|constructor]. constructor; [|done]. intros ? [= <-]. set_solver.
Qed.

(** C33: A key that [generate_ed25519_key] put into a store signs for as long as its entry is
    left alone: after any session in the same process that neither stores nor deletes under
    its reference nor closes the store, [DidKey.sign] returns a signature that
    [verify_ed25519] accepts under the key's identifier, and leaves the vault as it was
    and no lease open that was not open before. *)
Theorem keys_in_custody_sign pid tr h w seed t k ref key w1 a tr' h' w' message :
  length seed = PUBLIC_KEY_BYTES →
  steps (∅, opened pid) tr (h, w) →
  generate_in_store seed t k true (Some pid) w = (Ok key, w1) →
  reference_of t k = Ok ref → (new_buffer seed w).1 = Ok a →
  steps ({[a]} ∪ h, w1) tr' (h', w') → forallb (leaves pid ref) tr' = true →
  Z.of_nat (length message) ≤ MAX_MESSAGE_BYTES →
  ∃ s w2, sign_in_store key (Some message) t k true (Some pid) w' = (Ok s, w2) ∧
    verify_ed25519 (PStr (did key)) (Some message) (Some s) = Ok true ∧
    sound h' w2 ∧ vault_of w2 = vault_of w' ∧
    ∀ m x, leases w2 !! m = Some x → lease_closed x = false → leases w' !! m = Some x.
Proof.
  intros Hseed Hs Hg Hr Ha Hs' Hl Hm. destruct (generate_steps h w seed t k true (Some pid) key w1 Hg) as (-> & a' & w0 & Hgs & Hn).
  rewrite Hn in Ha. injection Ha as ->. destruct (steps_sound _ _ _ Hs (opened_sound pid)) as [S _].
  destruct (steps_sound _ _ _ Hgs S) as [S1 Hv1]. destruct (steps_sound _ _ _ Hs' S1) as [S' Hv']. cbn [fst snd] in *.
  assert (has pid ref seed (vault_of w1)) as Hh by by eapply vault_store_has.
  pose proof (vault_steps_has _ _ _ _ _ _ Hv' Hl Hh) as Hh'.
  destruct (leased_bytes_spec h' w' t k ref pid seed S' Hr Hh') as (w2 & Hb & S2 & Ev & Hls).
  exists (sign_with seed message), w2. split_and!; [|by apply verify_signed|done..].
  unfold sign_in_store. cbn [validate_message]. rewrite (proj2 (Z.ltb_ge _ _) Hm). cbn [raise_if mbind result_bind].
  rewrite Hb. f_equal. by apply did_key_sign_Ok.
Qed.
End custody.

(** ** A session with a key store

    A key is stored, loaded, and the store is closed: the hypotheses of the theorems about
    key stores hold for it. *)

#[local] Notation tenant := (PStr (u "tenant-1")).
#[local] Notation key := (PStr (u "signing.key")).
#[local] Notation other := (PStr (u "other.key")).
#[local] Notation pid := 4711.

Definition address (r : py nat) : nat := match r with Ok a => a | Raise _ => 0%nat end.
Definition seed : pybytes := replicate 32 7.
#[local] Notation made := (new_buffer seed (opened pid)).
#[local] Notation buffer := (address made.1).
#[local] Notation stored := (store tenant key (Some buffer) true (Some pid) made.2).
#[local] Notation loaded := (load tenant key (Some pid) true (Some pid) stored.2).
#[local] Notation lease_of := (address loaded.1).
#[local] Notation deleted := (delete_key tenant key (Some pid) loaded.2).

Lemma session_stored : steps (∅, opened pid)
  [LCaller; LStore tenant key (Some seed) true (Some pid) (Ok ())] ({[buffer]} ∪ ∅, stored.2).
Proof.
  eapply steps_cons; [eapply (step_make _ _ seed); reflexivity|].
  eapply steps_cons; [|constructor]. change (Some seed) with (given (Some buffer) made.2).
  apply (step_store _ _ tenant key (Some buffer)); [by intros ? [= <-]; set_solver|vm_compute; reflexivity].
Qed.
Lemma session_after : steps ({[buffer]} ∪ ∅, loaded.2) [LDelete tenant key (Some pid) (Ok ())] ({[buffer]} ∪ ∅, deleted.2).
Proof. eapply steps_cons; [|constructor]. constructor. vm_compute. reflexivity. Qed.

Lemma key_store_refines_vault_witness :
  steps (∅, opened pid) [LCaller; LStore tenant key (Some seed) true (Some pid) (Ok ())] ({[buffer]} ∪ ∅, stored.2) ∧
  vault_steps (Vault ∅ false pid) [LCaller; LStore tenant key (Some seed) true (Some pid) (Ok ())] (vault_of stored.2).
Proof.
  split; [exact session_stored|].
  exact (key_store_refines_vault pid [LCaller; LStore tenant key (Some seed) true (Some pid) (Ok ())] ({[buffer]} ∪ ∅) stored.2 session_stored).
Defined.

Lemma secrets_have_owners_witness :
  steps (∅, opened pid) [LCaller; LStore tenant key (Some seed) true (Some pid) (Ok ())] ({[buffer]} ∪ ∅, stored.2) ∧
  (∀ a b, a ∉ (({[buffer]} ∪ ∅) : gset nat) → buffers (close_store (Some pid) stored.2) !! a = Some b → is_zero b).
Proof.
  split; [exact session_stored|]. intros a b. exact (proj1 (proj2 (proj2 (secrets_have_owners pid [LCaller; LStore tenant key (Some seed) true (Some pid) (Ok ())]
    ({[buffer]} ∪ ∅) stored.2 session_stored))) (Some pid) a b).
Defined.

(** The lease outlives the entry. *)
Lemma leases_keep_their_secret_witness :
  ∃ b, vault_load tenant key (Some pid) true (Some pid) (vault_of stored.2) = (Ok b, vault_of loaded.2) ∧
    copy_bytes lease_of (Some pid) true deleted.2 = (Ok b, deleted.2).
Proof.
  apply (leases_keep_their_secret pid [LCaller; LStore tenant key (Some seed) true (Some pid) (Ok ())] ({[buffer]} ∪ ∅) stored.2
    tenant key lease_of loaded.2 [LDelete tenant key (Some pid) (Ok ())] ({[buffer]} ∪ ∅) deleted.2).
  - exact session_stored.
  - vm_compute. reflexivity.
  - exact session_after.
  - reflexivity.
Defined.

(** ** Signing with the toy scheme *)
#[local] Existing Instance toy_ed25519.
#[local] Existing Instance toy_laws.
#[local] Notation generated := (generate_in_store seed tenant key true (Some pid) (opened pid)).
#[local] Notation key_made := (key_of (public_of seed)).
#[local] Notation absent := (delete_key tenant other (Some pid) generated.2).

Lemma session_absent : steps ({[buffer]} ∪ ∅, generated.2)
  [LDelete tenant other (Some pid) (Raise (KeyStoreError KeyNotFound))] ({[buffer]} ∪ ∅, absent.2).
Proof. eapply steps_cons; [|constructor]. constructor. vm_compute. reflexivity. Qed.

Lemma keys_in_custody_sign_witness :
  ∃ s w2, sign_in_store key_made (Some [1; 2; 3]) tenant key true (Some pid) absent.2 = (Ok s, w2) ∧
    verify_ed25519 (PStr (did key_made)) (Some [1; 2; 3]) (Some s) = Ok true ∧
    sound ({[buffer]} ∪ ∅) w2 ∧ vault_of w2 = vault_of absent.2 ∧
    ∀ m x, leases w2 !! m = Some x → lease_closed x = false → leases absent.2 !! m = Some x.
Proof.
  apply (keys_in_custody_sign pid [] ∅ (opened pid) seed tenant key (u "tenant-1", u "signing.key") key_made generated.2 buffer
    [LDelete tenant other (Some pid) (Raise (KeyStoreError KeyNotFound))] ({[buffer]} ∪ ∅) absent.2 [1; 2; 3]).
  - reflexivity.
  - constructor.
  - vm_compute. reflexivity.
  - vm_compute. reflexivity.
  - reflexivity.
  - exact session_absent.
  - vm_compute. reflexivity.
  - vm_compute. discriminate.
Defined.
