(* ===== verification/Oidc.v ===== *)
(** * OpenID Connect: configuration, tokens and keys

    Models the functions of [python/src/palonexus/identity/oidc.py] that hold no state: URLs
    and addresses, the configuration, bounded JSON, the segments of a token, key sets,
    signatures and the claims of an ID token.  The package [cryptography] enters as
    [OidcCrypto] and [Ed25519], the address registries of [ipaddress] as [IpData]. *)

From stdpp Require Import base list list_numbers numbers strings.
From Stdlib Require Import SpecFloat.
From S2P Require Import Prelude PyString Errors Timestamp PyValue Decimal Unicode PyFloat CanonicalJson JsonScan CanonicalPath PyUrl.
From S2P Require Import Retry Did Jwt Verifiable.
Open Scope Z_scope.

Definition SECURE_ALGORITHMS : list pystr := [u "RS256"; u "PS256"; u "ES256"; u "EdDSA"].
Definition OIDC_MAX_TOKEN_BYTES : Z := 65536.
Definition OIDC_MAX_SEGMENT_BYTES : Z := 49152.
Definition MAX_DOCUMENT_BYTES : Z := 1048576.
Definition MAX_KEYS : Z := 64.
Definition OIDC_MAX_JSON_DEPTH : Z := 16.
Definition OIDC_MAX_JSON_ITEMS : Z := 1024.
Definition MAX_STRING_BYTES : Z := 16384.
Definition P256_ORDER : Z := 0xFFFFFFFF00000000FFFFFFFFFFFFFFFFBCE6FAADA7179E84F3B9CAC2FC632551.

(** [_capture] and [_checked]: control flow passes, every other failure becomes the opaque
    one. *)
Definition oidc_capture {A} (operation : py A) : py A :=
  except_raise (λ e, negb (control_flow e)) OIDCVerificationFailed operation.

(** ** URLs and addresses *)

(** [ipaddress]: [None] is [ValueError]; [ipv4_mapped] is that of an IPv6 address. *)
Class IpData := {
  address : Type;
  ip_address : pystr → option address;
  ipv4_mapped : address → option address;
  is_global : address → bool;
  is_private : address → bool;
  is_loopback : address → bool;
  is_link_local : address → bool;
  is_multicast : address → bool;
  is_reserved : address → bool;
  is_unspecified : address → bool;
  address_text : address → pystr;
}.

(** The codec [idna] on text that is not ASCII: its ASCII form, [None] is [UnicodeError]. *)
Class IdnaCodec := { idna_codec : pystr → option pystr }.

(** [value.encode("idna").decode("ascii")]: the labels of ASCII text are only measured. *)
Definition encode_idna `{IdnaCodec} (value : pystr) : py pystr :=
  if forallb is_ascii value then
    let labels := split_on 46 value in
    raise_if (negb (bool_decide (value = []))
              && (negb (forallb (λ l, (0 <? length l)%nat && (length l <? 64)%nat) (take (length labels - 1) labels))
                  || (64 <=? length (default [] (last labels)))%nat)) ValueError;;
    Ok value
  else match idna_codec value with
       | Some encoded => raise_if (negb (forallb is_ascii encoded)) ValueError;; Ok encoded
       | None => Raise ValueError
       end.

(** [value.rstrip("/")] and [value.strip("[]")]. *)
Definition rstrip_slash (value : pystr) : pystr := rev (drop_while (λ c, c =? 47) (rev value)).
Definition strip_brackets (value : pystr) : pystr :=
  let bracket c := (c =? 91) || (c =? 93) in rev (drop_while bracket (rev (drop_while bracket value))).

(** The authority that a host and a port have. *)
Definition authority_of (host : pystr) (port : option Z) : pystr :=
  match port with
  | None => host
  | Some p => if p =? 443 then host else host ++ [58] ++ decimal p
  end.

Section urls.
Context `{UrlData} `{IdnaCodec} `{IpData}.

(** [_url]. *)
Definition oidc_url (value : pyval) (allowed_origins : option (list pystr)) : py pystr :=
  match value with
  | PStr s =>
      raise_if (2048 <? Z.of_nat (length s)) ValueError;;
      split ← urlsplit s;
      match hostname split with
      | None => Raise ValueError
      | Some name =>
          raise_if (negb (str_eqb (scheme split) (u "https")) || has_char 64 (netloc split)
                    || negb (bool_decide (query split = [])) || negb (bool_decide (fragment split = []))
                    || endswith (u ".") name || startswith (u "//") (path split)) ValueError;;
          port ← port split;
          encoded ← encode_idna name;
          let host := ascii_lower <$> encoded in
          raise_if (str_eqb host (u "localhost") || endswith (u ".localhost") host) ValueError;;
          raise_if (match ip_address (strip_brackets host) with Some a => negb (is_global a) | None => false end) ValueError;;
          let authority := authority_of host port in
          let canonical := urlunsplit (u "https") authority (path split) [] in
          raise_if (negb (str_eqb canonical (rstrip_slash s)) && negb (str_eqb (canonical ++ [47]) s)) ValueError;;
          let origin := u "https://" ++ authority in
          raise_if (match allowed_origins with Some l => negb (str_in origin l) | None => false end) ValueError;;
          Ok canonical
      end
  | _ => Raise ValueError
  end.

(** [_origin]. *)
Definition origin_of (value : pystr) : py pystr :=
  split ← urlsplit value;
  port ← port split;
  Ok (u "https://" ++ authority_of (default [] (hostname split)) port).

(** [_public_address]. *)
Definition public_address (value : pyval) : py pystr :=
  match value with
  | PStr s =>
      raise_if (64 <? Z.of_nat (length s)) ValueError;;
      match ip_address s with
      | Some a =>
          let a := default a (ipv4_mapped a) in
          raise_if (negb (is_global a) || is_private a || is_loopback a || is_link_local a || is_multicast a
                    || is_reserved a || is_unspecified a) ValueError;;
          Ok (address_text a)
      | None => Raise ValueError
      end
  | _ => Raise ValueError
  end.

(** [_validated_addresses] of a tuple or list. *)
Fixpoint collect_addresses (result : list pystr) (sequence : list pyval) : py (list pystr) :=
  match sequence with
  | [] => Ok result
  | value :: sequence =>
      a ← public_address value;
      collect_addresses (if str_in a result then result else result ++ [a]) sequence
  end.
Definition validated_addresses (addresses : pyval) : py (list pystr) :=
  match addresses with
  | PList sequence =>
      raise_if (bool_decide (sequence = []) || (32 <? Z.of_nat (length sequence))) ValueError;;
      result ← collect_addresses [] sequence;
      raise_if (bool_decide (result = [])) ValueError;;
      Ok result
  | _ => Raise ValueError
  end.

(** [_validated_peer]. *)
Definition validated_peer (peer approved_addresses : pyval) : py () :=
  approved ← validated_addresses approved_addresses;
  a ← public_address peer;
  raise_if (negb (str_in a approved)) ValueError.
End urls.

(** ** Configuration *)

(** [_string_tuple]; a tuple is a [PList]. *)
Fixpoint collect_strings (result : list pystr) (items : list pyval) : py (list pystr) :=
  match items with
  | [] => Ok result
  | PStr s :: items =>
      raise_if (bool_decide (s = [])) ValueError;;
      encoded ← match utf8_encode s with Some b => Ok b | None => Raise ValueError end;
      raise_if ((256 <? Z.of_nat (length encoded)) || negb (forallb (λ c, (33 <=? c) && (c <=? 126)) s) || str_in s result)
        ValueError;;
      collect_strings (result ++ [s]) items
  | _ :: _ => Raise ValueError
  end.
Definition string_tuple (value : pyval) (maximum : Z) : py (list pystr) :=
  match value with
  | PList items =>
      raise_if (bool_decide (items = []) || (maximum <? Z.of_nat (length items))) ValueError;;
      collect_strings [] items
  | _ => Raise ValueError
  end.

(** [OIDCVerifierConfig]. *)
Record oidc_config := OidcConfig {
  issuer : pystr;
  audiences : list pystr;
  client_id : pystr;
  algorithms : list pystr;
  discovery_url : pystr;
  jwks_url : option pystr;
  allowed_jwks_origins : list pystr;
  timeout_seconds : float;
  max_document_bytes : Z;
  cache_ttl_seconds : Z;
  leeway_seconds : Z;
  require_typ : bool;
  allowed_types : list pystr;
  allow_missing_kid : bool;
  refresh_cooldown_seconds : Z;
  failure_backoff_seconds : Z;
  max_unknown_rotation_delay_seconds : Z;
}.

(** [float(value)] of an [int] or a [float]. *)
Definition to_float (value : pyval) : py float :=
  match value with
  | PInt z => let f := of_int z in raise_if (negb (isfinite f)) OverflowError;; Ok f
  | PFloat f => Ok f
  | _ => Raise ValueError
  end.
(** An [int] in a range, and a [bool]. *)
Definition int_within (low high : Z) (value : pyval) : py Z :=
  match value with PInt z => raise_if (negb ((low <=? z) && (z <=? high))) ValueError;; Ok z | _ => Raise ValueError end.
Definition exact_bool (value : pyval) : py bool := match value with PBool b => Ok b | _ => Raise ValueError end.

(** [bool(value)] of what may be passed for [allowed_jwks_origins]. *)
Definition truth (value : pyval) : bool :=
  match value with
  | PNone | PBool false | PStr [] | PList [] | PDict [] => false
  | PInt z => negb (z =? 0)
  | PFloat (S754_zero _) => false
  | _ => true
  end.

Section config.
Context `{UrlData} `{IdnaCodec} `{IpData}.

(** [_validate_config]. *)
Definition validate_config (issuer audiences client_id algorithms discovery_url jwks_url allowed_jwks_origins : pyval)
    (timeout_seconds max_document_bytes cache_ttl_seconds leeway_seconds require_typ allowed_types : pyval)
    (allow_missing_kid refresh_cooldown_seconds failure_backoff_seconds max_unknown_rotation_delay_seconds : pyval)
    : py oidc_config :=
  normalized_issuer ← oidc_url issuer None;
  expected_audiences ← string_tuple audiences 16;
  expected_client_ids ← string_tuple (PList [client_id]) 16;
  expected_algorithms ← string_tuple algorithms 16;
  expected_types ← string_tuple allowed_types 16;
  raise_if (negb (forallb (λ a, str_in a SECURE_ALGORITHMS) expected_algorithms)) ValueError;;
  issuer_origin ← origin_of normalized_issuer;
  origins ← (if truth allowed_jwks_origins then string_tuple allowed_jwks_origins 16 else Ok []);
  normalized_origins ← sequence_py ((λ item, url ← oidc_url (PStr item) None; origin_of url) <$> origins);
  let permitted := issuer_origin :: normalized_origins in
  let derived_discovery := rstrip_slash normalized_issuer ++ u "/.well-known/openid-configuration" in
  normalized_discovery ←
    oidc_url (if decide (discovery_url = PNone) then PStr derived_discovery else discovery_url) (Some [issuer_origin]);
  normalized_jwks ← (if decide (jwks_url = PNone) then Ok None else Some <$> oidc_url jwks_url (Some permitted));
  normalized_timeout ← to_float timeout_seconds;
  raise_if (negb (isfinite normalized_timeout)
            || negb (fle (true_divide 5 100) normalized_timeout && fle normalized_timeout (of_int 30))) ValueError;;
  maximum ← int_within 1024 MAX_DOCUMENT_BYTES max_document_bytes;
  ttl ← int_within 1 86400 cache_ttl_seconds;
  leeway ← int_within 0 300 leeway_seconds;
  typ ← exact_bool require_typ;
  missing_kid ← exact_bool allow_missing_kid;
  cooldown ← int_within 1 3600 refresh_cooldown_seconds;
  backoff ← int_within 1 300 failure_backoff_seconds;
  delay ← int_within 1 3600 max_unknown_rotation_delay_seconds;
  Ok (OidcConfig normalized_issuer expected_audiences (default [] (head expected_client_ids)) expected_algorithms
        normalized_discovery normalized_jwks normalized_origins normalized_timeout maximum ttl leeway typ expected_types
        missing_kid cooldown backoff delay).

(** [OIDCVerifierConfig(...)]. *)
Definition make_config (issuer audiences client_id algorithms discovery_url jwks_url allowed_jwks_origins : pyval)
    (timeout_seconds max_document_bytes cache_ttl_seconds leeway_seconds require_typ allowed_types : pyval)
    (allow_missing_kid refresh_cooldown_seconds failure_backoff_seconds max_unknown_rotation_delay_seconds : pyval)
    : py oidc_config :=
  oidc_capture
    (validate_config issuer audiences client_id algorithms discovery_url jwks_url allowed_jwks_origins timeout_seconds
       max_document_bytes cache_ttl_seconds leeway_seconds require_typ allowed_types allow_missing_kid
       refresh_cooldown_seconds failure_backoff_seconds max_unknown_rotation_delay_seconds).
End config.

(** ** JSON *)

(** The hook [pairs] of [_json_object] is that of [vc.py]; numbers and constants are those
    of [json.loads]. *)
#[local] Instance oidc_hooks : JsonHooks := {|
  decode_error := ValueError;
  make_constant := λ f, Ok (PFloat f);
  make_number := jwt_number;
  make_object := reject_duplicates [];
|}.

(** [_bounded_json] with the counter: of a text, and of any value. *)
Definition bounded_text (s : pystr) (depth count : Z) : py Z :=
  let count := count + 1 in
  raise_if ((OIDC_MAX_JSON_DEPTH <? depth) || (OIDC_MAX_JSON_ITEMS <? count)) ValueError;;
  match utf8_encode s with
  | Some b => raise_if (MAX_STRING_BYTES <? Z.of_nat (length b)) ValueError;; Ok count
  | None => Raise ValueError
  end.
Fixpoint bounded_json (value : pyval) (depth count : Z) : py Z :=
  match value with
  | PStr s => bounded_text s depth count
  | _ =>
      let count := count + 1 in
      raise_if ((OIDC_MAX_JSON_DEPTH <? depth) || (OIDC_MAX_JSON_ITEMS <? count)) ValueError;;
      match value with
      | PList l =>
          (fix items l count :=
             match l with
             | [] => Ok count
             | item :: l => count ← bounded_json item (depth + 1) count; items l count
             end) l count
      | PDict d =>
          (fix members d count :=
             match d with
             | [] => Ok count
             | (name, item) :: d =>
                 count ← bounded_text name (depth + 1) count;
                 count ← bounded_json item (depth + 1) count;
                 members d count
             end) d count
      | PNone | PBool _ | PInt _ => Ok count
      | PFloat f => raise_if (negb (isfinite f)) ValueError;; Ok count
      | _ => Raise ValueError
      end
  end.

(** [_json_object]. *)
Definition json_object (raw : pybytes) : py (list (pystr * pyval)) :=
  text ← match utf8_decode raw with Some text => Ok text | None => Raise ValueError end;
  value ← json_loads text;
  bounded_json value 0 0;;
  match value with PDict d => Ok d | _ => Raise ValueError end.

(** ** Tokens *)

(** [_decode_segment]. *)
Definition decode_segment (value : pystr) : py pybytes :=
  raise_if (bool_decide (value = []) || (OIDC_MAX_SEGMENT_BYTES <? Z.of_nat (length value))) ValueError;;
  indices ← match mapM base64_index value with Some ds => Ok ds | None => Raise ValueError end;
  raw ← match octets indices with Some b => Ok b | None => Raise ValueError end;
  raise_if (negb (str_eqb (b64encode raw) value)) ValueError;;
  Ok raw.

(** [_parse_token]: the header, the claims, what is signed, and the signature. *)
Definition parse_token (token : pyval) : py (list (pystr * pyval) * list (pystr * pyval) * pybytes * pybytes) :=
  match token with
  | PStr t =>
      encoded ← match utf8_encode t with Some b => Ok b | None => Raise ValueError end;
      raise_if (OIDC_MAX_TOKEN_BYTES <? Z.of_nat (length encoded)) ValueError;;
      match split_on 46 t with
      | [header_part; claims_part; signature_part] =>
          header_raw ← decode_segment header_part;
          claims_raw ← decode_segment claims_part;
          signature ← decode_segment signature_part;
          header ← json_object header_raw;
          claims ← json_object claims_raw;
          Ok (header, claims, header_part ++ u "." ++ claims_part, signature)
      | _ => Raise ValueError
      end
  | _ => Raise ValueError
  end.

(** [_required_string]. *)
Definition required_string (value : list (pystr * pyval)) (name : string) : py pystr :=
  match opt_val (assoc (u name) value) with
  | PStr s => raise_if (bool_decide (s = []) || (256 <? Z.of_nat (length s))) ValueError;; Ok s
  | _ => Raise ValueError
  end.

(** ** Keys *)

(** [cryptography] beside Ed25519: the size of an RSA key from its exponent and modulus
    ([None] is [ValueError]), whether a point is on P-256, and whether a signature is that of
    a message. *)
Class OidcCrypto := {
  rsa_key_size : Z → Z → option Z;
  p256_point : Z → Z → bool;
  pkcs1_valid : Z → Z → pybytes → pybytes → bool;
  pss_valid : Z → Z → pybytes → pybytes → bool;
  ecdsa_valid : Z → Z → Z → Z → pybytes → bool;
}.

(** The objects of [cryptography], and [_Key]. *)
Inductive key_value := RSAKey (e n : Z) | ECKey (x y : Z) | EdKey (b : pybytes).
Record oidc_key := OidcKey { kid : option pystr; algorithm : pystr; value : key_value }.

(** [_jwk_bytes]. *)
Definition jwk_bytes (value : pyval) (maximum : Z) : py pybytes :=
  match value with
  | PStr s =>
      raw ← decode_segment s;
      raise_if (bool_decide (raw = []) || (maximum <? Z.of_nat (length raw))) ValueError;;
      Ok raw
  | _ => Raise ValueError
  end.

Definition RSA_ALGORITHMS : list pystr := [u "RS256"; u "PS256"].

Section keys.
Context `{Ed25519} `{OidcCrypto}.

(** [_public_key]. *)
Definition public_key_of (jwk : list (pystr * pyval)) (algorithm : pystr) : py key_value :=
  let get name := opt_val (assoc (u name) jwk) in
  let kty := get "kty"%string in
  if str_in algorithm RSA_ALGORITHMS && eq_lit kty "RSA" then
    n_bytes ← jwk_bytes (get "n"%string) 1024;
    e_bytes ← jwk_bytes (get "e"%string) 8;
    let n := int_from_bytes n_bytes in
    let e := int_from_bytes e_bytes in
    match rsa_key_size e n with
    | Some size => raise_if (size <? 2048) ValueError;; Ok (RSAKey e n)
    | None => Raise ValueError
    end
  else if str_eqb algorithm (u "ES256") && eq_lit kty "EC" && eq_lit (get "crv"%string) "P-256" then
    x_bytes ← jwk_bytes (get "x"%string) 32;
    y_bytes ← jwk_bytes (get "y"%string) 32;
    raise_if (negb (length x_bytes =? 32)%nat || negb (length y_bytes =? 32)%nat) ValueError;;
    let x := int_from_bytes x_bytes in
    let y := int_from_bytes y_bytes in
    raise_if (negb (p256_point x y)) ValueError;;
    Ok (ECKey x y)
  else if str_eqb algorithm (u "EdDSA") && eq_lit kty "OKP" && eq_lit (get "crv"%string) "Ed25519" then
    b ← jwk_bytes (get "x"%string) 32;
    raise_if (negb (public_accepted b)) ValueError;;
    Ok (EdKey b)
  else Raise ValueError.

(** The algorithms of [allowed] that a key type has. *)
Definition compatible (allowed : list pystr) (kty : pyval) : list pystr :=
  filter (λ candidate, str_in candidate RSA_ALGORITHMS && eq_lit kty "RSA"
                       || str_eqb candidate (u "ES256") && eq_lit kty "EC"
                       || str_eqb candidate (u "EdDSA") && eq_lit kty "OKP" = true) allowed.

Definition has_any {A} (names : list string) (d : list (pystr * A)) : bool :=
  existsb (λ name, bool_decide (u name ∈ d.*1)) names.

(** The body of the loop of [_parse_jwks]: the keys that an entry adds, or [None] where the
    loop continues with the next one. *)
Definition parse_jwk (allowed eligible_kids : list pystr) (raw : pyval) : py (option (option pystr * list oidc_key)) :=
  match raw with
  | PDict jwk =>
      let get name := opt_val (assoc (u name) jwk) in
      raise_if (has_any ["jku"; "x5u"; "x5c"; "x5t"; "x5t#S256"]%string jwk) ValueError;;
      let use := get "use"%string in
      if negb (bool_decide (use = PNone)) && negb (eq_lit use "sig") then Ok None
      else
        let alg := get "alg"%string in
        if negb (bool_decide (alg = PNone))
           && negb match alg with PStr a => str_in a allowed | _ => false end then Ok None
        else
          let compatible := compatible allowed (get "kty"%string) in
          let selected := match alg with PStr a => [a] | _ => compatible end in
          if bool_decide (alg = PNone) && bool_decide (compatible = []) then Ok None
          else
            let operations := get "key_ops"%string in
            if negb (bool_decide (operations = PNone)) && negb (py_eqb operations (PList [PStr (u "verify")])) then Ok None
            else
              key_id ← (if bool_decide (get "kid"%string = PNone) then Ok None else Some <$> required_string jwk "kid");
              raise_if (match key_id with Some k => str_in k eligible_kids | None => false end
                        || has_any ["d"; "p"; "q"; "dp"; "dq"; "qi"; "oth"; "k"]%string jwk) ValueError;;
              keys ← sequence_py ((λ a, v ← public_key_of jwk a; Ok (OidcKey key_id a v)) <$> selected);
              Ok (Some (key_id, keys))
  | _ => Raise ValueError
  end.
Fixpoint parse_jwk_list (allowed eligible_kids : list pystr) (result : list oidc_key) (values : list pyval)
    : py (list oidc_key) :=
  match values with
  | [] => Ok result
  | raw :: values =>
      parsed ← parse_jwk allowed eligible_kids raw;
      match parsed with
      | None => parse_jwk_list allowed eligible_kids result values
      | Some (key_id, keys) =>
          parse_jwk_list allowed (option_list key_id ++ eligible_kids) (result ++ keys) values
      end
  end.

(** [_parse_jwks]. *)
Definition parse_jwks (document : list (pystr * pyval)) (allowed : list pystr) : py (list oidc_key) :=
  match opt_val (assoc (u "keys") document) with
  | PList values =>
      raise_if (bool_decide (values = []) || (MAX_KEYS <? Z.of_nat (length values))) ValueError;;
      result ← parse_jwk_list allowed [] [] values;
      raise_if (bool_decide (result = [])) ValueError;;
      Ok result
  | _ => Raise ValueError
  end.

(** [_verify_signature]; a key whose value does not fit its algorithm is never made. *)
Definition verify_signature (key : oidc_key) (signed signature : pybytes) : py () :=
  if str_eqb (algorithm key) (u "RS256") then
    match value key with
    | RSAKey e n => raise_if (negb (pkcs1_valid e n signature signed)) InvalidSignature
    | _ => Raise AttributeError
    end
  else if str_eqb (algorithm key) (u "PS256") then
    match value key with
    | RSAKey e n => raise_if (negb (pss_valid e n signature signed)) InvalidSignature
    | _ => Raise AttributeError
    end
  else if str_eqb (algorithm key) (u "ES256") then
    raise_if (negb (length signature =? 64)%nat) InvalidSignature;;
    let r := int_from_bytes (take 32 signature) in
    let s := int_from_bytes (drop 32 signature) in
    raise_if (negb ((1 <=? r) && (r <? P256_ORDER)) || negb ((1 <=? s) && (s <=? P256_ORDER / 2))) InvalidSignature;;
    match value key with
    | ECKey x y => raise_if (negb (ecdsa_valid x y r s signed)) InvalidSignature
    | _ => Raise AttributeError
    end
  else if str_eqb (algorithm key) (u "EdDSA") then
    match value key with
    | EdKey b => raise_if (negb (signature_valid b signature signed)) InvalidSignature
    | _ => Raise AttributeError
    end
  else Raise ValueError.
End keys.

(** [_select_key]: the only candidate.  A key object is a key with its identity. *)
Abbreviation key_object := (nat * oidc_key)%type.
Definition is_candidate (key_id : option pystr) (alg : pystr) (key : oidc_key) : bool :=
  str_eqb (algorithm key) alg && match key_id with None => true | Some _ => bool_decide (kid key = key_id) end.
Definition select_key (keys : list key_object) (key_id : option pystr) (alg : pystr) : option key_object :=
  match filter (λ k, is_candidate key_id alg k.2 = true) keys with
  | [k] => Some k
  | _ => None
  end.

(** ** Claims *)

(** What the clock gives: a [datetime] or something else. *)
Inductive clock_value := CDatetime (m : moment) | COther.

(** [_trusted_now], in microseconds since the epoch. *)
Definition oidc_now (clock : py clock_value) : py Z :=
  value ← clock;
  match value with
  | CDatetime m => match utcoffset m with Some offset => utc_microseconds m offset | None => Raise ValueError end
  | COther => Raise ValueError
  end.

(** [_numeric_date]. *)
Definition numeric_date (claims : list (pystr * pyval)) (name : string) : py Z :=
  match opt_val (assoc (u name) claims) with
  | PInt z => raise_if (z <? 0) ValueError;; Ok z
  | _ => Raise ValueError
  end.

(** [int(now.timestamp())]. *)
Definition whole_timestamp (now : Z) : Z := (float_parts (true_divide now 1000000)).1.1.

(** [VerifiedOIDCIdentity]; times are seconds since the epoch. *)
Record oidc_identity := OidcIdentity {
  id_issuer : pystr;
  id_subject : pystr;
  id_audiences : list pystr;
  id_authorized_party : option pystr;
  id_nonce : option pystr;
  id_token_id : option pystr;
  id_issued_at : Z;
  id_expires_at : Z;
  id_claims : frozen;
}.

(** [VerifiedOIDCIdentity.claims]. *)
Definition oidc_claims (i : oidc_identity) : py (list (pystr * pyval)) :=
  match thaw_json (id_claims i) with PDict d => Ok d | _ => Raise OIDCVerificationFailed end.

(** A claim that is a [str] or [None]. *)
Definition text_or_none (v : pyval) : py (option pystr) :=
  match v with PNone => Ok None | PStr s => Ok (Some s) | _ => Raise ValueError end.

(** The parts of [_validate_claims]: the audiences, the authorized party, the times, the
    nonce and the identifier. *)
Definition validate_audiences (claims : list (pystr * pyval)) (config : oidc_config) : py (list pystr) :=
  found ← match opt_val (assoc (u "aud") claims) with
          | PStr s => Ok [s]
          | PList l => string_tuple (PList l) 16
          | _ => Raise ValueError
          end;
  raise_if (negb (str_in (client_id config) found) || negb (existsb (λ a, str_in a (audiences config)) found)) ValueError;;
  Ok found.
Definition validate_authorized_party (claims : list (pystr * pyval)) (config : oidc_config) (found : list pystr)
    : py (option pystr) :=
  let azp := opt_val (assoc (u "azp") claims) in
  if (1 <? length found)%nat || negb (bool_decide (azp = PNone)) then
    match azp with
    | PStr s => raise_if (negb (str_eqb s (client_id config))) ValueError;; Ok (Some s)
    | _ => Raise ValueError
    end
  else Ok None.
Definition validate_times (claims : list (pystr * pyval)) (config : oidc_config) (now : Z) : py (Z * Z) :=
  exp ← numeric_date claims "exp";
  issued ← numeric_date claims "iat";
  nbf ← numeric_date claims "nbf";
  let current := whole_timestamp now in
  raise_if ((exp + leeway_seconds config <=? current) || (current + leeway_seconds config <? nbf)
            || (current + leeway_seconds config <? issued)) ValueError;;
  Ok (issued, exp).
Definition validate_nonce (claims : list (pystr * pyval)) (expected_nonce : pyval) : py (option pystr) :=
  let nonce := opt_val (assoc (u "nonce") claims) in
  match expected_nonce with
  | PNone => text_or_none nonce
  | PStr s =>
      raise_if (bool_decide (s = []) || (256 <? Z.of_nat (length s)) || negb (py_eqb nonce (PStr s))) ValueError;;
      Ok (Some s)
  | _ => Raise ValueError
  end.
Definition validate_token_id (claims : list (pystr * pyval)) : py (option pystr) :=
  jti ← text_or_none (opt_val (assoc (u "jti") claims));
  raise_if (match jti with Some s => bool_decide (s = []) || (256 <? Z.of_nat (length s)) | None => false end) ValueError;;
  Ok jti.

(** [_validate_claims]. *)
Definition validate_claims (claims : list (pystr * pyval)) (config : oidc_config) (now : Z) (expected_nonce : pyval)
    : py oidc_identity :=
  token_issuer ← required_string claims "iss";
  subject ← required_string claims "sub";
  raise_if (negb (str_eqb token_issuer (issuer config))) ValueError;;
  found ← validate_audiences claims config;
  azp ← validate_authorized_party claims config found;
  '(issued, exp) ← validate_times claims config now;
  nonce ← validate_nonce claims expected_nonce;
  jti ← validate_token_id claims;
  in_calendar (issued * 1000000);;
  in_calendar (exp * 1000000);;
  Ok (OidcIdentity token_issuer subject found azp nonce jti issued exp (freeze_json (PDict claims))).
