(* ===== verification/OidcVerifier.v ===== *)
(** * The OpenID Connect verifier

    Models [OIDCVerifier] of [python/src/palonexus/identity/oidc.py]: the cache of keys with
    its two lanes of forced refreshes, the backoff after a failure, the negative entries, and
    verification.  A call of [_key] holds the lock and is atomic; what other threads do
    between two calls of a verification is an argument. *)

From stdpp Require Import base list list_numbers numbers strings.
From Stdlib Require Import SpecFloat.
From S2P Require Import Prelude PyString Errors Timestamp PyValue PyFloat PyUrl Retry Did Jwt Verifiable Effects Oidc.
Open Scope Z_scope.

Definition MAX_NEGATIVE_CACHE : nat := 128.

(** [_Cache]; times are microseconds since the epoch. *)
Record key_cache := KeyCache { cached_keys : list key_object; cache_expires_at : Z; generation : Z }.

(** The key of a negative entry. *)
Definition negative_key : Type := pystr * pystr * Z.

(** [OIDCVerifier]; [objects] is the number of key objects that were made. *)
Record verifier := Verifier {
  cache : option key_cache;
  negative : list (negative_key * Z);
  forced_refresh_until : list (pystr * Z);
  refresh_backoff_until : option Z;
  verifier_closed : bool;
  objects : nat;
}.
Definition new_verifier : verifier := Verifier None [] [] None false 0.
Definition set_cache (c : option key_cache) (n : nat) (v : verifier) : verifier :=
  Verifier c (negative v) (forced_refresh_until v) (refresh_backoff_until v) (verifier_closed v) n.
Definition set_negative (l : list (negative_key * Z)) (v : verifier) : verifier :=
  Verifier (cache v) l (forced_refresh_until v) (refresh_backoff_until v) (verifier_closed v) (objects v).
Definition set_forced (l : list (pystr * Z)) (v : verifier) : verifier :=
  Verifier (cache v) (negative v) l (refresh_backoff_until v) (verifier_closed v) (objects v).
Definition set_backoff (t : Z) (v : verifier) : verifier :=
  Verifier (cache v) (negative v) (forced_refresh_until v) (Some t) (verifier_closed v) (objects v).

(** [now + timedelta(seconds=seconds)]. *)
Definition plus_seconds (now seconds : Z) : py Z :=
  let t := now + seconds * 1000000 in
  raise_if ((MAX_TIMESTAMP + 1) * 1000000 <=? t) OverflowError;; Ok t.

(** [self._fetcher.fetch_json]: the object that a URL gives. *)
Definition fetcher : Type := pystr → Z → py (list (pystr * pyval)).

(** [_record_negative]. *)
Fixpoint evict (l : list (negative_key * Z)) : list (negative_key * Z) :=
  match l with
  | [] => []
  | _ :: l' => if (MAX_NEGATIVE_CACHE <=? length l)%nat then evict l' else l
  end.
Definition record_negative (config : oidc_config) (key : negative_key) (now : Z) : eff verifier () :=
  update (λ v, set_negative (filter (λ p, (p.2 <=? now) = false) (negative v)) v);;
  update (λ v, set_negative (evict (filter (λ p, p.1 ≠ key) (negative v))) v);;
  until ← run (plus_seconds now (refresh_cooldown_seconds config));
  update (λ v, set_negative (negative v ++ [(key, until)]) v).

(** The key objects of a refresh. *)
Definition fresh_objects (n : nat) (keys : list oidc_key) : list key_object := zip (seq n (length keys)) keys.

Section verifier.
Context `{UrlData} `{IdnaCodec} `{IpData} `{Ed25519} `{OidcCrypto}.
Implicit Types (config : oidc_config) (fetch : fetcher).

(** [_refresh]. *)
Definition refresh config fetch : py (list oidc_key) :=
  discovery ← fetch (discovery_url config) (max_document_bytes config);
  raise_if (negb (py_eqb (opt_val (assoc (u "issuer") discovery)) (PStr (issuer config)))) ValueError;;
  issuer_origin ← origin_of (issuer config);
  discovered_jwks ← oidc_url (opt_val (assoc (u "jwks_uri") discovery)) (Some (issuer_origin :: allowed_jwks_origins config));
  raise_if (match jwks_url config with Some url => negb (str_eqb discovered_jwks url) | None => false end) ValueError;;
  document ← fetch (default discovered_jwks (jwks_url config)) (max_document_bytes config);
  parse_jwks document (algorithms config).

(** [_key] up to the refresh: the answer, or the negative entry with which to refresh. *)
Inductive consulted := Answer (k : option key_object) | Renew (negative_key : negative_key) (generation : Z).
Definition before (now : Z) (t : option Z) : bool := match t with Some t => now <? t | None => false end.
Definition consult (now : Z) (key_id : option pystr) (alg : pystr) (force : bool) (rejected : option key_object)
    (reason : pystr) (v : verifier) : py consulted :=
  raise_if (verifier_closed v) ValueError;;
  let current := cache v in
  let is_current := before now (cache_expires_at <$> current) in
  let selected := current ≫= λ c, select_key (cached_keys c) key_id alg in
  if negb force && is_current then Ok (Answer selected)
  else if force && is_current && negb (bool_decide (selected = None))
          && negb (bool_decide (fst <$> selected = fst <$> rejected)) then Ok (Answer selected)
  else
    let key := (reason, default (u "[missing]") key_id, default 0 (generation <$> current)) in
    let negative_until := snd <$> find (λ p, bool_decide (p.1 = key)) (negative v) in
    if force && (before now negative_until || before now (assoc reason (forced_refresh_until v))) then Ok (Answer selected)
    else if before now (refresh_backoff_until v) then Raise ValueError
    else Ok (Renew key (default 0 (generation <$> current) + 1)).

(** The refresh that failed, and the one that returned the keys. *)
Definition refresh_failed config (now : Z) (force : bool) (key : negative_key) (e : exn) : eff verifier (option key_object) :=
  until ← run (plus_seconds now (failure_backoff_seconds config));
  update (set_backoff until);;
  (if force then record_negative config key now else mret ());;
  raising e.
Definition refresh_returned config (now : Z) (force : bool) (reason : pystr) (key : negative_key) (next : Z) (keys : list oidc_key)
    (key_id : option pystr) (alg : pystr) : eff verifier (option key_object) :=
  until ← run (plus_seconds now (Z.min (cache_ttl_seconds config) (max_unknown_rotation_delay_seconds config)));
  made ← reading (λ v, fresh_objects (objects v) keys);
  update (λ v, set_cache (Some (KeyCache made until next)) (objects v + length keys) v);;
  (if force then
     record_negative config key now;;
     retry ← run (plus_seconds now (refresh_cooldown_seconds config));
     update (λ v, set_forced (assoc_set reason retry (forced_refresh_until v)) v)
   else mret ());;
  mret (select_key made key_id alg).

(** What a call of [_key] meets: the clock and the fetcher. *)
Record observation := Observation { clock : py clock_value; fetch : fetcher }.

(** [_key]. *)
Definition find_key config (o : observation) (key_id : option pystr) (alg : pystr) (force : bool) (rejected : option key_object)
    (reason : pystr) : eff verifier (option key_object) :=
  now ← run (oidc_now (clock o));
  found ← (λ v, (consult now key_id alg force rejected reason v, v));
  match found with
  | Answer k => mret k
  | Renew key next =>
      match refresh config (fetch o) with
      | Ok keys => refresh_returned config now force reason key next keys key_id alg
      | Raise e => refresh_failed config now force key e
      end
  end.

(** [_close]; [closing] is what [self._fetcher.close()] does. *)
Definition close_verifier (closing : py ()) : eff verifier () := λ v,
  if verifier_closed v then (Ok (), v)
  else (closing, Verifier None [] [] (refresh_backoff_until v) true (objects v)).

(** ** Verification *)

(** The header: the key identifier and the algorithm. *)
Definition CLOSED_HEADERS : list string := ["jku"; "x5u"; "x5c"; "x5t"; "x5t#S256"; "jwk"; "crit"; "b64"]%string.
Definition validate_header config (header : list (pystr * pyval)) : py (option pystr * pystr) :=
  alg ← required_string header "alg";
  key_id ← (if bool_decide (u "kid" ∈ header.*1) then Some <$> required_string header "kid"
            else raise_if (negb (allow_missing_kid config)) ValueError;; Ok None);
  match opt_val (assoc (u "typ") header) with
  | PNone => raise_if (require_typ config) ValueError
  | PStr typ => raise_if (negb (str_in typ (allowed_types config))) ValueError
  | _ => Raise ValueError
  end;;
  raise_if (negb (str_in alg (algorithms config)) || has_any CLOSED_HEADERS header) ValueError;;
  Ok (key_id, alg).

(** What a verification meets: at its calls of [_key], before them in other threads, and
    at the end. *)
Record surroundings := Surroundings {
  seen : nat → observation;
  others : nat → verifier → verifier;
  last_clock : py clock_value;
}.
Definition ask config (s : surroundings) (i : nat) (key_id : option pystr) (alg : pystr) (force : bool) (rejected : option key_object)
    (reason : pystr) : eff verifier (option key_object) :=
  update (others s i);;
  find_key config (seen s i) key_id alg force rejected reason.

(** [key is None or key.algorithm != algorithm]. *)
Definition usable (alg : pystr) (k : option key_object) : option key_object :=
  match k with Some k => if str_eqb (algorithm k.2) alg then Some k else None | None => None end.

(** The key whose signature is accepted. *)
Definition verify_with config (s : surroundings) (key_id : option pystr) (alg : pystr) (signed signature : pybytes)
    : eff verifier oidc_key :=
  first ← ask config s 0 key_id alg false None [];
  second ← match usable alg first with
           | Some _ => mret first
           | None => ask config s 1 key_id alg true None (u "unknown")
           end;
  match usable alg second with
  | None => raising ValueError
  | Some key =>
      match verify_signature key.2 signed signature with
      | Ok () => mret key.2
      | Raise InvalidSignature =>
          third ← ask config s 2 key_id alg true (Some key) (u "signature");
          match usable alg third with
          | None => raising InvalidSignature
          | Some key => run (verify_signature key.2 signed signature);; mret key.2
          end
      | Raise e => raising e
      end
  end.

(** [_verify] and [verify]. *)
Definition verify_unsafe config (s : surroundings) (token expected_nonce : pyval) : eff verifier oidc_identity :=
  closed ← reading verifier_closed;
  run (raise_if closed ValueError);;
  parsed ← run (parse_token token);
  let '(header, claims, signed, signature) := parsed in
  required ← run (validate_header config header);
  verify_with config s required.1 required.2 signed signature;;
  now ← run (oidc_now (last_clock s));
  run (validate_claims claims config now expected_nonce).
Definition verify config (s : surroundings) (token expected_nonce : pyval) : eff verifier oidc_identity := λ v,
  let '(result, v) := verify_unsafe config s token expected_nonce v in (oidc_capture result, v).
End verifier.
