(* ===== verification/OidcFacts.v ===== *)
(** * What the OpenID Connect verifier promises

    Identities come from tokens that a key of the configured issuer signed; refreshes are
    bounded in every window; keys in the cache do not need the issuer; and failures are
    opaque. *)

From stdpp Require Import base list list_numbers numbers strings relations.
From Stdlib Require Import SpecFloat.
From S2P Require Import Prelude PyString Errors Timestamp PyValue PyFloat Unicode CanonicalJson JsonRoundTrip CanonicalPath PyUrl Retry Calm Did.
From S2P Require Import Jwt Verifiable Effects Oidc OidcVerifier.
Open Scope Z_scope.

Section facts.
Context `{UrlData} `{IdnaCodec} `{IpData} `{Ed25519} `{OidcCrypto}.
Implicit Types (config : oidc_config) (f : fetcher) (v w : verifier).

(** ** Key sets *)

Lemma select_key_Some keys key_id alg k : select_key keys key_id alg = Some k →
  k ∈ keys ∧ is_candidate key_id alg k.2 = true ∧ ∀ k', k' ∈ keys → is_candidate key_id alg k'.2 = true → k' = k.
Proof.
  unfold select_key. destruct (filter _ keys) as [|k0 [|]] eqn:E; try done. intros [= ->].
  assert (∀ k', k' ∈ keys ∧ is_candidate key_id alg k'.2 = true ↔ k' = k) as Hk.
  { intros k'. pose proof (list_elem_of_filter (λ k, is_candidate key_id alg k.2 = true) keys k') as Hf.
    rewrite E, list_elem_of_singleton in Hf. tauto. }
  destruct (proj2 (Hk k) eq_refl). split_and!; [done..|]. intros k' ? ?. by apply Hk.
Qed.
Lemma is_candidate_iff key_id alg k : is_candidate key_id alg k = true ↔
  algorithm k = alg ∧ (∀ i, key_id = Some i → kid k = Some i).
Proof.
  unfold is_candidate. rewrite andb_true_iff, str_eqb_eq. destruct key_id as [i|]; [rewrite bool_decide_eq_true|]; naive_solver.
Qed.

(** The keys that a document gives fit the algorithms and name their entries. *)
Lemma public_key_of_fits jwk alg k : public_key_of jwk alg = Ok k →
  match k with
  | RSAKey e n => alg ∈ RSA_ALGORITHMS ∧ ∃ size, rsa_key_size e n = Some size ∧ 2048 ≤ size
  | ECKey x y => alg = u "ES256" ∧ p256_point x y = true
  | EdKey b => alg = u "EdDSA" ∧ public_accepted b = true
  end.
Proof.
  unfold public_key_of. destruct (str_in alg RSA_ALGORITHMS && _) eqn:E1.
  { apply andb_true_iff in E1 as [E1 _]. unfold str_in in E1. refl_bool. intros Hk. inv_ok.
    destruct (rsa_key_size _ _) as [size|] eqn:Es; [|done]. inv_ok. refl_bool. split; [done|]. eauto. }
  destruct (_ && _ && _) eqn:E2.
  { apply andb_true_iff in E2 as [[E2 _]%andb_true_iff _]. apply str_eqb_eq in E2. intros Hk. inv_ok. done. }
  destruct (_ && _ && _) eqn:E3 in |- *; [|done].
  apply andb_true_iff in E3 as [[E3 _]%andb_true_iff _]. apply str_eqb_eq in E3. intros Hk. inv_ok. done.
Qed.

Definition key_fits (allowed : list pystr) (k : oidc_key) : Prop :=
  algorithm k ∈ allowed ∧
  match value k with
  | RSAKey e n => algorithm k ∈ RSA_ALGORITHMS ∧ ∃ size, rsa_key_size e n = Some size ∧ 2048 ≤ size
  | ECKey x y => algorithm k = u "ES256" ∧ p256_point x y = true
  | EdKey b => algorithm k = u "EdDSA" ∧ public_accepted b = true
  end.

Lemma parse_jwk_fits allowed kids raw i ks : parse_jwk allowed kids raw = Ok (Some (i, ks)) →
  Forall (λ k, key_fits allowed k ∧ kid k = i) ks ∧ (∀ k, i = Some k → k ∉ kids).
Proof.
  unfold parse_jwk. destruct raw as [| | | | | | | |jwk]; try done. intros Hp. inv_ok.
  destruct (negb _ && negb (eq_lit _ _)); [done|]. set (alg := opt_val (assoc (u "alg") jwk)) in *.
  destruct (negb (bool_decide (alg = PNone)) && _) eqn:Ea; [done|]. set (c := compatible _ _) in *.
  destruct (bool_decide (alg = PNone) && _); [done|]. destruct (negb _ && negb (py_eqb _ _)); [done|]. inv_ok.
  split.
  - assert (∀ a, a ∈ match alg with PStr a => [a] | _ => c end → a ∈ allowed) as Hin.
    { intros a. destruct alg as [| | | | | |b| |]; try by intros [_ Ha]%list_elem_of_filter.
      intros ->%list_elem_of_singleton. cbn in Ea. apply negb_false_iff in Ea. unfold str_in in Ea. by refl_bool. }
    apply sequence_py_Forall2 in Hx2. rewrite Forall2_fmap_l in Hx2. revert Hin. induction Hx2 as [|a k l ks Hk _ IH]; intros Hin; constructor.
    + apply bind_Ok_iff in Hk as (v & Hv & [= <-]). cbn. split; [|done]. split; [by apply Hin; left|]. by apply public_key_of_fits in Hv.
    + apply IH. intros a' Ha'. apply Hin. by right.
  - intros k ->. unfold str_in in Hx1. by refl_bool.
Qed.

Lemma parse_jwk_list_fits allowed kids result values ks : parse_jwk_list allowed kids result values = Ok ks →
  Forall (key_fits allowed) result → Forall (key_fits allowed) ks.
Proof.
  revert kids result. induction values as [|raw values IH]; intros kids result; cbn [parse_jwk_list]; [by intros [= ->]|].
  intros Hp Hr. apply bind_Ok_iff in Hp as ([[i new]|] & Hj & Hp); [|by eapply IH]. apply parse_jwk_fits in Hj as [Hf _].
  eapply IH; [done|]. apply Forall_app. split; [done|]. eapply Forall_impl; [exact Hf|]. by intros ? [? _].
Qed.
Lemma parse_jwks_fits document allowed ks : parse_jwks document allowed = Ok ks → ks ≠ [] ∧ Forall (key_fits allowed) ks.
Proof.
  unfold parse_jwks. destruct (opt_val _) as [| | | | | | |values|]; try done. intros Hp. inv_ok. refl_bool.
  split; [done|]. by eapply parse_jwk_list_fits.
Qed.

(** A refresh trusts the discovery document of the issuer and a key set of its origins. *)
Definition trusted_keys config f (keys : list oidc_key) : Prop :=
  ∃ discovery issuer_origin uri url document,
    f (discovery_url config) (max_document_bytes config) = Ok discovery ∧
    assoc (u "issuer") discovery = Some (PStr (issuer config)) ∧
    origin_of (issuer config) = Ok issuer_origin ∧
    assoc (u "jwks_uri") discovery = Some (PStr uri) ∧
    oidc_url (PStr uri) (Some (issuer_origin :: allowed_jwks_origins config)) = Ok url ∧
    (∀ expected, jwks_url config = Some expected → url = expected) ∧
    f url (max_document_bytes config) = Ok document ∧
    parse_jwks document (algorithms config) = Ok keys.

Lemma refresh_trusted config f keys : refresh config f = Ok keys → trusted_keys config f keys.
Proof.
  unfold refresh. intros Hr. inv_ok. rename x into discovery.
  assert (assoc (u "issuer") discovery = Some (PStr (issuer config))) as Hi.
  { rename select (py_eqb _ _ = true) into E. apply py_eqb_str in E. by destruct (assoc (u "issuer") discovery) as [d|]; cbn in E; subst. }
  assert (∃ uri, assoc (u "jwks_uri") discovery = Some (PStr uri)) as [uri Hu].
  { rename select (oidc_url _ _ = Ok _) into E. destruct (assoc (u "jwks_uri") discovery) as [[]|]; cbn in E; try done. eauto. }
  rewrite Hu in *. cbn [opt_val default from_option] in *.
  destruct (jwks_url config) as [expected|] eqn:Ej; cbn [default from_option] in *; inv_ok.
  - apply str_eqb_eq in Hx3 as ->. exists discovery, x1, uri, expected, x4. rewrite Ej. split_and!; try done. by intros ? [= ->].
  - exists discovery, x1, uri, x2, x4. rewrite Ej. by split_and!.
Qed.

(** ** The cache *)

(** The steps of a verifier; [served] are the fetchers that it meets. *)
Inductive vstep config (served : fetcher → Prop) : verifier → verifier → Prop :=
| vstep_key o key_id alg force rejected reason v : served (fetch o) →
    vstep config served v (find_key config o key_id alg force rejected reason v).2
| vstep_close closing v : vstep config served v (close_verifier closing v).2.

(** Every cached key is from a key set that a refresh trusted; the negative entries are
    bounded. *)
Record cached config (served : fetcher → Prop) v : Prop := {
  cache_trusted c : cache v = Some c → ∃ f, served f ∧ trusted_keys config f (snd <$> cached_keys c);
  negative_bounded : (length (negative v) ≤ MAX_NEGATIVE_CACHE)%nat;
}.

Lemma evict_length l : (length (evict l) < MAX_NEGATIVE_CACHE)%nat.
Proof.
  induction l as [|p l IH]; [cbn; unfold MAX_NEGATIVE_CACHE; lia|]. cbn [evict]. destruct (_ <=? _)%nat eqn:E; [done|].
  by apply Nat.leb_gt in E.
Qed.
Lemma record_negative_spec config key now v : let '(r, w) := record_negative config key now v in
  cache w = cache v ∧ forced_refresh_until w = forced_refresh_until v ∧ refresh_backoff_until w = refresh_backoff_until v ∧
  verifier_closed w = verifier_closed v ∧ (length (negative w) ≤ MAX_NEGATIVE_CACHE)%nat ∧
  is_Ok r = is_Ok (plus_seconds now (refresh_cooldown_seconds config)).
Proof.
  unfold record_negative, mbind, eff_bind, update, run. set (l := filter _ (negative v)).
  pose proof (evict_length (filter (λ p, p.1 ≠ key) l)) as Hl.
  destruct (plus_seconds now _) as [t|e]; cbn; split_and!; try done; [|lia].
  rewrite length_app. cbn. lia.
Qed.
Lemma fresh_objects_values n keys : snd <$> fresh_objects n keys = keys.
Proof. unfold fresh_objects. apply snd_zip. by rewrite length_seq. Qed.

Lemma cached_same config served v w : cached config served v → cache w = cache v → (length (negative w) ≤ MAX_NEGATIVE_CACHE)%nat →
  cached config served w.
Proof. intros [Hc _] E Hl. split; [by rewrite E|done]. Qed.

Lemma find_key_cached config served o key_id alg force rejected reason v : served (fetch o) → cached config served v →
  cached config served (find_key config o key_id alg force rejected reason v).2.
Proof.
  intros Hs [Hc Hn]. unfold find_key, mbind, eff_bind, run. destruct (oidc_now (clock o)) as [now|e]; [|done].
  destruct (consult now key_id alg force rejected reason v) as [[k|key next]|e]; [done| |done].
  destruct (refresh config (fetch o)) as [keys|e] eqn:Er.
  - unfold refresh_returned, mbind, eff_bind, run, reading, update. destruct (plus_seconds now _) as [until|e]; [|done].
    set (w := set_cache _ _ v). assert (cached config served w) as Hw.
    { split; [|done]. intros c [= <-]. exists (fetch o). cbn. rewrite fresh_objects_values. split; [done|]. by apply refresh_trusted. }
    destruct force; [|done]. pose proof (record_negative_spec config key now w) as Hr. destruct (record_negative config key now w) as [[u|e] w'].
    all: destruct Hr as (Ec & _ & _ & _ & Hl & _); try destruct (plus_seconds now _); by apply (cached_same _ _ w).
  - unfold refresh_failed, mbind, eff_bind, run, update. destruct (plus_seconds now _) as [until|e']; [|done].
    destruct force; [|done]. pose proof (record_negative_spec config key now (set_backoff until v)) as Hr.
    destruct (record_negative config key now _) as [[u|e'] w']; destruct Hr as (Ec & _ & _ & _ & Hl & _); by apply (cached_same _ _ v).
Qed.
Lemma vstep_cached config served v w : vstep config served v w → cached config served v → cached config served w.
Proof.
  intros [] Hc; [by apply find_key_cached|]. unfold close_verifier. destruct (verifier_closed v0); [done|]. split; cbn; [done|lia].
Qed.

(** The keys that verification uses. *)
Definition vouched config (served : fetcher → Prop) (key_id : option pystr) (alg : pystr) (k : oidc_key) : Prop :=
  ∃ f keys, served f ∧ trusted_keys config f keys ∧ k ∈ keys ∧ algorithm k = alg ∧
    (∀ i, key_id = Some i → kid k = Some i) ∧ (∀ k', k' ∈ keys → is_candidate key_id alg k' = true → k' = k).

Lemma select_vouched config served f (keys : list key_object) key_id alg k : served f → trusted_keys config f (snd <$> keys) →
  select_key keys key_id alg = Some k → vouched config served key_id alg k.2.
Proof.
  intros Hf Ht (Hk & Hc & Hu)%select_key_Some. exists f, (snd <$> keys). pose proof Hc as [Ha Hi]%is_candidate_iff.
  split_and!; try done; [by apply list_elem_of_fmap_2|]. intros k' (o & -> & Ho)%list_elem_of_fmap Hc'. by rewrite (Hu o Ho Hc').
Qed.

Lemma consult_Answer now key_id alg force rejected reason v k : consult now key_id alg force rejected reason v = Ok (Answer (Some k)) →
  ∃ c, cache v = Some c ∧ select_key (cached_keys c) key_id alg = Some k.
Proof.
  unfold consult. destruct (verifier_closed v); [done|]. cbn [raise_if mbind result_bind].
  destruct (cache v) as [c|] eqn:Ec; cbn [mbind option_bind fmap option_fmap option_map default from_option].
  - repeat case_match; intros [= E]; eauto.
  - repeat case_match; by intros [= E].
Qed.

Lemma find_key_vouched config served o key_id alg force rejected reason v k w : served (fetch o) → cached config served v →
  find_key config o key_id alg force rejected reason v = (Ok (Some k), w) → vouched config served key_id alg k.2.
Proof.
  intros Hs Hc. unfold find_key, mbind, eff_bind, run. destruct (oidc_now (clock o)) as [now|e]; [|done].
  destruct (consult now key_id alg force rejected reason v) as [[k'|key next]|e] eqn:E; [| |done].
  - intros [= -> ->]. apply consult_Answer in E as (c & Ec & Hk). destruct (cache_trusted _ _ _ Hc c Ec) as (f & Hf & Ht).
    by eapply select_vouched.
  - destruct (refresh config (fetch o)) as [keys|e] eqn:Er.
    + unfold refresh_returned, mbind, eff_bind, run, reading, update. destruct (plus_seconds now _) as [until|e]; [|done].
      assert (∀ w0, (Ok (select_key (fresh_objects (objects v) keys) key_id alg) : py _, w0) = (Ok (Some k), w) → vouched config served key_id alg k.2) as Hsel.
      { intros w0 [= Hk _]. eapply select_vouched; [done| |done]. rewrite fresh_objects_values. by apply refresh_trusted. }
      destruct force; [|apply Hsel]. destruct (record_negative _ _ _ _) as [[u|e] w']; [|done].
      destruct (plus_seconds now _); [apply Hsel|done].
    + unfold refresh_failed, mbind, eff_bind, run, update. destruct (plus_seconds now _) as [until|e']; [|done].
      destruct force; [|done]. by destruct (record_negative _ _ _ _) as [[u|e'] w'].
Qed.

(** ** Verification *)

(** What other threads do are steps of the verifier. *)
Definition threads config served (s : surroundings) : Prop :=
  (∀ i, served (fetch (seen s i))) ∧ (∀ i v, rtc (vstep config served) v (others s i v)).

Lemma others_cached config served s i v : threads config served s → cached config served v → cached config served (others s i v).
Proof. intros [_ Ho]. specialize (Ho i v). induction Ho; [done|]. intros Hc. by eapply IHHo, vstep_cached. Qed.

Lemma ask_cached config served s i key_id alg force rejected reason v : threads config served s → cached config served v →
  let '(r, w) := ask config s i key_id alg force rejected reason v in
  cached config served w ∧ ∀ k, r = Ok (Some k) → vouched config served key_id alg k.2.
Proof.
  intros Ht Hc. destruct (ask config s i key_id alg force rejected reason v) as [r w] eqn:E.
  unfold ask, mbind, eff_bind, update in E. pose proof (others_cached _ _ _ i _ Ht Hc) as Ho. split.
  - pose proof (find_key_cached config served (seen s i) key_id alg force rejected reason _ (proj1 Ht i) Ho) as Hf. by rewrite E in Hf.
  - intros k ->. by eapply find_key_vouched; [apply Ht|exact Ho|].
Qed.
Lemma usable_Some alg k k' : usable alg k = Some k' → k = Some k' ∧ algorithm k'.2 = alg.
Proof. unfold usable. destruct k as [k|]; [|done]. destruct (str_eqb _ _) eqn:E; [|done]. apply str_eqb_eq in E. by intros [= <-]. Qed.

Lemma verify_with_vouched config served s key_id alg signed signature v k w : threads config served s → cached config served v →
  verify_with config s key_id alg signed signature v = (Ok k, w) →
  vouched config served key_id alg k ∧ verify_signature k signed signature = Ok ().
Proof.
  intros Ht Hc. unfold verify_with. intros (first & v1 & Hf1 & (second & v2 & Hf2 & Hk)%eff_bind_Ok)%eff_bind_Ok.
  pose proof (ask_cached config served s 0 key_id alg false None [] v Ht Hc) as Ha. rewrite Hf1 in Ha. destruct Ha as [Hc1 Hv1].
  assert (cached config served v2 ∧ ∀ x, second = Some x → vouched config served key_id alg x.2) as [Hc2 Hv2].
  { destruct (usable alg first) as [x|] eqn:Eu; [injection Hf2 as <- <-; split; [done|]; intros y ->; by apply Hv1|].
    pose proof (ask_cached config served s 1 key_id alg true None (u "unknown") v1 Ht Hc1) as Ha. rewrite Hf2 in Ha.
    destruct Ha as [? Hv]. split; [done|]. intros y ->. by apply Hv. }
  destruct (usable alg second) as [x|] eqn:Ex; [|done]. apply usable_Some in Ex as [-> _].
  destruct (verify_signature x.2 signed signature) as [[]|e] eqn:Es.
  { injection Hk as <- <-. split; [by apply Hv2|done]. }
  destruct e; try done. apply eff_bind_Ok in Hk as (third & v3 & Hf3 & Hk).
  pose proof (ask_cached config served s 2 key_id alg true (Some x) (u "signature") v2 Ht Hc2) as Ha. rewrite Hf3 in Ha.
  destruct Ha as [_ Hv3]. destruct (usable alg third) as [y|] eqn:Ey; [|done]. apply usable_Some in Ey as [-> _].
  apply eff_bind_Ok in Hk as ([] & v4 & Hs & Hk). injection Hs as Hs ->. injection Hk as <- <-. split; [by apply Hv3|done].
Qed.

(** What the claims of an accepted token say. *)
Record accepted config (now : Z) (claims : list (pystr * pyval)) (expected_nonce : pyval) (i : oidc_identity) : Prop := {
  accepted_issuer : assoc (u "iss") claims = Some (PStr (issuer config)) ∧ id_issuer i = issuer config;
  accepted_subject : assoc (u "sub") claims = Some (PStr (id_subject i)) ∧ id_subject i ≠ [];
  accepted_audiences : client_id config ∈ id_audiences i ∧ (∃ a, a ∈ id_audiences i ∧ a ∈ audiences config) ∧
    (assoc (u "aud") claims = Some (PList (PStr <$> id_audiences i)) ∨ ∃ a, assoc (u "aud") claims = Some (PStr a) ∧ id_audiences i = [a]);
  accepted_party : id_authorized_party i = Some (client_id config) ∨ (id_authorized_party i = None ∧ (length (id_audiences i) ≤ 1)%nat);
  accepted_times : ∃ nbf, assoc (u "exp") claims = Some (PInt (id_expires_at i)) ∧ assoc (u "iat") claims = Some (PInt (id_issued_at i)) ∧
    assoc (u "nbf") claims = Some (PInt nbf) ∧ whole_timestamp now < id_expires_at i + leeway_seconds config ∧
    nbf ≤ whole_timestamp now + leeway_seconds config ∧ id_issued_at i ≤ whole_timestamp now + leeway_seconds config;
  accepted_nonce : ∀ s, expected_nonce = PStr s → assoc (u "nonce") claims = Some (PStr s) ∧ id_nonce i = Some s;
  accepted_claims : id_claims i = freeze_json (PDict claims);
}.

Lemma required_string_Ok d name s : required_string d name = Ok s → assoc (u name) d = Some (PStr s) ∧ s ≠ [].
Proof.
  unfold required_string. destruct (assoc (u name) d) as [[]|]; cbn; try done. intros Hr. inv_ok. refl_bool. done.
Qed.
Lemma numeric_date_Ok d name z : numeric_date d name = Ok z → assoc (u name) d = Some (PInt z).
Proof. unfold numeric_date. destruct (assoc (u name) d) as [[]|]; cbn; try done. intros Hr. by inv_ok. Qed.
Lemma collect_strings_Ok result items r : collect_strings result items = Ok r → ∃ new, r = result ++ new ∧ items = PStr <$> new.
Proof.
  revert result. induction items as [|x items IH]; intros result; cbn [collect_strings].
  { intros [= <-]. exists []. by rewrite app_nil_r. }
  destruct x; try done. intros Hr. inv_ok. apply IH in Hr as (new & -> & ->). eexists (_ :: new). by rewrite <-app_assoc.
Qed.

Lemma validate_audiences_Ok claims config found : validate_audiences claims config = Ok found →
  client_id config ∈ found ∧ (∃ a, a ∈ found ∧ a ∈ audiences config) ∧
  (assoc (u "aud") claims = Some (PList (PStr <$> found)) ∨ ∃ a, assoc (u "aud") claims = Some (PStr a) ∧ found = [a]).
Proof.
  unfold validate_audiences. intros Hv. inv_ok. unfold str_in in *. refl_bool. split; [done|]. split.
  { rename select (existsb _ _ = true) into He. apply existsb_exists in He as (a & Ha & Hin). exists a. refl_bool.
    split; [by apply list_elem_of_In|done]. }
  destruct (assoc (u "aud") claims) as [[| | | | | |s|l|]|]; cbn in *; try done; [right; inv_ok; eauto|left].
  inv_ok. rename select (collect_strings _ _ = _) into Hc. apply collect_strings_Ok in Hc as (new & -> & ->). done.
Qed.
Lemma validate_claims_Ok claims config now nonce i : validate_claims claims config now nonce = Ok i → accepted config now claims nonce i.
Proof.
  unfold validate_claims. intros Hv. inv_ok. destruct x4 as [issued exp]. inv_ok.
  rename select (str_eqb _ _ = true) into Hi. apply str_eqb_eq in Hi as ->.
  apply required_string_Ok in Hx as [Hiss _]. apply required_string_Ok in Hx0 as [Hsub Hne].
  split; cbn; [done|done|by apply validate_audiences_Ok| | | |done].
  - revert Hx3. unfold validate_authorized_party. destruct (_ || _) eqn:E.
    + destruct (opt_val _); try done. intros Hp. inv_ok. rename select (str_eqb _ _ = true) into Ha. apply str_eqb_eq in Ha as ->. by left.
    + intros [= <-]. right. apply orb_false_iff in E as [E _]. apply Nat.ltb_ge in E. done.
  - unfold validate_times in Hx4. clear Hx2 Hx3 Hx5 Hx6 Hx7 Hx8. inv_ok. refl_bool. apply numeric_date_Ok in Hx, Hx0, Hx1.
    eexists. split_and!; done || lia.
  - intros s ->. revert Hx5. unfold validate_nonce. intros Hn. inv_ok. rename select (py_eqb _ _ = true) into E. apply py_eqb_str in E.
    destruct (assoc (u "nonce") claims); cbn in E; subst; done.
Qed.

(** C8: An identity that [verify] returns is from a token whose header names an algorithm of
    the configuration, whose signature a key of that algorithm and identifier accepts, the
    only such key of a key set from an origin of the issuer that its discovery document
    named, and whose claims name the issuer, this client and an expected audience, are within
    their times and carry the expected nonce; whatever other threads do meanwhile. *)
Theorem verified_identities_are_authentic config served s token nonce v i w :
  threads config served s → rtc (vstep config served) new_verifier v →
  verify config s token nonce v = (Ok i, w) →
  ∃ header claims signed signature key_id alg key now,
    parse_token token = Ok (header, claims, signed, signature) ∧
    validate_header config header = Ok (key_id, alg) ∧ alg ∈ algorithms config ∧
    vouched config served key_id alg key ∧ verify_signature key signed signature = Ok () ∧
    oidc_now (last_clock s) = Ok now ∧ accepted config now claims nonce i.
Proof.
  intros Ht Hr Hv. assert (cached config served v) as Hc.
  { assert (cached config served new_verifier) as H0' by (split; [done|cbn; lia]). clear Hv.
    induction Hr; [done|]. by eapply IHHr, vstep_cached. }
  unfold verify in Hv. destruct (verify_unsafe config s token nonce v) as [r w'] eqn:E. injection Hv as Hv ->.
  unfold oidc_capture in Hv. rewrite except_raise_Ok in Hv. subst r. unfold verify_unsafe in E.
  apply eff_bind_Ok in E as (closed & v1 & Ecl & E). injection Ecl as <- <-. apply eff_bind_Ok in E as ([] & v1 & Ecl & E).
  injection Ecl as _ <-. apply eff_bind_Ok in E as ([[[header claims] signed] signature] & v1 & Hp & E). injection Hp as Hp <-.
  apply eff_bind_Ok in E as ([key_id alg] & v1 & Hh & E). injection Hh as Hh <-. apply eff_bind_Ok in E as (key & v1 & Hk & E).
  apply eff_bind_Ok in E as (now & v2 & Hn & E). injection Hn as Hn <-. injection E as E <-. cbn [fst snd] in Hk.
  apply (verify_with_vouched config served) in Hk as [Hvo Hsig]; [|done..]. exists header, claims, signed, signature, key_id, alg, key, now.
  split_and!; try done; [|by apply validate_claims_Ok].
  unfold validate_header in Hh. inv_ok. unfold str_in in *. by refl_bool.
Qed.

(** ** Refreshes *)

(** The ways in which [_verify] calls [_key]. *)
Inductive lane := Ordinary | Unknown | Signature (rejected : key_object).
Definition is_forced (x : lane) : bool := match x with Ordinary => false | _ => true end.
Definition lane_reason (x : lane) : pystr := match x with Ordinary => [] | Unknown => u "unknown" | Signature _ => u "signature" end.
Definition lane_rejected (x : lane) : option key_object := match x with Signature k => Some k | _ => None end.
Inductive event := Call (o : observation) (key_id : option pystr) (alg : pystr) (x : lane) | Close (closing : py ()).

Definition perform config (e : event) v : verifier :=
  match e with
  | Call o key_id alg x => (find_key config o key_id alg (is_forced x) (lane_rejected x) (lane_reason x) v).2
  | Close closing => (close_verifier closing v).2
  end.
(** Whether an event calls the fetcher, and how many of a sequence do. *)
Definition renews (e : event) v : bool :=
  match e with
  | Call o key_id alg x =>
      match oidc_now (clock o) with
      | Ok now =>
          match consult now key_id alg (is_forced x) (lane_rejected x) (lane_reason x) v with Ok (Renew _ _) => true | _ => false end
      | Raise _ => false
      end
  | Close _ => false
  end.
Fixpoint refreshes config (es : list event) v : nat :=
  match es with
  | [] => 0
  | e :: es => (if renews e v then 1 else 0) + refreshes config es (perform config e v)
  end.

(** The requests of a refresh: the discovery document, and the keys where it says if
    it is acceptable. *)
Definition jwks_location config f : py pystr :=
  discovery ← f (discovery_url config) (max_document_bytes config);
  raise_if (negb (py_eqb (opt_val (assoc (u "issuer") discovery)) (PStr (issuer config)))) ValueError;;
  issuer_origin ← origin_of (issuer config);
  discovered_jwks ← oidc_url (opt_val (assoc (u "jwks_uri") discovery)) (Some (issuer_origin :: allowed_jwks_origins config));
  raise_if (match jwks_url config with Some url => negb (str_eqb discovered_jwks url) | None => false end) ValueError;;
  Ok (default discovered_jwks (jwks_url config)).
Lemma refresh_requests config f :
  refresh config f = (url ← jwks_location config f; document ← f url (max_document_bytes config);
                      parse_jwks document (algorithms config)).
Proof.
  unfold refresh, jwks_location. destruct (f _ _) as [discovery|e]; [|done]. cbn [mbind result_bind].
  destruct (raise_if _ _); [|done]. cbn. destruct (origin_of _); [|done]. cbn. destruct (oidc_url _ _); [|done]. cbn.
  by destruct (raise_if _ _).
Qed.
Definition fetched config f : list pystr :=
  discovery_url config :: match jwks_location config f with Ok url => [url] | Raise _ => [] end.

(** The requests of a sequence of events. *)
Fixpoint requests config (es : list event) v : list pystr :=
  match es with
  | [] => []
  | e :: es =>
      match e with Call o _ _ _ => if renews e v then fetched config (fetch o) else [] | Close _ => [] end
      ++ requests config es (perform config e v)
  end.
Lemma requests_refreshes config es v : (length (requests config es v) ≤ 2 * refreshes config es v)%nat.
Proof.
  revert v. induction es as [|e es IH]; intros v; cbn [requests refreshes]; [cbn; lia|].
  rewrite length_app. specialize (IH (perform config e v)). destruct e as [o key_id alg x|closing]; [|cbn [length renews]; lia].
  destruct (renews _ _); [|cbn [length]; lia]. unfold fetched. destruct (jwks_location _ _); cbn [length]; lia.
Qed.

(** What [_validate_config] ensures of the intervals. *)
Definition intervals_ok config : Prop :=
  1 ≤ cache_ttl_seconds config ≤ 86400 ∧ 1 ≤ refresh_cooldown_seconds config ≤ 3600 ∧
  1 ≤ failure_backoff_seconds config ≤ 300 ∧ 1 ≤ max_unknown_rotation_delay_seconds config ≤ 3600.
(** The shortest of the intervals. *)
Definition quiet_seconds config : Z :=
  Z.min (Z.min (cache_ttl_seconds config) (max_unknown_rotation_delay_seconds config))
    (Z.min (refresh_cooldown_seconds config) (failure_backoff_seconds config)).

Section window.
Variables (config : oidc_config) (start : Z).
Hypotheses (Hi : intervals_ok config) (Hcal : start + 200000 * 1000000 ≤ MAX_TIMESTAMP * 1000000).
Definition window_end := start + quiet_seconds config * 1000000.
Definition in_window (e : event) : Prop :=
  match e with Call o _ _ _ => ∀ now, oidc_now (clock o) = Ok now → start ≤ now < window_end | Close _ => True end.

Definition holds_until (t : option Z) : bool := match t with Some t => window_end <=? t | None => false end.
(** The lanes that may still refresh in the window. *)
Definition lane_count (o : option Z) : nat := if holds_until o then 0 else 1.
Definition lanes_left v : nat :=
  if verifier_closed v || holds_until (refresh_backoff_until v) then 0
  else lane_count (cache_expires_at <$> cache v) + lane_count (assoc (u "unknown") (forced_refresh_until v)) +
       lane_count (assoc (u "signature") (forced_refresh_until v)).

Lemma plus_seconds_window now seconds : start ≤ now < window_end → quiet_seconds config ≤ seconds ≤ 86400 →
  ∃ t, plus_seconds now seconds = Ok t ∧ holds_until (Some t) = true.
Proof.
  intros Hn Hs. destruct Hi as (? & ? & ? & ?). unfold window_end, quiet_seconds in *. unfold plus_seconds.
  rewrite (proj2 (Z.leb_gt _ _)) by lia. eexists. split; [done|]. cbn. apply Z.leb_le. unfold window_end, quiet_seconds. lia.
Qed.
Lemma not_before now t : start ≤ now < window_end → before now t = false → holds_until t = false.
Proof. destruct t as [t|]; [|done]. cbn. rewrite Z.ltb_ge, Z.leb_gt. lia. Qed.

Lemma consult_Renew now key_id alg x v key next : start ≤ now < window_end →
  consult now key_id alg (is_forced x) (lane_rejected x) (lane_reason x) v = Ok (Renew key next) →
  verifier_closed v = false ∧ holds_until (refresh_backoff_until v) = false ∧
  match x with
  | Ordinary => holds_until (cache_expires_at <$> cache v) = false
  | _ => holds_until (assoc (lane_reason x) (forced_refresh_until v)) = false
  end.
Proof.
  intros Hn. unfold consult. destruct (verifier_closed v); [done|]. cbn [raise_if mbind result_bind].
  destruct (negb _ && before _ _) eqn:E1; [done|]. destruct (is_forced x && _ && _ && _); [done|].
  destruct (is_forced x && _) eqn:E2; [done|]. destruct (before now (refresh_backoff_until v)) eqn:E3; [done|]. intros _.
  split_and!; [done|by eapply not_before|]. destruct x; cbn in *; [by eapply not_before| |].
  all: apply orb_false_iff in E2 as [_ E2]; by eapply not_before.
Qed.

(** What a refresh leaves. *)
Lemma refresh_left o key_id alg x v now key next : start ≤ now < window_end → oidc_now (clock o) = Ok now →
  consult now key_id alg (is_forced x) (lane_rejected x) (lane_reason x) v = Ok (Renew key next) →
  let w := perform config (Call o key_id alg x) v in
  verifier_closed w = verifier_closed v ∧
  (holds_until (refresh_backoff_until w) = true ∨
   holds_until (cache_expires_at <$> cache w) = true ∧
   forced_refresh_until w = forced_refresh_until v ∧ is_forced x = false ∨
   holds_until (cache_expires_at <$> cache w) = true ∧
   ∃ t, forced_refresh_until w = assoc_set (lane_reason x) t (forced_refresh_until v) ∧ holds_until (Some t) = true).
Proof.
  intros Hn Ho Hr w. destruct Hi as (Ht & Hcool & Hb & Hd).
  unfold w, perform, find_key, mbind, eff_bind, run. rewrite Ho, Hr. destruct (refresh config (fetch o)) as [keys|e].
  - unfold refresh_returned, mbind, eff_bind, run, reading, update.
    destruct (plus_seconds_window now (Z.min (cache_ttl_seconds config) (max_unknown_rotation_delay_seconds config)) Hn) as (t & -> & Hh).
    { unfold quiet_seconds. lia. }
    destruct (is_forced x) eqn:Ef; [|cbn; split; [done|]; right; left; done].
    destruct (plus_seconds_window now (refresh_cooldown_seconds config) Hn) as (t' & Ep & Hh'); [unfold quiet_seconds; lia|].
    set (v1 := set_cache _ _ v). pose proof (record_negative_spec config key now v1) as Hs.
    destruct (record_negative config key now v1) as [[u0|e] w1]; destruct Hs as (Ec & Efo & _ & Ecl & _ & Eo); rewrite Ep in Eo; [|done].
    rewrite Ep. cbn. rewrite Ec, Efo, Ecl. cbn. split; [done|]. right; right. eauto.
  - unfold refresh_failed, mbind, eff_bind, run, update.
    destruct (plus_seconds_window now (failure_backoff_seconds config) Hn) as (t & -> & Hh); [unfold quiet_seconds; lia|].
    destruct (is_forced x); [|cbn; split; [done|]; left; done].
    pose proof (record_negative_spec config key now (set_backoff t v)) as Hs.
    destruct (record_negative config key now _) as [[u0|e'] w1]; destruct Hs as (_ & _ & Eb & Ecl & _); cbn; rewrite Eb, Ecl; split; [done|by left|done|by left].
Qed.

Lemma lane_count_le o : (lane_count o ≤ 1)%nat.
Proof. unfold lane_count. destruct (holds_until o); lia. Qed.
Lemma perform_lanes e v : in_window e →
  ((if renews e v then 1 else 0) + lanes_left (perform config e v) ≤ lanes_left v)%nat.
Proof.
  intros Hw. destruct e as [o key_id alg x|closing].
  2: { cbn. unfold close_verifier. destruct (verifier_closed v); cbn; lia. }
  cbn [renews]. destruct (oidc_now (clock o)) as [now|e] eqn:Ho.
  2: { cbn [perform]. unfold find_key, mbind, eff_bind, run. rewrite Ho. cbn. lia. }
  specialize (Hw now Ho). destruct (consult now key_id alg (is_forced x) (lane_rejected x) (lane_reason x) v) as [[k|key next]|e] eqn:E.
  1,3: cbn [perform]; unfold find_key, mbind, eff_bind, run; rewrite Ho, E; cbn; lia.
  destruct (consult_Renew now key_id alg x v key next Hw E) as (Hc & Hb & Hx).
  destruct (refresh_left o key_id alg x v now key next Hw Ho E) as (Hc' & Hl). set (w := perform _ _ v) in *.
  unfold lanes_left. rewrite Hc', Hc, Hb. cbn [orb]. destruct (holds_until (refresh_backoff_until w)) eqn:Hb'.
  { destruct x; unfold lane_count at 1 2 3; cbn [lane_reason] in Hx; rewrite Hx; lia. }
  destruct Hl as [?|[(Hcw & -> & Hf)|(Hcw & t & -> & Ht)]]; [done| |].
  - destruct x; try done. unfold lane_count at 1 4. rewrite Hcw, Hx. lia.
  - unfold lane_count at 1. rewrite Hcw. pose proof (lane_count_le (cache_expires_at <$> cache v)). destruct x; cbn [lane_reason] in *.
    + rewrite !assoc_set_other by done. unfold lane_count at 3. rewrite Hx. lia.
    + rewrite assoc_set_same, assoc_set_other by done. unfold lane_count at 1 4. rewrite Ht, Hx. lia.
    + rewrite assoc_set_other, assoc_set_same by done. unfold lane_count at 2 5. rewrite Ht, Hx. lia.
Qed.
Lemma refreshes_lanes es v : Forall in_window es → (refreshes config es v ≤ lanes_left v)%nat.
Proof.
  intros Hes. revert v. induction Hes as [|e es He _ IH]; intros v; [cbn; lia|].
  cbn [refreshes]. specialize (IH (perform config e v)). pose proof (perform_lanes e v He). lia.
Qed.
Lemma failed_refresh_left e es v : in_window e → Forall in_window es → renews e v = true →
  match e with Call o _ _ _ => is_Ok (refresh config (fetch o)) = false | Close _ => True end →
  refreshes config (e :: es) v = 1%nat.
Proof.
  intros He Hes Hr Hf. cbn [refreshes]. rewrite Hr. pose proof (refreshes_lanes es (perform config e v) Hes) as Hl.
  assert (lanes_left (perform config e v) = 0%nat) as H0'; [|lia]. destruct e as [o key_id alg x|]; [|done]. cbn [renews] in Hr.
  destruct (oidc_now (clock o)) as [now|] eqn:Ho; [|done]. specialize (He now Ho).
  destruct (consult now key_id alg (is_forced x) (lane_rejected x) (lane_reason x) v) as [[k|key next]|e] eqn:E; [done| |done].
  unfold lanes_left, perform, find_key, mbind, eff_bind, run. rewrite Ho, E. destruct (refresh config (fetch o)); [done|].
  unfold refresh_failed, mbind, eff_bind, run, update. destruct Hi as (? & ? & ? & ?).
  destruct (plus_seconds_window now (failure_backoff_seconds config) He) as (t & -> & Hh); [unfold quiet_seconds; lia|].
  destruct (is_forced x); [|cbn in *; rewrite Hh; by destruct (verifier_closed v)].
  pose proof (record_negative_spec config key now (set_backoff t v)) as Hs.
  destruct (record_negative config key now _) as [[u0|e'] w1]; destruct Hs as (_ & _ & Eb & Ecl & _); cbn; rewrite Eb; cbn in *; rewrite Hh;
    by destruct (verifier_closed w1).
Qed.
End window.


(** A key in a cache that has not expired suffices: a token that it signed, with valid
    claims, is verified without a call to the issuer and without a change of the state,
    whatever the backoff, the lanes and the negative entries are. *)
Theorem cached_keys_suffice config s token nonce v c header claims signed signature key_id alg k now now' i :
  verifier_closed v = false → cache v = Some c → others s 0 v = v →
  oidc_now (clock (seen s 0)) = Ok now → now < cache_expires_at c →
  parse_token token = Ok (header, claims, signed, signature) → validate_header config header = Ok (key_id, alg) →
  select_key (cached_keys c) key_id alg = Some k → verify_signature k.2 signed signature = Ok () →
  oidc_now (last_clock s) = Ok now' → validate_claims claims config now' nonce = Ok i →
  verify config s token nonce v = (Ok i, v).
Proof.
  intros Hcl Hc Ho Hn Hlt Hp Hh Hk Hs Hn' Hi. pose proof Hk as (_ & [Ha _]%is_candidate_iff & _)%select_key_Some.
  assert (verify_with config s key_id alg signed signature v = (Ok k.2, v)) as Hv.
  { unfold verify_with, ask, find_key, mbind, eff_bind, update, run. rewrite Ho, Hn.
    assert (consult now key_id alg false None [] v = Ok (Answer (Some k))) as ->.
    { unfold consult. rewrite Hcl, Hc. cbn. rewrite (proj2 (Z.ltb_lt _ _) Hlt). by rewrite Hk. }
    cbn. rewrite Ha, str_eqb_refl. cbn. rewrite Ha, str_eqb_refl, Hs. done. }
  unfold verify, verify_unsafe, mbind, eff_bind, reading, run. rewrite Hcl. cbn [raise_if]. rewrite Hp, Hh. cbn [fst snd].
  rewrite Hv, Hn', Hi. done.
Qed.
End facts.

(** ** URLs *)

(** The slashes at the end of a text. *)
Definition trailing (t : pystr) : nat := leading 47 (rev t).
Lemma leading_cons c x l : leading c (x :: l) = if x =? c then S (leading c l) else 0%nat.
Proof. unfold leading. cbn. destruct (x =? c); [|done]. by destruct (span _ l). Qed.
Lemma leading_app_le c a b : (leading c a ≤ leading c (a ++ b))%nat.
Proof. induction a as [|x a IH]; [cbn; lia|]. cbn [app]. rewrite !leading_cons. destruct (x =? c); lia. Qed.
Lemma leading_app_other c a b : head b ≠ Some c → leading c (a ++ b) = leading c a.
Proof.
  intros Hb. induction a as [|x a IH]; cbn [app]; [|rewrite !leading_cons; destruct (x =? c); lia].
  destruct b as [|x b]; [done|]. rewrite leading_cons. destruct (x =? c) eqn:E; [|done]. apply Z.eqb_eq in E. by subst.
Qed.
Lemma leading_filter c (P : Z → Prop) `{∀ x, Decision (P x)} l : P c → (leading c l ≤ leading c (filter P l))%nat.
Proof.
  intros Hc. induction l as [|x l IH]; [done|]. rewrite leading_cons. destruct (x =? c) eqn:E; [|lia].
  apply Z.eqb_eq in E as ->. rewrite filter_cons_True by done. rewrite leading_cons, Z.eqb_refl. lia.
Qed.
Lemma filter_rev {A} (P : A → Prop) `{∀ x, Decision (P x)} l : filter P (rev l) = rev (filter P l).
Proof.
  induction l as [|x l IH]; [done|]. cbn [rev]. rewrite filter_app, IH. destruct (decide (P x)).
  - by rewrite !filter_cons_True.
  - rewrite !filter_cons_False by done. by rewrite app_nil_r.
Qed.
Lemma head_rev_last {A} (l : list A) : head (rev l) = last l.
Proof. rewrite rev_alt. change (rev_append l []) with (reverse l). apply head_reverse. Qed.
Lemma trailing_app_le a b : (trailing b ≤ trailing (a ++ b))%nat.
Proof. unfold trailing. rewrite rev_app_distr. apply leading_app_le. Qed.
Lemma trailing_app_other a b : last a ≠ Some 47 → trailing (a ++ b) = trailing b.
Proof. unfold trailing. rewrite rev_app_distr. intros Ha. apply leading_app_other. by rewrite head_rev_last. Qed.
Lemma trailing_snoc t : trailing (t ++ [47]) = S (trailing t).
Proof. unfold trailing. rewrite rev_app_distr. cbn [rev app]. by rewrite leading_cons. Qed.
Lemma trailing_last t : last t = Some 47 ↔ (0 < trailing t)%nat.
Proof.
  unfold trailing. rewrite <-head_rev_last. destruct (rev t) as [|x r]; [split; [done|cbn; lia]|]. cbn [head]. rewrite leading_cons.
  destruct (x =? 47) eqn:E; [apply Z.eqb_eq in E; subst; split; [lia|done]|]. apply Z.eqb_neq in E. split; [congruence|lia].
Qed.
Lemma rstrip_slash_last t : last (rstrip_slash t) ≠ Some 47.
Proof.
  unfold rstrip_slash. rewrite <-head_rev_last, rev_involutive. induction (rev t) as [|x r IH]; [done|]. cbn [drop_while].
  destruct (x =? 47) eqn:E; [done|]. apply Z.eqb_neq in E. cbn. congruence.
Qed.

Lemma span_stop f s a x b : span f s = (a, x :: b) → f x = false.
Proof.
  revert a. induction s as [|y s IH]; intros a; cbn; [done|]. destruct (f y) eqn:E; [|by intros [= _ <- _]].
  destruct (span f s) as [a' b'] eqn:Es. intros [= <- ->]. by eapply IH.
Qed.
Lemma split_once_shape c s a b : split_once c s = (a, b) → b = [] → s = a ∨ s = a ++ [c].
Proof.
  unfold split_once, partition. destruct (span _ s) as [a' [|x b']] eqn:E; cbn; intros [= <- <-] Hb; [by left|]. subst b'. right.
  pose proof (span_stop _ _ _ _ _ E) as Hx. apply span_prefix in E as [-> _]. apply negb_false_iff, Z.eqb_eq in Hx. by subst.
Qed.
Lemma split_once_free c s a b : split_once c s = (a, b) → Forall (λ x, x ≠ c) a.
Proof.
  unfold split_once, partition. destruct (span _ s) as [a' b'] eqn:E. apply span_prefix in E as [-> Ha].
  assert (Forall (λ x, x ≠ c) a') as Ha'.
  { eapply Forall_impl; [exact Ha|]. cbn. intros x. rewrite negb_true_iff. apply Z.eqb_neq. }
  destruct b' as [|x b']; cbn; intros [= <- <-]; [|done]. by rewrite app_nil_r.
Qed.

Section urls.
Context `{UrlData} `{IdnaCodec} `{IpData}.

(** The text that [urlsplit] reads. *)
Definition cleaned (s : pystr) : pystr :=
  filter (λ c, (c =? 9) || (c =? 10) || (c =? 13) = false) (drop_while (λ c, c <=? 32) s).
Lemma cleaned_trailing s : (trailing s ≤ trailing (cleaned s))%nat.
Proof.
  unfold cleaned. assert (trailing s = trailing (drop_while (λ c, c <=? 32) s)) as ->.
  { induction s as [|x s IH]; [done|]. cbn [drop_while]. destruct (x <=? 32) eqn:E; [|done]. apply Z.leb_le in E.
    rewrite <-IH. apply (trailing_app_other [x]). cbn. intros [= ->]. lia. }
  unfold trailing. rewrite <-filter_rev. by apply leading_filter.
Qed.

Lemma urlsplit_shape s r : urlsplit s = Ok r → netloc r ≠ [] → query r = [] → fragment r = [] →
  ∃ pre post, cleaned s = pre ++ netloc r ++ path r ++ post ∧ Forall (λ c, c ≠ 47) (netloc r) ∧ (post = [] ∨ last post ≠ Some 47) ∧
    (path r = [] ∨ head (path r) = Some 47).
Proof.
  unfold urlsplit. fold (cleaned s). destruct (split_scheme (cleaned s)) as [sch url] eqn:Es. intros Hu Hn Hq Hf.
  assert (∃ pre, cleaned s = pre ++ url) as [pre Hpre].
  { unfold split_scheme, partition in Es. destruct (span _ (cleaned s)) as [a [|x b]] eqn:E; [by exists []; simplify_eq|].
    apply span_prefix in E as [E _]. destruct a as [|y a]; [by exists []; simplify_eq|].
    destruct (_ && _); [|by exists []; simplify_eq]. injection Es as _ <-. exists ((y :: a) ++ [x]). by rewrite <-app_assoc. }
  apply bind_Ok_iff in Hu as ([nl rest] & Hn' & Hu). destruct (startswith (u "//") url) eqn:E2; [|injection Hn' as <- <-].
  2: { destruct (split_once 35 url) as [? ?], (split_once 63 _) as [? ?]. inv_ok. done. }
  destruct (span _ (drop 2 url)) as [nl' rest'] eqn:Esp. inv_ok.
  destruct (split_once 35 rest) as [url1 frag] eqn:E3, (split_once 63 url1) as [p q] eqn:E4. inv_ok. cbn in *. subst.
  pose proof (split_once_free _ _ _ _ E3) as F3. pose proof (split_once_free _ _ _ _ E4) as F4.
  assert (∃ post, rest = p ++ post ∧ (post = [] ∨ last post ≠ Some 47)) as (post & -> & Hpost).
  { destruct (split_once_shape _ _ _ _ E3 eq_refl) as [->| ->], (split_once_shape _ _ _ _ E4 eq_refl) as [->| ->].
    - exists []. rewrite app_nil_r. by split; [|left].
    - exists [63]. split; [done|]. by right.
    - exists [35]. split; [done|]. by right.
    - exists [63; 35]. split; [by rewrite <-app_assoc|]. by right. }
  exists (pre ++ take 2 url), post. split_and!; [| |done|].
  - apply span_prefix in Esp as [Esp _]. by rewrite Hpre, <-app_assoc, <-Esp, take_drop.
  - apply span_prefix in Esp as [_ Hnl]. eapply Forall_impl; [exact Hnl|]. cbn. by intros c Hc ->.
  - destruct p as [|x p]; [by left|]. right. apply span_stop, negb_false_iff in Esp. cbn.
    apply Forall_cons_1 in F4 as [F4 _].
    assert (x ≠ 35). { destruct (split_once_shape _ _ _ _ E4 eq_refl) as [->| ->]; by apply Forall_cons_1 in F3 as [? _]. }
    unfold one_of, has_char in Esp. change (u "/?#") with [47; 63; 35] in Esp. cbn [existsb] in Esp.
    rewrite !orb_true_iff, !Z.eqb_eq in Esp. destruct Esp as [->|[->|[->|]]]; done.
Qed.

Lemma hostname_netloc r name : hostname r = Some name → netloc r ≠ [].
Proof. intros Hh Hn. unfold hostname in Hh. by rewrite Hn in Hh. Qed.

(** [_url] accepts no URL that ends with a slash, neither an issuer nor the location of a
    key set, although it compares the canonical URL with [value.rstrip("/")] and with a slash
    appended. *)
Theorem trailing_slashes_are_refused s allowed_origins url :
  last s = Some 47 → oidc_url (PStr s) allowed_origins ≠ Ok url.
Proof.
  intros Hl Hu. unfold oidc_url in Hu. inv_ok. rename x0 into r. destruct (hostname r) as [name|] eqn:Eh; [|done]. inv_ok. refl_bool.
  apply hostname_netloc in Eh. rename select (urlsplit s = Ok r) into Hs.
  destruct (urlsplit_shape s r Hs Eh) as (pre & post & Hc & Hnl & Hp & Hh); [done..|].
  assert (last (netloc r) ≠ Some 47) as Hln.
  { intros Hin%last_Some_elem_of. rewrite Forall_forall in Hnl. by apply (Hnl 47). }
  apply trailing_last in Hl. pose proof (cleaned_trailing s) as Ht. rewrite Hc in Ht.
  assert (post = []) as ->.
  { destruct post as [|c post]; [done|]. destruct Hp as [|Hp]; [done|]. exfalso. apply Hp.
    assert (last (pre ++ netloc r ++ path r ++ c :: post) = Some 47) as Hlast by (apply trailing_last; lia).
    rewrite !app_assoc, last_app in Hlast. destruct (last (c :: post)) eqn:E; [done|]. by apply last_None in E. }
  rewrite app_nil_r, app_assoc, trailing_app_other in Ht.
  2: { rewrite last_app. by destruct (last (netloc r)) eqn:E; [|apply last_None in E]. }
  destruct Hh as [Hh|Hh]; [rewrite Hh in Ht; cbn in Ht; lia|]. destruct (path r) as [|c p] eqn:Ep; [done|]. injection Hh as ->.
  set (canonical := urlunsplit _ _ _ _) in *.
  assert (∃ q, canonical = q ++ 47 :: p) as [q Hq].
  { unfold canonical, urlunsplit. rewrite startswith_cons, Z.eqb_refl. change (startswith [] p) with true. rewrite andb_false_r.
    rewrite (bool_decide_true ([] = [])), bool_decide_false by done.
    exists (u "https" ++ [58] ++ u "//" ++ authority_of (ascii_lower <$> x1) x0). by rewrite <-!app_assoc. }
  pose proof (trailing_app_le q (47 :: p)) as Hle. rewrite <-Hq in Hle.
  apply andb_false_iff in Hx6 as [Hx6|Hx6]; apply negb_false_iff, str_eqb_eq in Hx6.
  - apply (rstrip_slash_last s). rewrite <-Hx6. apply trailing_last. lia.
  - rewrite <-Hx6, trailing_snoc in Ht. lia.
Qed.
End urls.
